(* ===== verification/_CoqProject ===== *)
-Q . S2P
Prelude.v
Text.v
TaskLedger.v
Readiness.v
PollLanes.v
LaneDebts.v
LaneSafety.v
OwnerSafety.v
LaneTheorems.v
LaneContract.v
LaneDrain.v
ClientCalls.v
ClientSafety.v
HeartbeatThrottle.v
HeartbeatSafety.v
Protocol.v
ProtocolTrees.v
ProtocolText.v
ProtocolCanonical.v
ProtocolCodec.v
ReferenceCodec.v
ReferenceReader.v
WorkflowTypes.v
CoreMessages.v
WorkflowChecks.v
ActivationChecks.v
CompletionChecks.v
Documents.v
CoreConversion.v
FailureConversion.v
ActivationConversion.v
CompletionConversion.v
PayloadWire.v
ActivityProtocol.v
ActivityDocuments.v
ClientTypes.v
ClientChecks.v
ClientStatus.v
ClientMessages.v
ClientOperations.v
ClientLoops.v
ClientDocuments.v
Diagnostics.v
Replay.v
ReplayWorker.v
ReplaySafety.v
ReplayNatural.v
WorkerConfig.v
BindAddress.v
Telemetry.v
MetricMeter.v
Scrapes.v
Sigpipe.v
Failures.v
AsyncActivity.v
ClientRpc.v
RuntimeCalls.v
RuntimeSafety.v
Handoffs.v
HandoffSafety.v
Abi.v
AbiSafety.v
RuntimeGraph.v
Exports.v
ReferenceCore.v
ReferenceActivity.v
ReferenceDocuments.v
ReferenceClient.v
ReferenceCalls.v
ReferenceHandoffs.v
ReferenceRuntime.v
ReferenceReplay.v
