(* ===== verification/Prelude.v ===== *)
(** * Verification of the Temporal Core bridge

    The repository is an OCaml SDK for Temporal.  Its Rust crate
    src/rust/core-bridge stands between the OCaml library and Temporal's Core: it
    polls Core for workflow activations and activity tasks, keeps a ledger of what
    was handed out, converts Core's protobuf messages to closed semantic documents
    and back, carries them across the C boundary as strict JSON, throttles the
    heartbeats of asynchronous activities, keeps the calls of the client API, replays
    histories, forwards Core's logs and metrics, and owns all of it in one runtime
    graph behind a C interface.
    This library models those parts as executable definitions and proves what
    makes them correct.

    ** How the parts interact

    A poll lane takes a task from Core, converts it ([ActivationConversion],
    [ActivityProtocol]), records it in the ledger ([TaskLedger]) and enqueues it
    ([Readiness]).  The owner takes it from the queue, which turns the record into
    a lease, and later completes or rejects it, which settles the lease and sends
    Core a completion ([CompletionConversion], [ActivityProtocol]).  Shutdown
    closes the queues, retires what was not delivered and finalizes only a ledger
    that owes nothing ([PollLanes]).  Texts cross the boundary through the JSON
    codec ([Protocol]), client calls through cells that hold at most one outcome
    ([ClientCalls]), and heartbeats of handed-off activities through per-token
    drivers ([HeartbeatThrottle]).  A runtime graph owns the connection, the tasks
    of the submitted calls and starts ([RuntimeCalls]), the live or the replay
    worker and the documents of the tasks that OCaml holds ([Handoffs]).

    ** Files

    - [Prelude]: results and their sequencing ([let?]), the lemmas that turn a
      sequence of checks into a conjunction, machine integers, occurrences.
    - [Text]: the strings of Rust: UTF-8, character boundaries, decimal numbers,
      floating-point numbers given by their bits.
    - [TaskLedger]: [TaskLedger] of worker_bridge.rs with every method; the
      invariant and the refinement of the ledger to a product of automata, one per
      run or token.
    - [Readiness]: [Readiness] and the waits of worker_bridge.rs; the channel is
      the class [Mpsc].
    - [PollLanes]: both lane tasks and every operation of the owner, as program
      points that run one atomic action after the other; Core's replies, polls and
      timers are inputs.  [LaneDebts] counts what is owed to Core, [LaneSafety] and
      [OwnerSafety] carry the invariant through each program point,
      [LaneTheorems], [LaneContract] and [LaneDrain] state the consequences.
    - [ClientCalls]: client_calls.rs and the limits of abi.rs it uses; each mutex
      section is one action.  [ClientSafety] holds the invariant and theorems.
    - [HeartbeatThrottle]: heartbeat_throttle.rs with its driver tasks;
      [HeartbeatSafety] holds the invariant and theorems.
    - [Protocol]: protocol.rs: limits, the scan before parsing, the strict visitor,
      the tree check, envelopes and rendering; serde_json's reader and string
      writer are the class [SerdeJson], base64 is the class [Base64].
      [ProtocolTrees], [ProtocolText], [ProtocolCanonical] and [ProtocolCodec]
      prove what each accepts and that encoding and decoding are inverse;
      [ReferenceCodec] is a JSON and base64 codec that satisfies the classes.
    - [WorkflowTypes]: the semantic types of workflow_protocol.rs.
    - [CoreMessages]: the fields of Core's protobuf messages that the bridge reads
      or sets; the crate that declares them is not part of the repository, and what
      the bridge relies on is stated by the classes [CoreEnums] and
      [CompletionFail] with their laws.
    - [WorkflowChecks], [ActivationChecks], [CompletionChecks]: the checks of
      workflow_protocol.rs, each with a predicate that says what it accepts.
    - [CoreConversion], [FailureConversion], [ActivationConversion],
      [CompletionConversion]: the conversions of workflow_protocol.rs.
      [FailureConversion] also holds [failure_non_retryable] of
      src/lib/protocol/workflow_protocol.ml, the decision that the shortening of
      cause chains must not change.
    - [PayloadWire]: the hand-written JSON form of payloads.
    - [ActivityProtocol]: activity_protocol.rs.
    - [Documents], [ActivityDocuments]: the way of a document to text and back;
      the derived serializer of a document type is the class [Serde], and what is
      relied on of the JSON reader the class [ReaderLaws].
    - [ClientTypes], [ClientChecks], [ClientStatus]: the requests and responses of
      client_protocol.rs, their checks and the mapping of gRPC statuses.
      [ClientMessages] holds the fields of the workflow service's messages.
      [ClientOperations] models the operations that make one call and
      [ClientLoops] those that repeat calls; the service is a function, or a list
      of what it does on successive calls.  [ClientDocuments] holds the readers and
      writers (class [JsonText]) and the outcome of a start that abi.rs reports.
    - [Diagnostics]: diagnostics.rs: bounded text and log lines, the log queue with
      its writer thread, the log level, the description of failed connections.
    - [Replay]: the history documents of replay_bridge.rs; [ReplayWorker]: the
      replay worker over the lanes of [PollLanes].  [ReplaySafety] and
      [ReplayNatural] hold its invariants and theorems.
    - [WorkerConfig]: the worker document of abi.rs and its way into Core's
      configuration, with what it accepts.
    - [BindAddress], [Telemetry], [MetricMeter]: the configuration of telemetry.rs
      and of src/lib/base/metrics_config.ml (module [Library] of [Telemetry]), and the
      instrument registry.  [Scrapes]: the scrape endpoint of telemetry.rs with its
      accept loop, relays and descriptor reserve; each await ends one action.
    - [Sigpipe]: sigpipe.rs; the signal calls are the class [Signals] with laws.
    - [Failures]: the statuses of abi.rs and the translation of every error of the
      components to a status and a message.
    - [AsyncActivity]: the requests of abi.rs for activities that complete
      asynchronously, what they send and how an answer is classified.
    - [ClientRpc]: the kinds of submitted calls, their decoding and their futures
      ([ClientRpc] of abi.rs); the services are the record [Services].
    - [RuntimeCalls]: the client side of [Runtime] of abi.rs: connection, submitted
      calls, start tickets, waits, heartbeat drivers, disconnection and close.  What
      the tasks and other threads do during an operation is a list of actions
      ([Other]) given to it.  [RuntimeSafety] holds the invariant of the graph and
      its theorems.
    - [Handoffs]: the worker side of [Runtime]: start and shutdown of the live and
      the replay worker, polls, completions, rejections and the documents kept for
      OCaml.  What the lanes do to the ledger meanwhile is a list of ledger
      operations restricted to those that the lanes perform; an [expect] that fails
      is [None].  [HandoffSafety] holds the invariant and the theorems.
    - [RuntimeGraph]: the two sides as one [Runtime], with the operations that block the
      owner and the teardown; every execution of the whole is one of each side.
    - [Abi]: the C interface of abi.rs: results and their allocations, input spans,
      handle slots, the references to Core and the cleanup threads, the metric meters,
      and the start of Core ([start_metrics] of telemetry.rs included).  [AbiSafety] states
      the obligations of callers and proves what holds under them.  [Exports]: every
      exported symbol that takes a runtime, as a step of [RuntimeGraph].
    - [ReferenceReader], [ReferenceCore], [ReferenceActivity],
      [ReferenceDocuments], [ReferenceClient], [ReferenceCalls],
      [ReferenceHandoffs], [ReferenceRuntime], [ReferenceReplay]: instances of the classes, and the
      theorems at concrete inputs.

    ** What the theorems show

    - Tasks: under every interleaving of lanes and owner each task that Core handed
      out is accounted for, none is completed twice, a finalized worker owes
      nothing, the drain leaves nothing behind; one schedule of the disposal
      completes a run twice.
    - Documents: a check accepts exactly a stated set of documents; every
      activation within the limits is converted; a completion survives the
      conversion to Core and back, answers its activation, and stays in the worker's
      namespace; a received failure always fits and keeps its retryability; an
      activity completion reaches Core under the token Core sent.
    - Codec: the scan, visitor and tree check accept exactly what their limits say;
      envelopes, objects, payloads and semantic documents round trip.
    - Client operations: an accepted start is sent as it was asked for, and what is
      reported of it is true; the admission of an update ends within its budget and
      gives out no handle before acceptance; a wait observes one run; a history is
      fetched completely; pages of visibility chain.
    - Client calls and heartbeats: an outcome is consumed once, no waiter is
      stranded, owners are isolated; sends of one token are an interval apart and
      pending details are sent.
    - Runtime graph: calls, starts, waits and tickets stay within the limits of the
      connection; every running task is held by the graph and no join can block on
      the network; a start is idempotent and its outcome read once; a submitted
      call never fails with the status of a closed call; every leased task keeps
      its document, no [expect] of the worker side fails, and admitted activations
      are delivered; the two sides agree, and a live worker keeps its client.
    - C interface: under the obligations of callers no call is undefined, each
      allocation belongs to one field of one result, Core is destroyed exactly once and
      by its last holder, a symbol delivers what its operation did, and the exported
      symbols are steps of the runtime.
    - Replay: a stuck worker is never finalized, and a finalized replay is evidence
      that the whole history was replayed.
    - Diagnostics, telemetry, signals: every log line is written, queued or counted
      as dropped; bridge and OCaml library accept the same metrics configurations;
      relays are byte faithful and connect to Core only with descriptors in reserve;
      a SIGPIPE of a failed write never reaches the caller.

    ** Modelling choices

    Integers are [N] or [Z] with wrap-around or saturation written out where the
    code relies on it.  A BTreeMap is a [gmap] visited in key order, a HashMap a
    [gmap] visited in the order of [map_to_list], which decides at most which of
    two errors is returned.  Floating-point fields are bit patterns.  Concurrency
    is interleaving: every event of an execution is one action of one task, so an
    execution is a list of events and an invariant holds after every such list.
    The recursion of all definitions is structural; the waits recurse over the list
    of instants at which they are woken and the client loops over the answers of the
    service, so no fuel bounds a result, and theorems say that the waits answer at
    their deadline and the admission of an update within its budget.  The exceptions
    are loops over the characters of a text ([Text.chars], [Telemetry.Library.scan]),
    whose fuel is the length of the text and whose steps each consume a byte of it.
    The draws of random identifiers are a list; an operation that uses it up has no
    result, and no theorem speaks of it.

    ** Not modelled

    The code that serde derives.  Of abi.rs: the options that a connection is built with,
    the functions and counters that only tests use, and the size and layout of the C
    structures.  Of telemetry.rs: the system calls that bind the sockets, whose outcome is
    an input.  The OCaml library beyond the functions named above, and its C stubs.
    Core, Tokio, serde and base64 themselves. *)

From Stdlib Require Export Strings.Byte.
From stdpp Require Export countable numbers base gmap sets strings list.
From stdpp Require Import options.

(** ** Results

    Rust's [Result<T, E>]. *)

Inductive result (A E : Type) : Type :=
| Ok (a : A)
| Err (e : E).
Arguments Ok {A E} _.
Arguments Err {A E} _.

#[global] Instance result_eq_dec {A E} `{EqDecision A, EqDecision E} :
  EqDecision (result A E).
Proof. solve_decision. Defined.

Declare Scope bridge_scope.
Delimit Scope bridge_scope with bridge.

(** Rust's [?] operator on a pure computation. *)
Notation "'let?' x ':=' c 'in' k" :=
  (match c with Ok x => k | Err err => Err err end)
  (at level 10, x pattern, c at level 200, k at level 200) : bridge_scope.

Definition is_ok {A E} (r : result A E) : bool :=
  match r with Ok _ => true | Err _ => false end.

Definition map_err {A E F} (f : E → F) (r : result A E) : result A F :=
  match r with Ok a => Ok a | Err e => Err (f e) end.

Definition ok_or {A E} (o : option A) (e : E) : result A E :=
  match o with Some a => Ok a | None => Err e end.

(** [iter().map(f).collect::<Result<Vec<_>, _>>()]. *)
Fixpoint try_map {A B E} (f : A → result B E) (l : list A) : result (list B) E :=
  match l with
  | [] => Ok []
  | a :: l =>
      match f a with
      | Err e => Err e
      | Ok b => match try_map f l with Ok k => Ok (b :: k) | Err e => Err e end
      end
  end.

(** A loop whose body may return early. *)
Fixpoint try_each {A E} (f : A → result () E) (l : list A) : result () E :=
  match l with
  | [] => Ok tt
  | a :: l => match f a with Ok _ => try_each f l | Err e => Err e end
  end.

(** The same over [iter().enumerate()], from [index] on. *)
Fixpoint try_each_at {A E} (f : N → A → result () E) (index : N) (l : list A) : result () E :=
  match l with
  | [] => Ok tt
  | a :: l => match f index a with Ok _ => try_each_at f (index + 1)%N l | Err e => Err e end
  end.

(** [as_ref().map(f).transpose()]. *)
Definition try_option {A B E} (f : A → result B E) (o : option A) : result (option B) E :=
  match o with
  | None => Ok None
  | Some a => match f a with Ok b => Ok (Some b) | Err e => Err e end
  end.

(** [if let Some(value) = value { f(value)?; }]. *)
Definition try_some {A E} (f : A → result () E) (o : option A) : result () E :=
  match o with None => Ok tt | Some a => f a end.

Section results.
  Context {E : Type}.
  Implicit Types (e : E).

Lemma seq_Ok {A} (c : result () E) (k : result A E) x :
  match c with Ok _ => k | Err e => Err e end = Ok x ↔ c = Ok tt ∧ k = Ok x.
Proof. destruct c as [[]|e]; naive_solver. Qed.

Lemma guard_Ok {A} (b : bool) e (k : result A E) x :
  (if b then Err e else k) = Ok x ↔ b = false ∧ k = Ok x.
Proof. destruct b; naive_solver. Qed.

Lemma bind_Ok {A B} (c : result A E) (k : A → result B E) x :
  match c with Ok a => k a | Err e => Err e end = Ok x ↔ ∃ a, c = Ok a ∧ k a = Ok x.
Proof. destruct c as [a|e]; naive_solver. Qed.

Lemma unit_Ok (r : result () E) (x : unit) : r = Ok x ↔ r = Ok tt.
Proof. by destruct x. Qed.

Lemma map_err_Ok {A F} (f : F → E) (r : result A F) x : map_err f r = Ok x ↔ r = Ok x.
Proof. destruct r; naive_solver. Qed.

Lemma ok_or_Ok {A} (o : option A) e x : ok_or o e = Ok x ↔ o = Some x.
Proof. destruct o; naive_solver. Qed.

Lemma try_map_Ok {A B} (f : A → result B E) l k :
  try_map f l = Ok k ↔ Forall2 (λ a b, f a = Ok b) l k.
Proof.
  revert k. induction l as [|a l IH]; intros k; cbn [try_map].
  { split; [by intros [= <-]|by intros ->%Forall2_nil_inv_l]. }
  split.
  - rewrite bind_Ok. intros (b & Hb & (k' & Hk & [= <-])%bind_Ok). constructor; [done|by apply IH].
  - intros (b & k' & Hb & Hk & ->)%Forall2_cons_inv_l. apply IH in Hk. by rewrite Hb, Hk.
Qed.

Lemma try_each_Ok {A} (f : A → result () E) l :
  try_each f l = Ok tt ↔ Forall (λ a, f a = Ok tt) l.
Proof.
  induction l as [|a l IH]; cbn [try_each]; [by split|].
  by rewrite seq_Ok, IH, Forall_cons.
Qed.

Lemma try_each_at_Ok {A} (f : N → A → result () E) (P : A → Prop) i l :
  (∀ i a, f i a = Ok tt ↔ P a) → try_each_at f i l = Ok tt ↔ Forall P l.
Proof.
  intros Hf. revert i. induction l as [|a l IH]; intros i; cbn [try_each_at]; [by split|].
  by rewrite seq_Ok, IH, Hf, Forall_cons.
Qed.

Lemma try_option_Ok {A B} (f : A → result B E) o r :
  try_option f o = Ok r ↔
  match o, r with None, None => True | Some a, Some b => f a = Ok b | _, _ => False end.
Proof. destruct o as [a|], r as [b|]; simpl; try naive_solver; destruct (f a); naive_solver. Qed.

Lemma try_some_Ok {A} (f : A → result () E) o :
  try_some f o = Ok tt ↔ ∀ a, o = Some a → f a = Ok tt.
Proof. destruct o; naive_solver. Qed.

End results.

(** Exposes every check of a sequence. *)
Ltac open_checks := repeat (rewrite seq_Ok || rewrite guard_Ok).

(** ** Bytes as map keys *)

#[global] Instance byte_eq_dec : EqDecision byte.
Proof. intros x y. apply Byte.byte_eq_dec. Defined.

#[global] Program Instance byte_countable : Countable byte :=
  inj_countable Byte.to_N Byte.of_N _.
Next Obligation. apply Byte.of_to_N. Qed.

(** Byte length of a UTF-8 string and of a byte vector ([len()]). *)
Definition str_len (s : string) : N := N.of_nat (String.length s).
Definition bytes_len (b : list byte) : N := N.of_nat (length b).

(** ** Machine integers *)

Definition u64_modulus : N := 2 ^ 64.
Definition usize_max : N := 2 ^ 64 - 1.

Definition u64_wrapping_add (a b : N) : N := (a + b) `mod` u64_modulus.
Definition usize_saturating_add (a b : N) : N := N.min (a + b) usize_max.
Definition saturating_sub (a b : N) : N := (a - b)%N.

Lemma usize_saturating_add_exact a b :
  (a + b ≤ usize_max)%N → usize_saturating_add a b = (a + b)%N.
Proof. unfold usize_saturating_add. lia. Qed.

Lemma u64_wrapping_add_exact a b :
  (a + b < u64_modulus)%N → u64_wrapping_add a b = (a + b)%N.
Proof. intros ?. unfold u64_wrapping_add. by apply N.mod_small. Qed.

(** ** Counting *)

(** Number of elements of [l] that are [x]. *)
Definition occurrences {A} `{EqDecision A} (x : A) (l : list A) : nat :=
  length (filter (x =.) l).

Definition indicator (b : bool) : nat := if b then 1 else 0.

Lemma occurrences_nil {A} `{EqDecision A} (x : A) : occurrences x [] = 0.
Proof. done. Qed.

Lemma occurrences_cons {A} `{EqDecision A} (x y : A) l :
  occurrences x (y :: l) = indicator (bool_decide (x = y)) + occurrences x l.
Proof.
  unfold occurrences. rewrite filter_cons. case_decide as Hxy.
  - by rewrite bool_decide_true.
  - by rewrite bool_decide_false.
Qed.

Lemma occurrences_app {A} `{EqDecision A} (x : A) l k :
  occurrences x (l ++ k) = occurrences x l + occurrences x k.
Proof. unfold occurrences. by rewrite filter_app, length_app. Qed.

Lemma occurrences_pos {A} `{EqDecision A} (x : A) l : x ∈ l ↔ 0 < occurrences x l.
Proof.
  induction l as [|y l IH].
  { rewrite occurrences_nil. split; [by intros ?%elem_of_nil|lia]. }
  rewrite occurrences_cons, elem_of_cons, IH.
  case_bool_decide; unfold indicator; naive_solver lia.
Qed.

Lemma occurrences_NoDup {A} `{EqDecision A} (x : A) l (b : bool) :
  NoDup l → (x ∈ l ↔ b = true) → occurrences x l = indicator b.
Proof.
  intros Hnd Hb. assert (occurrences x l ≤ 1) as Hle.
  { clear Hb. induction Hnd as [|y l Hy Hnd IH]; [rewrite occurrences_nil; lia|].
    rewrite occurrences_cons. case_bool_decide; unfold indicator; [|lia].
    subst y. assert (¬ 0 < occurrences x l) by (by rewrite <-occurrences_pos). lia. }
  pose proof (occurrences_pos x l) as Hpos. rewrite Hb in Hpos.
  unfold indicator. destruct b; [|destruct (decide (occurrences x l = 0)); [done|]].
  - assert (0 < occurrences x l) by (by apply Hpos). lia.
  - assert (false = true) by (apply Hpos; lia). done.
Qed.

Lemma sum_list_with_zero {A} (f : A → nat) l :
  (∀ x, x ∈ l → f x = 0) → sum_list_with f l = 0.
Proof.
  induction l as [|a l IH]; intros Hf; [done|].
  simpl. rewrite Hf, IH by set_solver. done.
Qed.

Lemma fmap_fst_tag {A B} (f : A → B) (l : list A) : ((λ x, (x, f x)) <$> l).*1 = l.
Proof. induction l as [|x l IH]; simpl; [done|]. by f_equal. Qed.

Lemma list_bind_nil {A B} (f : A → list B) : [] ≫= f = [].
Proof. done. Qed.

Lemma bind_fmap_nil {A B D} (f : A → B) (g : B → list D) (l : list A) :
  (∀ a, g (f a) = []) → (f <$> l) ≫= g = [].
Proof. intros Hg. induction l as [|a l IH]; [done|]. csimpl. by rewrite Hg, IH. Qed.

(** ** Finite maps *)

Lemma NoDup_fst_filter_map_to_list `{Countable K} {V} (P : K * V → Prop)
    `{!∀ x, Decision (P x)} (m : gmap K V) :
  NoDup ((filter P (map_to_list m)).*1).
Proof.
  eapply sublist_NoDup; [apply (NoDup_fst_map_to_list m)|].
  apply fmap_sublist, sublist_filter.
Qed.

Lemma lookup_foldl_delete `{Countable K} {V} (ks : list K) (m : gmap K V) k :
  foldl (λ m k, delete k m) m ks !! k = if decide (k ∈ ks) then None else m !! k.
Proof.
  revert m. induction ks as [|k' ks IH]; intros m; cbn [foldl].
  { by rewrite decide_False by set_solver. }
  rewrite IH, lookup_delete. repeat case_decide; set_solver.
Qed.

(** ** Automation *)

Create HintDb bridge discriminated.
Create Rewrite HintDb occ.
#[export] Hint Rewrite @occurrences_nil @occurrences_cons @occurrences_app
  @list_bind_nil @bind_cons @bind_app : occ.

(** Case analysis on every [match] and [if] in the goal. *)
Ltac split_matches :=
  repeat (case_match || case_decide); simplify_eq/=.
