(* ===== verification/Text.v ===== *)
(** * Text and numbers

    What the bridge uses of Rust's strings, decimal numbers and floating-point
    bit patterns.  A Rust [str] is a [string] of bytes for which [utf8_valid]
    holds. *)

From S2P Require Import Prelude.
From stdpp Require Import pretty.
From Stdlib Require Import Ascii SpecFloat.
Local Open Scope N_scope.

(** ** Strings *)

Fixpoint contains_byte (x : ascii) (s : string) : bool :=
  match s with
  | EmptyString => false
  | String b s => Ascii.eqb b x || contains_byte x s
  end.

Definition NUL : ascii := Ascii.zero.

(** [as_bytes().contains(&0)]. *)
Definition contains_nul (s : string) : bool := contains_byte NUL s.

(** [len()] at its machine width. *)
Definition usize_len (s : string) : N := str_len s `mod` u64_modulus.

Definition str_is_empty (s : string) : bool := str_len s =? 0.

Fixpoint str_take (n : nat) (s : string) : string :=
  match n, s with
  | S n, String b s => String b (str_take n s)
  | _, _ => EmptyString
  end.

Definition between (lo hi : N) (b : ascii) : bool :=
  (lo <=? N_of_ascii b) && (N_of_ascii b <=? hi).

(** ** UTF-8 *)

Definition continuation (b : ascii) : bool := between 0x80 0xBF b.

(** The second byte of a three-byte sequence: no overlong form, no surrogate. *)
Definition second_of_three (a b : ascii) : bool :=
  if between 0xE0 0xE0 a then between 0xA0 0xBF b
  else if between 0xED 0xED a then between 0x80 0x9F b
  else continuation b.

(** The second byte of a four-byte sequence: no overlong form, at most U+10FFFF. *)
Definition second_of_four (a b : ascii) : bool :=
  if between 0xF0 0xF0 a then between 0x90 0xBF b
  else if between 0xF4 0xF4 a then between 0x80 0x8F b
  else continuation b.

(** [std::str::from_utf8(..).is_ok()]. *)
Fixpoint utf8_valid (s : string) : bool :=
  match s with
  | EmptyString => true
  | String a s =>
      if between 0 0x7F a then utf8_valid s
      else
        match s with
        | EmptyString => false
        | String b s =>
            if between 0xC2 0xDF a then continuation b && utf8_valid s
            else
              match s with
              | EmptyString => false
              | String c s =>
                  if between 0xE0 0xEF a then
                    second_of_three a b && continuation c && utf8_valid s
                  else
                    match s with
                    | EmptyString => false
                    | String d s =>
                        between 0xF0 0xF4 a && second_of_four a b && continuation c &&
                        continuation d && utf8_valid s
                    end
              end
        end
  end.

(** [str::is_char_boundary]. *)
Definition is_char_boundary (s : string) (index : nat) : bool :=
  match index with
  | O => true
  | S _ =>
      match String.get index s with
      | Some b => negb (continuation b)
      | None => Nat.eqb index (String.length s)
      end
  end.

(** ** Characters *)

(** [char::len_utf8] of the character that a valid text starts with. *)
Definition len_utf8 (first : ascii) : nat :=
  if between 0 0x7F first then 1
  else if between 0xC2 0xDF first then 2
  else if between 0xE0 0xEF first then 3
  else 4.

Fixpoint str_drop (n : nat) (s : string) : string :=
  match n, s with S n, String _ s => str_drop n s | _, _ => s end.

Fixpoint split_chars (fuel : nat) (s : string) : list string :=
  match fuel, s with
  | S fuel, String first _ =>
      str_take (len_utf8 first) s :: split_chars fuel (str_drop (len_utf8 first) s)
  | _, _ => []
  end.

(** [str::chars], each character as its encoding; a character takes at least one
    byte, so the length of the text is fuel enough. *)
Definition chars (s : string) : list string := split_chars (String.length s) s.

(** ** Decimal numbers *)

Definition decimal_digit (b : ascii) : option N :=
  if between 0x30 0x39 b then Some (N_of_ascii b - 0x30) else None.

Fixpoint parse_digits (acc : N) (s : string) : option N :=
  match s with
  | EmptyString => Some acc
  | String b s =>
      match decimal_digit b with
      | None => None
      | Some d =>
          let acc := acc * 10 + d in
          if acc <? u64_modulus then parse_digits acc s else None
      end
  end.

Definition strip_plus (s : string) : string :=
  match s with
  | String b rest => if Ascii.eqb b "+" then rest else s
  | EmptyString => s
  end.

(** [str::parse::<u64>]: an optional plus sign and at least one digit. *)
Definition parse_u64 (s : string) : option N :=
  let digits := strip_plus s in
  if str_is_empty digits then None else parse_digits 0 digits.

(** ** Floating point *)

(** [f64::from_bits] and [f32::from_bits]: sign, exponent and fraction. *)
Definition float_of_bits (fraction exponent : N) (bits : N) : spec_float :=
  let sign := N.testbit bits (fraction + exponent) in
  let e := N.shiftr bits fraction `mod` 2 ^ exponent in
  let f := bits `mod` 2 ^ fraction in
  if e =? 2 ^ exponent - 1 then (if f =? 0 then S754_infinity sign else S754_nan)
  else
    let m := if e =? 0 then f else 2 ^ fraction + f in
    match m with
    | N0 => S754_zero sign
    | Npos m =>
        S754_finite sign m
          (Z.of_N (N.max e 1) - Z.of_N fraction - (2 ^ (Z.of_N exponent - 1) - 1))
    end.

Definition f64_from_bits (bits : N) : spec_float := float_of_bits 52 11 bits.
Definition f32_from_bits (bits : N) : spec_float := float_of_bits 23 8 bits.

Definition is_finite (x : spec_float) : bool :=
  match x with S754_zero _ | S754_finite _ _ _ => true | _ => false end.

(** ** String lemmas *)

Lemma string_app_cons x (a b : string) : String x a +:+ b = String x (a +:+ b).
Proof. reflexivity. Qed.

Lemma string_nil_app (a : string) : EmptyString +:+ a = a.
Proof. reflexivity. Qed.

Lemma string_app_assoc (a b c : string) : (a +:+ b) +:+ c = a +:+ (b +:+ c).
Proof. induction a as [|x a IH]; [done|]. by rewrite !string_app_cons, IH. Qed.

Lemma string_app_nil (a : string) : a +:+ EmptyString = a.
Proof. induction a as [|x a IH]; [done|]. by rewrite string_app_cons, IH. Qed.

Create Rewrite HintDb text.
#[export] Hint Rewrite string_app_cons string_nil_app string_app_assoc string_app_nil : text.

Lemma str_len_cons x (a : string) : str_len (String x a) = 1 + str_len a.
Proof. unfold str_len. cbn [String.length]. lia. Qed.

Lemma str_len_app (a b : string) : str_len (a +:+ b) = str_len a + str_len b.
Proof.
  induction a as [|x a IH]; [done|]. rewrite string_app_cons, !str_len_cons, IH. lia.
Qed.

Lemma str_is_empty_spec s : str_is_empty s = true ↔ s = "".
Proof. unfold str_is_empty, str_len. rewrite N.eqb_eq. destruct s; simpl; split; (done || lia). Qed.

Lemma str_take_len n s : (n ≤ String.length s)%nat → str_len (str_take n s) = N.of_nat n.
Proof.
  revert s. induction n as [|n IH]; intros [|b s] Hn; simpl in Hn; try (done || lia).
  cbn [str_take]. rewrite str_len_cons, IH by lia. lia.
Qed.

Lemma contains_byte_app x a b : contains_byte x (a +:+ b) = contains_byte x a || contains_byte x b.
Proof.
  induction a as [|y a IH]; [done|]. rewrite string_app_cons. cbn [contains_byte].
  by rewrite IH, orb_assoc.
Qed.

Lemma contains_byte_take x n s : contains_byte x s = false → contains_byte x (str_take n s) = false.
Proof.
  revert s. induction n as [|n IH]; intros [|b s]; try done. cbn [str_take contains_byte].
  rewrite !orb_false_iff. intros [? ?]. split; auto.
Qed.

(** ** UTF-8 lemmas *)

Lemma boundary_step a s n :
  is_char_boundary (String a s) (S n) = true → is_char_boundary s n = true.
Proof. destruct n as [|n]; [done|]. done. Qed.

Lemma boundary_first a b s :
  continuation b = true → is_char_boundary (String a (String b s)) 1 = false.
Proof. intros Hb. cbn. by rewrite Hb. Qed.

Lemma second_of_three_continuation a b : second_of_three a b = true → continuation b = true.
Proof.
  unfold second_of_three, continuation, between. repeat case_match; rewrite ?andb_true_iff, ?N.leb_le in *; lia.
Qed.

Lemma second_of_four_continuation a b : second_of_four a b = true → continuation b = true.
Proof.
  unfold second_of_four, continuation, between. repeat case_match; rewrite ?andb_true_iff, ?N.leb_le in *; lia.
Qed.

(** A valid text is empty or one character of one to four bytes before a valid
    text. *)
Inductive utf8_char : string → Prop :=
| char_one a : between 0 0x7F a = true → utf8_char (String a "")
| char_two a b : between 0xC2 0xDF a = true → continuation b = true →
    utf8_char (String a (String b ""))
| char_three a b c : between 0xE0 0xEF a = true → second_of_three a b = true →
    continuation c = true → utf8_char (String a (String b (String c "")))
| char_four a b c d : between 0xF0 0xF4 a = true → second_of_four a b = true →
    continuation c = true → continuation d = true →
    utf8_char (String a (String b (String c (String d "")))).

Inductive utf8_text : string → Prop :=
| text_nil : utf8_text ""
| text_cons c s : utf8_char c → utf8_text s → utf8_text (c +:+ s).

Lemma between_disjoint lo hi lo' hi' b :
  between lo hi b = true → hi < lo' ∨ hi' < lo → between lo' hi' b = false.
Proof.
  unfold between. rewrite andb_true_iff, andb_false_iff, !N.leb_le, !N.leb_gt. lia.
Qed.

Lemma utf8_valid_char c s : utf8_char c → utf8_valid (c +:+ s) = utf8_valid s.
Proof.
  intros Hc. destruct Hc as [a Ha|a b Ha Hb|a b c Ha Hb Hc|a b c d Ha Hb Hc Hd];
    autorewrite with text; cbn [utf8_valid].
  - by rewrite Ha.
  - rewrite (between_disjoint _ _ 0 0x7F _ Ha), Ha, Hb by lia. done.
  - rewrite (between_disjoint _ _ 0 0x7F _ Ha), (between_disjoint _ _ 0xC2 0xDF _ Ha), Ha, Hb, Hc
      by lia. done.
  - rewrite (between_disjoint _ _ 0 0x7F _ Ha), (between_disjoint _ _ 0xC2 0xDF _ Ha),
      (between_disjoint _ _ 0xE0 0xEF _ Ha), Ha, Hb, Hc, Hd by lia. done.
Qed.

Lemma utf8_text_valid s : utf8_text s → utf8_valid s = true.
Proof. induction 1 as [|c s Hc _ IH]; [done|]. by rewrite utf8_valid_char. Qed.

Lemma utf8_valid_text_upto n s :
  (String.length s ≤ n)%nat → utf8_valid s = true → utf8_text s.
Proof.
  revert s. induction n as [|n IH]; intros [|a s] Hn; simpl in Hn; try (constructor || lia).
  cbn [utf8_valid]. intros H.
  assert (∀ c r, utf8_char c → (String.length r ≤ n)%nat → utf8_valid r = true → utf8_text (c +:+ r))
    as Hstep by (intros; constructor; auto).
  destruct (between 0 0x7F a) eqn:Ha; [apply (Hstep (String a "")); [by constructor|lia|done]|].
  destruct s as [|b s]; [done|]. simpl in Hn.
  destruct (between 0xC2 0xDF a) eqn:Ha2.
  { apply andb_true_iff in H as [Hb H].
    apply (Hstep (String a (String b ""))); [by constructor|lia|done]. }
  destruct s as [|c s]; [done|]. simpl in Hn.
  destruct (between 0xE0 0xEF a) eqn:Ha3.
  { apply andb_true_iff in H as [[Hb Hc]%andb_true_iff H].
    apply (Hstep (String a (String b (String c "")))); [by constructor|lia|done]. }
  destruct s as [|d s]; [done|]. simpl in Hn. rewrite !andb_true_iff in H.
  destruct H as [[[[Ha4 Hb] Hc] Hd] H].
  apply (Hstep (String a (String b (String c (String d ""))))); [by constructor|lia|done].
Qed.

Lemma utf8_valid_text s : utf8_valid s = true ↔ utf8_text s.
Proof. split; [by apply (utf8_valid_text_upto (String.length s))|apply utf8_text_valid]. Qed.

Lemma utf8_text_app a b : utf8_text a → utf8_text b → utf8_text (a +:+ b).
Proof.
  induction 1 as [|c s Hc _ IH]; intros Hb; [done|].
  rewrite string_app_assoc. constructor; auto.
Qed.

Fixpoint ascii_only (s : string) : bool :=
  match s with EmptyString => true | String b s => between 0 0x7F b && ascii_only s end.

Lemma ascii_only_app a b : ascii_only (a +:+ b) = ascii_only a && ascii_only b.
Proof.
  induction a as [|x a IH]; [done|]. rewrite string_app_cons. cbn. by rewrite IH, andb_assoc.
Qed.

Lemma ascii_only_utf8 s : ascii_only s = true → utf8_text s.
Proof.
  induction s as [|b s IH]; [constructor|]. cbn. intros [Hb Hs]%andb_true_iff.
  apply (text_cons (String b "")); [by constructor|auto].
Qed.

Lemma pretty_go_ascii x s : ascii_only s = true → ascii_only (pretty_N_go x s) = true.
Proof.
  revert s. induction (N.lt_wf_0 x) as [x _ IH]; intros s Hs.
  destruct (decide (x = 0)) as [->|Hne]; [by rewrite pretty_N_go_0|].
  rewrite pretty_N_go_step by lia. apply IH; [apply N.div_lt; lia|].
  cbn [ascii_only]. rewrite Hs, andb_true_r. unfold pretty_N_char. by repeat case_match.
Qed.

Lemma pretty_ascii (n : N) : ascii_only (pretty n) = true.
Proof. unfold pretty, pretty_N. case_decide; [done|]. by apply pretty_go_ascii. Qed.

Lemma boundary_skip c s n :
  is_char_boundary (c +:+ s) (String.length c + n) = true → is_char_boundary s n = true.
Proof.
  induction c as [|b c IH]; [done|]. rewrite string_app_cons. cbn [String.length].
  intros H%boundary_step. by apply IH.
Qed.

Lemma take_skip c s n : str_take (String.length c + n) (c +:+ s) = c +:+ str_take n s.
Proof. induction c as [|b c IH]; [done|]. rewrite !string_app_cons. cbn. by rewrite <-IH. Qed.

(** The only boundaries inside a character are its ends. *)
Lemma boundary_char c s n :
  utf8_char c → (n < String.length c)%nat →
  is_char_boundary (c +:+ s) n = true ↔ n = 0%nat.
Proof.
  intros Hc Hn. split; [|by intros ->].
  destruct Hc as [a Ha|a b Ha Hb|a b c Ha Hb Hc|a b c d Ha Hb Hc Hd]; cbn in Hn;
    try apply second_of_three_continuation in Hb; try apply second_of_four_continuation in Hb;
    destruct n as [|[|[|[|n]]]]; try (done || lia);
    autorewrite with text; cbn [is_char_boundary String.get]; rewrite ?Hb, ?Hc, ?Hd; done.
Qed.

Lemma utf8_take s n : utf8_text s → is_char_boundary s n = true → utf8_text (str_take n s).
Proof.
  intros Hs. revert n. induction Hs as [|c s Hc Hs IH]; intros n Hn; [destruct n; constructor|].
  destruct (decide (n < String.length c)%nat) as [Hlt|Hge].
  { apply (boundary_char c s n Hc Hlt) in Hn as ->. constructor. }
  replace n with (String.length c + (n - String.length c))%nat in * by lia.
  rewrite take_skip. constructor; [done|]. apply IH. by apply boundary_skip in Hn.
Qed.

Lemma utf8_char_len c : utf8_char c → (1 ≤ String.length c ≤ 4)%nat.
Proof. destruct 1; simpl; lia. Qed.

(** A character of a valid text has the width its first byte tells. *)
Lemma char_width c s :
  utf8_char c → ∃ first rest, c +:+ s = String first rest ∧ len_utf8 first = String.length c.
Proof.
  intros Hc. destruct Hc as [a Ha|a b Ha Hb|a b c Ha Hb Hc|a b c d Ha Hb Hc Hd];
    [exists a, s|exists a, (String b s)|exists a, (String b (String c s))|
     exists a, (String b (String c (String d s)))]; (split; [done|]); unfold len_utf8.
  - by rewrite Ha.
  - by rewrite (between_disjoint _ _ 0 0x7F _ Ha), Ha by lia.
  - by rewrite (between_disjoint _ _ 0 0x7F _ Ha), (between_disjoint _ _ 0xC2 0xDF _ Ha), Ha by lia.
  - by rewrite (between_disjoint _ _ 0 0x7F _ Ha), (between_disjoint _ _ 0xC2 0xDF _ Ha),
      (between_disjoint _ _ 0xE0 0xEF _ Ha) by lia.
Qed.

Lemma drop_skip c s : str_drop (String.length c) (c +:+ s) = s.
Proof. induction c as [|b c IH]; [by destruct s|]. by rewrite string_app_cons. Qed.

Lemma string_length_app a b : String.length (a +:+ b) = (String.length a + String.length b)%nat.
Proof. induction a as [|x a IH]; [done|]. rewrite string_app_cons. simpl. by rewrite IH. Qed.

Lemma split_chars_cons fuel c s :
  utf8_char c → (String.length (c +:+ s) ≤ fuel)%nat →
  split_chars fuel (c +:+ s) = c :: split_chars (fuel - 1) s.
Proof.
  intros Hc Hf. destruct (char_width c s Hc) as (first & rest & Heq & Hw).
  destruct fuel as [|fuel]; [rewrite Heq in Hf; simpl in Hf; lia|].
  rewrite Heq. cbn [split_chars]. rewrite <-Heq, Hw, drop_skip.
  pose proof (take_skip c s 0) as Ht. rewrite Nat.add_0_r in Ht. rewrite Ht.
  assert (str_take 0 s = "") as -> by (by destruct s). rewrite string_app_nil.
  replace (S fuel - 1)%nat with fuel by lia. done.
Qed.

Lemma split_chars_enough s fuel fuel' :
  utf8_text s → (String.length s ≤ fuel)%nat → (String.length s ≤ fuel')%nat →
  split_chars fuel s = split_chars fuel' s.
Proof.
  intros Hs. revert fuel fuel'. induction Hs as [|c s Hc Hs IH]; intros fuel fuel' Hf Hf'.
  { by destruct fuel, fuel'. }
  rewrite !split_chars_cons by done. f_equal. rewrite string_length_app in *.
  pose proof (utf8_char_len c Hc). apply IH; lia.
Qed.

Lemma chars_cons c s : utf8_char c → utf8_text s → chars (c +:+ s) = c :: chars s.
Proof.
  intros Hc Hs. unfold chars. rewrite split_chars_cons by done. f_equal.
  pose proof (utf8_char_len c Hc). apply split_chars_enough; [done| |done].
  rewrite string_length_app. lia.
Qed.

Lemma boundary_unskip c s n :
  utf8_char c → utf8_text s → is_char_boundary s n = true →
  is_char_boundary (c +:+ s) (String.length c + n) = true.
Proof.
  intros Hc Hs Hn. assert (Hget : ∀ b, String.get (String.length c + n) (c +:+ s) = Some b ↔
    String.get n s = Some b).
  { intros b. clear. induction c as [|x c IH]; [done|]. by rewrite string_app_cons. }
  assert (String.length (c +:+ s) = String.length c + String.length s)%nat as Hlen.
  { clear. induction c as [|x c IH]; [done|]. rewrite string_app_cons. cbn. by rewrite IH. }
  assert (Hhead : n = 0%nat → ∀ b, String.get n s = Some b → continuation b = false).
  { intros -> b Hb. destruct Hs as [|c' s' Hc' _]; [done|].
    destruct Hc' as [x Hx|x ? Hx|x ? ? Hx|x ? ? ? Hx]; cbn in Hb; injection Hb as <-;
      eapply between_disjoint; try apply Hx; lia. }
  pose proof (utf8_char_len c Hc) as Hlc. unfold is_char_boundary in *.
  destruct (String.length c + n)%nat as [|k] eqn:Hk; [done|]. rewrite <-Hk in *.
  destruct (String.get (String.length c + n) (c +:+ s)) as [b|] eqn:Hb.
  - pose proof (proj1 (Hget b) eq_refl) as Hb'. destruct n as [|n].
    + by rewrite (Hhead eq_refl b Hb').
    + by rewrite Hb' in Hn.
  - destruct (String.get n s) as [b|] eqn:Hb'.
    { pose proof (proj2 (Hget b) eq_refl) as Hsome. discriminate Hsome. }
    rewrite Hlen. apply Nat.eqb_eq. destruct n as [|n].
    + destruct s; [simpl; lia|done].
    + apply Nat.eqb_eq in Hn. lia.
Qed.

(** Three steps back from any position of a valid text reach a boundary. *)
Lemma boundary_near s n :
  utf8_text s → (n ≤ String.length s)%nat →
  ∃ k, (k ≤ n ≤ k + 3)%nat ∧ is_char_boundary s k = true.
Proof.
  intros Hs. revert n. induction Hs as [|c s Hc Hs IH]; intros n Hn.
  { simpl in Hn. exists 0%nat. split; [lia|done]. }
  pose proof (utf8_char_len c Hc) as Hlc.
  destruct (decide (n < String.length c)%nat) as [Hlt|Hge].
  { exists 0%nat. split; [lia|done]. }
  assert (String.length (c +:+ s) = String.length c + String.length s)%nat as Hlen.
  { clear. induction c as [|x c IH]; [done|]. rewrite string_app_cons. cbn. by rewrite IH. }
  destruct (IH (n - String.length c)%nat) as (k & Hk & Hbk); [lia|].
  exists (String.length c + k)%nat. split; [lia|]. by apply boundary_unskip.
Qed.

(** ** Decimal lemmas *)

Lemma pretty_N_char_digit x : x < 10 → decimal_digit (pretty_N_char x) = Some x.
Proof.
  intros Hx. assert (x = 0 ∨ x = 1 ∨ x = 2 ∨ x = 3 ∨ x = 4 ∨ x = 5 ∨ x = 6 ∨ x = 7 ∨ x = 8 ∨ x = 9)
    as Hcases by lia.
  by destruct_or? Hcases; subst x.
Qed.

Lemma parse_pretty_go x s : x < u64_modulus → parse_digits 0 (pretty_N_go x s) = parse_digits x s.
Proof.
  revert s. induction (N.lt_wf_0 x) as [x _ IH]; intros s Hx.
  destruct (decide (x = 0)) as [->|Hne]; [by rewrite pretty_N_go_0|].
  rewrite pretty_N_go_step by lia.
  assert (x `div` 10 < x) by (apply N.div_lt; lia).
  rewrite IH by lia. cbn [parse_digits]. rewrite pretty_N_char_digit by (apply N.mod_lt; lia).
  pose proof (N.div_mod x 10 ltac:(lia)) as Hdm.
  replace (x `div` 10 * 10 + x `mod` 10) with x by lia.
  cbv zeta. by rewrite (proj2 (N.ltb_lt _ _) Hx).
Qed.

Lemma pretty_go_head x s :
  x ≠ 0 → ∃ d r, pretty_N_go x s = String (pretty_N_char d) r ∧ d < 10 ∧ d ≠ 0.
Proof.
  revert s. induction (N.lt_wf_0 x) as [x _ IH]; intros s Hx. rewrite pretty_N_go_step by lia.
  destruct (decide (x < 10)) as [Hlt|Hge].
  - rewrite N.div_small, pretty_N_go_0, N.mod_small by lia. eauto.
  - apply IH; [apply N.div_lt; lia|]. pose proof (N.div_le_mono 10 x 10). simpl in *. 
    assert (10 `div` 10 = 1) by done. lia.
Qed.

Lemma parse_u64_pretty n : n < u64_modulus → parse_u64 (pretty n) = Some n.
Proof.
  intros Hn. unfold pretty, pretty_N. destruct (decide (n = 0)) as [->|Hne]; [done|].
  destruct (pretty_go_head n "" Hne) as (d & r & Heq & Hd & Hd0).
  pose proof (parse_pretty_go n "" Hn) as Hp. rewrite Heq in *.
  assert (parse_u64 (String (pretty_N_char d) r) =
    parse_digits 0 (String (pretty_N_char d) r)) as ->; [|exact Hp].
  assert (d = 1 ∨ d = 2 ∨ d = 3 ∨ d = 4 ∨ d = 5 ∨ d = 6 ∨ d = 7 ∨ d = 8 ∨ d = 9) as Hcases by lia.
  by destruct_or? Hcases; subst d.
Qed.

Lemma parse_digits_bound acc s n : acc < u64_modulus → parse_digits acc s = Some n → n < u64_modulus.
Proof.
  revert acc. induction s as [|b s IH]; cbn [parse_digits]; intros acc Hacc H.
  { by simplify_eq. }
  destruct (decimal_digit b) as [d|]; [|done]. cbv zeta in H.
  destruct (acc * 10 + d <? u64_modulus) eqn:Hlt; [|done]. apply N.ltb_lt in Hlt. by eapply IH.
Qed.

Lemma parse_u64_bound s n : parse_u64 s = Some n → n < u64_modulus.
Proof.
  unfold parse_u64. destruct (str_is_empty (strip_plus s)); [done|]. by apply parse_digits_bound.
Qed.

Lemma pretty_go_len k x s : x < 10 ^ k → str_len (pretty_N_go x s) ≤ k + str_len s.
Proof.
  revert x s. induction k as [|k IH] using N.peano_ind; intros x s Hx.
  { simpl in Hx. assert (x = 0) as -> by lia. rewrite pretty_N_go_0. lia. }
  destruct (decide (x = 0)) as [->|Hne]; [rewrite pretty_N_go_0; lia|].
  rewrite pretty_N_go_step by lia.
  assert (x `div` 10 < 10 ^ k) as Hd.
  { rewrite N.pow_succ_r' in Hx. apply N.Div0.div_lt_upper_bound. lia. }
  pose proof (IH _ (String (pretty_N_char (x `mod` 10)) s) Hd) as H. rewrite str_len_cons in H. lia.
Qed.

Lemma pretty_u64_len n : n < u64_modulus → str_len (pretty n) ≤ 20.
Proof.
  intros Hn. unfold pretty, pretty_N. case_decide; [by vm_compute|].
  pose proof (pretty_go_len 20 n "") as H'. change (str_len "") with 0 in H'.
  assert (u64_modulus < 10 ^ 20) by done. lia.
Qed.

(** ** Floating-point lemmas *)

(** The significand of a bit pattern without its sign. *)
Definition significand (fraction bits : N) : N :=
  if bits / 2 ^ fraction =? 0 then bits `mod` 2 ^ fraction
  else 2 ^ fraction + bits `mod` 2 ^ fraction.

Definition float_exponent (fraction exponent bits : N) : Z :=
  Z.of_N (N.max (bits / 2 ^ fraction) 1) - Z.of_N fraction - (2 ^ (Z.of_N exponent - 1) - 1).

Definition finite_float (sign : bool) (m : N) (e : Z) : spec_float :=
  match m with N0 => S754_zero sign | Npos m => S754_finite sign m e end.

(** The bits of an unsigned finite number are below the infinity's. *)
Lemma float_of_bits_finite f e x (sign : bool) :
  x < (2 ^ e - 1) * 2 ^ f →
  float_of_bits f e (x + (if sign then 2 ^ (f + e) else 0)) =
  finite_float sign (significand f x) (float_exponent f e x).
Proof.
  intros Hx. pose proof (N.pow_nonzero 2 f ltac:(lia)) as Hf.
  pose proof (N.pow_nonzero 2 e ltac:(lia)) as He.
  assert (x < 2 ^ (f + e)) as Hlt by (rewrite N.pow_add_r; nia).
  assert (x / 2 ^ f < 2 ^ e - 1) as HE by (apply N.Div0.div_lt_upper_bound; nia).
  set (y := x + _).
  assert (N.testbit y (f + e) = sign) as Hsign.
  { unfold y. rewrite N.testbit_odd, N.shiftr_div_pow2. destruct sign.
    - replace (x + 2 ^ (f + e)) with (x + 1 * 2 ^ (f + e)) by lia.
      by rewrite N.div_add, N.div_small by (try apply N.pow_nonzero; lia).
    - by rewrite N.add_0_r, N.div_small by lia. }
  assert ((y / 2 ^ f) `mod` 2 ^ e = x / 2 ^ f) as HyE.
  { unfold y. destruct sign.
    - replace (x + 2 ^ (f + e)) with (x + 2 ^ e * 2 ^ f) by (rewrite N.pow_add_r; lia).
      rewrite N.div_add by done. replace (x / 2 ^ f + 2 ^ e) with (x / 2 ^ f + 1 * 2 ^ e) by lia.
      rewrite N.Div0.mod_add. apply N.mod_small. lia.
    - rewrite N.add_0_r. apply N.mod_small. lia. }
  assert (y `mod` 2 ^ f = x `mod` 2 ^ f) as HyF.
  { unfold y. destruct sign; [|by rewrite N.add_0_r].
    replace (x + 2 ^ (f + e)) with (x + 2 ^ e * 2 ^ f) by (rewrite N.pow_add_r; lia).
    apply N.Div0.mod_add. }
  unfold float_of_bits. rewrite Hsign, N.shiftr_div_pow2, HyE, HyF.
  rewrite (proj2 (N.eqb_neq (x / 2 ^ f) (2 ^ e - 1))) by lia.
  unfold finite_float, significand, float_exponent. by destruct (x / 2 ^ f =? 0).
Qed.

(** Any bit pattern is a sign and a finite number, or is not finite. *)
Lemma float_cases f e bits :
  bits < 2 ^ (f + e) * 2 →
  (∃ sign x, x < (2 ^ e - 1) * 2 ^ f ∧ bits = x + (if sign : bool then 2 ^ (f + e) else 0)) ∨
  is_finite (float_of_bits f e bits) = false.
Proof.
  intros Hbits. pose proof (N.pow_nonzero 2 f ltac:(lia)) as Hf.
  pose proof (N.pow_nonzero 2 e ltac:(lia)) as He.
  set (sign := negb (bits <? 2 ^ (f + e))).
  set (x := bits - (if sign then 2 ^ (f + e) else 0)).
  assert (bits = x + (if sign then 2 ^ (f + e) else 0) ∧ x < 2 ^ (f + e)) as [Hx Hlt].
  { unfold x, sign. destruct (N.ltb_spec bits (2 ^ (f + e))); simpl; lia. }
  destruct (decide (x < (2 ^ e - 1) * 2 ^ f)) as [Hfin|Hinf]; [left; by exists sign, x|right].
  assert (x / 2 ^ f = 2 ^ e - 1) as HE.
  { rewrite N.pow_add_r in Hlt. symmetry.
    apply (N.div_unique x (2 ^ f) (2 ^ e - 1) (x - (2 ^ e - 1) * 2 ^ f)); nia. }
  assert ((bits / 2 ^ f) `mod` 2 ^ e = 2 ^ e - 1) as HyE.
  { rewrite Hx. destruct sign.
    - replace (x + 2 ^ (f + e)) with (x + 2 ^ e * 2 ^ f) by (rewrite N.pow_add_r; lia).
      rewrite N.div_add by done. replace (x / 2 ^ f + 2 ^ e) with (x / 2 ^ f + 1 * 2 ^ e) by lia.
      rewrite N.Div0.mod_add, HE. apply N.mod_small. lia.
    - rewrite N.add_0_r, HE. apply N.mod_small. lia. }
  unfold float_of_bits. cbv zeta. rewrite N.shiftr_div_pow2, HyE, N.eqb_refl.
  by destruct (bits `mod` 2 ^ f =? 0).
Qed.

Lemma finite_float_finite s m e : is_finite (finite_float s m e) = true.
Proof. by destruct m. Qed.

(** The order of numbers with a common radix, by quotient and remainder. *)
Lemma digits_compare p a r b s :
  r < p → s < p →
  (p * a + r ?= p * b + s) = match a ?= b with Eq => r ?= s | c => c end.
Proof.
  intros Hr Hs. destruct (N.compare_spec a b) as [->|Hlt|Hgt].
  - destruct (N.compare_spec r s);
      [apply N.compare_eq_iff|apply N.compare_lt_iff|apply N.compare_gt_iff]; lia.
  - apply N.compare_lt_iff. nia.
  - apply N.compare_gt_iff. nia.
Qed.

Lemma significand_compare p a r b s :
  r < p → s < p →
  let m q r := if q =? 0 then r else p + r in
  match N.max a 1 ?= N.max b 1 with Eq => m a r ?= m b s | c => c end =
  match a ?= b with Eq => r ?= s | c => c end.
Proof.
  intros Hr Hs m. unfold m.
  destruct (N.compare_spec (N.max a 1) (N.max b 1)) as [Heq|Hlt|Hgt];
    destruct (N.compare_spec a b) as [Heq'|Hlt'|Hgt']; try lia; try done;
    destruct (N.eqb_spec a 0), (N.eqb_spec b 0); try lia; try done.
  - destruct (N.compare_spec r s);
      [apply N.compare_eq_iff|apply N.compare_lt_iff|apply N.compare_gt_iff]; lia.
  - apply N.compare_lt_iff. lia.
  - apply N.compare_gt_iff. lia.
Qed.

Lemma SFcompare_finite m1 e1 m2 e2 :
  SFcompare (finite_float false m1 e1) (finite_float false m2 e2) =
  Some (match m1, m2 with
        | Npos _, Npos _ => match (e1 ?= e2)%Z with Eq => m1 ?= m2 | c => c end
        | _, _ => m1 ?= m2
        end).
Proof. by destruct m1, m2. Qed.

Lemma float_exponent_compare f e x y :
  (float_exponent f e x ?= float_exponent f e y)%Z =
  (N.max (x / 2 ^ f) 1 ?= N.max (y / 2 ^ f) 1).
Proof.
  unfold float_exponent. rewrite <-N2Z.inj_compare. generalize (x / 2 ^ f), (y / 2 ^ f). intros a b.
  destruct (Z.compare_spec (Z.of_N (N.max a 1)) (Z.of_N (N.max b 1)));
    [apply Z.compare_eq_iff|apply Z.compare_lt_iff|apply Z.compare_gt_iff]; lia.
Qed.

Lemma significand_zero f x : significand f x = 0 → x / 2 ^ f = 0 ∧ x `mod` 2 ^ f = 0.
Proof.
  unfold significand. pose proof (N.pow_nonzero 2 f ltac:(lia)) as Hf. revert Hf.
  generalize (2 ^ f). intros p Hf. generalize (x / p), (x `mod` p). intros q r.
  destruct (N.eqb_spec q 0); lia.
Qed.

(** Unsigned finite numbers are ordered as their bits. *)
Lemma float_compare f e x y :
  SFcompare (finite_float false (significand f x) (float_exponent f e x))
    (finite_float false (significand f y) (float_exponent f e y)) = Some (x ?= y).
Proof.
  pose proof (N.pow_nonzero 2 f ltac:(lia)) as Hf.
  rewrite SFcompare_finite. f_equal. rewrite float_exponent_compare.
  pose proof (N.mod_lt x (2 ^ f) Hf) as Hx. pose proof (N.mod_lt y (2 ^ f) Hf) as Hy.
  pose proof (digits_compare (2 ^ f) (x / 2 ^ f) _ (y / 2 ^ f) _ Hx Hy) as Hcmp.
  rewrite <-!N.div_mod in Hcmp by done.
  pose proof (significand_compare (2 ^ f) (x / 2 ^ f) _ (y / 2 ^ f) _ Hx Hy) as Hsig.
  cbv zeta in Hsig. rewrite Hcmp, <-Hsig. clear Hcmp Hsig.
  fold (significand f x) (significand f y).
  pose proof (significand_zero f x) as Zx. pose proof (significand_zero f y) as Zy.
  destruct (significand f x) as [|mx] eqn:Ex, (significand f y) as [|my] eqn:Ey; try done.
  - destruct (Zx eq_refl) as [-> _], (Zy eq_refl) as [-> _]. done.
  - destruct (Zx eq_refl) as [-> _]. case_match eqn:Hc; try done.
    exfalso. apply N.compare_gt_iff in Hc. revert Hc. generalize (y / 2 ^ f). lia.
  - destruct (Zy eq_refl) as [-> _]. case_match eqn:Hc; try done.
    exfalso. rewrite N.compare_lt_iff in Hc. revert Hc. generalize (x / 2 ^ f). lia.
Qed.

