(* ===== verification/TaskLedger.v ===== *)
(** * The task ledger

    Model of [TaskLedger] and its data types
    (src/rust/core-bridge/src/worker_bridge.rs): the single source of truth
    for Core tasks that are owed a language-side completion.  Every method is
    a state-passing function; a method that returns a value returns it paired
    with the new ledger.  [HashMap] and [HashSet] are [gmap] and [gset];
    draining a [HashMap] yields its entries in [map_to_list] order, and no
    theorem depends on that order.

    The second half of the file proves the ledger well-formedness invariant,
    a refinement of the ledger by independent per-identity automata, and the
    functional behaviour of its bulk operations. *)

From S2P Require Import Prelude.

(** ** Data *)

Definition MAX_RUN_ID_BYTES : N := 64 * 1024.
Definition MAX_TASK_TOKEN_BYTES : N := 128 * 1024 * 1024.

Inductive Admission := New | Duplicate | ExistingCancellation.

Inductive ActivityAdmission := Start | Cancel.

Inductive AdmitError :=
| AdmitDraining
| InvalidIdentity
| UnknownActivityCancellation
| Retired.

Inductive CompleteError :=
| UnknownWorkflow
| UnknownActivity
| NotLeased
| AlreadyLeased.

Inductive Phase := Open | Draining.

Record ActivityState := mkActivityState {
  cancelled : bool;
  leased : bool
}.

Definition ActivityState_default : ActivityState := mkActivityState false false.

Record TaskLedger := mkTaskLedger {
  phase : Phase;
  workflows : gmap string bool;
  activities : gmap (list byte) ActivityState;
  lost_poll_lease : bool;
  retired_workflows : gset string;
  retired_activities : gset (list byte);
  eviction_activations : gset string
}.

#[global] Instance Admission_eq_dec : EqDecision Admission.
Proof. solve_decision. Defined.
#[global] Instance ActivityAdmission_eq_dec : EqDecision ActivityAdmission.
Proof. solve_decision. Defined.
#[global] Instance AdmitError_eq_dec : EqDecision AdmitError.
Proof. solve_decision. Defined.
#[global] Instance CompleteError_eq_dec : EqDecision CompleteError.
Proof. solve_decision. Defined.
#[global] Instance Phase_eq_dec : EqDecision Phase.
Proof. solve_decision. Defined.
#[global] Instance ActivityState_eq_dec : EqDecision ActivityState.
Proof. solve_decision. Defined.
#[global] Instance TaskLedger_eq_dec : EqDecision TaskLedger.
Proof. solve_decision. Defined.

(** Field updates. *)
Definition set_phase p (l : TaskLedger) : TaskLedger :=
  mkTaskLedger p (workflows l) (activities l) (lost_poll_lease l)
    (retired_workflows l) (retired_activities l) (eviction_activations l).
Definition set_workflows w (l : TaskLedger) : TaskLedger :=
  mkTaskLedger (phase l) w (activities l) (lost_poll_lease l)
    (retired_workflows l) (retired_activities l) (eviction_activations l).
Definition set_activities a (l : TaskLedger) : TaskLedger :=
  mkTaskLedger (phase l) (workflows l) a (lost_poll_lease l)
    (retired_workflows l) (retired_activities l) (eviction_activations l).
Definition set_lost b (l : TaskLedger) : TaskLedger :=
  mkTaskLedger (phase l) (workflows l) (activities l) b
    (retired_workflows l) (retired_activities l) (eviction_activations l).
Definition set_retired_workflows r (l : TaskLedger) : TaskLedger :=
  mkTaskLedger (phase l) (workflows l) (activities l) (lost_poll_lease l)
    r (retired_activities l) (eviction_activations l).
Definition set_retired_activities r (l : TaskLedger) : TaskLedger :=
  mkTaskLedger (phase l) (workflows l) (activities l) (lost_poll_lease l)
    (retired_workflows l) r (eviction_activations l).
Definition set_evictions e (l : TaskLedger) : TaskLedger :=
  mkTaskLedger (phase l) (workflows l) (activities l) (lost_poll_lease l)
    (retired_workflows l) (retired_activities l) e.

(** ** Operations *)

Definition TaskLedger_new : TaskLedger := mkTaskLedger Open ∅ ∅ false ∅ ∅ ∅.

Definition ensure_open (l : TaskLedger) : result unit AdmitError :=
  match phase l with
  | Open => Ok tt
  | Draining => Err AdmitDraining
  end.

(** [if eviction_only { insert } else { remove }]. *)
Definition mark_eviction (run_id : string) (eviction_only : bool) (l : TaskLedger)
    : TaskLedger :=
  if eviction_only
  then set_evictions ({[run_id]} ∪ eviction_activations l) l
  else set_evictions (eviction_activations l ∖ {[run_id]}) l.

Definition record_workflow (run_id : string) (eviction_only : bool) (l : TaskLedger)
    : result Admission AdmitError * TaskLedger :=
  if bool_decide (run_id = "") || (MAX_RUN_ID_BYTES <? str_len run_id)%N
  then (Err InvalidIdentity, l)
  else if bool_decide (run_id ∈ retired_workflows l)
  then (Err Retired, l)
  else
    match workflows l !! run_id with
    | None =>
        let l := set_workflows (<[run_id := false]> (workflows l)) l in
        (Ok New, mark_eviction run_id eviction_only l)
    | Some _ => (Ok Duplicate, l)
    end.

Definition admit_workflow (run_id : string) (l : TaskLedger)
    : result Admission AdmitError * TaskLedger :=
  match ensure_open l with
  | Err e => (Err e, l)
  | Ok _ => record_workflow run_id false l
  end.

Definition admit_polled_workflow (run_id : string) (l : TaskLedger)
    : result Admission AdmitError * TaskLedger :=
  record_workflow run_id false l.

Definition admit_polled_workflow_activation (run_id : string) (eviction_only : bool)
    (l : TaskLedger) : result Admission AdmitError * TaskLedger :=
  record_workflow run_id eviction_only l.

Definition record_activity (task_token : list byte) (kind : ActivityAdmission)
    (l : TaskLedger) : result Admission AdmitError * TaskLedger :=
  if bool_decide (task_token = []) || (MAX_TASK_TOKEN_BYTES <? bytes_len task_token)%N
  then (Err InvalidIdentity, l)
  else if bool_decide (task_token ∈ retired_activities l)
  then (Err Retired, l)
  else
    match kind, activities l !! task_token with
    | Start, Some _ => (Ok Duplicate, l)
    | Start, None =>
        (Ok New,
         set_activities (<[task_token := ActivityState_default]> (activities l)) l)
    | Cancel, Some state =>
        if cancelled state then (Ok Duplicate, l)
        else
          (Ok ExistingCancellation,
           set_activities
             (<[task_token := mkActivityState true (leased state)]> (activities l)) l)
    | Cancel, None => (Err UnknownActivityCancellation, l)
    end.

Definition admit_activity (task_token : list byte) (kind : ActivityAdmission)
    (l : TaskLedger) : result Admission AdmitError * TaskLedger :=
  match (if bool_decide (kind = Start) then ensure_open l else Ok tt) with
  | Err e => (Err e, l)
  | Ok _ => record_activity task_token kind l
  end.

Definition admit_polled_activity (task_token : list byte) (kind : ActivityAdmission)
    (l : TaskLedger) : result Admission AdmitError * TaskLedger :=
  record_activity task_token kind l.

Definition lease_workflow (run_id : string) (l : TaskLedger)
    : result unit CompleteError * TaskLedger :=
  match workflows l !! run_id with
  | Some false => (Ok tt, set_workflows (<[run_id := true]> (workflows l)) l)
  | Some true => (Err AlreadyLeased, l)
  | None => (Err UnknownWorkflow, l)
  end.

Definition lease_workflow_activation (run_id : string) (eviction_only : bool)
    (l : TaskLedger) : result unit CompleteError * TaskLedger :=
  match lease_workflow run_id l with
  | (Err e, l) => (Err e, l)
  | (Ok _, l) => (Ok tt, mark_eviction run_id eviction_only l)
  end.

Definition is_eviction_lease (run_id : string) (l : TaskLedger) : bool :=
  bool_decide (run_id ∈ eviction_activations l).

(** Removes a workflow entry together with its eviction bit. *)
Definition force_remove_workflow (run_id : string) (l : TaskLedger) : TaskLedger :=
  set_evictions (eviction_activations l ∖ {[run_id]})
    (set_workflows (delete run_id (workflows l)) l).

Definition abandon_workflow_admission (run_id : string) (l : TaskLedger) : TaskLedger :=
  match workflows l !! run_id with
  | Some false => force_remove_workflow run_id l
  | _ => l
  end.

Definition lease_activity (task_token : list byte) (l : TaskLedger)
    : result unit CompleteError * TaskLedger :=
  match activities l !! task_token with
  | Some state =>
      if leased state then (Err AlreadyLeased, l)
      else
        (Ok tt,
         set_activities
           (<[task_token := mkActivityState (cancelled state) true]> (activities l)) l)
  | None => (Err UnknownActivity, l)
  end.

Definition ensure_activity_cancellation (task_token : list byte) (l : TaskLedger)
    : result unit CompleteError :=
  match activities l !! task_token with
  | Some _ => Ok tt
  | None => Err UnknownActivity
  end.

Definition handoff_activity (task_token : list byte) (kind : ActivityAdmission)
    (l : TaskLedger) : result unit CompleteError * TaskLedger :=
  match kind with
  | Start => lease_activity task_token l
  | Cancel => (ensure_activity_cancellation task_token l, l)
  end.

Definition force_remove_activity (task_token : list byte) (l : TaskLedger) : TaskLedger :=
  set_activities (delete task_token (activities l)) l.

Definition abandon_activity_admission (task_token : list byte) (l : TaskLedger)
    : TaskLedger :=
  match activities l !! task_token with
  | Some state =>
      if leased state then l else force_remove_activity task_token l
  | None => l
  end.

Definition complete_workflow (run_id : string) (l : TaskLedger)
    : result unit CompleteError * TaskLedger :=
  match workflows l !! run_id with
  | Some true => (Ok tt, force_remove_workflow run_id l)
  | Some false => (Err NotLeased, l)
  | None => (Err UnknownWorkflow, l)
  end.

Definition restore_rejected_workflow_completion (run_id : string) (l : TaskLedger)
    : bool * TaskLedger :=
  match workflows l !! run_id with
  | None => (true, set_workflows (<[run_id := true]> (workflows l)) l)
  | Some _ => (false, l)
  end.

Definition restore_eviction_lease (run_id : string) (l : TaskLedger) : TaskLedger :=
  set_evictions ({[run_id]} ∪ eviction_activations l) l.

Definition ensure_workflow_leased (run_id : string) (l : TaskLedger)
    : result unit CompleteError :=
  match workflows l !! run_id with
  | Some true => Ok tt
  | Some false => Err NotLeased
  | None => Err UnknownWorkflow
  end.

Definition complete_activity (task_token : list byte) (l : TaskLedger)
    : result unit CompleteError * TaskLedger :=
  match activities l !! task_token with
  | Some state =>
      if leased state
      then (Ok tt, force_remove_activity task_token l)
      else (Err NotLeased, l)
  | None => (Err UnknownActivity, l)
  end.

Definition retire_rejected_workflow (run_id : string) (l : TaskLedger)
    : result unit CompleteError * TaskLedger :=
  complete_workflow run_id l.

Definition retire_rejected_activity (task_token : list byte) (l : TaskLedger)
    : result unit CompleteError * TaskLedger :=
  complete_activity task_token l.

Definition ensure_activity_leased (task_token : list byte) (l : TaskLedger)
    : result unit CompleteError :=
  match activities l !! task_token with
  | Some state => if leased state then Ok tt else Err NotLeased
  | None => Err UnknownActivity
  end.

Definition begin_draining (l : TaskLedger) : TaskLedger := set_phase Draining l.

Definition mark_lost_poll_lease (l : TaskLedger) : TaskLedger := set_lost true l.

Definition outstanding_workflows (l : TaskLedger) : nat := size (workflows l).
Definition outstanding_activities (l : TaskLedger) : nat := size (activities l).
Definition outstanding (l : TaskLedger) : nat :=
  outstanding_workflows l + outstanding_activities l.

Definition can_finalize (l : TaskLedger) : bool :=
  bool_decide (phase l = Draining) && (outstanding l =? 0)%nat
  && negb (lost_poll_lease l).

Definition retire_workflow_for_dispose (run_id : string) (l : TaskLedger) : TaskLedger :=
  let l := force_remove_workflow run_id l in
  set_retired_workflows ({[run_id]} ∪ retired_workflows l) l.

Definition retire_activity_for_dispose (task_token : list byte) (l : TaskLedger)
    : TaskLedger :=
  let l := force_remove_activity task_token l in
  set_retired_activities ({[task_token]} ∪ retired_activities l) l.

Definition clear_dispose_retired (l : TaskLedger) : TaskLedger :=
  set_retired_activities ∅ (set_retired_workflows ∅ l).

Definition take_all_outstanding (l : TaskLedger)
    : (list (string * bool) * list (list byte)) * TaskLedger :=
  let taken_workflows :=
    (λ entry, (entry.1, bool_decide (entry.1 ∈ eviction_activations l)))
      <$> map_to_list (workflows l) in
  let l := set_workflows ∅ l in
  let l := set_evictions ∅ l in
  let l := set_retired_workflows
             (retired_workflows l ∪ list_to_set taken_workflows.*1) l in
  let taken_activities := (map_to_list (activities l)).*1 in
  let l := set_activities ∅ l in
  let l := set_retired_activities
             (retired_activities l ∪ list_to_set taken_activities) l in
  ((taken_workflows, taken_activities), l).

Definition take_all_outstanding_for_replay (l : TaskLedger)
    : (list string * list (list byte)) * TaskLedger :=
  let taken_workflows := (map_to_list (workflows l)).*1 in
  let taken_activities := (map_to_list (activities l)).*1 in
  ((taken_workflows, taken_activities),
   set_activities ∅ (set_evictions ∅ (set_workflows ∅ l))).

(** The loop body of [take_leased_for_shutdown] over the leased run ids:
    remove the entry, remove and report its eviction bit. *)
Fixpoint take_leased_workflows (run_ids : list string) (l : TaskLedger)
    : list (string * bool) * TaskLedger :=
  match run_ids with
  | [] => ([], l)
  | run_id :: rest =>
      let eviction_only := bool_decide (run_id ∈ eviction_activations l) in
      let '(taken, l) := take_leased_workflows rest (force_remove_workflow run_id l) in
      ((run_id, eviction_only) :: taken, l)
  end.

Definition leased_run_ids (l : TaskLedger) : list string :=
  (filter (λ entry, entry.2 = true) (map_to_list (workflows l))).*1.

Definition leased_task_tokens (l : TaskLedger) : list (list byte) :=
  (filter (λ entry, leased entry.2 = true) (map_to_list (activities l))).*1.

Definition take_leased_for_shutdown (l : TaskLedger)
    : (list (string * bool) * list (list byte)) * TaskLedger :=
  let '(taken_workflows, l) := take_leased_workflows (leased_run_ids l) l in
  let taken_activities := leased_task_tokens l in
  let l := foldl (λ l task_token, force_remove_activity task_token l) l taken_activities in
  ((taken_workflows, taken_activities), l).

(** ** The operations as one alphabet

    Every mutating method of the ledger, so that a statement can range over
    arbitrary sequences of calls. *)

Inductive LedgerOp :=
| OpAdmitWorkflow (run_id : string)
| OpAdmitPolledWorkflow (run_id : string)
| OpAdmitPolledActivation (run_id : string) (eviction_only : bool)
| OpAdmitActivity (token : list byte) (kind : ActivityAdmission)
| OpAdmitPolledActivity (token : list byte) (kind : ActivityAdmission)
| OpLeaseWorkflow (run_id : string)
| OpLeaseActivation (run_id : string) (eviction_only : bool)
| OpAbandonWorkflow (run_id : string)
| OpLeaseActivity (token : list byte)
| OpHandoffActivity (token : list byte) (kind : ActivityAdmission)
| OpAbandonActivity (token : list byte)
| OpCompleteWorkflow (run_id : string)
| OpRestoreWorkflow (run_id : string)
| OpRestoreEviction (run_id : string)
| OpCompleteActivity (token : list byte)
| OpBeginDraining
| OpMarkLost
| OpForceRemoveWorkflow (run_id : string)
| OpForceRemoveActivity (token : list byte)
| OpRetireWorkflow (run_id : string)
| OpRetireActivity (token : list byte)
| OpClearRetired
| OpTakeAll
| OpTakeAllForReplay
| OpTakeLeased.

#[global] Instance LedgerOp_eq_dec : EqDecision LedgerOp.
Proof. solve_decision. Defined.

Definition apply_op (op : LedgerOp) (l : TaskLedger) : TaskLedger :=
  match op with
  | OpAdmitWorkflow r => (admit_workflow r l).2
  | OpAdmitPolledWorkflow r => (admit_polled_workflow r l).2
  | OpAdmitPolledActivation r e => (admit_polled_workflow_activation r e l).2
  | OpAdmitActivity t k => (admit_activity t k l).2
  | OpAdmitPolledActivity t k => (admit_polled_activity t k l).2
  | OpLeaseWorkflow r => (lease_workflow r l).2
  | OpLeaseActivation r e => (lease_workflow_activation r e l).2
  | OpAbandonWorkflow r => abandon_workflow_admission r l
  | OpLeaseActivity t => (lease_activity t l).2
  | OpHandoffActivity t k => (handoff_activity t k l).2
  | OpAbandonActivity t => abandon_activity_admission t l
  | OpCompleteWorkflow r => (complete_workflow r l).2
  | OpRestoreWorkflow r => (restore_rejected_workflow_completion r l).2
  | OpRestoreEviction r => restore_eviction_lease r l
  | OpCompleteActivity t => (complete_activity t l).2
  | OpBeginDraining => begin_draining l
  | OpMarkLost => mark_lost_poll_lease l
  | OpForceRemoveWorkflow r => force_remove_workflow r l
  | OpForceRemoveActivity t => force_remove_activity t l
  | OpRetireWorkflow r => retire_workflow_for_dispose r l
  | OpRetireActivity t => retire_activity_for_dispose t l
  | OpClearRetired => clear_dispose_retired l
  | OpTakeAll => (take_all_outstanding l).2
  | OpTakeAllForReplay => (take_all_outstanding_for_replay l).2
  | OpTakeLeased => (take_leased_for_shutdown l).2
  end.

Definition run_ops (ops : list LedgerOp) (l : TaskLedger) : TaskLedger :=
  foldl (λ l op, apply_op op l) l ops.

Definition valid_run_id (r : string) : bool :=
  negb (bool_decide (r = "")) && (str_len r <=? MAX_RUN_ID_BYTES)%N.

Definition valid_task_token (t : list byte) : bool :=
  negb (bool_decide (t = [])) && (bytes_len t <=? MAX_TASK_TOKEN_BYTES)%N.

(** The two restore methods do not re-check the identity.  Their only caller
    restores the entry it has just removed, which is what this precondition
    says; every other method is total. *)
Definition op_allowed (op : LedgerOp) (l : TaskLedger) : Prop :=
  match op with
  | OpRestoreWorkflow r => valid_run_id r = true ∧ r ∉ retired_workflows l
  | OpRestoreEviction r => r ∈ dom (workflows l)
  | _ => True
  end.

Fixpoint ops_allowed (ops : list LedgerOp) (l : TaskLedger) : Prop :=
  match ops with
  | [] => True
  | op :: ops => op_allowed op l ∧ ops_allowed ops (apply_op op l)
  end.

(** Ledger well-formedness: the eviction bits never outgrow the workflow map,
    every tracked identity is within the transport bounds, and no identity is
    both outstanding and tombstoned by disposal. *)
Record ledger_wf (l : TaskLedger) : Prop := {
  wf_evictions : eviction_activations l ⊆ dom (workflows l);
  wf_run_ids : ∀ r b, workflows l !! r = Some b →
    valid_run_id r = true ∧ r ∉ retired_workflows l;
  wf_tokens : ∀ t s, activities l !! t = Some s →
    valid_task_token t = true ∧ t ∉ retired_activities l
}.

(** ** Per-identity specification

    What one identity looks like from outside: its completion debt, if any
    (leased to OCaml or not, and for a workflow whether the activation is a
    pure eviction), and whether disposal has tombstoned it. *)

Record WorkflowView := mkWorkflowView {
  wv_debt : option (bool * bool);
  wv_retired : bool
}.

Record ActivityView := mkActivityView {
  av_debt : option ActivityState;
  av_retired : bool
}.

Definition workflow_view (l : TaskLedger) (r : string) : WorkflowView :=
  mkWorkflowView
    ((λ lease, (lease, bool_decide (r ∈ eviction_activations l))) <$> workflows l !! r)
    (bool_decide (r ∈ retired_workflows l)).

Definition activity_view (l : TaskLedger) (t : list byte) : ActivityView :=
  mkActivityView (activities l !! t) (bool_decide (t ∈ retired_activities l)).

Definition spec_admit_workflow (r : string) (eviction_only : bool) (v : WorkflowView)
    : WorkflowView :=
  match valid_run_id r, v with
  | true, mkWorkflowView None false => mkWorkflowView (Some (false, eviction_only)) false
  | _, _ => v
  end.

Definition spec_admit_activity (t : list byte) (kind : ActivityAdmission)
    (v : ActivityView) : ActivityView :=
  match valid_task_token t, kind, v with
  | true, Start, mkActivityView None false =>
      mkActivityView (Some ActivityState_default) false
  | true, Cancel, mkActivityView (Some s) false =>
      mkActivityView (Some (mkActivityState true (leased s))) false
  | _, _, _ => v
  end.

(** One identity's automaton for workflows.  [p] is the admission phase. *)
Definition workflow_automaton (op : LedgerOp) (p : Phase) (r : string)
    (v : WorkflowView) : WorkflowView :=
  match op with
  | OpAdmitWorkflow r' =>
      if decide (r = r' ∧ p = Open) then spec_admit_workflow r false v else v
  | OpAdmitPolledWorkflow r' =>
      if decide (r = r') then spec_admit_workflow r false v else v
  | OpAdmitPolledActivation r' e =>
      if decide (r = r') then spec_admit_workflow r e v else v
  | OpLeaseWorkflow r' =>
      if decide (r = r') then
        match wv_debt v with
        | Some (false, e) => mkWorkflowView (Some (true, e)) (wv_retired v)
        | _ => v
        end
      else v
  | OpLeaseActivation r' e =>
      if decide (r = r') then
        match wv_debt v with
        | Some (false, _) => mkWorkflowView (Some (true, e)) (wv_retired v)
        | _ => v
        end
      else v
  | OpAbandonWorkflow r' =>
      if decide (r = r') then
        match wv_debt v with
        | Some (false, _) => mkWorkflowView None (wv_retired v)
        | _ => v
        end
      else v
  | OpCompleteWorkflow r' =>
      if decide (r = r') then
        match wv_debt v with
        | Some (true, _) => mkWorkflowView None (wv_retired v)
        | _ => v
        end
      else v
  | OpRestoreWorkflow r' =>
      if decide (r = r') then
        match wv_debt v with
        | None => mkWorkflowView (Some (true, false)) (wv_retired v)
        | _ => v
        end
      else v
  | OpRestoreEviction r' =>
      if decide (r = r') then
        mkWorkflowView ((λ d, (d.1, true)) <$> wv_debt v) (wv_retired v)
      else v
  | OpForceRemoveWorkflow r' =>
      if decide (r = r') then mkWorkflowView None (wv_retired v) else v
  | OpRetireWorkflow r' =>
      if decide (r = r') then mkWorkflowView None true else v
  | OpClearRetired => mkWorkflowView (wv_debt v) false
  | OpTakeAll =>
      mkWorkflowView None (wv_retired v || bool_decide (is_Some (wv_debt v)))
  | OpTakeAllForReplay => mkWorkflowView None (wv_retired v)
  | OpTakeLeased =>
      match wv_debt v with
      | Some (true, _) => mkWorkflowView None (wv_retired v)
      | _ => v
      end
  | _ => v
  end.

Definition activity_automaton (op : LedgerOp) (p : Phase) (t : list byte)
    (v : ActivityView) : ActivityView :=
  match op with
  | OpAdmitActivity t' k =>
      if decide (t = t' ∧ (k = Start → p = Open)) then spec_admit_activity t k v else v
  | OpAdmitPolledActivity t' k =>
      if decide (t = t') then spec_admit_activity t k v else v
  | OpLeaseActivity t' | OpHandoffActivity t' Start =>
      if decide (t = t') then
        mkActivityView ((λ s, mkActivityState (cancelled s) true) <$> av_debt v)
          (av_retired v)
      else v
  | OpAbandonActivity t' =>
      if decide (t = t') then
        match av_debt v with
        | Some (mkActivityState _ false) => mkActivityView None (av_retired v)
        | _ => v
        end
      else v
  | OpCompleteActivity t' =>
      if decide (t = t') then
        match av_debt v with
        | Some (mkActivityState _ true) => mkActivityView None (av_retired v)
        | _ => v
        end
      else v
  | OpForceRemoveActivity t' =>
      if decide (t = t') then mkActivityView None (av_retired v) else v
  | OpRetireActivity t' =>
      if decide (t = t') then mkActivityView None true else v
  | OpClearRetired => mkActivityView (av_debt v) false
  | OpTakeAll =>
      mkActivityView None (av_retired v || bool_decide (is_Some (av_debt v)))
  | OpTakeAllForReplay => mkActivityView None (av_retired v)
  | OpTakeLeased =>
      match av_debt v with
      | Some (mkActivityState _ true) => mkActivityView None (av_retired v)
      | _ => v
      end
  | _ => v
  end.

(** ** Bulk operations *)

Lemma elem_of_leased_run_ids l r : r ∈ leased_run_ids l ↔ workflows l !! r = Some true.
Proof.
  unfold leased_run_ids. rewrite list_elem_of_fmap. split.
  - intros ([r' b] & -> & [Hb Hin]%list_elem_of_filter). simpl in *. subst b.
    by apply elem_of_map_to_list.
  - intros Hr. exists (r, true). split; [done|].
    apply list_elem_of_filter. split; [done|]. by apply elem_of_map_to_list.
Qed.

Lemma elem_of_leased_task_tokens l t :
  t ∈ leased_task_tokens l ↔ ∃ s, activities l !! t = Some s ∧ leased s = true.
Proof.
  unfold leased_task_tokens. rewrite list_elem_of_fmap. split.
  - intros ([t' s] & -> & [Hb Hin]%list_elem_of_filter). simpl in *.
    exists s. split; [|done]. by apply elem_of_map_to_list.
  - intros (s & Hs & Hl). exists (t, s). split; [done|].
    apply list_elem_of_filter. split; [done|]. by apply elem_of_map_to_list.
Qed.

Lemma take_leased_workflows_spec ids l taken l' :
  take_leased_workflows ids l = (taken, l') → NoDup ids →
  taken = (λ r, (r, bool_decide (r ∈ eviction_activations l))) <$> ids ∧
  (∀ r, workflows l' !! r = if decide (r ∈ ids) then None else workflows l !! r) ∧
  (∀ r, r ∈ eviction_activations l' ↔ r ∈ eviction_activations l ∧ r ∉ ids) ∧
  phase l' = phase l ∧ activities l' = activities l ∧
  lost_poll_lease l' = lost_poll_lease l ∧
  retired_workflows l' = retired_workflows l ∧
  retired_activities l' = retired_activities l.
Proof.
  revert l taken l'. induction ids as [|i ids IH]; intros l taken l'.
  { intros [= <- <-] _. simpl. repeat split; try done; set_solver. }
  simpl. destruct (take_leased_workflows ids _) as [taken0 l0] eqn:E.
  intros [= <- <-] [Hni Hnd]%NoDup_cons.
  apply IH in E as (-> & Hw & He & -> & -> & -> & -> & ->); [|done]. simpl in *.
  split_and!; try done.
  - f_equal. apply list_fmap_ext. intros j r Hj. f_equal.
    apply bool_decide_ext. apply list_elem_of_lookup_2 in Hj. set_solver.
  - intros r. rewrite Hw.
    destruct (decide (r ∈ ids)), (decide (r ∈ i :: ids)) as [Hin|Hin];
      try done; [set_solver|..].
    + apply elem_of_cons in Hin as [->|]; [|done]. apply lookup_delete_eq.
    + rewrite lookup_delete_ne; set_solver.
  - set_solver.
Qed.

Lemma foldl_force_remove_activity ts l :
  foldl (λ l task_token, force_remove_activity task_token l) l ts =
  set_activities (foldl (λ m t, delete t m) (activities l) ts) l.
Proof.
  revert l. induction ts as [|t ts IH]; intros l; simpl; [by destruct l|].
  by rewrite IH.
Qed.

(** Everything [take_leased_for_shutdown] does, field by field. *)
Lemma take_leased_for_shutdown_spec l ws ts l' :
  take_leased_for_shutdown l = ((ws, ts), l') →
  ws = (λ r, (r, bool_decide (r ∈ eviction_activations l))) <$> leased_run_ids l ∧
  ts = leased_task_tokens l ∧
  (∀ r, workflows l' !! r =
        match workflows l !! r with Some true => None | o => o end) ∧
  (∀ t, activities l' !! t =
        match activities l !! t with
        | Some s => if leased s then None else Some s
        | None => None
        end) ∧
  (∀ r, r ∈ eviction_activations l' ↔
        r ∈ eviction_activations l ∧ workflows l !! r ≠ Some true) ∧
  phase l' = phase l ∧ lost_poll_lease l' = lost_poll_lease l ∧
  retired_workflows l' = retired_workflows l ∧
  retired_activities l' = retired_activities l.
Proof.
  unfold take_leased_for_shutdown.
  destruct (take_leased_workflows _ l) as [taken l0] eqn:E.
  apply take_leased_workflows_spec in E
    as (-> & Hw & He & Hp & Ha & Hl & Hrw & Hra);
    [|apply NoDup_fst_filter_map_to_list].
  intros [= <- <- <-]. rewrite foldl_force_remove_activity. simpl.
  rewrite Ha, Hp, Hl, Hrw, Hra.
  assert (leased_task_tokens l0 = leased_task_tokens l) as Hts
    by (unfold leased_task_tokens; by rewrite Ha).
  rewrite Hts. split_and!; try done.
  - intros r. rewrite Hw. case_decide as Hd; rewrite elem_of_leased_run_ids in Hd.
    + by rewrite Hd.
    + destruct (workflows l !! r) as [[]|]; done.
  - intros t. rewrite lookup_foldl_delete.
    case_decide as Hd; rewrite elem_of_leased_task_tokens in Hd.
    + destruct Hd as (s & -> & ->). done.
    + destruct (activities l !! t) as [s|]; [|done].
      destruct (leased s) eqn:Hs; [|done]. naive_solver.
  - intros r. rewrite He, elem_of_leased_run_ids. done.
Qed.

(** Everything [take_all_outstanding] does, field by field. *)
Lemma take_all_outstanding_spec l ws ts l' :
  take_all_outstanding l = ((ws, ts), l') →
  ws.*1 = (map_to_list (workflows l)).*1 ∧
  (∀ r e, (r, e) ∈ ws → e = bool_decide (r ∈ eviction_activations l)) ∧
  ts = (map_to_list (activities l)).*1 ∧
  l' = mkTaskLedger (phase l) ∅ ∅ (lost_poll_lease l)
         (retired_workflows l ∪ dom (workflows l))
         (retired_activities l ∪ dom (activities l)) ∅.
Proof.
  intros [= <- <- <-]. simpl. split_and!; try done.
  - rewrite <-list_fmap_compose. by apply list_fmap_ext.
  - intros r e ([r' b] & [= -> ->] & _)%list_elem_of_fmap. done.
  - unfold set_retired_activities, set_activities, set_retired_workflows,
      set_evictions, set_workflows; simpl.
    f_equal.
    + f_equal. apply set_eq. intros r.
      rewrite elem_of_list_to_set, <-list_fmap_compose, elem_of_dom.
      rewrite list_elem_of_fmap. split.
      * intros ([r' b] & -> & Hin%elem_of_map_to_list). eauto.
      * intros [b Hb]. exists (r, b). by rewrite elem_of_map_to_list.
    + f_equal. apply set_eq. intros t.
      rewrite elem_of_list_to_set, elem_of_dom, list_elem_of_fmap. split.
      * intros ([t' s] & -> & Hin%elem_of_map_to_list). eauto.
      * intros [s Hs]. exists (t, s). by rewrite elem_of_map_to_list.
Qed.

(** ** Well-formedness is preserved *)

Create HintDb ledger discriminated.
Create Rewrite HintDb ledger.

Lemma TaskLedger_new_wf : ledger_wf TaskLedger_new.
Proof. split; simpl; set_solver. Qed.

Lemma wf_insert_workflow l r b :
  ledger_wf l → valid_run_id r = true → r ∉ retired_workflows l →
  ledger_wf (set_workflows (<[r := b]> (workflows l)) l).
Proof.
  intros [He Hr Ht] Hv Hn. split; simpl; [|intros r' b'|done].
  - rewrite dom_insert_L. set_solver.
  - rewrite lookup_insert. case_decide; naive_solver.
Qed.

Lemma wf_mark_eviction l r e :
  ledger_wf l → r ∈ dom (workflows l) → ledger_wf (mark_eviction r e l).
Proof.
  intros [He Hr Ht] Hd. unfold mark_eviction. destruct e; split; simpl; try done;
    set_solver.
Qed.

Lemma wf_force_remove_workflow l r : ledger_wf l → ledger_wf (force_remove_workflow r l).
Proof.
  intros [He Hr Ht]. split; simpl; [|intros r' b'|done].
  - rewrite dom_delete_L. set_solver.
  - rewrite lookup_delete. case_decide; naive_solver.
Qed.

Lemma wf_insert_activity l t s :
  ledger_wf l → valid_task_token t = true → t ∉ retired_activities l →
  ledger_wf (set_activities (<[t := s]> (activities l)) l).
Proof.
  intros [He Hr Ht] Hv Hn. split; simpl; try done. intros t' s'.
  rewrite lookup_insert. case_decide; naive_solver.
Qed.

Lemma wf_force_remove_activity l t : ledger_wf l → ledger_wf (force_remove_activity t l).
Proof.
  intros [He Hr Ht]. split; simpl; try done. intros t' s'.
  rewrite lookup_delete. case_decide; naive_solver.
Qed.

Lemma wf_set_phase l p : ledger_wf l → ledger_wf (set_phase p l).
Proof. by intros [??]. Qed.

Lemma wf_set_lost l b : ledger_wf l → ledger_wf (set_lost b l).
Proof. by intros [??]. Qed.

#[export] Hint Resolve TaskLedger_new_wf wf_insert_workflow wf_mark_eviction
  wf_force_remove_workflow wf_insert_activity wf_force_remove_activity
  wf_set_phase wf_set_lost : ledger.

Lemma valid_run_id_guard r :
  bool_decide (r = "") || (MAX_RUN_ID_BYTES <? str_len r)%N = negb (valid_run_id r).
Proof. unfold valid_run_id. rewrite N.ltb_antisym. by destruct (bool_decide _), (_ <=? _)%N. Qed.

Lemma valid_task_token_guard t :
  bool_decide (t = []) || (MAX_TASK_TOKEN_BYTES <? bytes_len t)%N
  = negb (valid_task_token t).
Proof. unfold valid_task_token. rewrite N.ltb_antisym. by destruct (bool_decide _), (_ <=? _)%N. Qed.

Lemma wf_record_workflow l r e : ledger_wf l → ledger_wf (record_workflow r e l).2.
Proof.
  intros Hwf. unfold record_workflow. rewrite valid_run_id_guard.
  destruct (valid_run_id r) eqn:Hv; [simpl|done].
  case_bool_decide; [done|]. destruct (workflows l !! r) eqn:E; [done|]. simpl.
  apply wf_mark_eviction; [auto with ledger|]. simpl. rewrite dom_insert_L. set_solver.
Qed.

Lemma wf_record_activity l t k : ledger_wf l → ledger_wf (record_activity t k l).2.
Proof.
  intros Hwf. unfold record_activity. rewrite valid_task_token_guard.
  destruct (valid_task_token t) eqn:Hv; [simpl|done].
  case_bool_decide; [done|].
  split_matches; auto with ledger.
Qed.

Lemma wf_update_workflow l r b b' :
  ledger_wf l → workflows l !! r = Some b →
  ledger_wf (set_workflows (<[r := b']> (workflows l)) l).
Proof. intros Hwf Hb. destruct (wf_run_ids _ Hwf _ _ Hb). auto with ledger. Qed.

Lemma wf_update_activity l t s s' :
  ledger_wf l → activities l !! t = Some s →
  ledger_wf (set_activities (<[t := s']> (activities l)) l).
Proof. intros Hwf Hs. destruct (wf_tokens _ Hwf _ _ Hs). auto with ledger. Qed.

Lemma wf_lease_workflow l r : ledger_wf l → ledger_wf (lease_workflow r l).2.
Proof. intros. unfold lease_workflow. split_matches; eauto using wf_update_workflow. Qed.

Lemma wf_lease_activation l r e :
  ledger_wf l → ledger_wf (lease_workflow_activation r e l).2.
Proof.
  intros Hwf. pose proof (wf_lease_workflow l r Hwf) as Hl.
  unfold lease_workflow_activation, lease_workflow in *. split_matches; try done.
  apply wf_mark_eviction; [done|]. simpl. rewrite dom_insert_L. set_solver.
Qed.

Lemma wf_lease_activity l t : ledger_wf l → ledger_wf (lease_activity t l).2.
Proof. intros. unfold lease_activity. split_matches; eauto using wf_update_activity. Qed.

Lemma wf_take_all l : ledger_wf l → ledger_wf (take_all_outstanding l).2.
Proof. intros _. split; simpl; set_solver. Qed.

Lemma wf_take_leased l : ledger_wf l → ledger_wf (take_leased_for_shutdown l).2.
Proof.
  intros [He Hr Ht].
  destruct (take_leased_for_shutdown l) as [[ws ts] l'] eqn:E. simpl.
  apply take_leased_for_shutdown_spec in E
    as (_ & _ & Hw & Ha & Hev & _ & _ & Hrw & Hra).
  split.
  - intros r. rewrite Hev, elem_of_dom, Hw. intros [[b Hb]%He%elem_of_dom Hnt].
    rewrite Hb in *. destruct b; [done|]. eauto.
  - intros r b. rewrite Hw, Hrw. intros Hb. apply (Hr r b).
    destruct (workflows l !! r) as [[]|]; naive_solver.
  - intros t s. rewrite Ha, Hra. intros Hs. apply (Ht t s).
    destruct (activities l !! t) as [s'|]; [|done]. by destruct (leased s').
Qed.

#[export] Hint Resolve wf_record_workflow wf_record_activity wf_lease_workflow
  wf_lease_activation wf_lease_activity wf_take_all wf_take_leased : ledger.

(** Every ledger method keeps the ledger well formed. *)
Lemma apply_op_wf op l : ledger_wf l → op_allowed op l → ledger_wf (apply_op op l).
Proof.
  intros Hwf Hop. destruct op; simpl in *;
    unfold admit_workflow, admit_polled_workflow, admit_polled_workflow_activation,
      admit_activity, admit_polled_activity, abandon_workflow_admission,
      handoff_activity, abandon_activity_admission, complete_workflow,
      restore_rejected_workflow_completion, complete_activity, begin_draining,
      mark_lost_poll_lease;
    auto with ledger.
  - destruct (ensure_open l); simpl; auto with ledger.
  - destruct (if bool_decide _ then _ else _); simpl; auto with ledger.
  - split_matches; auto with ledger.
  - destruct kind; simpl; auto with ledger.
  - split_matches; auto with ledger.
  - split_matches; auto with ledger.
  - destruct Hop. split_matches; auto with ledger.
  - destruct Hwf. split; simpl; try done. set_solver.
  - split_matches; auto with ledger.
  - destruct (wf_force_remove_workflow l run_id Hwf) as [He Hr Ht]. simpl in *.
    split; simpl; try done. intros r b Hb. pose proof (Hr r b Hb) as [? ?].
    split; [done|]. rewrite lookup_delete in Hb. case_decide; [done|]. set_solver.
  - destruct (wf_force_remove_activity l token Hwf) as [He Hr Ht]. simpl in *.
    split; simpl; try done. intros t s Hs. pose proof (Ht t s Hs) as [? ?].
    split; [done|]. rewrite lookup_delete in Hs. case_decide; [done|]. set_solver.
  - destruct Hwf as [He Hr Ht]. split; simpl; [done|..].
    + intros r b Hb. destruct (Hr r b Hb). set_solver.
    + intros t s Hs. destruct (Ht t s Hs). set_solver.
  - by apply wf_take_all.
  - split; simpl; set_solver.
Qed.

Lemma run_ops_wf ops l : ledger_wf l → ops_allowed ops l → ledger_wf (run_ops ops l).
Proof.
  revert l. induction ops as [|op ops IH]; intros l Hwf; simpl; [done|].
  intros [Hop Hops]. apply IH; [by apply apply_op_wf|done].
Qed.

(** ** Refinement by per-identity automata *)

Lemma workflow_view_ext l l' r :
  workflows l' !! r = workflows l !! r →
  (r ∈ eviction_activations l' ↔ r ∈ eviction_activations l) →
  (r ∈ retired_workflows l' ↔ r ∈ retired_workflows l) →
  workflow_view l' r = workflow_view l r.
Proof.
  intros Hw He Hr. unfold workflow_view. rewrite Hw.
  by rewrite (bool_decide_ext _ _ He), (bool_decide_ext _ _ Hr).
Qed.

Lemma workflow_view_mark_eviction l r r' e :
  workflow_view (mark_eviction r e l) r' =
  if decide (r' = r)
  then mkWorkflowView ((λ d, (d.1, e)) <$> wv_debt (workflow_view l r'))
         (wv_retired (workflow_view l r'))
  else workflow_view l r'.
Proof.
  case_decide as Hd.
  - subst r'. unfold mark_eviction, workflow_view; destruct e; simpl;
      destruct (workflows l !! r); simpl; try done; do 2 f_equal; f_equal.
    + apply bool_decide_eq_true_2. set_solver.
    + apply bool_decide_eq_false_2. set_solver.
  - apply workflow_view_ext; unfold mark_eviction; destruct e; simpl; set_solver.
Qed.

Lemma workflow_view_insert l r r' b :
  workflow_view (set_workflows (<[r := b]> (workflows l)) l) r' =
  if decide (r' = r)
  then mkWorkflowView (Some (b, bool_decide (r ∈ eviction_activations l)))
         (wv_retired (workflow_view l r'))
  else workflow_view l r'.
Proof.
  unfold workflow_view; simpl. rewrite lookup_insert.
  repeat case_decide; simplify_eq/=; done.
Qed.

Lemma workflow_view_force_remove l r r' :
  workflow_view (force_remove_workflow r l) r' =
  if decide (r' = r)
  then mkWorkflowView None (wv_retired (workflow_view l r'))
  else workflow_view l r'.
Proof.
  case_decide as Hd.
  - subst r'. unfold workflow_view; simpl. by rewrite lookup_delete_eq.
  - apply workflow_view_ext; simpl; [|set_solver..]. by rewrite lookup_delete_ne.
Qed.

Lemma workflow_view_record l r r' e :
  workflow_view (record_workflow r e l).2 r' =
  if decide (r' = r) then spec_admit_workflow r' e (workflow_view l r')
  else workflow_view l r'.
Proof.
  unfold record_workflow. rewrite valid_run_id_guard.
  case_decide as Hd; [subst r'|].
  - unfold spec_admit_workflow. destruct (valid_run_id r); simpl; [|done].
    destruct (bool_decide (r ∈ retired_workflows l)) eqn:Hr; simpl.
    { unfold workflow_view. rewrite Hr. by destruct (workflows l !! r). }
    destruct (workflows l !! r) eqn:E; simpl.
    { unfold workflow_view. by rewrite E, Hr. }
    rewrite workflow_view_mark_eviction, workflow_view_insert, !decide_True by done.
    unfold workflow_view. by rewrite E, Hr.
  - repeat case_match; simpl; try done.
    by rewrite workflow_view_mark_eviction, workflow_view_insert, !decide_False.
Qed.

#[export] Hint Rewrite workflow_view_mark_eviction workflow_view_insert
  workflow_view_force_remove workflow_view_record : ledger.

(** The fields one side of the ledger owns. *)
Definition workflow_fields (l : TaskLedger) :=
  (workflows l, eviction_activations l, retired_workflows l).
Definition activity_fields (l : TaskLedger) := (activities l, retired_activities l).

Lemma workflow_view_fields l l' r :
  workflow_fields l' = workflow_fields l → workflow_view l' r = workflow_view l r.
Proof. intros [= Hw He Hr]. unfold workflow_view. by rewrite Hw, He, Hr. Qed.

Lemma activity_view_fields l l' t :
  activity_fields l' = activity_fields l → activity_view l' t = activity_view l t.
Proof. intros [= Ha Hr]. unfold activity_view. by rewrite Ha, Hr. Qed.

Lemma record_activity_workflow_fields t k l :
  workflow_fields (record_activity t k l).2 = workflow_fields l.
Proof. unfold record_activity. by repeat case_match. Qed.

Lemma record_workflow_activity_fields r e l :
  activity_fields (record_workflow r e l).2 = activity_fields l.
Proof. unfold record_workflow, mark_eviction. by repeat case_match. Qed.

Lemma no_debt_no_eviction l r :
  ledger_wf l → workflows l !! r = None → r ∉ eviction_activations l.
Proof. intros Hwf HN [? ?]%(wf_evictions _ Hwf)%elem_of_dom. congruence. Qed.

(** Finish a view equation: unfold both views and follow the lookups. *)
Ltac solve_view :=
  cbn [fst snd leased cancelled]; autorewrite with ledger;
  unfold workflow_view, activity_view in *; simpl in *;
  repeat case_decide; subst; simplify_option_eq; simpl;
  repeat match goal with
  | H : ?m !! ?k = _ |- context [?m !! ?k] => rewrite H
  end; simpl; try done.

(** The workflow side of every method acts on each run id independently, and
    on each as [workflow_automaton] says. *)
Lemma apply_op_workflow_view op l r :
  ledger_wf l → op_allowed op l →
  workflow_view (apply_op op l) r = workflow_automaton op (phase l) r (workflow_view l r).
Proof.
  intros Hwf Hop. pose proof (no_debt_no_eviction l r Hwf) as Hev.
  destruct op; cbn [apply_op workflow_automaton];
    try (apply workflow_view_fields; done).
  - unfold admit_workflow, ensure_open. destruct (phase l) eqn:Hp; simpl.
    + rewrite workflow_view_record. repeat case_decide; naive_solver.
    + case_decide; naive_solver.
  - unfold admit_polled_workflow. by rewrite workflow_view_record.
  - unfold admit_polled_workflow_activation. by rewrite workflow_view_record.
  - apply workflow_view_fields. unfold admit_activity.
    case_match; [apply record_activity_workflow_fields|done].
  - apply workflow_view_fields, record_activity_workflow_fields.
  - unfold lease_workflow. destruct (workflows l !! run_id) as [[]|] eqn:E; solve_view.
  - unfold lease_workflow_activation, lease_workflow.
    destruct (workflows l !! run_id) as [[]|] eqn:E; solve_view.
  - unfold abandon_workflow_admission.
    destruct (workflows l !! run_id) as [[]|] eqn:E; solve_view.
  - apply workflow_view_fields. unfold lease_activity. by repeat case_match.
  - apply workflow_view_fields. unfold handoff_activity, lease_activity.
    by repeat case_match.
  - apply workflow_view_fields. unfold abandon_activity_admission.
    by repeat case_match.
  - unfold complete_workflow.
    destruct (workflows l !! run_id) as [[]|] eqn:E; solve_view.
  - unfold restore_rejected_workflow_completion.
    destruct (workflows l !! run_id) as [[]|] eqn:E; solve_view;
      by destruct Hev.
  - case_decide; subst; unfold restore_eviction_lease.
    + change (set_evictions _ l) with (mark_eviction run_id true l). solve_view.
    + apply workflow_view_ext; simpl; set_solver.
  - apply workflow_view_fields. unfold complete_activity. by repeat case_match.
  - solve_view.
  - unfold retire_workflow_for_dispose, workflow_view; simpl. case_decide; subst.
    + rewrite lookup_delete_eq. f_equal. apply bool_decide_eq_true_2. set_solver.
    + rewrite lookup_delete_ne by done. f_equal.
      * destruct (workflows l !! r); [|done]. simpl. do 2 f_equal.
        apply bool_decide_ext. set_solver.
      * apply bool_decide_ext. set_solver.
  - done.
  - destruct (take_all_outstanding l) as [[ws ts] l'] eqn:E.
    apply take_all_outstanding_spec in E as (_ & _ & _ & ->).
    unfold workflow_view; simpl. rewrite lookup_empty. simpl. f_equal.
    rewrite <-bool_decide_or. apply bool_decide_ext.
    rewrite elem_of_union, elem_of_dom, fmap_is_Some. done.
  - unfold workflow_view; simpl. by rewrite lookup_empty.
  - destruct (take_leased_for_shutdown l) as [[ws ts] l'] eqn:E.
    apply take_leased_for_shutdown_spec in E as (_ & _ & Hw & _ & He & _ & _ & Hrw & _).
    unfold workflow_view; simpl. rewrite Hw, Hrw.
    destruct (workflows l !! r) as [[]|] eqn:Er; simpl; try done.
    do 3 f_equal. apply bool_decide_ext. rewrite He. naive_solver.
Qed.

Lemma activity_view_insert l t t' s :
  activity_view (set_activities (<[t := s]> (activities l)) l) t' =
  if decide (t' = t) then mkActivityView (Some s) (av_retired (activity_view l t'))
  else activity_view l t'.
Proof.
  unfold activity_view; simpl. rewrite lookup_insert.
  repeat case_decide; simplify_eq/=; done.
Qed.

Lemma activity_view_force_remove l t t' :
  activity_view (force_remove_activity t l) t' =
  if decide (t' = t) then mkActivityView None (av_retired (activity_view l t'))
  else activity_view l t'.
Proof.
  unfold activity_view; simpl. rewrite lookup_delete.
  repeat case_decide; simplify_eq/=; done.
Qed.

Lemma activity_view_record l t t' k :
  activity_view (record_activity t k l).2 t' =
  if decide (t' = t) then spec_admit_activity t' k (activity_view l t')
  else activity_view l t'.
Proof.
  unfold record_activity. rewrite valid_task_token_guard.
  case_decide as Hd; [subst t'|].
  - unfold spec_admit_activity. destruct (valid_task_token t); simpl; [|done].
    destruct (bool_decide (t ∈ retired_activities l)) eqn:Hr; simpl.
    { unfold activity_view. rewrite Hr. by destruct k, (activities l !! t). }
    destruct k, (activities l !! t) as [[[] ?]|] eqn:E; simpl;
      rewrite ?activity_view_insert, ?decide_True by done;
      unfold activity_view; by rewrite E, Hr.
  - repeat case_match; simpl; try done;
      by rewrite activity_view_insert, decide_False.
Qed.

#[export] Hint Rewrite activity_view_insert activity_view_force_remove
  activity_view_record : ledger.

(** The activity side of every method, as [activity_automaton] says. *)
Lemma apply_op_activity_view op l t :
  activity_view (apply_op op l) t = activity_automaton op (phase l) t (activity_view l t).
Proof.
  destruct op; cbn [apply_op activity_automaton];
    try (apply activity_view_fields; done).
  - apply activity_view_fields. unfold admit_workflow.
    case_match; [apply record_workflow_activity_fields|done].
  - apply activity_view_fields, record_workflow_activity_fields.
  - apply activity_view_fields, record_workflow_activity_fields.
  - unfold admit_activity, ensure_open.
    destruct kind, (phase l) eqn:Hp; simpl; rewrite ?activity_view_record;
      repeat case_decide; naive_solver.
  - apply activity_view_record.
  - apply activity_view_fields. unfold lease_workflow. by repeat case_match.
  - apply activity_view_fields.
    unfold lease_workflow_activation, lease_workflow, mark_eviction.
    by repeat case_match; simplify_eq/=.
  - apply activity_view_fields. unfold abandon_workflow_admission. by repeat case_match.
  - unfold lease_activity.
    destruct (activities l !! token) as [[? []]|] eqn:E; solve_view.
  - unfold handoff_activity, lease_activity. destruct kind; [|done].
    destruct (activities l !! token) as [[? []]|] eqn:E; solve_view.
  - unfold abandon_activity_admission.
    destruct (activities l !! token) as [[? []]|] eqn:E; solve_view.
  - apply activity_view_fields. unfold complete_workflow. by repeat case_match.
  - apply activity_view_fields. unfold restore_rejected_workflow_completion.
    by repeat case_match.
  - unfold complete_activity.
    destruct (activities l !! token) as [[? []]|] eqn:E; solve_view.
  - solve_view.
  - unfold retire_activity_for_dispose, activity_view; simpl.
    case_decide; subst.
    + rewrite lookup_delete_eq. f_equal. apply bool_decide_eq_true_2. set_solver.
    + rewrite lookup_delete_ne by done. f_equal. apply bool_decide_ext. set_solver.
  - done.
  - destruct (take_all_outstanding l) as [[ws ts] l'] eqn:E.
    apply take_all_outstanding_spec in E as (_ & _ & _ & ->).
    unfold activity_view; simpl. rewrite lookup_empty. f_equal.
    rewrite <-bool_decide_or. apply bool_decide_ext.
    by rewrite elem_of_union, elem_of_dom.
  - unfold activity_view; simpl. by rewrite lookup_empty.
  - destruct (take_leased_for_shutdown l) as [[ws ts] l'] eqn:E.
    apply take_leased_for_shutdown_spec in E as (_ & _ & _ & Ha & _ & _ & _ & _ & Hra).
    unfold activity_view; simpl. rewrite Ha, Hra.
    destruct (activities l !! t) as [[? []]|]; done.
Qed.

(** ** Properties *)

(** Starting from an empty ledger, every sequence of ledger calls (with the
    restore calls used as their only caller uses them) keeps the ledger well
    formed: eviction bits never outgrow the outstanding workflows, every
    tracked identity is non-empty and within its transport ceiling, and no
    identity is outstanding and tombstoned at once. *)
Theorem ledger_invariant ops :
  ops_allowed ops TaskLedger_new → ledger_wf (run_ops ops TaskLedger_new).
Proof. intros. by apply run_ops_wf; auto with ledger. Qed.

(** A short life of two tasks, used by the witnesses. *)
Definition sample_token : list byte := [x01; x02].
Definition sample_ops : list LedgerOp :=
  [ OpAdmitPolledActivation "run-a" false; OpLeaseActivation "run-a" false;
    OpCompleteWorkflow "run-a"; OpRestoreWorkflow "run-a";
    OpAdmitPolledActivation "run-b" true; OpRestoreEviction "run-b";
    OpAdmitPolledActivity sample_token Start; OpLeaseActivity sample_token;
    OpAdmitPolledActivity sample_token Cancel; OpBeginDraining ].

Lemma sample_ops_allowed : ops_allowed sample_ops TaskLedger_new.
Proof. repeat split; try done; by apply (bool_decide_unpack _); vm_compute. Defined.

Lemma ledger_invariant_witness : ledger_wf (run_ops sample_ops TaskLedger_new).
Proof. apply (ledger_invariant sample_ops). exact sample_ops_allowed. Defined.

(** C6: refinement.  A well-formed ledger implements the product of
    independent per-identity automata: whatever the call, each run id and each
    task token changes exactly as its own automaton says, so a call for one
    identity never affects another. *)
Theorem ledger_refines_automata op l :
  ledger_wf l → op_allowed op l →
  (∀ r, workflow_view (apply_op op l) r =
        workflow_automaton op (phase l) r (workflow_view l r)) ∧
  (∀ t, activity_view (apply_op op l) t =
        activity_automaton op (phase l) t (activity_view l t)).
Proof.
  intros Hwf Hop. split.
  - intros r. by apply apply_op_workflow_view.
  - intros t. apply apply_op_activity_view.
Qed.

Lemma ledger_refines_automata_witness :
  workflow_view (apply_op OpTakeAll (run_ops sample_ops TaskLedger_new)) "run-b"
  = mkWorkflowView None true.
Proof.
  rewrite (proj1 (ledger_refines_automata OpTakeAll _
    (run_ops_wf _ _ TaskLedger_new_wf sample_ops_allowed) I)).
  vm_compute. reflexivity.
Defined.

Lemma apply_op_lost_same op l :
  op ≠ OpMarkLost → lost_poll_lease (apply_op op l) = lost_poll_lease l.
Proof.
  intros Hop. destruct op; simpl; try done;
    unfold admit_workflow, admit_polled_workflow, admit_polled_workflow_activation,
      record_workflow, admit_activity, admit_polled_activity, record_activity,
      lease_workflow_activation, lease_workflow, handoff_activity, lease_activity,
      abandon_workflow_admission, abandon_activity_admission, complete_workflow,
      complete_activity, restore_rejected_workflow_completion, mark_eviction;
    repeat case_match; simplify_eq/=; try done.
  all: destruct (take_leased_for_shutdown l) as [[ws ts] l'] eqn:E;
    apply take_leased_for_shutdown_spec in E; naive_solver.
Qed.

Lemma apply_op_lost op l : lost_poll_lease l = true → lost_poll_lease (apply_op op l) = true.
Proof.
  intros Hl. destruct (decide (op = OpMarkLost)) as [->|Hop]; [done|].
  by rewrite apply_op_lost_same.
Qed.

(** A lost poll lease blocks finalization for good: once the ledger has
    recorded that a Core task was dropped without a completion, no later
    sequence of calls can make [can_finalize] answer true. *)
Theorem lost_lease_blocks_finalize ops l :
  lost_poll_lease l = true → can_finalize (run_ops ops l) = false.
Proof.
  revert l. induction ops as [|op ops IH]; intros l Hl; simpl.
  - unfold can_finalize. rewrite Hl. apply andb_false_r.
  - by apply IH, apply_op_lost.
Qed.

Lemma lost_lease_blocks_finalize_witness :
  can_finalize (run_ops sample_ops (mark_lost_poll_lease TaskLedger_new)) = false.
Proof. apply lost_lease_blocks_finalize. reflexivity. Defined.

(** [take_leased_for_shutdown] hands back exactly the tasks leased to
    OCaml, each once and each workflow with its own eviction bit, leaves every
    unleased task in place, and tombstones nothing. *)
Theorem take_leased_exact l ws ts l' :
  take_leased_for_shutdown l = ((ws, ts), l') →
  NoDup ws.*1 ∧ NoDup ts ∧
  (∀ r e, (r, e) ∈ ws ↔
     workflows l !! r = Some true ∧ e = is_eviction_lease r l) ∧
  (∀ t, t ∈ ts ↔ ∃ s, activities l !! t = Some s ∧ leased s = true) ∧
  (∀ r b, workflows l' !! r = Some b ↔ workflows l !! r = Some b ∧ b = false) ∧
  (∀ t s, activities l' !! t = Some s ↔ activities l !! t = Some s ∧ leased s = false) ∧
  retired_workflows l' = retired_workflows l ∧
  retired_activities l' = retired_activities l.
Proof.
  intros (-> & -> & Hw & Ha & _ & _ & _ & Hrw & Hra)%take_leased_for_shutdown_spec.
  split_and!; try done.
  - rewrite <-list_fmap_compose, (list_fmap_ext _ id), list_fmap_id by done.
    apply NoDup_fst_filter_map_to_list.
  - apply NoDup_fst_filter_map_to_list.
  - intros r e. rewrite list_elem_of_fmap. unfold is_eviction_lease.
    setoid_rewrite elem_of_leased_run_ids. naive_solver.
  - intros t. apply elem_of_leased_task_tokens.
  - intros r b. rewrite Hw. destruct (workflows l !! r) as [[]|]; naive_solver.
  - intros t s. rewrite Ha. destruct (activities l !! t) as [[c []]|]; simpl;
      split; intros; destruct_and?; simplify_eq/=; done.
Qed.

Definition leased_sample : TaskLedger :=
  run_ops [OpAdmitPolledActivation "run-a" true; OpLeaseActivation "run-a" true;
           OpAdmitPolledActivation "run-b" false] TaskLedger_new.

Lemma take_leased_exact_witness :
  ∃ ws ts l', take_leased_for_shutdown leased_sample = ((ws, ts), l') ∧
    ("run-a", true) ∈ ws ∧ workflows l' !! "run-b" = Some false.
Proof.
  do 3 eexists. split; [vm_compute; reflexivity|].
  pose proof (take_leased_exact leased_sample _ _ _ eq_refl)
    as (_ & _ & Hw & _ & Hb & _).
  split; [apply (Hw "run-a" true)|apply (Hb "run-b" false)]; split; reflexivity.
Defined.

(** Tombstones only disappear through [clear_dispose_retired]. *)
Lemma apply_op_tombstones op l :
  op ≠ OpClearRetired →
  retired_workflows l ⊆ retired_workflows (apply_op op l) ∧
  retired_activities l ⊆ retired_activities (apply_op op l).
Proof.
  intros Hop. destruct op; simpl; try done;
    unfold admit_workflow, admit_polled_workflow, admit_polled_workflow_activation,
      record_workflow, admit_activity, admit_polled_activity, record_activity,
      lease_workflow_activation, lease_workflow, handoff_activity, lease_activity,
      abandon_workflow_admission, abandon_activity_admission, complete_workflow,
      complete_activity, restore_rejected_workflow_completion, mark_eviction;
    try (repeat case_match; simplify_eq/=; done).
  - split; set_solver.
  - split; set_solver.
  - split; set_solver.
  - destruct (take_leased_for_shutdown l) as [[ws ts] l'] eqn:E.
    apply take_leased_for_shutdown_spec in E
      as (_ & _ & _ & _ & _ & _ & _ & Hrw & Hra). simpl. by rewrite Hrw, Hra.
Qed.

Lemma run_ops_tombstones ops l :
  Forall (.≠ OpClearRetired) ops →
  retired_workflows l ⊆ retired_workflows (run_ops ops l) ∧
  retired_activities l ⊆ retired_activities (run_ops ops l).
Proof.
  intros Hops. revert l. induction Hops as [|op ops Hop _ IH]; intros l; simpl; [done|].
  destruct (apply_op_tombstones op l Hop), (IH (apply_op op l)).
  split; etrans; eassumption.
Qed.

(** [take_all_outstanding] takes every outstanding identity exactly once,
    with its eviction bit, and leaves no debt; from then on, until the
    tombstones are cleared, every further poll of a taken identity is refused
    with [Retired], whatever calls happen in between. *)
Theorem take_all_tombstones l ws ts l' ops :
  ledger_wf l → take_all_outstanding l = ((ws, ts), l') →
  Forall (.≠ OpClearRetired) ops →
  outstanding l' = 0 ∧ NoDup ws.*1 ∧ NoDup ts ∧
  (∀ r, r ∈ ws.*1 ↔ is_Some (workflows l !! r)) ∧
  (∀ r e, (r, e) ∈ ws → e = is_eviction_lease r l) ∧
  (∀ t, t ∈ ts ↔ is_Some (activities l !! t)) ∧
  (∀ r e, r ∈ ws.*1 →
     (admit_polled_workflow_activation r e (run_ops ops l')).1 = Err Retired) ∧
  (∀ t k, t ∈ ts → (admit_polled_activity t k (run_ops ops l')).1 = Err Retired).
Proof.
  intros Hwf (Hws & Hev & -> & ->)%take_all_outstanding_spec Hops.
  destruct (run_ops_tombstones ops
    (mkTaskLedger (phase l) ∅ ∅ (lost_poll_lease l)
       (retired_workflows l ∪ dom (workflows l))
       (retired_activities l ∪ dom (activities l)) ∅) Hops) as [Hrw Hra].
  simpl in Hrw, Hra. rewrite Hws.
  assert (∀ r, r ∈ (map_to_list (workflows l)).*1 ↔ is_Some (workflows l !! r)) as HW.
  { intros r. rewrite list_elem_of_fmap. split.
    - intros ([??] & -> & Hin%elem_of_map_to_list). eauto.
    - intros [b Hb]. exists (r, b). by rewrite elem_of_map_to_list. }
  assert (∀ t, t ∈ (map_to_list (activities l)).*1 ↔ is_Some (activities l !! t)) as HA.
  { intros t. rewrite list_elem_of_fmap. split.
    - intros ([??] & -> & Hin%elem_of_map_to_list). eauto.
    - intros [s Hs]. exists (t, s). by rewrite elem_of_map_to_list. }
  split_and!; try done; try apply NoDup_fst_map_to_list.
  - intros r e [b Hb]%HW. destruct (wf_run_ids _ Hwf _ _ Hb) as [Hv _].
    unfold admit_polled_workflow_activation, record_workflow.
    rewrite valid_run_id_guard, Hv. simpl. rewrite bool_decide_eq_true_2; [done|].
    apply Hrw. apply elem_of_union_r, elem_of_dom. eauto.
  - intros t k [s Hs]%HA. destruct (wf_tokens _ Hwf _ _ Hs) as [Hv _].
    unfold admit_polled_activity, record_activity.
    rewrite valid_task_token_guard, Hv. simpl. rewrite bool_decide_eq_true_2; [done|].
    apply Hra. apply elem_of_union_r, elem_of_dom. eauto.
Qed.

Lemma take_all_tombstones_witness :
  (admit_polled_workflow_activation "run-a" true
     (run_ops [OpBeginDraining; OpForceRemoveWorkflow "run-a"]
        (take_all_outstanding leased_sample).2)).1 = Err Retired.
Proof.
  assert (ledger_wf leased_sample) as Hwf
    by (apply run_ops_wf; [apply TaskLedger_new_wf|done]).
  destruct (take_all_outstanding leased_sample) as [[ws ts] l'] eqn:E.
  eapply (take_all_tombstones leased_sample ws ts l' _ Hwf E).
  - repeat constructor; discriminate.
  - vm_compute in E. injection E as <- _ _. apply (bool_decide_unpack _). vm_compute. exact I.
Defined.
