(* ===== verification/Readiness.v ===== *)
(** * Poll-lane readiness

    Model of the wake state of one Rust-owned poll queue
    (src/rust/core-bridge/src/worker_bridge.rs: [Readiness], [AnyLaneWake],
    [wait_any_lane]) and of the lane error types it carries.

    The queue itself is a Tokio unbounded channel, which is not part of this
    repository: it is the interface [Mpsc] below, whose laws are the
    documented behaviour of [tokio::sync::mpsc::unbounded_channel] (FIFO, a
    send fails exactly when the receiver is gone, an empty queue reports
    [Disconnected] exactly when every sender is gone).  [list_mpsc] shows the
    laws are satisfiable.

    Each method body runs under one mutex, so it is one atomic function on the
    readiness state and the channel.  A blocking wait is a function of the
    sequence of observations its loop makes (the state it sees after each
    wake-up, the clock, and whether the condition variable timed out). *)

From S2P Require Import Prelude.
From S2P Require Import TaskLedger.

(** ** Lane errors *)

Inductive PollLaneError :=
| LaneCore (message : string)
| LaneAdmission (error : AdmitError)
| DuplicateIdentity
| InvalidActivityVariant.

#[global] Instance PollLaneError_eq_dec : EqDecision PollLaneError.
Proof. solve_decision. Defined.

Definition ReadyTask (T : Type) : Type := result T PollLaneError.

Definition public_poll_lane_error_message (error : PollLaneError) : string :=
  match error with
  | LaneCore _ => "Temporal worker poll lane failed"
  | LaneAdmission AdmitDraining =>
      "Temporal worker poll lane rejected work while draining"
  | LaneAdmission InvalidIdentity =>
      "Temporal worker poll lane received an invalid task identity"
  | LaneAdmission UnknownActivityCancellation =>
      "Temporal worker poll lane received an unknown activity cancellation"
  | LaneAdmission Retired =>
      "Temporal worker poll lane received an identity already retired during disposal"
  | DuplicateIdentity =>
      "Temporal worker poll lane received a duplicate task identity"
  | InvalidActivityVariant =>
      "Temporal worker poll lane received an invalid activity variant"
  end.

(** ** The channel interface *)

Inductive TryRecvError := RecvEmpty | RecvDisconnected.

Class Mpsc (C : Type → Type) := {
  mpsc_new : ∀ T, C T;
  mpsc_send : ∀ {T}, T → C T → option (C T);
  mpsc_try_recv : ∀ {T}, C T → result (T * C T) TryRecvError;
  mpsc_drop_sender : ∀ {T}, C T → C T;
  mpsc_contents : ∀ {T}, C T → list T;
  mpsc_receiver_open : ∀ {T}, C T → bool;
  mpsc_sender_open : ∀ {T}, C T → bool
}.

Class MpscLaws (C : Type → Type) `{Mpsc C} : Prop := {
  mpsc_new_spec T :
    mpsc_contents (mpsc_new T) = [] ∧
    mpsc_receiver_open (mpsc_new T) = true ∧ mpsc_sender_open (mpsc_new T) = true;
  mpsc_send_open {T} (x : T) c :
    mpsc_receiver_open c = true →
    ∃ c', mpsc_send x c = Some c' ∧ mpsc_contents c' = mpsc_contents c ++ [x] ∧
          mpsc_receiver_open c' = true ∧ mpsc_sender_open c' = mpsc_sender_open c;
  mpsc_send_closed {T} (x : T) c :
    mpsc_receiver_open c = false → mpsc_send x c = None;
  mpsc_try_recv_cons {T} (c : C T) x q :
    mpsc_contents c = x :: q →
    ∃ c', mpsc_try_recv c = Ok (x, c') ∧ mpsc_contents c' = q ∧
          mpsc_receiver_open c' = mpsc_receiver_open c ∧
          mpsc_sender_open c' = mpsc_sender_open c;
  mpsc_try_recv_nil {T} (c : C T) :
    mpsc_contents c = [] →
    mpsc_try_recv c = Err (if mpsc_sender_open c then RecvEmpty else RecvDisconnected);
  mpsc_drop_sender_spec {T} (c : C T) :
    mpsc_contents (mpsc_drop_sender c) = mpsc_contents c ∧
    mpsc_receiver_open (mpsc_drop_sender c) = mpsc_receiver_open c ∧
    mpsc_sender_open (mpsc_drop_sender c) = false
}.

(** A channel that satisfies the laws. *)
Record ListChan (T : Type) := mkListChan {
  lc_queue : list T;
  lc_receiver : bool;
  lc_sender : bool
}.
Arguments mkListChan {T} _ _ _.
Arguments lc_queue {T} _.
Arguments lc_receiver {T} _.
Arguments lc_sender {T} _.

#[global] Instance list_mpsc : Mpsc ListChan := {
  mpsc_new T := mkListChan [] true true;
  mpsc_send T x c :=
    if lc_receiver c
    then Some (mkListChan (lc_queue c ++ [x]) true (lc_sender c)) else None;
  mpsc_try_recv T c :=
    match lc_queue c with
    | x :: q => Ok (x, mkListChan q (lc_receiver c) (lc_sender c))
    | [] => Err (if lc_sender c then RecvEmpty else RecvDisconnected)
    end;
  mpsc_drop_sender T c := mkListChan (lc_queue c) (lc_receiver c) false;
  mpsc_contents T := lc_queue;
  mpsc_receiver_open T := lc_receiver;
  mpsc_sender_open T := lc_sender
}.

#[global] Instance list_mpsc_laws : MpscLaws ListChan.
Proof.
  split; intros; simpl in *; try done.
  - rewrite H. eauto.
  - by rewrite H.
  - rewrite H. eauto.
  - by rewrite H.
Qed.

(** ** Readiness state *)

Record ReadinessState := mkReadinessState {
  pending : N;
  lane_error : option PollLaneError;
  closed : bool;
  core_stream_ended : bool
}.

Definition ReadinessState_default : ReadinessState := mkReadinessState 0 None false false.

Inductive ReadinessWait :=
| WaitReady
| WaitShutdown
| WaitError (error : PollLaneError)
| WaitTimedOut.

#[global] Instance ReadinessWait_eq_dec : EqDecision ReadinessWait.
Proof. solve_decision. Defined.

Definition set_pending p (s : ReadinessState) : ReadinessState :=
  mkReadinessState p (lane_error s) (closed s) (core_stream_ended s).
Definition set_closed (s : ReadinessState) : ReadinessState :=
  mkReadinessState (pending s) (lane_error s) true (core_stream_ended s).

(** [AnyLaneWake::notify]: the worker-wide generation counter. *)
Definition any_notify (generation : N) : N := u64_wrapping_add generation 1.

Section Readiness.
Context {C : Type → Type} `{!Mpsc C}.
Context {T : Type}.

(** One lane: the state behind [Readiness::state] and the queue it guards. *)
Record Readiness := mkReadiness {
  state : ReadinessState;
  queue : C (ReadyTask T)
}.

Definition readiness_sharing : Readiness :=
  mkReadiness ReadinessState_default (mpsc_new _).

Definition enqueue (message : ReadyTask T) (r : Readiness) (generation : N)
    : bool * Readiness * N :=
  match mpsc_send message (queue r) with
  | None => (false, mkReadiness (set_closed (state r)) (queue r), any_notify generation)
  | Some q =>
      (true,
       mkReadiness
         (set_pending (usize_saturating_add (pending (state r)) 1) (state r)) q,
       any_notify generation)
  end.

Definition reported_failure (report_failure : bool) (s : ReadinessState)
    : option (ReadyTask T) :=
  if report_failure then Err <$> lane_error s else None.

Definition take_inner (report_failure : bool) (r : Readiness) (generation : N)
    : option (ReadyTask T) * Readiness * N :=
  match mpsc_try_recv (queue r) with
  | Ok (message, q) =>
      (Some message,
       mkReadiness (set_pending (saturating_sub (pending (state r)) 1) (state r)) q,
       generation)
  | Err RecvEmpty => (reported_failure report_failure (state r), r, generation)
  | Err RecvDisconnected =>
      let s := set_closed (state r) in
      (reported_failure report_failure s, mkReadiness s (queue r),
       any_notify generation)
  end.

Definition take := take_inner false.
Definition take_or_failure := take_inner true.

(** [take_async] receives without the mutex and then retires the pending
    count under it: two atomic steps. *)
Definition take_async_recv (r : Readiness) : option (option (ReadyTask T) * Readiness) :=
  match mpsc_try_recv (queue r) with
  | Ok (message, q) => Some (Some message, mkReadiness (state r) q)
  | Err RecvEmpty => None
  | Err RecvDisconnected => Some (None, r)
  end.

Definition take_async_retire (r : Readiness) : Readiness :=
  mkReadiness (set_pending (saturating_sub (pending (state r)) 1) (state r)) (queue r).

Definition fail (error : PollLaneError) (r : Readiness) (generation : N)
    : Readiness * N :=
  let s := state r in
  (mkReadiness (mkReadinessState (pending s) (Some error) (closed s)
                  (core_stream_ended s)) (queue r),
   any_notify generation).

Definition close_inner (ended : bool) (r : Readiness) (generation : N)
    : Readiness * N :=
  let s := state r in
  (mkReadiness (mkReadinessState (pending s) (lane_error s) true
                  (core_stream_ended s || ended)) (queue r),
   any_notify generation).

Definition close := close_inner false.
Definition close_after_core_shutdown := close_inner true.
End Readiness.
Arguments Readiness C T : clear implicits.
Arguments mkReadiness {C T} _ _.

(** ** Bounded waits *)

Definition READINESS_WAIT_TIMEOUT_MS : N := 100.

(** What one iteration of a wait loop sees: whether the condition variable
    reported a timeout on the way here, the lane state under the mutex, and
    the clock read afterwards. *)
Record WaitPoint (S : Type) := mkWaitPoint {
  wp_timed_out : bool;
  wp_state : S;
  wp_now : N
}.
Arguments mkWaitPoint {S} _ _ _.
Arguments wp_timed_out {S} _.
Arguments wp_state {S} _.
Arguments wp_now {S} _.

(** The predicate part of [Readiness::wait]. *)
Definition observe_lane (s : ReadinessState) : option ReadinessWait :=
  if (0 <? pending s)%N then Some WaitReady
  else match lane_error s with
  | Some error => Some (WaitError error)
  | None => if closed s then Some WaitShutdown else None
  end.

(** [Readiness::wait]; [None] means the caller is still blocked after the
    given observations. *)
Fixpoint wait_loop (deadline : N) (points : list (WaitPoint ReadinessState))
    : option ReadinessWait :=
  match points with
  | [] => None
  | p :: rest =>
      if wp_timed_out p then Some WaitTimedOut
      else match observe_lane (wp_state p) with
      | Some outcome => Some outcome
      | None =>
          if (saturating_sub deadline (wp_now p) =? 0)%N then Some WaitTimedOut
          else wait_loop deadline rest
      end
  end.

Definition wait (started : N) (points : list (WaitPoint ReadinessState))
    : option ReadinessWait :=
  wait_loop (started + READINESS_WAIT_TIMEOUT_MS) points.

(** [observe_both]: one snapshot of the two lanes, workflow first. *)
Record LaneObservation := mkLaneObservation {
  lo_pending : bool;
  lo_error : option PollLaneError;
  lo_closed : bool
}.

Definition lane_observation (s : ReadinessState) : LaneObservation :=
  mkLaneObservation (0 <? pending s)%N (lane_error s) (closed s).

Definition observe_both (workflow activity : ReadinessState) : list LaneObservation :=
  lane_observation <$> [workflow; activity].

Fixpoint first_error (lanes : list LaneObservation) : option PollLaneError :=
  match lanes with
  | [] => None
  | lane :: rest =>
      match lo_error lane with Some error => Some error | None => first_error rest end
  end.

Definition classify_lanes (lanes : list LaneObservation) : option ReadinessWait :=
  if existsb lo_pending lanes then Some WaitReady
  else match first_error lanes with
  | Some error => Some (WaitError error)
  | None => if existsb lo_closed lanes then Some WaitShutdown else None
  end.

(** [wait_any_lane]; unlike [wait] it ignores the condition variable's timeout
    flag and rechecks both lanes after every wake-up. *)
Fixpoint wait_any_loop (deadline : N)
    (points : list (WaitPoint (ReadinessState * ReadinessState)))
    : option ReadinessWait :=
  match points with
  | [] => None
  | p :: rest =>
      match classify_lanes (observe_both (wp_state p).1 (wp_state p).2) with
      | Some outcome => Some outcome
      | None =>
          if (saturating_sub deadline (wp_now p) =? 0)%N then Some WaitTimedOut
          else wait_any_loop deadline rest
      end
  end.

Definition wait_any_lane (started : N)
    (points : list (WaitPoint (ReadinessState * ReadinessState)))
    : option ReadinessWait :=
  wait_any_loop (started + READINESS_WAIT_TIMEOUT_MS) points.

(** ** Replay completions that Core may never answer *)

Definition REPLAY_CORE_WAIT_TIMEOUT_MS : N := 60 * 1000.
Definition REPLAY_STRANDED_COMPLETION_GRACE_MS : N := 250.

Inductive GuardedCompletion :=
| Finished (reply : result unit string)
| Stranded
| GuardTimedOut.

(** One iteration of [await_reply_unless_stranded]: whether Core's reply is
    ready when the biased select polls it, and, after the check-interval
    sleep, the clock and the lane's [core_stream_ended] flag. *)
Record ReplyTick := mkReplyTick {
  rt_reply : option (result unit string);
  rt_now : N;
  rt_stream_ended : bool
}.

Fixpoint await_reply_loop (deadline : N) (stream_ended_at : option N)
    (ticks : list ReplyTick) : option GuardedCompletion :=
  match ticks with
  | [] => None
  | t :: rest =>
      match rt_reply t with
      | Some reply => Some (Finished reply)
      | None =>
          let now := rt_now t in
          if rt_stream_ended t then
            let ended_at := default now stream_ended_at in
            if (REPLAY_STRANDED_COMPLETION_GRACE_MS <=? saturating_sub now ended_at)%N
            then Some Stranded
            else if (deadline <=? now)%N then Some GuardTimedOut
            else await_reply_loop deadline (Some ended_at) rest
          else if (deadline <=? now)%N then Some GuardTimedOut
          else await_reply_loop deadline stream_ended_at rest
      end
  end.

Definition await_reply_unless_stranded (started bound : N) (ticks : list ReplyTick)
    : option GuardedCompletion :=
  await_reply_loop (started + bound) None ticks.

(** [complete_workflow_unless_stranded]: the same wait with Core's bound. *)
Definition complete_workflow_unless_stranded (started : N) (ticks : list ReplyTick)
    : option GuardedCompletion :=
  await_reply_unless_stranded started REPLAY_CORE_WAIT_TIMEOUT_MS ticks.

(** ** Runs of one lane

    Any interleaving of the producer's and the owner's atomic sections on one
    lane, with the messages sent and received recorded on the side. *)

Section Runs.
Context {C : Type → Type} `{!Mpsc C} `{!MpscLaws C} {T : Type}.

Inductive LaneEvent :=
| EvEnqueue (message : ReadyTask T)
| EvTake (report_failure : bool)
| EvAsyncRecv
| EvAsyncRetire
| EvFail (error : PollLaneError)
| EvClose (ended : bool)
| EvDropSender.

Record LaneRun := mkLaneRun {
  run_lane : Readiness C T;
  run_generation : N;
  run_in_flight : nat;
  run_sent : list (ReadyTask T);
  run_received : list (ReadyTask T)
}.

Definition lane_apply (ev : LaneEvent) (s : LaneRun) : LaneRun :=
  let r := run_lane s in
  let g := run_generation s in
  match ev with
  | EvEnqueue m =>
      let '(sent, r, g) := enqueue m r g in
      mkLaneRun r g (run_in_flight s)
        (if sent : bool then run_sent s ++ [m] else run_sent s) (run_received s)
  | EvTake report_failure =>
      let received := option_list (mpsc_contents (queue r) !! 0) in
      let '(_, r, g) := take_inner report_failure r g in
      mkLaneRun r g (run_in_flight s) (run_sent s) (run_received s ++ received)
  | EvAsyncRecv =>
      match take_async_recv r with
      | Some (Some m, r) =>
          mkLaneRun r g (S (run_in_flight s)) (run_sent s) (run_received s ++ [m])
      | _ => s
      end
  | EvAsyncRetire =>
      match run_in_flight s with
      | O => s
      | S n => mkLaneRun (take_async_retire r) g n (run_sent s) (run_received s)
      end
  | EvFail e =>
      let '(r, g) := fail e r g in
      mkLaneRun r g (run_in_flight s) (run_sent s) (run_received s)
  | EvClose ended =>
      let '(r, g) := close_inner ended r g in
      mkLaneRun r g (run_in_flight s) (run_sent s) (run_received s)
  | EvDropSender =>
      mkLaneRun (mkReadiness (state r) (mpsc_drop_sender (queue r))) g
        (run_in_flight s) (run_sent s) (run_received s)
  end.

Definition lane_init : LaneRun := mkLaneRun readiness_sharing 0 0 [] [].

Definition lane_runs (evs : list LaneEvent) : LaneRun :=
  foldl (λ s ev, lane_apply ev s) lane_init evs.

(** The count and the queue agree, and no message is lost, duplicated or
    reordered. *)
Record lane_consistent (s : LaneRun) : Prop := {
  lc_count : pending (state (run_lane s)) =
    N.of_nat (length (mpsc_contents (queue (run_lane s))) + run_in_flight s);
  lc_fifo : run_received s ++ mpsc_contents (queue (run_lane s)) = run_sent s
}.

Lemma lane_apply_consistent ev s :
  lane_consistent s → (pending (state (run_lane s)) < usize_max)%N →
  lane_consistent (lane_apply ev s).
Proof.
  intros [Hc Hf] Hmax. destruct s as [[st q] g n sent received]; simpl in *.
  destruct ev; simpl.
  - unfold enqueue; simpl. destruct (mpsc_receiver_open q) eqn:Hopen.
    + destruct (mpsc_send_open message q Hopen) as (q' & -> & Hq & _ & _).
      split; simpl; rewrite Hq.
      * rewrite usize_saturating_add_exact, Hc, length_app by lia. simpl. lia.
      * by rewrite assoc, Hf by apply _.
    + by rewrite (mpsc_send_closed _ _ Hopen).
  - unfold take_inner; simpl. destruct (mpsc_contents q) as [|m q0] eqn:Hq; simpl.
    + rewrite (mpsc_try_recv_nil _ Hq).
      destruct (mpsc_sender_open q); split; simpl; rewrite ?Hq; by rewrite ?app_nil_r in *.
    + destruct (mpsc_try_recv_cons q m q0 Hq) as (q' & -> & Hq' & _).
      split; simpl; rewrite Hq'.
      * rewrite Hc. unfold saturating_sub. simpl. lia.
      * by rewrite <-Hf, <-app_assoc.
  - unfold take_async_recv; simpl. destruct (mpsc_contents q) as [|m q0] eqn:Hq.
    + rewrite (mpsc_try_recv_nil _ Hq).
      by destruct (mpsc_sender_open q); split; simpl; rewrite ?Hq.
    + destruct (mpsc_try_recv_cons q m q0 Hq) as (q' & -> & Hq' & _).
      split; simpl; rewrite Hq'.
      * rewrite Hc. simpl. lia.
      * by rewrite <-Hf, <-app_assoc.
  - destruct n as [|n]; [by split|]. split; simpl; [|done].
    rewrite Hc. unfold saturating_sub. lia.
  - by split.
  - by split.
  - destruct (mpsc_drop_sender_spec q) as (Hq & _). split; simpl; by rewrite Hq.
Qed.

Lemma lane_apply_pending_le ev s :
  (pending (state (run_lane (lane_apply ev s))) ≤ pending (state (run_lane s)) + 1)%N.
Proof.
  destruct s as [[st q] g n sent received]; destruct ev; simpl;
    unfold enqueue, take_inner, take_async_recv, usize_saturating_add, saturating_sub;
    repeat case_match; simplify_eq/=; unfold saturating_sub; lia.
Qed.

End Runs.
Arguments LaneEvent T : clear implicits.
Arguments LaneRun C T : clear implicits.

Definition sample_lane_events : list (LaneEvent nat) :=
  [EvEnqueue (Ok 1); EvEnqueue (Ok 2); EvAsyncRecv; EvEnqueue (Err DuplicateIdentity);
   EvTake true; EvFail (LaneCore "gone"); EvAsyncRetire; EvClose true].


(** ** Properties of the waits *)

Lemma observe_lane_classify s :
  observe_lane s = classify_lanes [lane_observation s].
Proof.
  unfold observe_lane, classify_lanes; simpl.
  destruct (0 <? pending s)%N; simpl; [done|].
  destruct (lane_error s); [done|]. by destruct (closed s).
Qed.

Lemma first_error_Some lanes e :
  first_error lanes = Some e → ∃ lane, lane ∈ lanes ∧ lo_error lane = Some e.
Proof.
  induction lanes as [|lane lanes IH]; simpl; [done|].
  destruct (lo_error lane) eqn:E; [|set_solver].
  intros [= ->]. exists lane. set_solver.
Qed.

Lemma first_error_None lanes :
  first_error lanes = None ↔ ∀ lane, lane ∈ lanes → lo_error lane = None.
Proof.
  induction lanes as [|lane lanes IH]; simpl; [set_solver|].
  destruct (lo_error lane) eqn:E.
  - split; [done|]. intros Hl. specialize (Hl lane). set_solver.
  - rewrite IH. set_solver.
Qed.

Lemma existsb_exists_elem {A} (f : A → bool) l :
  existsb f l = true ↔ ∃ x, x ∈ l ∧ f x = true.
Proof. rewrite existsb_exists. by setoid_rewrite list_elem_of_In. Qed.

Lemma existsb_false_elem {A} (f : A → bool) l :
  existsb f l = false ↔ ∀ x, x ∈ l → f x = false.
Proof.
  induction l as [|a l IH]; simpl; [set_solver|].
  rewrite orb_false_iff, IH. set_solver.
Qed.

(** Priority of a snapshot: work, then a fatal error, then closure. *)
Lemma classify_lanes_spec lanes :
  match classify_lanes lanes with
  | Some WaitReady => ∃ lane, lane ∈ lanes ∧ lo_pending lane = true
  | Some (WaitError e) =>
      (∀ lane, lane ∈ lanes → lo_pending lane = false) ∧
      ∃ lane, lane ∈ lanes ∧ lo_error lane = Some e
  | Some WaitShutdown =>
      (∀ lane, lane ∈ lanes → lo_pending lane = false ∧ lo_error lane = None) ∧
      ∃ lane, lane ∈ lanes ∧ lo_closed lane = true
  | Some WaitTimedOut => False
  | None =>
      ∀ lane, lane ∈ lanes →
        lo_pending lane = false ∧ lo_error lane = None ∧ lo_closed lane = false
  end.
Proof.
  unfold classify_lanes. destruct (existsb lo_pending lanes) eqn:Hp.
  { by apply existsb_exists_elem. }
  rewrite existsb_false_elem in Hp.
  destruct (first_error lanes) as [e|] eqn:He; [eauto using first_error_Some|].
  rewrite first_error_None in He.
  destruct (existsb lo_closed lanes) eqn:Hc.
  - split; [auto|]. by apply existsb_exists_elem.
  - rewrite existsb_false_elem in Hc. auto.
Qed.

(** The outcome of the combined wait is the first decisive snapshot, or a
    timeout at a snapshot without anything to report once the deadline has
    passed. *)
Lemma wait_any_loop_spec deadline points outcome :
  wait_any_loop deadline points = Some outcome →
  ∃ before p after,
    points = before ++ p :: after ∧
    Forall (λ q, classify_lanes (observe_both (wp_state q).1 (wp_state q).2) = None ∧
                 (wp_now q < deadline)%N) before ∧
    (classify_lanes (observe_both (wp_state p).1 (wp_state p).2) = Some outcome ∨
     classify_lanes (observe_both (wp_state p).1 (wp_state p).2) = None ∧
     outcome = WaitTimedOut ∧ (deadline ≤ wp_now p)%N).
Proof.
  induction points as [|p points IH]; simpl; [done|].
  destruct (classify_lanes _) as [o|] eqn:Ec.
  { intros [= <-]. exists [], p, points. eauto. }
  unfold saturating_sub. destruct (N.eqb_spec (deadline - wp_now p) 0).
  { intros [= <-]. exists [], p, points. split; [done|]. split; [done|]. right. auto with lia. }
  intros (before & p' & after & -> & Hb & Hp)%IH.
  exists (p :: before), p', after. split; [done|]. split; [|done].
  constructor; [|done]. split; [done|]. lia.
Qed.

Lemma wait_any_loop_returns deadline points p :
  p ∈ points → (deadline ≤ wp_now p)%N → is_Some (wait_any_loop deadline points).
Proof.
  induction 1 as [p points|p q points _ IH]; intros Hnow; simpl;
    destruct (classify_lanes _); eauto; unfold saturating_sub.
  - replace (deadline - wp_now p)%N with 0%N by lia. simpl. eauto.
  - destruct (_ =? _)%N; eauto.
Qed.

(** The combined wait of both lanes is bounded and never misreports.  It
    returns as soon as it observes the clock at its 100 ms deadline; it
    answers ready only for a snapshot with queued work in some lane, a fatal
    error only for a snapshot with no queued work in either lane, shutdown
    only for a snapshot with neither work nor error in either lane, and a
    timeout only at the deadline with both lanes quiet. *)
Theorem wait_any_lane_sound started points :
  (∀ p, p ∈ points → (started + READINESS_WAIT_TIMEOUT_MS ≤ wp_now p)%N →
        is_Some (wait_any_lane started points)) ∧
  (∀ outcome, wait_any_lane started points = Some outcome →
   ∃ p, p ∈ points ∧
    let '(w, a) := wp_state p in
    match outcome with
    | WaitReady => (0 < pending w)%N ∨ (0 < pending a)%N
    | WaitError e =>
        pending w = 0%N ∧ pending a = 0%N ∧
        (lane_error w = Some e ∨ lane_error w = None ∧ lane_error a = Some e)
    | WaitShutdown =>
        pending w = 0%N ∧ pending a = 0%N ∧
        lane_error w = None ∧ lane_error a = None ∧ (closed w = true ∨ closed a = true)
    | WaitTimedOut =>
        (started + READINESS_WAIT_TIMEOUT_MS ≤ wp_now p)%N ∧
        pending w = 0%N ∧ pending a = 0%N ∧
        lane_error w = None ∧ lane_error a = None ∧ closed w = false ∧ closed a = false
    end).
Proof.
  split; [intros; by eapply wait_any_loop_returns|].
  intros outcome (before & [t [w a] now] & after & -> & _ & Hp)%wait_any_loop_spec.
  eexists. split; [apply elem_of_app; right; left|]. simpl in *.
  unfold classify_lanes in Hp; simpl in Hp.
  destruct (N.ltb_spec 0 (pending w)), (N.ltb_spec 0 (pending a)); simpl in Hp;
    destruct (lane_error w) eqn:Hew, (lane_error a) eqn:Hea; simpl in Hp;
    try (destruct (closed w) eqn:Hcw, (closed a) eqn:Hca; simpl in Hp);
    destruct Hp as [[= <-]|([=] & -> & ?)]; split_and?; eauto with lia.
Qed.


(** ** Properties of the bounded replay wait *)

(** What justifies an outcome decided at tick [t] after the ticks [before]. *)
Definition reply_outcome_justified (deadline : N) (ended_at : option N)
    (before : list ReplyTick) (t : ReplyTick) (outcome : GuardedCompletion) : Prop :=
  Forall (λ q, rt_reply q = None ∧ (rt_now q < deadline)%N) before ∧
  match outcome with
  | Finished reply => rt_reply t = Some reply
  | Stranded =>
      rt_reply t = None ∧
      ∃ since, (since + REPLAY_STRANDED_COMPLETION_GRACE_MS ≤ rt_now t)%N ∧
        (ended_at = Some since ∨
         ∃ q, q ∈ before ++ [t] ∧ rt_stream_ended q = true ∧ rt_now q = since)
  | GuardTimedOut => rt_reply t = None ∧ (deadline ≤ rt_now t)%N
  end.

Lemma reply_outcome_justified_cons deadline ended_at ended_at' before t0 t outcome :
  rt_reply t0 = None → (rt_now t0 < deadline)%N →
  (∀ since, ended_at' = Some since →
     ended_at = Some since ∨ rt_stream_ended t0 = true ∧ rt_now t0 = since) →
  reply_outcome_justified deadline ended_at' before t outcome →
  reply_outcome_justified deadline ended_at (t0 :: before) t outcome.
Proof.
  intros Hr Hlt He [Hb Ho]. split; [by constructor|]. destruct outcome; try done.
  destruct Ho as (? & since & ? & [[?|[??]]%He|(q & ? & ? & ?)]);
    split; try done; exists since; split; try done; [by left|right..].
  - exists t0. set_solver.
  - exists q. set_solver.
Qed.

Lemma await_reply_loop_spec deadline ended_at ticks outcome :
  await_reply_loop deadline ended_at ticks = Some outcome →
  ∃ before t after, ticks = before ++ t :: after ∧
    reply_outcome_justified deadline ended_at before t outcome.
Proof.
  revert ended_at. induction ticks as [|t ticks IH]; intros ended_at; simpl; [done|].
  destruct (rt_reply t) as [reply|] eqn:Hr.
  { intros [= <-]. by exists [], t, ticks. }
  unfold saturating_sub. destruct (rt_stream_ended t) eqn:He.
  - destruct (N.leb_spec REPLAY_STRANDED_COMPLETION_GRACE_MS
                (rt_now t - default (rt_now t) ended_at)) as [Hg|Hg].
    { intros [= <-]. exists [], t, ticks. split; [done|]. split; [done|].
      split; [done|]. exists (default (rt_now t) ended_at).
      unfold REPLAY_STRANDED_COMPLETION_GRACE_MS in *. split; [lia|].
      destruct ended_at; simpl in *; [by left|lia]. }
    destruct (N.leb_spec deadline (rt_now t)).
    { intros [= <-]. by exists [], t, ticks. }
    intros (before & t0 & after & -> & Ho)%IH.
    exists (t :: before), t0, after. split; [done|].
    eapply reply_outcome_justified_cons; [done..| |done].
    intros since [= <-]. destruct ended_at; simpl; auto.
  - destruct (N.leb_spec deadline (rt_now t)).
    { intros [= <-]. by exists [], t, ticks. }
    intros (before & t0 & after & -> & Ho)%IH.
    exists (t :: before), t0, after. split; [done|].
    eapply reply_outcome_justified_cons; eauto.
Qed.

Lemma await_reply_loop_returns deadline ended_at ticks t :
  t ∈ ticks → (deadline ≤ rt_now t)%N → is_Some (await_reply_loop deadline ended_at ticks).
Proof.
  intros Hin Hnow. revert ended_at.
  induction Hin as [t ticks|t q ticks _ IH]; intros ended_at; simpl;
    repeat case_match; eauto; rewrite N.leb_gt in *; lia.
Qed.

(** A replay completion never waits forever and is never misclassified.
    Once the clock reaches the 60 s bound the wait has returned; a reply is
    returned unchanged; a completion is called stranded only if Core's
    workflow stream was seen terminated and no reply came for at least 250 ms
    after that; it is called timed out only at the bound. *)
Theorem replay_completion_bounded started ticks :
  (∀ t, t ∈ ticks → (started + REPLAY_CORE_WAIT_TIMEOUT_MS ≤ rt_now t)%N →
        is_Some (complete_workflow_unless_stranded started ticks)) ∧
  (∀ outcome, complete_workflow_unless_stranded started ticks = Some outcome →
   ∃ before t after, ticks = before ++ t :: after ∧
    Forall (λ q, rt_reply q = None) before ∧
    match outcome with
    | Finished reply => rt_reply t = Some reply
    | Stranded =>
        rt_reply t = None ∧
        ∃ q, q ∈ before ++ [t] ∧ rt_stream_ended q = true ∧
             (rt_now q + REPLAY_STRANDED_COMPLETION_GRACE_MS ≤ rt_now t)%N
    | GuardTimedOut =>
        rt_reply t = None ∧ (started + REPLAY_CORE_WAIT_TIMEOUT_MS ≤ rt_now t)%N
    end).
Proof.
  split; [intros; by eapply await_reply_loop_returns|].
  intros outcome (before & t & after & -> & Hb & Ho)%await_reply_loop_spec.
  exists before, t, after. split; [done|].
  split; [by eapply Forall_impl; [exact Hb|intros ? [? _]]|].
  destruct outcome; try done.
  destruct Ho as (? & since & ? & [[=]|(q & ? & ? & <-)]). eauto 10.
Qed.
