(* ===== verification/PollLanes.v ===== *)
(** * Poll lanes

    Model of [PollLanes] (src/rust/core-bridge/src/worker_bridge.rs): the two
    Tokio poll loops of a worker, the owner Domain's operations on them, and
    the free functions they use.

    Three threads share the ledger and the two readiness signals: the workflow
    poll lane, the activity poll lane and the owner.  Each source function is a
    definition on its _program points_, the places between two critical
    sections or around an [await], and one step of a thread runs from one
    point to the next.  The points of the owner's functions form an agenda (a
    stack of what remains to be done), so a function that calls another one
    pushes the callee's first point.

    Temporal Core is not part of this repository.  What it returns (a poll
    result, the reply to a completion, which branch of a [select!] is ready,
    a timeout) is an input of the step, and what it is told is appended to
    [core_calls].  [is_local_activity_task], Core's routing predicate on task
    tokens, is a parameter. *)

From S2P Require Import Prelude.
From S2P Require Import TaskLedger.
From S2P Require Import Readiness.

(** ** Core's data, as far as the bridge looks at it *)

Record WorkflowActivation := mkWorkflowActivation {
  wa_run_id : string;
  wa_is_only_eviction : bool
}.

Inductive ActivityVariant := VariantStart | VariantCancel.

Record ActivityTask := mkActivityTask {
  at_task_token : list byte;
  at_variant : option ActivityVariant
}.

Inductive PollResult (T : Type) :=
| Polled (task : T)
| PollShutDown
| PollError (message : string).
Arguments Polled {T} _.
Arguments PollShutDown {T}.
Arguments PollError {T} _.

(** A workflow completion: the bridge's own empty acknowledgement or failure,
    or one supplied by the language side. *)
Inductive CompletionBody :=
| BodyEmpty
| BodyFail (message : string)
| BodyLanguage (is_empty : bool).

Record WorkflowActivationCompletion := mkWorkflowCompletion {
  wc_run_id : string;
  wc_body : CompletionBody
}.

Definition completion_is_empty (c : WorkflowActivationCompletion) : bool :=
  match wc_body c with
  | BodyEmpty => true
  | BodyFail _ => false
  | BodyLanguage is_empty => is_empty
  end.

Inductive ActivityExecutionResult :=
| ResultCancelled
| ResultFailed (message : string) (non_retryable : bool) (failure_type : string)
| ResultLanguage.

Record ActivityTaskCompletion := mkActivityCompletion {
  ac_task_token : list byte;
  ac_result : ActivityExecutionResult
}.

(** Where a completion comes from.  A language completion keeps its lease when
    Core rejects it, so Core's reply matters; a completion the bridge makes
    itself is attempted once, and the debt is gone whatever Core answers. *)
Inductive CompletionOrigin (R : Type) :=
| FromLanguage (reply : R)
| FromBridge.
Arguments FromLanguage {R} _.
Arguments FromBridge {R}.

Inductive CoreCall :=
| CompleteWorkflowActivation (completion : WorkflowActivationCompletion)
    (origin : CompletionOrigin GuardedCompletion)
| CompleteActivityTask (completion : ActivityTaskCompletion)
    (origin : CompletionOrigin (result unit string))
| RecordActivityHeartbeat (task_token : list byte)
| InitiateShutdown
| FinalizeShutdown.

Record WorkerTaskTypes := mkWorkerTaskTypes {
  enable_workflows : bool;
  enable_local_activities : bool;
  enable_remote_activities : bool;
  enable_nexus : bool
}.

(** ** Errors and outcomes *)

Inductive WorkerBridgeError :=
| Completion (error : CompleteError)
| CoreWorkflow (message : string)
| CoreActivity (message : string)
| RetryableActivityCompletion
| OutstandingTasks (count : nat)
| LostPollLease
| WorkerStillShared
| CompletionStranded
| CoreWaitTimedOut.

Definition public_worker_error_message (error : WorkerBridgeError) : string :=
  match error with
  | Completion UnknownWorkflow =>
      "Temporal worker completion referred to an unknown workflow"
  | Completion UnknownActivity =>
      "Temporal worker completion referred to an unknown activity"
  | Completion NotLeased => "Temporal worker completion referred to an unleased task"
  | Completion AlreadyLeased =>
      "Temporal worker completion referred to an already leased task"
  | CoreWorkflow _ => "Temporal workflow completion was rejected by Core"
  | CoreActivity _ => "Temporal activity completion was rejected by Core"
  | RetryableActivityCompletion =>
      "Temporal activity completion transport is temporarily unavailable"
  | OutstandingTasks _ => "Temporal worker has outstanding tasks"
  | LostPollLease => "Temporal worker has an uncompleted poll lease"
  | WorkerStillShared => "Temporal worker remains shared after shutdown"
  | CompletionStranded =>
      "Temporal workflow completion was not processed before Core shut down"
  | CoreWaitTimedOut => "Temporal Core did not respond within its bound"
  end.

Inductive CompletionWait := Unbounded | ReplayBounded.

Record ShutdownRetirement := mkShutdownRetirement {
  abandoned_leases : nat;
  undelivered : nat
}.

Inductive ShutdownDrainError :=
| DrainLane (error : PollLaneError)
| DrainTimedOut.

(** What an owner call returns. *)
Inductive OwnerResult :=
| TookWorkflow (task : option (ReadyTask WorkflowActivation))
| TookActivity (task : option (ReadyTask ActivityTask))
| UnitResult (r : result unit WorkerBridgeError)
| DrainResult (r : result ShutdownRetirement ShutdownDrainError)
| LaneJoinResult (r : result unit PollLaneError)
| FinalizeResult (r : result unit WorkerBridgeError)
| Returned.

(** ** Bounded failure messages *)

Definition workflow_rejection_message (reason : string) : string :=
  "OCaml bridge could not represent the workflow activation: " +:+ reason.

Definition activity_rejection_message (reason : string) : string :=
  "OCaml bridge could not represent the activity task: " +:+ reason.

Definition workflow_admission_rejection_message (reason : string) : string :=
  "OCaml bridge could not admit the workflow activation: " +:+ reason.

Definition activity_admission_rejection_message (reason : string) : string :=
  "OCaml bridge could not admit the activity task: " +:+ reason.

Definition shutdown_retirement_message (reason : string) : string :=
  "OCaml bridge retired the task during worker shutdown: " +:+ reason.

Definition UNREPRESENTABLE_ACTIVITY_TASK_FAILURE_TYPE : string :=
  "UnrepresentableActivityTask".

Definition unrepresentable_activity_failure (reason : string) : ActivityExecutionResult :=
  ResultFailed (activity_rejection_message reason) true
    UNREPRESENTABLE_ACTIVITY_TASK_FAILURE_TYPE.

(** ** Task types and lanes *)

Definition bridge_task_types (workflows activities : bool)
    : result WorkerTaskTypes string :=
  if negb workflows && negb activities
  then Err "task_types must enable workflows or activities"
  else Ok (mkWorkerTaskTypes workflows workflows activities false).

Definition poll_lanes_for (task_types : WorkerTaskTypes) : bool * bool :=
  (enable_workflows task_types,
   enable_remote_activities task_types || enable_local_activities task_types).

Definition is_cancel_variant (task : ActivityTask) : bool :=
  match at_variant task with Some VariantCancel => true | _ => false end.

Definition is_stale_activity_cancellation (task : ActivityTask) (error : CompleteError)
    : bool :=
  is_cancel_variant task && bool_decide (error = UnknownActivity).

Definition is_ignorable_activity_cancellation (kind : ActivityAdmission)
    (admission : result Admission AdmitError) : bool :=
  bool_decide (kind = Cancel) &&
  match admission with Ok Duplicate | Err _ => true | _ => false end.

(** A completion debt, and how the bridge came to drop one without completing
    it.  These are history, not program state. *)
Inductive Debt :=
| WorkflowDebt (run_id : string)
| ActivityDebt (task_token : list byte).

Inductive DropReason :=
| DropMarkedLost
| DropRestoreConflict
| DropReplayTimedOut.

(** ** Program points *)

(** [run_workflow_lane]. *)
Inductive WorkflowLanePoint :=
| WlPoll
| WlAdmit (activation : WorkflowActivation)
| WlEnqueue (activation : WorkflowActivation)
| WlAbandon (run_id : string)
| WlFailClosed (run_id : string)
| WlMarkLost (activation : WorkflowActivation) (error : PollLaneError)
| WlAcknowledge (run_id : string)
| WlForceFail (run_id reason : string) (error : PollLaneError)
| WlPublish (error : PollLaneError)
| WlPublishCoreError (error : PollLaneError)
| WlSignalFail (error : PollLaneError)
| WlCloseSignal
| WlDone.

(** [run_activity_lane]. *)
Inductive ActivityLanePoint :=
| AlPoll
| AlFailVariant (task_token : list byte)
| AlAdmit (task : ActivityTask) (kind : ActivityAdmission)
| AlEnqueue (task : ActivityTask) (kind : ActivityAdmission)
| AlAbandon (task_token : list byte)
| AlFailClosed (task_token : list byte)
| AlMarkLost (task : ActivityTask) (error : PollLaneError)
| AlForceFail (task_token : list byte) (reason : string) (error : PollLaneError)
| AlPublish (error : PollLaneError)
| AlPublishCoreError (error : PollLaneError)
| AlSignalFail (error : PollLaneError)
| AlCloseSignal
| AlDone.

Inductive TryTakeWorkflowPoint :=
| TtwTake
| TtwLease (activation : WorkflowActivation)
| TtwForceFail (run_id : string)
| TtwAbandon (run_id : string).

Inductive TryTakeActivityPoint :=
| TtaTake
| TtaHandoff (task : ActivityTask)
| TtaForceFail (task_token : list byte)
| TtaAbandon (task_token : list byte).

Inductive InitiateShutdownPoint :=
| IsBeginDraining
| IsCloseWorkflow
| IsCloseActivity
| IsCore.

Inductive CompleteWorkflowPoint :=
| CwRetire (completion : WorkflowActivationCompletion) (wait : CompletionWait)
| CwSend (completion : WorkflowActivationCompletion) (wait : CompletionWait)
    (was_eviction : bool)
| CwRestore (run_id : string) (was_eviction : bool) (error : string).

Inductive CompleteActivityPoint :=
| CaEnsure (completion : ActivityTaskCompletion)
| CaSend (completion : ActivityTaskCompletion)
| CaRetire (task_token : list byte).

Inductive RejectWorkflowPoint :=
| RwRetire (run_id reason : string) (wait : CompletionWait)
| RwSend (completion : WorkflowActivationCompletion) (wait : CompletionWait)
    (eviction_only : bool).

Inductive RejectActivityPoint :=
| RaEnsure (task_token : list byte) (reason : string)
| RaSend (completion : ActivityTaskCompletion)
| RaRetire (task_token : list byte) (core_result : result unit WorkerBridgeError).

(** [retire_visible_for_shutdown] and the two functions it calls. *)
Inductive RetirePoint :=
| RvTakeLeased
| RvSendWorkflow (run_id : string) (eviction_only : bool) (reason : string)
| RvSendActivity (task_token : list byte) (reason : string)
| RvDrainWorkflows
| RvDrainActivities
| RvQueuedWorkflow (message : ReadyTask WorkflowActivation)
| RvQueuedActivity (message : ReadyTask ActivityTask).

(** [drain_and_join] and its timeout wrapper; [message] is a task received by
    [take_async] whose pending count is not yet retired. *)
Inductive DrainPoint :=
| DjLoop
| DjSelect
| DjCountWorkflow (message : ReadyTask WorkflowActivation)
| DjCountActivity (message : ReadyTask ActivityTask)
| DjFinish.

Inductive JoinPoint :=
| JpWorkflow
| JpActivity (first_error : option PollLaneError)
| JpClear (first_error : option PollLaneError).

Inductive ReplayJoinPoint :=
| RjTakeHandle
| RjSelect
| RjCount (message : ReadyTask WorkflowActivation)
| RjRemove (run_id : string)
| RjAcknowledge (run_id : string)
| RjAbort (interrupted : list Debt)
| RjClear (outcome : option (result unit PollLaneError)).

Inductive DisposePoint :=
| DpTakeAll
| DpSendWorkflow (run_id : string) (eviction_only : bool) (reason : string)
| DpSendActivity (task_token : list byte) (reason : string)
| DpDrainWorkflows (completed_workflow_ids : gset string)
    (completed_activity_tokens : gset (list byte)) (queued : list (string * bool))
| DpClaimWorkflows (completed_workflow_ids : gset string)
    (completed_activity_tokens : gset (list byte)) (queued : list (string * bool))
| DpDrainActivities (completed_activity_tokens : gset (list byte))
| DpClaimActivity (completed_activity_tokens : gset (list byte)) (task_token : list byte).

Inductive AbandonReplayPoint :=
| ArTakeAll
| ArDrain (seen_workflows : gset string) (workflow_ids : list string)
| ArRemove (seen_workflows : gset string) (workflow_ids : list string) (run_id : string)
| ArAcknowledge (run_id : string)
| ArReturn.

Inductive instr :=
| ITryTakeWorkflow (pt : TryTakeWorkflowPoint)
| ITryTakeActivity (pt : TryTakeActivityPoint)
| IInitiateShutdown (pt : InitiateShutdownPoint)
| IMarkNaturalShutdown
| ICompleteWorkflow (pt : CompleteWorkflowPoint)
| ICompleteActivity (pt : CompleteActivityPoint)
| IHeartbeat (task_token : list byte)
| IRejectWorkflow (pt : RejectWorkflowPoint)
| IRejectActivity (pt : RejectActivityPoint)
| IRetire (pt : RetirePoint)
| IDrain (pt : DrainPoint)
| IDrainTimedOut (interrupted : list Debt)
| IJoin (pt : JoinPoint)
| IReplayJoin (pt : ReplayJoinPoint)
| IDispose (pt : DisposePoint)
| IAbandonReplay (pt : AbandonReplayPoint)
| IFinalize.

(** ** Inputs of a step *)

Inductive SelectBranch :=
| SelJoinWorkflow (join_error : option string)
| SelJoinActivity (join_error : option string)
| SelWorkflowReady
| SelActivityReady.

(** What the environment answers at an [await]: Core's reply, or which branch
    of a [select!] is ready. *)
Inductive OwnerInput :=
| InNone
| InWorkflowReply (reply : GuardedCompletion)
| InActivityReply (reply : result unit string)
| InSelect (branch : SelectBranch).

(** ** Shared state *)

(** The local variables of [drain_and_join]. *)
Record DrainLocals := mkDrainLocals {
  retirement : ShutdownRetirement;
  workflow_queue_open : bool;
  activity_queue_open : bool;
  drain_first_error : option PollLaneError
}.

Definition DrainLocals_init : DrainLocals :=
  mkDrainLocals (mkShutdownRetirement 0 0) true true None.

Section PollLanes.
Context {C : Type → Type} `{!Mpsc C}.
Variable is_local_activity_task : list byte → bool.

(** [PollLanes], with each queue inside the signal that guards it.  [any] is
    the generation of the shared [AnyLaneWake]; a lane flag says whether the
    join handle is still held. *)
Record PollLanes := mkPollLanes {
  ledger : TaskLedger;
  workflow_signal : Readiness C WorkflowActivation;
  activity_signal : Readiness C ActivityTask;
  any : N;
  workflow_lane : bool;
  activity_lane : bool;
  shutdown_started : bool;
  replay_join_timed_out : bool;
  drain : DrainLocals;
  core_calls : list CoreCall
}.

Definition with_ledger t l : PollLanes :=
  mkPollLanes t (workflow_signal l) (activity_signal l) (any l) (workflow_lane l)
    (activity_lane l) (shutdown_started l) (replay_join_timed_out l) (drain l)
    (core_calls l).
Definition with_workflow_signal r g l : PollLanes :=
  mkPollLanes (ledger l) r (activity_signal l) g (workflow_lane l)
    (activity_lane l) (shutdown_started l) (replay_join_timed_out l) (drain l)
    (core_calls l).
Definition with_activity_signal r g l : PollLanes :=
  mkPollLanes (ledger l) (workflow_signal l) r g (workflow_lane l)
    (activity_lane l) (shutdown_started l) (replay_join_timed_out l) (drain l)
    (core_calls l).
Definition with_handles w a l : PollLanes :=
  mkPollLanes (ledger l) (workflow_signal l) (activity_signal l) (any l) w a
    (shutdown_started l) (replay_join_timed_out l) (drain l) (core_calls l).
Definition with_shutdown_started l : PollLanes :=
  mkPollLanes (ledger l) (workflow_signal l) (activity_signal l) (any l)
    (workflow_lane l) (activity_lane l) true (replay_join_timed_out l) (drain l)
    (core_calls l).
Definition with_replay_join_timed_out l : PollLanes :=
  mkPollLanes (ledger l) (workflow_signal l) (activity_signal l) (any l)
    (workflow_lane l) (activity_lane l) (shutdown_started l) true (drain l)
    (core_calls l).
Definition with_drain d l : PollLanes :=
  mkPollLanes (ledger l) (workflow_signal l) (activity_signal l) (any l)
    (workflow_lane l) (activity_lane l) (shutdown_started l)
    (replay_join_timed_out l) d (core_calls l).
Definition core_call c l : PollLanes :=
  mkPollLanes (ledger l) (workflow_signal l) (activity_signal l) (any l)
    (workflow_lane l) (activity_lane l) (shutdown_started l)
    (replay_join_timed_out l) (drain l) (core_calls l ++ [c]).

(** ** Completions the bridge sends on OCaml's behalf

    Core's answer to each of these is ignored by the code. *)

Definition undeliverable_workflow_completion (run_id reason : string) : CoreCall :=
  let completion :=
    mkWorkflowCompletion run_id
      (BodyFail (workflow_admission_rejection_message reason)) in
  CompleteWorkflowActivation completion FromBridge.

Definition force_fail_undeliverable_workflow (run_id reason : string) (l : PollLanes)
    : PollLanes :=
  core_call (undeliverable_workflow_completion run_id reason) l.

Definition complete_workflow_for_dispose (run_id : string) (eviction_only : bool)
    (reason : string) (l : PollLanes) : PollLanes :=
  if eviction_only
  then core_call
         (CompleteWorkflowActivation (mkWorkflowCompletion run_id BodyEmpty) FromBridge) l
  else force_fail_undeliverable_workflow run_id reason l.

Definition complete_workflow_for_shutdown (run_id : string) (eviction_only : bool)
    (reason : string) (l : PollLanes) : PollLanes :=
  let body :=
    if eviction_only then BodyEmpty else BodyFail (shutdown_retirement_message reason) in
  core_call
    (CompleteWorkflowActivation (mkWorkflowCompletion run_id body) FromBridge) l.

Definition acknowledge_workflow (run_id : string) (l : PollLanes) : PollLanes :=
  core_call
    (CompleteWorkflowActivation (mkWorkflowCompletion run_id BodyEmpty) FromBridge) l.

Definition is_local_activity_token (task_token : list byte) : bool :=
  is_local_activity_task task_token.

Definition bridge_retirement_result (task_token : list byte) (message : string)
    : ActivityExecutionResult :=
  if is_local_activity_token task_token
  then ResultCancelled
  else ResultFailed message false "".

Definition undeliverable_activity_completion (task_token : list byte) (reason : string)
    : CoreCall :=
  let completion :=
    mkActivityCompletion task_token
      (bridge_retirement_result task_token
         (activity_admission_rejection_message reason)) in
  CompleteActivityTask completion FromBridge.

Definition force_fail_undeliverable_activity (task_token : list byte) (reason : string)
    (l : PollLanes) : PollLanes :=
  core_call (undeliverable_activity_completion task_token reason) l.

Definition fail_activity_for_shutdown (task_token : list byte) (reason : string)
    (l : PollLanes) : PollLanes :=
  let completion :=
    mkActivityCompletion task_token
      (bridge_retirement_result task_token (shutdown_retirement_message reason)) in
  core_call (CompleteActivityTask completion FromBridge) l.

(** ** Releasing a worker whose validation failed

    The polls of a shut-down worker that no owner will serve; [None] means the
    loop is still polling after the given results. *)

Fixpoint drain_unvalidated_workflow_polls (polls : list (PollResult WorkflowActivation))
    : option (list CoreCall) :=
  match polls with
  | [] => None
  | PollShutDown :: _ => Some []
  | Polled activation :: rest =>
      cons (undeliverable_workflow_completion (wa_run_id activation)
              "worker validation failed before delivery")
        <$> drain_unvalidated_workflow_polls rest
  | PollError _ :: rest => drain_unvalidated_workflow_polls rest
  end.

Fixpoint drain_unvalidated_activity_polls (polls : list (PollResult ActivityTask))
    : option (list CoreCall) :=
  match polls with
  | [] => None
  | PollShutDown :: _ => Some []
  | Polled task :: rest =>
      if is_cancel_variant task then drain_unvalidated_activity_polls rest
      else
        cons (undeliverable_activity_completion (at_task_token task)
                "worker validation failed before delivery")
          <$> drain_unvalidated_activity_polls rest
  | PollError _ :: rest => drain_unvalidated_activity_polls rest
  end.

(** The two drains run concurrently; the finalizer runs when both are done.
    The calls of each drain are returned in their own order. *)
Definition release_unvalidated_worker (workflows : list (PollResult WorkflowActivation))
    (activities : list (PollResult ActivityTask))
    : option (CoreCall * (list CoreCall * list CoreCall) * CoreCall) :=
  w ← drain_unvalidated_workflow_polls workflows;
  a ← drain_unvalidated_activity_polls activities;
  Some (InitiateShutdown, (w, a), FinalizeShutdown).

(** ** Signal operations on the shared state *)

Definition workflow_enqueue (message : ReadyTask WorkflowActivation) (l : PollLanes)
    : bool * PollLanes :=
  let '(sent, r, g) := enqueue message (workflow_signal l) (any l) in
  (sent, with_workflow_signal r g l).

Definition activity_enqueue (message : ReadyTask ActivityTask) (l : PollLanes)
    : bool * PollLanes :=
  let '(sent, r, g) := enqueue message (activity_signal l) (any l) in
  (sent, with_activity_signal r g l).

Definition workflow_take (report_failure : bool) (l : PollLanes)
    : option (ReadyTask WorkflowActivation) * PollLanes :=
  let '(ready, r, g) := take_inner report_failure (workflow_signal l) (any l) in
  (ready, with_workflow_signal r g l).

Definition activity_take (report_failure : bool) (l : PollLanes)
    : option (ReadyTask ActivityTask) * PollLanes :=
  let '(ready, r, g) := take_inner report_failure (activity_signal l) (any l) in
  (ready, with_activity_signal r g l).

Definition workflow_signal_map
    (f : Readiness C WorkflowActivation → N → Readiness C WorkflowActivation * N)
    (l : PollLanes) : PollLanes :=
  let '(r, g) := f (workflow_signal l) (any l) in with_workflow_signal r g l.

Definition activity_signal_map
    (f : Readiness C ActivityTask → N → Readiness C ActivityTask * N)
    (l : PollLanes) : PollLanes :=
  let '(r, g) := f (activity_signal l) (any l) in with_activity_signal r g l.

(** A returning lane drops its sender. *)
Definition drop_workflow_sender (l : PollLanes) : PollLanes :=
  workflow_signal_map
    (λ r g, (mkReadiness (state r) (mpsc_drop_sender (queue r)), g)) l.

Definition drop_activity_sender (l : PollLanes) : PollLanes :=
  activity_signal_map
    (λ r g, (mkReadiness (state r) (mpsc_drop_sender (queue r)), g)) l.

(** ** Starting the lanes *)

Definition start_lanes (start_workflow_lane start_activity_lane close_absent : bool)
    : PollLanes :=
  let l :=
    mkPollLanes TaskLedger_new readiness_sharing readiness_sharing 0
      start_workflow_lane start_activity_lane false false DrainLocals_init [] in
  let l :=
    if start_workflow_lane then l
    else if close_absent then drop_workflow_sender (workflow_signal_map close l)
    else l in
  if start_activity_lane then l
  else if close_absent then drop_activity_sender (activity_signal_map close l)
  else l.

Definition start (task_types : WorkerTaskTypes) : PollLanes :=
  let '(workflow, activity) := poll_lanes_for task_types in
  start_lanes workflow activity false.

Definition start_workflow_only : PollLanes := start_lanes true false true.

Definition polls_workflow_tasks (l : PollLanes) : bool := workflow_lane l.
Definition polls_activity_tasks (l : PollLanes) : bool := activity_lane l.

(** ** The workflow poll lane *)

Definition workflow_admission_reason (error : AdmitError) : string :=
  match error with
  | InvalidIdentity => "invalid workflow run identity"
  | AdmitDraining => "worker is draining and cannot admit new work"
  | UnknownActivityCancellation =>
      "unexpected activity cancellation during workflow admission"
  | Retired => ""
  end.

Definition workflow_lane_exit (l : PollLanes)
    : PollLanes * WorkflowLanePoint * list (Debt * DropReason) :=
  (drop_workflow_sender l, WlDone, []).

(** [run_workflow_lane], one section per step; [poll] is what
    [poll_workflow_activation] returns at [WlPoll]. *)
Definition run_workflow_lane (poll : PollResult WorkflowActivation)
    (pc : WorkflowLanePoint) (l : PollLanes)
    : PollLanes * WorkflowLanePoint * list (Debt * DropReason) :=
  match pc with
  | WlPoll =>
      match poll with
      | Polled activation => (l, WlAdmit activation, [])
      | PollShutDown => (l, WlCloseSignal, [])
      | PollError message => (l, WlPublishCoreError (LaneCore message), [])
      end
  | WlCloseSignal => workflow_lane_exit (workflow_signal_map close_after_core_shutdown l)
  | WlPublishCoreError error =>
      let '(_, l) := workflow_enqueue (Err error) l in
      (l, WlSignalFail error, [])
  | WlSignalFail error => workflow_lane_exit (workflow_signal_map (fail error) l)
  | WlAdmit activation =>
      let '(admission, t) :=
        admit_polled_workflow_activation (wa_run_id activation)
          (wa_is_only_eviction activation) (ledger l) in
      let l := with_ledger t l in
      match admission with
      | Ok New => (l, WlEnqueue activation, [])
      | Ok Duplicate | Ok ExistingCancellation =>
          (l, WlMarkLost activation DuplicateIdentity, [])
      | Err Retired =>
          if wa_is_only_eviction activation
          then (l, WlAcknowledge (wa_run_id activation), [])
          else (l, WlMarkLost activation (LaneAdmission Retired), [])
      | Err error =>
          (l, WlForceFail (wa_run_id activation) (workflow_admission_reason error)
                (LaneAdmission error), [])
      end
  | WlEnqueue activation =>
      match workflow_enqueue (Ok activation) l with
      | (true, l) => (l, WlPoll, [])
      | (false, l) => (l, WlAbandon (wa_run_id activation), [])
      end
  | WlAbandon run_id =>
      (with_ledger (abandon_workflow_admission run_id (ledger l)) l,
       WlFailClosed run_id, [])
  | WlFailClosed run_id =>
      workflow_lane_exit
        (force_fail_undeliverable_workflow run_id
           "workflow ready channel closed after admission" l)
  | WlMarkLost activation error =>
      (with_ledger (mark_lost_poll_lease (ledger l)) l, WlPublish error,
       [(WorkflowDebt (wa_run_id activation), DropMarkedLost)])
  | WlAcknowledge run_id => (acknowledge_workflow run_id l, WlPoll, [])
  | WlForceFail run_id reason error =>
      (force_fail_undeliverable_workflow run_id reason l, WlPublish error, [])
  | WlPublish error =>
      match workflow_enqueue (Err error) l with
      | (true, l) => (l, WlPoll, [])
      | (false, l) => workflow_lane_exit l
      end
  | WlDone => (l, WlDone, [])
  end.

(** ** The activity poll lane *)

Definition activity_lane_exit (l : PollLanes)
    : PollLanes * ActivityLanePoint * list (Debt * DropReason) :=
  (drop_activity_sender l, AlDone, []).

Definition run_activity_lane (poll : PollResult ActivityTask)
    (pc : ActivityLanePoint) (l : PollLanes)
    : PollLanes * ActivityLanePoint * list (Debt * DropReason) :=
  match pc with
  | AlPoll =>
      match poll with
      | Polled task =>
          match at_variant task with
          | Some VariantStart => (l, AlAdmit task Start, [])
          | Some VariantCancel => (l, AlAdmit task Cancel, [])
          | None => (l, AlFailVariant (at_task_token task), [])
          end
      | PollShutDown => (l, AlCloseSignal, [])
      | PollError message => (l, AlPublishCoreError (LaneCore message), [])
      end
  | AlCloseSignal => activity_lane_exit (activity_signal_map close l)
  | AlPublishCoreError error =>
      let '(_, l) := activity_enqueue (Err error) l in
      (l, AlSignalFail error, [])
  | AlSignalFail error => activity_lane_exit (activity_signal_map (fail error) l)
  | AlFailVariant task_token =>
      (force_fail_undeliverable_activity task_token
         "activity task has no start or cancel variant" l,
       AlPublish InvalidActivityVariant, [])
  | AlAdmit task kind =>
      let '(admission, t) := admit_polled_activity (at_task_token task) kind (ledger l) in
      let l := with_ledger t l in
      if is_ignorable_activity_cancellation kind admission then (l, AlPoll, [])
      else
        match admission with
        | Ok New | Ok ExistingCancellation => (l, AlEnqueue task kind, [])
        | Ok Duplicate => (l, AlMarkLost task DuplicateIdentity, [])
        | Err InvalidIdentity =>
            (l, AlForceFail (at_task_token task) "invalid activity task token"
                  (LaneAdmission InvalidIdentity), [])
        | Err AdmitDraining =>
            (l, AlForceFail (at_task_token task)
                  "worker is draining and cannot admit new work"
                  (LaneAdmission AdmitDraining), [])
        | Err error => (l, AlMarkLost task (LaneAdmission error), [])
        end
  | AlEnqueue task kind =>
      match activity_enqueue (Ok task) l with
      | (true, l) => (l, AlPoll, [])
      | (false, l) =>
          if bool_decide (kind = Start)
          then (l, AlAbandon (at_task_token task), [])
          else activity_lane_exit l
      end
  | AlAbandon task_token =>
      (with_ledger (abandon_activity_admission task_token (ledger l)) l,
       AlFailClosed task_token, [])
  | AlFailClosed task_token =>
      activity_lane_exit
        (force_fail_undeliverable_activity task_token
           "activity ready channel closed after admission" l)
  | AlMarkLost task error =>
      (with_ledger (mark_lost_poll_lease (ledger l)) l, AlPublish error,
       [(ActivityDebt (at_task_token task), DropMarkedLost)])
  | AlForceFail task_token reason error =>
      (force_fail_undeliverable_activity task_token reason l, AlPublish error, [])
  | AlPublish error =>
      match activity_enqueue (Err error) l with
      | (true, l) => (l, AlPoll, [])
      | (false, l) => activity_lane_exit l
      end
  | AlDone => (l, AlDone, [])
  end.

(** ** The owner's operations

    One step of an owner function: the new state, the points that follow (the
    callee first), the value returned if the call ends here, and the debts
    dropped. [None] means the step is not enabled (the [await] is pending). *)

Record Out := mkOut {
  out_lanes : PollLanes;
  out_next : list instr;
  out_result : option OwnerResult;
  out_dropped : list (Debt * DropReason)
}.

Definition goto (l : PollLanes) (next : list instr) : option Out :=
  Some (mkOut l next None []).
Definition return_ (l : PollLanes) (r : OwnerResult) : option Out :=
  Some (mkOut l [] (Some r) []).

Definition try_take_workflow (pt : TryTakeWorkflowPoint) (l : PollLanes) : option Out :=
  match pt with
  | TtwTake =>
      match workflow_take true l with
      | (None, l) => return_ l (TookWorkflow None)
      | (Some (Err error), l) => return_ l (TookWorkflow (Some (Err error)))
      | (Some (Ok activation), l) => goto l [ITryTakeWorkflow (TtwLease activation)]
      end
  | TtwLease activation =>
      let '(lease, t) :=
        lease_workflow_activation (wa_run_id activation)
          (wa_is_only_eviction activation) (ledger l) in
      let l := with_ledger t l in
      match lease with
      | Ok _ => return_ l (TookWorkflow (Some (Ok activation)))
      | Err AlreadyLeased => return_ l (TookWorkflow (Some (Err DuplicateIdentity)))
      | Err _ => goto l [ITryTakeWorkflow (TtwForceFail (wa_run_id activation))]
      end
  | TtwForceFail run_id =>
      goto (force_fail_undeliverable_workflow run_id
              "workflow activation lease handoff failed" l)
        [ITryTakeWorkflow (TtwAbandon run_id)]
  | TtwAbandon run_id =>
      return_ (with_ledger (abandon_workflow_admission run_id (ledger l)) l)
        (TookWorkflow (Some (Err (LaneAdmission InvalidIdentity))))
  end.

Definition try_take_activity (pt : TryTakeActivityPoint) (l : PollLanes) : option Out :=
  match pt with
  | TtaTake =>
      match activity_take true l with
      | (None, l) => return_ l (TookActivity None)
      | (Some (Err error), l) => return_ l (TookActivity (Some (Err error)))
      | (Some (Ok task), l) => goto l [ITryTakeActivity (TtaHandoff task)]
      end
  | TtaHandoff task =>
      let kind := if is_cancel_variant task then Cancel else Start in
      let '(lease, t) := handoff_activity (at_task_token task) kind (ledger l) in
      let l := with_ledger t l in
      match lease with
      | Ok _ => return_ l (TookActivity (Some (Ok task)))
      | Err error =>
          if is_stale_activity_cancellation task error
          then goto l [ITryTakeActivity TtaTake]
          else
            match error with
            | AlreadyLeased => return_ l (TookActivity (Some (Err DuplicateIdentity)))
            | _ => goto l [ITryTakeActivity (TtaForceFail (at_task_token task))]
            end
      end
  | TtaForceFail task_token =>
      goto (force_fail_undeliverable_activity task_token
              "activity task lease handoff failed" l)
        [ITryTakeActivity (TtaAbandon task_token)]
  | TtaAbandon task_token =>
      return_ (with_ledger (abandon_activity_admission task_token (ledger l)) l)
        (TookActivity (Some (Err (LaneAdmission InvalidIdentity))))
  end.

Definition initiate_shutdown (pt : InitiateShutdownPoint) (l : PollLanes) : option Out :=
  match pt with
  | IsBeginDraining =>
      if shutdown_started l then return_ l Returned
      else goto (with_ledger (begin_draining (ledger l)) l)
             [IInitiateShutdown IsCloseWorkflow]
  | IsCloseWorkflow =>
      goto (workflow_signal_map close l) [IInitiateShutdown IsCloseActivity]
  | IsCloseActivity => goto (activity_signal_map close l) [IInitiateShutdown IsCore]
  | IsCore => return_ (with_shutdown_started (core_call InitiateShutdown l)) Returned
  end.

Definition mark_natural_shutdown (l : PollLanes) : option Out :=
  if shutdown_started l then return_ l Returned
  else return_ (with_ledger (begin_draining (ledger l)) l) Returned.

(** Core's reply under either wait.  [Ok] is the reply itself, [Err] an early
    return; an unbounded wait ends only with a reply. *)
Definition await_core_reply (wait : CompletionWait) (is_empty : bool)
    (reply : GuardedCompletion)
    : option (result (result unit string) (result unit WorkerBridgeError)) :=
  match wait, reply with
  | _, Finished core_result => Some (Ok core_result)
  | Unbounded, _ => None
  | ReplayBounded, Stranded =>
      Some (Err (if is_empty then Ok tt else Err CompletionStranded))
  | ReplayBounded, GuardTimedOut => Some (Err (Err CoreWaitTimedOut))
  end.

Definition complete_workflow_with (input : OwnerInput) (pt : CompleteWorkflowPoint)
    (l : PollLanes) : option Out :=
  match pt with
  | CwRetire completion wait =>
      let run_id := wc_run_id completion in
      let was_eviction := is_eviction_lease run_id (ledger l) in
      match TaskLedger.complete_workflow run_id (ledger l) with
      | (Err error, _) => return_ l (UnitResult (Err (Completion error)))
      | (Ok _, t) =>
          goto (with_ledger t l)
            [ICompleteWorkflow (CwSend completion wait was_eviction)]
      end
  | CwSend completion wait was_eviction =>
      match input with
      | InWorkflowReply reply =>
          let l' :=
            core_call (CompleteWorkflowActivation completion (FromLanguage reply)) l in
          match await_core_reply wait (completion_is_empty completion) reply with
          | None => None
          | Some (Err early) => return_ l' (UnitResult early)
          | Some (Ok (Ok _)) => return_ l' (UnitResult (Ok tt))
          | Some (Ok (Err error)) =>
              goto l'
                [ICompleteWorkflow (CwRestore (wc_run_id completion) was_eviction error)]
          end
      | _ => None
      end
  | CwRestore run_id was_eviction error =>
      let '(restored, t) := restore_rejected_workflow_completion run_id (ledger l) in
      let t := if restored && was_eviction then restore_eviction_lease run_id t else t in
      Some (mkOut (with_ledger t l) [] (Some (UnitResult (Err (CoreWorkflow error))))
              (if restored then [] else [(WorkflowDebt run_id, DropRestoreConflict)]))
  end.

Definition complete_activity (input : OwnerInput) (pt : CompleteActivityPoint)
    (l : PollLanes) : option Out :=
  match pt with
  | CaEnsure completion =>
      match ensure_activity_leased (ac_task_token completion) (ledger l) with
      | Err error => return_ l (UnitResult (Err (Completion error)))
      | Ok _ => goto l [ICompleteActivity (CaSend completion)]
      end
  | CaSend completion =>
      match input with
      | InActivityReply reply =>
          let l := core_call (CompleteActivityTask completion (FromLanguage reply)) l in
          match reply with
          | Err error => return_ l (UnitResult (Err (CoreActivity error)))
          | Ok _ => goto l [ICompleteActivity (CaRetire (ac_task_token completion))]
          end
      | _ => None
      end
  | CaRetire task_token =>
      let '(retired, t) := TaskLedger.complete_activity task_token (ledger l) in
      return_ (with_ledger t l) (UnitResult (map_err Completion retired))
  end.

Definition record_activity_heartbeat (task_token : list byte) (l : PollLanes)
    : option Out :=
  match ensure_activity_leased task_token (ledger l) with
  | Err error => return_ l (UnitResult (Err (Completion error)))
  | Ok _ => return_ (core_call (RecordActivityHeartbeat task_token) l) (UnitResult (Ok tt))
  end.

Definition reject_workflow_delivery_with (input : OwnerInput) (pt : RejectWorkflowPoint)
    (l : PollLanes) : option Out :=
  match pt with
  | RwRetire run_id reason wait =>
      let eviction_only := is_eviction_lease run_id (ledger l) in
      match retire_rejected_workflow run_id (ledger l) with
      | (Err error, _) => return_ l (UnitResult (Err (Completion error)))
      | (Ok _, t) =>
          let body :=
            if eviction_only then BodyEmpty
            else BodyFail (workflow_rejection_message reason) in
          goto (with_ledger t l)
            [IRejectWorkflow (RwSend (mkWorkflowCompletion run_id body) wait eviction_only)]
      end
  | RwSend completion wait eviction_only =>
      match input with
      | InWorkflowReply reply =>
          let l' := core_call (CompleteWorkflowActivation completion FromBridge) l in
          match await_core_reply wait eviction_only reply with
          | None => None
          | Some (Err early) => return_ l' (UnitResult early)
          | Some (Ok core_result) =>
              return_ l' (UnitResult (map_err CoreWorkflow core_result))
          end
      | _ => None
      end
  end.

Definition reject_activity_delivery (input : OwnerInput) (pt : RejectActivityPoint)
    (l : PollLanes) : option Out :=
  match pt with
  | RaEnsure task_token reason =>
      match ensure_activity_leased task_token (ledger l) with
      | Err error => return_ l (UnitResult (Err (Completion error)))
      | Ok _ =>
          goto l
            [IRejectActivity
               (RaSend (mkActivityCompletion task_token
                          (unrepresentable_activity_failure reason)))]
      end
  | RaSend completion =>
      match input with
      | InActivityReply reply =>
          goto (core_call (CompleteActivityTask completion FromBridge) l)
            [IRejectActivity
               (RaRetire (ac_task_token completion) (map_err CoreActivity reply))]
      | _ => None
      end
  | RaRetire task_token core_result =>
      let '(retired, t) := retire_rejected_activity task_token (ledger l) in
      return_ (with_ledger t l)
        (UnitResult
           (match core_result with
            | Ok _ => map_err Completion retired
            | Err error => Err error
            end))
  end.

(** *** Shutdown drain *)

Definition with_retirement (f : ShutdownRetirement → ShutdownRetirement) (l : PollLanes)
    : PollLanes :=
  let d := drain l in
  with_drain
    (mkDrainLocals (f (retirement d)) (workflow_queue_open d) (activity_queue_open d)
       (drain_first_error d)) l.

Definition count_abandoned (n : nat) : PollLanes → PollLanes :=
  with_retirement
    (λ r, mkShutdownRetirement (abandoned_leases r + n) (undelivered r)).

Definition count_undelivered : PollLanes → PollLanes :=
  with_retirement
    (λ r, mkShutdownRetirement (abandoned_leases r) (undelivered r + 1)).

Definition retire_queued_workflow (message : ReadyTask WorkflowActivation)
    (l : PollLanes) : option Out :=
  match message with
  | Err _ => goto l []
  | Ok activation =>
      let run_id := wa_run_id activation in
      goto (count_undelivered
              (with_ledger (force_remove_workflow run_id (ledger l)) l))
        [IRetire (RvSendWorkflow run_id (wa_is_only_eviction activation)
                    "workflow activation was not delivered before shutdown")]
  end.

Definition retire_queued_activity (message : ReadyTask ActivityTask)
    (l : PollLanes) : option Out :=
  match message with
  | Err _ => goto l []
  | Ok task =>
      if is_cancel_variant task then goto l []
      else
        goto (count_undelivered
                (with_ledger (force_remove_activity (at_task_token task) (ledger l)) l))
          [IRetire (RvSendActivity (at_task_token task)
                      "activity task was not delivered before shutdown")]
  end.

Definition retire_visible_for_shutdown (pt : RetirePoint) (l : PollLanes) : option Out :=
  match pt with
  | RvTakeLeased =>
      let '((workflows, activities), t) := take_leased_for_shutdown (ledger l) in
      goto (count_abandoned (length workflows + length activities) (with_ledger t l))
        (((λ w, IRetire
                  (RvSendWorkflow w.1 w.2
                     "workflow activation leased to OCaml was never completed"))
            <$> workflows)
         ++ ((λ task_token, IRetire
                  (RvSendActivity task_token
                     "activity task leased to OCaml was never completed"))
               <$> activities)
         ++ [IRetire RvDrainWorkflows])
  | RvSendWorkflow run_id eviction_only reason =>
      goto (complete_workflow_for_shutdown run_id eviction_only reason l) []
  | RvSendActivity task_token reason =>
      goto (fail_activity_for_shutdown task_token reason l) []
  | RvDrainWorkflows =>
      match workflow_take false l with
      | (Some message, l) =>
          goto l [IRetire (RvQueuedWorkflow message); IRetire RvDrainWorkflows]
      | (None, l) => goto l [IRetire RvDrainActivities]
      end
  | RvDrainActivities =>
      match activity_take false l with
      | (Some message, l) =>
          goto l [IRetire (RvQueuedActivity message); IRetire RvDrainActivities]
      | (None, l) => goto l []
      end
  | RvQueuedWorkflow message => retire_queued_workflow message l
  | RvQueuedActivity message => retire_queued_activity message l
  end.

(** Whether each lane task has finished, which is when its join is ready and
    when it no longer holds the worker. *)
Record LaneStatus := mkLaneStatus {
  workflow_done : bool;
  activity_done : bool
}.

Definition lane_failure (lane : string) (join_error : string) : PollLaneError :=
  LaneCore (lane +:+ " poll lane failed: " +:+ join_error).

(** [first_error.get_or_insert(..)]. *)
Definition get_or_insert (first : option PollLaneError) (error : option PollLaneError)
    : option PollLaneError :=
  match first with Some _ => first | None => error end.

Definition set_drain_error (error : option PollLaneError) (l : PollLanes) : PollLanes :=
  let d := drain l in
  with_drain
    (mkDrainLocals (retirement d) (workflow_queue_open d) (activity_queue_open d)
       (get_or_insert (drain_first_error d) error)) l.

Definition set_queues_open (w a : bool) (l : PollLanes) : PollLanes :=
  let d := drain l in
  with_drain (mkDrainLocals (retirement d) w a (drain_first_error d)) l.

Definition drain_and_join (status : LaneStatus) (input : OwnerInput) (pt : DrainPoint)
    (l : PollLanes) : option Out :=
  match pt with
  | DjLoop =>
      if workflow_lane l || activity_lane l
      then goto l [IRetire RvTakeLeased; IDrain DjSelect]
      else goto l [IRetire RvTakeLeased; IDrain DjFinish]
  | DjSelect =>
      match input with
      | InSelect (SelJoinWorkflow join_error) =>
          if workflow_lane l && workflow_done status
          then goto (set_drain_error (lane_failure "workflow" <$> join_error)
                       (with_handles false (activity_lane l) l)) [IDrain DjLoop]
          else None
      | InSelect (SelJoinActivity join_error) =>
          if activity_lane l && activity_done status
          then goto (set_drain_error (lane_failure "activity" <$> join_error)
                       (with_handles (workflow_lane l) false l)) [IDrain DjLoop]
          else None
      | InSelect SelWorkflowReady =>
          if workflow_queue_open (drain l) then
            match take_async_recv (workflow_signal l) with
            | None => None
            | Some (Some message, r) =>
                goto (with_workflow_signal r (any l) l) [IDrain (DjCountWorkflow message)]
            | Some (None, r) =>
                goto (set_queues_open false (activity_queue_open (drain l)) l)
                  [IDrain DjLoop]
            end
          else None
      | InSelect SelActivityReady =>
          if activity_queue_open (drain l) then
            match take_async_recv (activity_signal l) with
            | None => None
            | Some (Some message, r) =>
                goto (with_activity_signal r (any l) l) [IDrain (DjCountActivity message)]
            | Some (None, r) =>
                goto (set_queues_open (workflow_queue_open (drain l)) false l)
                  [IDrain DjLoop]
            end
          else None
      | _ => None
      end
  | DjCountWorkflow message =>
      goto (with_workflow_signal (take_async_retire (workflow_signal l)) (any l) l)
        [IRetire (RvQueuedWorkflow message); IDrain DjLoop]
  | DjCountActivity message =>
      goto (with_activity_signal (take_async_retire (activity_signal l)) (any l) l)
        [IRetire (RvQueuedActivity message); IDrain DjLoop]
  | DjFinish =>
      let l := with_ledger (clear_dispose_retired (ledger l)) l in
      return_ l
        (DrainResult
           (match drain_first_error (drain l) with
            | None => Ok (retirement (drain l))
            | Some error => Err (DrainLane error)
            end))
  end.

(** The elapsed branch of [drain_and_join_for_shutdown]: the inner future and
    the completions it was about to send are gone. *)
Definition drain_timed_out (interrupted : list Debt) (l : PollLanes) : option Out :=
  Some (mkOut (with_ledger (mark_lost_poll_lease (ledger l)) l) []
          (Some (DrainResult (Err DrainTimedOut)))
          ((λ debt, (debt, DropMarkedLost)) <$> interrupted)).

(** *** Joins *)

Definition join_result (first_error : option PollLaneError)
    : result unit PollLaneError :=
  match first_error with None => Ok tt | Some error => Err error end.

Definition join_poll_lanes (status : LaneStatus) (input : OwnerInput) (pt : JoinPoint)
    (l : PollLanes) : option Out :=
  match pt with
  | JpWorkflow =>
      if workflow_lane l then
        match input with
        | InSelect (SelJoinWorkflow join_error) =>
            if workflow_done status
            then goto (with_handles false (activity_lane l) l)
                   [IJoin (JpActivity (lane_failure "workflow" <$> join_error))]
            else None
        | _ => None
        end
      else goto l [IJoin (JpActivity None)]
  | JpActivity first_error =>
      if activity_lane l then
        match input with
        | InSelect (SelJoinActivity join_error) =>
            if activity_done status
            then goto (with_handles (workflow_lane l) false l)
                   [IJoin (JpClear (get_or_insert first_error
                                      (lane_failure "activity" <$> join_error)))]
            else None
        | _ => None
        end
      else goto l [IJoin (JpClear first_error)]
  | JpClear first_error =>
      return_ (with_ledger (clear_dispose_retired (ledger l)) l)
        (LaneJoinResult (join_result first_error))
  end.

(** The bounded drain of a replay lane whose handle has been taken; the timer
    moves it to [RjAbort]. *)
Definition join_replay_lane_within (status : LaneStatus) (input : OwnerInput)
    (pt : ReplayJoinPoint) (l : PollLanes) : option Out :=
  match pt with
  | RjSelect =>
      match input with
      | InSelect (SelJoinWorkflow join_error) =>
          if workflow_done status
          then goto l [IReplayJoin
                         (RjClear (Some (join_result
                                           (lane_failure "workflow" <$> join_error))))]
          else None
      | InSelect SelWorkflowReady =>
          match take_async_recv (workflow_signal l) with
          | None => None
          | Some (Some message, r) =>
              goto (with_workflow_signal r (any l) l) [IReplayJoin (RjCount message)]
          | Some (None, _) => goto l [IReplayJoin RjSelect]
          end
      | _ => None
      end
  | RjCount message =>
      let l := with_workflow_signal (take_async_retire (workflow_signal l)) (any l) l in
      match message with
      | Ok activation => goto l [IReplayJoin (RjRemove (wa_run_id activation))]
      | Err _ => goto l [IReplayJoin RjSelect]
      end
  | RjRemove run_id =>
      goto (with_ledger (force_remove_workflow run_id (ledger l)) l)
        [IReplayJoin (RjAcknowledge run_id)]
  | RjAcknowledge run_id => goto (acknowledge_workflow run_id l) [IReplayJoin RjSelect]
  | RjAbort interrupted =>
      Some (mkOut l [IReplayJoin (RjClear None)] None
              ((λ debt, (debt, DropReplayTimedOut)) <$> interrupted))
  | _ => None
  end.

(** The handle is taken at the start; [RjClear None] is the elapsed branch. *)
Definition join_replay_poll_lane (status : LaneStatus) (input : OwnerInput)
    (pt : ReplayJoinPoint) (l : PollLanes) : option Out :=
  match pt with
  | RjTakeHandle =>
      if workflow_lane l
      then goto (with_handles false (activity_lane l) l) [IReplayJoin RjSelect]
      else return_ l (LaneJoinResult (Ok tt))
  | RjClear outcome =>
      let l := with_ledger (clear_dispose_retired (ledger l)) l in
      match outcome with
      | Some joined => return_ l (LaneJoinResult joined)
      | None =>
          return_ (with_replay_join_timed_out l)
            (LaneJoinResult
               (Err (LaneCore "workflow poll lane did not stop within its bound")))
      end
  | _ => join_replay_lane_within status input pt l
  end.

(** *** Disposal *)

(** [claim_dispose_workflow_identity]: whether the caller must complete the
    run, the updated set and the ledger. *)
Definition claim_dispose_workflow_identity (completed : gset string) (run_id : string)
    (t : TaskLedger) : bool * gset string * TaskLedger :=
  if bool_decide (run_id ∈ completed) then (false, completed, t)
  else (true, {[run_id]} ∪ completed, retire_workflow_for_dispose run_id t).

Definition claim_dispose_activity_identity (completed : gset (list byte))
    (task_token : list byte) (t : TaskLedger)
    : bool * gset (list byte) * TaskLedger :=
  if bool_decide (task_token ∈ completed) then (false, completed, t)
  else (true, {[task_token]} ∪ completed, retire_activity_for_dispose task_token t).

Definition force_complete_outstanding_for_dispose (pt : DisposePoint) (l : PollLanes)
    : option Out :=
  match pt with
  | DpTakeAll =>
      let '((workflows, activity_tokens), t) := take_all_outstanding (ledger l) in
      goto (with_ledger t l)
        (((λ w, IDispose
                  (DpSendWorkflow w.1 w.2
                     "runtime dispose retired outstanding workflow lease"))
            <$> workflows)
         ++ ((λ task_token, IDispose
                  (DpSendActivity task_token
                     "runtime dispose retired outstanding activity lease"))
               <$> activity_tokens)
         ++ [IDispose (DpDrainWorkflows (list_to_set workflows.*1)
                         (list_to_set activity_tokens) [])])
  | DpSendWorkflow run_id eviction_only reason =>
      goto (complete_workflow_for_dispose run_id eviction_only reason l) []
  | DpSendActivity task_token reason =>
      goto (force_fail_undeliverable_activity task_token reason l) []
  | DpDrainWorkflows completed_w completed_a queued =>
      match workflow_take false l with
      | (Some (Ok activation), l) =>
          goto l [IDispose
                    (DpDrainWorkflows completed_w completed_a
                       (queued ++ [(wa_run_id activation, wa_is_only_eviction activation)]))]
      | (Some (Err _), l) =>
          goto l [IDispose (DpDrainWorkflows completed_w completed_a queued)]
      | (None, l) => goto l [IDispose (DpClaimWorkflows completed_w completed_a queued)]
      end
  | DpClaimWorkflows completed_w completed_a [] =>
      goto l [IDispose (DpDrainActivities completed_a)]
  | DpClaimWorkflows completed_w completed_a ((run_id, eviction_only) :: queued) =>
      let '(claimed, completed_w, t) :=
        claim_dispose_workflow_identity completed_w run_id (ledger l) in
      goto (with_ledger t l)
        ((if claimed
          then [IDispose (DpSendWorkflow run_id eviction_only
                            "runtime dispose drained undelivered workflow activation")]
          else [])
         ++ [IDispose (DpClaimWorkflows completed_w completed_a queued)])
  | DpDrainActivities completed_a =>
      match activity_take false l with
      | (Some (Ok task), l) =>
          if is_cancel_variant task
          then goto l [IDispose (DpDrainActivities completed_a)]
          else goto l [IDispose (DpClaimActivity completed_a (at_task_token task))]
      | (Some (Err _), l) => goto l [IDispose (DpDrainActivities completed_a)]
      | (None, l) => return_ l Returned
      end
  | DpClaimActivity completed_a task_token =>
      let '(claimed, completed_a, t) :=
        claim_dispose_activity_identity completed_a task_token (ledger l) in
      goto (with_ledger t l)
        ((if claimed
          then [IDispose (DpSendActivity task_token
                            "runtime dispose drained undelivered activity task")]
          else [])
         ++ [IDispose (DpDrainActivities completed_a)])
  end.

Definition abandon_replay_for_dispose (pt : AbandonReplayPoint) (l : PollLanes)
    : option Out :=
  match pt with
  | ArTakeAll =>
      let '((workflow_ids, _), t) := take_all_outstanding_for_replay (ledger l) in
      goto (with_ledger t l) [IAbandonReplay (ArDrain (list_to_set workflow_ids) workflow_ids)]
  | ArDrain seen workflow_ids =>
      match workflow_take false l with
      | (Some (Ok activation), l) =>
          goto l [IAbandonReplay (ArRemove seen workflow_ids (wa_run_id activation))]
      | (Some (Err _), l) => goto l [IAbandonReplay (ArDrain seen workflow_ids)]
      | (None, l) =>
          goto l (((λ run_id, IAbandonReplay (ArAcknowledge run_id)) <$> workflow_ids)
                  ++ [IAbandonReplay ArReturn])
      end
  | ArRemove seen workflow_ids run_id =>
      goto (with_ledger (force_remove_workflow run_id (ledger l)) l)
        [IAbandonReplay
           (if bool_decide (run_id ∈ seen) then ArDrain seen workflow_ids
            else ArDrain ({[run_id]} ∪ seen) (workflow_ids ++ [run_id]))]
  | ArAcknowledge run_id => goto (acknowledge_workflow run_id l) []
  | ArReturn => return_ l Returned
  end.

(** *** Finalization

    [Arc::try_unwrap] succeeds exactly when both lane tasks have dropped their
    reference to the worker. *)

Definition can_finalize (l : PollLanes) : bool := TaskLedger.can_finalize (ledger l).

Definition has_outstanding_tasks (l : PollLanes) : bool :=
  negb (outstanding (ledger l) =? 0)%nat.

Definition finalize (status : LaneStatus) (l : PollLanes) : option Out :=
  if negb (outstanding (ledger l) =? 0)%nat
  then return_ l (FinalizeResult (Err (OutstandingTasks (outstanding (ledger l)))))
  else if lost_poll_lease (ledger l)
  then return_ l (FinalizeResult (Err LostPollLease))
  else if workflow_done status && activity_done status
  then return_ (core_call FinalizeShutdown l) (FinalizeResult (Ok tt))
  else return_ l (FinalizeResult (Err WorkerStillShared)).

(** [finalize_bounded] waits for a spawned [finalize]: [None] is the elapsed
    bound, [Err] a panicked task. *)
Inductive BoundedFinalize :=
| Finalized
| Refused (error : WorkerBridgeError)
| Panicked
| Detached.

Definition finalize_bounded
    (joined : option (result (result unit WorkerBridgeError) string)) : BoundedFinalize :=
  match joined with
  | Some (Ok (Ok _)) => Finalized
  | Some (Ok (Err error)) => Refused error
  | Some (Err _) => Panicked
  | None => Detached
  end.

Definition owner_exec (status : LaneStatus) (input : OwnerInput) (i : instr)
    (l : PollLanes) : option Out :=
  match i with
  | ITryTakeWorkflow pt => try_take_workflow pt l
  | ITryTakeActivity pt => try_take_activity pt l
  | IInitiateShutdown pt => initiate_shutdown pt l
  | IMarkNaturalShutdown => mark_natural_shutdown l
  | ICompleteWorkflow pt => complete_workflow_with input pt l
  | ICompleteActivity pt => complete_activity input pt l
  | IHeartbeat task_token => record_activity_heartbeat task_token l
  | IRejectWorkflow pt => reject_workflow_delivery_with input pt l
  | IRejectActivity pt => reject_activity_delivery input pt l
  | IRetire pt => retire_visible_for_shutdown pt l
  | IDrain pt => drain_and_join status input pt l
  | IDrainTimedOut interrupted => drain_timed_out interrupted l
  | IJoin pt => join_poll_lanes status input pt l
  | IReplayJoin pt => join_replay_poll_lane status input pt l
  | IDispose pt => force_complete_outstanding_for_dispose pt l
  | IAbandonReplay pt => abandon_replay_for_dispose pt l
  | IFinalize => finalize status l
  end.

(** ** Calls *)

Definition complete_workflow (completion : WorkflowActivationCompletion) : instr :=
  ICompleteWorkflow (CwRetire completion Unbounded).
Definition complete_replay_workflow (completion : WorkflowActivationCompletion) : instr :=
  ICompleteWorkflow (CwRetire completion ReplayBounded).
Definition reject_workflow_delivery_with_reason (run_id reason : string) : instr :=
  IRejectWorkflow (RwRetire run_id reason Unbounded).
Definition reject_workflow_delivery (run_id : string) : instr :=
  reject_workflow_delivery_with_reason run_id
    "semantic workflow activation conversion failed".
Definition reject_replay_workflow_delivery (run_id reason : string) : instr :=
  IRejectWorkflow (RwRetire run_id reason ReplayBounded).

Inductive OwnerCall :=
| CallTryTakeWorkflow
| CallTryTakeActivity
| CallInitiateShutdown
| CallMarkNaturalShutdown
| CallCompleteWorkflow (completion : WorkflowActivationCompletion)
| CallCompleteReplayWorkflow (completion : WorkflowActivationCompletion)
| CallCompleteActivity (completion : ActivityTaskCompletion)
| CallHeartbeat (task_token : list byte)
| CallRejectWorkflow (run_id reason : string)
| CallRejectReplayWorkflow (run_id reason : string)
| CallRejectActivity (task_token : list byte) (reason : string)
| CallDrainAndJoin
| CallJoinPollLanes
| CallJoinReplay
| CallDispose
| CallAbandonReplay
| CallFinalize.

Definition entry_point (call : OwnerCall) : instr :=
  match call with
  | CallTryTakeWorkflow => ITryTakeWorkflow TtwTake
  | CallTryTakeActivity => ITryTakeActivity TtaTake
  | CallInitiateShutdown => IInitiateShutdown IsBeginDraining
  | CallMarkNaturalShutdown => IMarkNaturalShutdown
  | CallCompleteWorkflow completion => complete_workflow completion
  | CallCompleteReplayWorkflow completion => complete_replay_workflow completion
  | CallCompleteActivity completion => ICompleteActivity (CaEnsure completion)
  | CallHeartbeat task_token => IHeartbeat task_token
  | CallRejectWorkflow run_id reason =>
      reject_workflow_delivery_with_reason run_id reason
  | CallRejectReplayWorkflow run_id reason =>
      reject_replay_workflow_delivery run_id reason
  | CallRejectActivity task_token reason => IRejectActivity (RaEnsure task_token reason)
  | CallDrainAndJoin => IDrain DjLoop
  | CallJoinPollLanes => IJoin JpWorkflow
  | CallJoinReplay => IReplayJoin RjTakeHandle
  | CallDispose => IDispose DpTakeAll
  | CallAbandonReplay => IAbandonReplay ArTakeAll
  | CallFinalize => IFinalize
  end.

(** ** The three threads together *)

Record World := mkWorld {
  lanes : PollLanes;
  workflow_pc : WorkflowLanePoint;
  activity_pc : ActivityLanePoint;
  agenda : list instr;
  abort_requested : bool;
  owner_consumed : bool;
  results : list OwnerResult;
  polled : list Debt;
  dropped : list (Debt * DropReason)
}.

Definition lane_status (w : World) : LaneStatus :=
  mkLaneStatus (match workflow_pc w with WlDone => true | _ => false end)
    (match activity_pc w with AlDone => true | _ => false end).

(** The debts a program point holds outside the ledger: Core has handed the
    task over, its ledger entry is gone (or not yet made), and the completion
    has not been sent. *)
Definition workflow_lane_hand (pc : WorkflowLanePoint) : list Debt :=
  match pc with
  | WlAdmit activation | WlMarkLost activation _ => [WorkflowDebt (wa_run_id activation)]
  | WlFailClosed run_id | WlAcknowledge run_id | WlForceFail run_id _ _ =>
      [WorkflowDebt run_id]
  | _ => []
  end.

(** Only a start (or malformed) activity task owes a completion. *)
Definition activity_task_debt (task : ActivityTask) : list Debt :=
  if is_cancel_variant task then [] else [ActivityDebt (at_task_token task)].

Definition activity_lane_hand (pc : ActivityLanePoint) : list Debt :=
  match pc with
  | AlAdmit task _ | AlMarkLost task _ => activity_task_debt task
  | AlFailVariant task_token | AlFailClosed task_token | AlForceFail task_token _ _ =>
      [ActivityDebt task_token]
  | _ => []
  end.

Definition owner_hand (i : instr) : list Debt :=
  match i with
  | ICompleteWorkflow (CwSend completion _ _) => [WorkflowDebt (wc_run_id completion)]
  | ICompleteWorkflow (CwRestore run_id _ _) => [WorkflowDebt run_id]
  | IRejectWorkflow (RwSend completion _ _) => [WorkflowDebt (wc_run_id completion)]
  | IRetire (RvSendWorkflow run_id _ _) => [WorkflowDebt run_id]
  | IRetire (RvSendActivity task_token _) => [ActivityDebt task_token]
  | IDrainTimedOut interrupted => interrupted
  | IReplayJoin (RjAcknowledge run_id) => [WorkflowDebt run_id]
  | IReplayJoin (RjAbort interrupted) => interrupted
  | IDispose (DpSendWorkflow run_id _ _) => [WorkflowDebt run_id]
  | IDispose (DpSendActivity task_token _) => [ActivityDebt task_token]
  | IAbandonReplay (ArAcknowledge run_id) => [WorkflowDebt run_id]
  | _ => []
  end.

Definition agenda_hand (a : list instr) : list Debt := a ≫= owner_hand.

Definition poll_debt (event : PollResult WorkflowActivation + PollResult ActivityTask)
    : list Debt :=
  match event with
  | inl (Polled activation) => [WorkflowDebt (wa_run_id activation)]
  | inr (Polled task) => activity_task_debt task
  | _ => []
  end.

Inductive Event :=
| EvWorkflowLane (poll : PollResult WorkflowActivation)
| EvActivityLane (poll : PollResult ActivityTask)
| EvCall (call : OwnerCall)
| EvOwner (input : OwnerInput)
| EvDrainElapsed
| EvReplayElapsed
| EvLaneAborted.

(** The [await]s of the drain, where its timeout can fire. *)
Definition drain_await (i : instr) : bool :=
  match i with
  | IRetire (RvSendWorkflow _ _ _) | IRetire (RvSendActivity _ _) | IDrain DjSelect => true
  | _ => false
  end.

Definition replay_await (i : instr) : bool :=
  match i with
  | IReplayJoin RjSelect | IReplayJoin (RjAcknowledge _) => true
  | _ => false
  end.

(** The [await]s of the workflow lane, where an abort takes effect. *)
Definition workflow_lane_await (pc : WorkflowLanePoint) : bool :=
  match pc with
  | WlPoll | WlFailClosed _ | WlAcknowledge _ | WlForceFail _ _ _ => true
  | _ => false
  end.

Definition with_agenda (a : list instr) (w : World) : World :=
  mkWorld (lanes w) (workflow_pc w) (activity_pc w) a (abort_requested w)
    (owner_consumed w) (results w) (polled w) (dropped w).

Definition finalized (r : option OwnerResult) : bool :=
  match r with Some (FinalizeResult (Ok _)) => true | _ => false end.

Definition world_step (ev : Event) (w : World) : option World :=
  match ev with
  | EvWorkflowLane poll =>
      match workflow_pc w with
      | WlDone => None
      | pc =>
          let '(l, pc', lost) := run_workflow_lane poll pc (lanes w) in
          let got := match pc with WlPoll => poll_debt (inl poll) | _ => [] end in
          Some (mkWorld l pc' (activity_pc w) (agenda w) (abort_requested w)
                  (owner_consumed w) (results w) (polled w ++ got) (dropped w ++ lost))
      end
  | EvActivityLane poll =>
      match activity_pc w with
      | AlDone => None
      | pc =>
          let '(l, pc', lost) := run_activity_lane poll pc (lanes w) in
          let got := match pc with AlPoll => poll_debt (inr poll) | _ => [] end in
          Some (mkWorld l (workflow_pc w) pc' (agenda w) (abort_requested w)
                  (owner_consumed w) (results w) (polled w ++ got) (dropped w ++ lost))
      end
  | EvCall call =>
      match agenda w with
      | [] =>
          if owner_consumed w then None
          else
            let l := match call with
                     | CallDrainAndJoin => with_drain DrainLocals_init (lanes w)
                     | _ => lanes w
                     end in
            Some (mkWorld l (workflow_pc w) (activity_pc w) [entry_point call]
                    (abort_requested w) false (results w) (polled w) (dropped w))
      | _ => None
      end
  | EvOwner input =>
      match agenda w with
      | [] => None
      | i :: rest =>
          match owner_exec (lane_status w) input i (lanes w) with
          | None => None
          | Some out =>
              Some (mkWorld (out_lanes out) (workflow_pc w) (activity_pc w)
                      (out_next out ++ rest) (abort_requested w)
                      (owner_consumed w || finalized (out_result out))
                      (results w ++ option_list (out_result out))
                      (polled w) (dropped w ++ out_dropped out))
          end
      end
  | EvDrainElapsed =>
      match agenda w with
      | i :: _ =>
          if drain_await i
          then Some (with_agenda [IDrainTimedOut (agenda_hand (agenda w))] w) else None
      | [] => None
      end
  | EvReplayElapsed =>
      match agenda w with
      | i :: _ =>
          if replay_await i
          then
            Some (mkWorld (lanes w) (workflow_pc w) (activity_pc w)
                    [IReplayJoin (RjAbort (agenda_hand (agenda w)))] true
                    (owner_consumed w) (results w) (polled w) (dropped w))
          else None
      | [] => None
      end
  | EvLaneAborted =>
      if abort_requested w && workflow_lane_await (workflow_pc w)
      then
        Some (mkWorld (drop_workflow_sender (lanes w)) WlDone (activity_pc w) (agenda w)
                true (owner_consumed w) (results w) (polled w)
                (dropped w ++
                   ((λ debt, (debt, DropReplayTimedOut))
                      <$> workflow_lane_hand (workflow_pc w))))
      else None
  end.

(** Runs a schedule; an event that is not enabled stops it. *)
Fixpoint world_run (evs : list Event) (w : World) : option World :=
  match evs with
  | [] => Some w
  | ev :: evs => world_step ev w ≫= world_run evs
  end.

Definition world_init (start_workflow_lane start_activity_lane close_absent : bool)
    : World :=
  mkWorld (start_lanes start_workflow_lane start_activity_lane close_absent)
    (if start_workflow_lane then WlPoll else WlDone)
    (if start_activity_lane then AlPoll else AlDone)
    [] false false [] [] [].

End PollLanes.
Arguments PollLanes C : clear implicits.
Arguments World C : clear implicits.
Arguments Out C : clear implicits.
