(* ===== verification/LaneDebts.v ===== *)
(** * Completion debts

    The bookkeeping behind the poll-lane theorems: what each ledger operation
    does to the debt of one task, which Core calls settle a debt, and which
    messages and program points stand for an admitted task that has not been
    leased yet. *)

From S2P Require Import Prelude.
From S2P Require Import TaskLedger.
From S2P Require Import Readiness.
From S2P Require Import PollLanes.

#[global] Instance Debt_eq_dec : EqDecision Debt.
Proof. solve_decision. Defined.

(** ** The ledger as a map from debts to leases *)

(** [Some leased] when the task is outstanding. *)
Definition entry (t : TaskLedger) (d : Debt) : option bool :=
  match d with
  | WorkflowDebt run_id => workflows t !! run_id
  | ActivityDebt task_token => leased <$> activities t !! task_token
  end.

Definition owed (t : TaskLedger) (d : Debt) : nat :=
  match entry t d with Some _ => 1 | None => 0 end.

Definition unleased (t : TaskLedger) (d : Debt) : nat :=
  match entry t d with Some false => 1 | _ => 0 end.

(** [t'] differs from [t] only at [x], where it now has [v]. *)
Definition entry_update (t t' : TaskLedger) (x : Debt) (v : option bool) : Prop :=
  ∀ d, entry t' d = if decide (d = x) then v else entry t d.

Definition entry_same (t t' : TaskLedger) : Prop := ∀ d, entry t' d = entry t d.

Lemma entry_same_fields t t' :
  workflows t' = workflows t → activities t' = activities t → entry_same t t'.
Proof. intros Hw Ha [r|k]; simpl; congruence. Qed.

Lemma entry_insert_workflow t t' r b :
  workflows t' = <[r := b]> (workflows t) → activities t' = activities t →
  entry_update t t' (WorkflowDebt r) (Some b).
Proof.
  intros Hw Ha [r'|k]; simpl; [rewrite Hw, lookup_insert|rewrite Ha];
    repeat case_decide; congruence.
Qed.

Lemma entry_delete_workflow t t' r :
  workflows t' = delete r (workflows t) → activities t' = activities t →
  entry_update t t' (WorkflowDebt r) None.
Proof.
  intros Hw Ha [r'|k]; simpl; [rewrite Hw, lookup_delete|rewrite Ha];
    repeat case_decide; congruence.
Qed.

Lemma entry_insert_activity t t' k s :
  activities t' = <[k := s]> (activities t) → workflows t' = workflows t →
  entry_update t t' (ActivityDebt k) (Some (leased s)).
Proof.
  intros Ha Hw [r|k']; simpl; [rewrite Hw|rewrite Ha, lookup_insert];
    repeat case_decide; simpl; congruence.
Qed.

Lemma entry_delete_activity t t' k :
  activities t' = delete k (activities t) → workflows t' = workflows t →
  entry_update t t' (ActivityDebt k) None.
Proof.
  intros Ha Hw [r|k']; simpl; [rewrite Hw|rewrite Ha, lookup_delete];
    repeat case_decide; simpl; congruence.
Qed.

#[export] Hint Resolve entry_same_fields entry_insert_workflow entry_delete_workflow
  entry_insert_activity entry_delete_activity : bridge.

Lemma mark_eviction_fields r e t :
  workflows (mark_eviction r e t) = workflows t ∧
  activities (mark_eviction r e t) = activities t.
Proof. by destruct e. Qed.

(** ** What each operation does to the debts *)

Lemma admit_workflow_entry r e t a t' :
  admit_polled_workflow_activation r e t = (a, t') →
  match a with
  | Ok New =>
      entry t (WorkflowDebt r) = None ∧ entry_update t t' (WorkflowDebt r) (Some false)
  | _ => t' = t
  end.
Proof.
  unfold admit_polled_workflow_activation, record_workflow.
  intros Ha. repeat case_match; simplify_eq/=; try done.
  split; [done|]. apply entry_insert_workflow; by destruct e.
Qed.

Lemma admit_activity_entry k kind t a t' :
  admit_polled_activity k kind t = (a, t') →
  match kind, a with
  | Start, Ok New =>
      entry t (ActivityDebt k) = None ∧ entry_update t t' (ActivityDebt k) (Some false)
  | Start, Ok ExistingCancellation | Cancel, Ok New => False
  | Start, _ => t' = t
  | Cancel, _ => entry_same t t'
  end.
Proof.
  unfold admit_polled_activity, record_activity. intros Ha.
  destruct (_ || _); [by destruct kind; simplify_eq|].
  destruct (bool_decide _); [by destruct kind; simplify_eq|].
  destruct kind, (activities t !! k) as [s|] eqn:Hk; simplify_eq/=; try done.
  - rewrite Hk. split; [done|]. by apply (entry_insert_activity _ _ _ ActivityState_default).
  - destruct (cancelled s); simplify_eq; [done|]. intros d.
    assert (entry_update t
      (set_activities (<[k:=mkActivityState true (leased s)]> (activities t)) t)
      (ActivityDebt k) (Some (leased s))) as ->.
    { by apply (entry_insert_activity _ _ _ (mkActivityState true (leased s))). }
    case_decide; [|done]. subst. simpl. by rewrite Hk.
Qed.

Lemma lease_workflow_entry r e t a t' :
  lease_workflow_activation r e t = (a, t') →
  entry t (WorkflowDebt r) = Some false →
  a = Ok tt ∧ entry_update t t' (WorkflowDebt r) (Some true).
Proof.
  unfold lease_workflow_activation, lease_workflow. simpl. intros Ha Hr.
  rewrite Hr in Ha. simplify_eq/=. split; [done|].
  apply entry_insert_workflow; by destruct e.
Qed.

Lemma handoff_start_entry k t a t' :
  handoff_activity k Start t = (a, t') →
  entry t (ActivityDebt k) = Some false →
  a = Ok tt ∧ entry_update t t' (ActivityDebt k) (Some true).
Proof.
  simpl. unfold lease_activity. intros Ha (s & Hk & Hs)%fmap_Some.
  rewrite Hk, <-Hs in Ha. simplify_eq/=. split; [done|].
  by apply (entry_insert_activity _ _ _ (mkActivityState (cancelled s) true)).
Qed.

Lemma abandon_workflow_entry r t :
  entry t (WorkflowDebt r) = Some false →
  entry_update t (abandon_workflow_admission r t) (WorkflowDebt r) None.
Proof.
  simpl. unfold abandon_workflow_admission. intros ->. by apply entry_delete_workflow.
Qed.

Lemma abandon_activity_entry k t :
  entry t (ActivityDebt k) = Some false →
  entry_update t (abandon_activity_admission k t) (ActivityDebt k) None.
Proof.
  simpl. unfold abandon_activity_admission. intros (s & -> & <-)%fmap_Some.
  by apply entry_delete_activity.
Qed.

Lemma complete_workflow_entry r t a t' :
  TaskLedger.complete_workflow r t = (a, t') →
  match a with
  | Ok _ =>
      entry t (WorkflowDebt r) = Some true ∧ entry_update t t' (WorkflowDebt r) None
  | Err _ => t' = t
  end.
Proof.
  unfold TaskLedger.complete_workflow. intros Ha.
  repeat case_match; simplify_eq/=; try done.
  split; [done|]. by apply entry_delete_workflow.
Qed.

Lemma complete_activity_entry k t a t' :
  TaskLedger.complete_activity k t = (a, t') →
  entry t (ActivityDebt k) = Some true →
  a = Ok tt ∧ entry_update t t' (ActivityDebt k) None.
Proof.
  unfold TaskLedger.complete_activity. simpl. intros Ha (s & Hk & Hs)%fmap_Some.
  rewrite Hk, <-Hs in Ha. simplify_eq/=. split; [done|].
  by apply entry_delete_activity.
Qed.

Lemma ensure_activity_leased_entry k t :
  ensure_activity_leased k t = Ok tt → entry t (ActivityDebt k) = Some true.
Proof.
  unfold ensure_activity_leased. simpl. destruct (activities t !! k) as [s|]; [|done].
  by destruct (leased s) eqn:Hs; simpl; [rewrite Hs|].
Qed.

Lemma restore_workflow_entry r t b t' :
  restore_rejected_workflow_completion r t = (b, t') →
  if b
  then entry t (WorkflowDebt r) = None ∧ entry_update t t' (WorkflowDebt r) (Some true)
  else t' = t.
Proof.
  unfold restore_rejected_workflow_completion. intros Hb.
  case_match eqn:Hr; simplify_eq/=; [done|].
  split; [done|]. by apply entry_insert_workflow.
Qed.

Lemma force_remove_workflow_entry r t :
  entry_update t (force_remove_workflow r t) (WorkflowDebt r) None.
Proof. by apply entry_delete_workflow. Qed.

Lemma force_remove_activity_entry k t :
  entry_update t (force_remove_activity k t) (ActivityDebt k) None.
Proof. by apply entry_delete_activity. Qed.

(** Taking the leased entries removes exactly those. *)
Definition taken_debts (taken : list (string * bool) * list (list byte)) : list Debt :=
  (WorkflowDebt <$> taken.1.*1) ++ (ActivityDebt <$> taken.2).

Lemma taken_debts_NoDup rs ks :
  NoDup rs → NoDup ks → NoDup ((WorkflowDebt <$> rs) ++ (ActivityDebt <$> ks)).
Proof.
  intros Hr Hk. apply NoDup_app. split_and!.
  - apply NoDup_fmap_2; [by intros ?? [= ->]|done].
  - intros d (r & -> & _)%list_elem_of_fmap (k & [=] & _)%list_elem_of_fmap.
  - apply NoDup_fmap_2; [by intros ?? [= ->]|done].
Qed.

Lemma take_leased_entry t taken t' :
  take_leased_for_shutdown t = (taken, t') →
  (∀ d, occurrences d (taken_debts taken)
        = indicator (bool_decide (entry t d = Some true))) ∧
  (∀ d, entry t' d = match entry t d with Some true => None | o => o end) ∧
  lost_poll_lease t' = lost_poll_lease t.
Proof.
  destruct taken as [ws ts]. intros H.
  apply take_leased_for_shutdown_spec in H as (-> & -> & Hw & Ha & _ & _ & Hl & _).
  split_and!; [|intros [r|k]; simpl; [by rewrite Hw|rewrite Ha]|done].
  - intros d. apply occurrences_NoDup.
    + unfold taken_debts; cbn [fst snd]. rewrite fmap_fst_tag.
      apply taken_debts_NoDup; apply NoDup_fst_filter_map_to_list.
    + rewrite bool_decide_eq_true. unfold taken_debts; cbn [fst snd].
      rewrite fmap_fst_tag, elem_of_app, !list_elem_of_fmap.
      setoid_rewrite elem_of_leased_run_ids. setoid_rewrite elem_of_leased_task_tokens.
      destruct d as [r|k]; simpl; [naive_solver|].
      rewrite fmap_Some. naive_solver.
  - destruct (activities t !! k) as [s|]; simpl; [|done].
    by destruct (leased s) eqn:Hs; simpl; rewrite ?Hs.
Qed.

(** ** Settling *)

(** The debts a Core call settles: a language completion settles its task
    unless Core rejected it; a completion the bridge generates always does. *)
Definition settles (call : CoreCall) : list Debt :=
  match call with
  | CompleteWorkflowActivation c (FromLanguage (Finished (Err _))) => []
  | CompleteWorkflowActivation c _ => [WorkflowDebt (wc_run_id c)]
  | CompleteActivityTask c (FromLanguage (Err _)) => []
  | CompleteActivityTask c _ => [ActivityDebt (ac_task_token c)]
  | _ => []
  end.

(** ** Tickets

    A ticket is the right to lease (or retire) an admitted, unleased task: the
    queued message, or a program point that holds the task on its way into or
    out of the queue. *)

Definition workflow_message_ticket (m : ReadyTask WorkflowActivation) : list Debt :=
  match m with
  | Ok activation => [WorkflowDebt (wa_run_id activation)]
  | Err _ => []
  end.

Definition activity_message_ticket (m : ReadyTask ActivityTask) : list Debt :=
  match m with Ok task => activity_task_debt task | Err _ => [] end.

Definition workflow_lane_ticket (pc : WorkflowLanePoint) : list Debt :=
  match pc with
  | WlEnqueue activation => [WorkflowDebt (wa_run_id activation)]
  | WlAbandon run_id => [WorkflowDebt run_id]
  | _ => []
  end.

Definition activity_lane_ticket (pc : ActivityLanePoint) : list Debt :=
  match pc with
  | AlEnqueue task _ => activity_task_debt task
  | AlAbandon task_token => [ActivityDebt task_token]
  | _ => []
  end.

Definition owner_ticket (i : instr) : list Debt :=
  match i with
  | ITryTakeWorkflow (TtwLease activation) => [WorkflowDebt (wa_run_id activation)]
  | ITryTakeActivity (TtaHandoff task) => activity_task_debt task
  | IRetire (RvQueuedWorkflow m) | IDrain (DjCountWorkflow m) | IReplayJoin (RjCount m) =>
      workflow_message_ticket m
  | IRetire (RvQueuedActivity m) | IDrain (DjCountActivity m) => activity_message_ticket m
  | IReplayJoin (RjRemove run_id) => [WorkflowDebt run_id]
  | _ => []
  end.

(** Activity completions already accepted by Core whose ledger entry the owner
    is about to remove. *)
Definition owner_prepaid (i : instr) : list Debt :=
  match i with
  | ICompleteActivity (CaRetire task_token) => [ActivityDebt task_token]
  | IRejectActivity (RaRetire task_token _) => [ActivityDebt task_token]
  | _ => []
  end.

(** Points that rely on a lease checked earlier in the same call. *)
Definition owner_lease (i : instr) : option Debt :=
  match i with
  | ICompleteActivity (CaSend c) => Some (ActivityDebt (ac_task_token c))
  | ICompleteActivity (CaRetire task_token) => Some (ActivityDebt task_token)
  | IRejectActivity (RaSend c) => Some (ActivityDebt (ac_task_token c))
  | IRejectActivity (RaRetire task_token _) => Some (ActivityDebt task_token)
  | _ => None
  end.

(** Calls other than the two disposal passes. *)
Definition live_call (call : OwnerCall) : bool :=
  match call with CallDispose | CallAbandonReplay => false | _ => true end.

Definition live_event (ev : Event) : bool :=
  match ev with EvCall call => live_call call | _ => true end.

(** The points a live call can reach: disposal's are out, and so are the
    lease-failure branches, which the ticket invariant rules out. *)
Definition live_instr (i : instr) : bool :=
  match i with
  | IDispose _ | IAbandonReplay _
  | ITryTakeWorkflow (TtwForceFail _) | ITryTakeWorkflow (TtwAbandon _)
  | ITryTakeActivity (TtaForceFail _) | ITryTakeActivity (TtaAbandon _) => false
  | _ => true
  end.

#[global] Arguments entry : simpl never.

(** Operations that leave every debt alone. *)
Lemma entry_mark_lost t d : entry (mark_lost_poll_lease t) d = entry t d.
Proof. by destruct d. Qed.
Lemma entry_begin_draining t d : entry (begin_draining t) d = entry t d.
Proof. by destruct d. Qed.
Lemma entry_clear_retired t d : entry (clear_dispose_retired t) d = entry t d.
Proof. by destruct d. Qed.
Lemma entry_restore_eviction r t d : entry (restore_eviction_lease r t) d = entry t d.
Proof. by destruct d. Qed.

Create Rewrite HintDb entry.
#[export] Hint Rewrite entry_mark_lost entry_begin_draining entry_clear_retired
  entry_restore_eviction : entry.
