(* ===== verification/LaneSafety.v ===== *)
(** * Safety of the poll lanes

    The invariant of [PollLanes] under every interleaving of its three threads
    and every answer of Temporal Core, and what follows from it: no task is
    completed twice, none is forgotten, finalization and the shutdown drain
    succeed only when every task is settled. *)

From S2P Require Import Prelude.
From S2P Require Import TaskLedger.
From S2P Require Import Readiness.
From S2P Require Import PollLanes.
From S2P Require Import LaneDebts.

Section Safety.
Context {C : Type → Type} `{!Mpsc C} `{!MpscLaws C}.
Variable is_local_activity_task : list byte → bool.

(** ** The queues *)

Definition workflow_queue (l : PollLanes C) : list (ReadyTask WorkflowActivation) :=
  mpsc_contents (queue (workflow_signal l)).
Definition activity_queue (l : PollLanes C) : list (ReadyTask ActivityTask) :=
  mpsc_contents (queue (activity_signal l)).

Definition queued (l : PollLanes C) : list Debt :=
  (workflow_queue l ≫= workflow_message_ticket)
  ++ (activity_queue l ≫= activity_message_ticket).

Definition queues_open (l : PollLanes C) : Prop :=
  mpsc_receiver_open (queue (workflow_signal l)) = true ∧
  mpsc_receiver_open (queue (activity_signal l)) = true.

Definition settled (l : PollLanes C) : list Debt := core_calls l ≫= settles.

(** The effect of a queue operation: nothing but the queues changes, and the
    queued tickets gain [gain] and lose [lose]. *)
Record queue_delta (l l' : PollLanes C) (gain lose : list Debt) : Prop := {
  qd_ledger : ledger l' = ledger l;
  qd_calls : core_calls l' = core_calls l;
  qd_handles : workflow_lane l' = workflow_lane l ∧ activity_lane l' = activity_lane l;
  qd_open : queues_open l';
  qd_tickets d :
    occurrences d (queued l') + occurrences d lose
    = occurrences d (queued l) + occurrences d gain
}.

Lemma readiness_enqueue {T} (m : ReadyTask T) (r : Readiness C T) g :
  mpsc_receiver_open (queue r) = true →
  ∃ r', enqueue m r g = (true, r', any_notify g) ∧
    mpsc_contents (queue r') = mpsc_contents (queue r) ++ [m] ∧
    mpsc_receiver_open (queue r') = true.
Proof.
  intros Ho. destruct (mpsc_send_open m (queue r) Ho) as (c' & Hs & Hc & Ho' & _).
  unfold enqueue. rewrite Hs. eauto.
Qed.

Lemma readiness_take {T} rf (r : Readiness C T) g o r' g' :
  take_inner rf r g = (o, r', g') →
  mpsc_receiver_open (queue r') = mpsc_receiver_open (queue r) ∧
  ((∃ m, o = Some m ∧ mpsc_contents (queue r) = m :: mpsc_contents (queue r')) ∨
   (mpsc_contents (queue r) = [] ∧ mpsc_contents (queue r') = [] ∧
    (o = None ∨ rf = true ∧ ∃ e, o = Some (Err e)))).
Proof.
  unfold take_inner. intros Ht.
  destruct (mpsc_contents (queue r)) as [|m q] eqn:Hc.
  - rewrite (mpsc_try_recv_nil _ Hc) in Ht. unfold reported_failure in Ht.
    destruct (mpsc_sender_open _), rf, (lane_error (state r)) eqn:He;
      simplify_eq/=; rewrite ?He, ?Hc; simpl; eauto 10.
  - destruct (mpsc_try_recv_cons _ _ _ Hc) as (c' & Hr & Hc' & Ho & _).
    rewrite Hr in Ht. simplify_eq/=. rewrite Ho. eauto.
Qed.

Lemma readiness_take_async {T} (r : Readiness C T) o r' :
  take_async_recv r = Some (o, r') →
  mpsc_receiver_open (queue r') = mpsc_receiver_open (queue r) ∧
  match o with
  | Some m => mpsc_contents (queue r) = m :: mpsc_contents (queue r')
  | None => r' = r ∧ mpsc_contents (queue r) = []
  end.
Proof.
  unfold take_async_recv. intros Ht.
  destruct (mpsc_contents (queue r)) as [|m q] eqn:Hc.
  - rewrite (mpsc_try_recv_nil _ Hc) in Ht.
    destruct (mpsc_sender_open _); by simplify_eq.
  - destruct (mpsc_try_recv_cons _ _ _ Hc) as (c' & Hr & Hc' & Ho & _).
    rewrite Hr in Ht. simplify_eq/=. by rewrite Ho.
Qed.

Ltac queue_arith :=
  unfold queued, workflow_queue, activity_queue in *; simpl;
  repeat match goal with H : mpsc_contents _ = _ |- _ => rewrite H; clear H end;
  autorewrite with occ; lia.

Lemma workflow_enqueue_delta m l :
  queues_open l →
  ∃ l', workflow_enqueue m l = (true, l') ∧
    queue_delta l l' (workflow_message_ticket m) [].
Proof.
  intros [Ho Ha]. destruct (readiness_enqueue m _ (any l) Ho) as (r' & Hr & Hc & Ho').
  unfold workflow_enqueue. rewrite Hr. eexists; split; [done|].
  split; try done. intros d. queue_arith.
Qed.

Lemma activity_enqueue_delta m l :
  queues_open l →
  ∃ l', activity_enqueue m l = (true, l') ∧
    queue_delta l l' (activity_message_ticket m) [].
Proof.
  intros [Hw Ho]. destruct (readiness_enqueue m _ (any l) Ho) as (r' & Hr & Hc & Ho').
  unfold activity_enqueue. rewrite Hr. eexists; split; [done|].
  split; try done. intros d. queue_arith.
Qed.

Lemma workflow_take_delta rf l o l' :
  workflow_take rf l = (o, l') → queues_open l →
  queue_delta l l' [] (from_option workflow_message_ticket [] o) ∧
  (rf = false → o = None → workflow_queue l' = []) ∧
  activity_queue l' = activity_queue l.
Proof.
  unfold workflow_take. destruct (take_inner rf _ _) as [[o' r'] g'] eqn:Ht.
  intros [= <- <-] [Ho Ha]. apply readiness_take in Ht as [Hop Hcase].
  split_and!; [|naive_solver|done].
  split; try done; [split; [by simpl; rewrite Hop|done]|]. intros d.
  destruct Hcase as [(m & -> & Hc)|(Hc & Hc' & [->|(_ & e & ->)])];
    simpl; queue_arith.
Qed.

Lemma activity_take_delta rf l o l' :
  activity_take rf l = (o, l') → queues_open l →
  queue_delta l l' [] (from_option activity_message_ticket [] o) ∧
  (rf = false → o = None → activity_queue l' = []) ∧
  workflow_queue l' = workflow_queue l.
Proof.
  unfold activity_take. destruct (take_inner rf _ _) as [[o' r'] g'] eqn:Ht.
  intros [= <- <-] [Hw Ho]. apply readiness_take in Ht as [Hop Hcase].
  split_and!; [|naive_solver|done].
  split; try done; [split; [done|by simpl; rewrite Hop]|]. intros d.
  destruct Hcase as [(m & -> & Hc)|(Hc & Hc' & [->|(_ & e & ->)])];
    simpl; queue_arith.
Qed.

Lemma queue_delta_close l l' :
  ledger l' = ledger l → core_calls l' = core_calls l →
  workflow_lane l' = workflow_lane l → activity_lane l' = activity_lane l →
  workflow_queue l' = workflow_queue l → activity_queue l' = activity_queue l →
  queues_open l' → queue_delta l l' [] [].
Proof. intros ?????? Ho. split; try done. intros d. unfold queued. congruence. Qed.

Lemma workflow_async_delta l o r' :
  take_async_recv (workflow_signal l) = Some (o, r') → queues_open l →
  queue_delta l (with_workflow_signal r' (any l) l) []
    (from_option workflow_message_ticket [] o).
Proof.
  intros [Hop Ho]%readiness_take_async [Hw Ha].
  split; try done; [split; [by simpl; rewrite Hop|done]|]. intros d.
  destruct o as [m|]; [|destruct Ho as [-> Ho]]; simpl; queue_arith.
Qed.

Lemma activity_async_delta l o r' :
  take_async_recv (activity_signal l) = Some (o, r') → queues_open l →
  queue_delta l (with_activity_signal r' (any l) l) []
    (from_option activity_message_ticket [] o).
Proof.
  intros [Hop Ho]%readiness_take_async [Hw Ha].
  split; try done; [split; [done|by simpl; rewrite Hop]|]. intros d.
  destruct o as [m|]; [|destruct Ho as [-> Ho]]; simpl; queue_arith.
Qed.

Lemma drop_workflow_sender_delta l :
  queues_open l → queue_delta l (drop_workflow_sender l) [] [].
Proof.
  intros [Hw Ha]. destruct (mpsc_drop_sender_spec (queue (workflow_signal l)))
    as (Hc & Ho & _).
  apply queue_delta_close; try done; unfold queues_open; simpl; by rewrite ?Ho.
Qed.

Lemma drop_activity_sender_delta l :
  queues_open l → queue_delta l (drop_activity_sender l) [] [].
Proof.
  intros [Hw Ha]. destruct (mpsc_drop_sender_spec (queue (activity_signal l)))
    as (Hc & Ho & _).
  apply queue_delta_close; try done; unfold queues_open; simpl; by rewrite ?Ho.
Qed.

(** ** The invariant of the shared state

    [pol] are the debts Core has handed out so far, [pre] the activity debts
    settled ahead of their ledger removal, [hand] those held by a program
    point, [tick] the tickets held by one, and [drop] those given up. *)

Record lane_ok (l : PollLanes C) (pol pre hand tick drop : list Debt) : Prop := {
  ok_balance d :
    occurrences d pol + occurrences d pre
    = occurrences d (settled l) + owed (ledger l) d + occurrences d hand
      + occurrences d drop;
  ok_tickets d :
    occurrences d (queued l) + occurrences d tick = unleased (ledger l) d;
  ok_open : queues_open l
}.

(** What no step of another thread takes away from the owner. *)
Record steady (l l' : PollLanes C) : Prop := {
  steady_lease d : entry (ledger l) d = Some true → entry (ledger l') d = Some true;
  steady_lost : lost_poll_lease (ledger l) = true → lost_poll_lease (ledger l') = true
}.

(** A ticket holder finds its task in the ledger, not yet leased. *)
Lemma ticket_unleased l pol pre hand tick drop d :
  lane_ok l pol pre hand tick drop → d ∈ tick → entry (ledger l) d = Some false.
Proof.
  intros Hok Hd%occurrences_pos. pose proof (ok_tickets _ _ _ _ _ _ Hok d) as Ht.
  unfold unleased in Ht. destruct (entry (ledger l) d) as [[]|]; try lia. done.
Qed.

(** Every step is checked by comparing counts before and after. *)
Lemma lane_ok_step l l' pol pre hand tick drop pol' pre' hand' tick' drop' :
  lane_ok l pol pre hand tick drop →
  queues_open l' →
  (∀ d, occurrences d pol' + occurrences d pre' + occurrences d (settled l)
        + owed (ledger l) d + occurrences d hand + occurrences d drop
        = occurrences d pol + occurrences d pre + occurrences d (settled l')
        + owed (ledger l') d + occurrences d hand' + occurrences d drop') →
  (∀ d, occurrences d (queued l') + occurrences d tick' + unleased (ledger l) d
        = occurrences d (queued l) + occurrences d tick + unleased (ledger l') d) →
  lane_ok l' pol' pre' hand' tick' drop'.
Proof.
  intros [Hb Ht _] Ho Hb' Ht'. split; [| |done].
  - intros d. specialize (Hb d). specialize (Hb' d). lia.
  - intros d. specialize (Ht d). specialize (Ht' d). lia.
Qed.

End Safety.

(** Counting at one debt: the queues, the calls and the ledger entry. *)
Ltac count_entries :=
  autorewrite with entry in *;
  repeat match goal with
  | H : entry_update _ ?t _ _ |- context [entry ?t ?d] => rewrite (H d)
  | H : entry_same _ ?t |- context [entry ?t ?d] => rewrite (H d)
  end;
  repeat (case_decide || case_bool_decide); subst;
  repeat match goal with
  | H : entry ?t ?d = _ |- context [entry ?t ?d] => rewrite H
  end.

Ltac count_debts :=
  let d := fresh "d" in
  intros d;
  repeat match goal with
  | Q : queue_delta ?l ?l' _ _ |- _ =>
      let H := fresh "Hqd" in
      pose proof (qd_tickets _ _ _ _ Q d) as H;
      let L := fresh "Hled" in
      pose proof (qd_ledger _ _ _ _ Q) as L;
      let S := fresh "Hset" in
      pose proof (qd_calls _ _ _ _ Q) as S;
      unfold settled; simpl in L, S; rewrite ?L, ?S; clear Q L S
  end;
  unfold queued, settled, workflow_queue, activity_queue in *; simpl in *;
  autorewrite with occ in *; simpl in *; autorewrite with occ in *;
  unfold owed, unleased, indicator in *; count_entries; simpl in *; try lia.

Ltac lane_step H := eapply (lane_ok_step _ _ _ _ _ _ _ _ _ _ _ _ H); [|count_debts|count_debts].

Section Lanes.
Context {C : Type → Type} `{!Mpsc C} `{!MpscLaws C}.
Variable is_local_activity_task : list byte → bool.

Lemma lane_ok_drop_workflow (l : PollLanes C) pol pre hand tick drop :
  lane_ok l pol pre hand tick drop →
  lane_ok (drop_workflow_sender l) pol pre hand tick drop.
Proof.
  intros Hok. pose proof (drop_workflow_sender_delta l (ok_open _ _ _ _ _ _ Hok)) as Q.
  pose proof (qd_open _ _ _ _ Q). split; [apply Hok| |done].
  intros d. pose proof (qd_tickets _ _ _ _ Q d) as Hd.
  pose proof (ok_tickets _ _ _ _ _ _ Hok d) as Ht.
  autorewrite with occ in *. simpl. lia.
Qed.

Lemma lane_ok_drop_activity (l : PollLanes C) pol pre hand tick drop :
  lane_ok l pol pre hand tick drop →
  lane_ok (drop_activity_sender l) pol pre hand tick drop.
Proof.
  intros Hok. pose proof (drop_activity_sender_delta l (ok_open _ _ _ _ _ _ Hok)) as Q.
  pose proof (qd_open _ _ _ _ Q). split; [apply Hok| |done].
  intros d. pose proof (qd_tickets _ _ _ _ Q d) as Hd.
  pose proof (ok_tickets _ _ _ _ _ _ Hok d) as Ht.
  autorewrite with occ in *. simpl. lia.
Qed.

Lemma workflow_lane_ok poll pc (l : PollLanes C) l' pc' lost pol pre hand tick drop :
  run_workflow_lane poll pc l = (l', pc', lost) →
  lane_ok l pol pre (workflow_lane_hand pc ++ hand) (workflow_lane_ticket pc ++ tick)
    drop →
  lane_ok l'
    (pol ++ match pc with WlPoll => poll_debt (inl poll) | _ => [] end) pre
    (workflow_lane_hand pc' ++ hand) (workflow_lane_ticket pc' ++ tick)
    (drop ++ lost.*1).
Proof.
  intros Hrun Hok. pose proof (ok_open _ _ _ _ _ _ Hok) as Hopen.
  destruct pc; simpl in Hrun.
  - destruct poll; simplify_eq/=; by lane_step Hok.
  - destruct (admit_polled_workflow_activation _ _ _) as [a t] eqn:Ha.
    apply admit_workflow_entry in Ha.
    destruct a as [[]|[]]; try destruct (wa_is_only_eviction activation);
    simplify_eq/=; try destruct Ha as [Hn Hu]; subst; by lane_step Hok.
  - destruct (workflow_enqueue_delta (Ok activation) l Hopen) as (l1 & He & Hq).
    rewrite He in Hrun. simplify_eq/=. pose proof (qd_open _ _ _ _ Hq).
    by lane_step Hok.
  - simplify_eq/=. assert (entry (ledger l) (WorkflowDebt run_id) = Some false) as Hun
      by (by eapply ticket_unleased; [done|set_solver]).
    pose proof (abandon_workflow_entry _ _ Hun) as Hu. by lane_step Hok.
  - injection Hrun as <- <- <-. simpl. apply lane_ok_drop_workflow. by lane_step Hok.
  - simplify_eq/=. by lane_step Hok.
  - simplify_eq/=. by lane_step Hok.
  - simplify_eq/=. by lane_step Hok.
  - destruct (workflow_enqueue_delta (Err error) l Hopen) as (l1 & He & Hq).
    rewrite He in Hrun. simplify_eq/=. pose proof (qd_open _ _ _ _ Hq).
    by lane_step Hok.
  - destruct (workflow_enqueue_delta (Err error) l Hopen) as (l1 & He & Hq).
    rewrite He in Hrun. simplify_eq/=. pose proof (qd_open _ _ _ _ Hq).
    by lane_step Hok.
  - injection Hrun as <- <- <-. simpl. apply lane_ok_drop_workflow. by lane_step Hok.
  - injection Hrun as <- <- <-. simpl. apply lane_ok_drop_workflow. by lane_step Hok.
  - simplify_eq/=. by lane_step Hok.
Qed.

(** The lane classifies a task by its variant once and keeps the answer. *)
Definition admission_kind (task : ActivityTask) : ActivityAdmission :=
  if is_cancel_variant task then Cancel else Start.

Definition activity_pc_ok (pc : ActivityLanePoint) : Prop :=
  match pc with
  | AlAdmit task kind | AlEnqueue task kind => kind = admission_kind task
  | AlMarkLost task _ => is_cancel_variant task = false
  | _ => True
  end.

Lemma activity_admit_ok task (l : PollLanes C) l' pc' lost pol pre hand tick drop poll :
  run_activity_lane is_local_activity_task poll (AlAdmit task (admission_kind task)) l
    = (l', pc', lost) →
  lane_ok l pol pre (activity_task_debt task ++ hand) tick drop →
  lane_ok l' pol pre (activity_lane_hand pc' ++ hand) (activity_lane_ticket pc' ++ tick)
    (drop ++ lost.*1) ∧ activity_pc_ok pc'.
Proof.
  intros Hrun Hok. pose proof (ok_open _ _ _ _ _ _ Hok) as Hopen.
  cbn [run_activity_lane] in Hrun. unfold admission_kind in *.
  destruct (admit_polled_activity _ _ _) as [a t] eqn:Ha.
  apply admit_activity_entry in Ha.
  unfold activity_task_debt, activity_pc_ok, admission_kind in *.
  destruct (is_cancel_variant task) eqn:Hv, a as [[]|[]]; simplify_eq/=; try done;
    try destruct Ha as [Hn Hu]; subst; unfold activity_task_debt; rewrite ?Hv;
    (split; [by lane_step Hok|done]).
Qed.

Lemma activity_lane_ok poll pc (l : PollLanes C) l' pc' lost pol pre hand tick drop :
  run_activity_lane is_local_activity_task poll pc l = (l', pc', lost) →
  activity_pc_ok pc →
  lane_ok l pol pre (activity_lane_hand pc ++ hand) (activity_lane_ticket pc ++ tick)
    drop →
  lane_ok l'
    (pol ++ match pc with AlPoll => poll_debt (inr poll) | _ => [] end) pre
    (activity_lane_hand pc' ++ hand) (activity_lane_ticket pc' ++ tick)
    (drop ++ lost.*1) ∧ activity_pc_ok pc'.
Proof.
  intros Hrun Hpc Hok. pose proof (ok_open _ _ _ _ _ _ Hok) as Hopen.
  destruct pc.
  - destruct poll as [task| |]; simpl in Hrun;
      [|by simplify_eq/=; split; [lane_step Hok|]..].
    unfold activity_pc_ok, poll_debt, admission_kind.
    destruct (at_variant task) as [[]|] eqn:Hv; simplify_eq/=;
      unfold activity_task_debt, is_cancel_variant; rewrite ?Hv;
      (split; [by lane_step Hok|done]).
  - simplify_eq/=. split; [by lane_step Hok|done].
  - rewrite app_nil_r. simpl in Hpc. subst kind. by eapply activity_admit_ok.
  - destruct (activity_enqueue_delta (Ok task) l Hopen) as (l1 & He & Hq).
    simpl in Hrun. rewrite He in Hrun. simplify_eq/=. pose proof (qd_open _ _ _ _ Hq).
    split; [by lane_step Hok|done].
  - simplify_eq/=. assert (entry (ledger l) (ActivityDebt task_token) = Some false) as Hun
      by (by eapply ticket_unleased; [done|set_solver]).
    pose proof (abandon_activity_entry _ _ Hun) as Hu. split; [by lane_step Hok|done].
  - injection Hrun as <- <- <-. simpl. split; [|done].
    apply lane_ok_drop_activity. by lane_step Hok.
  - simplify_eq/=. unfold activity_task_debt in Hok. rewrite Hpc in Hok.
    split; [by lane_step Hok|done].
  - simplify_eq/=. split; [by lane_step Hok|done].
  - destruct (activity_enqueue_delta (Err error) l Hopen) as (l1 & He & Hq).
    simpl in Hrun. rewrite He in Hrun. simplify_eq/=. pose proof (qd_open _ _ _ _ Hq).
    split; [by lane_step Hok|done].
  - destruct (activity_enqueue_delta (Err error) l Hopen) as (l1 & He & Hq).
    simpl in Hrun. rewrite He in Hrun. simplify_eq/=. pose proof (qd_open _ _ _ _ Hq).
    split; [by lane_step Hok|done].
  - injection Hrun as <- <- <-. simpl. split; [|done].
    apply lane_ok_drop_activity. by lane_step Hok.
  - injection Hrun as <- <- <-. simpl. split; [|done].
    apply lane_ok_drop_activity. by lane_step Hok.
  - simplify_eq/=. split; [by lane_step Hok|done].
Qed.

Lemma workflow_lane_steady poll pc (l : PollLanes C) l' pc' lost :
  run_workflow_lane poll pc l = (l', pc', lost) →
  steady l l' ∧
  Forall (λ x, x.2 = DropMarkedLost ∧ lost_poll_lease (ledger l') = true) lost.
Proof.
  intros Hrun. assert (Hrefl : steady l l) by done.
  destruct pc; simpl in Hrun;
    try (unfold workflow_enqueue in Hrun; destruct (enqueue _ _ _) as [[[] r'] g']).
  all: try (by injection Hrun as <- <- <-; repeat constructor; simpl; auto).
  - destruct poll; by simplify_eq/=.
  - destruct (admit_polled_workflow_activation _ _ _) as [a t] eqn:Ha.
    assert (lost_poll_lease t = lost_poll_lease (ledger l)) as Hl.
    { unfold admit_polled_workflow_activation, record_workflow in Ha.
      repeat case_match; simplify_eq/=; try done. by destruct (wa_is_only_eviction _). }
    apply admit_workflow_entry in Ha.
    assert (steady l (with_ledger t l)).
    { split; [|by simpl; rewrite Hl]. intros d Hd. simpl.
      destruct a as [[]|]; subst; try done. destruct Ha as [Hn Hu]. rewrite (Hu d).
      case_decide; congruence. }
    repeat case_match; by simplify_eq/=.
  - simplify_eq/=. split; [|done]. unfold abandon_workflow_admission.
    destruct (workflows (ledger l) !! run_id) as [[]|] eqn:Hr; [by split..| |by split].
    split; [|done]. intros d Hd. simpl. rewrite (force_remove_workflow_entry _ _ d).
    case_decide; [|done]. subst. unfold entry in Hd. congruence.
Qed.

Lemma activity_lane_steady poll pc (l : PollLanes C) l' pc' lost :
  run_activity_lane is_local_activity_task poll pc l = (l', pc', lost) →
  steady l l' ∧
  Forall (λ x, x.2 = DropMarkedLost ∧ lost_poll_lease (ledger l') = true) lost.
Proof.
  intros Hrun. assert (Hrefl : steady l l) by done.
  destruct pc; simpl in Hrun;
    try (unfold activity_enqueue in Hrun; destruct (enqueue _ _ _) as [[[] r'] g']).
  all: try (by injection Hrun as <- <- <-; repeat constructor; simpl; auto).
  - repeat case_match; by simplify_eq/=.
  - destruct (admit_polled_activity _ _ _) as [a t] eqn:Ha.
    assert (lost_poll_lease t = lost_poll_lease (ledger l)) as Hl.
    { unfold admit_polled_activity, record_activity in Ha.
      by repeat case_match; simplify_eq/=. }
    apply admit_activity_entry in Ha.
    assert (steady l (with_ledger t l)).
    { split; [|by simpl; rewrite Hl]. intros d Hd. simpl.
      destruct kind, a as [[]|]; subst; try done; try by rewrite (Ha d).
      destruct Ha as [Hn Hu]. rewrite (Hu d). case_decide; congruence. }
    repeat case_match; by simplify_eq/=.
  - case_bool_decide; by injection Hrun as <- <- <-; repeat constructor; simpl; auto.
  - simplify_eq/=. split; [|done]. unfold abandon_activity_admission.
    destruct (activities (ledger l) !! task_token) as [s|] eqn:Hr; [|by split].
    destruct (leased s) eqn:Hs; [by split|].
    split; [|done]. intros d Hd. simpl. rewrite (force_remove_activity_entry _ _ d).
    case_decide; [|done]. subst. unfold entry in Hd. rewrite Hr in Hd. simpl in Hd.
    congruence.
Qed.
End Lanes.
