(* ===== verification/OwnerSafety.v ===== *)
(** * Safety of the owner's operations

    Each step of an owner call preserves the poll-lane invariant, for every
    answer of Core.  One lemma per source function. *)

From S2P Require Import Prelude.
From S2P Require Import TaskLedger.
From S2P Require Import Readiness.
From S2P Require Import PollLanes.
From S2P Require Import LaneDebts.
From S2P Require Import LaneSafety.

(** A point that can wait on the agenda below the running one. *)
Definition quiet (i : instr) : Prop :=
  owner_ticket i = [] ∧ owner_prepaid i = [] ∧ owner_lease i = None.

(** Every branch of every live point. *)
Ltac owner_cases i Hrun :=
  destruct i as [pt|pt|pt| |pt|pt| |pt|pt|pt|pt| |pt|pt|pt|pt|];
  try done; cbn [owner_exec] in Hrun; try destruct pt; try done; simpl in Hrun;
  unfold drain_timed_out, mark_natural_shutdown,
    record_activity_heartbeat, finalize, retire_rejected_workflow,
    retire_rejected_activity, retire_queued_workflow, retire_queued_activity,
    goto, return_ in Hrun;
  repeat case_match; simplify_eq/=.

Section Owner.
Context {C : Type → Type} `{!Mpsc C} `{!MpscLaws C}.
Variable is_local_activity_task : list byte → bool.

(** What a step leaves on the agenda: live points, quiet below the first, and
    the first one still has the lease it relies on. *)
Record next_ok (out : Out C) : Prop := {
  next_live : Forall (λ i, live_instr i = true) (out_next out);
  next_quiet : Forall quiet (tail (out_next out));
  next_lease i d :
    head (out_next out) = Some i → owner_lease i = Some d →
    entry (ledger (out_lanes out)) d = Some true
}.

(** The balance after a step of the owner, in the frame of the other threads. *)
Definition step_ok (out : Out C) (pol pre hand tick drop : list Debt) : Prop :=
  lane_ok (out_lanes out) pol ((out_next out ≫= owner_prepaid) ++ pre)
    (agenda_hand (out_next out) ++ hand) ((out_next out ≫= owner_ticket) ++ tick)
    (drop ++ (out_dropped out).*1)
  ∧ next_ok out.

Lemma next_ok_done l r drops : next_ok (mkOut l [] r drops).
Proof. by constructor. Qed.

Lemma next_ok_single l i r drops :
  live_instr i = true →
  (∀ d, owner_lease i = Some d → entry (ledger l) d = Some true) →
  next_ok (mkOut l [i] r drops).
Proof. intros Hi Hl. constructor; simpl; [by constructor|done|]. intros ?? [= <-]. eauto. Qed.

Lemma step_ok_intro l next r drops pol pre hand tick drop :
  lane_ok l pol ((next ≫= owner_prepaid) ++ pre) (agenda_hand next ++ hand)
    ((next ≫= owner_ticket) ++ tick) (drop ++ drops.*1) →
  next_ok (mkOut l next r drops) →
  step_ok (mkOut l next r drops) pol pre hand tick drop.
Proof. by split. Qed.

(** The two common endings of a step: the call returns, or it goes on at one
    point. *)
Ltac next_tac :=
  first [ apply next_ok_done
        | apply next_ok_single; [done|intros ? [=]; subst; simpl; try done]
        | idtac ].

Ltac owner_step Hrun H :=
  unfold goto, return_ in Hrun; injection Hrun as <-;
  apply step_ok_intro; [unfold agenda_hand; simpl; by lane_step H|next_tac].

Lemma try_take_workflow_ok pt l out pol pre hand tick drop :
  try_take_workflow pt l = Some out →
  live_instr (ITryTakeWorkflow pt) = true →
  lane_ok l pol pre hand (owner_ticket (ITryTakeWorkflow pt) ++ tick) drop →
  step_ok out pol pre hand tick drop.
Proof.
  intros Hrun Hlive Hok. pose proof (ok_open _ _ _ _ _ _ Hok) as Hopen.
  destruct pt; simpl in *; try done.
  - destruct (workflow_take true l) as [o l1] eqn:Ht.
    apply workflow_take_delta in Ht as (Hq & _); [|done].
    pose proof (qd_open _ _ _ _ Hq).
    destruct o as [[a|e]|]; owner_step Hrun Hok.
  - destruct (lease_workflow_activation _ _ _) as [a t] eqn:Ha.
    assert (entry (ledger l) (WorkflowDebt (wa_run_id activation)) = Some false) as Hun
      by (by eapply ticket_unleased; [done|set_solver]).
    apply lease_workflow_entry in Ha as [-> Hu]; [|done].
    owner_step Hrun Hok.
Qed.


Lemma try_take_activity_ok pt l out pol pre hand tick drop :
  try_take_activity is_local_activity_task pt l = Some out →
  live_instr (ITryTakeActivity pt) = true →
  lane_ok l pol pre hand (owner_ticket (ITryTakeActivity pt) ++ tick) drop →
  step_ok out pol pre hand tick drop.
Proof.
  intros Hrun Hlive Hok. pose proof (ok_open _ _ _ _ _ _ Hok) as Hopen.
  destruct pt; simpl in *; try done.
  - destruct (activity_take true l) as [o l1] eqn:Ht.
    apply activity_take_delta in Ht as (Hq & _); [|done].
    pose proof (qd_open _ _ _ _ Hq).
    destruct o as [[a|e]|]; owner_step Hrun Hok.
  - unfold activity_task_debt, is_stale_activity_cancellation in *.
    destruct (is_cancel_variant task); simpl in *.
    + unfold ensure_activity_cancellation in Hrun.
      destruct (activities _ !! _); owner_step Hrun Hok.
    + destruct (lease_activity _ _) as [a t] eqn:Ha.
      assert (entry (ledger l) (ActivityDebt (at_task_token task)) = Some false) as Hun
        by (by eapply ticket_unleased; [done|set_solver]).
      apply handoff_start_entry in Ha as [-> Hu]; [|done].
      owner_step Hrun Hok.
Qed.

Lemma initiate_shutdown_ok pt l out pol pre hand tick drop :
  initiate_shutdown pt l = Some out →
  lane_ok l pol pre hand tick drop → step_ok out pol pre hand tick drop.
Proof.
  intros Hrun Hok. pose proof (ok_open _ _ _ _ _ _ Hok) as Hopen.
  destruct pt; simpl in *; try destruct (shutdown_started l); owner_step Hrun Hok.
Qed.

Lemma mark_natural_shutdown_ok l out pol pre hand tick drop :
  mark_natural_shutdown l = Some out →
  lane_ok l pol pre hand tick drop → step_ok out pol pre hand tick drop.
Proof.
  intros Hrun Hok. pose proof (ok_open _ _ _ _ _ _ Hok) as Hopen.
  unfold mark_natural_shutdown in Hrun.
  destruct (shutdown_started l); owner_step Hrun Hok.
Qed.

Lemma complete_workflow_with_ok input pt l out pol pre hand tick drop :
  complete_workflow_with input pt l = Some out →
  lane_ok l pol pre (owner_hand (ICompleteWorkflow pt) ++ hand) tick drop →
  step_ok out pol pre hand tick drop.
Proof.
  intros Hrun Hok. pose proof (ok_open _ _ _ _ _ _ Hok) as Hopen.
  destruct pt; simpl in *.
  - destruct (TaskLedger.complete_workflow _ _) as [[]] eqn:Ha;
      apply complete_workflow_entry in Ha; [destruct Ha as [He Hu]|];
      owner_step Hrun Hok.
  - destruct input as [|reply| |]; try done.
    destruct reply as [[]| |], wait; simpl in *; try done;
      owner_step Hrun Hok.
  - destruct (restore_rejected_workflow_completion _ _) as [b t] eqn:Hr.
    apply restore_workflow_entry in Hr.
    destruct b; [destruct Hr as [Hn Hu]|subst t];
      destruct was_eviction; simpl in Hrun; owner_step Hrun Hok.
Qed.

Lemma complete_activity_ok input pt l out pol pre hand tick drop :
  complete_activity input pt l = Some out →
  (∀ d, owner_lease (ICompleteActivity pt) = Some d → entry (ledger l) d = Some true) →
  lane_ok l pol (owner_prepaid (ICompleteActivity pt) ++ pre) hand tick drop →
  step_ok out pol pre hand tick drop.
Proof.
  intros Hrun Hlease Hok. pose proof (ok_open _ _ _ _ _ _ Hok) as Hopen.
  destruct pt; simpl in *.
  - destruct (ensure_activity_leased _ _) as [[]|] eqn:He; [|owner_step Hrun Hok].
    apply ensure_activity_leased_entry in He. owner_step Hrun Hok.
  - destruct input as [| |[]|]; try done; owner_step Hrun Hok; eauto.
  - destruct (TaskLedger.complete_activity _ _) as [a t] eqn:Ha.
    pose proof (Hlease _ eq_refl) as He.
    apply complete_activity_entry in Ha as [-> Hu]; [|done].
    owner_step Hrun Hok.
Qed.

Lemma record_activity_heartbeat_ok k l out pol pre hand tick drop :
  record_activity_heartbeat k l = Some out →
  lane_ok l pol pre hand tick drop → step_ok out pol pre hand tick drop.
Proof.
  intros Hrun Hok. pose proof (ok_open _ _ _ _ _ _ Hok) as Hopen.
  unfold record_activity_heartbeat in Hrun.
  destruct (ensure_activity_leased _ _); owner_step Hrun Hok.
Qed.

Lemma reject_workflow_ok input pt l out pol pre hand tick drop :
  reject_workflow_delivery_with input pt l = Some out →
  lane_ok l pol pre (owner_hand (IRejectWorkflow pt) ++ hand) tick drop →
  step_ok out pol pre hand tick drop.
Proof.
  intros Hrun Hok. pose proof (ok_open _ _ _ _ _ _ Hok) as Hopen.
  destruct pt; simpl in *.
  - unfold retire_rejected_workflow in Hrun.
    destruct (TaskLedger.complete_workflow _ _) as [[]] eqn:Ha;
      apply complete_workflow_entry in Ha; [destruct Ha as [He Hu]|];
      owner_step Hrun Hok.
  - destruct input as [|reply| |]; try done.
    destruct reply as [[]| |], wait; simpl in *; try done;
      owner_step Hrun Hok.
Qed.

Lemma reject_activity_ok input pt l out pol pre hand tick drop :
  reject_activity_delivery input pt l = Some out →
  (∀ d, owner_lease (IRejectActivity pt) = Some d → entry (ledger l) d = Some true) →
  lane_ok l pol (owner_prepaid (IRejectActivity pt) ++ pre) hand tick drop →
  step_ok out pol pre hand tick drop.
Proof.
  intros Hrun Hlease Hok. pose proof (ok_open _ _ _ _ _ _ Hok) as Hopen.
  destruct pt; simpl in *.
  - destruct (ensure_activity_leased _ _) as [[]|] eqn:He; [|owner_step Hrun Hok].
    apply ensure_activity_leased_entry in He. owner_step Hrun Hok.
  - destruct input as [| |reply|]; try done; owner_step Hrun Hok; eauto.
  - unfold retire_rejected_activity in Hrun.
    destruct (TaskLedger.complete_activity _ _) as [a t] eqn:Ha.
    pose proof (Hlease _ eq_refl) as He.
    apply complete_activity_entry in Ha as [-> Hu]; [|done].
    owner_step Hrun Hok.
Qed.

Lemma next_ok_pair l i j r drops :
  live_instr i = true → live_instr j = true → quiet j → owner_lease i = None →
  next_ok (mkOut l [i; j] r drops).
Proof.
  intros Hi Hj Hq Hl. constructor; simpl; [by rewrite !Forall_cons|by rewrite Forall_cons|].
  intros ?? [= <-]. by rewrite Hl.
Qed.

Lemma retire_queued_workflow_ok m l out pol pre hand tick drop :
  retire_queued_workflow m l = Some out →
  lane_ok l pol pre hand (workflow_message_ticket m ++ tick) drop →
  step_ok out pol pre hand tick drop.
Proof.
  intros Hrun Hok. pose proof (ok_open _ _ _ _ _ _ Hok) as Hopen.
  destruct m as [a|e]; simpl in *; [|owner_step Hrun Hok].
  assert (entry (ledger l) (WorkflowDebt (wa_run_id a)) = Some false) as Hun
    by (by eapply ticket_unleased; [done|set_solver]).
  pose proof (force_remove_workflow_entry (wa_run_id a) (ledger l)) as Hu.
  owner_step Hrun Hok.
Qed.

Lemma retire_queued_activity_ok m l out pol pre hand tick drop :
  retire_queued_activity m l = Some out →
  lane_ok l pol pre hand (activity_message_ticket m ++ tick) drop →
  step_ok out pol pre hand tick drop.
Proof.
  intros Hrun Hok. pose proof (ok_open _ _ _ _ _ _ Hok) as Hopen.
  destruct m as [task|e]; simpl in *; [|owner_step Hrun Hok].
  unfold activity_task_debt in Hok. destruct (is_cancel_variant task); simpl in *;
    [owner_step Hrun Hok|].
  assert (entry (ledger l) (ActivityDebt (at_task_token task)) = Some false) as Hun
    by (by eapply ticket_unleased; [done|set_solver]).
  pose proof (force_remove_activity_entry (at_task_token task) (ledger l)) as Hu.
  owner_step Hrun Hok.
Qed.

(** An agenda of completions for [debts] and of quiet points. *)
Record sends_only (next : list instr) (debts : list Debt) : Prop := {
  so_hand d : occurrences d (agenda_hand next) = occurrences d debts;
  so_live : Forall (λ i, live_instr i = true) next;
  so_quiet : Forall quiet next
}.

Lemma quiet_bind next :
  Forall quiet next → next ≫= owner_ticket = [] ∧ next ≫= owner_prepaid = [].
Proof.
  induction 1 as [|i next (Ht & Hp & _) _ [IHt IHp]]; [done|].
  by rewrite !bind_cons, Ht, Hp, IHt, IHp.
Qed.

Lemma sends_only_nil : sends_only [] [].
Proof. by constructor. Qed.

Lemma sends_only_cons i next debts debts' :
  quiet i → live_instr i = true → sends_only next debts →
  debts' = owner_hand i ++ debts → sends_only (i :: next) debts'.
Proof.
  intros Hq Hi [Hh Hl Hqs] ->. constructor; [|by constructor..].
  intros d. unfold agenda_hand. rewrite bind_cons. autorewrite with occ.
  by rewrite <-Hh.
Qed.

Lemma sends_only_app n1 d1 n2 d2 :
  sends_only n1 d1 → sends_only n2 d2 → sends_only (n1 ++ n2) (d1 ++ d2).
Proof.
  intros [H1 L1 Q1] [H2 L2 Q2]. constructor; [|by apply Forall_app..].
  intros d. unfold agenda_hand in *. rewrite bind_app. autorewrite with occ. congruence.
Qed.

Lemma sends_only_fmap {A} (f : A → instr) (g : A → Debt) l :
  (∀ a, quiet (f a) ∧ live_instr (f a) = true ∧ owner_hand (f a) = [g a]) →
  sends_only (f <$> l) (g <$> l).
Proof.
  intros Hf. induction l as [|a l IH]; [apply sends_only_nil|].
  destruct (Hf a) as (Hq & Hl & Hh). rewrite !fmap_cons.
  eapply sends_only_cons; [done..|]. by rewrite Hh.
Qed.

Lemma next_ok_sends l next r drops debts : sends_only next debts → next_ok (mkOut l next r drops).
Proof.
  intros [_ Hl Hq]. constructor; simpl; [done|by apply Forall_tail|].
  intros i d Hi. destruct next; simplify_eq/=.
  by apply Forall_cons in Hq as [(_ & _ & ->) _].
Qed.

Lemma retire_visible_ok pt l out pol pre hand tick drop :
  retire_visible_for_shutdown is_local_activity_task pt l = Some out →
  lane_ok l pol pre (owner_hand (IRetire pt) ++ hand) (owner_ticket (IRetire pt) ++ tick)
    drop →
  step_ok out pol pre hand tick drop.
Proof.
  intros Hrun Hok. pose proof (ok_open _ _ _ _ _ _ Hok) as Hopen.
  destruct pt; cbn [retire_visible_for_shutdown owner_hand owner_ticket] in *.
  - destruct (take_leased_for_shutdown (ledger l)) as [[ws ts] t] eqn:Ht.
    apply take_leased_entry in Ht as (Htk & Hent & _).
    unfold goto in Hrun. injection Hrun as <-.
    match goal with |- step_ok (mkOut _ ?next _ _) _ _ _ _ _ =>
      assert (sends_only next (taken_debts (ws, ts))) as Hs end.
    { unfold taken_debts; cbn [fst snd]. rewrite <-(app_nil_r (ActivityDebt <$> ts)).
      apply sends_only_app; [|apply sends_only_app].
      - rewrite <-list_fmap_compose. by apply sends_only_fmap.
      - by apply sends_only_fmap.
      - by eapply sends_only_cons; [..|apply sends_only_nil|]. }
    apply step_ok_intro; [|by eapply next_ok_sends].
    destruct (quiet_bind _ (so_quiet _ _ Hs)) as [-> ->].
    eapply (lane_ok_step _ _ _ _ _ _ _ _ _ _ _ _ Hok); [done|..]; intros d;
      autorewrite with occ; rewrite ?(so_hand _ _ Hs d), ?Htk; simpl;
      unfold owed, unleased, queued, settled, workflow_queue, activity_queue; simpl;
      rewrite Hent; destruct (entry (ledger l) d) as [[]|];
      repeat case_bool_decide; simplify_eq; simpl; lia.
  - owner_step Hrun Hok.
  - owner_step Hrun Hok.
  - destruct (workflow_take false l) as [o l1] eqn:Ht.
    apply workflow_take_delta in Ht as (Hq & _); [|done].
    pose proof (qd_open _ _ _ _ Hq).
    destruct o as [m|]; owner_step Hrun Hok. by apply next_ok_pair.
  - destruct (activity_take false l) as [o l1] eqn:Ht.
    apply activity_take_delta in Ht as (Hq & _); [|done].
    pose proof (qd_open _ _ _ _ Hq).
    destruct o as [m|]; owner_step Hrun Hok. by apply next_ok_pair.
  - by eapply retire_queued_workflow_ok.
  - by eapply retire_queued_activity_ok.
Qed.

Lemma drain_and_join_ok status input pt l out pol pre hand tick drop :
  drain_and_join status input pt l = Some out →
  lane_ok l pol pre hand (owner_ticket (IDrain pt) ++ tick) drop →
  step_ok out pol pre hand tick drop.
Proof.
  intros Hrun Hok. pose proof (ok_open _ _ _ _ _ _ Hok) as Hopen.
  destruct pt; simpl in *.
  - destruct (workflow_lane l || activity_lane l); owner_step Hrun Hok;
      by apply next_ok_pair.
  - destruct input as [| | |[]]; try done.
    + destruct (_ && _); [owner_step Hrun Hok|done].
    + destruct (_ && _); [owner_step Hrun Hok|done].
    + destruct (workflow_queue_open _); [|done].
      destruct (take_async_recv _) as [[o r']|] eqn:Hr; [|done].
      pose proof (workflow_async_delta l o r' Hr Hopen) as Hq.
      pose proof (qd_open _ _ _ _ Hq).
      destruct o; owner_step Hrun Hok.
    + destruct (activity_queue_open _); [|done].
      destruct (take_async_recv _) as [[o r']|] eqn:Hr; [|done].
      pose proof (activity_async_delta l o r' Hr Hopen) as Hq.
      pose proof (qd_open _ _ _ _ Hq).
      destruct o; owner_step Hrun Hok.
  - owner_step Hrun Hok. by apply next_ok_pair.
  - owner_step Hrun Hok. by apply next_ok_pair.
  - owner_step Hrun Hok.
Qed.

Lemma fmap_fst_const {A B} (b : B) (l : list A) : ((λ a, (a, b)) <$> l).*1 = l.
Proof. apply (fmap_fst_tag (λ _, b)). Qed.

Lemma drain_timed_out_ok interrupted l out pol pre hand tick drop :
  drain_timed_out interrupted l = Some out →
  lane_ok l pol pre (interrupted ++ hand) tick drop →
  step_ok out pol pre hand tick drop.
Proof.
  intros Hrun Hok. pose proof (ok_open _ _ _ _ _ _ Hok) as Hopen.
  unfold drain_timed_out in Hrun. injection Hrun as <-.
  apply step_ok_intro; [|next_tac]. rewrite fmap_fst_const. by lane_step Hok.
Qed.

Lemma join_poll_lanes_ok status input pt l out pol pre hand tick drop :
  join_poll_lanes status input pt l = Some out →
  lane_ok l pol pre hand tick drop → step_ok out pol pre hand tick drop.
Proof.
  intros Hrun Hok. pose proof (ok_open _ _ _ _ _ _ Hok) as Hopen.
  destruct pt; simpl in *; [..|owner_step Hrun Hok];
    (case_match; [|owner_step Hrun Hok]);
    destruct input as [| | |[]]; try done; (case_match; [|done]);
    owner_step Hrun Hok.
Qed.

Lemma join_replay_ok status input pt l out pol pre hand tick drop :
  join_replay_poll_lane status input pt l = Some out →
  lane_ok l pol pre (owner_hand (IReplayJoin pt) ++ hand)
    (owner_ticket (IReplayJoin pt) ++ tick) drop →
  step_ok out pol pre hand tick drop.
Proof.
  intros Hrun Hok. pose proof (ok_open _ _ _ _ _ _ Hok) as Hopen.
  destruct pt; simpl in *.
  - destruct (workflow_lane l); owner_step Hrun Hok.
  - destruct input as [| | |[]]; try done.
    + case_match; [owner_step Hrun Hok|done].
    + destruct (take_async_recv _) as [[o r']|] eqn:Hr; [|done].
      pose proof (workflow_async_delta l o r' Hr Hopen) as Hq.
      pose proof (qd_open _ _ _ _ Hq).
      destruct o; owner_step Hrun Hok.
  - destruct message; owner_step Hrun Hok.
  - assert (entry (ledger l) (WorkflowDebt run_id) = Some false) as Hun
      by (by eapply ticket_unleased; [done|set_solver]).
    pose proof (force_remove_workflow_entry run_id (ledger l)) as Hu.
    owner_step Hrun Hok.
  - owner_step Hrun Hok.
  - injection Hrun as <-. apply step_ok_intro; [|next_tac].
    rewrite fmap_fst_const. by lane_step Hok.
  - destruct outcome; owner_step Hrun Hok.
Qed.

Lemma finalize_ok status l out pol pre hand tick drop :
  finalize status l = Some out →
  lane_ok l pol pre hand tick drop → step_ok out pol pre hand tick drop.
Proof.
  intros Hrun Hok. pose proof (ok_open _ _ _ _ _ _ Hok) as Hopen.
  unfold finalize in Hrun. repeat case_match; owner_step Hrun Hok.
Qed.

(** Every live step of the owner preserves the invariant. *)
Lemma owner_exec_ok status input i l out pol pre hand tick drop :
  owner_exec is_local_activity_task status input i l = Some out →
  live_instr i = true →
  (∀ d, owner_lease i = Some d → entry (ledger l) d = Some true) →
  lane_ok l pol (owner_prepaid i ++ pre) (owner_hand i ++ hand) (owner_ticket i ++ tick)
    drop →
  step_ok out pol pre hand tick drop.
Proof.
  destruct i; cbn [owner_exec]; intros Hrun Hlive Hlease Hok; try done.
  - eapply try_take_workflow_ok; [done..|]. by destruct pt.
  - eapply try_take_activity_ok; [done..|]. by destruct pt.
  - by eapply initiate_shutdown_ok.
  - by eapply mark_natural_shutdown_ok.
  - by eapply complete_workflow_with_ok.
  - by eapply complete_activity_ok.
  - by eapply record_activity_heartbeat_ok.
  - by eapply reject_workflow_ok.
  - by eapply reject_activity_ok.
  - by eapply retire_visible_ok.
  - by eapply drain_and_join_ok.
  - by eapply drain_timed_out_ok.
  - by eapply join_poll_lanes_ok.
  - by eapply join_replay_ok.
  - by eapply finalize_ok.
Qed.

(** ** The drain blocker

    A step never clears [lost_poll_lease], and sets it when it drops a debt on
    the floor. *)

Definition drops_flagged (out : Out C) (i : instr) : Prop :=
  Forall (λ x : Debt * DropReason,
    (x.2 = DropMarkedLost → lost_poll_lease (ledger (out_lanes out)) = true) ∧
    (x.2 = DropReplayTimedOut → ∃ ds, i = IReplayJoin (RjAbort ds))) (out_dropped out).

Lemma workflow_take_ledger rf (l : PollLanes C) o l' :
  workflow_take rf l = (o, l') → ledger l' = ledger l.
Proof. unfold workflow_take. destruct (take_inner _ _ _) as [[]]. by intros [= <- <-]. Qed.

Lemma activity_take_ledger rf (l : PollLanes C) o l' :
  activity_take rf l = (o, l') → ledger l' = ledger l.
Proof. unfold activity_take. destruct (take_inner _ _ _) as [[]]. by intros [= <- <-]. Qed.

(** The ledger methods of a live execution: no disposal pass, and the drain
    blocker only where [mark] says so. *)
Definition live_op (mark : bool) (op : LedgerOp) : bool :=
  match op with
  | OpRetireWorkflow _ | OpRetireActivity _ | OpTakeAll | OpTakeAllForReplay => false
  | OpMarkLost => mark
  | _ => true
  end.

Definition reached_by_ops (mark : bool) (t t' : TaskLedger) : Prop :=
  ∃ ops, t' = run_ops ops t ∧ Forall (λ op, live_op mark op = true) ops.

Definition marks_lost (i : instr) : bool :=
  match i with IDrainTimedOut _ => true | _ => false end.

Definition workflow_pc_marks (pc : WorkflowLanePoint) : bool :=
  match pc with WlMarkLost _ _ => true | _ => false end.

Definition activity_pc_marks (pc : ActivityLanePoint) : bool :=
  match pc with AlMarkLost _ _ => true | _ => false end.

Lemma reached_refl mark t : reached_by_ops mark t t.
Proof. by exists []. Qed.

Lemma reached_trans mark t1 t2 t3 :
  reached_by_ops mark t1 t2 → reached_by_ops mark t2 t3 → reached_by_ops mark t1 t3.
Proof.
  intros (o1 & -> & H1) (o2 & -> & H2). exists (o1 ++ o2).
  split; [by unfold run_ops; rewrite foldl_app|by apply Forall_app].
Qed.

Lemma reached_by mark t op t' :
  apply_op op t = t' → live_op mark op = true → reached_by_ops mark t t'.
Proof. intros <- Hop. exists [op]. split; [done|]. by apply Forall_singleton. Qed.

Lemma reached_lost t t' :
  reached_by_ops false t t' → lost_poll_lease t' = lost_poll_lease t.
Proof.
  intros (ops & -> & Hops). revert t. induction Hops as [|op ops Hop _ IH]; intros t; [done|].
  unfold run_ops in *. cbn [foldl]. rewrite IH. clear IH. apply apply_op_lost_same. by destruct op.
Qed.

Ltac by_op op := eapply (reached_by _ _ op); [simpl; try done|done].

Ltac solve_ledger_ops :=
  match goal with
  | H : workflow_take _ _ = (_, ?l) |- context [ledger ?l] =>
      rewrite (workflow_take_ledger _ _ _ _ H); clear H; solve_ledger_ops
  | H : activity_take _ _ = (_, ?l) |- context [ledger ?l] =>
      rewrite (activity_take_ledger _ _ _ _ H); clear H; solve_ledger_ops
  | |- reached_by_ops _ (ledger ?l) (ledger ?l) => apply reached_refl
  | H : lease_workflow_activation ?r ?e _ = (_, ?t) |- reached_by_ops _ _ ?t =>
      by_op (OpLeaseActivation r e); by rewrite H
  | H : lease_activity ?k _ = (_, ?t) |- reached_by_ops _ _ ?t =>
      by_op (OpLeaseActivity k); by rewrite H
  | H : TaskLedger.complete_workflow ?r _ = (_, ?t) |- reached_by_ops _ _ ?t =>
      by_op (OpCompleteWorkflow r); by rewrite H
  | H : TaskLedger.complete_activity ?k _ = (_, ?t) |- reached_by_ops _ _ ?t =>
      by_op (OpCompleteActivity k); by rewrite H
  | H : take_leased_for_shutdown _ = (_, ?t) |- reached_by_ops _ _ ?t =>
      by_op OpTakeLeased; by rewrite H
  | |- reached_by_ops _ _ (restore_eviction_lease ?r ?t) =>
      eapply (reached_trans _ _ t); [solve_ledger_ops|by_op (OpRestoreEviction r)]
  | H : restore_rejected_workflow_completion ?r _ = (_, ?t) |- reached_by_ops _ _ ?t =>
      by_op (OpRestoreWorkflow r); by rewrite H
  | |- reached_by_ops _ _ (begin_draining _) => by_op OpBeginDraining
  | |- reached_by_ops _ _ (clear_dispose_retired _) => by_op OpClearRetired
  | |- reached_by_ops _ _ (mark_lost_poll_lease _) => by_op OpMarkLost
  | |- reached_by_ops _ _ (force_remove_workflow ?r _) => by_op (OpForceRemoveWorkflow r)
  | |- reached_by_ops _ _ (force_remove_activity ?k _) => by_op (OpForceRemoveActivity k)
  end.

(** The owner touches the ledger only through its methods. *)
Lemma owner_exec_ledger_ops status input i l out :
  owner_exec is_local_activity_task status input i l = Some out →
  live_instr i = true →
  reached_by_ops (marks_lost i) (ledger l) (ledger (out_lanes out)).
Proof. intros Hrun Hlive. owner_cases i Hrun; solve_ledger_ops. Qed.

Lemma owner_exec_drops status input i l out :
  owner_exec is_local_activity_task status input i l = Some out →
  live_instr i = true → drops_flagged out i.
Proof.
  intros Hrun Hlive. unfold drops_flagged.
  owner_cases i Hrun; try done.
  - by apply Forall_cons_2.
  - apply Forall_fmap, Forall_true. done.
  - apply Forall_fmap, Forall_true. intros d. simpl. split; [done|by eauto].
Qed.

(** No step schedules a finalization or the elapsed branch of the replay join:
    only a call or the timer does. *)
Definition plain (i : instr) : bool :=
  match i with IFinalize | IReplayJoin (RjAbort _) => false | _ => true end.

Lemma owner_exec_plain status input i l out :
  owner_exec is_local_activity_task status input i l = Some out →
  live_instr i = true → Forall (λ j, plain j = true) (out_next out).
Proof.
  intros Hrun Hlive.
  owner_cases i Hrun; try (by repeat apply Forall_cons_2).
  rewrite !Forall_app, !Forall_fmap. split_and!; [by apply Forall_true..|].
  by apply Forall_singleton.
Qed.

Lemma owner_exec_finalized status input i l out :
  owner_exec is_local_activity_task status input i l = Some out →
  live_instr i = true → finalized (out_result out) = true →
  i = IFinalize ∧ out_next out = [] ∧ workflow_done status = true ∧
  activity_done status = true ∧ outstanding (ledger (out_lanes out)) = 0 ∧
  lost_poll_lease (ledger (out_lanes out)) = false.
Proof.
  intros Hrun Hlive Hfin.
  owner_cases i Hrun; try done.
  match goal with
  | H1 : negb _ = false, H2 : _ && _ = true |- _ =>
      apply negb_false_iff, Nat.eqb_eq in H1; apply andb_prop in H2 as [??]
  end.
  by split_and!.
Qed.

Lemma workflow_lane_ledger_ops poll pc (l : PollLanes C) l' pc' lost :
  run_workflow_lane poll pc l = (l', pc', lost) →
  reached_by_ops (workflow_pc_marks pc) (ledger l) (ledger l').
Proof.
  intros Hrun.
  destruct pc; simpl in Hrun;
    try (unfold workflow_enqueue in Hrun; destruct (enqueue _ _ _) as [[[] r'] g']);
    try (by injection Hrun as <- <- <-; apply reached_refl).
  - destruct poll; simplify_eq/=; apply reached_refl.
  - destruct (admit_polled_workflow_activation _ _ _) as [a t] eqn:Ha.
    assert (ledger l' = t) as -> by (by repeat case_match; simplify_eq/=).
    by_op (OpAdmitPolledActivation (wa_run_id activation) (wa_is_only_eviction activation)).
    by rewrite Ha.
  - simplify_eq/=. by_op (OpAbandonWorkflow run_id).
  - simplify_eq/=. by_op OpMarkLost.
Qed.

Lemma activity_lane_ledger_ops poll pc (l : PollLanes C) l' pc' lost :
  run_activity_lane is_local_activity_task poll pc l = (l', pc', lost) →
  reached_by_ops (activity_pc_marks pc) (ledger l) (ledger l').
Proof.
  intros Hrun.
  destruct pc; simpl in Hrun;
    try (unfold activity_enqueue in Hrun; destruct (enqueue _ _ _) as [[[] r'] g']);
    try (by injection Hrun as <- <- <-; apply reached_refl).
  - repeat case_match; simplify_eq/=; apply reached_refl.
  - destruct (admit_polled_activity _ _ _) as [a t] eqn:Ha.
    assert (ledger l' = t) as -> by (by repeat case_match; simplify_eq/=).
    by_op (OpAdmitPolledActivity (at_task_token task) kind). by rewrite Ha.
  - case_bool_decide; injection Hrun as <- <- <-; apply reached_refl.
  - simplify_eq/=. by_op (OpAbandonActivity task_token).
  - simplify_eq/=. by_op OpMarkLost.
Qed.

Lemma run_ops_lost ops t :
  lost_poll_lease t = true → lost_poll_lease (run_ops ops t) = true.
Proof.
  revert t. induction ops as [|op ops IH]; intros t Ht; [done|].
  by apply IH, apply_op_lost.
Qed.

End Owner.
