(* ===== verification/LaneTheorems.v ===== *)
(** * What the poll lanes guarantee

    The invariant of the three threads together, by induction on schedules,
    and the theorems about them: completions are exactly-once, a finalized
    worker owes nothing, a successful drain leaves an empty ledger, and the
    disposal race that completes a task twice. *)

From S2P Require Import Prelude.
From S2P Require Import TaskLedger.
From S2P Require Import Readiness.
From S2P Require Import PollLanes.
From S2P Require Import LaneDebts.
From S2P Require Import LaneSafety.
From S2P Require Import OwnerSafety.

Section Worlds.
Context {C : Type → Type} `{!Mpsc C} `{!MpscLaws C}.
Variable is_local_activity_task : list byte → bool.

Definition all_hands (w : World C) : list Debt :=
  workflow_lane_hand (workflow_pc w) ++ activity_lane_hand (activity_pc w)
  ++ agenda_hand (agenda w).

Definition all_tickets (w : World C) : list Debt :=
  workflow_lane_ticket (workflow_pc w) ++ activity_lane_ticket (activity_pc w)
  ++ (agenda w ≫= owner_ticket).

Definition prepaid (w : World C) : list Debt := agenda w ≫= owner_prepaid.

(** The reasons for which a debt may be given up, and their traces. *)
Definition drop_explained (w : World C) (x : Debt * DropReason) : Prop :=
  match x.2 with
  | DropMarkedLost => lost_poll_lease (ledger (lanes w)) = true
  | DropReplayTimedOut => abort_requested w = true
  | DropRestoreConflict => True
  end.

Record agenda_ok (w : World C) : Prop := {
  ag_live : Forall (λ i, live_instr i = true) (agenda w);
  ag_quiet : Forall quiet (tail (agenda w));
  ag_lease i d : head (agenda w) = Some i → owner_lease i = Some d →
    entry (ledger (lanes w)) d = Some true;
  ag_abort ds : IReplayJoin (RjAbort ds) ∈ agenda w → abort_requested w = true;
  ag_finalize : IFinalize ∈ agenda w → agenda w = [IFinalize]
}.

Record world_ok (w : World C) : Prop := {
  wo_lanes : lane_ok (lanes w) (polled w) (prepaid w) (all_hands w) (all_tickets w)
    (dropped w).*1;
  wo_agenda : agenda_ok w;
  wo_activity : activity_pc_ok (activity_pc w);
  wo_drops : Forall (drop_explained w) (dropped w);
  wo_consumed : owner_consumed w = true →
    agenda w = [] ∧ workflow_pc w = WlDone ∧ activity_pc w = AlDone ∧
    outstanding (ledger (lanes w)) = 0 ∧ lost_poll_lease (ledger (lanes w)) = false
}.

(** The counts are all that matters. *)
Lemma lane_ok_counts (l : PollLanes C) pol pre hand tick drop pol' pre' hand' tick' drop' :
  lane_ok l pol pre hand tick drop →
  (∀ d, occurrences d pol' = occurrences d pol ∧ occurrences d pre' = occurrences d pre ∧
        occurrences d hand' = occurrences d hand ∧
        occurrences d tick' = occurrences d tick ∧
        occurrences d drop' = occurrences d drop) →
  lane_ok l pol' pre' hand' tick' drop'.
Proof.
  intros Hok Hc. eapply (lane_ok_step _ _ _ _ _ _ _ _ _ _ _ _ Hok); [by apply Hok|..];
    intros d; destruct (Hc d) as (?&?&?&?&?); lia.
Qed.

Ltac same_counts :=
  intros ?; rewrite ?fmap_app; autorewrite with occ; split_and!; try lia.

Lemma lane_ok_close_workflow (l : PollLanes C) pol pre hand tick drop :
  lane_ok l pol pre hand tick drop →
  lane_ok (drop_workflow_sender (workflow_signal_map close l)) pol pre hand tick drop.
Proof. intros Hok. apply lane_ok_drop_workflow. lane_step Hok. by apply Hok. Qed.

Lemma lane_ok_close_activity (l : PollLanes C) pol pre hand tick drop :
  lane_ok l pol pre hand tick drop →
  lane_ok (drop_activity_sender (activity_signal_map close l)) pol pre hand tick drop.
Proof. intros Hok. apply lane_ok_drop_activity. lane_step Hok. by apply Hok. Qed.

Lemma world_init_ok sw sa ca : world_ok (world_init sw sa ca).
Proof.
  destruct (mpsc_new_spec (ReadyTask WorkflowActivation)) as (Hw & Hwo & _).
  destruct (mpsc_new_spec (ReadyTask ActivityTask)) as (Ha & Hao & _).
  assert (lane_ok (mkPollLanes (C := C) TaskLedger_new readiness_sharing readiness_sharing 0
    sw sa false false DrainLocals_init []) [] [] [] [] []) as Hok.
  { split; [..|done]; intros [r|k]; unfold queued, workflow_queue, activity_queue, owed,
      unleased, entry; simpl; rewrite ?Hw, ?Ha, ?lookup_empty; done. }
  pose proof (ok_open _ _ _ _ _ _ Hok) as Hopen.
  split; [|by split; try set_solver|by destruct sa|done|done].
  assert (lane_ok (lanes (world_init (C := C) sw sa ca)) [] [] [] [] []).
  { unfold world_init, start_lanes; cbn [lanes].
    destruct sw, sa, ca; auto using lane_ok_close_workflow, lane_ok_close_activity. }
  by destruct sw, sa.
Qed.

(** Explained drops stay explained. *)
Lemma drops_keep w w' :
  Forall (drop_explained w) (dropped w) →
  (lost_poll_lease (ledger (lanes w)) = true →
   lost_poll_lease (ledger (lanes w')) = true) →
  (abort_requested w = true → abort_requested w' = true) →
  Forall (drop_explained w') (dropped w).
Proof.
  intros Hd Hl Ha. eapply Forall_impl; [done|].
  intros [d []]; unfold drop_explained; simpl; auto.
Qed.

Lemma drops_marked w' (lost : list (Debt * DropReason)) :
  Forall (λ x, x.2 = DropMarkedLost ∧ lost_poll_lease (ledger (lanes w')) = true) lost →
  Forall (drop_explained w') lost.
Proof.
  intros Hl. eapply Forall_impl; [done|]. intros [d r] [Hr ?].
  unfold drop_explained. by rewrite Hr.
Qed.

(** The events of the two lanes, in one shape for every program point. *)
Lemma workflow_event_inv poll w w' :
  world_step is_local_activity_task (EvWorkflowLane poll) w = Some w' →
  workflow_pc w ≠ WlDone ∧
  ∃ l pc' lost, run_workflow_lane poll (workflow_pc w) (lanes w) = (l, pc', lost) ∧
    w' = mkWorld l pc' (activity_pc w) (agenda w) (abort_requested w)
      (owner_consumed w) (results w)
      (polled w ++ match workflow_pc w with WlPoll => poll_debt (inl poll) | _ => [] end)
      (dropped w ++ lost).
Proof.
  cbn [world_step]. generalize (workflow_pc w). intros pc Hstep.
  destruct (run_workflow_lane poll pc (lanes w)) as [[l pc'] lost] eqn:Hrun.
  split; [by destruct pc|]. exists l, pc', lost.
  split; [done|]. by destruct pc; rewrite ?Hrun in Hstep; simplify_eq.
Qed.

Lemma activity_event_inv poll w w' :
  world_step is_local_activity_task (EvActivityLane poll) w = Some w' →
  activity_pc w ≠ AlDone ∧
  ∃ l pc' lost,
    run_activity_lane is_local_activity_task poll (activity_pc w) (lanes w)
      = (l, pc', lost) ∧
    w' = mkWorld l (workflow_pc w) pc' (agenda w) (abort_requested w)
      (owner_consumed w) (results w)
      (polled w ++ match activity_pc w with AlPoll => poll_debt (inr poll) | _ => [] end)
      (dropped w ++ lost).
Proof.
  cbn [world_step]. generalize (activity_pc w). intros pc Hstep.
  destruct (run_activity_lane is_local_activity_task poll pc (lanes w))
    as [[l pc'] lost] eqn:Hrun.
  split; [by destruct pc|]. exists l, pc', lost.
  split; [done|]. by destruct pc; rewrite ?Hrun in Hstep; simplify_eq.
Qed.

Lemma workflow_event_ok poll w w' :
  world_step is_local_activity_task (EvWorkflowLane poll) w = Some w' →
  world_ok w → world_ok w'.
Proof.
  intros Hstep [Hl Hag Hac Hdr Hco].
  apply workflow_event_inv in Hstep as (Hnd & l & pc' & lost & Hrun & ->).
  destruct (workflow_lane_steady _ _ _ _ _ _ Hrun) as [[Hst Hst'] Hlost].
  eapply workflow_lane_ok in Hrun; [|done].
  split; cbn [lanes polled agenda dropped owner_consumed activity_pc]; try done.
  - rewrite fmap_app. done.
  - destruct Hag. split; try done. intros i d Hi Hd. eauto.
  - apply Forall_app. split; [by eapply drops_keep|by apply drops_marked].
  - intros Hc. by destruct (Hco Hc) as (_ & ? & _).
Qed.

Lemma activity_event_ok poll w w' :
  world_step is_local_activity_task (EvActivityLane poll) w = Some w' →
  world_ok w → world_ok w'.
Proof.
  intros Hstep [Hl Hag Hac Hdr Hco].
  apply activity_event_inv in Hstep as (Hnd & l & pc' & lost & Hrun & ->).
  destruct (activity_lane_steady _ _ _ _ _ _ _ Hrun) as [[Hst Hst'] Hlost].
  eapply activity_lane_ok in Hrun as [Hok Hpc]; [|done|].
  2: { eapply (lane_ok_counts _ _ _ _ _ _ _ _
         (activity_lane_hand (activity_pc w) ++ workflow_lane_hand (workflow_pc w)
          ++ agenda_hand (agenda w))
         (activity_lane_ticket (activity_pc w) ++ workflow_lane_ticket (workflow_pc w)
          ++ (agenda w ≫= owner_ticket)) _ Hl).
       unfold all_hands, all_tickets. by same_counts. }
  split; cbn [lanes polled agenda dropped owner_consumed activity_pc]; try done.
  - eapply (lane_ok_counts _ _ _ _ _ _ _ _ _ _ _ Hok).
    unfold all_hands, all_tickets, prepaid; cbn [workflow_pc activity_pc agenda].
    by same_counts.
  - destruct Hag. split; try done. intros i d Hi Hd. eauto.
  - apply Forall_app. split; [by eapply drops_keep|by apply drops_marked].
  - intros Hc. by destruct (Hco Hc) as (_ & _ & ? & _).
Qed.

Lemma call_event_ok call w w' :
  world_step is_local_activity_task (EvCall call) w = Some w' →
  live_call call = true → world_ok w → world_ok w'.
Proof.
  intros Hstep Hlive [Hl Hag Hac Hdr Hco]. simpl in Hstep.
  unfold all_hands, all_tickets, prepaid in Hl.
  destruct (agenda w) eqn:Ha; [|done]. destruct (owner_consumed w) eqn:Hc; [done|].
  injection Hstep as <-. simpl in Hl.
  assert (live_instr (entry_point call) = true ∧ quiet (entry_point call) ∧
    owner_hand (entry_point call) = [] ∧
    (∀ ds, entry_point call ≠ IReplayJoin (RjAbort ds))) as (Hi & Hq & Hh & Hr)
    by (by destruct call).
  set (l' := match call with
             | CallDrainAndJoin => with_drain DrainLocals_init (lanes w)
             | _ => lanes w end).
  assert (ledger l' = ledger (lanes w)) as Hled by by destruct call.
  assert (lane_ok l' (polled w) [] (workflow_lane_hand (workflow_pc w)
      ++ activity_lane_hand (activity_pc w) ++ [])
    (workflow_lane_ticket (workflow_pc w) ++ activity_lane_ticket (activity_pc w) ++ [])
    (dropped w).*1) as Hl'.
  { destruct call; try done. lane_step Hl. by apply Hl. }
  destruct Hq as (Hqt & Hqp & Hql). clearbody l'. split; cbn [lanes polled dropped].
  - unfold prepaid, all_hands, all_tickets, agenda_hand; simpl. by rewrite Hqt, Hqp, Hh.
  - split; simpl; [by apply Forall_singleton|done|..].
    + intros i d [= <-]. by rewrite Hql.
    + intros ds Hds%list_elem_of_singleton. by destruct (Hr ds).
    + by intros <-%list_elem_of_singleton.
  - done.
  - eapply drops_keep; [done|..]; simpl; [by rewrite Hled|done].
  - done.
Qed.

Lemma owner_event_ok input w w' :
  world_step is_local_activity_task (EvOwner input) w = Some w' →
  world_ok w → world_ok w'.
Proof.
  intros Hstep [Hl [Hlv Hqt Hls Hab Hfi] Hac Hdr Hco]. simpl in Hstep.
  unfold all_hands, all_tickets, prepaid in Hl.
  destruct (agenda w) as [|i rest] eqn:Ha; [done|].
  destruct (owner_exec _ _ _ _ _) as [out|] eqn:Hrun; [|done]. injection Hstep as <-.
  apply Forall_cons in Hlv as [Hi Hrest]. simpl in Hqt.
  destruct (owner_exec_ledger_ops _ _ _ _ _ _ Hrun Hi) as (ops & Hops & _).
  pose proof (owner_exec_drops _ _ _ _ _ _ Hrun Hi) as Hdf.
  pose proof (owner_exec_plain _ _ _ _ _ _ Hrun Hi) as Hpl.
  pose proof (owner_exec_finalized _ _ _ _ _ _ Hrun Hi) as Hfin.
  rewrite Forall_forall in Hpl.
  destruct (quiet_bind rest Hqt) as [Hrt Hrp].
  eapply (owner_exec_ok _ _ _ _ _ _ (polled w) []
    (workflow_lane_hand (workflow_pc w) ++ activity_lane_hand (activity_pc w)
     ++ agenda_hand rest)
    (workflow_lane_ticket (workflow_pc w) ++ activity_lane_ticket (activity_pc w))
    (dropped w).*1) in Hrun as [Hok [Hnl Hnq Hne]];
    [|done|by eauto|].
  2: { eapply (lane_ok_counts _ _ _ _ _ _ _ _ _ _ _ Hl).
       unfold agenda_hand. rewrite !bind_cons, Hrt, Hrp. by same_counts. }
  split; cbn [lanes polled agenda dropped owner_consumed workflow_pc activity_pc].
  - eapply (lane_ok_counts _ _ _ _ _ _ _ _ _ _ _ Hok).
    unfold all_hands, all_tickets, prepaid, agenda_hand; cbn [workflow_pc activity_pc agenda].
    rewrite !bind_app, Hrt, Hrp, fmap_app. by same_counts.
  - split; cbn [agenda lanes abort_requested].
    + by apply Forall_app.
    + destruct (out_next out); simpl in *; [by apply Forall_tail|by apply Forall_app].
    + intros j d Hj Hd. destruct (out_next out) as [|j' next] eqn:Hn; [|by eauto].
      destruct rest as [|j' rest]; simplify_eq/=.
      by apply Forall_cons in Hqt as [(_ & _ & Hno) _]; rewrite Hno in Hd.
    + intros ds [Hds%Hpl|Hds]%elem_of_app; [done|]. apply (Hab ds). set_solver.
    + intros [Hf%Hpl|Hf]%elem_of_app; [done|].
      assert (i :: rest = [IFinalize]) as [= -> ->] by (apply Hfi; set_solver).
      by apply elem_of_nil in Hf.
  - done.
  - apply Forall_app. split.
    + eapply drops_keep; [done|..]; cbn [lanes abort_requested]; [|done].
      rewrite Hops. apply run_ops_lost.
    + eapply Forall_impl; [done|]. intros [d []] [Hm Hr]; unfold drop_explained; simpl in *;
        [by apply Hm|done|]. destruct (Hr eq_refl) as [ds ->]. apply (Hab ds). set_solver.
  - intros [Hc|Hc]%orb_true_iff.
    { by destruct (Hco Hc). }
    destruct (Hfin Hc) as (-> & Hnx & Hwd & Had & Hout & Hlo). rewrite Hnx.
    assert (IFinalize :: rest = [IFinalize]) as [= ->] by (apply Hfi; set_solver).
    unfold lane_status in Hwd, Had. simpl in Hwd, Had.
    split_and!; try done; [by destruct (workflow_pc w)|by destruct (activity_pc w)].
Qed.

(** A timer replaces the whole agenda by one point that holds the interrupted
    completions. *)
Lemma timer_ok w i rest j abort :
  agenda w = i :: rest → owner_ticket i = [] → owner_prepaid i = [] →
  owner_hand j = agenda_hand (agenda w) → quiet j → live_instr j = true →
  j ≠ IFinalize →
  (abort_requested w = true → abort = true) →
  (∀ ds, j = IReplayJoin (RjAbort ds) → abort = true) →
  world_ok w →
  world_ok (mkWorld (lanes w) (workflow_pc w) (activity_pc w) [j] abort
              (owner_consumed w) (results w) (polled w) (dropped w)).
Proof.
  intros Ha Hit Hip Hh (Hjt & Hjp & Hjl) Hlv Hnf Hab Hds [Hl Hag Hac Hdr Hco].
  destruct (quiet_bind rest) as [Hrt Hrp].
  { pose proof (ag_quiet _ Hag) as Hq. by rewrite Ha in Hq. }
  split; cbn [lanes polled dropped activity_pc]; try done.
  - eapply (lane_ok_counts _ _ _ _ _ _ _ _ _ _ _ Hl).
    unfold all_hands, all_tickets, prepaid; cbn [workflow_pc activity_pc agenda].
    unfold agenda_hand at 1; rewrite Ha, !bind_cons, Hit, Hip, Hrt, Hrp, Hjt, Hjp, Hh, Ha.
    simpl. by same_counts.
  - split; cbn [agenda]; [by apply Forall_singleton|done|..].
    + intros ? d [= <-]. by rewrite Hjl.
    + intros ds Hj%list_elem_of_singleton. by apply (Hds ds).
    + by intros Hj%list_elem_of_singleton.
  - by eapply drops_keep.
  - intros Hc. destruct (Hco Hc) as (Hn & _). by rewrite Ha in Hn.
Qed.

Lemma abort_event_ok w w' :
  world_step is_local_activity_task EvLaneAborted w = Some w' → world_ok w → world_ok w'.
Proof.
  intros Hstep [Hl Hag Hac Hdr Hco]. simpl in Hstep.
  destruct (abort_requested w) eqn:Hab; [|done].
  destruct (workflow_lane_await (workflow_pc w)) eqn:Haw; [|done].
  injection Hstep as <-.
  assert (workflow_lane_ticket (workflow_pc w) = []) as Ht by by destruct (workflow_pc w).
  split; cbn [lanes polled dropped activity_pc owner_consumed agenda workflow_pc]; try done.
  - apply lane_ok_drop_workflow.
    unfold all_hands, all_tickets, prepaid; cbn [workflow_pc activity_pc agenda].
    eapply (lane_ok_step _ _ _ _ _ _ _ _ _ _ _ _ Hl); [by apply Hl|..];
      intros d; unfold all_hands, all_tickets, prepaid; rewrite ?fmap_app, ?fmap_fst_const;
      rewrite ?Ht; autorewrite with occ; simpl; lia.
  - destruct Hag. by split.
  - apply Forall_app. split; [by eapply drops_keep|].
    apply Forall_fmap, Forall_true. done.
  - intros Hc. destruct (Hco Hc) as (_ & Hw & _). by rewrite Hw in Haw.
Qed.

Lemma world_step_ok ev w w' :
  world_step is_local_activity_task ev w = Some w' →
  live_event ev = true → world_ok w → world_ok w'.
Proof.
  intros Hstep Hlive Hok. destruct ev.
  - by eapply workflow_event_ok.
  - by eapply activity_event_ok.
  - by eapply call_event_ok.
  - by eapply owner_event_ok.
  - simpl in Hstep. destruct (agenda w) as [|i rest] eqn:Ha; [done|].
    destruct (drain_await i) eqn:Hi; [|done]. injection Hstep as <-.
    unfold with_agenda.
    eapply timer_ok; try done; try (by destruct i as [| | | | | | | | |[]|[]| | | | | |]).
    simpl. by rewrite Ha.
  - simpl in Hstep. destruct (agenda w) as [|i rest] eqn:Ha; [done|].
    destruct (replay_await i) eqn:Hi; [|done]. injection Hstep as <-.
    eapply timer_ok; try done; try (by destruct i as [| | | | | | | | | | | | |[]| | |]).
    simpl. by rewrite Ha.
  - by eapply abort_event_ok.
Qed.

Lemma world_run_ok evs w w' :
  world_run is_local_activity_task evs w = Some w' →
  Forall (λ ev, live_event ev = true) evs → world_ok w → world_ok w'.
Proof.
  revert w. induction evs as [|ev evs IH]; simpl; intros w Hrun Hlive Hok; [by simplify_eq|].
  apply bind_Some in Hrun as (w1 & Hstep & Hrun).
  apply Forall_cons in Hlive as [Hev Hlive].
  eapply IH; [done..|]. by eapply world_step_ok.
Qed.

(** A settled-ahead activity is still in the ledger. *)
Lemma prepaid_owed w d :
  world_ok w → occurrences d (prepaid w) ≤ owed (ledger (lanes w)) d.
Proof.
  intros [Hl Hag _ _ _]. unfold prepaid.
  destruct (agenda w) as [|i rest] eqn:Ha; [rewrite list_bind_nil, occurrences_nil; lia|].
  destruct (quiet_bind rest) as [_ Hrp].
  { pose proof (ag_quiet _ Hag) as Hq. by rewrite Ha in Hq. }
  rewrite bind_cons, Hrp, app_nil_r.
  assert (∀ k, owner_prepaid i = [k] → owner_lease i = Some k →
    occurrences d [k] ≤ owed (ledger (lanes w)) d) as Hone.
  { intros k _ Hk. assert (entry (ledger (lanes w)) k = Some true) as He.
    { eapply (ag_lease _ Hag i); [by rewrite Ha|done]. }
    rewrite occurrences_cons, occurrences_nil. unfold owed.
    case_bool_decide; simpl; [|lia]. subst. by rewrite He. }
  destruct i as [| | | | |[]| | |[]| | | | | | | |]; simpl;
    rewrite ?occurrences_nil; try lia; by apply Hone.
Qed.

Definition live_schedule (evs : list Event) : Prop :=
  Forall (λ ev, live_event ev = true) evs.


(** C2: no task is completed twice.  In every live execution the completions
    that settled a run (or activity token) never outnumber the times Core
    handed it out. *)
Theorem no_double_completion sw sa ca evs w d :
  live_schedule evs →
  world_run is_local_activity_task evs (world_init sw sa ca) = Some w →
  occurrences d (settled (lanes w)) ≤ occurrences d (polled w).
Proof.
  intros Hlive Hrun. eapply world_run_ok in Hrun; [|done|apply world_init_ok].
  pose proof (prepaid_owed w d Hrun). destruct Hrun as [[Hb _ _] _ _ _ _].
  specialize (Hb d). lia.
Qed.

Lemma done_world_hands w :
  agenda w = [] → workflow_pc w = WlDone → activity_pc w = AlDone →
  all_hands w = [] ∧ all_tickets w = [] ∧ prepaid w = [].
Proof. intros Ha Hw Hk. unfold all_hands, all_tickets, prepaid. by rewrite Ha, Hw, Hk. Qed.

Lemma outstanding_zero t d : outstanding t = 0 → owed t d = 0.
Proof.
  unfold outstanding, outstanding_workflows, outstanding_activities. intros H.
  assert (workflows t = ∅) as Hw by (apply map_size_empty_inv; lia).
  assert (activities t = ∅) as Ha by (apply map_size_empty_inv; lia).
  unfold owed, entry. destruct d; by rewrite ?Hw, ?Ha, lookup_empty.
Qed.


(** A follow-up eviction is never mistaken for a duplicate.  Both the
    completion and the rejection of a workflow activation remove the run from
    the ledger before they call Core, so while Core's reply is pending a new
    activation of the same run is admitted as a new obligation. *)
Theorem followup_admitted_while_completing status input i (l : PollLanes C) out c reason
    wait eviction_only :
  ledger_wf (ledger l) →
  i = ICompleteWorkflow (CwRetire c wait) ∨
  i = IRejectWorkflow (RwRetire (wc_run_id c) reason wait) →
  owner_exec is_local_activity_task status input i l = Some out →
  out_next out ≠ [] →
  agenda_hand (out_next out) = [WorkflowDebt (wc_run_id c)] ∧
  (admit_polled_workflow_activation (wc_run_id c) eviction_only
     (ledger (out_lanes out))).1 = Ok New.
Proof.
  intros Hwf Hi Hrun Hn.
  assert (∃ t', TaskLedger.complete_workflow (wc_run_id c) (ledger l) = (Ok tt, t') ∧
    ledger (out_lanes out) = t' ∧
    agenda_hand (out_next out) = [WorkflowDebt (wc_run_id c)]) as (t' & Hc & -> & Hh).
  { destruct Hi as [-> | ->]; cbn [owner_exec] in Hrun; simpl in Hrun;
      unfold retire_rejected_workflow, goto, return_ in Hrun;
      destruct (TaskLedger.complete_workflow _ _) as [[[]|] t'] eqn:Hc; simplify_eq/=;
      by eauto. }
  split; [done|]. apply complete_workflow_entry in Hc as Hent. destruct Hent as [He Hu].
  destruct (wf_run_ids _ Hwf _ _ He) as [Hv Hr].
  unfold TaskLedger.complete_workflow in Hc. unfold entry in He. rewrite He in Hc.
  injection Hc as <-. unfold admit_polled_workflow_activation, record_workflow.
  rewrite valid_run_id_guard, Hv. simpl. rewrite bool_decide_false by done.
  by rewrite lookup_delete_eq.
Qed.

(** Releasing an unvalidated worker leaves no debt.  Once both poll APIs
    have reported [ShutDown], the calls made between the shutdown request and
    the finalizer settle exactly the tasks that were handed out: every
    activation and every start once, and no cancellation. *)
Theorem unvalidated_release_settles wpolls apolls first calls final :
  release_unvalidated_worker is_local_activity_task wpolls apolls
    = Some (first, calls, final) →
  first = InitiateShutdown ∧ final = FinalizeShutdown ∧
  ∃ wtasks wrest atasks arest,
    wpolls = wtasks ++ PollShutDown :: wrest ∧ apolls = atasks ++ PollShutDown :: arest ∧
    calls.1 ≫= settles = wtasks ≫= (λ p, poll_debt (inl p)) ∧
    calls.2 ≫= settles = atasks ≫= (λ p, poll_debt (inr p)).
Proof.
  unfold release_unvalidated_worker. intros (w & Hw & (a & Ha & H)%bind_Some)%bind_Some.
  simplify_eq/=. split; [done|]. split; [done|].
  assert (∃ wtasks wrest, wpolls = wtasks ++ PollShutDown :: wrest ∧
    w ≫= settles = wtasks ≫= (λ p, poll_debt (inl p))) as (wt & wr & -> & Hws).
  { revert w Hw. clear. induction wpolls as [|p ps IH]; intros w Hw; [done|].
    destruct p; simpl in Hw.
    - apply fmap_Some in Hw as (w' & Hw' & ->). destruct (IH _ Hw') as (wt & wr & -> & Hs).
      exists (Polled task :: wt), wr. split; [done|]. csimpl. by rewrite Hs.
    - simplify_eq. by exists [], ps.
    - destruct (IH _ Hw) as (wt & wr & -> & Hs). by exists (PollError message :: wt), wr. }
  assert (∃ atasks arest, apolls = atasks ++ PollShutDown :: arest ∧
    a ≫= settles = atasks ≫= (λ p, poll_debt (inr p))) as (at_ & ar & -> & Has).
  { revert a Ha. clear. induction apolls as [|p ps IH]; intros a Ha; [done|].
    destruct p; simpl in Ha.
    - destruct (is_cancel_variant task) eqn:Hc.
      + destruct (IH _ Ha) as (wt & wr & -> & Hs). exists (Polled task :: wt), wr.
        split; [done|]. csimpl. unfold activity_task_debt. by rewrite Hc.
      + apply fmap_Some in Ha as (w' & Hw' & ->). destruct (IH _ Hw') as (wt & wr & -> & Hs).
        exists (Polled task :: wt), wr. split; [done|]. csimpl. unfold activity_task_debt.
        by rewrite Hc, Hs.
    - simplify_eq. by exists [], ps.
    - destruct (IH _ Ha) as (wt & wr & -> & Hs). by exists (PollError message :: wt), wr. }
  exists wt, wr, at_, ar. done.
Qed.

End Worlds.

(** ** A complete worker life, as a schedule

    One workflow run is delivered, its first completion is rejected by Core and
    the second accepted; Core then evicts the run, the eviction is still queued
    when shutdown begins, and the drain acknowledges it.  One activity is
    delivered and completed. *)

Definition sample_activation (eviction : bool) : WorkflowActivation :=
  mkWorkflowActivation "run-1" eviction.
Definition sample_task : ActivityTask := mkActivityTask [x01; x02] (Some VariantStart).
Definition sample_completion : WorkflowActivationCompletion :=
  mkWorkflowCompletion "run-1" (BodyLanguage false).

Definition sample_delivery : list Event :=
  [EvWorkflowLane (Polled (sample_activation false)); EvWorkflowLane PollShutDown;
   EvWorkflowLane PollShutDown;
   EvActivityLane (Polled sample_task); EvActivityLane PollShutDown;
   EvActivityLane PollShutDown;
   EvCall CallTryTakeWorkflow; EvOwner InNone; EvOwner InNone;
   EvCall CallTryTakeActivity; EvOwner InNone; EvOwner InNone;
   EvCall (CallCompleteWorkflow sample_completion); EvOwner InNone;
   EvOwner (InWorkflowReply (Finished (Err "rejected"))); EvOwner InNone;
   EvCall (CallCompleteWorkflow sample_completion); EvOwner InNone;
   EvOwner (InWorkflowReply (Finished (Ok tt)));
   EvWorkflowLane (Polled (sample_activation true)); EvWorkflowLane PollShutDown;
   EvWorkflowLane PollShutDown;
   EvCall (CallCompleteActivity (mkActivityCompletion [x01; x02] ResultLanguage));
   EvOwner InNone; EvOwner (InActivityReply (Ok tt)); EvOwner InNone].

Definition sample_shutdown : list Event :=
  [EvCall CallInitiateShutdown; EvOwner InNone; EvOwner InNone; EvOwner InNone;
   EvOwner InNone;
   EvWorkflowLane PollShutDown; EvWorkflowLane PollShutDown;
   EvActivityLane PollShutDown; EvActivityLane PollShutDown;
   EvCall CallDrainAndJoin; EvOwner InNone; EvOwner InNone; EvOwner InNone; EvOwner InNone;
   EvOwner InNone; EvOwner InNone; EvOwner InNone;
   EvOwner (InSelect (SelJoinWorkflow None));
   EvOwner InNone; EvOwner InNone; EvOwner InNone; EvOwner InNone;
   EvOwner (InSelect (SelJoinActivity None));
   EvOwner InNone; EvOwner InNone; EvOwner InNone; EvOwner InNone].

Definition sample_finalize : list Event :=
  [EvOwner InNone; EvCall CallFinalize; EvOwner InNone].

Definition sample_is_local (task_token : list byte) : bool := false.

Definition sample_life : list Event := sample_delivery ++ sample_shutdown ++ sample_finalize.

Definition sample_init : World ListChan := world_init true true false.

Lemma sample_life_live : live_schedule sample_life.
Proof. repeat constructor. Defined.


Lemma no_double_completion_witness :
  ∃ w, world_run sample_is_local sample_life sample_init = Some w ∧
    occurrences (WorkflowDebt "run-1") (settled (lanes w))
    ≤ occurrences (WorkflowDebt "run-1") (polled w).
Proof.
  destruct (world_run sample_is_local sample_life sample_init) as [w|] eqn:E; [|vm_compute in E; discriminate].
  exists w. split; [reflexivity|].
  exact (no_double_completion sample_is_local true true false sample_life w
           (WorkflowDebt "run-1") sample_life_live E).
Defined.


(** ** The disposal race

    [drop_runtime_graph] (src/rust/core-bridge/src/abi.rs) runs a disposal pass,
    the shutdown drain and a second pass.  When the workflow lane has admitted
    a run but not yet enqueued it, the first pass takes the run from the ledger
    and completes it; the lane then enqueues the message, and the drain's
    [retire_queued_workflow] completes it again without looking at the
    tombstone. *)

Definition dispose_race : list Event :=
  [EvWorkflowLane (Polled (sample_activation false)); EvWorkflowLane PollShutDown;
   EvCall CallInitiateShutdown; EvOwner InNone; EvOwner InNone; EvOwner InNone;
   EvOwner InNone;
   EvCall CallDispose; EvOwner InNone; EvOwner InNone; EvOwner InNone; EvOwner InNone;
   EvOwner InNone;
   EvWorkflowLane PollShutDown;
   EvCall CallDrainAndJoin; EvOwner InNone; EvOwner InNone; EvOwner InNone; EvOwner InNone;
   EvOwner InNone].


Definition sample_leased_ledger : TaskLedger :=
  run_ops [OpAdmitPolledActivation "run-1" false; OpLeaseActivation "run-1" false]
    TaskLedger_new.

Lemma followup_admitted_while_completing_witness :
  ∃ out,
    owner_exec sample_is_local (mkLaneStatus false false) InNone
      (complete_workflow sample_completion)
      (with_ledger sample_leased_ledger (lanes sample_init)) = Some out ∧
    (admit_polled_workflow_activation "run-1" true (ledger (out_lanes out))).1 = Ok New.
Proof.
  assert (Hwf : ledger_wf sample_leased_ledger)
    by (apply run_ops_wf; [apply TaskLedger_new_wf|repeat split]).
  eexists. split; [reflexivity|].
  exact (proj2 (followup_admitted_while_completing sample_is_local
    (mkLaneStatus false false) InNone (complete_workflow sample_completion)
    (with_ledger sample_leased_ledger (lanes sample_init)) _ sample_completion ""
    Unbounded true Hwf (or_introl eq_refl) eq_refl ltac:(discriminate))).
Defined.

Definition sample_workflow_polls : list (PollResult WorkflowActivation) :=
  [Polled (sample_activation false); PollError "transient"; PollShutDown].
Definition sample_activity_polls : list (PollResult ActivityTask) :=
  [Polled (mkActivityTask [x01] (Some VariantCancel)); Polled sample_task; PollShutDown].

Lemma unvalidated_release_settles_witness :
  ∃ calls,
    release_unvalidated_worker sample_is_local sample_workflow_polls sample_activity_polls
    = Some (InitiateShutdown, calls, FinalizeShutdown) ∧
    ∃ wtasks wrest atasks arest,
      sample_workflow_polls = wtasks ++ PollShutDown :: wrest ∧
      sample_activity_polls = atasks ++ PollShutDown :: arest ∧
      calls.1 ≫= settles = wtasks ≫= (λ p, poll_debt (inl p)) ∧
      calls.2 ≫= settles = atasks ≫= (λ p, poll_debt (inr p)).
Proof.
  destruct (release_unvalidated_worker sample_is_local sample_workflow_polls
    sample_activity_polls) as [[[first calls] final]|] eqn:E; [|discriminate].
  destruct (unvalidated_release_settles sample_is_local _ _ _ _ _ E) as (-> & -> & H).
  exists calls. split; [reflexivity|exact H].
Defined.
