(* ===== verification/LaneContract.v ===== *)
(** * Poll lanes against a well-behaved Core

    Temporal Core keeps at most one activation outstanding per workflow run
    and never reissues an activity task token; the bridge's comments rely on
    both.  Under that contract, and when no shutdown timer elapses, no debt is
    ever given up: the drain blocker stays clear and a finalized worker has
    settled every task exactly once. *)

From S2P Require Import Prelude.
From S2P Require Import TaskLedger.
From S2P Require Import Readiness.
From S2P Require Import PollLanes.
From S2P Require Import LaneDebts.
From S2P Require Import LaneSafety.
From S2P Require Import OwnerSafety.
From S2P Require Import LaneTheorems.

(** ** Tombstones exist only under disposal *)

Lemma apply_op_retired mark op t :
  live_op mark op = true →
  retired_workflows t = ∅ ∧ retired_activities t = ∅ →
  retired_workflows (apply_op op t) = ∅ ∧ retired_activities (apply_op op t) = ∅.
Proof.
  intros Hop Ht. destruct op; simpl; try done;
    unfold admit_workflow, admit_polled_workflow, admit_polled_workflow_activation,
      record_workflow, admit_activity, admit_polled_activity, record_activity,
      lease_workflow_activation, lease_workflow, handoff_activity, lease_activity,
      abandon_workflow_admission, abandon_activity_admission, TaskLedger.complete_workflow,
      TaskLedger.complete_activity, restore_rejected_workflow_completion, mark_eviction;
    repeat case_match; simplify_eq/=; try done.
  destruct (take_leased_for_shutdown t) as [[ws ts] t'] eqn:E.
  apply take_leased_for_shutdown_spec in E as (_&_&_&_&_&_&_&Hw&Ha).
  simpl. by rewrite Hw, Ha.
Qed.

Lemma reached_retired mark t t' :
  reached_by_ops mark t t' →
  retired_workflows t = ∅ ∧ retired_activities t = ∅ →
  retired_workflows t' = ∅ ∧ retired_activities t' = ∅.
Proof.
  intros (ops & -> & Hops). revert t.
  induction Hops as [|op ops Hop _ IH]; intros t Ht; [done|].
  unfold run_ops in *. cbn [foldl]. apply IH. by eapply apply_op_retired.
Qed.

Section Contract.
Context {C : Type → Type} `{!Mpsc C} `{!MpscLaws C}.
Variable is_local_activity_task : list byte → bool.

(** ** Settled debts stay settled *)

Definition settled_grows (l l' : PollLanes C) : Prop :=
  ∀ d, occurrences d (settled l) ≤ occurrences d (settled l').

Ltac grows :=
  intros ?; unfold settled; simpl; autorewrite with occ; lia.

Lemma workflow_take_calls rf (l : PollLanes C) o l' :
  workflow_take rf l = (o, l') → core_calls l' = core_calls l.
Proof. unfold workflow_take. destruct (take_inner _ _ _) as [[]]. by intros [= <- <-]. Qed.

Lemma activity_take_calls rf (l : PollLanes C) o l' :
  activity_take rf l = (o, l') → core_calls l' = core_calls l.
Proof. unfold activity_take. destruct (take_inner _ _ _) as [[]]. by intros [= <- <-]. Qed.

(** What a step adds to the calls also covers what it settles ahead. *)
Lemma owner_exec_settled status input i l out :
  owner_exec is_local_activity_task status input i l = Some out →
  live_instr i = true →
  settled_grows l (out_lanes out) ∧
  (∀ d, occurrences d (out_next out ≫= owner_prepaid)
        ≤ occurrences d (settled (out_lanes out))).
Proof.
  intros Hrun Hlive. owner_cases i Hrun.
  all: repeat match goal with
    | H : workflow_take _ _ = (_, ?l) |- _ => apply workflow_take_calls in H
    | H : activity_take _ _ = (_, ?l) |- _ => apply activity_take_calls in H
    end.
  all: split; intros d; unfold settled; simpl;
    repeat match goal with H : core_calls _ = core_calls _ |- _ => rewrite H; clear H end;
    autorewrite with occ; simpl; autorewrite with occ; try lia.
  rewrite !bind_fmap_nil, occurrences_nil by done. lia.
Qed.

Lemma workflow_lane_settled poll pc (l : PollLanes C) l' pc' lost :
  run_workflow_lane poll pc l = (l', pc', lost) → settled_grows l l'.
Proof.
  intros Hrun.
  destruct pc; simpl in Hrun;
    try (unfold workflow_enqueue in Hrun; destruct (enqueue _ _ _) as [[[] r'] g']);
    repeat case_match; simplify_eq/=;
    try (injection Hrun as <- <- <-); grows.
Qed.

Lemma activity_lane_settled poll pc (l : PollLanes C) l' pc' lost :
  run_activity_lane is_local_activity_task poll pc l = (l', pc', lost) →
  settled_grows l l'.
Proof.
  intros Hrun.
  destruct pc; simpl in Hrun;
    try (unfold activity_enqueue in Hrun; destruct (enqueue _ _ _) as [[[] r'] g']);
    repeat case_match; simplify_eq/=;
    try (injection Hrun as <- <- <-); grows.
Qed.

(** ** Steps that give nothing up *)

Lemma owner_exec_no_drop status input i l out :
  owner_exec is_local_activity_task status input i l = Some out →
  live_instr i = true → marks_lost i = false → plain i = true ∨ i = IFinalize →
  (∀ r e err, i = ICompleteWorkflow (CwRestore r e err) →
              entry (ledger l) (WorkflowDebt r) = None) →
  out_dropped out = [] ∧ Forall (λ j, marks_lost j = false) (out_next out).
Proof.
  intros Hrun Hlive Hm Hp Hr. owner_cases i Hrun; try (by destruct Hp);
    try (split; [done|by repeat apply Forall_cons_2]).
  - specialize (Hr _ _ _ eq_refl). unfold restore_rejected_workflow_completion in *.
    unfold entry in Hr. rewrite Hr in *. done.
  - split; [done|]. rewrite !Forall_app, !Forall_fmap.
    split_and!; [by apply Forall_true..|]. by apply Forall_singleton.
Qed.

(** ** Core's contract *)

(** Whether Core may deliver this poll result now: a run only when every
    earlier activation of it has been settled, an activity token only once. *)
Definition poll_allowed (ev : Event) (w : World C) : bool :=
  match ev, workflow_pc w, activity_pc w with
  | EvWorkflowLane (Polled a), WlPoll, _ =>
      (occurrences (WorkflowDebt (wa_run_id a)) (polled w)
       =? occurrences (WorkflowDebt (wa_run_id a)) (settled (lanes w)))%nat
  | EvActivityLane (Polled t), _, AlPoll =>
      forallb (λ d, (occurrences d (polled w) =? 0)%nat) (activity_task_debt t)
  | _, _, _ => true
  end.

Fixpoint contract_run (evs : list Event) (w : World C) : option (World C) :=
  match evs with
  | [] => Some w
  | ev :: evs =>
      if poll_allowed ev w
      then world_step is_local_activity_task ev w ≫= contract_run evs else None
  end.

(** A live event that is not a shutdown timer. *)
Definition timely_event (ev : Event) : bool :=
  match ev with EvDrainElapsed | EvReplayElapsed => false | _ => live_event ev end.

Definition debt_limit (w : World C) (d : Debt) : nat :=
  match d with
  | WorkflowDebt _ => occurrences d (settled (lanes w)) + 1
  | ActivityDebt _ => 1
  end.

Record contract_ok (w : World C) : Prop := {
  co_world : world_ok w;
  co_limit d : occurrences d (polled w) ≤ debt_limit w d;
  co_prepaid d : occurrences d (prepaid w) ≤ occurrences d (settled (lanes w));
  co_retired : retired_workflows (ledger (lanes w)) = ∅ ∧
               retired_activities (ledger (lanes w)) = ∅;
  co_dropped : dropped w = [];
  co_lost : lost_poll_lease (ledger (lanes w)) = false;
  co_abort : abort_requested w = false;
  co_lanes : workflow_pc_marks (workflow_pc w) = false ∧
             activity_pc_marks (activity_pc w) = false;
  co_agenda : Forall (λ i, marks_lost i = false) (agenda w)
}.

Lemma prepaid_workflow (w : World C) r : occurrences (WorkflowDebt r) (prepaid w) = 0.
Proof.
  unfold prepaid. induction (agenda w) as [|i a IH]; [done|].
  rewrite bind_cons, occurrences_app, IH.
  destruct i as [| | | | |[]| | |[]| | | | | | | |]; done.
Qed.

(** A debt held outside the ledger is not in it as well. *)
Lemma held_not_owed w d :
  contract_ok w → d ∈ all_hands w → entry (ledger (lanes w)) d = None.
Proof.
  intros Hco Hd%occurrences_pos. pose proof (co_limit _ Hco d) as Hlim.
  pose proof (co_prepaid _ Hco d) as Hpre.
  pose proof (ok_balance _ _ _ _ _ _ (wo_lanes _ (co_world _ Hco)) d) as Hb.
  pose proof (prepaid_owed w d (co_world _ Hco)) as Hpo.
  assert (owed (ledger (lanes w)) d = 0) as Ho.
  { destruct d as [r|k]; simpl in *; [rewrite prepaid_workflow in *|]; lia. }
  unfold owed in Ho. by destruct (entry _ d).
Qed.

Lemma contract_init sw sa ca : contract_ok (world_init (C := C) sw sa ca).
Proof.
  split; try done; [apply world_init_ok|..].
  - intros []; simpl; rewrite occurrences_nil; lia.
  - by destruct sw, sa, ca.
  - by destruct sw, sa, ca.
  - by destruct sw, sa, ca.
  - by destruct sw, sa.
Qed.

(** With its debt in hand and nothing tombstoned, a lane's admission never
    takes the branch that drops the task. *)
Lemma workflow_admit_no_mark poll a (l : PollLanes C) l' pc' lost :
  run_workflow_lane poll (WlAdmit a) l = (l', pc', lost) →
  entry (ledger l) (WorkflowDebt (wa_run_id a)) = None →
  retired_workflows (ledger l) = ∅ → workflow_pc_marks pc' = false.
Proof.
  intros Hrun He Hret. simpl in Hrun.
  destruct (admit_polled_workflow_activation _ _ _) as [adm t] eqn:Ha.
  unfold admit_polled_workflow_activation, record_workflow in Ha.
  unfold entry in He. rewrite He, Hret in Ha.
  rewrite (bool_decide_false (_ ∈ ∅)) in Ha by set_solver.
  repeat case_match; by simplify_eq/=.
Qed.

Lemma activity_admit_no_mark poll t kind (l : PollLanes C) l' pc' lost :
  run_activity_lane is_local_activity_task poll (AlAdmit t kind) l = (l', pc', lost) →
  kind = admission_kind t →
  (kind = Start → entry (ledger l) (ActivityDebt (at_task_token t)) = None) →
  retired_activities (ledger l) = ∅ → activity_pc_marks pc' = false.
Proof.
  intros Hrun -> He Hret. simpl in Hrun. unfold admission_kind in *.
  destruct (admit_polled_activity _ _ _) as [adm t'] eqn:Ha.
  unfold admit_polled_activity, record_activity in Ha. unfold entry in He.
  rewrite Hret in Ha. rewrite (bool_decide_false (_ ∈ ∅)) in Ha by set_solver.
  destruct (is_cancel_variant t).
  - repeat case_match; by simplify_eq/=.
  - specialize (He eq_refl). apply fmap_None in He. rewrite He in Ha.
    repeat case_match; by simplify_eq/=.
Qed.

Lemma limit_grows w w' d :
  settled_grows (lanes w) (lanes w') → debt_limit w d ≤ debt_limit w' d.
Proof. intros Hg. specialize (Hg d). destruct d; simpl in *; lia. Qed.

(** An allowed poll keeps the debts within their limits. *)
Lemma limit_workflow_poll poll w d :
  poll_allowed (EvWorkflowLane poll) w = true →
  occurrences d (polled w) ≤ debt_limit w d →
  occurrences d
    (polled w ++ match workflow_pc w with WlPoll => poll_debt (inl poll) | _ => [] end)
  ≤ debt_limit w d.
Proof.
  unfold poll_allowed. destruct (workflow_pc w), poll as [a| |]; simpl; intros Hp Hl;
    rewrite ?app_nil_r; try done.
  apply Nat.eqb_eq in Hp. autorewrite with occ.
  case_bool_decide; subst; simpl in *; lia.
Qed.

Lemma limit_activity_poll poll w d :
  poll_allowed (EvActivityLane poll) w = true →
  occurrences d (polled w) ≤ debt_limit w d →
  occurrences d
    (polled w ++ match activity_pc w with AlPoll => poll_debt (inr poll) | _ => [] end)
  ≤ debt_limit w d.
Proof.
  unfold poll_allowed. destruct (workflow_pc w), (activity_pc w), poll as [t| |]; simpl;
    intros Hp Hl; rewrite ?app_nil_r; try done.
  all: unfold activity_task_debt in *; destruct (is_cancel_variant t);
    simpl in *; rewrite ?app_nil_r; try done;
    rewrite andb_true_r in Hp; apply Nat.eqb_eq in Hp; autorewrite with occ;
    case_bool_decide; subst; simpl in *; lia.
Qed.

Lemma contract_workflow poll w w' :
  world_step is_local_activity_task (EvWorkflowLane poll) w = Some w' →
  poll_allowed (EvWorkflowLane poll) w = true → contract_ok w → contract_ok w'.
Proof.
  intros Hstep Hpoll Hco. pose proof (workflow_event_ok _ _ _ _ Hstep (co_world _ Hco)).
  apply workflow_event_inv in Hstep as (Hnd & l & pc' & lost & Hrun & ->).
  pose proof (workflow_lane_settled _ _ _ _ _ _ Hrun) as Hg.
  pose proof (workflow_lane_ledger_ops _ _ _ _ _ _ Hrun) as Hops.
  destruct (workflow_lane_steady _ _ _ _ _ _ Hrun) as [_ Hlost].
  destruct (co_lanes _ Hco) as [Hwm Ham]. rewrite Hwm in Hops.
  pose proof (reached_lost _ _ Hops) as Hl. rewrite (co_lost _ Hco) in Hl.
  split; cbn [lanes polled dropped abort_requested workflow_pc activity_pc agenda];
    try done; try exact (co_abort _ Hco); try exact (co_lanes _ Hco);
    try exact (co_agenda _ Hco).
  - intros d. etrans; [|apply (limit_grows w)]; [|done].
    by apply limit_workflow_poll, Hco.
  - intros d. etrans; [apply (co_prepaid _ Hco d)|apply Hg].
  - eapply reached_retired; [done|apply Hco].
  - rewrite (co_dropped _ Hco). destruct lost as [|[k r] lost]; [done|].
    apply Forall_cons in Hlost as [[_ Hm] _]. congruence.
  - split; [|done].
    pose proof (held_not_owed w) as Hheld. unfold all_hands in Hheld.
    destruct (workflow_pc w) eqn:Hpc; try done;
      try (simpl in Hrun; unfold workflow_lane_exit in Hrun; repeat case_match;
           by simplify_eq/=).
    eapply workflow_admit_no_mark; [done| |apply Hco].
    apply Hheld; [done|]. set_solver.
Qed.

Lemma contract_activity poll w w' :
  world_step is_local_activity_task (EvActivityLane poll) w = Some w' →
  poll_allowed (EvActivityLane poll) w = true → contract_ok w → contract_ok w'.
Proof.
  intros Hstep Hpoll Hco. pose proof (activity_event_ok _ _ _ _ Hstep (co_world _ Hco)).
  apply activity_event_inv in Hstep as (Hnd & l & pc' & lost & Hrun & ->).
  pose proof (activity_lane_settled _ _ _ _ _ _ Hrun) as Hg.
  pose proof (activity_lane_ledger_ops _ _ _ _ _ _ _ Hrun) as Hops.
  destruct (activity_lane_steady _ _ _ _ _ _ _ Hrun) as [_ Hlost].
  destruct (co_lanes _ Hco) as [Hwm Ham]. rewrite Ham in Hops.
  pose proof (reached_lost _ _ Hops) as Hl. rewrite (co_lost _ Hco) in Hl.
  split; cbn [lanes polled dropped abort_requested workflow_pc activity_pc agenda];
    try done; try exact (co_abort _ Hco); try exact (co_lanes _ Hco);
    try exact (co_agenda _ Hco).
  - intros d. etrans; [|apply (limit_grows w)]; [|done].
    by apply limit_activity_poll, Hco.
  - intros d. etrans; [apply (co_prepaid _ Hco d)|apply Hg].
  - eapply reached_retired; [done|apply Hco].
  - rewrite (co_dropped _ Hco). destruct lost as [|[k r] lost]; [done|].
    apply Forall_cons in Hlost as [[_ Hm] _]. congruence.
  - split; [done|].
    pose proof (held_not_owed w) as Hheld. unfold all_hands in Hheld.
    pose proof (wo_activity _ (co_world _ Hco)) as Hpc.
    destruct (activity_pc w) eqn:Hapc; try done;
      try (simpl in Hrun; unfold activity_lane_exit in Hrun; repeat case_match;
           by simplify_eq/=).
    simpl in Hpc. eapply activity_admit_no_mark; [done..| |apply Hco].
    intros ->. apply Hheld; [done|]. unfold admission_kind in Hpc. simpl.
    unfold activity_task_debt. destruct (is_cancel_variant task); [done|]. set_solver.
Qed.

Lemma contract_owner input w w' :
  world_step is_local_activity_task (EvOwner input) w = Some w' →
  contract_ok w → contract_ok w'.
Proof.
  intros Hstep Hco. pose proof (owner_event_ok _ _ _ _ Hstep (co_world _ Hco)).
  simpl in Hstep. destruct (agenda w) as [|i rest] eqn:Ha; [done|].
  destruct (owner_exec _ _ _ _ _) as [out|] eqn:Hrun; [|done]. injection Hstep as <-.
  pose proof (wo_agenda _ (co_world _ Hco)) as Hag.
  pose proof (ag_live _ Hag) as Hlive. pose proof (co_agenda _ Hco) as Hmarks.
  rewrite Ha in Hlive, Hmarks. apply Forall_cons in Hlive as [Hlive _].
  apply Forall_cons in Hmarks as [Hm Hms].
  destruct (owner_exec_settled _ _ _ _ _ Hrun Hlive) as [Hg Hp].
  pose proof (owner_exec_ledger_ops _ _ _ _ _ _ Hrun Hlive) as Hops. rewrite Hm in Hops.
  destruct (owner_exec_no_drop _ _ _ _ _ Hrun Hlive Hm) as [Hd Hnm].
  { destruct (plain i) eqn:Hpl; [by left|].
    destruct i as [| | | | | | | | | | | | |[]| | |]; try done; [|by right].
    pose proof (ag_abort _ Hag interrupted) as Hab. rewrite (co_abort _ Hco), Ha in Hab.
    assert (false = true) by (apply Hab; set_solver). done. }
  { intros r e err ->. apply held_not_owed; [done|].
    unfold all_hands, agenda_hand. rewrite Ha, bind_cons. set_solver. }
  split; cbn [lanes polled dropped abort_requested workflow_pc activity_pc agenda];
    try done; try exact (co_abort _ Hco); try exact (co_lanes _ Hco);
    try exact (co_agenda _ Hco).
  - intros d. etrans; [apply (co_limit _ Hco d)|by apply limit_grows].
  - intros d. unfold prepaid; cbn [agenda].
    destruct (quiet_bind rest) as [_ Hrp].
    { pose proof (ag_quiet _ Hag) as Hq. by rewrite Ha in Hq. }
    rewrite bind_app, Hrp, app_nil_r. apply Hp.
  - eapply reached_retired; [done|apply Hco].
  - by rewrite (co_dropped _ Hco), Hd.
  - rewrite (reached_lost _ _ Hops). exact (co_lost _ Hco).
  - by apply Forall_app.
Qed.

Lemma contract_call call w w' :
  world_step is_local_activity_task (EvCall call) w = Some w' →
  live_call call = true → contract_ok w → contract_ok w'.
Proof.
  intros Hstep Hlive Hco. pose proof (call_event_ok _ _ _ _ Hstep Hlive (co_world _ Hco)).
  simpl in Hstep. destruct (agenda w); [|done]. destruct (owner_consumed w); [done|].
  injection Hstep as <-.
  split; cbn [lanes polled dropped abort_requested workflow_pc activity_pc agenda];
    try done; try exact (co_abort _ Hco); try exact (co_lanes _ Hco);
    try exact (co_dropped _ Hco).
  - intros d. etrans; [apply (co_limit _ Hco d)|]. by destruct call, d.
  - intros d. unfold prepaid; cbn [agenda lanes].
    destruct call; simpl; rewrite occurrences_nil; lia.
  - destruct call; exact (co_retired _ Hco).
  - destruct call; exact (co_lost _ Hco).
  - apply Forall_singleton. by destruct call.
Qed.

Lemma contract_run_ok evs w w' :
  contract_run evs w = Some w' →
  Forall (λ ev, timely_event ev = true) evs → contract_ok w → contract_ok w'.
Proof.
  revert w. induction evs as [|ev evs IH]; simpl; intros w Hrun Ht Hco; [by simplify_eq|].
  destruct (poll_allowed ev w) eqn:Hp; [|done].
  apply bind_Some in Hrun as (w1 & Hstep & Hrun).
  apply Forall_cons in Ht as [Hev Ht]. eapply IH; [done..|].
  destruct ev; try done.
  - by eapply contract_workflow.
  - by eapply contract_activity.
  - by eapply contract_call.
  - by eapply contract_owner.
  - simpl in Hstep. by rewrite (co_abort _ Hco) in Hstep.
Qed.


End Contract.

