(* ===== verification/LaneDrain.v ===== *)
(** * The shutdown drain

    [drain_and_join] promises that on success both lane handles are consumed
    and the ledger is empty.  The last pass runs when both lanes have stopped,
    so only the owner moves: it takes every leased entry, then drains both
    queues, and the ticket invariant leaves nothing else in the ledger. *)

From S2P Require Import Prelude.
From S2P Require Import TaskLedger.
From S2P Require Import Readiness.
From S2P Require Import PollLanes.
From S2P Require Import LaneDebts.
From S2P Require Import LaneSafety.
From S2P Require Import OwnerSafety.
From S2P Require Import LaneTheorems.

Definition is_retire (i : instr) : bool :=
  match i with IRetire _ => true | _ => false end.
Definition is_drain (i : instr) : bool :=
  match i with IDrain _ => true | _ => false end.

(** The agenda of a drain call: retirement points above one drain point. *)
Definition drain_shape (a : list instr) : Prop :=
  (∃ pre pt, a = pre ++ [IDrain pt] ∧ Forall (λ i, is_retire i = true) pre) ∨
  Forall (λ i, is_retire i = false ∧ is_drain i = false) a.

Section Drain.
Context {C : Type → Type} `{!Mpsc C} `{!MpscLaws C}.
Variable is_local_activity_task : list byte → bool.

(** What the final pass has established, given the retirement points left. *)
Definition pass_done (pre : list instr) (l : PollLanes C) : Prop :=
  (IRetire RvTakeLeased ∈ pre ∨ ∀ d, entry (ledger l) d ≠ Some true) ∧
  (IRetire RvTakeLeased ∈ pre ∨ IRetire RvDrainWorkflows ∈ pre ∨ workflow_queue l = []) ∧
  (IRetire RvTakeLeased ∈ pre ∨ IRetire RvDrainWorkflows ∈ pre ∨
   IRetire RvDrainActivities ∈ pre ∨ activity_queue l = []).

(** A replay join that has taken the handle of a lane still running. *)
Definition replay_pending (i : instr) : bool :=
  match i with
  | IReplayJoin RjTakeHandle | IReplayJoin (RjClear (Some _)) => false
  | IReplayJoin _ => true
  | _ => false
  end.

Record drain_ok (w : World C) : Prop := {
  do_workflow : workflow_lane (lanes w) = false →
    workflow_pc w = WlDone ∨ (∃ i, i ∈ agenda w ∧ replay_pending i = true) ∨
    abort_requested w = true;
  do_activity : activity_lane (lanes w) = false → activity_pc w = AlDone;
  do_clear : IReplayJoin (RjClear None) ∈ agenda w → abort_requested w = true;
  do_shape : drain_shape (agenda w);
  do_pass pre : abort_requested w = false → agenda w = pre ++ [IDrain DjFinish] →
    workflow_lane (lanes w) = false ∧ activity_lane (lanes w) = false ∧
    pass_done pre (lanes w)
}.

(** ** What one step of the owner does to the shape *)

Lemma owner_exec_shape status input i l out :
  owner_exec is_local_activity_task status input i l = Some out →
  live_instr i = true →
  if is_retire i then Forall (λ j, is_retire j = true) (out_next out)
  else if is_drain i then
    out_next out = [] ∨
    ∃ pre pt, out_next out = pre ++ [IDrain pt] ∧ Forall (λ j, is_retire j = true) pre
  else Forall (λ j, is_retire j = false ∧ is_drain j = false) (out_next out).
Proof.
  intros Hrun Hlive. owner_cases i Hrun; try done;
    try (by repeat apply Forall_cons_2); try (by left);
    try (by right; exists []; eauto);
    try (right; eexists [_], _; split; [done|by apply Forall_singleton]).
  rewrite !Forall_app, !Forall_fmap. split_and!; [by apply Forall_true..|].
  by apply Forall_singleton.
Qed.

(** Handles are given up only with the lane's join, except by a replay join. *)
Lemma owner_exec_handles status input i l out :
  owner_exec is_local_activity_task status input i l = Some out →
  live_instr i = true →
  (workflow_lane (out_lanes out) = false →
   workflow_lane l = false ∨ workflow_done status = true ∨
   (∃ j, j ∈ out_next out ∧ replay_pending j = true)) ∧
  (activity_lane (out_lanes out) = false →
   activity_lane l = false ∨ activity_done status = true).
Proof.
  intros Hrun Hlive. owner_cases i Hrun;
    try match goal with
    | H : workflow_take _ _ = (_, ?l1) |- _ =>
        unfold workflow_take in H; destruct (take_inner _ _ _) as [[]]; simplify_eq/=
    | H : activity_take _ _ = (_, ?l1) |- _ =>
        unfold activity_take in H; destruct (take_inner _ _ _) as [[]]; simplify_eq/=
    end;
    repeat match goal with H : _ && _ = true |- _ => apply andb_prop in H as [??] end;
    split; intros ?; eauto.
  right; right. eexists. split; [apply list_elem_of_here|done].
Qed.

Lemma owner_exec_handles_keep status input i l out :
  owner_exec is_local_activity_task status input i l = Some out →
  live_instr i = true →
  (workflow_lane l = false → workflow_lane (out_lanes out) = false) ∧
  (activity_lane l = false → activity_lane (out_lanes out) = false).
Proof.
  intros Hrun Hlive. owner_cases i Hrun;
    try match goal with
    | H : workflow_take _ _ = (_, ?l1) |- _ =>
        unfold workflow_take in H; destruct (take_inner _ _ _) as [[]]; simplify_eq/=
    | H : activity_take _ _ = (_, ?l1) |- _ =>
        unfold activity_take in H; destruct (take_inner _ _ _) as [[]]; simplify_eq/=
    end; done.
Qed.

(** A pending replay join stays pending until the lane is joined or given up. *)
Lemma owner_exec_replay status input i l out :
  owner_exec is_local_activity_task status input i l = Some out →
  replay_pending i = true →
  (∃ j, j ∈ out_next out ∧ replay_pending j = true) ∨ workflow_done status = true ∨
  i = IReplayJoin (RjClear None).
Proof.
  intros Hrun Hp. owner_cases i Hrun; auto;
    try (left; eexists; split; [apply list_elem_of_here|done]).
Qed.

(** ** The final pass *)

Definition is_pass_point (i : instr) : bool :=
  match i with
  | IRetire RvTakeLeased | IRetire RvDrainWorkflows | IRetire RvDrainActivities => true
  | _ => false
  end.

Lemma pass_done_mono pre pre' l :
  (∀ i, i ∈ pre → is_pass_point i = true → i ∈ pre') → pass_done pre l → pass_done pre' l.
Proof.
  intros Hsub (Hl & Hw & Ha). split_and!;
    [destruct Hl|destruct Hw as [|[]]|destruct Ha as [|[|[]]]]; eauto 10.
Qed.

Lemma retire_pass pt l out rest :
  retire_visible_for_shutdown is_local_activity_task pt l = Some out →
  queues_open l →
  pass_done (IRetire pt :: rest) l → pass_done (out_next out ++ rest) (out_lanes out).
Proof.
  intros Hrun Hopen Hpass.
  destruct pt; cbn [retire_visible_for_shutdown] in Hrun.
  - destruct (take_leased_for_shutdown (ledger l)) as [[ws ts] t] eqn:Ht.
    apply take_leased_entry in Ht as (_ & Hent & _).
    unfold goto in Hrun. injection Hrun as <-. cbn [out_next out_lanes].
    split_and!; [right|right; left; rewrite !elem_of_app, !elem_of_cons; by auto 10..].
    intros d. simpl. rewrite Hent. by destruct (entry (ledger l) d) as [[]|].
  - injection Hrun as <-. eapply pass_done_mono; [|exact Hpass].
    by intros i [->|Hi]%elem_of_cons.
  - injection Hrun as <-. eapply pass_done_mono; [|exact Hpass].
    by intros i [->|Hi]%elem_of_cons.
  - destruct (workflow_take false l) as [o l1] eqn:Ht.
    apply workflow_take_ledger in Ht as Hled.
    apply workflow_take_delta in Ht as (_ & Hnil & Haq); [|done].
    destruct Hpass as (Hl & _ & Ha).
    assert (IRetire RvTakeLeased ∈ rest ∨ ∀ d, entry (ledger l) d ≠ Some true) as Hl'
      by (by destruct Hl as [[?|?]%elem_of_cons|]; auto).
    destruct o; injection Hrun as <-; cbn [out_next out_lanes app];
      unfold pass_done; rewrite Hled, Haq, ?elem_of_cons;
      split_and!; try (by naive_solver).
  - destruct (activity_take false l) as [o l1] eqn:Ht.
    apply activity_take_ledger in Ht as Hled.
    apply activity_take_delta in Ht as (_ & Hnil & Hwq); [|done].
    unfold pass_done in Hpass. rewrite !elem_of_cons in Hpass.
    destruct Hpass as (Hl & Hw & _).
    destruct o; injection Hrun as <-; cbn [out_next out_lanes app];
      unfold pass_done; rewrite Hled, Hwq, ?elem_of_cons;
      split_and!; try (by naive_solver).
  - unfold retire_queued_workflow in Hrun.
    destruct message; injection Hrun as <-; cbn [out_next out_lanes app].
    + pose proof (force_remove_workflow_entry (wa_run_id a) (ledger l)) as Hu.
      unfold pass_done in *. simpl. rewrite !elem_of_cons in *.
      destruct Hpass as (Hl & Hw & Ha). split_and!; [|by naive_solver..].
      destruct Hl as [[|]|Hl]; [done|by auto|]. right. intros d. rewrite (Hu d).
      by case_decide.
    + eapply pass_done_mono; [|exact Hpass]. by intros i [->|Hi]%elem_of_cons.
  - unfold retire_queued_activity in Hrun.
    destruct message as [task|]; [destruct (is_cancel_variant task)|];
      injection Hrun as <-; cbn [out_next out_lanes app];
      try (eapply pass_done_mono; [|exact Hpass]; by intros i [->|Hi]%elem_of_cons).
    pose proof (force_remove_activity_entry (at_task_token task) (ledger l)) as Hu.
    unfold pass_done in *. simpl. rewrite !elem_of_cons in *.
    destruct Hpass as (Hl & Hw & Ha). split_and!; [|by naive_solver..].
    destruct Hl as [[|]|Hl]; [done|by auto|]. right. intros d. rewrite (Hu d).
    by case_decide.
Qed.

(** ** Every live step keeps the drain invariant *)

Lemma drain_init sw sa ca : drain_ok (world_init (C := C) sw sa ca).
Proof.
  split; simpl.
  - destruct sw, sa, ca; simpl; auto.
  - by destruct sw, sa, ca.
  - by intros ?%elem_of_nil.
  - by right.
  - by intros [] ?.
Qed.

Lemma drain_shape_cons i rest next :
  drain_shape (i :: rest) →
  (if is_retire i then Forall (λ j, is_retire j = true) next
   else if is_drain i then
     next = [] ∨
     ∃ pre pt, next = pre ++ [IDrain pt] ∧ Forall (λ j, is_retire j = true) pre
   else Forall (λ j, is_retire j = false ∧ is_drain j = false) next) →
  drain_shape (next ++ rest).
Proof.
  intros [(pre & pt & Hs & Hp)|Hs] Hn.
  - destruct pre as [|j pre]; simplify_eq/=.
    + rewrite app_nil_r. destruct Hn as [->|Hn]; [by right|by left].
    + apply Forall_cons in Hp as [Hj Hp]. rewrite Hj in Hn. left.
      exists (next ++ pre), pt. by rewrite <-app_assoc, Forall_app.
  - apply Forall_cons in Hs as [[H1 H2] Hs]. rewrite H1, H2 in Hn.
    right. by apply Forall_app.
Qed.

Lemma shape_pass_inv i rest pre next :
  drain_shape (i :: rest) → next ++ rest = pre ++ [IDrain DjFinish] →
  (is_retire i = false → is_drain i = false →
   Forall (λ j, is_retire j = false ∧ is_drain j = false) next) →
  (∃ pt, i = IDrain pt ∧ rest = []) ∨
  (∃ pt pre', i = IRetire pt ∧ rest = pre' ++ [IDrain DjFinish] ∧ pre = next ++ pre').
Proof.
  intros [(p & pt & Hs & Hp)|Hs] Hn Hneither.
  - destruct p as [|j p]; simplify_eq/=; [by eauto|].
    apply Forall_cons in Hp as [Hj Hp]. destruct j; try done. right.
    rewrite app_assoc in Hn. apply app_inj_tail in Hn as [Hpre [= ->]]. by eauto.
  - exfalso. apply Forall_cons in Hs as [[Hi1 Hi2] Hs].
    assert (Forall (λ j, is_retire j = false ∧ is_drain j = false) (next ++ rest)) as Hf
      by (by apply Forall_app; auto).
    rewrite Hn in Hf. apply Forall_app in Hf as [_ Hf].
    apply Forall_singleton in Hf as [_ Hf]. done.
Qed.

Lemma drain_reaches_finish status input pt (l : PollLanes C) out pre :
  drain_and_join status input pt l = Some out →
  out_next out = pre ++ [IDrain DjFinish] →
  workflow_lane (out_lanes out) = false ∧ activity_lane (out_lanes out) = false ∧
  pre = [IRetire RvTakeLeased].
Proof.
  intros Hrun Hn. destruct pt; simpl in Hrun; unfold goto, return_ in Hrun;
    repeat case_match; simplify_eq/=; destruct pre as [|? [|? []]]; simplify_eq/=.
  by apply orb_false_iff in H as [-> ->].
Qed.

Lemma drain_owner input w w' :
  world_step is_local_activity_task (EvOwner input) w = Some w' →
  world_ok w → drain_ok w → drain_ok w'.
Proof.
  intros Hstep Hok [Hdw Hda Hcl Hsh Hpa]. simpl in Hstep.
  destruct (agenda w) as [|i rest] eqn:Ha; [done|].
  destruct (owner_exec _ _ _ _ _) as [out|] eqn:Hrun; [|done]. injection Hstep as <-.
  pose proof (ag_live _ (wo_agenda _ Hok)) as Hlive. rewrite Ha in Hlive.
  apply Forall_cons in Hlive as [Hlive _].
  pose proof (owner_exec_shape _ _ _ _ _ Hrun Hlive) as Hshape.
  destruct (owner_exec_handles _ _ _ _ _ Hrun Hlive) as [Hhw Hha].
  destruct (owner_exec_handles_keep _ _ _ _ _ Hrun Hlive) as [Hkw Hka].
  assert (workflow_done (lane_status w) = true → workflow_pc w = WlDone) as Hwd
    by (unfold lane_status; simpl; by destruct (workflow_pc w)).
  assert (activity_done (lane_status w) = true → activity_pc w = AlDone) as Had
    by (unfold lane_status; simpl; by destruct (activity_pc w)).
  split; cbn [lanes workflow_pc activity_pc agenda abort_requested].
  - intros Hf. destruct (Hhw Hf) as [Hl|[Hd|(j & Hj & Hp)]]; [|by auto|].
    + destruct (Hdw Hl) as [|[(j & Hj & Hp)|]]; [by auto| |by auto].
      apply elem_of_cons in Hj as [->|Hj]; [|right; left; exists j; set_solver].
      destruct (owner_exec_replay _ _ _ _ _ Hrun Hp) as [(k & Hk & Hkp)|[Hd|Hi]];
        [right; left; exists k; set_solver|by auto|].
      subst i. right; right. apply Hcl. set_solver.
    + right; left. exists j. set_solver.
  - intros Hf. destruct (Hha Hf); auto.
  - intros [Hj|Hj]%elem_of_app; [|apply Hcl; set_solver].
    assert (∃ ds, i = IReplayJoin (RjAbort ds)) as [ds ->].
    { clear -Hj Hrun Hlive. owner_cases i Hrun; eauto;
        repeat (apply elem_of_cons in Hj as [Hj|Hj]; [done|]); try by apply elem_of_nil in Hj.
      rewrite !elem_of_app, !list_elem_of_fmap, list_elem_of_singleton in Hj. naive_solver. }
    apply (ag_abort _ (wo_agenda _ Hok) ds). rewrite Ha. set_solver.
  - by eapply drain_shape_cons.
  - intros pre Hab Hpre.
    destruct (shape_pass_inv i rest pre (out_next out) Hsh Hpre)
      as [(pt & -> & ->)|(pt & pre' & -> & -> & ->)].
    { intros H1 H2. by rewrite H1, H2 in Hshape. }
    + rewrite app_nil_r in Hpre.
      destruct (drain_reaches_finish _ _ _ _ _ _ Hrun Hpre) as (-> & -> & ->).
      split_and!; [done..|]. split_and!; left; apply list_elem_of_here.
    + destruct (Hpa (IRetire pt :: pre') Hab eq_refl) as (Hw & Hk & Hpd).
      split_and!; [by auto..|]. eapply retire_pass; [done| |done].
      apply (ok_open _ _ _ _ _ _ (wo_lanes _ Hok)).
Qed.

Lemma no_replay_in_drain a i j :
  drain_shape a → i ∈ a → is_retire i || is_drain i = true → j ∈ a →
  replay_pending j = false.
Proof.
  intros [(pre & pt & -> & Hr)|Hr] Hi Hd Hj.
  - apply elem_of_app in Hj as [Hj|Hj%list_elem_of_singleton]; [|by subst].
    rewrite Forall_forall in Hr. specialize (Hr j Hj).
    by destruct j as [| | | | | | | | | | | | |[]| | |].
  - rewrite Forall_forall in Hr. destruct (Hr i Hi) as [H1 H2]. by rewrite H1, H2 in Hd.
Qed.

(** A lane that is done takes no step, so the others are about lanes whose
    handle is still held. *)
Lemma drain_lane w w' :
  world_ok w → drain_ok w →
  agenda w' = agenda w → abort_requested w' = abort_requested w →
  workflow_lane (lanes w') = workflow_lane (lanes w) →
  activity_lane (lanes w') = activity_lane (lanes w) →
  (workflow_pc w = WlDone → workflow_pc w' = WlDone) →
  (activity_pc w = AlDone → activity_pc w' = AlDone) →
  (workflow_pc w = WlDone → activity_pc w = AlDone → lanes w' = lanes w) →
  drain_ok w'.
Proof.
  intros Hok [Hdw Hda Hcl Hsh Hpa] Hag Hab Hwl Hal Hwp Hap Hsame.
  split; rewrite ?Hag, ?Hab, ?Hwl, ?Hal; try done.
  - intros Hf. destruct (Hdw Hf) as [|[]]; auto.
  - auto.
  - intros pre Hna Hpre. destruct (Hpa pre Hna Hpre) as (Hw & Hk & Hpd).
    split_and!; [done..|]. rewrite Hsame; [done| |by auto].
    destruct (Hdw Hw) as [|[(i & Hi & Hp)|]]; [done| |congruence].
    rewrite (no_replay_in_drain _ (IDrain DjFinish) i Hsh) in Hp; try done.
    rewrite Hpre. apply elem_of_app. right. apply list_elem_of_here.
Qed.

Lemma run_lane_handles :
  (∀ poll pc (l : PollLanes C) l' pc' lost, run_workflow_lane poll pc l = (l', pc', lost) →
     workflow_lane l' = workflow_lane l ∧ activity_lane l' = activity_lane l) ∧
  (∀ poll pc (l : PollLanes C) l' pc' lost,
     run_activity_lane is_local_activity_task poll pc l = (l', pc', lost) →
     workflow_lane l' = workflow_lane l ∧ activity_lane l' = activity_lane l).
Proof.
  split; intros poll pc l l' pc' lost Hrun; destruct pc; simpl in Hrun;
    try (unfold workflow_enqueue in Hrun; destruct (enqueue _ _ _) as [[[] r'] g']);
    try (unfold activity_enqueue in Hrun; destruct (enqueue _ _ _) as [[[] r'] g']);
    unfold workflow_lane_exit, activity_lane_exit in Hrun;
    repeat case_match; by simplify_eq/=.
Qed.

Lemma drain_step ev w w' :
  world_step is_local_activity_task ev w = Some w' →
  live_event ev = true → world_ok w → drain_ok w → drain_ok w'.
Proof.
  intros Hstep Hlive Hok Hdr. destruct run_lane_handles as [Hwh Hah]. destruct ev.
  - apply workflow_event_inv in Hstep as (Hnd & l & pc' & lost & Hrun & ->).
    destruct (Hwh _ _ _ _ _ _ Hrun). by eapply drain_lane.
  - apply activity_event_inv in Hstep as (Hnd & l & pc' & lost & Hrun & ->).
    destruct (Hah _ _ _ _ _ _ Hrun). by eapply drain_lane.
  - simpl in Hstep. destruct Hdr as [Hdw Hda Hcl Hsh Hpa].
    destruct (agenda w) eqn:Ha; [|done]. destruct (owner_consumed w); [done|].
    injection Hstep as <-.
    split; cbn [lanes agenda workflow_pc activity_pc abort_requested].
    + intros Hf. destruct Hdw as [|[(i & Hi%elem_of_nil & _)|]]; [by destruct call| | |];
        auto.
    + intros Hf. apply Hda. by destruct call.
    + intros Hi%list_elem_of_singleton. by destruct call.
    + destruct call; try (right; by apply Forall_singleton). left. by exists [], DjLoop.
    + intros pre _ Hpre. apply (app_inj_tail [] pre) in Hpre as [_ Hpre]. by destruct call.
  - by eapply drain_owner.
  - simpl in Hstep. destruct (agenda w) as [|i rest] eqn:Ha; [done|].
    destruct (drain_await i) eqn:Hi; [|done]. injection Hstep as <-.
    destruct Hdr as [Hdw Hda Hcl Hsh Hpa]. rewrite Ha in *.
    assert (is_retire i || is_drain i = true) as Hid
      by (by destruct i as [| | | | | | | | |[]|[]| | | | | |]).
    split; cbn [lanes agenda workflow_pc activity_pc abort_requested with_agenda]; try done.
    + intros Hf. destruct (Hdw Hf) as [|[(j & Hj & Hp)|]]; [by auto| |by auto].
      rewrite (no_replay_in_drain _ i j Hsh) in Hp; try done. apply list_elem_of_here.
    + by intros Hi'%list_elem_of_singleton.
    + right. by apply Forall_singleton.
    + intros pre _ Hpre. by apply (app_inj_tail [] pre) in Hpre as [_ Hpre].
  - simpl in Hstep. destruct (agenda w) as [|i rest] eqn:Ha; [done|].
    destruct (replay_await i) eqn:Hi; [|done]. injection Hstep as <-.
    destruct Hdr as [Hdw Hda Hcl Hsh Hpa].
    split; cbn [lanes agenda workflow_pc activity_pc abort_requested]; auto; try done.
    right. by apply Forall_singleton.
  - simpl in Hstep. destruct (abort_requested w) eqn:Hab; [|done].
    destruct (workflow_lane_await _); [|done]. injection Hstep as <-.
    destruct Hdr as [Hdw Hda Hcl Hsh Hpa].
    split; cbn [lanes agenda workflow_pc activity_pc abort_requested]; auto; try done.
Qed.

Lemma drain_run evs w w' :
  world_run is_local_activity_task evs w = Some w' →
  live_schedule evs → world_ok w → drain_ok w → world_ok w' ∧ drain_ok w'.
Proof.
  revert w. induction evs as [|ev evs IH]; simpl; intros w Hrun Hlive Hok Hdr;
    [by simplify_eq|].
  apply bind_Some in Hrun as (w1 & Hstep & Hrun).
  apply Forall_cons in Hlive as [Hev Hlive].
  eapply IH; [done..| |]; [by eapply world_step_ok|by eapply drain_step].
Qed.

End Drain.

