(* ===== verification/ClientCalls.v ===== *)
(** * Client call cells

    Model of src/rust/core-bridge/src/client_calls.rs: the process-wide registry
    of submitted client calls, the completion cell of each call, and the
    configured admission limits.

    The registry mutex and each slot mutex protect separate critical sections,
    so an operation that uses both is a sequence of atomic actions.  A thread is
    the list of actions it still has to run, and a schedule may interleave the
    threads, the completion guards of the Tokio tasks and new operations freely.
    A slot is shared between the registry, the task's guard and a waiting
    caller ([Arc]); it lives in [slots] under its call identifier, which is
    unique. *)

From S2P Require Import Prelude.
From stdpp Require Import pretty.
Local Open Scope N_scope.

(** ** Failures *)

Record Failure := mkFailure {
  f_status : N;
  f_message : string
}.

Definition STATUS_PANIC : N := 3.
Definition STATUS_INTERNAL : N := 4.
Definition STATUS_INVALID_STATE : N := 5.
Definition STATUS_CONFIGURATION : N := 6.
Definition STATUS_NOT_READY : N := 10.

(** [Operation]: an encoded outcome or a failure. *)
Definition Operation : Type := result (list byte) Failure.

#[global] Instance Failure_eq_dec : EqDecision Failure.
Proof. solve_decision. Defined.

Definition MAX_CALL_ID : N := 2 ^ 62.

Definition closed_failure : Failure :=
  mkFailure STATUS_INVALID_STATE "Temporal client call ended because the client shut down".
Definition not_ready_failure : Failure :=
  mkFailure STATUS_NOT_READY "Temporal client call has not completed; retry".
Definition exhausted_failure : Failure :=
  mkFailure STATUS_INTERNAL "Temporal client call identifiers are exhausted".
Definition panic_failure : Failure :=
  mkFailure STATUS_PANIC "Rust panic contained in a Temporal client call".

(** ** One slot *)

Inductive SlotState :=
| Pending
| Ready (outcome : Operation)
| Closed.

Definition slot_complete (outcome : Operation) (s : SlotState) : SlotState :=
  match s with Pending => Ready outcome | _ => s end.

Definition slot_close (s : SlotState) : SlotState :=
  match s with Pending => Closed | _ => s end.

(** How an await ended: the interval elapsed, the task's outcome was consumed,
    or the slot was already closed.  The last two are terminal. *)
Inductive Answer := NotReadyYet | Delivered | AlreadyClosed.

#[global] Instance Answer_eq_dec : EqDecision Answer.
Proof. solve_decision. Defined.

(** The section of [await_call] under the slot mutex.  [None]: still waiting. *)
Definition slot_take (timed_out : bool) (s : SlotState)
    : option (Operation * Answer * SlotState) :=
  match s with
  | Pending => if timed_out then Some (Err not_ready_failure, NotReadyYet, Pending) else None
  | Ready outcome => Some (outcome, Delivered, Closed)
  | Closed => Some (Err closed_failure, AlreadyClosed, Closed)
  end.

(** ** The registry *)

Record RegisteredCall := mkRegisteredCall {
  rc_owner : N;
  rc_task : option N
}.

Record Registry := mkRegistry {
  calls : gmap N RegisteredCall;
  per_owner : gmap N nat
}.

Definition Registry_default : Registry := mkRegistry ∅ ∅.

Definition decrement_owner (owner : N) (counts : gmap N nat) : gmap N nat :=
  match counts !! owner with
  | None => counts
  | Some count =>
      let count := (count - 1)%nat in
      if (count =? 0)%nat then delete owner counts else <[owner := count]> counts
  end.

Definition Registry_remove (call : N) (owner : option N) (r : Registry)
    : option RegisteredCall * Registry :=
  match calls r !! call with
  | Some registered =>
      if (match owner with None => true | Some o => bool_decide (o = rc_owner registered) end)
      then (Some registered,
            mkRegistry (delete call (calls r))
              (decrement_owner (rc_owner registered) (per_owner r)))
      else (None, r)
  | None => (None, r)
  end.

Definition increment_owner (owner : N) (counts : gmap N nat) : gmap N nat :=
  <[owner := S (default 0%nat (counts !! owner))]> counts.

(** The section of [register] under the registry mutex (a failed reservation is
    an input of the step). *)
Definition Registry_insert (owner call : N) (r : Registry) : Registry :=
  mkRegistry (<[call := mkRegisteredCall owner None]> (calls r))
    (increment_owner owner (per_owner r)).

(** The section of [release_owner]: the removed calls, in the order found. *)
Fixpoint Registry_remove_all (ids : list N) (owner : N) (r : Registry)
    : list (N * RegisteredCall) * Registry :=
  match ids with
  | [] => ([], r)
  | id :: ids =>
      let '(removed, r) := Registry_remove id (Some owner) r in
      let '(rest, r) := Registry_remove_all ids owner r in
      (match removed with Some c => (id, c) :: rest | None => rest end, r)
  end.

Definition owned_ids (owner : N) (r : Registry) : list N :=
  (filter (λ entry, rc_owner entry.2 = owner) (map_to_list (calls r))).*1.

Definition Registry_release_owner (owner : N) (r : Registry)
    : list (N * RegisteredCall) * Registry :=
  Registry_remove_all (owned_ids owner r) owner r.

(** The section of [attach_task]: the orphaned task, if any, is returned. *)
Definition Registry_attach (owner call task : N) (r : Registry) : option N * Registry :=
  match calls r !! call with
  | Some registered =>
      if bool_decide (rc_owner registered = owner)
      then (None,
            mkRegistry (<[call := mkRegisteredCall (rc_owner registered) (Some task)]> (calls r))
              (per_owner r))
      else (Some task, r)
  | None => (Some task, r)
  end.

(** The lookup of [await_call]. *)
Definition owns_call (owner call : N) (r : Registry) : bool :=
  match calls r !! call with
  | Some registered => bool_decide (rc_owner registered = owner)
  | None => false
  end.

Definition unregistered_calls (owner : N) (ids : list N) (r : Registry) : list N :=
  filter (λ call, owns_call owner call r = false) ids.

Definition registered_calls (owner : N) (r : Registry) : nat :=
  default 0%nat (per_owner r !! owner).

Definition registered_call_total (r : Registry) : nat := size (calls r).

(** [new_owner_id]: the loop over random draws; [None] while every draw so far
    was rejected. *)
Fixpoint new_owner_id (draws : list N) : option N :=
  match draws with
  | [] => None
  | high :: draws =>
      let owner := N.land high (MAX_CALL_ID - 1) in
      if owner =? 0 then new_owner_id draws else Some owner
  end.

(** ** Threads *)

(** What a thread still has to do; each action is one critical section. *)
Inductive Action :=
| AInsert (owner call : N)
| ACloseSlot (call : N)
| AAbort (task : N)
| AAwaitSlot (owner call : N)
| ARetire (owner call : N).

Record Process := mkProcess {
  registry : Registry;
  next_call : N;
  slots : gmap N SlotState;
  guards : gset N;
  threads : list (list Action);
  aborted : list N;
  (* history: what each registered identifier's task published, and what the
     terminal reads returned *)
  published : gmap N Operation;
  answers : list (N * Operation * Answer);
  failures : list Failure
}.

Definition Process_init : Process :=
  mkProcess Registry_default 1 ∅ ∅ [] [] ∅ [] [].

Inductive Event :=
| EvRegister (owner : N)
| EvReserveFails (thread : nat)
| EvReleaseOwner (owner : N)
| EvReleaseCall (owner call : N)
| EvAttach (owner call task : N)
| EvAwait (owner call : N)
| EvGuardComplete (call : N) (outcome : Operation)
| EvGuardDrop (call : N) (panicking : bool)
| EvRun (thread : nat) (timed_out : bool).

Definition with_registry r p : Process :=
  mkProcess r (next_call p) (slots p) (guards p) (threads p) (aborted p) (published p)
    (answers p) (failures p).
Definition with_slots s p : Process :=
  mkProcess (registry p) (next_call p) s (guards p) (threads p) (aborted p) (published p)
    (answers p) (failures p).
Definition with_threads t p : Process :=
  mkProcess (registry p) (next_call p) (slots p) (guards p) t (aborted p) (published p)
    (answers p) (failures p).
Definition spawn (actions : list Action) p : Process := with_threads (threads p ++ [actions]) p.
Definition record_failure f p : Process :=
  mkProcess (registry p) (next_call p) (slots p) (guards p) (threads p) (aborted p)
    (published p) (answers p) (failures p ++ [f]).

(** [CompletionGuard::complete] and [CompletionGuard::drop]: the guard is spent
    and the slot settled if it is still pending. *)
Definition guard_settle (call : N) (outcome : Operation) (p : Process) : option Process :=
  if decide (call ∈ guards p) then
    Some (mkProcess (registry p) (next_call p)
            (alter (slot_complete outcome) call (slots p))
            (guards p ∖ {[call]}) (threads p) (aborted p)
            (<[call := outcome]> (published p)) (answers p) (failures p))
  else None.

Definition guard_drop_outcome (panicking : bool) : Operation :=
  Err (if panicking then panic_failure else closed_failure).

(** [register]: the identifier is drawn first; the rest runs under the
    registry mutex. *)
Definition register (owner : N) (p : Process) : Process :=
  let call := next_call p in
  let p := mkProcess (registry p) (u64_wrapping_add call 1) (slots p) (guards p)
             (threads p) (aborted p) (published p) (answers p) (failures p) in
  if MAX_CALL_ID <=? call then record_failure exhausted_failure p
  else spawn [AInsert owner call] p.

Definition release_owner (owner : N) (p : Process) : Process :=
  let '(released, r) := Registry_release_owner owner (registry p) in
  spawn ((λ entry, ACloseSlot entry.1) <$> released) (with_registry r p).

Definition release_call (owner call : N) (p : Process) : Process :=
  match Registry_remove call (Some owner) (registry p) with
  | (None, _) => p
  | (Some released, r) =>
      spawn (ACloseSlot call :: (AAbort <$> option_list (rc_task released)))
        (with_registry r p)
  end.

Definition attach_task (owner call task : N) (p : Process) : Process :=
  let '(orphan, r) := Registry_attach owner call task (registry p) in
  match orphan with
  | None => with_registry r p
  | Some task => spawn [AAbort task] p
  end.

Definition await_call (owner call : N) (p : Process) : Process :=
  if owns_call owner call (registry p)
  then spawn [AAwaitSlot owner call] p
  else record_failure closed_failure p.

(** Runs the first action of a thread; [None] when it has to wait. *)
Definition run_action (timed_out : bool) (a : Action) (p : Process)
    : option (list Action * Process) :=
  match a with
  | AInsert owner call =>
      Some ([],
        mkProcess (Registry_insert owner call (registry p)) (next_call p)
          (<[call := Pending]> (slots p)) ({[call]} ∪ guards p) (threads p) (aborted p)
          (published p) (answers p) (failures p))
  | ACloseSlot call => Some ([], with_slots (alter slot_close call (slots p)) p)
  | AAbort task =>
      Some ([], mkProcess (registry p) (next_call p) (slots p) (guards p) (threads p)
                  (aborted p ++ [task]) (published p) (answers p) (failures p))
  | AAwaitSlot owner call =>
      s ← slots p !! call;
      '(outcome, answer, s') ← slot_take timed_out s;
      let p := mkProcess (registry p) (next_call p) (<[call := s']> (slots p)) (guards p)
                 (threads p) (aborted p) (published p)
                 (answers p ++ [(call, outcome, answer)]) (failures p) in
      Some (match answer with NotReadyYet => [] | _ => [ARetire owner call] end, p)
  | ARetire owner call =>
      Some ([], with_registry (Registry_remove call (Some owner) (registry p)).2 p)
  end.

Definition process_step (ev : Event) (p : Process) : option Process :=
  match ev with
  | EvRegister owner => Some (register owner p)
  | EvReserveFails i =>
      match threads p !! i with
      | Some (AInsert _ _ :: rest) =>
          Some (record_failure
                  (mkFailure STATUS_INTERNAL "could not reserve a Temporal client call slot")
                  (with_threads (<[i := rest]> (threads p)) p))
      | _ => None
      end
  | EvReleaseOwner owner => Some (release_owner owner p)
  | EvReleaseCall owner call => Some (release_call owner call p)
  | EvAttach owner call task => Some (attach_task owner call task p)
  | EvAwait owner call => Some (await_call owner call p)
  | EvGuardComplete call outcome => guard_settle call outcome p
  | EvGuardDrop call panicking => guard_settle call (guard_drop_outcome panicking) p
  | EvRun i timed_out =>
      match threads p !! i with
      | Some (a :: rest) =>
          '(next, p) ← run_action timed_out a p;
          Some (with_threads (<[i := next ++ rest]> (threads p)) p)
      | _ => None
      end
  end.

Fixpoint process_run (evs : list Event) (p : Process) : option Process :=
  match evs with
  | [] => Some p
  | ev :: evs => process_step ev p ≫= process_run evs
  end.

(** ** Admission limits *)

Definition MAX_PENDING_WAITS : N := 64.
Definition MAX_PENDING_STARTS : N := 64.
Definition MAX_PENDING_CALLS : N := 4096.
Definition MAX_CONFIGURABLE_PENDING_WAITS : N := 4096.
Definition MAX_CONFIGURABLE_PENDING_STARTS : N := 4096.
Definition MAX_CONFIGURABLE_IN_FLIGHT_CALLS : N := 65536.

Record ClientLimits := mkClientLimits {
  pending_waits : N;
  pending_starts : N;
  in_flight_calls : N
}.

Definition ClientLimits_default : ClientLimits :=
  mkClientLimits MAX_PENDING_WAITS MAX_PENDING_STARTS MAX_PENDING_CALLS.

Definition limit_failure (name : string) (maximum : N) : Failure :=
  mkFailure STATUS_CONFIGURATION
    ("client " +:+ name +:+ " must be between 1 and " +:+ pretty maximum).

Definition limit (name : string) (value : option N) (maximum default : N)
    : result N Failure :=
  match value with
  | None => Ok default
  | Some value =>
      if (1 <=? value) && (value <=? maximum) then Ok value
      else Err (limit_failure name maximum)
  end.

Definition from_config (waits starts in_flight : option N) : result ClientLimits Failure :=
  (let? w := limit "max_pending_waits" waits MAX_CONFIGURABLE_PENDING_WAITS
                (pending_waits ClientLimits_default) in
   let? s := limit "max_pending_starts" starts MAX_CONFIGURABLE_PENDING_STARTS
                (pending_starts ClientLimits_default) in
   let? c := limit "max_in_flight_calls" in_flight MAX_CONFIGURABLE_IN_FLIGHT_CALLS
                (in_flight_calls ClientLimits_default) in
   Ok (mkClientLimits w s c))%bridge.

(** ** The per-owner count *)

Definition owner_count (owner : N) (r : Registry) : nat :=
  size (filter (λ entry, rc_owner entry.2 = owner) (calls r)).

(** The count map holds exactly the non-zero counts. *)
Definition registry_ok (r : Registry) : Prop :=
  ∀ owner, per_owner r !! owner
    = if (owner_count owner r =? 0)%nat then None else Some (owner_count owner r).

Lemma registered_calls_ok r owner :
  registry_ok r → registered_calls owner r = owner_count owner r.
Proof.
  intros Hr. unfold registered_calls. rewrite Hr.
  by destruct (Nat.eqb_spec (owner_count owner r) 0) as [->|].
Qed.

Lemma owner_count_delete call c r counts owner :
  calls r !! call = Some c →
  owner_count owner r
  = (owner_count owner (mkRegistry (delete call (calls r)) counts)
     + (if decide (rc_owner c = owner) then 1 else 0))%nat.
Proof.
  intros Hc. unfold owner_count. simpl. rewrite map_filter_delete. case_decide as Ho.
  - rewrite <-(insert_delete_id (filter (λ entry, rc_owner entry.2 = owner) (calls r)) call c)
      at 1; [|by apply map_lookup_filter_Some].
    rewrite map_size_insert_None by apply lookup_delete_eq. lia.
  - rewrite delete_id; [lia|]. apply map_lookup_filter_None. right. naive_solver.
Qed.

Lemma owner_count_insert call c r counts owner :
  calls r !! call = None →
  owner_count owner (mkRegistry (<[call := c]> (calls r)) counts)
  = (owner_count owner r + (if decide (rc_owner c = owner) then 1 else 0))%nat.
Proof.
  intros Hc. unfold owner_count. simpl. rewrite map_filter_insert. simpl. case_decide as Ho.
  - rewrite map_size_insert_None; [lia|]. apply map_lookup_filter_None. by left.
  - rewrite delete_id; [lia|exact Hc].
Qed.

Lemma registry_ok_default : registry_ok Registry_default.
Proof. intros owner. unfold owner_count. simpl. by rewrite map_filter_empty, map_size_empty. Qed.

Lemma registry_ok_remove call owner r :
  registry_ok r → registry_ok (Registry_remove call owner r).2.
Proof.
  intros Hr. unfold Registry_remove. destruct (calls r !! call) as [c|] eqn:Hc; [|done].
  destruct owner as [o|]; [case_bool_decide; [|done]|];
    (intros o'; simpl; unfold decrement_owner;
     pose proof (owner_count_delete call c r
       (decrement_owner (rc_owner c) (per_owner r)) (rc_owner c) Hc) as Hown;
     pose proof (owner_count_delete call c r
       (decrement_owner (rc_owner c) (per_owner r)) o' Hc) as Hother;
     unfold decrement_owner in *; rewrite decide_True in Hown by done;
     pose proof (Hr (rc_owner c)) as Hcount; pose proof (Hr o') as Hcount';
     destruct (Nat.eqb_spec (owner_count (rc_owner c) r) 0) as [|]; [lia|];
     rewrite Hcount in *; simpl in *;
     destruct (decide (rc_owner c = o')) as [<-|Hne];
     [ destruct (Nat.eqb_spec (owner_count (rc_owner c) r - 1) 0);
       [rewrite lookup_delete_eq|rewrite lookup_insert_eq];
       repeat match goal with |- context [(?a =? ?b)%nat] => destruct (Nat.eqb_spec a b) end;
       try lia; f_equal; lia
     | destruct (owner_count (rc_owner c) r - 1 =? 0)%nat;
       [rewrite lookup_delete_ne by done|rewrite lookup_insert_ne by done];
       rewrite Hcount'; rewrite Hother, Nat.add_0_r; done ]).
Qed.

Lemma registry_ok_insert owner call r :
  registry_ok r → calls r !! call = None → registry_ok (Registry_insert owner call r).
Proof.
  intros Hr Hc o. unfold Registry_insert, increment_owner. simpl.
  rewrite owner_count_insert by done. simpl.
  pose proof (registered_calls_ok r owner Hr) as Hcount. unfold registered_calls in Hcount.
  rewrite Hcount. case_decide as Ho.
  - subst o. rewrite lookup_insert_eq.
    destruct (Nat.eqb_spec (owner_count owner r + 1) 0); [lia|f_equal; lia].
  - rewrite lookup_insert_ne by done. by rewrite Hr, Nat.add_0_r.
Qed.

Lemma registry_ok_attach owner call task r :
  registry_ok r → registry_ok (Registry_attach owner call task r).2.
Proof.
  intros Hr. unfold Registry_attach. destruct (calls r !! call) as [c|] eqn:Hc; [|done].
  case_bool_decide as Ho; [|done]. intros o. simpl. rewrite Hr.
  enough (owner_count o (mkRegistry (<[call := mkRegisteredCall (rc_owner c) (Some task)]>
            (calls r)) (per_owner r)) = owner_count o r) as ->; [done|].
  rewrite <-insert_delete_eq.
  rewrite (owner_count_delete call c r (per_owner r) o Hc).
  pose proof (owner_count_insert call (mkRegisteredCall (rc_owner c) (Some task))
    (mkRegistry (delete call (calls r)) (per_owner r)) (per_owner r) o) as Hinsert.
  cbn [calls rc_owner] in Hinsert. rewrite Hinsert; [done|apply lookup_delete_eq].
Qed.

(** ** What the registry operations do to the entries *)

Lemma Registry_remove_lookup call owner r c :
  calls (Registry_remove call (Some owner) r).2 !! c
  = if decide (c = call ∧ owns_call owner call r = true) then None else calls r !! c.
Proof.
  unfold Registry_remove, owns_call. destruct (calls r !! call) as [rc|] eqn:Hc.
  - rewrite (bool_decide_ext (owner = rc_owner rc) (rc_owner rc = owner)) by done.
    case_bool_decide; simpl.
    + case_decide as Hd; [destruct Hd as [-> _]; apply lookup_delete_eq|].
      apply lookup_delete_ne. naive_solver.
    + case_decide; naive_solver.
  - case_decide; naive_solver.
Qed.

Lemma owns_call_Some owner call r :
  owns_call owner call r = true
  ↔ ∃ rc, calls r !! call = Some rc ∧ rc_owner rc = owner.
Proof.
  unfold owns_call. destruct (calls r !! call); [rewrite bool_decide_eq_true|]; naive_solver.
Qed.

Lemma Registry_remove_fst call owner r rc :
  (Registry_remove call (Some owner) r).1 = Some rc ↔
  calls r !! call = Some rc ∧ rc_owner rc = owner.
Proof.
  unfold Registry_remove. destruct (calls r !! call); [case_bool_decide|]; naive_solver.
Qed.

Lemma Registry_remove_all_spec ids owner r :
  registry_ok r →
  let '(released, r') := Registry_remove_all ids owner r in
  registry_ok r' ∧
  (∀ c, calls r' !! c
     = if decide (c ∈ ids ∧ owns_call owner c r = true) then None else calls r !! c) ∧
  (∀ c rc, (c, rc) ∈ released ↔
     c ∈ ids ∧ calls r !! c = Some rc ∧ rc_owner rc = owner).
Proof.
  revert r. induction ids as [|id ids IH]; intros r Hr;
    cbn [Registry_remove_all].
  - split_and!; [done| |set_solver]. intros c. case_decide; set_solver.
  - pose proof (Registry_remove_lookup id owner r) as Hlookup.
    pose proof (Registry_remove_fst id owner r) as Hfst.
    pose proof (registry_ok_remove id (Some owner) r Hr) as Hr1.
    destruct (Registry_remove id (Some owner) r) as [removed r1]. simpl in *.
    specialize (IH r1 Hr1).
    destruct (Registry_remove_all ids owner r1) as [rest r2].
    destruct IH as (Hr2 & Hcalls & Hrest).
    assert (∀ c, owns_call owner c r1 = true ↔ c ≠ id ∧ owns_call owner c r = true) as Howns.
    { intros c. pose proof (Hlookup c) as Hc. rewrite !owns_call_Some.
      destruct (decide (c = id ∧ _)) as [Hd|Hd]; rewrite owns_call_Some in Hd;
        rewrite Hc; naive_solver. }
    split_and!; [done| |].
    + intros c. rewrite Hcalls, Hlookup. specialize (Howns c).
      pose proof (elem_of_cons ids c id). clear Hcalls Hlookup Hrest Hfst.
      repeat case_decide; naive_solver.
    + intros c rc. specialize (Hrest c rc). rewrite Hlookup in Hrest.
      destruct (decide (c = id ∧ _)) as [Hd|Hd]; rewrite owns_call_Some in Hd;
        destruct removed as [rc1|]; set_solver.
Qed.

Lemma elem_of_owned_ids owner r c :
  c ∈ owned_ids owner r ↔ owns_call owner c r = true.
Proof.
  unfold owned_ids. rewrite list_elem_of_fmap, owns_call_Some. split.
  - intros ([c' rc] & -> & Hin). apply list_elem_of_filter in Hin as [Ho Hin].
    apply elem_of_map_to_list in Hin. eauto.
  - intros (rc & Hc & Ho). exists (c, rc). split; [done|].
    apply list_elem_of_filter. split; [done|]. by apply elem_of_map_to_list.
Qed.

Lemma Registry_release_owner_spec owner r :
  registry_ok r →
  let '(released, r') := Registry_release_owner owner r in
  registry_ok r' ∧
  (∀ c, calls r' !! c = if decide (owns_call owner c r = true) then None else calls r !! c) ∧
  (∀ c rc, (c, rc) ∈ released ↔ calls r !! c = Some rc ∧ rc_owner rc = owner).
Proof.
  intros Hr. unfold Registry_release_owner.
  pose proof (Registry_remove_all_spec (owned_ids owner r) owner r Hr) as Hspec.
  destruct (Registry_remove_all _ _ _) as [released r']. destruct Hspec as (? & Hc & Hrel).
  split_and!; [done| |].
  - intros c. rewrite Hc. pose proof (elem_of_owned_ids owner r c).
    repeat case_decide; naive_solver.
  - intros c rc. rewrite Hrel, elem_of_owned_ids, owns_call_Some. naive_solver.
Qed.
