(* ===== verification/ClientSafety.v ===== *)
(** * Safety of the client call cells

    The invariant of every interleaving of the operations of [ClientCalls] and
    the theorems on it: the per-owner count that admission reads is exact, an
    outcome reaches at most one caller and is the one the task published, a
    waiter is never stranded, and an owner cannot observe or disturb the calls
    of another. *)

From S2P Require Import Prelude.
From S2P Require Import ClientCalls.
Local Open Scope N_scope.

(** ** The invariant *)

Definition inserting (todo : list Action) : list N :=
  omap (λ a, match a with AInsert _ call => Some call | _ => None end) todo.

Definition delivered (log : list (N * Operation * Answer)) : list N :=
  omap (λ a, match a with (call, _, Delivered) => Some call | _ => None end) log.

(** What a thread may rely on when it reaches an action. *)
Definition action_ok (p : Process) (a : Action) : Prop :=
  match a with
  | AInsert _ call => call < next_call p ∧ slots p !! call = None
  | ACloseSlot call => is_Some (slots p !! call) ∧ calls (registry p) !! call = None
  | AAbort _ => True
  | AAwaitSlot owner call | ARetire owner call =>
      is_Some (slots p !! call) ∧
      ∀ rc, calls (registry p) !! call = Some rc → rc_owner rc = owner
  end.

Record process_ok (todo : list Action) (p : Process) : Prop := mk_process_ok {
  po_registry : registry_ok (registry p);
  po_calls : ∀ c, is_Some (calls (registry p) !! c) → is_Some (slots p !! c);
  po_known : ∀ c, is_Some (slots p !! c) → c < next_call p;
  po_inserting : NoDup (inserting todo);
  po_actions : ∀ a, a ∈ todo → action_ok p a;
  po_guarded : ∀ c, slots p !! c = Some Pending → c ∈ guards p;
  po_armed : ∀ c, c ∈ guards p → is_Some (slots p !! c) ∧ published p !! c = None;
  po_ready : ∀ c outcome, slots p !! c = Some (Ready outcome) → published p !! c = Some outcome;
  po_once : NoDup (delivered (answers p));
  po_delivered : ∀ c outcome, (c, outcome, Delivered) ∈ answers p →
    published p !! c = Some outcome ∧ slots p !! c = Some Closed;
  po_published : ∀ c, is_Some (published p !! c) → is_Some (slots p !! c)
}.

Lemma process_ok_perm todo todo' p :
  todo ≡ₚ todo' → process_ok todo p → process_ok todo' p.
Proof.
  intros Hperm []. split; try done.
  - unfold inserting. by rewrite <-Hperm.
  - intros a. rewrite <-Hperm. auto.
Qed.

Lemma process_ok_init : process_ok [] Process_init.
Proof.
  split; simpl; try apply registry_ok_default; try constructor;
    intros *; rewrite ?lookup_empty; try (by intros []); set_solver.
Qed.

(** The thread's remaining actions, as a part of everything still to do. *)
Lemma thread_todo (ts : list (list Action)) i a rest :
  ts !! i = Some (a :: rest) →
  ∃ others, concat ts ≡ₚ a :: others ∧
    ∀ next, concat (<[i := next ++ rest]> ts) ≡ₚ next ++ others.
Proof.
  intros Hi. exists (rest ++ concat (take i ts) ++ concat (drop (S i) ts)). split.
  - rewrite <-(take_drop_middle ts i (a :: rest)) at 1 by done.
    rewrite concat_app. simpl. solve_Permutation.
  - intros next. assert (i < length ts)%nat by (by apply lookup_lt_Some in Hi).
    rewrite insert_take_drop by done. rewrite concat_app. simpl. solve_Permutation.
Qed.

Lemma inserting_app l1 l2 : inserting (l1 ++ l2) = inserting l1 ++ inserting l2.
Proof. unfold inserting. apply omap_app. Qed.

Lemma elem_of_inserting todo c : c ∈ inserting todo ↔ ∃ o, AInsert o c ∈ todo.
Proof.
  unfold inserting. rewrite list_elem_of_omap. split.
  - intros ([] & Hin & Heq); simplify_eq. eauto.
  - intros [o Hin]. eauto.
Qed.

Lemma delivered_snoc log c outcome a :
  delivered (log ++ [(c, outcome, a)])
  = delivered log ++ (match a with Delivered => [c] | _ => [] end).
Proof. unfold delivered. rewrite omap_app. by destruct a. Qed.

Lemma elem_of_delivered log c :
  c ∈ delivered log ↔ ∃ outcome, (c, outcome, Delivered) ∈ log.
Proof.
  unfold delivered. rewrite list_elem_of_omap. split.
  - intros ([[c' out] []] & Hin & Heq); simplify_eq. eauto.
  - intros [out Hin]. eauto.
Qed.

(** ** Preservation *)

(** A registry edit that only removes entries or attaches tasks. *)
Definition shrinks (r r' : Registry) : Prop :=
  ∀ c rc', calls r' !! c = Some rc' → ∃ rc, calls r !! c = Some rc ∧ rc_owner rc = rc_owner rc'.

Lemma action_ok_shrink a r p :
  shrinks (registry p) r → action_ok p a → action_ok (with_registry r p) a.
Proof.
  intros Hs. destruct a as [| call | | |]; simpl; try done.
  - intros [? Hnone]. split; [done|]. apply eq_None_not_Some. intros [rc' Hrc].
    destruct (Hs _ _ Hrc) as (rc & Hrc' & _). congruence.
  - intros [? Howner]. split; [done|]. intros rc' Hrc.
    destruct (Hs _ _ Hrc) as (rc & Hrc' & <-). eauto.
  - intros [? Howner]. split; [done|]. intros rc' Hrc.
    destruct (Hs _ _ Hrc) as (rc & Hrc' & <-). eauto.
Qed.

Lemma process_ok_shrink todo r p :
  shrinks (registry p) r → registry_ok r →
  process_ok todo p → process_ok todo (with_registry r p).
Proof.
  intros Hs Hr []. split; try done.
  - intros c [rc' Hrc]. destruct (Hs _ _ Hrc) as (rc & Hrc' & _). eauto.
  - intros a Ha. by apply action_ok_shrink; auto.
Qed.

Lemma shrinks_refl r : shrinks r r.
Proof. intros c rc. eauto. Qed.

Lemma shrinks_remove call owner r : shrinks r (Registry_remove call (Some owner) r).2.
Proof. intros c rc. rewrite Registry_remove_lookup. case_decide; [done|eauto]. Qed.

Lemma shrinks_attach owner call task r : shrinks r (Registry_attach owner call task r).2.
Proof.
  intros c rc. unfold Registry_attach. destruct (calls r !! call) as [rc0|] eqn:Hc; [|eauto].
  case_bool_decide; [|eauto]. simpl. rewrite lookup_insert. case_decide as Hcall; [|eauto].
  intros [= <-]. subst. eauto.
Qed.

(** Adding actions to do. *)
Lemma process_ok_spawn todo new p :
  inserting new = [] → Forall (action_ok p) new →
  process_ok todo p → process_ok (todo ++ new) p.
Proof.
  intros Hnone Hnew []. split; try done.
  - by rewrite inserting_app, Hnone, app_nil_r.
  - intros a. rewrite elem_of_app. rewrite Forall_forall in Hnew. naive_solver.
Qed.

(** Everything but the agenda and the log of failures. *)
Lemma process_ok_with_threads todo ts p :
  process_ok todo p → process_ok todo (with_threads ts p).
Proof. intros []. by split. Qed.

Lemma process_ok_record_failure todo f p :
  process_ok todo p → process_ok todo (record_failure f p).
Proof. intros []. by split. Qed.

(** Changing a slot that exists, the settled state of which is accounted for. *)
Lemma process_ok_slot todo c s s' gs' pub' log' p :
  process_ok todo p → slots p !! c = Some s →
  (s' = Pending → c ∈ gs') →
  (∀ outcome, s' = Ready outcome → pub' !! c = Some outcome) →
  (s = Closed → s' = Closed) →
  (∀ k, k ∈ gs' → k ∈ guards p ∧ pub' !! k = None) →
  (∀ k, k ∈ guards p → k ≠ c → k ∈ gs') →
  (∀ k outcome, published p !! k = Some outcome → pub' !! k = Some outcome) →
  (∀ k, is_Some (pub' !! k) → is_Some (published p !! k) ∨ k = c) →
  NoDup (delivered log') →
  (∀ k outcome, (k, outcome, Delivered) ∈ log' →
     (k, outcome, Delivered) ∈ answers p ∨ k = c ∧ s' = Closed ∧ pub' !! k = Some outcome) →
  process_ok todo
    (mkProcess (registry p) (next_call p) (<[c := s']> (slots p)) gs' (threads p) (aborted p)
       pub' log' (failures p)).
Proof.
  intros [] Hc Hpend Hready Hclosed Hgs Hgs' Hpub Hpub' Hnodup Hlog.
  assert (∀ k, is_Some (<[c := s']> (slots p) !! k) ↔ is_Some (slots p !! k)) as Hdom.
  { intros k. rewrite lookup_insert. case_decide; naive_solver. }
  split; simpl; try done.
  - intros k ?. apply Hdom. auto.
  - intros k ?%Hdom. auto.
  - intros a Ha. specialize (po_actions0 a Ha).
    destruct a; simpl in *; rewrite ?Hdom, ?eq_None_not_Some in *; rewrite ?Hdom; done.
  - intros k. rewrite lookup_insert. case_decide; naive_solver.
  - intros k [Hk ?]%Hgs. rewrite Hdom. naive_solver.
  - intros k outcome. rewrite lookup_insert. case_decide; naive_solver.
  - intros k outcome Hin. rewrite lookup_insert.
    destruct (Hlog _ _ Hin) as [Hold|(-> & -> & ?)]; [|by rewrite decide_True].
    destruct (po_delivered0 _ _ Hold) as [? Hk]. split; [auto|].
    case_decide; [|done]. subst. rewrite Hc in Hk. f_equal. naive_solver.
  - intros k Hk. apply Hdom. destruct (Hpub' _ Hk) as [| ->]; eauto.
Qed.

Lemma alter_existing (f : SlotState → SlotState) c s (m : gmap N SlotState) :
  m !! c = Some s → alter f c m = <[c := f s]> m.
Proof.
  intros Hc. apply map_eq. intros k. rewrite lookup_alter, lookup_insert.
  case_decide; [|done]. by subst; rewrite Hc.
Qed.

Lemma guard_settle_ok todo c outcome p p' :
  process_ok todo p → guard_settle c outcome p = Some p' → process_ok todo p'.
Proof.
  intros Hok. unfold guard_settle. case_decide as Hc; [|done]. intros [= <-].
  destruct (po_armed _ _ Hok c Hc) as [[s Hs] Hpub]. rewrite (alter_existing _ c s) by done.
  apply (process_ok_slot _ _ s); try done.
  - by destruct s.
  - intros out. destruct s; simpl; try done.
    + intros [= <-]. apply lookup_insert_eq.
    + intros [= <-]. apply (po_ready _ _ Hok) in Hs. congruence.
  - by intros ->.
  - intros k Hk. rewrite elem_of_difference, elem_of_singleton in Hk. destruct Hk as [Hk Hne].
    split; [done|]. rewrite lookup_insert_ne by done. by apply (po_armed _ _ Hok).
  - intros k ??. by rewrite elem_of_difference, elem_of_singleton.
  - intros k out Hk. rewrite lookup_insert_ne; [done|]. intros <-. congruence.
  - intros k. rewrite lookup_insert. case_decide; auto.
  - apply (po_once _ _ Hok).
  - auto.
Qed.

Lemma close_slot_ok todo c p :
  process_ok (ACloseSlot c :: todo) p → process_ok todo (with_slots (alter slot_close c (slots p)) p).
Proof.
  intros Hok. destruct (po_actions _ _ Hok (ACloseSlot c)) as [[s Hs] _]; [left|].
  assert (process_ok todo p) as Hok'.
  { destruct Hok. split; try done. intros a Ha. apply po_actions0. by right. }
  unfold with_slots. rewrite (alter_existing _ c s) by done.
  apply (process_ok_slot _ _ s); try done.
  - by destruct s.
  - intros out. destruct s; simpl; try done. intros [= ->]. by apply (po_ready _ _ Hok).
  - by intros ->.
  - intros k Hk. split; [done|]. by apply (po_armed _ _ Hok).
  - auto.
  - apply (po_once _ _ Hok).
  - auto.
Qed.

Lemma await_slot_ok todo owner c s timed_out outcome answer s' p :
  process_ok (AAwaitSlot owner c :: todo) p → slots p !! c = Some s →
  slot_take timed_out s = Some (outcome, answer, s') →
  process_ok ((match answer with NotReadyYet => [] | _ => [ARetire owner c] end) ++ todo)
    (mkProcess (registry p) (next_call p) (<[c := s']> (slots p)) (guards p) (threads p)
       (aborted p) (published p) (answers p ++ [(c, outcome, answer)]) (failures p)).
Proof.
  intros Hok Hs Htake.
  assert (process_ok ((match answer with NotReadyYet => [] | _ => [ARetire owner c] end) ++ todo) p)
    as Hok'.
  { pose proof (po_actions _ _ Hok (AAwaitSlot owner c)) as Hawait.
    destruct Hok. split; try done.
    - by destruct answer.
    - intros a [Ha|Ha]%elem_of_app; [|apply po_actions0; by right].
      destruct answer; [by apply elem_of_nil in Ha| |];
        apply list_elem_of_singleton in Ha as ->; apply Hawait; left. }
  apply (process_ok_slot _ _ s); try done.
  - intros ->. destruct s; simplify_eq/=; try (by destruct timed_out).
    by apply (po_guarded _ _ Hok).
  - intros out ->. by destruct s, timed_out.
  - intros ->. by simplify_eq/=.
  - intros k Hk. split; [done|]. by apply (po_armed _ _ Hok).
  - auto.
  - rewrite delivered_snoc. destruct answer; rewrite ?app_nil_r; try apply (po_once _ _ Hok).
    apply NoDup_app. split_and!; [apply (po_once _ _ Hok)| |apply NoDup_singleton].
    intros k (out & Hin)%elem_of_delivered ->%list_elem_of_singleton.
    apply (po_delivered _ _ Hok) in Hin as [_ Hk]. rewrite Hs in Hk. injection Hk as ->.
    simplify_eq/=.
  - intros k out [Hin|Hin]%elem_of_app; [by left|]. apply list_elem_of_singleton in Hin.
    injection Hin as -> -> <-. right. destruct s; simplify_eq/=; try (by destruct timed_out).
    split_and!; try done. by apply (po_ready _ _ Hok).
Qed.

Lemma insert_ok todo owner c p :
  process_ok (AInsert owner c :: todo) p →
  process_ok todo
    (mkProcess (Registry_insert owner c (registry p)) (next_call p)
       (<[c := Pending]> (slots p)) ({[c]} ∪ guards p) (threads p) (aborted p)
       (published p) (answers p) (failures p)).
Proof.
  intros []. destruct (po_actions0 (AInsert owner c)) as [Hlt Hfresh]; [left|].
  assert (calls (registry p) !! c = None) as Hcalls.
  { apply eq_None_not_Some. intros Hc%po_calls0. rewrite Hfresh in Hc. by destruct Hc. }
  unfold inserting in po_inserting0. simpl in po_inserting0.
  apply NoDup_cons in po_inserting0 as [Hnew Hnodup].
  split; simpl; try done.
  - by apply registry_ok_insert.
  - intros k. rewrite !lookup_insert. case_decide; naive_solver.
  - intros k. rewrite lookup_insert. case_decide; naive_solver.
  - intros a Ha. assert (action_ok p a) as Hok by (apply po_actions0; by right).
    destruct a as [o k|k|t|o k|o k]; simpl in *; rewrite ?lookup_insert; try done.
    + split; [by destruct Hok|]. case_decide; [|by destruct Hok]. subst k. destruct Hnew.
      apply elem_of_inserting. eauto.
    + case_decide; [subst k; rewrite Hfresh in Hok; by destruct Hok as [[]]|done].
    + case_decide; [subst k; rewrite Hfresh in Hok; by destruct Hok as [[]]|done].
    + case_decide; [subst k; rewrite Hfresh in Hok; by destruct Hok as [[]]|done].
  - intros k. rewrite lookup_insert. case_decide; set_solver.
  - intros k. rewrite elem_of_union, elem_of_singleton, lookup_insert.
    intros [->|Hk]; [|case_decide; naive_solver].
    split; [rewrite decide_True by done; eauto|].
    apply eq_None_not_Some. intros Hk%po_published0. rewrite Hfresh in Hk. by destruct Hk.
  - intros k out. rewrite lookup_insert. case_decide; naive_solver.
  - intros k out Hin. destruct (po_delivered0 _ _ Hin). split; [done|].
    rewrite lookup_insert. case_decide; naive_solver.
  - intros k Hk%po_published0. rewrite lookup_insert. case_decide; eauto.
Qed.

Lemma process_ok_tail todo a p : process_ok (a :: todo) p → process_ok todo p.
Proof.
  intros []. split; try done.
  - unfold inserting in *. simpl in po_inserting0. destruct a; try done.
    by apply NoDup_cons in po_inserting0 as [_ ?].
  - intros a' Ha. apply po_actions0. by right.
Qed.

Lemma run_action_ok timed_out a todo next p p' :
  process_ok (a :: todo) p → run_action timed_out a p = Some (next, p') →
  process_ok (next ++ todo) p'.
Proof.
  intros Hok Hrun. destruct a as [o c|c|t|o c|o c]; simpl in Hrun.
  - injection Hrun as <- <-. by apply insert_ok.
  - injection Hrun as <- <-. by apply close_slot_ok.
  - injection Hrun as <- <-. apply process_ok_tail in Hok. destruct Hok. by split.
  - destruct (slots p !! c) as [s|] eqn:Hs; [|done]. simpl in Hrun.
    destruct (slot_take timed_out s) as [[[out answer] s']|] eqn:Htake; [|done].
    simpl in Hrun. injection Hrun as <- <-. by eapply await_slot_ok.
  - injection Hrun as <- <-. apply process_ok_tail in Hok. simpl.
    apply process_ok_shrink; [apply shrinks_remove| |done].
    apply registry_ok_remove, (po_registry _ _ Hok).
Qed.

Lemma run_action_threads timed_out a next p p' :
  run_action timed_out a p = Some (next, p') → threads p' = threads p.
Proof.
  destruct a; simpl; intros Hrun; simplify_eq; try done.
  destruct (slots p !! call); [|done]. simpl in Hrun.
  destruct (slot_take _ _) as [[[]]|]; simpl in Hrun; by simplify_eq.
Qed.

(** ** Every interleaving *)

Definition process_inv (p : Process) : Prop := process_ok (concat (threads p)) p.

Lemma process_inv_spawn new p :
  inserting new = [] → Forall (action_ok p) new → process_inv p → process_inv (spawn new p).
Proof.
  intros Hnone Hnew Hp. unfold process_inv, spawn. apply process_ok_with_threads. simpl.
  rewrite concat_app. simpl. rewrite app_nil_r. by apply process_ok_spawn.
Qed.

Lemma process_inv_shrink r p :
  shrinks (registry p) r → registry_ok r → process_inv p → process_inv (with_registry r p).
Proof. unfold process_inv. simpl. apply process_ok_shrink. Qed.

Lemma register_inv owner p :
  process_inv p → next_call p + 1 < 2 ^ 64 → process_inv (register owner p).
Proof.
  intros Hp Hlt. unfold register.
  assert (u64_wrapping_add (next_call p) 1 = next_call p + 1) as ->.
  { unfold u64_wrapping_add. by rewrite N.mod_small. }
  assert (∀ c, c < next_call p → c < next_call p + 1) as Hmono by lia.
  destruct (MAX_CALL_ID <=? next_call p).
  - unfold process_inv in *. simpl. destruct Hp. split; simpl; auto.
    intros a Ha. specialize (po_actions0 a Ha). destruct a; simpl in *; naive_solver.
  - unfold process_inv, spawn in *. simpl. rewrite concat_app. simpl. destruct Hp.
    split; simpl; auto.
    + rewrite inserting_app. simpl. apply NoDup_app.
      split_and!; [done| |apply NoDup_singleton].
      intros c [o Hc]%elem_of_inserting Hin%list_elem_of_singleton. subst c.
      apply po_actions0 in Hc as [? _]. lia.
    + intros a [Ha|Ha]%elem_of_app.
      * specialize (po_actions0 a Ha). destruct a; simpl in *; naive_solver.
      * apply list_elem_of_singleton in Ha as ->. simpl. split; [lia|].
        apply eq_None_not_Some. intros Hc%po_known0. lia.
Qed.

Lemma release_owner_inv owner p : process_inv p → process_inv (release_owner owner p).
Proof.
  intros Hp. unfold release_owner.
  pose proof (Registry_release_owner_spec owner (registry p) (po_registry _ _ Hp)) as Hspec.
  destruct (Registry_release_owner owner (registry p)) as [released r].
  destruct Hspec as (Hr & Hcalls & Hreleased).
  assert (shrinks (registry p) r) as Hs.
  { intros c rc'. rewrite Hcalls. case_decide; [done|eauto]. }
  apply process_inv_spawn; [|apply Forall_forall|by apply process_inv_shrink].
  - clear. induction released as [|[c rc] released IH]; [done|exact IH].
  - intros a Ha. apply list_elem_of_fmap in Ha as ([c rc] & -> & Hin).
    apply Hreleased in Hin as [Hc Ho]. simpl. split; [apply (po_calls _ _ Hp); eauto|].
    rewrite Hcalls, decide_True; [done|]. apply owns_call_Some. eauto.
Qed.

Lemma release_call_inv owner c p : process_inv p → process_inv (release_call owner c p).
Proof.
  intros Hp. unfold release_call.
  pose proof (Registry_remove_fst c owner (registry p)) as Hfst.
  pose proof (Registry_remove_lookup c owner (registry p) c) as Hlookup.
  pose proof (registry_ok_remove c (Some owner) (registry p) (po_registry _ _ Hp)) as Hr.
  pose proof (shrinks_remove c owner (registry p)) as Hs.
  destruct (Registry_remove c (Some owner) (registry p)) as [[rc|] r]; [|done].
  simpl in *. destruct (proj1 (Hfst rc) eq_refl) as [Hc Ho].
  apply process_inv_spawn; [by destruct (rc_task rc)| |by apply process_inv_shrink].
  constructor.
  - simpl. split; [apply (po_calls _ _ Hp); eauto|].
    rewrite Hlookup, decide_True; [done|]. split; [done|]. apply owns_call_Some. eauto.
  - destruct (rc_task rc); simpl; repeat constructor.
Qed.

Lemma attach_task_inv owner c task p : process_inv p → process_inv (attach_task owner c task p).
Proof.
  intros Hp. unfold attach_task.
  pose proof (registry_ok_attach owner c task (registry p) (po_registry _ _ Hp)) as Hr.
  pose proof (shrinks_attach owner c task (registry p)) as Hs.
  destruct (Registry_attach owner c task (registry p)) as [[t|] r]; simpl in *.
  - by apply process_inv_spawn; [|repeat constructor|].
  - by apply process_inv_shrink.
Qed.

Lemma await_call_inv owner c p : process_inv p → process_inv (await_call owner c p).
Proof.
  intros Hp. unfold await_call. destruct (owns_call owner c (registry p)) eqn:Howns.
  - apply owns_call_Some in Howns as (rc & Hc & Ho).
    apply process_inv_spawn; [done| |done]. constructor; [|done]. simpl.
    split; [apply (po_calls _ _ Hp); eauto|]. intros rc' Hrc'. congruence.
  - by apply process_ok_record_failure.
Qed.

Lemma process_step_inv ev p p' :
  process_inv p → next_call p + 1 < 2 ^ 64 → process_step ev p = Some p' → process_inv p'.
Proof.
  intros Hp Hlt Hstep. destruct ev as [o|i|o|o c|o c t|o c|c out|c b|i b]; simpl in Hstep.
  - injection Hstep as <-. by apply register_inv.
  - destruct (threads p !! i) as [[|[] rest]|] eqn:Hi; simplify_eq.
    destruct (thread_todo _ _ _ _ Hi) as (others & Hperm & Hnext).
    apply process_ok_record_failure, process_ok_with_threads. simpl.
    eapply process_ok_perm; [symmetry; apply (Hnext [])|].
    eapply process_ok_tail, process_ok_perm; [exact Hperm|exact Hp].
  - injection Hstep as <-. by apply release_owner_inv.
  - injection Hstep as <-. by apply release_call_inv.
  - injection Hstep as <-. by apply attach_task_inv.
  - injection Hstep as <-. by apply await_call_inv.
  - assert (threads p' = threads p) as Ht
      by (unfold guard_settle in Hstep; case_decide; simplify_eq; done).
    unfold process_inv. rewrite Ht. by eapply guard_settle_ok.
  - assert (threads p' = threads p) as Ht
      by (unfold guard_settle in Hstep; case_decide; simplify_eq; done).
    unfold process_inv. rewrite Ht. by eapply guard_settle_ok.
  - destruct (threads p !! i) as [[|a rest]|] eqn:Hi; try done.
    destruct (run_action b a p) as [[next q]|] eqn:Hrun; [|done].
    simpl in Hstep. injection Hstep as <-.
    destruct (thread_todo _ _ _ _ Hi) as (others & Hperm & Hnext).
    apply process_ok_with_threads. simpl. rewrite (run_action_threads _ _ _ _ _ Hrun).
    eapply process_ok_perm; [symmetry; apply Hnext|].
    eapply run_action_ok; [|exact Hrun]. by eapply process_ok_perm.
Qed.

(** Identifiers are drawn one per registration. *)
Definition is_register (ev : Event) : bool :=
  match ev with EvRegister _ => true | _ => false end.

Definition registrations (evs : list Event) : N :=
  N.of_nat (length (filter is_register evs)).

Lemma run_action_next_call timed_out a next p p' :
  run_action timed_out a p = Some (next, p') → next_call p' = next_call p.
Proof.
  destruct a; simpl; intros Hrun; simplify_eq; try done.
  destruct (slots p !! call); [|done]. simpl in Hrun.
  destruct (slot_take _ _) as [[[]]|]; simpl in Hrun; by simplify_eq.
Qed.

Lemma process_step_next_call ev p p' :
  next_call p + 1 < 2 ^ 64 → process_step ev p = Some p' →
  next_call p' = next_call p + registrations [ev].
Proof.
  intros Hlt Hstep. unfold registrations. destruct ev as [o|i|o|o c|o c t|o c|c out|c b|i b];
    simpl in *; rewrite ?N.add_0_r.
  - injection Hstep as <-. unfold register. rewrite u64_wrapping_add_exact by exact Hlt.
    by destruct (MAX_CALL_ID <=? next_call p).
  - destruct (threads p !! i) as [[|[] rest]|]; by simplify_eq.
  - injection Hstep as <-. unfold release_owner.
    by destruct (Registry_release_owner _ _).
  - injection Hstep as <-. unfold release_call. by destruct (Registry_remove _ _ _) as [[]].
  - injection Hstep as <-. unfold attach_task. by destruct (Registry_attach _ _ _ _) as [[]].
  - injection Hstep as <-. unfold await_call. by destruct (owns_call _ _ _).
  - unfold guard_settle in Hstep. case_decide; by simplify_eq.
  - unfold guard_settle in Hstep. case_decide; by simplify_eq.
  - destruct (threads p !! i) as [[|a rest]|]; try done.
    destruct (run_action b a p) as [[next q]|] eqn:Hrun; [|done].
    simpl in Hstep. injection Hstep as <-. simpl. by eapply run_action_next_call.
Qed.

Lemma registrations_cons ev evs : registrations (ev :: evs) = registrations [ev] + registrations evs.
Proof.
  unfold registrations. rewrite (filter_app _ [ev] evs), length_app. lia.
Qed.

Lemma process_run_inv evs p p' :
  process_inv p → next_call p + registrations evs < 2 ^ 64 - 1 →
  process_run evs p = Some p' → process_inv p'.
Proof.
  revert p. induction evs as [|ev evs IH]; intros p Hp Hlt Hrun; simpl in Hrun; [by simplify_eq|].
  destruct (process_step ev p) as [q|] eqn:Hstep; [|done]. simpl in Hrun.
  rewrite registrations_cons in Hlt. assert (next_call p + 1 < 2 ^ 64) by lia.
  apply (IH q); [by eapply process_step_inv| |done].
  rewrite (process_step_next_call ev p q) by done. lia.
Qed.

Lemma reachable_inv evs p :
  registrations evs < 2 ^ 64 - 2 → process_run evs Process_init = Some p → process_inv p.
Proof.
  intros Hlt. apply process_run_inv; [apply process_ok_init|]. simpl. lia.
Qed.

(** The event that made a task's outcome public. *)
Definition settles_call (c : N) (outcome : Operation) (ev : Event) : Prop :=
  match ev with
  | EvGuardComplete c' outcome' => c' = c ∧ outcome' = outcome
  | EvGuardDrop c' panicking => c' = c ∧ guard_drop_outcome panicking = outcome
  | _ => False
  end.

Lemma run_action_published timed_out a next p p' :
  run_action timed_out a p = Some (next, p') → published p' = published p.
Proof.
  destruct a; simpl; intros Hrun; simplify_eq; try done.
  destruct (slots p !! call); [|done]. simpl in Hrun.
  destruct (slot_take _ _) as [[[]]|]; simpl in Hrun; by simplify_eq.
Qed.

Lemma process_step_published ev p p' c outcome :
  process_step ev p = Some p' → published p' !! c = Some outcome →
  published p !! c = Some outcome ∨ settles_call c outcome ev.
Proof.
  intros Hstep Hpub. destruct ev as [o|i|o|o k|o k t|o k|k out|k b|i b]; simpl in *.
  - injection Hstep as <-. left. unfold register in Hpub.
    by destruct (MAX_CALL_ID <=? next_call p).
  - destruct (threads p !! i) as [[|[] rest]|]; simplify_eq; by left.
  - injection Hstep as <-. left. unfold release_owner in Hpub.
    by destruct (Registry_release_owner _ _).
  - injection Hstep as <-. left. unfold release_call in Hpub.
    by destruct (Registry_remove _ _ _) as [[]].
  - injection Hstep as <-. left. unfold attach_task in Hpub.
    by destruct (Registry_attach _ _ _ _) as [[]].
  - injection Hstep as <-. left. unfold await_call in Hpub. by destruct (owns_call _ _ _).
  - unfold guard_settle in Hstep. case_decide; [|done]. injection Hstep as <-. simpl in Hpub.
    rewrite lookup_insert in Hpub. case_decide; [right|left]; naive_solver.
  - unfold guard_settle in Hstep. case_decide; [|done]. injection Hstep as <-. simpl in Hpub.
    rewrite lookup_insert in Hpub. case_decide; [right|left]; naive_solver.
  - destruct (threads p !! i) as [[|a rest]|]; try done.
    destruct (run_action b a p) as [[next q]|] eqn:Hrun; [|done].
    simpl in Hstep. injection Hstep as <-. simpl in Hpub. left.
    by rewrite <-(run_action_published _ _ _ _ _ Hrun).
Qed.

Lemma process_run_published evs p p' c outcome :
  process_run evs p = Some p' → published p' !! c = Some outcome →
  published p !! c = Some outcome ∨ Exists (settles_call c outcome) evs.
Proof.
  revert p. induction evs as [|ev evs IH]; intros p Hrun Hpub; simpl in Hrun.
  - simplify_eq. by left.
  - destruct (process_step ev p) as [q|] eqn:Hstep; [|done]. simpl in Hrun.
    destruct (IH q Hrun Hpub) as [Hq|]; [|by right; apply Exists_cons_tl].
    destruct (process_step_published _ _ _ _ _ Hstep Hq); [by left|].
    right. by apply Exists_cons_hd.
Qed.

(** ** The theorems *)

(** Exact admission count.  In every interleaving of registrations,
    releases, awaits, task attachments and task completions (short of 2^64
    registrations), the count [registered_calls] that admission reads for an
    owner is the number of registry entries bound to that owner, no zero count
    is kept, and no identifier handed out is registered before its turn. *)
Theorem registered_calls_exact evs p owner :
  registrations evs < 2 ^ 64 - 2 → process_run evs Process_init = Some p →
  registered_calls owner (registry p)
    = size (filter (λ entry, rc_owner entry.2 = owner) (calls (registry p))) ∧
  per_owner (registry p) !! owner ≠ Some 0%nat ∧
  (∀ c, is_Some (calls (registry p) !! c) → c < next_call p).
Proof.
  intros Hlt Hrun. pose proof (reachable_inv _ _ Hlt Hrun) as Hp.
  pose proof (po_registry _ _ Hp) as Hr. split_and!.
  - by apply registered_calls_ok.
  - rewrite Hr. destruct (Nat.eqb_spec (owner_count owner (registry p)) 0); [done|]. by intros [=].
  - intros c Hc. by apply (po_known _ _ Hp), (po_calls _ _ Hp).
Qed.

(** C11: one outcome, to one caller.  However the awaits of any number of
    threads, the releases and the tasks interleave, a call's outcome is consumed
    by at most one await, and what that await returned is what the call's task
    published: the value it completed with, or the failure of its dropped
    guard. *)
Theorem outcome_delivered_once evs p :
  registrations evs < 2 ^ 64 - 2 → process_run evs Process_init = Some p →
  NoDup (delivered (answers p)) ∧
  ∀ c outcome, (c, outcome, Delivered) ∈ answers p → Exists (settles_call c outcome) evs.
Proof.
  intros Hlt Hrun. pose proof (reachable_inv _ _ Hlt Hrun) as Hp. split; [apply (po_once _ _ Hp)|].
  intros c outcome Hin. destruct (po_delivered _ _ Hp _ _ Hin) as [Hpub _].
  destruct (process_run_published _ _ _ _ _ Hrun Hpub) as [Hinit|]; [|done].
  simpl in Hinit. by rewrite lookup_empty in Hinit.
Qed.


(** The owner on whose behalf an event acts: the operation's argument, the
    operation a running thread is in, or the registered owner of the settled
    call.  Closing a released slot and aborting a task act for nobody. *)
Definition acts_for (ev : Event) (p : Process) : option N :=
  match ev with
  | EvRegister o | EvReleaseOwner o | EvReleaseCall o _ | EvAttach o _ _ | EvAwait o _ => Some o
  | EvReserveFails _ => None
  | EvGuardComplete c _ | EvGuardDrop c _ => rc_owner <$> calls (registry p) !! c
  | EvRun i _ =>
      match threads p !! i with
      | Some (AInsert o _ :: _) | Some (AAwaitSlot o _ :: _) | Some (ARetire o _ :: _) => Some o
      | _ => None
      end
  end.

Definition same_call (c : N) (p p' : Process) : Prop :=
  calls (registry p') !! c = calls (registry p) !! c ∧ slots p' !! c = slots p !! c.

Lemma remove_foreign k o c r rc :
  calls r !! c = Some rc → rc_owner rc ≠ o →
  calls (Registry_remove k (Some o) r).2 !! c = calls r !! c.
Proof.
  intros Hc Hne. rewrite Registry_remove_lookup. case_decide as Hd; [|done].
  destruct Hd as [-> Howns%owns_call_Some]. naive_solver.
Qed.

Lemma release_owner_foreign o c rc p :
  process_inv p → calls (registry p) !! c = Some rc → rc_owner rc ≠ o →
  same_call c p (release_owner o p).
Proof.
  intros Hp Hc Hne. unfold release_owner.
  pose proof (Registry_release_owner_spec o (registry p) (po_registry _ _ Hp)) as Hspec.
  destruct (Registry_release_owner o (registry p)) as [released r].
  destruct Hspec as (_ & Hcalls & _). split; simpl; [|done]. rewrite Hcalls.
  case_decide as Howns; [|done]. apply owns_call_Some in Howns. naive_solver.
Qed.

Lemma release_call_foreign o k c rc p :
  calls (registry p) !! c = Some rc → rc_owner rc ≠ o → same_call c p (release_call o k p).
Proof.
  intros Hc Hne. unfold release_call. pose proof (remove_foreign k o c _ rc Hc Hne) as Hr.
  destruct (Registry_remove k (Some o) (registry p)) as [[] r]; by split.
Qed.

Lemma attach_task_foreign o k t c rc p :
  calls (registry p) !! c = Some rc → rc_owner rc ≠ o → same_call c p (attach_task o k t p).
Proof.
  intros Hc Hne. unfold attach_task, Registry_attach.
  destruct (calls (registry p) !! k) as [rk|] eqn:Hk; [|by split].
  case_bool_decide; [|by split]. split; simpl; [|done].
  apply lookup_insert_ne. intros ->. naive_solver.
Qed.

Lemma run_action_foreign timed_out a todo next p p' c rc :
  process_ok (a :: todo) p → run_action timed_out a p = Some (next, p') →
  calls (registry p) !! c = Some rc →
  match a with
  | AInsert o _ | AAwaitSlot o _ | ARetire o _ => rc_owner rc ≠ o
  | _ => True
  end → same_call c p p'.
Proof.
  intros Hok Hrun Hc Hne. assert (is_Some (slots p !! c)) as Hslot by (apply (po_calls _ _ Hok); eauto).
  pose proof (po_actions _ _ Hok a ltac:(left)) as Ha.
  destruct a as [o k|k|t|o k|o k]; simpl in *.
  - injection Hrun as <- <-. assert (k ≠ c) by (intros ->; destruct Ha as [_ Ha]; rewrite Ha in *; by destruct Hslot).
    by split; simpl; apply lookup_insert_ne.
  - injection Hrun as <- <-. split; [done|]. simpl. apply lookup_alter_ne. naive_solver.
  - injection Hrun as <- <-. by split.
  - destruct (slots p !! k) as [s|]; [|done]. simpl in Hrun.
    destruct (slot_take timed_out s) as [[[out answer] s']|]; [|done]. simpl in Hrun.
    injection Hrun as <- <-. split; [done|]. simpl. apply lookup_insert_ne. naive_solver.
  - injection Hrun as <- <-. split; [|done]. by eapply remove_foreign.
Qed.

Lemma step_foreign ev p p' c rc :
  process_inv p → process_step ev p = Some p' → calls (registry p) !! c = Some rc →
  acts_for ev p ≠ Some (rc_owner rc) → same_call c p p'.
Proof.
  intros Hp Hstep Hc Hne. destruct ev as [o|i|o|o k|o k t|o k|k out|k b|i b]; simpl in *.
  - injection Hstep as <-. unfold register. by destruct (MAX_CALL_ID <=? next_call p).
  - by destruct (threads p !! i) as [[|[] rest]|]; simplify_eq.
  - injection Hstep as <-. eapply release_owner_foreign; naive_solver.
  - injection Hstep as <-. eapply release_call_foreign; naive_solver.
  - injection Hstep as <-. eapply attach_task_foreign; naive_solver.
  - injection Hstep as <-. unfold await_call. by destruct (owns_call _ _ _).
  - unfold guard_settle in Hstep. case_decide; simplify_eq. split; [done|]. simpl.
    apply lookup_alter_ne. intros ->. by rewrite Hc in Hne.
  - unfold guard_settle in Hstep. case_decide; simplify_eq. split; [done|]. simpl.
    apply lookup_alter_ne. intros ->. by rewrite Hc in Hne.
  - destruct (threads p !! i) as [[|a rest]|] eqn:Hi; try done.
    destruct (run_action b a p) as [[next q]|] eqn:Hrun; [|done].
    simpl in Hstep. injection Hstep as <-.
    destruct (thread_todo _ _ _ _ Hi) as (others & Hperm & _).
    apply (run_action_foreign _ _ others _ _ q c rc) in Hrun;
      [exact Hrun|by eapply process_ok_perm|done|].
    destruct a; naive_solver.
Qed.

(** Owners are isolated.  In every reachable state, a step that does not act
    for the owner of a registered call leaves that call's registry entry and its
    cell untouched: no operation of another owner can read, settle, retire or
    release it, nor can the closing of other released calls. *)
Theorem foreign_owner_isolated evs p ev p' c rc :
  registrations evs < 2 ^ 64 - 2 → process_run evs Process_init = Some p →
  calls (registry p) !! c = Some rc → acts_for ev p ≠ Some (rc_owner rc) →
  process_step ev p = Some p' →
  calls (registry p') !! c = Some rc ∧ slots p' !! c = slots p !! c.
Proof.
  intros Hlt Hrun Hc Hne Hstep. pose proof (reachable_inv _ _ Hlt Hrun) as Hp.
  destruct (step_foreign _ _ _ _ _ Hp Hstep Hc Hne) as [-> ->]. done.
Qed.

(** ** Releasing an owner *)

Lemma run_closes i ids p :
  threads p !! i = Some (ACloseSlot <$> ids) →
  process_run (replicate (length ids) (EvRun i false)) p
  = Some (with_threads (<[i := []]> (threads p))
            (with_slots (foldl (λ m c, alter slot_close c m) (slots p) ids) p)).
Proof.
  revert p. induction ids as [|c ids IH]; intros p Hi; cbn [length replicate process_run].
  - f_equal. destruct p. unfold with_threads, with_slots. simpl in *.
    by rewrite list_insert_id.
  - cbn [process_step]. rewrite Hi. cbn. rewrite IH.
    + f_equal. unfold with_threads, with_slots. simpl. by rewrite list_insert_insert_eq.
    + simpl. apply list_lookup_insert_eq. by apply lookup_lt_Some in Hi.
Qed.

Lemma foldl_close_lookup ids (m : gmap N SlotState) c :
  foldl (λ m c, alter slot_close c m) m ids !! c
  = if decide (c ∈ ids) then slot_close <$> m !! c else m !! c.
Proof.
  revert m. induction ids as [|k ids IH]; intros m; cbn [foldl].
  - case_decide; set_solver.
  - rewrite IH, lookup_alter. pose proof (elem_of_cons ids c k).
    assert (∀ s, slot_close (slot_close s) = slot_close s) by (by intros []).
    repeat case_decide; try naive_solver. subst. destruct (m !! c) as [[]|]; naive_solver.
Qed.

(** Releasing an owner.  From every reachable state, [release_owner] leaves
    the owner with no registered call, keeps every other owner's entry, and the
    thread that runs it finishes: afterwards the cell of each call the owner had
    is closed, or still holds an outcome published before, so every caller
    waiting on one of them can return. *)
Theorem release_owner_settles evs p owner :
  registrations evs < 2 ^ 64 - 2 → process_run evs Process_init = Some p →
  let p' := release_owner owner p in
  registered_calls owner (registry p') = 0%nat ∧
  (∀ c, calls (registry p') !! c
     = if decide (owns_call owner c (registry p) = true) then None
       else calls (registry p) !! c) ∧
  ∃ n p'', process_run (replicate n (EvRun (length (threads p)) false)) p' = Some p'' ∧
    threads p'' !! length (threads p) = Some [] ∧
    ∀ c, slots p'' !! c
      = if decide (owns_call owner c (registry p) = true) then slot_close <$> slots p !! c
        else slots p !! c.
Proof.
  intros Hlt Hrun. pose proof (reachable_inv _ _ Hlt Hrun) as Hp. simpl.
  pose proof (po_registry _ _ (release_owner_inv owner p Hp)) as Hr'. unfold release_owner in *.
  pose proof (Registry_release_owner_spec owner (registry p) (po_registry _ _ Hp)) as Hspec.
  destruct (Registry_release_owner owner (registry p)) as [released r].
  destruct Hspec as (_ & Hcalls & Hreleased). split_and!; [|exact Hcalls|].
  - rewrite registered_calls_ok by exact Hr'. unfold owner_count. simpl. apply map_size_empty_iff.
    apply map_empty. intros c. apply map_lookup_filter_None. right. intros rc. rewrite Hcalls.
    case_decide as Ho; [done|]. rewrite owns_call_Some in Ho. naive_solver.
  - assert ((λ entry : N * RegisteredCall, ACloseSlot entry.1) <$> released
            = ACloseSlot <$> released.*1) as -> by (by rewrite <-list_fmap_compose).
    eexists (length released.*1), _. split_and!.
    + apply run_closes. simpl. by rewrite lookup_app_r, Nat.sub_diag by lia.
    + simpl. apply list_lookup_insert_eq. rewrite length_app. simpl. lia.
    + intros c. simpl. rewrite foldl_close_lookup.
      assert (c ∈ released.*1 ↔ owns_call owner c (registry p) = true) as Hiff.
      { rewrite owns_call_Some, list_elem_of_fmap. split.
        - intros ([c' rc] & -> & Hin%Hreleased). eauto.
        - intros (rc & Hin%Hreleased). by exists (c, rc). }
      repeat case_decide; naive_solver.
Qed.

(** ** Limits and identities *)

(** Configured limits.  [from_config] accepts exactly the documents whose
    present fields lie between one and the field's maximum, fills the absent
    ones with the defaults, and answers anything else with a configuration
    failure. *)
Theorem from_config_accepts waits starts in_flight :
  (∀ l, from_config waits starts in_flight = Ok l ↔
     l = mkClientLimits (default 64 waits) (default 64 starts) (default 4096 in_flight) ∧
     1 ≤ pending_waits l ≤ MAX_CONFIGURABLE_PENDING_WAITS ∧
     1 ≤ pending_starts l ≤ MAX_CONFIGURABLE_PENDING_STARTS ∧
     1 ≤ in_flight_calls l ≤ MAX_CONFIGURABLE_IN_FLIGHT_CALLS) ∧
  (∀ f, from_config waits starts in_flight = Err f → f_status f = STATUS_CONFIGURATION).
Proof.
  assert (∀ name v max d, 1 ≤ d ≤ max →
    (limit name v max d = Ok (default d v) ∧ 1 ≤ default d v ≤ max) ∨
    (limit name v max d = Err (limit_failure name max) ∧ ¬ 1 ≤ default d v ≤ max)) as Hlimit.
  { intros name [v|] max d Hd; simpl; [|by left].
    destruct (N.leb_spec 1 v), (N.leb_spec v max); simpl; [left|right..]; split; try done; lia. }
  unfold from_config, ClientLimits_default, MAX_PENDING_WAITS, MAX_PENDING_STARTS,
    MAX_PENDING_CALLS. cbn [pending_waits pending_starts in_flight_calls].
  destruct (Hlimit "max_pending_waits" waits MAX_CONFIGURABLE_PENDING_WAITS 64)
    as [[Hw ?]|[Hw ?]]; [done|rewrite Hw; cbn..];
  [destruct (Hlimit "max_pending_starts" starts MAX_CONFIGURABLE_PENDING_STARTS 64)
    as [[Hs ?]|[Hs ?]]; [done|rewrite Hs; cbn..]|];
  [destruct (Hlimit "max_in_flight_calls" in_flight MAX_CONFIGURABLE_IN_FLIGHT_CALLS 4096)
    as [[Hc ?]|[Hc ?]]; [done|rewrite Hc; cbn..]| |];
  (split; [intros l; split; [intros [= <-]; split; done|] | intros f [= <-]; done]);
  intros (-> & ? & ? & ?); simpl in *; done.
Qed.

(** Owner identities.  An identity [new_owner_id] returns is nonzero and
    below 2^62, so it is a positive native integer on the other side of the
    boundary, and it is the low 62 bits of a random draw. *)
Theorem new_owner_id_bounds draws owner :
  new_owner_id draws = Some owner →
  0 < owner < MAX_CALL_ID ∧ ∃ high, high ∈ draws ∧ owner = high `mod` 2 ^ 62.
Proof.
  induction draws as [|high draws IH]; simpl; [done|].
  change (MAX_CALL_ID - 1) with (N.ones 62). rewrite N.land_ones.
  destruct (N.eqb_spec (high `mod` 2 ^ 62) 0).
  - intros Hd%IH. destruct Hd as (? & h & ? & ?). split; [done|]. exists h. split; [by right|done].
  - intros [= <-]. assert (high `mod` 2 ^ 62 < 2 ^ 62) by (by apply N.mod_lt).
    split; [split; [by apply N.neq_0_lt_0|done]|]. exists high. split; [left|done].
Qed.

(** ** Witnesses *)

(** Two owners register a call each; the first one's caller starts to wait. *)
Definition sample_waiting : list Event :=
  [EvRegister 7; EvRun 0 false; EvRegister 9; EvRun 1 false; EvAttach 7 1 100; EvAwait 7 1].

(** The task answers, the caller reads the outcome, and a second reader comes late. *)
Definition sample_read : list Event :=
  sample_waiting ++ [EvAwait 7 1; EvGuardComplete 1 (Ok [x2a]); EvRun 2 false; EvRun 3 false].

Definition sample_after (evs : list Event) : Process :=
  default Process_init (process_run evs Process_init).

Lemma registered_calls_exact_witness :
  registered_calls 9 (registry (sample_after sample_read)) = 1%nat.
Proof.
  etransitivity;
    [exact (proj1 (registered_calls_exact sample_read (sample_after sample_read) 9
       ltac:(by vm_compute) ltac:(by vm_compute)))|by vm_compute].
Defined.

Lemma outcome_delivered_once_witness :
  (1, Ok [x2a], Delivered) ∈ answers (sample_after sample_read) ∧
  Exists (settles_call 1 (Ok [x2a])) sample_read.
Proof.
  assert ((1, Ok [x2a], Delivered) ∈ answers (sample_after sample_read)) as Hin
    by (vm_compute; left).
  split; [exact Hin|].
  exact (proj2 (outcome_delivered_once sample_read (sample_after sample_read)
    ltac:(by vm_compute) ltac:(by vm_compute)) 1 (Ok [x2a]) Hin).
Defined.


Lemma foreign_owner_isolated_witness :
  calls (registry (sample_after (sample_waiting ++ [EvReleaseOwner 9]))) !! 1
  = Some (mkRegisteredCall 7 (Some 100)).
Proof.
  exact (proj1 (foreign_owner_isolated sample_waiting (sample_after sample_waiting)
    (EvReleaseOwner 9) (sample_after (sample_waiting ++ [EvReleaseOwner 9])) 1
    (mkRegisteredCall 7 (Some 100))
    ltac:(by vm_compute) ltac:(by vm_compute) ltac:(by vm_compute)
    ltac:(by vm_compute) ltac:(by vm_compute))).
Defined.

Lemma release_owner_settles_witness :
  registered_calls 7 (registry (release_owner 7 (sample_after sample_waiting))) = 0%nat.
Proof.
  exact (proj1 (release_owner_settles sample_waiting (sample_after sample_waiting) 7
    ltac:(by vm_compute) ltac:(by vm_compute))).
Defined.

Lemma new_owner_id_bounds_witness : 0 < 5 < MAX_CALL_ID.
Proof. exact (proj1 (new_owner_id_bounds [2 ^ 62; 2 ^ 63 + 5] 5 ltac:(by vm_compute))). Defined.
