(* ===== verification/HeartbeatThrottle.v ===== *)
(** * The heartbeat throttle

    Model of src/rust/core-bridge/src/heartbeat_throttle.rs: the per-token
    throttle of heartbeats of activities completed asynchronously.  Each
    critical section of the throttle's mutex is one definition on
    [ThrottleState].  A driver task is a program point of [drive]; the runtime
    that runs, cancels and joins tasks, the clock and the answers of the server
    are the inputs of the step function. *)

From S2P Require Import Prelude.
From stdpp Require Import sorting.
From Stdlib Require Import SpecFloat.
Local Open Scope N_scope.

(** ** Flags *)

Record HeartbeatFlags := mkHeartbeatFlags {
  cancel_requested : bool;
  paused : bool;
  reset : bool
}.

Definition HeartbeatFlags_default : HeartbeatFlags := mkHeartbeatFlags false false false.

(** The body is kept as its ASCII text. *)
Definition outcome_body (f : HeartbeatFlags) : string :=
  if cancel_requested f then "cancel_requested"
  else if reset f then "reset"
  else if paused f then "paused"
  else EmptyString.

(** ** The interval

    A [Duration] is its number of nanoseconds.  [mul_f64] is the standard
    library's: the seconds as a binary64 number, one rounded product, and the
    conversion back, which rounds to the nearest nanosecond, ties to even. *)

Definition NANOS_PER_SEC : Z := 1000000000.

Definition f64_of_Z (z : Z) : spec_float := binary_normalize 53 1024 z 0 false.
Definition f64_0_8 : spec_float := SFdiv 53 1024 (f64_of_Z 8) (f64_of_Z 10).

Definition as_secs_f64 (d : Z) : spec_float :=
  SFadd 53 1024 (f64_of_Z (d / NANOS_PER_SEC)%Z)
    (SFdiv 53 1024 (f64_of_Z (d mod NANOS_PER_SEC)%Z) (f64_of_Z NANOS_PER_SEC)).

(** [None] is the panic on a negative, infinite or too large value. *)
Definition from_secs_f64 (x : spec_float) : option Z :=
  match x with
  | S754_zero _ => Some 0%Z
  | S754_finite false m e =>
      let scaled := (Z.pos m * NANOS_PER_SEC)%Z in
      let nanos :=
        if (0 <=? e)%Z then (scaled * 2 ^ e)%Z
        else
          let den := (2 ^ (- e))%Z in
          let q := (scaled / den)%Z in
          let r := (scaled mod den)%Z in
          if ((den <? 2 * r) || ((2 * r =? den) && Z.odd q))%Z then (q + 1)%Z else q in
      if (nanos <? 2 ^ 64 * NANOS_PER_SEC)%Z then Some nanos else None
  | _ => None
  end.

Definition mul_f64 (d : Z) (rhs : spec_float) : option Z :=
  from_secs_f64 (SFmul 53 1024 rhs (as_secs_f64 d)).

Record HeartbeatIntervals := mkHeartbeatIntervals {
  hi_max : Z;
  hi_default : Z
}.

Definition interval (self : HeartbeatIntervals) (heartbeat_timeout : option Z) : option Z :=
  let chosen :=
    match heartbeat_timeout with
    | Some timeout =>
        if negb (timeout / 1000000 =? 0)%Z then mul_f64 timeout f64_0_8
        else Some (hi_default self)
    | None => Some (hi_default self)
    end in
  (λ i, Z.min i (hi_max self)) <$> chosen.

(** ** The throttle *)

Section Throttle.
Context {Payloads Failure : Type}.

(** [SendOutcome]. *)
Definition SendOutcome : Type := result HeartbeatFlags Failure.

Record TokenState := mkTokenState {
  ts_id : N;
  ts_pending : option (option Payloads);
  ts_flags : HeartbeatFlags;
  ts_sending : bool
}.

Record ThrottleState := mkThrottleState {
  tokens : gmap (list byte) TokenState;
  drivers : gset N;
  next_id : N;
  closed : bool
}.

Inductive Admission :=
| Sent (id : N)
| Coalesced (flags : HeartbeatFlags)
| Unthrottled (details : option Payloads).

(** [record]: the admission, and the new state.  [finished] is what
    [JoinHandle::is_finished] says of the retained drivers. *)
Definition record (finished : N → bool) (task_token : list byte) (details : option Payloads)
    (max_tokens : nat) (s : ThrottleState) : Admission * ThrottleState :=
  match tokens s !! task_token with
  | Some token =>
      (Coalesced (ts_flags token),
       mkThrottleState
         (<[task_token := mkTokenState (ts_id token) (Some details) (ts_flags token)
                            (ts_sending token)]> (tokens s))
         (drivers s) (next_id s) (closed s))
  | None =>
      if closed s || (max_tokens <=? size (tokens s))%nat then (Unthrottled details, s)
      else
        let id := next_id s in
        (Sent id,
         mkThrottleState
           (<[task_token := mkTokenState id None HeartbeatFlags_default true]> (tokens s))
           ({[id]} ∪ filter (λ d, finished d = false) (drivers s))
           (u64_wrapping_add id 1) (closed s))
  end.

(** The critical section of [evict]: the removed details and the driver to
    abort once the lock is released. *)
Definition evict (task_token : list byte) (s : ThrottleState)
    : option (option (option Payloads) * option N) * ThrottleState :=
  match tokens s !! task_token with
  | None => (None, s)
  | Some token =>
      let driver :=
        if ts_sending token then None
        else if decide (ts_id token ∈ drivers s) then Some (ts_id token) else None in
      (Some (ts_pending token, driver),
       mkThrottleState (delete task_token (tokens s)) (drivers s) (next_id s) (closed s))
  end.

(** The critical section of [shutdown]: the drained driver handles. *)
Definition shutdown (s : ThrottleState) : gset N * ThrottleState :=
  (drivers s, mkThrottleState ∅ ∅ (next_id s) true).

Definition counts (finished : N → bool) (s : ThrottleState) : nat * nat * ThrottleState :=
  let s := mkThrottleState (tokens s) (filter (λ d, finished d = false) (drivers s))
             (next_id s) (closed s) in
  (size (tokens s), size (drivers s), s).

(** The entry of [task_token], if it is the driver [id]'s own. *)
Definition current (task_token : list byte) (id : N) (s : ThrottleState) : option TokenState :=
  token ← tokens s !! task_token;
  if ts_id token =? id then Some token else None.

Definition with_tokens t (s : ThrottleState) : ThrottleState :=
  mkThrottleState t (drivers s) (next_id s) (closed s).

Definition finish_send (task_token : list byte) (id : N) (outcome : SendOutcome)
    (s : ThrottleState) : bool * ThrottleState :=
  match current task_token id s with
  | None => (false, s)
  | Some token =>
      match outcome with
      | Ok flags =>
          (true, with_tokens (<[task_token := mkTokenState (ts_id token) (ts_pending token)
                                   flags false]> (tokens s)) s)
      | Err _ => (false, with_tokens (delete task_token (tokens s)) s)
      end
  end.

Definition take_pending (task_token : list byte) (id : N) (s : ThrottleState)
    : option (option Payloads) * ThrottleState :=
  match current task_token id s with
  | None => (None, s)
  | Some token =>
      match ts_pending token with
      | Some details =>
          (Some details,
           with_tokens (<[task_token := mkTokenState (ts_id token) None (ts_flags token)
                            true]> (tokens s)) s)
      | None => (None, with_tokens (delete task_token (tokens s)) s)
      end
  end.

Definition remove_if_current (task_token : list byte) (id : N) (s : ThrottleState)
    : ThrottleState :=
  match tokens s !! task_token with
  | Some token =>
      if ts_id token =? id then with_tokens (delete task_token (tokens s)) s else s
  | None => s
  end.

(** ** Driver tasks *)

(** Where [drive] stands.  [DSpawned] has not been polled yet (its guard does
    not exist); [DExiting] has returned or is unwinding and drops its guard
    next. *)
Inductive Point :=
| DSpawned (first : option Payloads)
| DLoop (details : option Payloads)
| DSending (started : N)
| DSleeping (started : N)
| DExiting
| DDone.

Record Driver := mkDriver {
  d_token : list byte;
  d_interval : N;
  d_reply : bool;
  d_point : Point
}.

Record Send := mkSend {
  sd_id : N;
  sd_token : list byte;
  sd_details : option Payloads;
  sd_started : N
}.

Record Throttle := mkThrottle {
  state : ThrottleState;
  tasks : gmap N Driver;
  to_abort : list N;
  aborted : gset N;
  now : N;
  (* history *)
  handed : gset N;
  sends : list Send;
  replies : list (N * SendOutcome);
  admissions : list (list byte * Admission);
  evicted : list (list byte * option (option Payloads))
}.

Definition Throttle_init : Throttle :=
  mkThrottle (mkThrottleState ∅ ∅ 0 false) ∅ [] ∅ 0 ∅ [] [] [] [].

Inductive Event :=
| EvRecord (task_token : list byte) (details : option Payloads) (interval : N)
    (max_tokens : nat)
| EvEvict (task_token : list byte)
| EvShutdown
| EvCounts
| EvAbort
| EvTick (elapsed : N)
| EvSend (id : N)
| EvAnswer (id : N) (outcome : SendOutcome)
| EvWake (id : N)
| EvCancel (id : N)
| EvPanic (id : N)
| EvDropGuard (id : N).

Definition is_finished (p : Throttle) (id : N) : bool :=
  match tasks p !! id with
  | Some d => match d_point d with DDone => true | _ => false end
  | None => true
  end.

Definition with_state s p : Throttle :=
  mkThrottle s (tasks p) (to_abort p) (aborted p) (now p) (handed p) (sends p) (replies p)
    (admissions p) (evicted p).
Definition set_driver (id : N) (d : Driver) p : Throttle :=
  mkThrottle (state p) (<[id := d]> (tasks p)) (to_abort p) (aborted p) (now p) (handed p)
    (sends p) (replies p) (admissions p) (evicted p).
Definition with_point (pt : Point) (d : Driver) : Driver :=
  mkDriver (d_token d) (d_interval d) (d_reply d) pt.

Definition do_record task_token details interval max_tokens (p : Throttle) : Throttle :=
  let '(admission, s) := record (is_finished p) task_token details max_tokens (state p) in
  let p := mkThrottle s (tasks p) (to_abort p) (aborted p) (now p) (handed p) (sends p)
             (replies p) (admissions p ++ [(task_token, admission)]) (evicted p) in
  match admission with
  | Sent id => set_driver id (mkDriver task_token interval true (DSpawned details)) p
  | _ => p
  end.

Definition do_evict task_token (p : Throttle) : Throttle :=
  match evict task_token (state p) with
  | (None, _) => p
  | (Some (pending, driver), s) =>
      mkThrottle s (tasks p) (to_abort p ++ option_list driver) (aborted p) (now p) (handed p)
        (sends p) (replies p) (admissions p) (evicted p ++ [(task_token, pending)])
  end.

Definition do_shutdown (p : Throttle) : Throttle :=
  let '(drained, s) := shutdown (state p) in
  mkThrottle s (tasks p) (to_abort p ++ elements drained) (aborted p) (now p)
    (drained ∪ handed p) (sends p) (replies p) (admissions p) (evicted p).

(** The top of the loop of [drive]: the interval starts with the send. *)
Definition start_send (id : N) (details : option Payloads) (d : Driver) (p : Throttle)
    : Throttle :=
  set_driver id (with_point (DSending (now p)) d)
    (mkThrottle (state p) (tasks p) (to_abort p) (aborted p) (now p) (handed p)
       (sends p ++ [mkSend id (d_token d) details (now p)]) (replies p) (admissions p)
       (evicted p)).

(** From the server's answer to the sleep, or to the return. *)
Definition answered (id started : N) (outcome : SendOutcome) (d : Driver) (p : Throttle)
    : Throttle :=
  let '(keep, s) := finish_send (d_token d) id outcome (state p) in
  let point := if (keep : bool) then DSleeping started else DExiting in
  set_driver id (mkDriver (d_token d) (d_interval d) false point)
    (mkThrottle s (tasks p) (to_abort p) (aborted p) (now p) (handed p) (sends p)
       (replies p ++ (if d_reply d then [(id, outcome)] else [])) (admissions p) (evicted p)).

(** After the sleep: the trailing send, or the return. *)
Definition woken (id : N) (d : Driver) (p : Throttle) : Throttle :=
  let '(next, s) := take_pending (d_token d) id (state p) in
  set_driver id
    (with_point (match next with Some details => DLoop details | None => DExiting end) d)
    (with_state s p).

Definition driver_step (ev : Event) (id : N) (d : Driver) (p : Throttle) : option Throttle :=
  match ev, d_point d with
  | EvSend _, DSpawned details | EvSend _, DLoop details => Some (start_send id details d p)
  | EvAnswer _ outcome, DSending started => Some (answered id started outcome d p)
  | EvWake _, DSleeping started =>
      if started + d_interval d <=? now p then Some (woken id d p) else None
  | EvCancel _, DSpawned _ =>
      if decide (id ∈ aborted p) then Some (set_driver id (with_point DDone d) p) else None
  | EvCancel _, DSending _ | EvCancel _, DSleeping _ =>
      if decide (id ∈ aborted p) then Some (set_driver id (with_point DExiting d) p) else None
  | EvPanic _, DLoop _ | EvPanic _, DSending _ | EvPanic _, DSleeping _ =>
      Some (set_driver id (with_point DExiting d) p)
  | EvDropGuard _, DExiting =>
      Some (set_driver id (with_point DDone d)
              (with_state (remove_if_current (d_token d) id (state p)) p))
  | _, _ => None
  end.

Definition event_driver (ev : Event) : option N :=
  match ev with
  | EvSend id | EvAnswer id _ | EvWake id | EvCancel id | EvPanic id | EvDropGuard id => Some id
  | _ => None
  end.

Definition throttle_step (ev : Event) (p : Throttle) : option Throttle :=
  match ev with
  | EvRecord task_token details interval max_tokens =>
      Some (do_record task_token details interval max_tokens p)
  | EvEvict task_token => Some (do_evict task_token p)
  | EvShutdown => Some (do_shutdown p)
  | EvCounts => Some (with_state (counts (is_finished p) (state p)).2 p)
  | EvAbort =>
      match to_abort p with
      | [] => None
      | id :: rest =>
          Some (mkThrottle (state p) (tasks p) rest ({[id]} ∪ aborted p) (now p) (handed p)
                  (sends p) (replies p) (admissions p) (evicted p))
      end
  | EvTick elapsed =>
      Some (mkThrottle (state p) (tasks p) (to_abort p) (aborted p) (now p + elapsed)
              (handed p) (sends p) (replies p) (admissions p) (evicted p))
  | _ =>
      id ← event_driver ev;
      d ← tasks p !! id;
      driver_step ev id d p
  end.

Fixpoint throttle_run (evs : list Event) (p : Throttle) : option Throttle :=
  match evs with
  | [] => Some p
  | ev :: evs => throttle_step ev p ≫= throttle_run evs
  end.

End Throttle.

Arguments TokenState : clear implicits.
Arguments ThrottleState : clear implicits.
Arguments Throttle : clear implicits.
Arguments Event : clear implicits.
Arguments Admission : clear implicits.
Arguments Point : clear implicits.
Arguments Driver : clear implicits.
Arguments Send : clear implicits.
Arguments SendOutcome : clear implicits.
