(* ===== verification/HeartbeatSafety.v ===== *)
(** * Safety of the heartbeat throttle

    The invariant of every interleaving of the throttle's operations with its
    driver tasks, and the theorems on it: the rate limit, that a driver touches
    only its own token's state, that pending details go out, that the tracked
    tokens stay bounded, and that shutdown accounts for every driver. *)

From S2P Require Import Prelude.
From S2P Require Import HeartbeatThrottle.
Local Open Scope N_scope.

Section Safety.
Context {Payloads Failure : Type}.
Implicit Types (p : Throttle Payloads Failure) (d : Driver Payloads)
  (ts : TokenState Payloads) (pt : Point Payloads).

(** ** The invariant *)

(** The state's [sending] flag follows its driver's program point. *)
Definition point_matches pt (sending : bool) : Prop :=
  match pt with
  | DSpawned _ | DLoop _ | DSending _ => sending = true
  | DSleeping _ => sending = false
  | DExiting => True
  | DDone => False
  end.

(** A past send against the program point of its driver. *)
Definition send_matches (now : N) d (started : N) : Prop :=
  match d_point d with
  | DSpawned _ => False
  | DLoop _ => started + d_interval d ≤ now
  | DSending st | DSleeping st => started ≤ st
  | DExiting | DDone => True
  end.

Definition gapped p : Prop :=
  ∀ i j si sj d, (i < j)%nat → sends p !! i = Some si → sends p !! j = Some sj →
    sd_id si = sd_id sj → tasks p !! sd_id si = Some d →
    sd_started si + d_interval d ≤ sd_started sj.

Record throttle_ok p : Prop := mk_throttle_ok {
  to_ids : ∀ id, is_Some (tasks p !! id) → id < next_id (state p);
  to_tokens : ∀ t ts, tokens (state p) !! t = Some ts →
    ts_id ts ∈ drivers (state p) ∧
    ∃ d, tasks p !! ts_id ts = Some d ∧ d_token d = t ∧
      point_matches (d_point d) (ts_sending ts);
  to_closed : closed (state p) = true → tokens (state p) = ∅ ∧ drivers (state p) = ∅;
  to_aborts : ∀ id, id ∈ to_abort p ∨ id ∈ aborted p →
    is_Some (tasks p !! id) ∧
    ∀ t ts, tokens (state p) !! t = Some ts → ts_id ts ≠ id;
  to_drivers : ∀ id, id ∈ drivers (state p) → is_Some (tasks p !! id);
  to_handles : ∀ id d, tasks p !! id = Some d → d_point d ≠ DDone →
    id ∈ drivers (state p) ∨ id ∈ handed p;
  to_handed : ∀ id, id ∈ handed p → id ∈ to_abort p ∨ id ∈ aborted p;
  to_started : ∀ id d st, tasks p !! id = Some d →
    d_point d = DSending st ∨ d_point d = DSleeping st → st ≤ now p;
  to_sends : ∀ s, s ∈ sends p →
    ∃ d, tasks p !! sd_id s = Some d ∧ d_token d = sd_token s ∧
      send_matches (now p) d (sd_started s) ∧ sd_started s ≤ now p;
  to_gaps : gapped p;
  to_replies : NoDup (replies p).*1 ∧
    ∀ id, id ∈ (replies p).*1 → ∃ d, tasks p !! id = Some d ∧ d_reply d = false
}.

Lemma throttle_ok_init : throttle_ok Throttle_init.
Proof.
  split; simpl; try done; try set_solver.
  - intros id [? H]. by rewrite lookup_empty in H.
  - split; [constructor|set_solver].
Qed.

(** The tokens after a step of the driver [id] on the token [t]: other tokens and
    other drivers' states are as before. *)
Definition own_edit (id : N) (t : list byte) (pt : Point Payloads)
    (m m' : gmap (list byte) (TokenState Payloads)) : Prop :=
  (∀ t', t' ≠ t → m' !! t' = m !! t') ∧
  (∀ ts, m' !! t = Some ts →
     m !! t = Some ts ∧ ts_id ts ≠ id ∨
     ts_id ts = id ∧ point_matches pt (ts_sending ts) ∧
       ∃ ts0, m !! t = Some ts0 ∧ ts_id ts0 = id).

Lemma own_edit_spec id t pt m m' t' ts :
  own_edit id t pt m m' → m' !! t' = Some ts →
  m !! t' = Some ts ∧ (ts_id ts ≠ id ∨ t' ≠ t) ∨
  t' = t ∧ ts_id ts = id ∧ point_matches pt (ts_sending ts) ∧
    ∃ ts0, m !! t = Some ts0 ∧ ts_id ts0 = id.
Proof.
  intros [Hother Hown] Hts. destruct (decide (t' = t)) as [->|Hne].
  - destruct (Hown _ Hts) as [[? ?]|(? & ? & ?)]; [left|right]; auto.
  - left. rewrite Hother in Hts by done. auto.
Qed.

Lemma throttle_ok_driver p id d d' s' replies' :
  throttle_ok p → tasks p !! id = Some d →
  d_token d' = d_token d → d_interval d' = d_interval d →
  drivers s' = drivers (state p) → next_id s' = next_id (state p) →
  closed s' = closed (state p) →
  own_edit id (d_token d) (d_point d') (tokens (state p)) (tokens s') →
  (d_point d' ≠ DDone → d_point d ≠ DDone) →
  (∀ st, d_point d' = DSending st ∨ d_point d' = DSleeping st → st ≤ now p) →
  (∀ started, started ≤ now p → send_matches (now p) d started →
     send_matches (now p) d' started) →
  NoDup replies'.*1 →
  (∀ k, k ∈ replies'.*1 → k ≠ id ∧ k ∈ (replies p).*1 ∨ k = id ∧ d_reply d' = false) →
  throttle_ok (set_driver id d'
    (mkThrottle s' (tasks p) (to_abort p) (aborted p) (now p) (handed p) (sends p) replies'
       (admissions p) (evicted p))).
Proof.
  intros Hok Hd Htok Hint Hdrv Hnext Hclosed Hedit Hdone Hst Hsend Hnodup Hrep.
  assert (∀ k, is_Some (<[id := d']> (tasks p) !! k) ↔ is_Some (tasks p !! k)) as Hdom.
  { intros k. rewrite lookup_insert. case_decide; naive_solver. }
  destruct Hok. split; simpl; rewrite ?Hdrv, ?Hnext, ?Hclosed.
  - intros k ?%Hdom. auto.
  - intros t ts Hts. destruct (own_edit_spec _ _ _ _ _ _ _ Hedit Hts)
      as [[Hold Hne]|(-> & <- & Hm & ts0 & Hts0 & Hid)].
    + destruct (to_tokens0 _ _ Hold) as (? & d0 & Hd0 & Ht & ?). split; [done|].
      rewrite lookup_insert. case_decide as Hid; [|eauto].
      rewrite <-Hid, Hd in Hd0. naive_solver.
    + destruct (to_tokens0 _ _ Hts0) as (? & _). rewrite Hid in *. split; [done|].
      exists d'. by rewrite lookup_insert_eq.
  - intros Hc. destruct (to_closed0 Hc) as [Hnone ?]. split; [|done].
    apply map_empty. intros t. apply eq_None_not_Some. intros [ts Hts].
    destruct (own_edit_spec _ _ _ _ _ _ _ Hedit Hts)
      as [[Hold _]|(_ & _ & _ & ts0 & Hold & _)];
      by rewrite Hnone, lookup_empty in Hold.
  - intros k Hk. destruct (to_aborts0 k Hk) as [? Hnone]. split; [by apply Hdom|].
    intros t ts Hts. destruct (own_edit_spec _ _ _ _ _ _ _ Hedit Hts)
      as [[Hold _]|(-> & <- & _ & ts0 & Hold & Heq)]; [eauto|].
    rewrite <-Heq. eauto.
  - intros k Hk. apply Hdom. auto.
  - intros k dk. rewrite lookup_insert. case_decide; [|eauto]. intros [= <-] ?. subst. eauto.
  - done.
  - intros k dk st. rewrite lookup_insert. case_decide; [|eauto]. intros [= <-]. eauto.
  - intros s Hs. destruct (to_sends0 s Hs) as (d0 & Hd0 & Ht & Hm & Hle).
    rewrite lookup_insert. case_decide as Hid; [|eauto 10].
    rewrite <-Hid, Hd in Hd0. injection Hd0 as <-. exists d'.
    split_and!; [done|by rewrite Htok|by apply Hsend|done].
  - intros i j si sj dk ? Hi Hj ?. simpl in *. rewrite lookup_insert. case_decide as Hid.
    + intros [= <-]. rewrite Hint. apply (to_gaps0 i j); try done. by rewrite <-Hid.
    + intros. by apply (to_gaps0 i j).
  - split; [done|]. intros k Hk. rewrite lookup_insert.
    destruct (Hrep k Hk) as [[Hne Hold]|[-> ?]].
    + rewrite decide_False by done. naive_solver.
    + rewrite decide_True by done. eauto.
Qed.

Lemma own_edit_same id t pt m :
  (∀ ts, m !! t = Some ts → ts_id ts = id → point_matches pt (ts_sending ts)) →
  own_edit id t pt m m.
Proof.
  intros Hm. split; [done|]. intros ts Hts. destruct (decide (ts_id ts = id)); [right; eauto 6|by left].
Qed.

Lemma own_edit_delete id t pt m :
  own_edit id t pt m (delete t m).
Proof.
  split; [intros t' ?; by rewrite lookup_delete_ne|]. intros ts. by rewrite lookup_delete_eq.
Qed.

Lemma own_edit_insert id t pt m ts0 ts :
  m !! t = Some ts0 → ts_id ts0 = id → ts_id ts = id → point_matches pt (ts_sending ts) →
  own_edit id t pt m (<[t := ts]> m).
Proof.
  intros Hts0 Hid0 Hid Hm. split; [intros t' ?; by rewrite lookup_insert_ne|].
  intros ts'. rewrite lookup_insert_eq. intros [= <-]. right. eauto.
Qed.

Lemma current_Some t id (s : ThrottleState Payloads) ts :
  current t id s = Some ts ↔ tokens s !! t = Some ts ∧ ts_id ts = id.
Proof.
  unfold current. destruct (tokens s !! t) as [ts'|]; simpl; [|naive_solver].
  destruct (N.eqb_spec (ts_id ts') id); naive_solver.
Qed.

Lemma current_None t id (s : ThrottleState Payloads) :
  current t id s = None ↔ ∀ ts, tokens s !! t = Some ts → ts_id ts ≠ id.
Proof.
  unfold current. destruct (tokens s !! t) as [ts'|]; simpl; [|naive_solver].
  destruct (N.eqb_spec (ts_id ts') id); naive_solver.
Qed.

Lemma replies_kept p id d d' :
  throttle_ok p → tasks p !! id = Some d → d_reply d' = d_reply d →
  ∀ k, k ∈ (replies p).*1 → k ≠ id ∧ k ∈ (replies p).*1 ∨ k = id ∧ d_reply d' = false.
Proof.
  intros Hok Hd Hr k Hk. destruct (decide (k = id)) as [->|]; [right|by left].
  destruct (proj2 (to_replies _ Hok) id Hk) as (d0 & Hd0 & ?). naive_solver.
Qed.

(** A driver that only moves to another point. *)
Lemma throttle_ok_move p id d pt :
  throttle_ok p → tasks p !! id = Some d →
  (∀ ts, tokens (state p) !! d_token d = Some ts → ts_id ts = id →
     point_matches pt (ts_sending ts)) →
  (pt ≠ DDone → d_point d ≠ DDone) →
  (∀ st, pt = DSending st ∨ pt = DSleeping st → st ≤ now p) →
  (∀ started, started ≤ now p → send_matches (now p) d started →
     send_matches (now p) (with_point pt d) started) →
  throttle_ok (set_driver id (with_point pt d) p).
Proof.
  intros Hok Hd Hm Hdone Hst Hsend.
  pose proof (throttle_ok_driver p id d (with_point pt d) (state p) (replies p)) as Hlem.
  destruct p. apply Hlem; try done.
  - by apply own_edit_same.
  - apply (to_replies _ Hok).
  - by apply replies_kept with d.
Qed.

(** A driver with a state is not aborted, and its point is known. *)
Lemma own_state p id d ts :
  throttle_ok p → tasks p !! id = Some d → tokens (state p) !! d_token d = Some ts →
  ts_id ts = id → point_matches (d_point d) (ts_sending ts) ∧ id ∉ aborted p.
Proof.
  intros Hok Hd Hts <-. destruct (to_tokens _ Hok _ _ Hts) as (_ & d0 & Hd0 & _ & Hm).
  rewrite Hd in Hd0. injection Hd0 as <-. split; [done|]. intros Hab.
  by destruct (to_aborts _ Hok (ts_id ts)) as [_ Hne]; [auto|eapply Hne].
Qed.

Lemma throttle_ok_append_send p id d details :
  throttle_ok p → tasks p !! id = Some d → d_point d = DSending (now p) →
  (∀ s, s ∈ sends p → sd_id s = id → sd_started s + d_interval d ≤ now p) →
  throttle_ok
    (mkThrottle (state p) (tasks p) (to_abort p) (aborted p) (now p) (handed p)
       (sends p ++ [mkSend id (d_token d) details (now p)]) (replies p) (admissions p)
       (evicted p)).
Proof.
  intros [] Hd Hpt Hgap. split; try done; simpl.
  - intros s [Hs|Hs]%elem_of_app; [auto|]. apply list_elem_of_singleton in Hs as ->. simpl.
    exists d. split_and!; try done. unfold send_matches. by rewrite Hpt.
  - intros i j si sj dk Hij Hi Hj Hids Hdk. simpl in *.
    apply lookup_app_Some in Hj as [Hj|[Hge Hj]].
    + apply (to_gaps0 i j); try done. apply lookup_lt_Some in Hj.
      rewrite lookup_app_l in Hi by lia. done.
    + apply list_lookup_singleton_Some in Hj as [Hj <-]. simpl in *.
      rewrite lookup_app_l in Hi by lia. rewrite Hids in Hdk. simplify_eq.
      apply Hgap; [|done]. by eapply list_elem_of_lookup_2.
Qed.

Lemma start_send_ok p id d details :
  throttle_ok p → tasks p !! id = Some d →
  d_point d = DSpawned details ∨ d_point d = DLoop details →
  throttle_ok (start_send id details d p).
Proof.
  intros Hok Hd Hpt. unfold start_send.
  assert (throttle_ok (set_driver id (with_point (DSending (now p)) d) p)) as Hok'.
  { apply throttle_ok_move; try done.
    - intros ts Hts Hid. destruct (own_state _ _ _ _ Hok Hd Hts Hid) as [Hm _].
      by destruct Hpt as [Hpt|Hpt]; rewrite Hpt in Hm.
    - by destruct Hpt as [-> | ->].
    - intros st [[= <-]|]; done. }
  apply (throttle_ok_append_send _ id (with_point (DSending (now p)) d) details) in Hok';
    [exact Hok'|apply lookup_insert_eq|done|].
  simpl. intros s Hs Hid. destruct (to_sends _ Hok s Hs) as (d0 & Hd0 & _ & Hm & _).
  rewrite Hid, Hd in Hd0. injection Hd0 as <-. unfold send_matches in Hm.
  by destruct Hpt as [Hpt|Hpt]; rewrite Hpt in Hm.
Qed.

Lemma answered_ok p id d started outcome :
  throttle_ok p → tasks p !! id = Some d → d_point d = DSending started →
  throttle_ok (answered id started outcome d p).
Proof.
  intros Hok Hd Hpt. unfold answered, finish_send.
  assert (started ≤ now p) as Hle by (apply (to_started _ Hok id d); auto).
  assert (NoDup (replies p ++ (if d_reply d then [(id, outcome)] else [])).*1 ∧
    ∀ k, k ∈ (replies p ++ (if d_reply d then [(id, outcome)] else [])).*1 →
      k ≠ id ∧ k ∈ (replies p).*1 ∨ k = id ∧ false = false) as [Hnodup Hrep].
  { destruct (to_replies _ Hok) as [Hnd Hr]. rewrite fmap_app. split.
    - apply NoDup_app. split_and!; [done| |destruct (d_reply d); simpl;
        [apply NoDup_singleton|constructor]].
      intros k Hk Hin. destruct (d_reply d) eqn:Hdr; simpl in Hin; [|by apply elem_of_nil in Hin].
      apply list_elem_of_singleton in Hin as ->. destruct (Hr id Hk) as (d0 & ? & ?). congruence.
    - intros k. destruct (decide (k = id)) as [->|Hne]; [by right|]. left. split; [done|].
      destruct (d_reply d); simpl in *; set_solver. }
  destruct (current (d_token d) id (state p)) as [ts|] eqn:Hcur.
  - apply current_Some in Hcur as [Hts Hid].
    destruct outcome as [flags|f]; apply (throttle_ok_driver p id d); simpl; try done;
      try (by rewrite Hpt); try apply own_edit_delete.
    + by eapply own_edit_insert.
    + intros st [|[= <-]]; done.
    + intros s _. unfold send_matches. by rewrite Hpt.
    + by intros st [|].
  - rewrite current_None in Hcur. apply (throttle_ok_driver p id d); simpl; try done.
    + apply own_edit_same. intros ts Hts Hid. by destruct (Hcur ts).
    + by rewrite Hpt.
    + by intros st [|].
Qed.

Lemma woken_ok p id d started :
  throttle_ok p → tasks p !! id = Some d → d_point d = DSleeping started →
  started + d_interval d ≤ now p → throttle_ok (woken id d p).
Proof.
  intros Hok Hd Hpt Hdue. unfold woken, take_pending.
  pose proof (proj1 (to_replies _ Hok)) as Hnodup.
  assert (∀ s, s ≤ now p → send_matches (now p) d s → s + d_interval d ≤ now p) as Hsend.
  { intros s _. unfold send_matches. rewrite Hpt. lia. }
  destruct (current (d_token d) id (state p)) as [ts|] eqn:Hcur.
  - apply current_Some in Hcur as [Hts Hid].
    destruct (ts_pending ts) as [details|]; apply (throttle_ok_driver p id d); simpl; try done;
      try (by rewrite Hpt); try apply own_edit_delete; try (by intros st [|]);
      try (by apply replies_kept with d).
    by eapply own_edit_insert.
  - rewrite current_None in Hcur.
    apply (throttle_ok_move p id d DExiting Hok Hd); try done.
    + by rewrite Hpt.
    + by intros st [|].
Qed.

Lemma drop_guard_ok p id d :
  throttle_ok p → tasks p !! id = Some d → d_point d = DExiting →
  throttle_ok (set_driver id (with_point DDone d)
    (with_state (remove_if_current (d_token d) id (state p)) p)).
Proof.
  intros Hok Hd Hpt. unfold remove_if_current.
  destruct (tokens (state p) !! d_token d) as [ts|] eqn:Hts;
    [destruct (N.eqb_spec (ts_id ts) id) as [Hid|Hid]|];
    apply (throttle_ok_driver p id d); simpl; try done;
    try apply own_edit_delete; try (by intros st [|]); try apply (to_replies _ Hok);
    try (by apply replies_kept with d); apply own_edit_same; naive_solver.
Qed.

Lemma driver_step_ok ev p p' id d :
  throttle_ok p → tasks p !! id = Some d → driver_step ev id d p = Some p' → throttle_ok p'.
Proof.
  intros Hok Hd Hstep.
  assert (∀ pt, d_point d = pt → id ∈ aborted p → ∀ pt', (pt' ≠ DDone → pt ≠ DDone) →
    pt' = DExiting ∨ pt' = DDone → throttle_ok (set_driver id (with_point pt' d) p)) as Hcancel.
  { intros pt Hpt Hab pt' Hdone Hpt'. apply throttle_ok_move; try done.
    - intros ts Hts Hid. by destruct (own_state _ _ _ _ Hok Hd Hts Hid).
    - by rewrite Hpt.
    - intros st [-> | ->]; by destruct Hpt'.
    - intros s _ _. by destruct Hpt' as [-> | ->]. }
  assert (∀ pt, d_point d = pt → pt ≠ DDone →
    throttle_ok (set_driver id (with_point DExiting d) p)) as Hpanic.
  { intros pt Hpt Hdone. apply throttle_ok_move; try done; [by rewrite Hpt|by intros st [|]]. }
  unfold driver_step in Hstep. destruct ev; try done;
    destruct (d_point d) eqn:Hpt; try done.
  - injection Hstep as <-. apply start_send_ok; auto.
  - injection Hstep as <-. apply start_send_ok; auto.
  - injection Hstep as <-. by apply answered_ok.
  - destruct (N.leb_spec (started + d_interval d) (now p)); [|done]. injection Hstep as <-.
    by eapply woken_ok.
  - case_decide; [|done]. injection Hstep as <-. by eapply Hcancel; auto.
  - case_decide; [|done]. injection Hstep as <-. by eapply Hcancel; auto.
  - case_decide; [|done]. injection Hstep as <-. by eapply Hcancel; auto.
  - injection Hstep as <-. by apply (Hpanic _ eq_refl).
  - injection Hstep as <-. by apply (Hpanic _ eq_refl).
  - injection Hstep as <-. by apply (Hpanic _ eq_refl).
  - injection Hstep as <-. by apply drop_guard_ok.
Qed.

Lemma retained_live p id d :
  tasks p !! id = Some d → d_point d ≠ DDone → is_finished p id = false.
Proof. intros Hd Hpt. unfold is_finished. rewrite Hd. by destruct (d_point d). Qed.

(** Reaping finished handles keeps the invariant. *)
Lemma throttle_ok_reap p :
  throttle_ok p →
  throttle_ok (with_state (mkThrottleState (tokens (state p))
    (filter (λ k, is_finished p k = false) (drivers (state p))) (next_id (state p))
    (closed (state p))) p).
Proof.
  intros []. split; simpl; try done.
  - intros t ts Hts. destruct (to_tokens0 _ _ Hts) as (? & d & Hd & Ht & Hm).
    split; [|eauto]. apply elem_of_filter. split; [|done]. eapply retained_live; [done|].
    by intros Hdone; rewrite Hdone in Hm.
  - intros Hc. destruct (to_closed0 Hc) as [? ->]. split; [done|]. set_solver.
  - intros k [_ ?]%elem_of_filter. auto.
  - intros k d Hd Hpt. destruct (to_handles0 _ _ Hd Hpt); [left|by right].
    apply elem_of_filter. split; [by eapply retained_live|done].
Qed.

Lemma record_new_ok p t details interval p' :
  throttle_ok p → next_id (state p) + 1 < 2 ^ 64 →
  tokens (state p) !! t = None → closed (state p) = false →
  p' = set_driver (next_id (state p)) (mkDriver t interval true (DSpawned details))
    (with_state (mkThrottleState
       (<[t := mkTokenState (next_id (state p)) None HeartbeatFlags_default true]>
          (tokens (state p)))
       ({[next_id (state p)]} ∪ drivers (state p))
       (u64_wrapping_add (next_id (state p)) 1) (closed (state p))) p) →
  throttle_ok p'.
Proof.
  intros Hok Hlt Ht Hclosed ->.
  rewrite u64_wrapping_add_exact by exact Hlt. set (id := next_id (state p)) in *.
  assert (tasks p !! id = None) as Hfresh.
  { apply eq_None_not_Some. intros Hid%(to_ids _ Hok). unfold id in Hid. lia. }
  assert (∀ k, is_Some (tasks p !! k) → k ≠ id) as Hne.
  { intros k Hk ->. rewrite Hfresh in Hk. by destruct Hk. }
  destruct Hok. split; simpl.
  - intros k. rewrite lookup_insert. case_decide; [lia|]. intros Hk%to_ids0. fold id in Hk. lia.
  - intros t' ts. rewrite lookup_insert. case_decide as Htt.
    + intros [= <-]. simpl. split; [set_solver|]. rewrite lookup_insert_eq. subst.
      by eexists.
    + intros Hts. destruct (to_tokens0 _ _ Hts) as (? & d & Hd & ?). split; [set_solver|].
      exists d. rewrite lookup_insert_ne; [done|]. symmetry. eauto.
  - by rewrite Hclosed.
  - intros k Hk. destruct (to_aborts0 k Hk) as [Hsome Hnone]. split.
    + rewrite lookup_insert_ne; [done|]. symmetry. auto.
    + intros t' ts. rewrite lookup_insert. case_decide; [|eauto]. intros [= <-]. simpl.
      symmetry. auto.
  - intros k. rewrite elem_of_union, elem_of_singleton, lookup_insert. case_decide; naive_solver.
  - intros k d. rewrite lookup_insert. case_decide; [set_solver|]. intros Hd Hpt.
    destruct (to_handles0 _ _ Hd Hpt); set_solver.
  - done.
  - intros k d st. rewrite lookup_insert. case_decide; [|eauto]. intros [= <-]. naive_solver.
  - intros s Hs. destruct (to_sends0 s Hs) as (d & Hd & ?). exists d.
    rewrite lookup_insert_ne; [done|]. symmetry. eauto.
  - intros i j si sj d Hij Hi Hj Hids. simpl in *. rewrite lookup_insert_ne; [by apply (to_gaps0 i j)|].
    destruct (to_sends0 si) as (d0 & Hd0 & _); [by eapply list_elem_of_lookup_2|].
    symmetry. eauto.
  - destruct to_replies0 as [Hnd Hr]. split; [done|]. intros k Hk.
    destruct (Hr k Hk) as (d & Hd & ?). exists d. rewrite lookup_insert_ne; [done|].
    symmetry. eauto.
Qed.

(** Only the history of admissions and evictions changes. *)
Lemma throttle_ok_history p adm ev :
  throttle_ok p →
  throttle_ok (mkThrottle (state p) (tasks p) (to_abort p) (aborted p) (now p) (handed p)
                 (sends p) (replies p) adm ev).
Proof. by intros []. Qed.

Lemma record_pending_ok p t ts details :
  throttle_ok p → tokens (state p) !! t = Some ts →
  throttle_ok (with_state (with_tokens
    (<[t := mkTokenState (ts_id ts) (Some details) (ts_flags ts) (ts_sending ts)]>
       (tokens (state p))) (state p)) p).
Proof.
  intros [] Hts. split; simpl; try done.
  - intros t' ts'. rewrite lookup_insert. case_decide; [|auto]. intros [= <-]. subst. simpl. auto.
  - intros Hc. destruct (to_closed0 Hc) as [Hnone _]. rewrite Hnone in Hts.
    by rewrite lookup_empty in Hts.
  - intros k Hk. destruct (to_aborts0 k Hk) as [? Hnone]. split; [done|].
    intros t' ts'. rewrite lookup_insert. case_decide; [|eauto]. intros [= <-]. simpl. eauto.
Qed.

Lemma do_record_ok p t details interval max_tokens :
  throttle_ok p → next_id (state p) + 1 < 2 ^ 64 →
  throttle_ok (do_record t details interval max_tokens p).
Proof.
  intros Hok Hlt. unfold do_record, record.
  destruct (tokens (state p) !! t) as [ts|] eqn:Hts.
  - apply (throttle_ok_history (with_state _ p)), record_pending_ok; done.
  - destruct (closed (state p) || _) eqn:Hfull; [by apply throttle_ok_history|].
    apply orb_false_iff in Hfull as [Hclosed _].
    apply (throttle_ok_history (set_driver _ _ (with_state _ p))).
    by eapply (record_new_ok _ t details interval _ (throttle_ok_reap p Hok)).
Qed.

Lemma do_evict_ok p t : throttle_ok p → throttle_ok (do_evict t p).
Proof.
  intros Hok. unfold do_evict, evict.
  destruct (tokens (state p) !! t) as [ts|] eqn:Hts; [|done].
  set (driver := if ts_sending ts then None else _).
  assert (∀ k, k ∈ option_list driver → k = ts_id ts) as Hdriver.
  { intros k. unfold driver. destruct (ts_sending ts); [set_solver|].
    case_decide; simpl; set_solver. }
  assert (∀ t' ts', delete t (tokens (state p)) !! t' = Some ts' →
    tokens (state p) !! t' = Some ts' ∧ t' ≠ t) as Hdel.
  { intros t' ts'. rewrite lookup_delete. case_decide; naive_solver. }
  destruct Hok. destruct (to_tokens0 _ _ Hts) as (Hin & d & Hd & Htok & _).
  split; simpl; try done.
  - intros t' ts' [Hts' _]%Hdel. auto.
  - intros Hc. destruct (to_closed0 Hc) as [Hnone _]. rewrite Hnone in Hts.
    by rewrite lookup_empty in Hts.
  - intros k Hk. rewrite elem_of_app in Hk.
    assert (k ∈ to_abort p ∨ k ∈ aborted p ∨ k = ts_id ts) as [Hk'|[Hk'| ->]] by naive_solver;
      [| |split; [eauto|]].
    + destruct (to_aborts0 k) as [? Hnone]; [auto|]. split; [done|]. intros t' ts' [? _]%Hdel. eauto.
    + destruct (to_aborts0 k) as [? Hnone]; [auto|]. split; [done|]. intros t' ts' [? _]%Hdel. eauto.
    + intros t' ts' [Hts' Hne]%Hdel Hid. destruct (to_tokens0 _ _ Hts') as (_ & d' & Hd' & ? & _).
      rewrite Hid, Hd in Hd'. injection Hd' as <-. congruence.
  - intros k Hk. rewrite elem_of_app. destruct (to_handed0 k Hk); auto.
Qed.

Lemma do_shutdown_ok p : throttle_ok p → throttle_ok (do_shutdown p).
Proof.
  intros []. split; simpl; try done.
  - intros k Hk. rewrite elem_of_app, elem_of_elements in Hk.
    assert (k ∈ to_abort p ∨ k ∈ aborted p ∨ k ∈ drivers (state p)) as [Hk'|[Hk'|Hk']]
      by naive_solver; (split; [|done]).
    + by destruct (to_aborts0 k) as [? _]; [auto|].
    + by destruct (to_aborts0 k) as [? _]; [auto|].
    + auto.
  - intros k d Hd Hpt. destruct (to_handles0 _ _ Hd Hpt); set_solver.
  - intros k. rewrite elem_of_app, elem_of_elements, elem_of_union.
    intros [|Hk]; [auto|]. destruct (to_handed0 k Hk); auto.
Qed.

Lemma throttle_step_ok ev p p' :
  throttle_ok p → next_id (state p) + 1 < 2 ^ 64 → throttle_step ev p = Some p' → throttle_ok p'.
Proof.
  intros Hok Hlt Hstep.
  assert (∀ id, (d ← tasks p !! id; driver_step ev id d p) = Some p' → throttle_ok p') as Hdrv.
  { intros id. destruct (tasks p !! id) as [d|] eqn:Hd; [|done]. simpl. by apply driver_step_ok. }
  destruct ev; simpl in Hstep; try (by eapply Hdrv).
  - injection Hstep as <-. by apply do_record_ok.
  - injection Hstep as <-. by apply do_evict_ok.
  - injection Hstep as <-. by apply do_shutdown_ok.
  - injection Hstep as <-. by apply throttle_ok_reap.
  - destruct (to_abort p) as [|id rest] eqn:Hta; [done|]. injection Hstep as <-.
    destruct Hok. split; simpl; try done.
    + intros k Hk. apply to_aborts0. rewrite Hta. set_solver.
    + intros k Hk. specialize (to_handed0 k Hk). rewrite Hta in to_handed0. set_solver.
  - injection Hstep as <-. destruct Hok. split; simpl; try done.
    + intros k d st Hd Hpt. specialize (to_started0 k d st Hd Hpt). lia.
    + intros s Hs. destruct (to_sends0 s Hs) as (d & Hd & Ht & Hm & Hle). exists d.
      split_and!; [done..| |lia]. unfold send_matches in *. destruct (d_point d); try done. lia.
Qed.

(** ** Runs *)

Definition is_record (ev : Event Payloads Failure) : bool :=
  match ev with EvRecord _ _ _ _ => true | _ => false end.

Definition recorded (evs : list (Event Payloads Failure)) : N :=
  N.of_nat (length (filter is_record evs)).

Lemma throttle_step_next_id ev p p' :
  next_id (state p) + 1 < 2 ^ 64 → throttle_step ev p = Some p' →
  next_id (state p') ≤ next_id (state p) + recorded [ev].
Proof.
  intros Hlt Hstep.
  assert (∀ id, (d ← tasks p !! id; driver_step ev id d p) = Some p' →
    next_id (state p') = next_id (state p)) as Hdrv.
  { intros id. destruct (tasks p !! id) as [d|]; [|done]. simpl. unfold driver_step.
    destruct ev; try done; destruct (d_point d); try done; repeat case_match; try done;
      intros [= <-]; try done; simpl; unfold answered, finish_send, woken, take_pending,
      remove_if_current; repeat case_match; by simplify_eq. }
  unfold recorded. destruct ev; simpl in Hstep |- *;
    try (by rewrite (Hdrv _ Hstep), N.add_0_r); try (injection Hstep as <-); simpl.
  - unfold do_record, record. repeat case_match; simplify_eq; simpl; try lia.
    all: rewrite u64_wrapping_add_exact by exact Hlt; lia.
  - unfold do_evict, evict. destruct (tokens (state p) !! task_token); simpl; lia.
  - lia.
  - lia.
  - destruct (to_abort p); [done|]. injection Hstep as <-. simpl. lia.
  - lia.
Qed.

Lemma recorded_cons ev evs : recorded (ev :: evs) = recorded [ev] + recorded evs.
Proof. unfold recorded. rewrite (filter_app _ [ev] evs), length_app. lia. Qed.

Lemma throttle_run_ok evs p p' :
  throttle_ok p → next_id (state p) + recorded evs < 2 ^ 64 - 1 →
  throttle_run evs p = Some p' → throttle_ok p'.
Proof.
  revert p. induction evs as [|ev evs IH]; intros p Hp Hlt Hrun; simpl in Hrun; [by simplify_eq|].
  destruct (throttle_step ev p) as [q|] eqn:Hstep; [|done]. simpl in Hrun.
  rewrite recorded_cons in Hlt. assert (next_id (state p) + 1 < 2 ^ 64) as Hlt' by lia.
  apply (IH q); [by eapply throttle_step_ok| |done].
  pose proof (throttle_step_next_id ev p q Hlt' Hstep). lia.
Qed.

Lemma reachable_throttle_ok evs p :
  recorded evs < 2 ^ 64 - 1 → throttle_run evs Throttle_init = Some p → throttle_ok p.
Proof. intros Hlt. apply throttle_run_ok; [apply throttle_ok_init|]. simpl. lia. Qed.

(** ** The theorems *)

(** C12: the rate limit.  In every interleaving, two sends of one throttle state
    are for the same token and start at least that state's interval apart,
    however often the application heartbeats and however the server answers. *)
Theorem heartbeat_rate_limited evs p i j si sj d :
  recorded evs < 2 ^ 64 - 1 → throttle_run evs Throttle_init = Some p →
  (i < j)%nat → sends p !! i = Some si → sends p !! j = Some sj → sd_id si = sd_id sj →
  tasks p !! sd_id si = Some d →
  sd_token si = sd_token sj ∧ sd_started si + d_interval d ≤ sd_started sj.
Proof.
  intros Hlt Hrun Hij Hi Hj Hid Hd. pose proof (reachable_throttle_ok _ _ Hlt Hrun) as Hok.
  split; [|by apply (to_gaps _ Hok i j)].
  destruct (to_sends _ Hok si) as (d1 & Hd1 & <- & _); [by eapply list_elem_of_lookup_2|].
  destruct (to_sends _ Hok sj) as (d2 & Hd2 & <- & _); [by eapply list_elem_of_lookup_2|].
  rewrite Hid in *. congruence.
Qed.

(** A driver touches only its own state.  Whatever a driver task does (send,
    handle an answer, wake, be cancelled, panic, drop its guard), the state of
    every token that belongs to another driver is unchanged, so a driver that
    outlived its eviction cannot disturb the state created for the same token
    afterwards; and it never creates state. *)
Theorem driver_touches_own_state ev id p p' t :
  event_driver ev = Some id → throttle_step ev p = Some p' →
  (∀ ts, tokens (state p) !! t = Some ts → ts_id ts ≠ id →
     tokens (state p') !! t = Some ts) ∧
  (∀ ts', tokens (state p') !! t = Some ts' →
     ∃ ts, tokens (state p) !! t = Some ts ∧ ts_id ts = ts_id ts').
Proof.
  intros Hev Hstep.
  assert (∃ d, tasks p !! id = Some d ∧ driver_step ev id d p = Some p') as (d & Hd & Hdrv).
  { destruct ev; simpl in *; simplify_eq; destruct (tasks p !! id) as [d|]; eauto; done. }
  assert (∀ m', (m' = tokens (state p) ∨ ∃ ts0, tokens (state p) !! d_token d = Some ts0 ∧
      ts_id ts0 = id ∧ (m' = delete (d_token d) (tokens (state p)) ∨
        ∃ ts1, ts_id ts1 = id ∧ m' = <[d_token d := ts1]> (tokens (state p)))) →
    tokens (state p') = m' →
    (∀ ts, tokens (state p) !! t = Some ts → ts_id ts ≠ id →
       tokens (state p') !! t = Some ts) ∧
    (∀ ts', tokens (state p') !! t = Some ts' →
       ∃ ts, tokens (state p) !! t = Some ts ∧ ts_id ts = ts_id ts')) as Hshape.
  { intros m' Hm' ->. destruct Hm' as [->|(ts0 & Hts0 & Hid & [->|(ts1 & Hid1 & ->)])].
    - eauto.
    - rewrite lookup_delete. case_decide; naive_solver.
    - rewrite lookup_insert. case_decide; naive_solver. }
  unfold driver_step in Hdrv.
  destruct ev; try done; destruct (d_point d); try done;
    repeat (case_match || case_decide); try done; injection Hdrv as <-;
    (eapply Hshape; [|reflexivity]); simpl; unfold answered, finish_send, woken, take_pending,
      remove_if_current; simpl; try (by left).
  - destruct (current _ _ _) as [ts|] eqn:Hc; [|by left]. apply current_Some in Hc as [Hts Hid].
    right. exists ts. split_and!; try done. destruct outcome; simpl; [right|by left].
    eexists. split; [|reflexivity]. done.
  - destruct (current _ _ _) as [ts|] eqn:Hc; [|by left]. apply current_Some in Hc as [Hts Hid].
    right. exists ts. split_and!; try done. destruct (ts_pending ts); simpl; [right|by left].
    eexists. split; [|reflexivity]. done.
  - destruct (tokens (state p) !! d_token d) as [ts|] eqn:Hts; [|by left].
    destruct (N.eqb_spec (ts_id ts) id); [|by left]. right. eauto 10.
Qed.


Lemma throttle_step_size M ev p p' :
  (∀ t details interval max, ev = EvRecord t details interval max → (max ≤ M)%nat) →
  (size (tokens (state p)) ≤ M)%nat → throttle_step ev p = Some p' →
  (size (tokens (state p')) ≤ M)%nat.
Proof.
  intros Hmax Hsize Hstep.
  assert (∀ t, size (delete t (tokens (state p))) ≤ size (tokens (state p)))%nat as Hdelete.
  { intros t. rewrite map_size_delete. destruct (tokens (state p) !! t); simpl; lia. }
  assert (∀ t ts0 ts, tokens (state p) !! t = Some ts0 →
    size (<[t := ts]> (tokens (state p))) = size (tokens (state p))) as Hinsert.
  { intros t ts0 ts Ht. rewrite map_size_insert, Ht. done. }
  assert (∀ id, (d ← tasks p !! id; driver_step ev id d p) = Some p' →
    size (tokens (state p')) ≤ M)%nat as Hdrv.
  { intros id. destruct (tasks p !! id) as [d|]; [|done]. simpl. unfold driver_step.
    destruct ev; try done; destruct (d_point d); try done; repeat (case_match || case_decide);
      try done; intros [= <-]; try done; simpl; unfold answered, finish_send, woken, take_pending,
      remove_if_current; repeat case_match; simplify_eq; simpl in *; try done;
      repeat match goal with H : current _ _ _ = Some _ |- _ =>
        apply current_Some in H as [? _] end;
      try (erewrite Hinsert by done; done); (etransitivity; [apply Hdelete|done]). }
  destruct ev; simpl in Hstep; try (by eapply Hdrv); try (injection Hstep as <-; simpl).
  - unfold do_record, record. destruct (tokens (state p) !! task_token) as [ts|] eqn:Hts; simpl.
    + by erewrite Hinsert.
    + destruct (closed (state p)); [done|]. simpl.
      destruct (Nat.leb_spec max_tokens (size (tokens (state p)))); simpl; [done|].
      rewrite map_size_insert_None by done.
      specialize (Hmax task_token details interval max_tokens eq_refl). lia.
  - unfold do_evict, evict. destruct (tokens (state p) !! task_token); simpl; [|done].
    etransitivity; [apply Hdelete|done].
  - rewrite map_size_empty. lia.
  - done.
  - destruct (to_abort p); [done|]. by injection Hstep as <-.
  - done.
Qed.

(** Bounded state.  If every heartbeat is admitted under a limit of at most
    [M] tokens, the throttle never tracks more than [M] tokens. *)
Theorem tracked_tokens_bounded M evs p :
  Forall (λ ev, match ev with EvRecord _ _ _ max => (max ≤ M)%nat | _ => True end) evs →
  throttle_run evs (Throttle_init (Payloads := Payloads) (Failure := Failure)) = Some p →
  (size (tokens (state p)) ≤ M)%nat.
Proof.
  assert (size (tokens (state (Throttle_init (Payloads := Payloads) (Failure := Failure)))) ≤ M)%nat
    as Hinit by (simpl; rewrite map_size_empty; lia).
  revert Hinit. generalize (Throttle_init (Payloads := Payloads) (Failure := Failure)).
  induction evs as [|ev evs IH]; intros q Hq Hall Hrun; simpl in Hrun; [by simplify_eq|].
  apply Forall_cons in Hall as [Hev Hall].
  destruct (throttle_step ev q) as [q'|] eqn:Hstep; [|done]. simpl in Hrun.
  apply (IH q'); try done. eapply throttle_step_size; [|exact Hq|exact Hstep].
  by intros ???? ->.
Qed.

(** Shutdown accounts for every driver.  Once the throttle is closed, no
    token is tracked, every heartbeat is refused back to its caller, and each
    driver task that has not finished is among the handles [shutdown] returned
    and has been, or is about to be, aborted. *)
Theorem closed_accounts_for_drivers evs p :
  recorded evs < 2 ^ 64 - 1 → throttle_run evs Throttle_init = Some p →
  closed (state p) = true →
  tokens (state p) = ∅ ∧
  (∀ finished t details max, record finished t details max (state p)
     = (Unthrottled details, state p)) ∧
  (∀ id d, tasks p !! id = Some d → d_point d ≠ DDone →
     id ∈ handed p ∧ (id ∈ to_abort p ∨ id ∈ aborted p)).
Proof.
  intros Hlt Hrun Hc. pose proof (reachable_throttle_ok _ _ Hlt Hrun) as Hok.
  destruct (to_closed _ Hok Hc) as [Htok Hdrv]. split_and!; [done| |].
  - intros finished t details max. unfold record. by rewrite Htok, lookup_empty, Hc.
  - intros id d Hd Hpt. destruct (to_handles _ Hok _ _ Hd Hpt) as [Hin|Hin]; [set_solver|].
    split; [done|by apply (to_handed _ Hok)].
Qed.

(** A failed send is not hidden.  When the server's answer to a driver that
    still owns its token's state is a failure, the state is forgotten; the next
    heartbeat for the token is then sent at once (unless the throttle is closed
    or full), so its caller sees the server's answer.  The failure itself goes
    to the first send's caller when it was the first send, and no caller is ever
    answered twice. *)
Theorem failed_send_reopens evs p id d started f p' :
  recorded evs < 2 ^ 64 - 1 → throttle_run evs Throttle_init = Some p →
  tasks p !! id = Some d → d_point d = DSending started →
  is_Some (current (d_token d) id (state p)) →
  throttle_step (EvAnswer id (Err f)) p = Some p' →
  tokens (state p') !! d_token d = None ∧
  (∀ finished details max, closed (state p') = false →
     (size (tokens (state p')) < max)%nat →
     (record finished (d_token d) details max (state p')).1 = Sent (next_id (state p'))) ∧
  (d_reply d = true → (id, Err f) ∈ replies p') ∧ NoDup (replies p').*1.
Proof.
  intros Hlt Hrun Hd Hpt [ts Hcur] Hstep. pose proof (reachable_throttle_ok _ _ Hlt Hrun) as Hok.
  simpl in Hstep. rewrite Hd in Hstep. simpl in Hstep. unfold driver_step in Hstep.
  rewrite Hpt in Hstep. injection Hstep as <-.
  pose proof (answered_ok p id d started (Err f) Hok Hd Hpt) as Hok'.
  unfold answered, finish_send in *. rewrite Hcur in *. simpl in *.
  assert (delete (d_token d) (tokens (state p)) !! d_token d = None) as Hnone
    by apply lookup_delete_eq.
  split_and!; [done| | |apply (to_replies _ Hok')].
  - intros finished details max Hclosed Hsize. unfold record. simpl. rewrite Hnone, Hclosed.
    simpl. by destruct (Nat.leb_spec max (size (delete (d_token d) (tokens (state p))))); [lia|].
  - intros ->. set_solver.
Qed.

End Safety.

(** The interval.  A set timeout of at least a millisecond is scaled and any
    other timeout takes the worker's default; the result never exceeds the
    worker's maximum. *)
Theorem interval_capped h timeout i :
  interval h timeout = Some i →
  (i ≤ hi_max h)%Z ∧
  (match timeout with Some t => (t < 1000000)%Z ∧ (0 ≤ t)%Z | None => True end →
   i = Z.min (hi_default h) (hi_max h)).
Proof.
  unfold interval. intros Hi. split.
  - destruct (match timeout with Some _ => _ | None => _ end); [|done].
    simpl in Hi. injection Hi as <-. lia.
  - destruct timeout as [t|]; [|by injection Hi as <-]. intros Hsmall.
    rewrite Z.div_small in Hi by lia. by injection Hi as <-.
Qed.

(** ** Witnesses *)

(** One token is heartbeated twice, its first send is accepted and the interval
    passes. *)
Definition sample_throttled : list (Event nat string) :=
  [EvRecord [x01] (Some 1%nat) 80 4; EvSend 0; EvRecord [x01] (Some 2%nat) 80 4;
   EvTick 5; EvAnswer 0 (Ok HeartbeatFlags_default); EvRecord [x01] (Some 3%nat) 80 4; EvTick 90].

(** The trailing send goes out. *)
Definition sample_trailing : list (Event nat string) :=
  sample_throttled ++ [EvWake 0; EvSend 0].

Definition throttle_after (evs : list (Event nat string)) : Throttle nat string :=
  default Throttle_init (throttle_run evs Throttle_init).

Lemma heartbeat_rate_limited_witness :
  (0 + 80 ≤ 95)%N ∧ sends (throttle_after sample_trailing)
    = [mkSend 0 [x01] (Some 1%nat) 0; mkSend 0 [x01] (Some 3%nat) 95].
Proof.
  split; [|by vm_compute].
  exact (proj2 (heartbeat_rate_limited sample_trailing (throttle_after sample_trailing) 0 1
    (mkSend 0 [x01] (Some 1%nat) 0) (mkSend 0 [x01] (Some 3%nat) 95)
    (mkDriver [x01] 80 false (DSending 95))
    ltac:(by vm_compute) ltac:(by vm_compute) ltac:(lia) ltac:(by vm_compute)
    ltac:(by vm_compute) ltac:(by vm_compute) ltac:(by vm_compute))).
Defined.

Lemma driver_touches_own_state_witness :
  ∃ ts, tokens (state (throttle_after sample_throttled)) !! [x01] = Some ts ∧ ts_id ts = 0.
Proof.
  exact (proj2 (driver_touches_own_state (EvWake 0) 0 (throttle_after sample_throttled)
    (throttle_after (sample_throttled ++ [EvWake 0])) [x01] ltac:(by vm_compute)
    ltac:(by vm_compute)) (mkTokenState 0 None HeartbeatFlags_default true)
    ltac:(by vm_compute)).
Defined.


Lemma tracked_tokens_bounded_witness :
  (size (tokens (state (throttle_after sample_throttled))) ≤ 4)%nat.
Proof.
  apply (tracked_tokens_bounded 4 sample_throttled); [|by vm_compute].
  repeat constructor.
Defined.

Lemma closed_accounts_for_drivers_witness :
  tokens (state (throttle_after (sample_throttled ++ [EvShutdown]))) = ∅.
Proof.
  exact (proj1 (closed_accounts_for_drivers (sample_throttled ++ [EvShutdown])
    (throttle_after (sample_throttled ++ [EvShutdown]))
    ltac:(by vm_compute) ltac:(by vm_compute) ltac:(by vm_compute))).
Defined.

Lemma failed_send_reopens_witness :
  tokens (state (throttle_after (sample_trailing ++ [EvAnswer 0 (Err "unknown token")]))) !! [x01]
  = None.
Proof.
  exact (proj1 (failed_send_reopens sample_trailing (throttle_after sample_trailing) 0
    (mkDriver [x01] 80 false (DSending 95)) 95 "unknown token"
    (throttle_after (sample_trailing ++ [EvAnswer 0 (Err "unknown token")]))
    ltac:(by vm_compute) ltac:(by vm_compute) ltac:(by vm_compute) ltac:(by vm_compute)
    ltac:(by eexists; vm_compute) ltac:(by vm_compute))).
Defined.

(** Eighty percent of a ten second timeout. *)
Lemma interval_capped_witness :
  interval (mkHeartbeatIntervals 60000000000 30000000000) (Some 10000000000%Z) = Some 8000000000%Z ∧
  (8000000000 ≤ 60000000000)%Z.
Proof.
  assert (interval (mkHeartbeatIntervals 60000000000 30000000000) (Some 10000000000%Z)
    = Some 8000000000%Z) as Hi by (by vm_compute).
  split; [exact Hi|]. exact (proj1 (interval_capped _ _ _ Hi)).
Defined.
