(* ===== verification/Protocol.v ===== *)
(** * The control protocol

    Model of src/rust/core-bridge/src/protocol.rs: the strict JSON subset, its
    resource limits, the closed envelopes and the payload wrapper that cross the
    boundary to the OCaml runtime.

    Text is a [string] of bytes.  The JSON reader and string writer (serde_json)
    and the base64 engine are other crates: they are the operations of the
    classes [SerdeJson] and [Base64].  serde_json's reader drives the visitor of
    this module; its calls on one document are a [RawJson] tree, so the visitor
    is a function on that tree. *)

From S2P Require Import Prelude.
From stdpp Require Import pretty.
From Stdlib Require Import Ascii.
Local Open Scope N_scope.

(** ** Limits *)

Definition COMPATIBILITY_VERSION : N := 1.
Definition MAX_DOCUMENT_BYTES : N := 192 * 1024 * 1024.
Definition MAX_DEPTH : N := 128.
Definition MAX_STRING_BYTES : N := 65536.
Definition MAX_COLLECTION_ITEMS : N := MAX_DOCUMENT_BYTES.
Definition MAX_NODES : N := MAX_DOCUMENT_BYTES.
Definition MAX_PAYLOAD_BYTES : N := 128 * 1024 * 1024.
Definition MAX_PAYLOAD_BASE64_BYTES : N := (MAX_PAYLOAD_BYTES + 2) / 3 * 4.
Definition I64_MAX : N := 2 ^ 63 - 1.

(** ** Data *)

#[local] Unset Elimination Schemes.

Inductive JsonValue :=
| JNull
| JBool (value : bool)
| JSigned (value : Z)
| JUnsigned (value : N)
| JString (value : string)
| JArray (values : list JsonValue)
| JObject (entries : list (string * JsonValue)).

Record Request := mkRequest {
  rq_correlation_id : string;
  rq_operation : string;
  rq_body : JsonValue
}.

Record Response := mkResponse {
  rs_correlation_id : string;
  rs_operation : string;
  rs_body : JsonValue
}.

Inductive BridgeErrorCode := InvalidMessage | UnsupportedMessage | InternalBridge.

Record BridgeError := mkBridgeError {
  be_code : BridgeErrorCode;
  be_message : string;
  be_retryable : bool
}.

Record ErrorResponse := mkErrorResponse {
  er_correlation_id : string;
  er_operation : string;
  er_error : BridgeError
}.

Inductive Envelope :=
| EnvRequest (value : Request)
| EnvResponse (value : Response)
| EnvError (value : ErrorResponse).

Record ProtocolError := mkProtocolError {
  pe_code : string;
  pe_path : string;
  pe_message : string
}.

Definition invalid (path message : string) : ProtocolError :=
  mkProtocolError "invalid_message" path message.

(** The calls serde_json's reader makes for one document. *)
Inductive RawJson :=
| RUnit
| RBool (value : bool)
| RI64 (value : Z)
| RU64 (value : N)
| RF64
| RStr (value : string)
| RSeq (values : list RawJson)
| RMap (entries : list (string * RawJson)).

#[local] Set Elimination Schemes.

(** ** The other crates *)

Class SerdeJson := {
  (** The first value of the text, and whether only blanks follow it. *)
  serde_parse : string → option (RawJson * bool);
  serde_quote : string → option string
}.

Class Base64 := {
  base64_encode : list byte → string;
  base64_decode : string → option (list byte)
}.

(** ** The visitor *)

(** [StrictValueVisitor]; [None] is any of its custom errors, which the caller
    replaces by one message. *)
Fixpoint visit (raw : RawJson) : option JsonValue :=
  match raw with
  | RUnit => Some JNull
  | RBool value => Some (JBool value)
  | RI64 value => Some (JSigned value)
  | RU64 value => if I64_MAX <? value then None else Some (JUnsigned value)
  | RF64 => None
  | RStr value => Some (JString value)
  | RSeq raws =>
      (fix visit_seq (raws : list RawJson) (values : list JsonValue) : option JsonValue :=
         match raws with
         | [] => Some (JArray values)
         | raw :: raws =>
             match visit raw with
             | None => None
             | Some value =>
                 if N.of_nat (length values) =? MAX_COLLECTION_ITEMS then None
                 else visit_seq raws (values ++ [value])
             end
         end) raws []
  | RMap raws =>
      (fix visit_map (raws : list (string * RawJson)) (seen : gset string)
           (entries : list (string * JsonValue)) : option JsonValue :=
         match raws with
         | [] => Some (JObject entries)
         | (key, raw) :: raws =>
             if N.of_nat (length entries) =? MAX_COLLECTION_ITEMS then None
             else if decide (key ∈ seen) then None
             else match visit raw with
                  | None => None
                  | Some value => visit_map raws ({[key]} ∪ seen) (entries ++ [(key, value)])
                  end
         end) raws ∅ []
  end.

Definition check_compatibility (actual : N) : result unit ProtocolError :=
  if actual =? COMPATIBILITY_VERSION then Ok tt
  else Err (mkProtocolError "unsupported_compatibility" "$"
              "unsupported bridge compatibility number").

(** ** Preflight *)

Definition unicode_escape_bytes (unit : N) : N :=
  if unit <=? 127 then 1
  else if unit <=? 2047 then 2
  else if (55296 <=? unit) && (unit <=? 57343) then 2
  else 3.

(** [char::to_digit(16)]. *)
Definition to_digit16 (byte : ascii) : option N :=
  let c := N_of_ascii byte in
  if (48 <=? c) && (c <=? 57) then Some (c - 48)
  else if (97 <=? c) && (c <=? 102) then Some (c - 87)
  else if (65 <=? c) && (c <=? 70) then Some (c - 55)
  else None.

Record Preflight := mkPreflight {
  pf_depth : N;
  pf_in_string : bool;
  pf_escaped : bool;
  pf_unicode_unit : N;
  pf_unicode_digits : N;
  pf_string_bytes : N
}.

Definition preflight_init : Preflight := mkPreflight 0 false false 0 0 0.

Definition QUOTE : ascii := "034".
Definition BACKSLASH : ascii := "092".

(** A byte inside a string: the decoded length it adds, and the state. *)
Definition preflight_in_string (byte : ascii) (st : Preflight) : N * Preflight :=
  if 0 <? pf_unicode_digits st then
    match to_digit16 byte with
    | Some digit =>
        let unit := pf_unicode_unit st * 16 + digit in
        let digits := pf_unicode_digits st - 1 in
        (if digits =? 0 then unicode_escape_bytes unit else 0,
         mkPreflight (pf_depth st) true (pf_escaped st) unit digits (pf_string_bytes st))
    | None =>
        (1, mkPreflight (pf_depth st) true (pf_escaped st) (pf_unicode_unit st) 0
              (pf_string_bytes st))
    end
  else if pf_escaped st then
    if Ascii.eqb byte "u" then
      (0, mkPreflight (pf_depth st) true false 0 4 (pf_string_bytes st))
    else (1, mkPreflight (pf_depth st) true false (pf_unicode_unit st) (pf_unicode_digits st)
               (pf_string_bytes st))
  else if Ascii.eqb byte BACKSLASH then
    (0, mkPreflight (pf_depth st) true true (pf_unicode_unit st) (pf_unicode_digits st)
          (pf_string_bytes st))
  else if Ascii.eqb byte QUOTE then
    (0, mkPreflight (pf_depth st) false (pf_escaped st) (pf_unicode_unit st)
          (pf_unicode_digits st) (pf_string_bytes st))
  else (1, st).

Definition preflight_byte (string_limit : N) (byte : ascii) (st : Preflight)
    : result Preflight ProtocolError :=
  if pf_in_string st then
    let '(decoded, st) := preflight_in_string byte st in
    let bytes := pf_string_bytes st + decoded in
    if string_limit <? bytes then Err (invalid "$" "JSON string byte limit exceeded")
    else Ok (mkPreflight (pf_depth st) (pf_in_string st) (pf_escaped st) (pf_unicode_unit st)
               (pf_unicode_digits st) bytes)
  else if Ascii.eqb byte QUOTE then
    Ok (mkPreflight (pf_depth st) true (pf_escaped st) (pf_unicode_unit st)
          (pf_unicode_digits st) 0)
  else if Ascii.eqb byte "{" || Ascii.eqb byte "[" then
    let depth := pf_depth st + 1 in
    if MAX_DEPTH <? depth then Err (invalid "$" "JSON nesting limit exceeded")
    else Ok (mkPreflight depth false (pf_escaped st) (pf_unicode_unit st)
               (pf_unicode_digits st) (pf_string_bytes st))
  else if Ascii.eqb byte "}" || Ascii.eqb byte "]" then
    Ok (mkPreflight (pf_depth st - 1) false (pf_escaped st) (pf_unicode_unit st)
          (pf_unicode_digits st) (pf_string_bytes st))
  else Ok st.

Fixpoint preflight_loop (string_limit : N) (input : string) (st : Preflight)
    : result Preflight ProtocolError :=
  match input with
  | EmptyString => Ok st
  | String byte input =>
      match preflight_byte string_limit byte st with
      | Ok st => preflight_loop string_limit input st
      | Err e => Err e
      end
  end.

Definition preflight (input : string) (string_limit : N) : result unit ProtocolError :=
  if MAX_DOCUMENT_BYTES <? str_len input then Err (invalid "$" "document byte limit exceeded")
  else match preflight_loop string_limit input preflight_init with
       | Ok _ => Ok tt
       | Err e => Err e
       end.

(** ** Trees *)

(** [validate_tree]: the node counter is threaded through, as the code's
    mutable reference. *)
Fixpoint validate_tree (value : JsonValue) (depth nodes string_limit : N)
    : result N ProtocolError :=
  let nodes := nodes + 1 in
  if (MAX_NODES <? nodes) || (MAX_DEPTH <? depth) then
    Err (invalid "$" "JSON resource limit exceeded")
  else
    match value with
    | JString value =>
        if string_limit <? str_len value then Err (invalid "$" "decoded JSON string limit exceeded")
        else Ok nodes
    | JArray values =>
        (fix validate_values (values : list JsonValue) (nodes : N) : result N ProtocolError :=
           match values with
           | [] => Ok nodes
           | value :: values =>
               match validate_tree value (depth + 1) nodes string_limit with
               | Ok nodes => validate_values values nodes
               | Err e => Err e
               end
           end) values nodes
    | JObject entries =>
        (fix validate_entries (entries : list (string * JsonValue)) (nodes : N)
             : result N ProtocolError :=
           match entries with
           | [] => Ok nodes
           | (key, value) :: entries =>
               if string_limit <? str_len key then
                 Err (invalid "$" "decoded JSON key limit exceeded")
               else
                 match validate_tree value (depth + 1) nodes string_limit with
                 | Ok nodes => validate_entries entries nodes
                 | Err e => Err e
                 end
           end) entries nodes
    | _ => Ok nodes
    end.

Definition expect_object (value : JsonValue) (path : string)
    : result (list (string * JsonValue)) ProtocolError :=
  match value with
  | JObject entries => Ok entries
  | _ => Err (invalid path "expected JSON object")
  end.

Definition expect_string (value : JsonValue) (path : string) : result string ProtocolError :=
  match value with
  | JString value => Ok value
  | _ => Err (invalid path "expected JSON string")
  end.

Definition expect_bool (value : JsonValue) (path : string) : result bool ProtocolError :=
  match value with
  | JBool value => Ok value
  | _ => Err (invalid path "expected JSON boolean")
  end.

Fixpoint find_member (entries : list (string * JsonValue)) (name : string) : option JsonValue :=
  match entries with
  | [] => None
  | (key, value) :: entries => if decide (key = name) then Some value else find_member entries name
  end.

Definition field (entries : list (string * JsonValue)) (name path : string)
    : result JsonValue ProtocolError :=
  match find_member entries name with
  | Some value => Ok value
  | None => Err (invalid path ("missing required field " +:+ name))
  end.

Definition require_exact_fields (entries : list (string * JsonValue)) (expected : list string)
    (path : string) : result unit ProtocolError :=
  if negb (length entries =? length expected)%nat ||
     existsb (λ entry, negb (bool_decide (entry.1 ∈ expected))) entries
  then Err (invalid path "object has missing or unknown fields")
  else Ok tt.

(** ** Envelopes *)

Definition is_ascii_digit (byte : ascii) : bool :=
  (48 <=? N_of_ascii byte) && (N_of_ascii byte <=? 57).
Definition is_ascii_lowercase (byte : ascii) : bool :=
  (97 <=? N_of_ascii byte) && (N_of_ascii byte <=? 122).
Definition is_hex_lowercase (byte : ascii) : bool :=
  is_ascii_digit byte || ((97 <=? N_of_ascii byte) && (N_of_ascii byte <=? 102)).
Definition is_operation_byte (byte : ascii) : bool :=
  is_ascii_lowercase byte || is_ascii_digit byte || Ascii.eqb byte "_" || Ascii.eqb byte ".".

Definition bytes_all (p : ascii → bool) (s : string) : bool := forallb p (String.list_ascii_of_string s).

Definition bad_correlation_id (correlation_id : string) : bool :=
  negb (str_len correlation_id =? 32) || negb (bytes_all is_hex_lowercase correlation_id).

Definition bad_operation (operation : string) : bool :=
  match operation with
  | EmptyString => true
  | String first _ =>
      (64 <? str_len operation) || negb (is_ascii_lowercase first) ||
      negb (bytes_all is_operation_byte operation)
  end.

Definition is_object (value : JsonValue) : bool :=
  match value with JObject _ => true | _ => false end.

Definition validate_body (body : JsonValue) : result unit ProtocolError :=
  if negb (is_object body) then Err (invalid "$.body" "body must be a JSON object")
  else match validate_tree body 2 0 MAX_STRING_BYTES with
       | Ok _ => Ok tt
       | Err e => Err e
       end.

Definition validate_envelope (envelope : Envelope) : result unit ProtocolError :=
  let '(correlation_id, operation, body, error) :=
    match envelope with
    | EnvRequest value =>
        (rq_correlation_id value, rq_operation value, Some (rq_body value), None)
    | EnvResponse value =>
        (rs_correlation_id value, rs_operation value, Some (rs_body value), None)
    | EnvError value =>
        (er_correlation_id value, er_operation value, None, Some (er_error value))
    end in
  if bad_correlation_id correlation_id then
    Err (invalid "$.correlation_id" "correlation identifier must be lowercase hexadecimal")
  else if bad_operation operation then Err (invalid "$.operation" "invalid operation name")
  else
    (let? _ := match body with Some body => validate_body body | None => Ok tt end in
     match error with
     | Some error =>
         if (str_len (be_message error) =? 0) || (1024 <? str_len (be_message error)) then
           Err (invalid "$.error.message" "invalid error message length")
         else Ok tt
     | None => Ok tt
     end)%bridge.

Definition decode_error_envelope (entries : list (string * JsonValue))
    : result Envelope ProtocolError :=
  (let? _ := require_exact_fields entries
               ["kind"; "correlation_id"; "operation"; "error"] "$" in
   let? error := field entries "error" "$" in
   let? error_entries := expect_object error "$.error" in
   let? _ := require_exact_fields error_entries ["code"; "message"; "retryable"] "$.error" in
   let? code_field := field error_entries "code" "$.error" in
   let? code_name := expect_string code_field "$.error.code" in
   let? code :=
     (if decide (code_name = "invalid_message") then Ok InvalidMessage
      else if decide (code_name = "unsupported_message") then Ok UnsupportedMessage
      else if decide (code_name = "internal_bridge") then Ok InternalBridge
      else Err (invalid "$.error.code" "unknown bridge error code")) in
   let? correlation_field := field entries "correlation_id" "$" in
   let? correlation_id := expect_string correlation_field "$.correlation_id" in
   let? operation_field := field entries "operation" "$" in
   let? operation := expect_string operation_field "$.operation" in
   let? message_field := field error_entries "message" "$.error" in
   let? message := expect_string message_field "$.error.message" in
   let? retryable_field := field error_entries "retryable" "$.error" in
   let? retryable := expect_bool retryable_field "$.error.retryable" in
   let envelope := EnvError (mkErrorResponse correlation_id operation
                               (mkBridgeError code message retryable)) in
   let? _ := validate_envelope envelope in
   Ok envelope)%bridge.

Definition envelope_from_json (value : JsonValue) : result Envelope ProtocolError :=
  (let? entries := expect_object value "$" in
   let? kind_field := field entries "kind" "$" in
   let? kind := expect_string kind_field "$.kind" in
   if decide (kind = "request" ∨ kind = "response") then
     (let? _ := require_exact_fields entries
                  ["kind"; "correlation_id"; "operation"; "body"] "$" in
      let? correlation_field := field entries "correlation_id" "$" in
      let? correlation_id := expect_string correlation_field "$.correlation_id" in
      let? operation_field := field entries "operation" "$" in
      let? operation := expect_string operation_field "$.operation" in
      let? body := field entries "body" "$" in
      let envelope :=
        if decide (kind = "request") then EnvRequest (mkRequest correlation_id operation body)
        else EnvResponse (mkResponse correlation_id operation body) in
      let? _ := validate_envelope envelope in
      Ok envelope)
   else if decide (kind = "error") then decode_error_envelope entries
   else Err (invalid "$.kind" "unknown envelope kind"))%bridge.

(** ** Rendering *)

(** [sort_by] on the keys: a stable sort. *)
Fixpoint insert_entry {A} (e : string * A) (sorted : list (string * A)) : list (string * A) :=
  match sorted with
  | [] => [e]
  | e' :: rest =>
      if String.leb e.1 e'.1 then e :: sorted else e' :: insert_entry e rest
  end.

Definition sort_entries {A} (entries : list (string * A)) : list (string * A) :=
  foldr insert_entry [] entries.

Fixpoint join (separator : string) (parts : list string) : string :=
  match parts with
  | [] => EmptyString
  | [part] => part
  | part :: parts => part +:+ separator +:+ join separator parts
  end.

(** [collect::<Result<Vec<_>, _>>]. *)
Fixpoint collect {A} (results : list (result A ProtocolError)) : result (list A) ProtocolError :=
  match results with
  | [] => Ok []
  | Ok x :: results => match collect results with Ok xs => Ok (x :: xs) | Err e => Err e end
  | Err e :: _ => Err e
  end.

(** Text between double quotes. *)
Definition in_quotes (text : string) : string := String QUOTE (text +:+ String QUOTE EmptyString).

Section Codec.
Context `{SerdeJson} `{Base64}.

Definition quote (value : string) : result string ProtocolError :=
  match serde_quote value with
  | Some text => Ok text
  | None => Err (invalid "$" "could not encode JSON string")
  end.

(** One rendered object member. *)
Definition render_member (key : string) (rendered : result string ProtocolError)
    : result string ProtocolError :=
  (let? k := quote key in
   let? v := rendered in
   Ok (k +:+ ":" +:+ v))%bridge.

(** [render_json].  Sorting looks at the keys only, so the members are rendered
    before they are sorted and the first error is looked for afterwards. *)
Fixpoint render_json (value : JsonValue) : result string ProtocolError :=
  match value with
  | JNull => Ok "null"
  | JBool value => Ok (if value then "true" else "false")
  | JSigned value => Ok (pretty value)
  | JUnsigned value => Ok (pretty value)
  | JString value => quote value
  | JArray values =>
      match collect (map render_json values) with
      | Ok parts => Ok ("[" +:+ join "," parts +:+ "]")
      | Err e => Err e
      end
  | JObject entries =>
      let rendered := map (λ entry, (entry.1, render_json entry.2)) entries in
      match collect (map (λ entry, render_member entry.1 entry.2) (sort_entries rendered)) with
      | Ok parts => Ok ("{" +:+ join "," parts +:+ "}")
      | Err e => Err e
      end
  end.

(** A fixed member of an envelope whose value is already rendered. *)
Definition fixed_member (name rendered : string) : string :=
  in_quotes name +:+ ":" +:+ rendered.

Definition render_common (kind correlation_id operation : string) (body : JsonValue)
    : result string ProtocolError :=
  (let? correlation_id := quote correlation_id in
   let? operation := quote operation in
   let? body := render_json body in
   Ok ("{" +:+ join "," [fixed_member "kind" (in_quotes kind);
                         fixed_member "correlation_id" correlation_id;
                         fixed_member "operation" operation;
                         fixed_member "body" body] +:+ "}"))%bridge.

Definition error_code_name (code : BridgeErrorCode) : string :=
  match code with
  | InvalidMessage => "invalid_message"
  | UnsupportedMessage => "unsupported_message"
  | InternalBridge => "internal_bridge"
  end.

Definition render_envelope (envelope : Envelope) : result string ProtocolError :=
  match envelope with
  | EnvRequest value =>
      render_common "request" (rq_correlation_id value) (rq_operation value) (rq_body value)
  | EnvResponse value =>
      render_common "response" (rs_correlation_id value) (rs_operation value) (rs_body value)
  | EnvError value =>
      (let? correlation_id := quote (er_correlation_id value) in
       let? operation := quote (er_operation value) in
       let? message := quote (be_message (er_error value)) in
       Ok ("{" +:+ join ","
             [fixed_member "kind" (in_quotes "error");
              fixed_member "correlation_id" correlation_id;
              fixed_member "operation" operation;
              fixed_member "error"
                ("{" +:+ join ","
                   [fixed_member "code" (in_quotes (error_code_name (be_code (er_error value))));
                    fixed_member "message" message;
                    fixed_member "retryable"
                      (if be_retryable (er_error value) then "true" else "false")] +:+ "}")]
           +:+ "}"))%bridge
  end.

(** ** Documents *)

Definition parse_strict_with_string_limit (input : string) (string_limit : N)
    : result JsonValue ProtocolError :=
  (let? _ := preflight input string_limit in
   match serde_parse input with
   | None => Err (invalid "$" "invalid strict JSON document")
   | Some (raw, at_end) =>
       match visit raw with
       | None => Err (invalid "$" "invalid strict JSON document")
       | Some value =>
           if negb at_end then Err (invalid "$" "trailing JSON input")
           else
             (let? _ := validate_tree value 1 0 string_limit in
              Ok value)
       end
   end)%bridge.

Definition parse_strict (input : string) : result JsonValue ProtocolError :=
  parse_strict_with_string_limit input MAX_STRING_BYTES.

Definition decode (input : string) : result Envelope ProtocolError :=
  (let? value := parse_strict input in envelope_from_json value)%bridge.

Definition encode (envelope : Envelope) : result string ProtocolError :=
  (let? _ := validate_envelope envelope in
   let? output := render_envelope envelope in
   let? reparsed := decode output in
   let? again := render_envelope reparsed in
   if decide (again = output) then Ok output
   else Err (invalid "$" "outgoing envelope did not round trip"))%bridge.

Definition object_or_error (value : JsonValue) : result JsonValue ProtocolError :=
  if is_object value then Ok value
  else Err (invalid "$" "operation body must be a JSON object").

(** The common part of [encode_object] and [encode_payload_object]. *)
Definition encode_with_limit (string_limit : N) (decode : string → result JsonValue ProtocolError)
    (value : JsonValue) : result string ProtocolError :=
  (let? _ := object_or_error value in
   let? _ := validate_tree value 1 0 string_limit in
   let? output := render_json value in
   let? reparsed := decode output in
   let? again := render_json reparsed in
   if decide (again = output) then Ok output
   else Err (invalid "$" "outgoing object did not round trip"))%bridge.

Definition decode_object (input : string) : result JsonValue ProtocolError :=
  (let? value := parse_strict input in object_or_error value)%bridge.

Definition encode_object (value : JsonValue) : result string ProtocolError :=
  encode_with_limit MAX_STRING_BYTES decode_object value.

Definition decode_payload_object (input : string) : result JsonValue ProtocolError :=
  (let? value := parse_strict_with_string_limit input MAX_PAYLOAD_BASE64_BYTES in
   object_or_error value)%bridge.

Definition encode_payload_object (value : JsonValue) : result string ProtocolError :=
  encode_with_limit MAX_PAYLOAD_BASE64_BYTES decode_payload_object value.

(** ** Payload wrappers *)

Definition decode_payload (input : string) : result (list byte) ProtocolError :=
  (let? value := parse_strict_with_string_limit input MAX_PAYLOAD_BASE64_BYTES in
   let? entries := expect_object value "$" in
   let? _ := require_exact_fields entries ["encoding"; "data"] "$" in
   let? encoding_field := field entries "encoding" "$" in
   let? encoding := expect_string encoding_field "$.encoding" in
   if negb (bool_decide (encoding = "base64")) then
     Err (invalid "$.encoding" "unsupported payload encoding")
   else
     let? data_field := field entries "data" "$" in
     let? data := expect_string data_field "$.data" in
     match base64_decode data with
     | None => Err (invalid "$.data" "payload is not canonical padded base64")
     | Some bytes =>
         if (MAX_PAYLOAD_BYTES <? bytes_len bytes) ||
            negb (bool_decide (base64_encode bytes = data))
         then Err (invalid "$.data" "payload is not canonical padded base64")
         else Ok bytes
     end)%bridge.

Definition encode_payload (bytes : list byte) : result string ProtocolError :=
  if MAX_PAYLOAD_BYTES <? bytes_len bytes then
    Err (invalid "$.data" "decoded payload limit exceeded")
  else
    (let? data := quote (base64_encode bytes) in
     let output := "{" +:+ join "," [fixed_member "encoding" (in_quotes "base64");
                                     fixed_member "data" data] +:+ "}" in
     let? decoded := decode_payload output in
     if decide (decoded = bytes) then Ok output
     else Err (invalid "$" "outgoing payload did not round trip"))%bridge.

End Codec.
