(* ===== verification/ProtocolTrees.v ===== *)
(** * Trees of the control protocol

    What the strict_json visitor and the resource check of [Protocol] accept, against
    reference definitions; and the closed shape check. *)

From S2P Require Import Prelude.
From S2P Require Import Protocol.
From Stdlib Require Import Ascii.
Local Open Scope N_scope.

(** ** Lists *)

Lemma Forall_map_elem {A B} (P : B → Prop) (f : A → B) l x :
  Forall P (map f l) → x ∈ l → P (f x).
Proof. intros Hall Hx. rewrite Forall_forall in Hall. by apply Hall, list_elem_of_fmap_2. Qed.

Lemma Forall_map_intro {A B} (P : B → Prop) (f : A → B) l :
  (∀ x, x ∈ l → P (f x)) → Forall P (map f l).
Proof. intros Hall. apply Forall_map, Forall_forall, Hall. Qed.

(** ** Induction *)

Lemma JsonValue_ind (P : JsonValue → Prop) :
  P JNull → (∀ b, P (JBool b)) → (∀ z, P (JSigned z)) → (∀ n, P (JUnsigned n)) →
  (∀ s, P (JString s)) → (∀ vs, Forall P vs → P (JArray vs)) →
  (∀ es, Forall (λ e, P e.2) es → P (JObject es)) → ∀ v, P v.
Proof.
  intros Hnull Hbool Hsigned Hunsigned Hstring Harray Hobject. fix IH 1. intros [].
  - exact Hnull.
  - apply Hbool.
  - apply Hsigned.
  - apply Hunsigned.
  - apply Hstring.
  - apply Harray. induction values; constructor; auto.
  - apply Hobject. induction entries; constructor; auto.
Qed.

Lemma RawJson_ind (P : RawJson → Prop) :
  P RUnit → (∀ b, P (RBool b)) → (∀ z, P (RI64 z)) → (∀ n, P (RU64 n)) → P RF64 →
  (∀ s, P (RStr s)) → (∀ rs, Forall P rs → P (RSeq rs)) →
  (∀ es, Forall (λ e, P e.2) es → P (RMap es)) → ∀ r, P r.
Proof.
  intros Hunit Hbool Hi64 Hu64 Hf64 Hstr Hseq Hmap. fix IH 1. intros [].
  - exact Hunit.
  - apply Hbool.
  - apply Hi64.
  - apply Hu64.
  - exact Hf64.
  - apply Hstr.
  - apply Hseq. induction values; constructor; auto.
  - apply Hmap. induction entries; constructor; auto.
Qed.

(** ** The visitor *)

(** The document a value stands for. *)
Fixpoint raw_of (v : JsonValue) : RawJson :=
  match v with
  | JNull => RUnit
  | JBool b => RBool b
  | JSigned z => RI64 z
  | JUnsigned n => RU64 n
  | JString s => RStr s
  | JArray vs => RSeq (map raw_of vs)
  | JObject es => RMap (map (λ e, (e.1, raw_of e.2)) es)
  end.

(** The accepted subset: integers below 2^63, unique member names, bounded
    collections. *)
Fixpoint strict_json (v : JsonValue) : Prop :=
  match v with
  | JUnsigned n => n ≤ I64_MAX
  | JArray vs =>
      N.of_nat (length vs) ≤ MAX_COLLECTION_ITEMS ∧ Forall id (map strict_json vs)
  | JObject es =>
      N.of_nat (length es) ≤ MAX_COLLECTION_ITEMS ∧ NoDup es.*1 ∧
      Forall id (map (λ e, strict_json e.2) es)
  | _ => True
  end.

(** The visitor's loops, named. *)
Definition visit_seq : list RawJson → list JsonValue → option JsonValue :=
  fix visit_seq raws values :=
    match raws with
    | [] => Some (JArray values)
    | raw :: raws =>
        match visit raw with
        | None => None
        | Some value =>
            if N.of_nat (length values) =? MAX_COLLECTION_ITEMS then None
            else visit_seq raws (values ++ [value])
        end
    end.

Definition visit_map : list (string * RawJson) → gset string → list (string * JsonValue)
    → option JsonValue :=
  fix visit_map raws seen entries :=
    match raws with
    | [] => Some (JObject entries)
    | (key, raw) :: raws =>
        if N.of_nat (length entries) =? MAX_COLLECTION_ITEMS then None
        else if decide (key ∈ seen) then None
        else match visit raw with
             | None => None
             | Some value => visit_map raws ({[key]} ∪ seen) (entries ++ [(key, value)])
             end
    end.

Definition visits_exactly (raw : RawJson) : Prop :=
  ∀ v, visit raw = Some v ↔ raw = raw_of v ∧ strict_json v.

Lemma visit_seq_exact raws values v :
  Forall visits_exactly raws → N.of_nat (length values) ≤ MAX_COLLECTION_ITEMS →
  visit_seq raws values = Some v ↔
  ∃ vs, v = JArray (values ++ vs) ∧ raws = map raw_of vs ∧ Forall id (map strict_json vs) ∧
    N.of_nat (length (values ++ vs)) ≤ MAX_COLLECTION_ITEMS.
Proof.
  intros Hall. revert values. induction Hall as [|raw raws Hraw _ IH]; intros values Hlen; simpl.
  - split.
    + intros [= <-]. exists []. rewrite app_nil_r. split_and!; try done; constructor.
    + intros ([|v0 vs] & -> & Heq & _); [by rewrite app_nil_r|done].
  - destruct (visit raw) as [value|] eqn:Hv.
    + apply Hraw in Hv as [-> Hstrict].
      destruct (N.eqb_spec (N.of_nat (length values)) MAX_COLLECTION_ITEMS) as [Hfull|Hroom].
      * split; [done|]. intros ([|v0 vs] & _ & Heq & _ & Hle); [done|].
        rewrite length_app in Hle. simpl in Hle. lia.
      * rewrite IH by (rewrite length_app; simpl; lia). split.
        -- intros (vs & -> & -> & Hs & Hle). exists (value :: vs). rewrite <-app_assoc in *.
           split_and!; try done; by constructor.
        -- intros ([|v0 vs] & -> & Heq & Hs & Hle); [done|]. simpl in Heq, Hs.
           injection Heq as Heq ->. apply Forall_cons in Hs as [Hs0 Hs].
           assert (value = v0) as ->.
           { pose proof (proj2 (Hraw v0) (conj Heq Hs0)) as H0.
             pose proof (proj2 (Hraw value) (conj eq_refl Hstrict)) as H1. congruence. }
           exists vs. rewrite <-app_assoc. done.
    + split; [done|]. intros ([|v0 vs] & _ & Heq & Hs & _); [done|]. simpl in Heq, Hs.
      injection Heq as Heq _. apply Forall_cons in Hs as [Hs0 _].
      by rewrite (proj2 (Hraw v0) (conj Heq Hs0)) in Hv.
Qed.

Lemma visit_map_exact raws seen entries v :
  Forall (λ e, visits_exactly e.2) raws →
  N.of_nat (length entries) ≤ MAX_COLLECTION_ITEMS →
  NoDup entries.*1 → (∀ k, k ∈ seen ↔ k ∈ entries.*1) →
  visit_map raws seen entries = Some v ↔
  ∃ es, v = JObject (entries ++ es) ∧ raws = map (λ e, (e.1, raw_of e.2)) es ∧
    Forall id (map (λ e, strict_json e.2) es) ∧ NoDup (entries ++ es).*1 ∧
    N.of_nat (length (entries ++ es)) ≤ MAX_COLLECTION_ITEMS.
Proof.
  intros Hall. revert seen entries.
  induction Hall as [|[key raw] raws Hraw _ IH]; intros seen entries Hlen Hnodup Hseen; simpl.
  - split.
    + intros [= <-]. exists []. rewrite app_nil_r. split_and!; try done; constructor.
    + intros ([|e0 es] & -> & Heq & _); [by rewrite app_nil_r|done].
  - simpl in Hraw.
    destruct (N.eqb_spec (N.of_nat (length entries)) MAX_COLLECTION_ITEMS) as [Hfull|Hroom].
    { split; [done|]. intros ([|e0 es] & _ & Heq & _ & _ & Hle); [done|].
      rewrite length_app in Hle. simpl in Hle. lia. }
    case_decide as Hdup.
    { split; [done|]. intros ([|[k0 v0] es] & _ & Heq & _ & Hnd & _); [done|].
      simpl in Heq. injection Heq as <- _ _. rewrite fmap_app in Hnd. simpl in Hnd.
      apply NoDup_app in Hnd as (_ & Hdisj & _). destruct (Hdisj key); [by apply Hseen|left]. }
    destruct (visit raw) as [value|] eqn:Hv.
    + apply Hraw in Hv as [-> Hstrict].
      assert (key ∉ entries.*1) as Hnew by (by rewrite <-Hseen).
      rewrite IH; [|rewrite length_app; simpl; lia| |].
      * split.
        -- intros (es & -> & -> & Hs & Hnd & Hle). exists ((key, value) :: es).
           rewrite <-app_assoc in *. split_and!; try done; by constructor.
        -- intros ([|[k0 v0] es] & -> & Heq & Hs & Hnd & Hle); [done|]. simpl in Heq, Hs.
           injection Heq as <- Heq ->. apply Forall_cons in Hs as [Hs0 Hs].
           assert (value = v0) as ->.
           { pose proof (proj2 (Hraw v0) (conj Heq Hs0)) as H0.
             pose proof (proj2 (Hraw value) (conj eq_refl Hstrict)) as H1. congruence. }
           exists es. rewrite <-app_assoc. done.
      * rewrite fmap_app. simpl. apply NoDup_app. split_and!; [done| |apply NoDup_singleton].
        intros k Hk ->%list_elem_of_singleton. done.
      * intros k. rewrite fmap_app, elem_of_app, elem_of_union, elem_of_singleton, Hseen.
        simpl. rewrite list_elem_of_singleton. naive_solver.
    + split; [done|]. intros ([|[k0 v0] es] & _ & Heq & Hs & _); [done|]. simpl in Heq, Hs.
      injection Heq as _ Heq _. apply Forall_cons in Hs as [Hs0 _].
      by rewrite (proj2 (Hraw v0) (conj Heq Hs0)) in Hv.
Qed.

Lemma visit_exact raw : visits_exactly raw.
Proof.
  induction raw as [|b|z|n| |s|raws IH|raws IH] using RawJson_ind; intros v.
  - split; [by intros [= <-]|by destruct v as [| | | | | |]; intros [? _]].
  - split; [by intros [= <-]|destruct v; by intros [[= ->] _]].
  - split; [by intros [= <-]|destruct v; by intros [[= ->] _]].
  - cbn [visit]. destruct (N.ltb_spec I64_MAX n).
    + split; [done|]. destruct v; intros [[= ->] Hs]; simpl in Hs; lia.
    + split; [by intros [= <-]|]. destruct v; by intros [[= ->] _].
  - split; [done|]. destruct v; by intros [? _].
  - split; [by intros [= <-]|destruct v; by intros [[= ->] _]].
  - change (visit (RSeq raws)) with (visit_seq raws []).
    rewrite visit_seq_exact by (simpl; unfold MAX_COLLECTION_ITEMS, MAX_DOCUMENT_BYTES; done || lia).
    split.
    + intros (vs & -> & -> & ? & ?). done.
    + intros [Heq Hs]. destruct v; try done. injection Heq as ->. exists values.
      simpl in Hs. naive_solver.
  - change (visit (RMap raws)) with (visit_map raws ∅ []).
    rewrite visit_map_exact; [|done|simpl; lia|constructor|set_solver].
    split.
    + intros (es & -> & -> & ? & ? & ?). done.
    + intros [Heq Hs]. destruct v; try done. injection Heq as ->. exists entries.
      simpl in Hs. naive_solver.
Qed.

(** The strict_json visitor.  A document is accepted exactly when every number in
    it is an integer below 2^63, no object repeats a member name and no
    collection exceeds its limit; the value returned is then that document,
    member order included. *)
Theorem visitor_accepts_strict raw v :
  visit raw = Some v ↔ raw = raw_of v ∧ strict_json v.
Proof. apply visit_exact. Qed.

(** ** The resource check *)

Definition sum_list : list N → N := foldr N.add 0.
Definition max_list : list N → N := foldr N.max 0.

(** Values in the tree. *)
Fixpoint node_count (v : JsonValue) : N :=
  match v with
  | JArray vs => 1 + sum_list (map node_count vs)
  | JObject es => 1 + sum_list (map (λ e, node_count e.2) es)
  | _ => 1
  end.

(** Nesting, the outer value counting one. *)
Fixpoint height (v : JsonValue) : N :=
  match v with
  | JArray vs => 1 + max_list (map height vs)
  | JObject es => 1 + max_list (map (λ e, height e.2) es)
  | _ => 1
  end.

(** Every string and member name is within the limit. *)
Fixpoint strings_fit (limit : N) (v : JsonValue) : Prop :=
  match v with
  | JString s => str_len s ≤ limit
  | JArray vs => Forall id (map (strings_fit limit) vs)
  | JObject es => Forall id (map (λ e, str_len e.1 ≤ limit ∧ strings_fit limit e.2) es)
  | _ => True
  end.

(** The loops of [validate_tree], named. *)
Definition validate_values (depth limit : N) : list JsonValue → N → result N ProtocolError :=
  fix validate_values values nodes :=
    match values with
    | [] => Ok nodes
    | value :: values =>
        match validate_tree value depth nodes limit with
        | Ok nodes => validate_values values nodes
        | Err e => Err e
        end
    end.

Definition validate_entries (depth limit : N)
    : list (string * JsonValue) → N → result N ProtocolError :=
  fix validate_entries entries nodes :=
    match entries with
    | [] => Ok nodes
    | (key, value) :: entries =>
        if limit <? str_len key then Err (invalid "$" "decoded JSON key limit exceeded")
        else
          match validate_tree value depth nodes limit with
          | Ok nodes => validate_entries entries nodes
          | Err e => Err e
          end
    end.

Definition validates_exactly (v : JsonValue) : Prop :=
  ∀ depth nodes limit n,
    validate_tree v depth nodes limit = Ok n ↔
    n = nodes + node_count v ∧ n ≤ MAX_NODES ∧ depth + height v ≤ MAX_DEPTH + 1 ∧
    strings_fit limit v.

Lemma node_count_pos v : 1 ≤ node_count v.
Proof. destruct v; simpl; lia. Qed.

Lemma validate_values_exact vs depth limit nodes n :
  Forall validates_exactly vs → nodes ≤ MAX_NODES → depth ≤ MAX_DEPTH + 1 →
  validate_values depth limit vs nodes = Ok n ↔
  n = nodes + sum_list (map node_count vs) ∧ n ≤ MAX_NODES ∧
  depth + max_list (map height vs) ≤ MAX_DEPTH + 1 ∧ Forall id (map (strings_fit limit) vs).
Proof.
  intros Hall Hn Hd. revert nodes Hn.
  induction Hall as [|v vs Hv _ IH]; intros nodes Hn; simpl.
  - rewrite !N.add_0_r. split; [|naive_solver]. intros [= <-]. split_and!; try done; lia.
  - rewrite Forall_cons. destruct (validate_tree v depth nodes limit) as [m|e] eqn:Hm.
    + apply Hv in Hm as (-> & Hle & Hh & Hs). rewrite IH by done.
      assert (depth + N.max (height v) (max_list (map height vs)) ≤ MAX_DEPTH + 1
        ↔ depth + max_list (map height vs) ≤ MAX_DEPTH + 1) as -> by lia.
      rewrite N.add_assoc. naive_solver.
    + split; [done|]. intros (-> & Hle & Hh & Hs & _).
      assert (validate_tree v depth nodes limit = Ok (nodes + node_count v)) as Hok;
        [|by rewrite Hm in Hok]. apply Hv. split_and!; try done; lia.
Qed.

Lemma validate_entries_exact es depth limit nodes n :
  Forall (λ e, validates_exactly e.2) es → nodes ≤ MAX_NODES → depth ≤ MAX_DEPTH + 1 →
  validate_entries depth limit es nodes = Ok n ↔
  n = nodes + sum_list (map (λ e, node_count e.2) es) ∧ n ≤ MAX_NODES ∧
  depth + max_list (map (λ e, height e.2) es) ≤ MAX_DEPTH + 1 ∧
  Forall id (map (λ e, str_len e.1 ≤ limit ∧ strings_fit limit e.2) es).
Proof.
  intros Hall Hn Hd. revert nodes Hn.
  induction Hall as [|[k v] es Hv _ IH]; intros nodes Hn; simpl.
  - rewrite !N.add_0_r. split; [|naive_solver]. intros [= <-]. split_and!; try done; lia.
  - rewrite Forall_cons. simpl in *. destruct (N.ltb_spec limit (str_len k)).
    { split; [done|]. intros (_ & _ & _ & [? _] & _). lia. }
    destruct (validate_tree v depth nodes limit) as [m|e] eqn:Hm.
    + apply Hv in Hm as (-> & Hle & Hh & Hs). rewrite IH by done.
      assert (depth + N.max (height v) (max_list (map (λ e, height e.2) es)) ≤ MAX_DEPTH + 1
        ↔ depth + max_list (map (λ e, height e.2) es) ≤ MAX_DEPTH + 1) as -> by lia.
      rewrite N.add_assoc. naive_solver.
    + split; [done|]. intros (-> & Hle & Hh & [_ Hs] & _).
      assert (validate_tree v depth nodes limit = Ok (nodes + node_count v)) as Hok;
        [|by rewrite Hm in Hok]. apply Hv. split_and!; try done; lia.
Qed.

Lemma validate_tree_exact v : validates_exactly v.
Proof.
  assert (∀ depth nodes, (MAX_NODES <? nodes + 1) || (MAX_DEPTH <? depth) = false ↔
    nodes + 1 ≤ MAX_NODES ∧ depth + 1 ≤ MAX_DEPTH + 1) as Hroom.
  { intros. rewrite orb_false_iff, !N.ltb_ge. lia. }
  induction v as [|b|z|n0|s|vs IH|es IH] using JsonValue_ind; intros depth nodes limit n;
    cbn [validate_tree node_count height strings_fit];
    destruct ((MAX_NODES <? nodes + 1) || (MAX_DEPTH <? depth)) eqn:Hfull.
  1,3,5,7: split; [done|]; intros (-> & ? & ? & _);
    rewrite (proj2 (Hroom depth nodes)) in Hfull; done.
  1-4: apply Hroom in Hfull; split; [intros [= <-]|]; naive_solver.
  - split; [done|]. intros (-> & ? & ? & _). by rewrite (proj2 (Hroom depth nodes)) in Hfull.
  - apply Hroom in Hfull. destruct (N.ltb_spec limit (str_len s)).
    + split; [done|]. intros (_ & _ & _ & ?). lia.
    + split; [intros [= <-]|]; naive_solver.
  - split; [done|]. intros (-> & ? & ? & _). rewrite (proj2 (Hroom depth nodes)) in Hfull; [done|].
    lia.
  - apply Hroom in Hfull as [? ?]. fold (validate_values (depth + 1) limit).
    rewrite validate_values_exact by (done || lia). rewrite !N.add_assoc. naive_solver.
  - split; [done|]. intros (-> & ? & ? & _). rewrite (proj2 (Hroom depth nodes)) in Hfull; [done|].
    lia.
  - apply Hroom in Hfull as [? ?]. fold (validate_entries (depth + 1) limit).
    rewrite validate_entries_exact by (done || lia). rewrite !N.add_assoc. naive_solver.
Qed.

(** The resource check.  [validate_tree] accepts a tree exactly when its
    number of values, its nesting and each of its strings and member names are
    within the limits, and the counter it leaves is the number of values seen;
    the traversal and its early exits compute nothing else. *)
Theorem validate_tree_accepts v depth nodes limit n :
  validate_tree v depth nodes limit = Ok n ↔
  n = nodes + node_count v ∧ n ≤ MAX_NODES ∧ depth + height v ≤ MAX_DEPTH + 1 ∧
  strings_fit limit v.
Proof. apply validate_tree_exact. Qed.

(** ** Closed shapes *)

Lemma require_exact_fields_spec entries expected path :
  NoDup entries.*1 → NoDup expected →
  require_exact_fields entries expected path = Ok tt ↔ entries.*1 ≡ₚ expected.
Proof.
  intros Hkeys Hexp. unfold require_exact_fields.
  assert (existsb (λ entry, negb (bool_decide (entry.1 ∈ expected))) entries = false
    ↔ entries.*1 ⊆ expected) as Hsub.
  { clear. induction entries as [|[k v] entries IH]; simpl; [set_solver|].
    rewrite orb_false_iff, negb_false_iff, bool_decide_eq_true, IH. set_solver. }
  destruct (Nat.eqb_spec (length entries) (length expected)) as [Hlen|Hlen]; simpl.
  - destruct (existsb _ _) eqn:Hex.
    + split; [done|]. intros Hperm.
      assert (entries.*1 ⊆ expected) as Hs by (intros k; by rewrite Hperm).
      by apply Hsub in Hs.
    + split; [|done]. intros _. pose proof (proj1 Hsub eq_refl).
      apply submseteq_length_Permutation; [by apply NoDup_submseteq|].
      rewrite length_fmap. lia.
  - split; [done|]. intros Hperm%Permutation_length. rewrite length_fmap in Hperm. done.
Qed.

Lemma find_member_Some entries k v :
  NoDup entries.*1 → find_member entries k = Some v ↔ (k, v) ∈ entries.
Proof.
  induction entries as [|[k' v'] entries IH]; simpl; [set_solver|].
  intros [Hnew Hnodup]%NoDup_cons. rewrite elem_of_cons. case_decide as Hk.
  - subst. split; [intros [= <-]; by left|]. intros [[= <-]|Hin]; [done|].
    destruct Hnew. apply list_elem_of_fmap. by exists (k, v).
  - rewrite IH by done. naive_solver.
Qed.

(** Closed shapes.  For an object with unique member names, the shape check
    accepts exactly the objects whose members are the expected ones in some
    order, and each expected field is then found with the value the object gives
    it. *)
Theorem exact_fields_closed entries expected path :
  NoDup entries.*1 → NoDup expected →
  (require_exact_fields entries expected path = Ok tt ↔ entries.*1 ≡ₚ expected) ∧
  (require_exact_fields entries expected path = Ok tt → ∀ name, name ∈ expected →
     ∃ v, field entries name path = Ok v ∧ (name, v) ∈ entries).
Proof.
  intros Hkeys Hexp. split; [by apply require_exact_fields_spec|].
  intros Hperm%require_exact_fields_spec name Hname; [|done..].
  rewrite <-Hperm in Hname. apply list_elem_of_fmap in Hname as ([k v] & -> & Hin).
  exists v. split; [|done]. unfold field. simpl.
  by rewrite (proj2 (find_member_Some entries k v Hkeys) Hin).
Qed.

Lemma exact_fields_closed_witness :
  ["data"; "encoding"] ≡ₚ ["encoding"; "data"].
Proof.
  exact (proj1 (proj1 (exact_fields_closed [("data", JNull); ("encoding", JString "base64")]
    ["encoding"; "data"] "$" ltac:(by apply (bool_decide_unpack _); vm_compute)
    ltac:(by apply (bool_decide_unpack _); vm_compute))) eq_refl).
Defined.
