(* ===== verification/ProtocolText.v ===== *)
(** * Text of the control protocol

    The byte scanner that guards the parser, against the JSON strings it reads
    over: what [preflight] of [Protocol] measures is the decoded length of each
    string, and the nesting. *)

From S2P Require Import Prelude.
From S2P Require Import Text.
From S2P Require Import Protocol.
From Stdlib Require Import Ascii.
Local Open Scope N_scope.

(** ** Lexical structure *)

(** One character of a JSON string as written. *)
Inductive StrChar :=
| CPlain (b : ascii)
| CEscape (b : ascii)
| CUnicode (d1 d2 d3 d4 : ascii).

(** A document, outside strings byte by byte. *)
Inductive Token :=
| TStr (cs : list StrChar)
| TByte (b : ascii).

Definition char_ok (c : StrChar) : Prop :=
  match c with
  | CPlain b => b ≠ QUOTE ∧ b ≠ BACKSLASH
  | CEscape b => b ≠ "u"%char
  | CUnicode d1 d2 d3 d4 =>
      is_Some (to_digit16 d1) ∧ is_Some (to_digit16 d2) ∧
      is_Some (to_digit16 d3) ∧ is_Some (to_digit16 d4)
  end.

Definition token_ok (t : Token) : Prop :=
  match t with
  | TStr cs => Forall char_ok cs
  | TByte b => b ≠ QUOTE
  end.

Definition char_text (c : StrChar) : string :=
  match c with
  | CPlain b => String b EmptyString
  | CEscape b => String BACKSLASH (String b EmptyString)
  | CUnicode d1 d2 d3 d4 =>
      String BACKSLASH (String "u" (String d1 (String d2 (String d3 (String d4 EmptyString)))))
  end.

Fixpoint chars_text (cs : list StrChar) : string :=
  match cs with [] => EmptyString | c :: cs => char_text c +:+ chars_text cs end.

Definition token_text (t : Token) : string :=
  match t with
  | TStr cs => in_quotes (chars_text cs)
  | TByte b => String b EmptyString
  end.

Fixpoint tokens_text (ts : list Token) : string :=
  match ts with [] => EmptyString | t :: ts => token_text t +:+ tokens_text ts end.

(** UTF-8 bytes a character decodes to. *)
Definition digit (d : ascii) : N := default 0 (to_digit16 d).

Definition char_bytes (c : StrChar) : N :=
  match c with
  | CPlain _ | CEscape _ => 1
  | CUnicode d1 d2 d3 d4 =>
      unicode_escape_bytes (((digit d1 * 16 + digit d2) * 16 + digit d3) * 16 + digit d4)
  end.

Definition decoded_bytes (cs : list StrChar) : N := foldr (λ c n, char_bytes c + n) 0 cs.

(** The reference scan: decoded string lengths and bracket depth. *)
Definition opens (b : ascii) : bool := Ascii.eqb b "{" || Ascii.eqb b "[".
Definition closes (b : ascii) : bool := Ascii.eqb b "}" || Ascii.eqb b "]".

Fixpoint scan (limit depth : N) (ts : list Token) : bool :=
  match ts with
  | [] => true
  | TStr cs :: ts => (decoded_bytes cs <=? limit) && scan limit depth ts
  | TByte b :: ts =>
      if opens b then (depth + 1 <=? MAX_DEPTH) && scan limit (depth + 1) ts
      else if closes b then scan limit (depth - 1) ts
      else scan limit depth ts
  end.

(** ** The scanner *)

(** Inside a string with nothing pending, and outside. *)
Definition in_text (depth unit bytes : N) : Preflight := mkPreflight depth true false unit 0 bytes.
Definition out_text (depth unit bytes : N) : Preflight := mkPreflight depth false false unit 0 bytes.

Definition string_limit_error : ProtocolError := invalid "$" "JSON string byte limit exceeded".

Lemma preflight_char limit c rest depth unit bytes :
  char_ok c → bytes ≤ limit →
  ∃ unit', preflight_loop limit (char_text c +:+ rest) (in_text depth unit bytes)
  = if limit <? bytes + char_bytes c then Err string_limit_error
    else preflight_loop limit rest (in_text depth unit' (bytes + char_bytes c)).
Proof.
  intros Hok Hle. destruct c as [b|b|d1 d2 d3 d4]; simpl in Hok;
    cbn [char_text char_bytes]; autorewrite with text; cbn [preflight_loop].
  - destruct Hok as [Hq Hb]. exists unit. unfold preflight_byte, preflight_in_string. simpl.
    rewrite (proj2 (Ascii.eqb_neq _ _) Hq), (proj2 (Ascii.eqb_neq _ _) Hb). simpl.
    by destruct (limit <? bytes + 1).
  - exists unit. unfold preflight_byte, preflight_in_string. simpl. rewrite !N.add_0_r.
    rewrite (proj2 (N.ltb_ge _ _) Hle). simpl.
    rewrite (proj2 (Ascii.eqb_neq _ _) Hok). simpl. by destruct (limit <? bytes + 1).
  - destruct Hok as ([v1 H1] & [v2 H2] & [v3 H3] & [v4 H4]).
    unfold digit. rewrite H1, H2, H3, H4. simpl.
    eexists. unfold preflight_byte, preflight_in_string. simpl. rewrite !N.add_0_r.
    rewrite (proj2 (N.ltb_ge _ _) Hle). simpl. rewrite !N.add_0_r.
    rewrite (proj2 (N.ltb_ge _ _) Hle). simpl. rewrite H1. simpl. rewrite !N.add_0_r.
    rewrite (proj2 (N.ltb_ge _ _) Hle). simpl. rewrite H2. simpl. rewrite !N.add_0_r.
    rewrite (proj2 (N.ltb_ge _ _) Hle). simpl. rewrite H3. simpl. rewrite !N.add_0_r.
    rewrite (proj2 (N.ltb_ge _ _) Hle). simpl. rewrite H4. simpl.
    rewrite N.mul_0_l, N.add_0_l.
    match goal with |- context [limit <? ?x] => by destruct (limit <? x) end.
Qed.

Lemma preflight_string limit cs rest depth unit bytes :
  Forall char_ok cs → bytes ≤ limit →
  ∃ unit', preflight_loop limit (chars_text cs +:+ String QUOTE rest) (in_text depth unit bytes)
  = if limit <? bytes + decoded_bytes cs then Err string_limit_error
    else preflight_loop limit rest (out_text depth unit' (bytes + decoded_bytes cs)).
Proof.
  intros Hall. revert unit bytes. induction Hall as [|c cs Hc _ IH]; intros unit bytes Hle.
  - exists unit. cbn [chars_text]. autorewrite with text. cbn [preflight_loop decoded_bytes foldr].
    unfold preflight_byte, preflight_in_string. simpl. rewrite !N.add_0_r.
    by rewrite (proj2 (N.ltb_ge _ _) Hle).
  - cbn [chars_text decoded_bytes foldr]. rewrite string_app_assoc.
    destruct (preflight_char limit c (chars_text cs +:+ String QUOTE rest) depth unit bytes Hc Hle)
      as [unit1 ->]. fold (decoded_bytes cs). rewrite N.add_assoc.
    destruct (N.ltb_spec limit (bytes + char_bytes c)) as [Hgt|Hle'].
    + exists 0. by rewrite (proj2 (N.ltb_lt _ _)) by lia.
    + by apply IH.
Qed.

(** The scanner on tokens: it stops with an error exactly where the reference
    scan fails. *)
Lemma preflight_tokens limit ts depth unit bytes :
  Forall token_ok ts →
  is_ok (preflight_loop limit (tokens_text ts) (out_text depth unit bytes)) = scan limit depth ts.
Proof.
  intros Hall. revert depth unit bytes.
  induction Hall as [|t ts Ht _ IH]; intros depth unit bytes; [done|].
  destruct t as [cs|b]; cbn [tokens_text token_text scan].
  - unfold in_quotes. autorewrite with text. cbn [preflight_loop].
    change (preflight_byte limit QUOTE (out_text depth unit bytes))
      with (Ok (in_text depth unit 0) (E := ProtocolError)). cbn match.
    destruct (preflight_string limit cs (tokens_text ts) depth unit 0 Ht) as [unit' ->]; [lia|].
    rewrite N.add_0_l, N.leb_antisym.
    destruct (limit <? decoded_bytes cs); simpl; [done|apply IH].
  - autorewrite with text. cbn [preflight_loop]. unfold preflight_byte. simpl.
    rewrite (proj2 (Ascii.eqb_neq _ _) Ht). fold (opens b). fold (closes b).
    destruct (opens b).
    + rewrite N.leb_antisym. destruct (MAX_DEPTH <? depth + 1); simpl; [done|apply IH].
    + destruct (closes b); apply IH.
Qed.

(** What the pre-parse scan measures.  For every sequence of JSON strings
    and other bytes, [preflight] accepts the text exactly when the document is
    within its byte limit, every string's decoded UTF-8 length is within the
    string limit (an escape counting what it decodes to, not what it is written
    with), and brackets never nest deeper than the limit. *)
Theorem preflight_measures_decoded limit ts :
  Forall token_ok ts →
  is_ok (preflight (tokens_text ts) limit) = true ↔
  str_len (tokens_text ts) ≤ MAX_DOCUMENT_BYTES ∧ scan limit 0 ts = true.
Proof.
  intros Hts. unfold preflight. destruct (N.ltb_spec MAX_DOCUMENT_BYTES (str_len (tokens_text ts))).
  - split; [done|]. intros [? _]. lia.
  - rewrite <-(preflight_tokens limit ts 0 0 0) by done. unfold preflight_init, out_text.
    destruct (preflight_loop _ _ _); simpl; naive_solver.
Qed.

(** Sixty-odd control characters, each written with six bytes. *)
Definition sample_tokens : list Token :=
  [TByte "{"; TStr [CPlain "k"]; TByte ":"; TStr (replicate 60 (CUnicode "0" "0" "1" "f"));
   TByte "}"].

Lemma preflight_measures_decoded_witness :
  str_len (tokens_text sample_tokens) = 368 ∧
  is_ok (preflight (tokens_text sample_tokens) 60) = true.
Proof.
  split; [by vm_compute|].
  apply (preflight_measures_decoded 60 sample_tokens).
  - repeat constructor; try done; eexists; by vm_compute.
  - split; by vm_compute.
Defined.
