(* ===== verification/ProtocolCanonical.v ===== *)
(** * Canonical rendering

    [render_json] of [Protocol] writes one text per document: the text does not
    depend on the order of object members, nor on whether a non-negative integer
    is held signed or unsigned.  The normal form it writes is [normalize]. *)

From stdpp Require Import pretty.
From Stdlib Require Import Ascii.
From S2P Require Import Prelude.
From S2P Require Import Protocol.
From S2P Require Import ProtocolTrees.
Local Open Scope N_scope.

(** ** The order of member names *)

Lemma leb_refl s : String.leb s s = true.
Proof. by destruct (String.leb_total s s). Qed.

Lemma compare_trans s1 s2 s3 :
  String.compare s1 s2 ≠ Gt → String.compare s2 s3 ≠ Gt → String.compare s1 s3 ≠ Gt.
Proof.
  revert s2 s3. induction s1 as [|a s1 IH]; intros [|b s2] [|c s3]; simpl; try done.
  unfold Ascii.compare.
  destruct (N.compare_spec (N_of_ascii a) (N_of_ascii b)),
    (N.compare_spec (N_of_ascii b) (N_of_ascii c)),
    (N.compare_spec (N_of_ascii a) (N_of_ascii c)); try done; try lia. eauto.
Qed.

Lemma leb_trans s1 s2 s3 :
  String.leb s1 s2 = true → String.leb s2 s3 = true → String.leb s1 s3 = true.
Proof.
  unfold String.leb. intros H12 H23. pose proof (compare_trans s1 s2 s3) as Htrans.
  destruct (String.compare s1 s2), (String.compare s2 s3), (String.compare s1 s3);
    try done; exfalso; by apply Htrans.
Qed.

(** ** Sorting *)

Section Sorting.
Context {A : Type}.
Implicit Types (e : string * A) (l : list (string * A)).

Lemma insert_entry_perm e l : insert_entry e l ≡ₚ e :: l.
Proof.
  induction l as [|e' l IH]; simpl; [done|]. destruct (String.leb e.1 e'.1); [done|].
  rewrite IH. apply Permutation_swap.
Qed.

Lemma sort_entries_perm l : sort_entries l ≡ₚ l.
Proof. induction l as [|e l IH]; simpl; [done|]. by rewrite insert_entry_perm, IH. Qed.

(** Inserting two entries with different names commutes. *)
Lemma insert_entry_comm e1 e2 l :
  e1.1 ≠ e2.1 → insert_entry e1 (insert_entry e2 l) = insert_entry e2 (insert_entry e1 l).
Proof.
  intros Hne. induction l as [|e l IH]; simpl.
  - destruct (String.leb e1.1 e2.1) eqn:H12, (String.leb e2.1 e1.1) eqn:H21; try done.
    + by destruct Hne, (String.leb_antisym e1.1 e2.1).
    + by destruct (String.leb_total e1.1 e2.1); congruence.
  - destruct (String.leb e2.1 e.1) eqn:H2, (String.leb e1.1 e.1) eqn:H1; simpl;
      rewrite ?H1, ?H2; simpl.
    + destruct (String.leb e1.1 e2.1) eqn:H12, (String.leb e2.1 e1.1) eqn:H21;
        rewrite ?H1, ?H2; try done.
      * by destruct Hne, (String.leb_antisym e1.1 e2.1).
      * by destruct (String.leb_total e1.1 e2.1); congruence.
    + destruct (String.leb e1.1 e2.1) eqn:H12; [|by rewrite ?H1].
      pose proof (leb_trans _ _ _ H12 H2). congruence.
    + destruct (String.leb e2.1 e1.1) eqn:H21; [|by rewrite ?H2].
      pose proof (leb_trans _ _ _ H21 H1). congruence.
    + by rewrite IH.
Qed.

(** With unique names the order of the input does not matter. *)
Lemma sort_entries_unique l l' :
  NoDup l.*1 → l ≡ₚ l' → sort_entries l = sort_entries l'.
Proof.
  intros Hnodup Hperm. revert Hnodup. induction Hperm as [|e l l' _ IH|e1 e2 l|l1 l2 l3 H12 IH12 _ IH23];
    intros Hnodup; simpl in *.
  - done.
  - apply NoDup_cons in Hnodup as [_ ?]. by rewrite IH.
  - apply NoDup_cons in Hnodup as [Hne _]. apply insert_entry_comm. intros Heq.
    apply Hne. rewrite Heq. left.
  - rewrite IH12 by done. apply IH23. by rewrite <-H12.
Qed.

End Sorting.

(** Sorting looks at the names only. *)
Lemma sort_entries_map {A B} (f : A → B) (l : list (string * A)) :
  sort_entries (map (λ e, (e.1, f e.2)) l) = map (λ e, (e.1, f e.2)) (sort_entries l).
Proof.
  induction l as [|e l IH]; simpl; [done|]. rewrite IH. clear IH.
  induction (sort_entries l) as [|e' l' IH]; simpl; [done|].
  destruct (String.leb e.1 e'.1); simpl; [done|]. by rewrite IH.
Qed.

(** Sorting is idempotent. *)
Lemma insert_entry_head {A} (e : string * A) l :
  Forall (λ e', String.leb e.1 e'.1 = true) l → insert_entry e l = e :: l.
Proof. destruct 1 as [|e' l He _]; simpl; [done|]. by rewrite He. Qed.

Lemma sorted_head {A} (e : string * A) l :
  (∃ l0, e :: l = sort_entries l0) → Forall (λ e', String.leb e.1 e'.1 = true) l ∧
    ∃ l1, l = sort_entries l1.
Proof.
  intros [l0 Heq]. revert e l Heq. induction l0 as [|x l0 IH]; intros e l Heq; simpl in Heq; [done|].
  destruct (sort_entries l0) as [|y ys] eqn:Hs; simpl in Heq.
  - injection Heq as -> ->. split; [constructor|by exists []].
  - destruct (IH y ys eq_refl) as [Hall [l1 Hl1]].
    destruct (String.leb x.1 y.1) eqn:Hxy; injection Heq as -> ->.
    + split; [|by exists l0]. constructor; [done|].
      eapply Forall_impl; [exact Hall|]. intros z Hz. simpl in *. by eapply leb_trans.
    + assert (String.leb y.1 x.1 = true) as Hyx
        by (destruct (String.leb_total x.1 y.1); congruence).
      split.
      * apply Forall_forall. intros z Hz. rewrite insert_entry_perm, elem_of_cons in Hz.
        rewrite Forall_forall in Hall. destruct Hz as [->|Hz]; auto.
      * exists (x :: l1). simpl. by rewrite <-Hl1.
Qed.

Lemma sort_entries_idem {A} (l : list (string * A)) :
  sort_entries (sort_entries l) = sort_entries l.
Proof.
  remember (sort_entries l) as s eqn:Hs.
  assert (∃ l0, s = sort_entries l0) as Hsorted by eauto. clear Hs l.
  induction s as [|e s IH]; simpl; [done|].
  destruct (sorted_head e s Hsorted) as [Hall Hrest].
  rewrite IH by done. by apply insert_entry_head.
Qed.

(** ** Normal forms *)

Fixpoint normalize (v : JsonValue) : JsonValue :=
  match v with
  | JSigned z => if (0 <=? z)%Z then JUnsigned (Z.to_N z) else JSigned z
  | JArray vs => JArray (map normalize vs)
  | JObject es => JObject (sort_entries (map (λ e, (e.1, normalize e.2)) es))
  | _ => v
  end.

(** Two values of one document: they differ in member order and in how a
    non-negative integer is held. *)
#[local] Unset Elimination Schemes.

Inductive same_document : JsonValue → JsonValue → Prop :=
| same_value v : same_document v v
| same_signed z : (0 ≤ z)%Z → same_document (JSigned z) (JUnsigned (Z.to_N z))
| same_unsigned z : (0 ≤ z)%Z → same_document (JUnsigned (Z.to_N z)) (JSigned z)
| same_array vs ws : Forall2 same_document vs ws → same_document (JArray vs) (JArray ws)
| same_object es fs gs :
    Forall2 (λ e f, e.1 = f.1 ∧ same_document e.2 f.2) es fs → fs ≡ₚ gs →
    same_document (JObject es) (JObject gs).

#[local] Set Elimination Schemes.

Lemma strict_values vs : strict_json (JArray vs) → Forall strict_json vs.
Proof. intros [_ Hs]. exact (proj1 (Forall_map _ _ _) Hs). Qed.

Lemma strict_members es : strict_json (JObject es) → NoDup es.*1 ∧ Forall (λ e, strict_json e.2) es.
Proof. intros (_ & ? & Hs). split; [done|]. exact (proj1 (Forall_map _ _ _) Hs). Qed.

Lemma normalize_same v w : strict_json v → same_document v w → normalize v = normalize w.
Proof.
  revert w. induction v as [|b|z|n|s|vs IH|es IH] using JsonValue_ind; intros w Hstrict Hsame;
    inversion Hsame as [|z' Hz|z' Hz|vs' ws Hall|es' fs gs Hall Hperm]; subst; try done; simpl.
  - by rewrite (proj2 (Z.leb_le _ _) Hz).
  - by rewrite (proj2 (Z.leb_le _ _) Hz).
  - f_equal. apply strict_values in Hstrict. clear Hsame.
    induction Hall as [|v w vs ws Hvw _ IHall]; simpl; [done|].
    apply Forall_cons in IH as [IHv IH]. apply Forall_cons in Hstrict as [Hv Hstrict].
    by rewrite (IHv w), IHall.
  - f_equal. apply strict_members in Hstrict as [Hnodup Hstrict].
    assert (map (λ e, (e.1, normalize e.2)) es = map (λ e, (e.1, normalize e.2)) fs ∧ es.*1 = fs.*1)
      as [-> Hnames].
    { clear Hsame Hperm Hnodup. induction Hall as [|e f es fs [Hef Hdoc] _ IHall]; simpl; [done|].
      apply Forall_cons in IH as [IHe IH]. apply Forall_cons in Hstrict as [He Hstrict].
      destruct (IHall IH Hstrict) as [-> Hnames]. rewrite Hef, (IHe f.2) by done.
      split; [done|]. by f_equal. }
    apply sort_entries_unique; [|by apply Permutation_map].
    change (map (λ e, (e.1, normalize e.2)) fs) with ((λ e, (e.1, normalize e.2)) <$> fs).
    rewrite <-list_fmap_compose. by rewrite Hnames in Hnodup.
Qed.

(** ** The writer *)

Section Writer.
Context `{SerdeJson}.

(** Compact JSON text, members in the order held. *)
Fixpoint write_json (v : JsonValue) : result string ProtocolError :=
  match v with
  | JNull => Ok "null"
  | JBool b => Ok (if b then "true" else "false")
  | JSigned z => Ok (pretty z)
  | JUnsigned n => Ok (pretty n)
  | JString s => quote s
  | JArray vs =>
      match collect (map write_json vs) with
      | Ok parts => Ok ("[" +:+ join "," parts +:+ "]")
      | Err e => Err e
      end
  | JObject es =>
      match collect (map (λ e, render_member e.1 (write_json e.2)) es) with
      | Ok parts => Ok ("{" +:+ join "," parts +:+ "}")
      | Err e => Err e
      end
  end.

Lemma pretty_Z_nonneg z : (0 ≤ z)%Z → pretty z = pretty (Z.to_N z).
Proof. by destruct z. Qed.

Lemma render_writes_normal v : render_json v = write_json (normalize v).
Proof.
  induction v as [|b|z|n|s|vs IH|es IH] using JsonValue_ind; cbn [render_json normalize write_json];
    try done.
  - destruct (Z.leb_spec 0 z); [|done]. cbn [write_json]. by rewrite pretty_Z_nonneg.
  - rewrite map_map. by rewrite (map_ext_Forall _ _ IH).
  - rewrite sort_entries_map, map_map, sort_entries_map, map_map. simpl.
    assert (Forall (λ e, render_json e.2 = write_json (normalize e.2)) (sort_entries es)) as Hall
      by (by rewrite sort_entries_perm).
    rewrite (map_ext_Forall (λ e, render_member e.1 (render_json e.2))
      (λ e, render_member e.1 (write_json (normalize e.2)))); [done|].
    eapply Forall_impl; [exact Hall|]. intros e He. simpl in *. by rewrite He.
Qed.

(** Canonical text.  Values of one document render to one text: neither the
    order in which an object's members were decoded nor the signedness of a
    non-negative integer changes the output. *)
Theorem render_canonical v w :
  strict_json v → same_document v w → render_json v = render_json w.
Proof. intros Hs Hvw. by rewrite !render_writes_normal, (normalize_same v w). Qed.

End Writer.

(** ** What normalization keeps *)

(** Signed integers are 64 bits wide. *)
Fixpoint i64_ok (v : JsonValue) : Prop :=
  match v with
  | JSigned z => (- 2 ^ 63 ≤ z < 2 ^ 63)%Z
  | JArray vs => Forall id (map i64_ok vs)
  | JObject es => Forall id (map (λ e, i64_ok e.2) es)
  | _ => True
  end.

#[export] Instance sum_list_perm : Proper ((≡ₚ) ==> (=)) sum_list.
Proof. induction 1; simpl; lia. Qed.

#[export] Instance max_list_perm : Proper ((≡ₚ) ==> (=)) max_list.
Proof. induction 1; simpl; lia. Qed.

(** A fold over the members does not see that they were sorted. *)
Lemma members_perm {B} (f : string * JsonValue → B) es :
  map f (sort_entries (map (λ e, (e.1, normalize e.2)) es))
  ≡ₚ map (λ e, f (e.1, normalize e.2)) es.
Proof. rewrite sort_entries_perm, map_map. done. Qed.

Lemma height_normalize v : height (normalize v) = height v.
Proof.
  induction v as [| |z| | |vs IH|es IH] using JsonValue_ind; simpl; try done.
  - by destruct (0 <=? z)%Z.
  - by rewrite map_map, (map_ext_Forall _ _ IH).
  - rewrite (members_perm (λ e, height e.2)). simpl.
    by rewrite (map_ext_Forall (λ e, height (normalize e.2)) (λ e, height e.2) IH).
Qed.

Lemma node_count_normalize v : node_count (normalize v) = node_count v.
Proof.
  induction v as [| |z| | |vs IH|es IH] using JsonValue_ind; simpl; try done.
  - by destruct (0 <=? z)%Z.
  - by rewrite map_map, (map_ext_Forall _ _ IH).
  - rewrite (members_perm (λ e, node_count e.2)). simpl.
    by rewrite (map_ext_Forall (λ e, node_count (normalize e.2)) (λ e, node_count e.2) IH).
Qed.

Lemma strings_fit_normalize limit v : strings_fit limit v → strings_fit limit (normalize v).
Proof.
  induction v as [| |z| | |vs IH|es IH] using JsonValue_ind; simpl; try done.
  - by destruct (0 <=? z)%Z.
  - intros Hfit. rewrite map_map. rewrite Forall_forall in IH. apply Forall_map_intro.
    intros v Hv. apply IH; [done|exact (Forall_map_elem _ _ _ _ Hfit Hv)].
  - intros Hfit. rewrite (members_perm (λ e, str_len e.1 ≤ limit ∧ strings_fit limit e.2)).
    rewrite Forall_forall in IH. apply Forall_map_intro. intros e He. simpl.
    destruct (Forall_map_elem _ _ _ _ Hfit He). split; [done|]. by apply IH.
Qed.

Lemma strict_normalize v : strict_json v → i64_ok v → strict_json (normalize v).
Proof.
  induction v as [| |z| | |vs IH|es IH] using JsonValue_ind; simpl; try done.
  - intros _ Hz. destruct (Z.leb_spec 0 z); simpl; [|done].
    unfold I64_MAX. lia.
  - intros [Hlen Hs] Hi. rewrite length_map, map_map. split; [done|].
    rewrite Forall_forall in IH. apply Forall_map_intro. intros v Hv.
    apply IH; [done|exact (Forall_map_elem _ _ _ _ Hs Hv)|exact (Forall_map_elem _ _ _ _ Hi Hv)].
  - intros (Hlen & Hnodup & Hs) Hi. split_and!.
    + by rewrite sort_entries_perm, length_map.
    + assert ((sort_entries (map (λ e, (e.1, normalize e.2)) es)).*1 ≡ₚ es.*1) as ->; [|done].
      apply (members_perm fst).
    + rewrite (members_perm (λ e, strict_json e.2)).
      rewrite Forall_forall in IH. apply Forall_map_intro. intros e He.
      apply IH; [done|exact (Forall_map_elem _ _ _ _ Hs He)|exact (Forall_map_elem _ _ _ _ Hi He)].
Qed.

Lemma normalize_idem v : normalize (normalize v) = normalize v.
Proof.
  induction v as [| |z| | |vs IH|es IH] using JsonValue_ind; simpl; try done.
  - by destruct (0 <=? z)%Z eqn:Hz; simpl; rewrite ?Hz.
  - by rewrite map_map, (map_ext_Forall _ _ IH).
  - f_equal. rewrite (sort_entries_map normalize (sort_entries _)), sort_entries_idem.
    rewrite sort_entries_map, map_map. apply map_ext_Forall.
    eapply Forall_impl; [by rewrite sort_entries_perm; exact IH|].
    intros e He. simpl in *. by rewrite He.
Qed.
