(* ===== verification/ProtocolCodec.v ===== *)
(** * Round trips of the control protocol

    Documents written by [Protocol] are accepted by its own strict reader.  The
    laws assumed of serde_json are about its string writer ([QuoteLaws]) and, in
    each theorem, that it reads back the one compact text in question; those of
    the base64 engine are [Base64Laws]. *)

From stdpp Require Import pretty.
From Stdlib Require Import Ascii.
From S2P Require Import Prelude.
From S2P Require Import Text.
From S2P Require Import Protocol.
From S2P Require Import ProtocolTrees.
From S2P Require Import ProtocolText.
From S2P Require Import ProtocolCanonical.
Local Open Scope N_scope.

(** ** Laws of the other crates *)

(** A byte JSON strings hold unescaped. *)
Definition plain_byte (b : ascii) : bool :=
  (32 <=? N_of_ascii b) && negb (Ascii.eqb b QUOTE) && negb (Ascii.eqb b BACKSLASH).

Class QuoteLaws `{SerdeJson} : Prop := {
  (** A string is written as a JSON string whose escapes decode to it. *)
  quote_shape s :
    ∃ cs, serde_quote s = Some (in_quotes (chars_text cs)) ∧ Forall char_ok cs ∧
      decoded_bytes cs = str_len s;
  (** What needs no escape is written as it is. *)
  quote_plain s : bytes_all plain_byte s = true → serde_quote s = Some (in_quotes s)
}.

(** Integers of 64 bits. *)
Fixpoint machine_numbers (v : JsonValue) : Prop :=
  match v with
  | JSigned z => (- 2 ^ 63 ≤ z < 2 ^ 63)%Z
  | JUnsigned n => n < u64_modulus
  | JArray vs => Forall id (map machine_numbers vs)
  | JObject es => Forall id (map (λ e, machine_numbers e.2) es)
  | _ => True
  end.

(** Rendered text that is read at all is read as the value it was rendered from;
    a non-negative integer is read unsigned. *)
Class ReaderLaws `{SerdeJson} : Prop := {
  read_rendered v text raw at_end :
    machine_numbers v → render_json v = Ok text → serde_parse text = Some (raw, at_end) →
    raw = raw_of (normalize v) ∧ at_end = true
}.

Class Base64Laws `{Base64} : Prop := {
  base64_decode_encode bytes : base64_decode (base64_encode bytes) = Some bytes;
  base64_length bytes : str_len (base64_encode bytes) = (bytes_len bytes + 2) / 3 * 4
}.

(** ** Written text passes the scanner *)

(** Brackets around a value. *)
Fixpoint nesting (v : JsonValue) : N :=
  match v with
  | JArray vs => 1 + max_list (map nesting vs)
  | JObject es => 1 + max_list (map (λ e, nesting e.2) es)
  | _ => 0
  end.

Lemma max_list_le l n : max_list l ≤ n ↔ Forall (λ x, x ≤ n) l.
Proof.
  induction l as [|x l IH]; simpl; [split; [done|lia]|]. rewrite Forall_cons, <-IH. lia.
Qed.

Lemma max_list_mono {A} (f g : A → N) l :
  Forall (λ x, f x ≤ g x) l → max_list (map f l) ≤ max_list (map g l).
Proof. induction 1; simpl; lia. Qed.

Lemma nesting_height v : nesting v ≤ height v.
Proof.
  induction v as [| | | | |vs IH|es IH] using JsonValue_ind; simpl; try lia.
  - pose proof (max_list_mono nesting height vs IH). lia.
  - pose proof (max_list_mono (λ e : string * JsonValue, nesting e.2)
      (λ e, height e.2) es IH). lia.
Qed.

(** [text] is a sequence of tokens that scans with [n] levels of nesting and
    leaves the depth as it was. *)
Definition scans (limit n : N) (text : string) : Prop :=
  ∃ ts, text = tokens_text ts ∧ Forall token_ok ts ∧
    ∀ depth rest, depth + n ≤ MAX_DEPTH → scan limit depth (ts ++ rest) = scan limit depth rest.

Lemma tokens_text_app ts us : tokens_text (ts ++ us) = tokens_text ts +:+ tokens_text us.
Proof.
  induction ts as [|t ts IH]; simpl; [done|]. by rewrite IH, string_app_assoc.
Qed.

Lemma scans_weaken limit n m text : n ≤ m → scans limit n text → scans limit m text.
Proof.
  intros Hle (ts & -> & Hok & Hscan). exists ts. split_and!; [done..|].
  intros depth rest ?. apply Hscan. lia.
Qed.

Lemma scans_app limit n a b : scans limit n a → scans limit n b → scans limit n (a +:+ b).
Proof.
  intros (ts & -> & Hts & Hs) (us & -> & Hus & Hs'). exists (ts ++ us).
  rewrite tokens_text_app. split_and!; [done|by apply Forall_app|].
  intros depth rest ?. by rewrite <-app_assoc, Hs, Hs'.
Qed.

Definition inert (b : ascii) : bool := negb (Ascii.eqb b QUOTE || opens b || closes b).

Lemma scans_inert limit text : bytes_all inert text = true → scans limit 0 text.
Proof.
  unfold bytes_all. induction text as [|b text IH]; simpl.
  - intros _. by exists [].
  - intros [Hb Hrest]%andb_true_iff. destruct (IH Hrest) as (ts & Htext & Hts & Hs).
    unfold inert in Hb. rewrite negb_true_iff, !orb_false_iff in Hb. destruct Hb as [[Hq Ho] Hc].
    exists (TByte b :: ts). split_and!.
    + cbn [tokens_text token_text]. by rewrite string_app_cons, string_nil_app, <-Htext.
    + constructor; [|done]. simpl. by apply Ascii.eqb_neq.
    + intros depth rest ?. simpl. rewrite Ho, Hc. by apply Hs.
Qed.

Lemma scans_bracket limit n open close text :
  opens open = true → closes close = true → open ≠ QUOTE → close ≠ QUOTE →
  opens close = false → scans limit n text →
  scans limit (1 + n) (String open EmptyString +:+ text +:+ String close EmptyString).
Proof.
  intros Ho Hc Hoq Hcq Hoc (ts & -> & Hts & Hs).
  exists (TByte open :: ts ++ [TByte close]). split_and!.
  - cbn [tokens_text token_text]. rewrite tokens_text_app. cbn [tokens_text token_text].
    by autorewrite with text.
  - constructor; [done|]. apply Forall_app. split; [done|]. by constructor.
  - intros depth rest Hd. simpl. rewrite Ho. rewrite (proj2 (N.leb_le _ _)) by lia. simpl.
    rewrite <-app_assoc, Hs by lia. simpl. rewrite Hoc, Hc.
    by replace (depth + 1 - 1) with depth by lia.
Qed.

Lemma scans_join limit n parts : Forall (scans limit n) parts → scans limit n (join "," parts).
Proof.
  induction 1 as [|part parts Hp Hall IH].
  - by apply (scans_weaken _ 0); [lia|apply scans_inert].
  - destruct parts as [|part' parts]; [done|].
    change (scans limit n (part +:+ "," +:+ join "," (part' :: parts))).
    apply scans_app; [done|]. apply scans_app; [|done].
    by apply (scans_weaken _ 0); [lia|apply scans_inert].
Qed.

(** Decimal numbers hold digits and a sign only. *)
Lemma bytes_all_app f a b : bytes_all f (a +:+ b) = bytes_all f a && bytes_all f b.
Proof.
  unfold bytes_all. induction a as [|x a IH]; [done|].
  rewrite string_app_cons. simpl. by rewrite IH, andb_assoc.
Qed.

Lemma pretty_N_char_inert x : inert (pretty_N_char x) = true.
Proof. unfold pretty_N_char. by repeat case_match. Qed.

Lemma pretty_N_go_inert x s :
  bytes_all inert s = true → bytes_all inert (pretty_N_go x s) = true.
Proof.
  revert s. induction (N.lt_wf_0 x) as [x _ IH]; intros s Hs.
  destruct (decide (x = 0)) as [->|Hx]; [by rewrite pretty_N_go_0|].
  rewrite pretty_N_go_step by lia. apply IH; [apply N.div_lt; lia|].
  unfold bytes_all in *. simpl. by rewrite pretty_N_char_inert.
Qed.

Lemma pretty_N_inert (n : N) : bytes_all inert (pretty n) = true.
Proof. unfold pretty, pretty_N. case_decide; [done|]. by apply pretty_N_go_inert. Qed.

Lemma pretty_Z_inert (z : Z) : bytes_all inert (pretty z) = true.
Proof.
  destruct z as [|p|p]; [done|apply (pretty_N_inert (Npos p))|].
  change (pretty (Z.neg p)) with ("-" +:+ pretty (Npos p)).
  by rewrite bytes_all_app, pretty_N_inert.
Qed.

Section Written.
Context `{QuoteLaws}.

Lemma quote_ok s : ∃ text, quote s = Ok text ∧ 2 ≤ str_len text ∧
  ∀ limit, str_len s ≤ limit → scans limit 0 text.
Proof.
  destruct (quote_shape s) as (cs & Hq & Hcs & Hlen). exists (in_quotes (chars_text cs)).
  unfold quote. rewrite Hq. split_and!; [done| |].
  - unfold in_quotes. rewrite str_len_cons, str_len_app. unfold str_len. simpl. lia.
  - intros limit Hle. exists [TStr cs]. split_and!.
    + cbn [tokens_text token_text]. by rewrite string_app_nil.
    + by repeat constructor.
    + intros depth rest _. cbn [app scan]. by rewrite Hlen, (proj2 (N.leb_le _ _) Hle).
Qed.

Lemma collect_Forall {A} (P : A → Prop) rs xs :
  collect rs = Ok xs → Forall (λ r, ∀ x, r = Ok x → P x) rs → Forall P xs ∧ length xs = length rs.
Proof.
  intros Hc Hall. revert xs Hc. induction Hall as [|[x|e] rs Hr _ IH]; intros xs Hc; simpl in Hc.
  - injection Hc as <-. split; [constructor|done].
  - destruct (collect rs) as [ys|]; [|done]. injection Hc as <-.
    destruct (IH ys eq_refl) as [? Hlen]. split; [constructor; auto|simpl; lia].
  - done.
Qed.

(** Written text scans, within the value's string limit and nesting. *)
Lemma written_scans limit v text :
  strings_fit limit v → write_json v = Ok text → scans limit (nesting v) text.
Proof.
  revert text. induction v as [|b|z|n|s|vs IH|es IH] using JsonValue_ind;
    intros text Hfit Hw; simpl in Hw.
  - injection Hw as <-. by apply scans_inert.
  - injection Hw as <-. apply scans_inert. by destruct b.
  - injection Hw as <-. apply scans_inert, pretty_Z_inert.
  - injection Hw as <-. apply scans_inert, pretty_N_inert.
  - destruct (quote_ok s) as (t & Hq & _ & Hscan). rewrite Hq in Hw. injection Hw as <-. auto.
  - destruct (collect (map write_json vs)) as [parts|] eqn:Hc; [|done]. injection Hw as <-.
    set (m := max_list (map nesting vs)).
    apply (scans_bracket limit m); try done. apply scans_join.
    refine (proj1 (collect_Forall (scans limit m) _ _ Hc (Forall_map_intro _ _ _ _))).
    intros v Hv t Ht. rewrite Forall_forall in IH.
    pose proof (proj1 (max_list_le (map nesting vs) m) (N.le_refl _)) as Hmax.
    eapply scans_weaken; [exact (Forall_map_elem _ _ _ _ Hmax Hv)|].
    apply IH; [done| |done]. exact (Forall_map_elem _ _ _ _ Hfit Hv).
  - destruct (collect _) as [parts|] eqn:Hc; [|done]. injection Hw as <-.
    set (m := max_list (map (λ e, nesting e.2) es)).
    apply (scans_bracket limit m); try done. apply scans_join.
    refine (proj1 (collect_Forall (scans limit m) _ _ Hc (Forall_map_intro _ _ _ _))).
    intros e He t Ht. rewrite Forall_forall in IH.
    pose proof (proj1 (max_list_le (map (λ e, nesting e.2) es) m) (N.le_refl _)) as Hmax.
    destruct (Forall_map_elem _ _ _ _ Hfit He) as [Hkey Hval]. unfold render_member in Ht.
    destruct (quote_ok e.1) as (k & Hk & _ & Hkscan). rewrite Hk in Ht.
    destruct (write_json e.2) as [v|] eqn:Hv; [|done]. injection Ht as <-.
    apply scans_app; [by apply (scans_weaken _ 0); [lia|auto]|].
    apply scans_app; [by apply (scans_weaken _ 0); [lia|apply scans_inert]|].
    eapply scans_weaken; [exact (Forall_map_elem _ _ _ _ Hmax He)|]. by apply IH.
Qed.

End Written.

Section RoundTrip.
Context `{QuoteLaws}.

Lemma collect_Ok {A} (rs : list (result A ProtocolError)) xs :
  collect rs = Ok xs → rs = map Ok xs.
Proof.
  revert xs. induction rs as [|[x|e] rs IH]; intros xs Hc; simpl in Hc; [by injection Hc as <-| |done].
  destruct (collect rs) as [ys|]; [|done]. injection Hc as <-. simpl. by rewrite <-IH.
Qed.

Lemma collect_map_Ok {A} (xs : list A) : collect (map Ok xs) = Ok xs.
Proof. induction xs as [|x xs IH]; simpl; [done|]. by rewrite IH. Qed.

Lemma join_len parts : sum_list (map str_len parts) ≤ str_len (join "," parts).
Proof.
  induction parts as [|part parts IH]; [simpl; lia|].
  destruct parts as [|part' parts]; [simpl; lia|].
  change (join "," (part :: part' :: parts)) with (part +:+ "," +:+ join "," (part' :: parts)).
  rewrite !str_len_app. simpl in *. lia.
Qed.

Lemma sum_list_Forall2 {A B} (f : A → N) (g : B → N) l k :
  Forall2 (λ x y, f x ≤ g y) l k → sum_list (map f l) ≤ sum_list (map g k).
Proof. induction 1; simpl; lia. Qed.

Lemma mapped_Forall2 {A B} (f : A → result B ProtocolError) l ys (P : A → B → Prop) :
  map f l = map Ok ys → (∀ x y, x ∈ l → f x = Ok y → P x y) → Forall2 P l ys.
Proof.
  revert ys. induction l as [|x l IH]; intros [|y ys] Heq HP; simpl in Heq; try done; constructor.
  - injection Heq as Hx _. apply HP; [left|done].
  - injection Heq as _ Hl. apply IH; [done|]. intros x' y' Hx'. apply HP. by right.
Qed.

Lemma str_len_pos b s : 1 ≤ str_len (String b s).
Proof. rewrite str_len_cons. lia. Qed.

Lemma pretty_N_go_len x s : str_len s ≤ str_len (pretty_N_go x s).
Proof.
  revert s. induction (N.lt_wf_0 x) as [x _ IH]; intros s.
  destruct (decide (x = 0)) as [->|Hx]; [by rewrite pretty_N_go_0|].
  rewrite pretty_N_go_step by lia. etransitivity; [|apply IH; apply N.div_lt; lia].
  rewrite str_len_cons. lia.
Qed.

Lemma pretty_N_len (n : N) : 1 ≤ str_len (pretty n).
Proof.
  unfold pretty, pretty_N. case_decide as Hn; [done|].
  rewrite pretty_N_go_step by lia. etransitivity; [|apply pretty_N_go_len]. apply str_len_pos.
Qed.

Lemma pretty_Z_len (z : Z) : 1 ≤ str_len (pretty z).
Proof.
  destruct z as [|p|p]; [done|apply (pretty_N_len (Npos p))|].
  change (pretty (Z.neg p)) with ("-" +:+ pretty (Npos p)). rewrite str_len_app.
  pose proof (pretty_N_len (Npos p)). lia.
Qed.

(** Every value takes at least a byte, so a document within the byte limit is
    within the node limit. *)
Lemma node_count_len v text : write_json v = Ok text → node_count v ≤ str_len text.
Proof.
  revert text. induction v as [|b|z|n|s|vs IH|es IH] using JsonValue_ind; intros text Hw; simpl in Hw.
  - injection Hw as <-. done.
  - injection Hw as <-. by destruct b.
  - injection Hw as <-. apply pretty_Z_len.
  - injection Hw as <-. apply pretty_N_len.
  - destruct (quote_ok s) as (t & Hq & Hlen & _). rewrite Hq in Hw. injection Hw as <-. simpl. lia.
  - destruct (collect _) as [parts|] eqn:Hc; [|done]. injection Hw as <-.
    apply collect_Ok in Hc. rewrite Forall_forall in IH.
    pose proof (mapped_Forall2 _ _ _ (λ v p, node_count v ≤ str_len p) Hc
      (λ v p Hv Hp, IH v Hv p Hp)) as Hall.
    apply sum_list_Forall2 in Hall. pose proof (join_len parts). simpl.
    rewrite !str_len_app. change (str_len "[") with 1. lia.
  - destruct (collect _) as [parts|] eqn:Hc; [|done]. injection Hw as <-.
    apply collect_Ok in Hc. rewrite Forall_forall in IH.
    assert (Forall2 (λ e p, node_count e.2 ≤ str_len p) es parts) as Hall.
    { eapply mapped_Forall2; [exact Hc|]. intros e p He Hp. simpl in Hp. unfold render_member in Hp.
      destruct (quote e.1); [|done]. destruct (write_json e.2) as [t|] eqn:Ht; [|done].
      injection Hp as <-. rewrite !str_len_app. pose proof (IH e He t Ht). lia. }
    apply (sum_list_Forall2 (λ e, node_count e.2)) in Hall. pose proof (join_len parts). simpl.
    rewrite !str_len_app. change (str_len "{") with 1. lia.
Qed.

(** The strict reader accepts what was written. *)
Lemma parse_written limit w text :
  strict_json w → strings_fit limit w → height w ≤ MAX_DEPTH → write_json w = Ok text →
  str_len text ≤ MAX_DOCUMENT_BYTES → serde_parse text = Some (raw_of w, true) →
  parse_strict_with_string_limit text limit = Ok w.
Proof.
  intros Hstrict Hfit Hheight Hw Hlen Hparse. unfold parse_strict_with_string_limit.
  assert (preflight text limit = Ok tt) as ->.
  { destruct (written_scans limit w text Hfit Hw) as (ts & -> & Hts & Hscan).
    assert (is_ok (preflight (tokens_text ts) limit) = true) as Hok.
    { unfold preflight. rewrite (proj2 (N.ltb_ge _ _) Hlen).
      pose proof (preflight_tokens limit ts 0 0 0 Hts) as Hp. unfold preflight_init, out_text in *.
      specialize (Hscan 0 []). rewrite app_nil_r in Hscan.
      pose proof (nesting_height w). rewrite Hscan in Hp by lia.
      by destruct (preflight_loop limit (tokens_text ts) _). }
    by destruct (preflight _ _) as [[]|]. }
  rewrite Hparse, (proj2 (visit_exact (raw_of w) w) (conj eq_refl Hstrict)). simpl.
  rewrite (proj2 (validate_tree_exact w 1 0 limit (node_count w))); [done|].
  pose proof (node_count_len w text Hw). unfold MAX_NODES. split_and!; try done; lia.
Qed.

(** ** Operation objects *)

Lemma encode_with_limit_ok limit dec v text :
  is_object v = true → strict_json v → i64_ok v → strings_fit limit v → height v ≤ MAX_DEPTH →
  render_json v = Ok text → str_len text ≤ MAX_DOCUMENT_BYTES →
  (∀ w, write_json w = Ok text → is_object w = true → strict_json w → strings_fit limit w →
     height w ≤ MAX_DEPTH → w = normalize v → dec text = Ok w) →
  encode_with_limit limit dec v = Ok text ∧ dec text = Ok (normalize v).
Proof.
  intros Hobj Hstrict Hi64 Hfit Hheight Hrender Hlen Hdec.
  pose proof Hrender as Hw. rewrite render_writes_normal in Hw.
  assert (dec text = Ok (normalize v)) as Hd.
  { apply Hdec; try done.
    - by destruct v.
    - by apply strict_normalize.
    - by apply strings_fit_normalize.
    - by rewrite height_normalize. }
  split; [|done]. unfold encode_with_limit, object_or_error. rewrite Hobj.
  rewrite (proj2 (validate_tree_exact v 1 0 limit (node_count v))).
  2: { pose proof (node_count_len _ _ Hw) as Hn. rewrite node_count_normalize in Hn.
       unfold MAX_NODES. split_and!; try done; lia. }
  rewrite Hrender, Hd, render_writes_normal, normalize_idem, Hw.
  by rewrite decide_True.
Qed.

(** Operation objects round trip.  An object with unique names, 64-bit
    integers, and strings and nesting within the limits, whose text fits in a
    document, is always encoded, to its canonical text, and decoding that text
    gives the object back in normal form; with the control limits and with the
    payload limits. *)
Theorem encode_object_round_trip v text :
  is_object v = true → strict_json v → i64_ok v → height v ≤ MAX_DEPTH →
  render_json v = Ok text → str_len text ≤ MAX_DOCUMENT_BYTES →
  serde_parse text = Some (raw_of (normalize v), true) →
  (strings_fit MAX_STRING_BYTES v →
     encode_object v = Ok text ∧ decode_object text = Ok (normalize v)) ∧
  (strings_fit MAX_PAYLOAD_BASE64_BYTES v →
     encode_payload_object v = Ok text ∧ decode_payload_object text = Ok (normalize v)).
Proof.
  intros Hobj Hstrict Hi64 Hheight Hrender Hlen Hread. split; intros Hfit.
  - apply encode_with_limit_ok; try done. intros w Hw Hw' Hs Hf Hh ->.
    unfold decode_object, parse_strict, object_or_error.
    by rewrite (parse_written MAX_STRING_BYTES (normalize v)), Hw'.
  - apply encode_with_limit_ok; try done. intros w Hw Hw' Hs Hf Hh ->.
    unfold decode_payload_object, object_or_error.
    by rewrite (parse_written MAX_PAYLOAD_BASE64_BYTES (normalize v)), Hw'.
Qed.

(** ** Envelopes *)

(** The document of an envelope, its body in normal form. *)
Definition envelope_value (envelope : Envelope) : JsonValue :=
  match envelope with
  | EnvRequest r =>
      JObject [("kind", JString "request"); ("correlation_id", JString (rq_correlation_id r));
               ("operation", JString (rq_operation r)); ("body", normalize (rq_body r))]
  | EnvResponse r =>
      JObject [("kind", JString "response"); ("correlation_id", JString (rs_correlation_id r));
               ("operation", JString (rs_operation r)); ("body", normalize (rs_body r))]
  | EnvError r =>
      JObject [("kind", JString "error"); ("correlation_id", JString (er_correlation_id r));
               ("operation", JString (er_operation r));
               ("error", JObject [("code", JString (error_code_name (be_code (er_error r))));
                                  ("message", JString (be_message (er_error r)));
                                  ("retryable", JBool (be_retryable (er_error r)))])]
  end.

Definition normalize_envelope (envelope : Envelope) : Envelope :=
  match envelope with
  | EnvRequest r =>
      EnvRequest (mkRequest (rq_correlation_id r) (rq_operation r) (normalize (rq_body r)))
  | EnvResponse r =>
      EnvResponse (mkResponse (rs_correlation_id r) (rs_operation r) (normalize (rs_body r)))
  | EnvError r => EnvError r
  end.

Definition envelope_body (envelope : Envelope) : JsonValue :=
  match envelope with
  | EnvRequest r => rq_body r
  | EnvResponse r => rs_body r
  | EnvError _ => JNull
  end.

Lemma render_plain_member k r :
  bytes_all plain_byte k = true → render_member k r
  = match r with Ok t => Ok (fixed_member k t) | Err e => Err e end.
Proof.
  intros Hk. unfold render_member, fixed_member, quote. by rewrite quote_plain.
Qed.

Lemma quote_plain_ok s : bytes_all plain_byte s = true → quote s = Ok (in_quotes s).
Proof. intros Hs. unfold quote. by rewrite quote_plain. Qed.

Lemma error_code_plain code : bytes_all plain_byte (error_code_name code) = true.
Proof. by destruct code. Qed.

Lemma render_envelope_writes envelope :
  render_envelope envelope = write_json (envelope_value envelope).
Proof.
  destruct envelope as [r|r|r]; cbn [render_envelope envelope_value write_json map fst snd];
    rewrite !render_plain_member by done.
  - rewrite (quote_plain_ok "request") by done.
    unfold render_common. destruct (quote (rq_correlation_id r)), (quote (rq_operation r));
      try done. rewrite render_writes_normal. by destruct (write_json _).
  - rewrite (quote_plain_ok "response") by done.
    unfold render_common. destruct (quote (rs_correlation_id r)), (quote (rs_operation r));
      try done. rewrite render_writes_normal. by destruct (write_json _).
  - rewrite (quote_plain_ok "error"), (quote_plain_ok (error_code_name _))
      by (done || apply error_code_plain).
    destruct (quote (er_correlation_id r)), (quote (er_operation r)),
      (quote (be_message (er_error r))); done.
Qed.

Lemma validate_body_spec body :
  validate_body body = Ok tt ↔
  is_object body = true ∧ node_count body ≤ MAX_NODES ∧ 1 + height body ≤ MAX_DEPTH ∧
  strings_fit MAX_STRING_BYTES body.
Proof.
  unfold validate_body. destruct (is_object body); simpl; [|naive_solver].
  pose proof (validate_tree_exact body 2 0 MAX_STRING_BYTES) as Hv.
  destruct (validate_tree body 2 0 MAX_STRING_BYTES) as [n|e].
  - destruct (proj1 (Hv n) eq_refl) as (-> & ? & ? & ?). split; [|done].
    intros _. split_and!; try done; lia.
  - split; [done|]. intros (_ & ? & ? & ?).
    assert (Err e = Ok (node_count body)) as [=]. apply Hv. split_and!; try done; lia.
Qed.

(** The part of the check that does not look at the body. *)
Definition header_ok (correlation_id operation : string) : Prop :=
  bad_correlation_id correlation_id = false ∧ bad_operation operation = false.

Lemma header_short correlation_id operation :
  header_ok correlation_id operation →
  str_len correlation_id ≤ MAX_STRING_BYTES ∧ str_len operation ≤ MAX_STRING_BYTES.
Proof.
  intros [Hc Ho]. unfold bad_correlation_id, bad_operation in *. unfold MAX_STRING_BYTES. split.
  - apply orb_false_iff in Hc as [Hc _]. rewrite negb_false_iff, N.eqb_eq in Hc. lia.
  - destruct operation as [|b rest]; [done|]. rewrite !orb_false_iff, N.ltb_ge in Ho.
    destruct Ho as [[Ho _] _]. lia.
Qed.

Lemma validate_envelope_spec envelope :
  validate_envelope envelope = Ok tt ↔
  match envelope with
  | EnvRequest r =>
      header_ok (rq_correlation_id r) (rq_operation r) ∧ validate_body (rq_body r) = Ok tt
  | EnvResponse r =>
      header_ok (rs_correlation_id r) (rs_operation r) ∧ validate_body (rs_body r) = Ok tt
  | EnvError r =>
      header_ok (er_correlation_id r) (er_operation r) ∧
      1 ≤ str_len (be_message (er_error r)) ≤ 1024
  end.
Proof.
  unfold validate_envelope, header_ok. destruct envelope as [r|r|r]; simpl.
  - destruct (bad_correlation_id _), (bad_operation _); simpl; try naive_solver.
    destruct (validate_body _) as [[]|]; naive_solver.
  - destruct (bad_correlation_id _), (bad_operation _); simpl; try naive_solver.
    destruct (validate_body _) as [[]|]; naive_solver.
  - destruct (bad_correlation_id _), (bad_operation _); simpl; try naive_solver.
    destruct (N.eqb_spec (str_len (be_message (er_error r))) 0),
      (N.ltb_spec 1024 (str_len (be_message (er_error r)))); simpl; split;
      try done; try (intros [_ ?]; lia). intros _. split; [done|lia].
Qed.

Lemma validate_body_normalize body :
  validate_body body = Ok tt → validate_body (normalize body) = Ok tt.
Proof.
  rewrite !validate_body_spec, node_count_normalize, height_normalize.
  intros (Hobj & ? & ? & ?). split_and!; try done; [by destruct body|by apply strings_fit_normalize].
Qed.

Lemma validate_normalize envelope :
  validate_envelope envelope = Ok tt → validate_envelope (normalize_envelope envelope) = Ok tt.
Proof.
  rewrite !validate_envelope_spec. destruct envelope as [r|r|r]; simpl; [| |done];
    intros [? ?]; split; auto using validate_body_normalize.
Qed.

Lemma envelope_fits envelope :
  validate_envelope envelope = Ok tt →
  strings_fit MAX_STRING_BYTES (envelope_value envelope) ∧
  height (envelope_value envelope) ≤ MAX_DEPTH.
Proof.
  rewrite validate_envelope_spec.
  destruct envelope as [r|r|r]; cbn [envelope_value strings_fit height map fst snd];
    unfold max_list; cbn [foldr].
  - intros [Hh Hb]. apply header_short in Hh as [? ?].
    apply validate_body_normalize, validate_body_spec in Hb as (_ & _ & ? & ?).
    split; [|unfold MAX_DEPTH in *; lia]. by rewrite !Forall_cons, Forall_nil.
  - intros [Hh Hb]. apply header_short in Hh as [? ?].
    apply validate_body_normalize, validate_body_spec in Hb as (_ & _ & ? & ?).
    split; [|unfold MAX_DEPTH in *; lia]. by rewrite !Forall_cons, Forall_nil.
  - intros [Hh Hm]. apply header_short in Hh as [? ?].
    split; [|done]. rewrite !Forall_cons, !Forall_nil. unfold id, MAX_STRING_BYTES in *. simpl.
    destruct (be_code (er_error r)); split_and!; done || lia.
Qed.

Lemma envelope_strict envelope :
  strict_json (envelope_body envelope) → i64_ok (envelope_body envelope) →
  strict_json (envelope_value envelope).
Proof.
  intros Hs Hi. destruct envelope as [r|r|r]; simpl in *;
    (split; [done|]; split; [by apply (bool_decide_unpack _); vm_compute|]);
    rewrite ?Forall_cons, Forall_nil; split_and!; try done; try (by apply strict_normalize);
    by apply (bool_decide_unpack _); vm_compute.
Qed.

Lemma envelope_from_value envelope :
  validate_envelope envelope = Ok tt →
  envelope_from_json (envelope_value envelope) = Ok (normalize_envelope envelope).
Proof.
  intros Hv. apply validate_normalize in Hv.
  assert (envelope_from_json (envelope_value envelope)
    = match validate_envelope (normalize_envelope envelope) with
      | Ok _ => Ok (normalize_envelope envelope)
      | Err e => Err e
      end) as ->; [|by rewrite Hv].
  destruct envelope as [r|r|[cid op [[] msg retry]]]; reflexivity.
Qed.


(** ** Payload wrappers *)

Section Payload.
Context `{Base64Laws}.

Definition payload_value (bytes : list byte) : JsonValue :=
  JObject [("encoding", JString "base64"); ("data", JString (base64_encode bytes))].

(** Payloads round trip.  Every byte sequence within the payload limit whose
    wrapper fits in a document is encoded, and decoding the wrapper gives the
    bytes back. *)
Theorem encode_payload_round_trip bytes text :
  bytes_len bytes ≤ MAX_PAYLOAD_BYTES → write_json (payload_value bytes) = Ok text →
  str_len text ≤ MAX_DOCUMENT_BYTES →
  serde_parse text = Some (raw_of (payload_value bytes), true) →
  encode_payload bytes = Ok text ∧ decode_payload text = Ok bytes.
Proof.
  intros Hbytes Hw Hlen Hread.
  assert (decode_payload text = Ok bytes) as Hd.
  { unfold decode_payload. rewrite (parse_written _ (payload_value bytes)); try done.
    - transitivity
        (match base64_decode (base64_encode bytes) with
         | None => Err (invalid "$.data" "payload is not canonical padded base64")
         | Some decoded =>
             if (MAX_PAYLOAD_BYTES <? bytes_len decoded)
                || negb (bool_decide (base64_encode decoded = base64_encode bytes))
             then Err (invalid "$.data" "payload is not canonical padded base64")
             else Ok decoded
         end); [reflexivity|]. rewrite base64_decode_encode.
      rewrite (proj2 (N.ltb_ge _ _) Hbytes). by rewrite bool_decide_true.
    - split; [done|]. split; [by apply (bool_decide_unpack _); vm_compute|].
      simpl. by rewrite !Forall_cons, Forall_nil.
    - simpl. rewrite !Forall_cons, Forall_nil. unfold id. split_and!; try done.
      rewrite base64_length.
      unfold MAX_PAYLOAD_BASE64_BYTES. apply N.mul_le_mono_r, N.Div0.div_le_mono. lia. }
  split; [|done]. unfold encode_payload. rewrite (proj2 (N.ltb_ge _ _) Hbytes).
  cbn [payload_value write_json map fst snd] in Hw. rewrite !render_plain_member in Hw by done.
  rewrite (quote_plain_ok "base64") in Hw by done.
  destruct (quote (base64_encode bytes)) as [data|]; [|done]. injection Hw as Hw.
  cbn [join] in *. rewrite Hw, Hd. by rewrite decide_True.
Qed.

End Payload.

End RoundTrip.
