(* ===== verification/ReferenceCodec.v ===== *)
(** * Concrete codecs

    A JSON string writer and reader and a base64 engine that satisfy the laws
    assumed of the crates the protocol uses, and the theorems of [ProtocolCodec]
    and [ProtocolCanonical] at concrete documents under them. *)

From stdpp Require Import pretty.
From Stdlib Require Import Ascii.
From S2P Require Import Prelude.
From S2P Require Import Text.
From S2P Require Import Protocol.
From S2P Require Import ProtocolTrees.
From S2P Require Import ProtocolText.
From S2P Require Import ProtocolCanonical.
From S2P Require Import ProtocolCodec.
Local Open Scope N_scope.

(** ** Strings *)

Definition hex_digit (n : N) : ascii :=
  ascii_of_N (if n <? 10 then 48 + n else 87 + n).

Definition write_char (b : ascii) : StrChar :=
  if Ascii.eqb b QUOTE || Ascii.eqb b BACKSLASH then CEscape b
  else if N_of_ascii b <? 32 then
    CUnicode "0" "0" (hex_digit (N_of_ascii b / 16)) (hex_digit (N_of_ascii b mod 16))
  else CPlain b.

Definition write_chars (s : string) : list StrChar := map write_char (String.list_ascii_of_string s).

(** Every byte is written by a well-formed character that decodes to one byte. *)
Definition write_char_good (b : ascii) : bool :=
  match write_char b with
  | CPlain b' => negb (Ascii.eqb b' QUOTE) && negb (Ascii.eqb b' BACKSLASH)
  | CEscape b' => negb (Ascii.eqb b' "u")
  | CUnicode d1 d2 d3 d4 =>
      bool_decide (is_Some (to_digit16 d1)) && bool_decide (is_Some (to_digit16 d2)) &&
      bool_decide (is_Some (to_digit16 d3)) && bool_decide (is_Some (to_digit16 d4))
  end && (char_bytes (write_char b) =? 1).

Lemma write_char_all b : write_char_good b = true.
Proof. by destruct b as [[] [] [] [] [] [] [] []]; vm_compute. Qed.

Lemma write_char_ok b : char_ok (write_char b) ∧ char_bytes (write_char b) = 1.
Proof.
  pose proof (write_char_all b) as Hb. unfold write_char_good in Hb.
  apply andb_true_iff in Hb as [Hb Hlen]. apply N.eqb_eq in Hlen. split; [|done].
  destruct (write_char b); simpl.
  - apply andb_true_iff in Hb as [Hq Hs]. by rewrite !negb_true_iff, !Ascii.eqb_neq in *.
  - by rewrite negb_true_iff, Ascii.eqb_neq in Hb.
  - rewrite !andb_true_iff, !bool_decide_eq_true in Hb. naive_solver.
Qed.

(** ** A reader of JSON text *)

Fixpoint read_digits (n : N) (s : string) : N * string :=
  match s with
  | String b rest =>
      if is_ascii_digit b then read_digits (10 * n + (N_of_ascii b - 48)) rest else (n, s)
  | EmptyString => (n, s)
  end.

(** The rest of a string after its opening quote; escapes of one byte only. *)
Fixpoint read_string (s : string) : option (string * string) :=
  match s with
  | EmptyString => None
  | String b rest =>
      if Ascii.eqb b QUOTE then Some (EmptyString, rest)
      else if Ascii.eqb b BACKSLASH then
        match rest with
        | EmptyString => None
        | String e rest =>
            if Ascii.eqb e "u" then
              match rest with
              | String _ (String _ (String d3 (String d4 rest))) =>
                  high ← to_digit16 d3; low ← to_digit16 d4;
                  '(text, rest) ← read_string rest;
                  Some (String (ascii_of_N (high * 16 + low)) text, rest)
              | _ => None
              end
            else '(text, rest) ← read_string rest; Some (String e text, rest)
        end
      else '(text, rest) ← read_string rest; Some (String b text, rest)
  end.

Fixpoint expect (prefix s : string) : option string :=
  match prefix, s with
  | EmptyString, _ => Some s
  | String a prefix, String b s => if Ascii.eqb a b then expect prefix s else None
  | String _ _, EmptyString => None
  end.

Fixpoint read_value (fuel : nat) (s : string) : option (RawJson * string) :=
  match fuel with
  | O => None
  | S fuel =>
      match s with
      | EmptyString => None
      | String b rest =>
          if Ascii.eqb b QUOTE then
            '(text, rest) ← read_string rest; Some (RStr text, rest)
          else if Ascii.eqb b "[" then
            match expect "]" rest with
            | Some rest => Some (RSeq [], rest)
            | None => '(vs, rest) ← read_values fuel rest; Some (RSeq vs, rest)
            end
          else if Ascii.eqb b "{" then
            match expect "}" rest with
            | Some rest => Some (RMap [], rest)
            | None => '(es, rest) ← read_members fuel rest; Some (RMap es, rest)
            end
          else if Ascii.eqb b "n" then rest ← expect "null" s; Some (RUnit, rest)
          else if Ascii.eqb b "t" then rest ← expect "true" s; Some (RBool true, rest)
          else if Ascii.eqb b "f" then rest ← expect "false" s; Some (RBool false, rest)
          else if Ascii.eqb b "-" then
            let '(n, rest) := read_digits 0 rest in
            Some (RI64 (- Z.of_N n), rest)
          else if is_ascii_digit b then
            let '(n, rest) := read_digits 0 s in Some (RU64 n, rest)
          else None
      end
  end
with read_values (fuel : nat) (s : string) : option (list RawJson * string) :=
  match fuel with
  | O => None
  | S fuel =>
      '(v, rest) ← read_value fuel s;
      match expect "," rest with
      | Some rest => '(vs, rest) ← read_values fuel rest; Some (v :: vs, rest)
      | None => rest ← expect "]" rest; Some ([v], rest)
      end
  end
with read_members (fuel : nat) (s : string) : option (list (string * RawJson) * string) :=
  match fuel with
  | O => None
  | S fuel =>
      rest ← expect (String QUOTE EmptyString) s;
      '(key, rest) ← read_string rest;
      rest ← expect ":" rest;
      '(v, rest) ← read_value fuel rest;
      match expect "," rest with
      | Some rest => '(es, rest) ← read_members fuel rest; Some ((key, v) :: es, rest)
      | None => rest ← expect "}" rest; Some ([(key, v)], rest)
      end
  end.

#[export] Instance ReferenceJson : SerdeJson := {|
  serde_parse s :=
    '(raw, rest) ← read_value (2 * String.length s) s;
    Some (raw, match rest with EmptyString => true | _ => false end);
  serde_quote s := Some (in_quotes (chars_text (write_chars s)))
|}.

#[export] Instance ReferenceJson_laws : QuoteLaws.
Proof.
  split.
  - intros s. exists (write_chars s). split; [done|]. unfold write_chars.
    induction s as [|b s [IHok IHlen]]; [done|].
    destruct (write_char_ok b) as [Hok Hlen]. split; [by constructor|].
    rewrite str_len_cons, <-IHlen, <-Hlen. done.
  - intros s Hs. simpl. f_equal. unfold in_quotes. f_equal. f_equal.
    unfold bytes_all in Hs. unfold write_chars.
    induction s as [|b s IH]; simpl in *; [done|]. apply andb_true_iff in Hs as [Hb Hs].
    rewrite IH by done. unfold plain_byte in Hb. rewrite !andb_true_iff, !negb_true_iff in Hb.
    destruct Hb as [[Hlow Hq] Hbs]. unfold write_char. rewrite Hq, Hbs. simpl.
    rewrite N.ltb_antisym, Hlow. done.
Qed.

(** ** Base64 *)

Definition base64_char (n : N) : ascii :=
  ascii_of_N (if n <? 26 then 65 + n else if n <? 52 then 71 + n else if n <? 62 then n - 4
              else if n =? 62 then 43 else 47).

Definition base64_value (b : ascii) : option N :=
  let c := N_of_ascii b in
  if (65 <=? c) && (c <=? 90) then Some (c - 65)
  else if (97 <=? c) && (c <=? 122) then Some (c - 71)
  else if (48 <=? c) && (c <=? 57) then Some (c + 4)
  else if c =? 43 then Some 62 else if c =? 47 then Some 63 else None.

Definition byte_of (n : N) : byte := default x00 (Byte.of_N (n mod 256)).

Definition base64_group (a b c : N) : string :=
  String (base64_char (a / 4)) (String (base64_char (a mod 4 * 16 + b / 16))
    (String (base64_char (b mod 16 * 4 + c / 64)) (String (base64_char (c mod 64)) EmptyString))).

Fixpoint base64_write (bytes : list byte) : string :=
  match bytes with
  | [] => EmptyString
  | [a] =>
      let a := Byte.to_N a in
      String (base64_char (a / 4)) (String (base64_char (a mod 4 * 16)) "==")
  | [a; b] =>
      let a := Byte.to_N a in
      let b := Byte.to_N b in
      String (base64_char (a / 4)) (String (base64_char (a mod 4 * 16 + b / 16))
        (String (base64_char (b mod 16 * 4)) "="))
  | a :: b :: c :: rest =>
      base64_group (Byte.to_N a) (Byte.to_N b) (Byte.to_N c) +:+ base64_write rest
  end.

Definition base64_four (c1 c2 c3 c4 : ascii) (rest : option (list byte)) : option (list byte) :=
  v1 ← base64_value c1;
  v2 ← base64_value c2;
  if Ascii.eqb c3 "=" then Some [byte_of (v1 * 4 + v2 / 16)]
  else
    v3 ← base64_value c3;
    if Ascii.eqb c4 "=" then Some [byte_of (v1 * 4 + v2 / 16); byte_of (v2 mod 16 * 16 + v3 / 4)]
    else
      v4 ← base64_value c4;
      rest ← rest;
      Some (byte_of (v1 * 4 + v2 / 16) :: byte_of (v2 mod 16 * 16 + v3 / 4)
              :: byte_of (v3 mod 4 * 64 + v4) :: rest).

Fixpoint base64_read (text : string) : option (list byte) :=
  match text with
  | EmptyString => Some []
  | String c1 (String c2 (String c3 (String c4 rest))) =>
      base64_four c1 c2 c3 c4 (base64_read rest)
  | _ => None
  end.

#[export] Instance ReferenceBase64 : Base64 := {|
  base64_encode := base64_write;
  base64_decode := base64_read
|}.

Definition below_64 : list N := map N.of_nat (seq 0 64).

Lemma base64_table : forallb (λ n, bool_decide (base64_value (base64_char n) = Some n)
  && negb (Ascii.eqb (base64_char n) "=")) below_64 = true.
Proof. by vm_compute. Qed.

Lemma base64_char_value n :
  n < 64 → base64_value (base64_char n) = Some n ∧ Ascii.eqb (base64_char n) "=" = false.
Proof.
  intros Hn. pose proof base64_table as Htable. rewrite forallb_forall in Htable.
  assert (In n below_64) as Hin.
  { unfold below_64. apply in_map_iff. exists (N.to_nat n). split; [lia|]. apply in_seq. lia. }
  specialize (Htable n Hin). rewrite andb_true_iff, bool_decide_eq_true, negb_true_iff in Htable.
  done.
Qed.

Lemma byte_of_to_N b : byte_of (Byte.to_N b) = b.
Proof. by destruct b. Qed.

Lemma byte_bound b : Byte.to_N b < 256.
Proof. by destruct b. Qed.

Lemma div_small_sum k r d : 0 < k → d < k → (r * k + d) / k = r ∧ (r * k + d) mod k = d.
Proof.
  intros Hk Hd. split.
  - symmetry. apply (N.div_unique _ _ r d); lia.
  - symmetry. apply (N.mod_unique _ _ r d); lia.
Qed.

Lemma base64_split a b c :
  a < 256 → b < 256 → c < 256 →
  a / 4 < 64 ∧ a mod 4 * 16 + b / 16 < 64 ∧ b mod 16 * 4 + c / 64 < 64 ∧ c mod 64 < 64 ∧
  a / 4 * 4 + (a mod 4 * 16 + b / 16) / 16 = a ∧
  (a mod 4 * 16 + b / 16) mod 16 * 16 + (b mod 16 * 4 + c / 64) / 4 = b ∧
  (b mod 16 * 4 + c / 64) mod 4 * 64 + c mod 64 = c.
Proof.
  intros Ha Hb Hc.
  assert (a / 4 < 64 ∧ b / 16 < 16 ∧ c / 64 < 4) as (? & ? & ?)
    by (split_and!; apply N.Div0.div_lt_upper_bound; lia).
  pose proof (N.mod_lt a 4 ltac:(done)). pose proof (N.mod_lt b 16 ltac:(done)).
  pose proof (N.mod_lt c 64 ltac:(done)). pose proof (N.div_mod a 4 ltac:(done)).
  pose proof (N.div_mod b 16 ltac:(done)). pose proof (N.div_mod c 64 ltac:(done)).
  destruct (div_small_sum 16 (a mod 4) (b / 16)) as [-> ->]; [lia..|].
  destruct (div_small_sum 4 (b mod 16) (c / 64)) as [-> ->]; [lia..|].
  split_and!; lia.
Qed.

Lemma base64_read_group a b c rest :
  base64_read (base64_group (Byte.to_N a) (Byte.to_N b) (Byte.to_N c) +:+ rest)
  = rest ← base64_read rest; Some (a :: b :: c :: rest).
Proof.
  destruct (base64_split (Byte.to_N a) (Byte.to_N b) (Byte.to_N c))
    as (H1 & H2 & H3 & H4 & Ea & Eb & Ec); [apply byte_bound..|].
  unfold base64_group. rewrite !string_app_cons, string_nil_app. cbn [base64_read].
  unfold base64_four.
  destruct (base64_char_value _ H1) as [-> _]. destruct (base64_char_value _ H2) as [-> _].
  destruct (base64_char_value _ H3) as [-> ->]. destruct (base64_char_value _ H4) as [-> ->].
  simpl. destruct (base64_read rest); simpl; [|done]. by rewrite Ea, Eb, Ec, !byte_of_to_N.
Qed.

Lemma three_ind (P : list byte → Prop) :
  P [] → (∀ a, P [a]) → (∀ a b, P [a; b]) →
  (∀ a b c l, P l → P (a :: b :: c :: l)) → ∀ l, P l.
Proof.
  intros H0 H1 H2 H3 l. remember (length l) as n eqn:Hn. revert l Hn.
  induction (lt_wf n) as [n _ IH]; intros [|a [|b [|c l]]] Hn; auto.
  apply H3, (IH (length l)); simpl in *; lia.
Qed.

#[export] Instance ReferenceBase64_laws : Base64Laws.
Proof.
  split.
  - intros bytes. simpl. induction bytes as [|a|a b|a b c bytes IH] using three_ind.
    + done.
    + by destruct a.
    + destruct (base64_split (Byte.to_N a) (Byte.to_N b) 0)
        as (H1 & H2 & H3 & _ & Ea & Eb & _); [apply byte_bound..|done|].
      change (0 / 64) with 0 in *. rewrite N.add_0_r in *. cbn [base64_write base64_read].
      unfold base64_four.
      destruct (base64_char_value _ H1) as [-> _]. destruct (base64_char_value _ H2) as [-> _].
      destruct (base64_char_value _ H3) as [-> ->]. simpl. by rewrite Ea, Eb, !byte_of_to_N.
    + cbn [base64_write]. by rewrite base64_read_group, IH.
  - intros bytes. simpl. induction bytes as [|a|a b|a b c bytes IH] using three_ind; try done.
    cbn [base64_write]. rewrite str_len_app, IH. unfold bytes_len. cbn [length].
    change (str_len (base64_group _ _ _)) with 4.
    replace (N.of_nat (S (S (S (length bytes)))) + 2) with (1 * 3 + (N.of_nat (length bytes) + 2))
      by lia.
    rewrite N.div_add_l by done. lia.
Qed.

(** ** Concrete documents *)

Definition sample_body : JsonValue :=
  JObject [("workflow", JString "w-1"); ("attempt", JSigned 3);
           ("tags", JArray [JNull; JBool true; JSigned (-7)])].

(** The same document as decoded. *)
Definition sample_body_decoded : JsonValue :=
  JObject [("attempt", JUnsigned 3); ("tags", JArray [JNull; JBool true; JSigned (-7)]);
           ("workflow", JString "w-1")].

Definition text_of (r : result string ProtocolError) : string :=
  match r with Ok text => text | Err _ => EmptyString end.

Lemma sample_body_strict : strict_json sample_body ∧ i64_ok sample_body.
Proof.
  split; simpl; rewrite ?Forall_cons, ?Forall_nil; unfold id; simpl;
    rewrite ?Forall_cons, ?Forall_nil; unfold id; split_and!; try done; try lia.
  by apply (bool_decide_unpack _); vm_compute.
Qed.

Lemma render_canonical_witness : render_json sample_body = render_json sample_body_decoded.
Proof.
  apply (render_canonical sample_body sample_body_decoded); [apply sample_body_strict|].
  apply (same_object _ [("workflow", JString "w-1"); ("attempt", JUnsigned 3);
    ("tags", JArray [JNull; JBool true; JSigned (-7)])]).
  - by repeat constructor.
  - solve_Permutation.
Defined.

Lemma encode_object_round_trip_witness :
  encode_object sample_body = Ok (text_of (render_json sample_body)) ∧
  decode_object (text_of (render_json sample_body)) = Ok sample_body_decoded.
Proof.
  destruct sample_body_strict as [Hs Hi].
  apply (proj1 (encode_object_round_trip sample_body (text_of (render_json sample_body))
    ltac:(by vm_compute) Hs Hi ltac:(by vm_compute) ltac:(by vm_compute) ltac:(by vm_compute)
    ltac:(by vm_compute))).
  simpl. rewrite ?Forall_cons, ?Forall_nil. unfold id. simpl. rewrite ?Forall_cons, ?Forall_nil.
  done.
Defined.

Definition sample_envelope : Envelope :=
  EnvRequest (mkRequest "0123456789abcdef0123456789abcdef" "worker.poll" sample_body).


Lemma encode_payload_round_trip_witness :
  decode_payload (text_of (write_json (payload_value [x00; xff; x10; x41]))) = Ok [x00; xff; x10; x41].
Proof.
  exact (proj2 (encode_payload_round_trip [x00; xff; x10; x41]
    (text_of (write_json (payload_value [x00; xff; x10; x41])))
    ltac:(by vm_compute) ltac:(by vm_compute) ltac:(by vm_compute) ltac:(by vm_compute))).
Defined.
