(* ===== verification/ReferenceReader.v ===== *)
(** * The reference reader reads what is rendered

    The JSON reader of [ReferenceCodec] satisfies [ReaderLaws]. *)

From stdpp Require Import pretty.
From Stdlib Require Import Ascii.
From S2P Require Import Prelude.
From S2P Require Import Text.
From S2P Require Import Protocol.
From S2P Require Import ProtocolTrees.
From S2P Require Import ProtocolText.
From S2P Require Import ProtocolCanonical.
From S2P Require Import ProtocolCodec.
From S2P Require Import ReferenceCodec.
Local Open Scope N_scope.

(** ** Strings *)

Lemma read_char b t :
  read_string (char_text (write_char b) +:+ t)
  = ('(text, rest) ← read_string t; Some (String b text, rest)).
Proof. by destruct b as [[] [] [] [] [] [] [] []]. Qed.

Lemma read_chars s rest :
  read_string (chars_text (write_chars s) +:+ String QUOTE rest) = Some (s, rest).
Proof.
  induction s as [|b s IH]; [done|]. change (write_chars (String b s)) with (write_char b :: write_chars s).
  cbn [chars_text]. rewrite string_app_assoc, read_char, IH. done.
Qed.

(** ** Numbers *)

Definition no_digit (s : string) : Prop :=
  match s with String b _ => is_ascii_digit b = false | EmptyString => True end.

Lemma read_digits_stop n s : no_digit s → read_digits n s = (n, s).
Proof. destruct s as [|b s]; simpl; [done|]. by intros ->. Qed.

Lemma pretty_go_app x s rest : pretty_N_go x s +:+ rest = pretty_N_go x (s +:+ rest).
Proof.
  revert s. induction (N.lt_wf_0 x) as [x _ IH]; intros s.
  destruct (decide (x = 0)) as [->|Hne]; [by rewrite !pretty_N_go_0|].
  rewrite !(pretty_N_go_step x) by lia. rewrite IH by (apply N.div_lt; lia). by rewrite string_app_cons.
Qed.

Lemma read_digit d n s : d < 10 → read_digits n (String (pretty_N_char d) s) = read_digits (10 * n + d) s.
Proof.
  intros Hd. assert (d = 0 ∨ d = 1 ∨ d = 2 ∨ d = 3 ∨ d = 4 ∨ d = 5 ∨ d = 6 ∨ d = 7 ∨ d = 8 ∨ d = 9)
    as Hcases by lia.
  by destruct_or? Hcases; subst d.
Qed.

Lemma read_pretty_go x s : read_digits 0 (pretty_N_go x s) = read_digits x s.
Proof.
  revert s. induction (N.lt_wf_0 x) as [x _ IH]; intros s.
  destruct (decide (x = 0)) as [->|Hne]; [by rewrite pretty_N_go_0|].
  rewrite pretty_N_go_step, IH by (try apply N.div_lt; lia).
  rewrite read_digit by (apply N.mod_lt; lia). f_equal. symmetry. apply N.div_mod. lia.
Qed.

Lemma read_pretty n rest : no_digit rest → read_digits 0 (pretty n +:+ rest) = (n, rest).
Proof.
  intros Hrest. unfold pretty, pretty_N. case_decide as Hn.
  - subst n. change ("0" +:+ rest) with (String (pretty_N_char 0) rest).
    rewrite read_digit by done. by apply read_digits_stop.
  - rewrite pretty_go_app, read_pretty_go. autorewrite with text. by apply read_digits_stop.
Qed.

(** A decimal begins with a digit. *)
Lemma pretty_head (n : N) : ∃ b r, pretty n = String b r ∧ is_ascii_digit b = true.
Proof.
  unfold pretty, pretty_N. case_decide as Hn; [by do 2 eexists|].
  destruct (pretty_go_head n "" Hn) as (d & r & -> & Hd & Hd0). do 2 eexists. split; [done|].
  assert (d = 1 ∨ d = 2 ∨ d = 3 ∨ d = 4 ∨ d = 5 ∨ d = 6 ∨ d = 7 ∨ d = 8 ∨ d = 9) as Hcases by lia.
  by destruct_or? Hcases; subst d.
Qed.

Lemma expect_app p s : expect p (p +:+ s) = Some s.
Proof. induction p as [|a p IH]; [done|]. autorewrite with text. simpl. by rewrite Ascii.eqb_refl. Qed.

(** ** Values *)

(** The normal form holds a non-negative integer unsigned. *)
Fixpoint normal (v : JsonValue) : Prop :=
  match v with
  | JSigned z => (z < 0)%Z
  | JArray vs => Forall id (map normal vs)
  | JObject es => Forall id (map (λ e, normal e.2) es)
  | _ => True
  end.

Lemma normalize_normal v : normal (normalize v).
Proof.
  induction v as [|b|z|n|s|vs IH|es IH] using JsonValue_ind; simpl; try done.
  - destruct (Z.leb_spec 0 z); simpl; lia.
  - rewrite map_map. by apply Forall_map.
  - apply Forall_map. rewrite sort_entries_perm. by apply Forall_map.
Qed.

Definition reads (v : JsonValue) : Prop :=
  ∀ text rest fuel, normal v → write_json v = Ok text → no_digit rest →
    (2 * String.length text ≤ fuel)%nat → read_value fuel (text +:+ rest) = Some (raw_of v, rest).

(** The first byte of a written value. *)
Lemma written_head v text :
  write_json v = Ok text → ∃ b r, text = String b r ∧ Ascii.eqb "]" b = false.
Proof.
  destruct v as [|b|z|n|s|vs|es]; cbn [write_json]; intros Hw.
  - injection Hw as <-. by do 2 eexists.
  - injection Hw as <-. destruct b; by do 2 eexists.
  - injection Hw as <-. destruct z as [|p|p]; [by do 2 eexists| |by do 2 eexists].
    destruct (pretty_head (Npos p)) as (b & r & Heq & Hb). exists b, r. split; [exact Heq|].
    destruct (Ascii.eqb_spec "]" b) as [<-|]; done.
  - injection Hw as <-. destruct (pretty_head n) as (b & r & -> & Hb). exists b, r. split; [done|].
    destruct (Ascii.eqb_spec "]" b) as [<-|]; done.
  - injection Hw as <-. by do 2 eexists.
  - destruct (collect _); [|done]. injection Hw as <-. by do 2 eexists.
  - destruct (collect _); [|done]. injection Hw as <-. by do 2 eexists.
Qed.

Lemma length_app (a b : string) : String.length (a +:+ b) = (String.length a + String.length b)%nat.
Proof. pose proof (str_len_app a b). unfold str_len in *. lia. Qed.

Lemma length_cons b (a : string) : String.length (String b a) = S (String.length a).
Proof. done. Qed.

Lemma no_digit_close b rest : is_ascii_digit b = false → no_digit (String b rest).
Proof. done. Qed.

Lemma read_values_written vs parts rest fuel :
  Forall2 (λ v p, reads v ∧ normal v ∧ write_json v = Ok p) vs parts → vs ≠ [] →
  (2 * String.length (join "," parts) + 1 ≤ fuel)%nat →
  read_values fuel (join "," parts +:+ String "]" rest) = Some (map raw_of vs, rest).
Proof.
  intros Hall. revert fuel. induction Hall as [|v p vs parts (Hread & Hnorm & Hw) Hall IH]; intros fuel Hne Hfuel;
    [done|]. destruct fuel as [|fuel]; [lia|]. cbn [read_values].
  destruct Hall as [|v' p' vs parts Hv' Hall].
  - cbn [join] in *. rewrite (Hread p _ fuel Hnorm Hw) by (try apply no_digit_close; done || lia). done.
  - change (join "," (p :: p' :: parts)) with (p +:+ "," +:+ join "," (p' :: parts)) in *.
    rewrite !string_app_assoc, length_app, length_app in *. cbn [String.length] in Hfuel.
    rewrite (Hread p _ fuel Hnorm Hw) by (try apply no_digit_close; done || lia).
    cbn [mbind option_bind]. rewrite expect_app, IH by (done || lia). done.
Qed.

Lemma read_members_written es parts rest fuel :
  Forall2 (λ e p, reads e.2 ∧ normal e.2 ∧ render_member e.1 (write_json e.2) = Ok p) es parts → es ≠ [] →
  (2 * String.length (join "," parts) + 1 ≤ fuel)%nat →
  read_members fuel (join "," parts +:+ String "}" rest)
  = Some (map (λ e, (e.1, raw_of e.2)) es, rest).
Proof.
  intros Hall. revert fuel. induction Hall as [|[k v] p es parts (Hread & Hnorm & Hw) Hall IH];
    intros fuel Hne Hfuel; [done|]. destruct fuel as [|fuel]; [lia|]. cbn [read_members].
  simpl in Hread, Hnorm, Hw. unfold render_member in Hw. simpl in Hw.
  destruct (write_json v) as [t|] eqn:Ht; [|done]. injection Hw as <-.
  assert (∀ tail, no_digit tail → (2 * String.length t ≤ fuel)%nat → read_value fuel (t +:+ tail) = Some (raw_of v, tail))
    as Hvalue by (intros; by apply Hread).
  destruct Hall as [|e' p' es parts Hv' Hall].
  - cbn [join] in *. unfold in_quotes in *. autorewrite with text in *.
    cbn [expect]. rewrite Ascii.eqb_refl. cbn [mbind option_bind].
    rewrite !length_cons, !length_app, !length_cons in Hfuel.
    rewrite read_chars. cbn [mbind option_bind expect]. rewrite Ascii.eqb_refl. cbn [mbind option_bind expect].
    rewrite Hvalue by (try apply no_digit_close; done || lia). done.
  - set (others := join "," (p' :: parts)) in *.
    change (join "," (_ :: p' :: parts)) with
      ((in_quotes (chars_text (write_chars k)) +:+ ":" +:+ t) +:+ "," +:+ others) in *.
    unfold in_quotes in *. autorewrite with text in *.
    rewrite !length_cons, !length_app, !length_cons, !length_app, !length_cons in Hfuel.
    cbn [expect]. rewrite Ascii.eqb_refl. cbn [mbind option_bind].
    rewrite read_chars. cbn [mbind option_bind expect]. rewrite Ascii.eqb_refl. cbn [mbind option_bind expect].
    rewrite Hvalue by (try apply no_digit_close; done || lia). cbn [mbind option_bind expect].
    rewrite Ascii.eqb_refl. cbn [expect]. rewrite IH by (done || lia). done.
Qed.

Lemma read_number (n : N) rest fuel :
  no_digit rest → (1 ≤ fuel)%nat → read_value fuel (pretty n +:+ rest) = Some (RU64 n, rest).
Proof.
  intros Hrest Hfuel. destruct fuel as [|fuel]; [lia|]. pose proof (read_pretty n rest Hrest) as Hread.
  destruct (pretty_head n) as (b & r & Heq & Hb). rewrite Heq in *. rewrite string_app_cons in *.
  cbn [read_value]. unfold is_ascii_digit in *.
  repeat match goal with |- context [Ascii.eqb b ?c] =>
    destruct (Ascii.eqb_spec b c) as [->|]; [discriminate Hb|] end.
  rewrite Hb. by rewrite Hread.
Qed.

Lemma read_array fuel s :
  read_value (S fuel) (String "[" s) =
  match expect "]" s with
  | Some rest => Some (RSeq [], rest)
  | None => '(vs, rest) ← read_values fuel s; Some (RSeq vs, rest)
  end.
Proof. done. Qed.

Lemma read_object fuel s :
  read_value (S fuel) (String "{" s) =
  match expect "}" s with
  | Some rest => Some (RMap [], rest)
  | None => '(es, rest) ← read_members fuel s; Some (RMap es, rest)
  end.
Proof. done. Qed.

Lemma join_head p parts : ∃ t, join "," (p :: parts) = p +:+ t.
Proof. destruct parts; [exists ""; by rewrite string_app_nil|by eexists]. Qed.

Lemma reads_all v : reads v.
Proof.
  induction v as [|b|z|n|s|vs IH|es IH] using JsonValue_ind; intros text rest fuel Hnorm Hw Hrest Hfuel;
    cbn [write_json] in Hw.
  - injection Hw as <-. destruct fuel; [simpl in Hfuel; lia|done].
  - injection Hw as <-. destruct b, fuel; simpl in Hfuel; try lia; done.
  - injection Hw as <-. simpl in Hnorm. destruct z as [|p|p]; [lia|lia|].
    change (pretty (Zneg p)) with (String "-" (pretty (Npos p))) in *.
    destruct fuel as [|fuel]; [simpl in Hfuel; lia|]. rewrite string_app_cons. cbn [read_value].
    cbn. rewrite (read_pretty (Npos p) rest Hrest). done.
  - injection Hw as <-. apply read_number; [done|]. destruct (pretty_head n) as (b & r & Heq & _).
    rewrite Heq in Hfuel. simpl in Hfuel. lia.
  - injection Hw as <-. destruct fuel as [|fuel]; [simpl in Hfuel; lia|]. unfold in_quotes.
    rewrite string_app_cons. cbn [read_value]. rewrite Ascii.eqb_refl. autorewrite with text.
    by rewrite read_chars.
  - destruct (collect (map write_json vs)) as [parts|] eqn:Hc; [|done]. injection Hw as <-.
    simpl in Hnorm. rewrite Forall_map in Hnorm.
    assert (Forall2 (λ v p, reads v ∧ normal v ∧ write_json v = Ok p) vs parts) as Hall.
    { clear Hfuel. apply collect_Ok in Hc. revert parts Hc. induction IH as [|v vs Hv _ IHs];
        intros [|p parts] Hc; try done; constructor; inversion Hc; inversion Hnorm; subst; auto. }
    destruct fuel as [|fuel]; [simpl in Hfuel; lia|].
    change ("[" +:+ join "," parts +:+ "]") with (String "[" (join "," parts +:+ "]")) in *.
    rewrite string_app_cons, string_app_assoc, read_array.
    change ("]" +:+ rest) with (String "]" rest).
    destruct Hall as [|v p vs parts Hv Hall]; [done|].
    rewrite length_cons, length_app in Hfuel. cbn [String.length] in Hfuel.
    rewrite (read_values_written (v :: vs)) by first [lia|done|by constructor].
    destruct Hv as (_ & _ & (b & r & -> & Hb)%written_head).
    destruct (join_head (String b r) parts) as [t ->]. rewrite !string_app_cons. cbn [expect].
    by rewrite Hb.
  - destruct (collect (map _ es)) as [parts|] eqn:Hc; [|done]. injection Hw as <-.
    simpl in Hnorm. rewrite Forall_map in Hnorm.
    assert (Forall2 (λ e p, reads e.2 ∧ normal e.2 ∧ render_member e.1 (write_json e.2) = Ok p) es parts)
      as Hall.
    { clear Hfuel. apply collect_Ok in Hc. revert parts Hc. induction IH as [|v vs Hv _ IHs];
        intros [|p parts] Hc; try done; constructor; inversion Hc; inversion Hnorm; subst; auto. }
    destruct fuel as [|fuel]; [simpl in Hfuel; lia|].
    change ("{" +:+ join "," parts +:+ "}") with (String "{" (join "," parts +:+ "}")) in *.
    rewrite string_app_cons, string_app_assoc, read_object.
    change ("}" +:+ rest) with (String "}" rest).
    destruct Hall as [|[k v] p es parts Hv Hall]; [done|].
    rewrite length_cons, length_app in Hfuel. cbn [String.length] in Hfuel.
    rewrite (read_members_written ((k, v) :: es)) by first [lia|done|by constructor].
    destruct Hv as (_ & _ & Hm). unfold render_member in Hm. cbn [fst snd] in Hm.
    destruct (write_json v); [|done]. injection Hm as <-.
    destruct (join_head (in_quotes (chars_text (write_chars k)) +:+ ":" +:+ a) parts) as [t ->].
    unfold in_quotes. rewrite !string_app_cons. done.
Qed.

#[export] Instance ReferenceReader_laws : ReaderLaws.
Proof.
  split. intros v text raw at_end _ Hrender Hparse. rewrite render_writes_normal in Hrender.
  pose proof (reads_all (normalize v) text "" (2 * String.length text)%nat (normalize_normal v) Hrender I
    (le_n _)) as Hread.
  rewrite string_app_nil in Hread. cbn [serde_parse ReferenceJson] in Hparse. rewrite Hread in Hparse.
  by injection Hparse as <- <-.
Qed.
