(* ===== verification/WorkflowTypes.v ===== *)
(** * Workflow documents

    The data of src/rust/core-bridge/src/workflow_protocol.rs: activations,
    completions and the payloads, times, policies and failures they carry.  A
    [BTreeMap] keyed by strings is a [gmap]; [btree_iter] visits it in key order.
    Signed machine integers are [Z], unsigned ones [N]. *)

From S2P Require Import Prelude.
From S2P Require Import Protocol.

(** ** Payloads *)

Record Payload := mkPayload {
  payload_metadata : gmap string (list byte);
  payload_data : list byte
}.

Record EncodedBytes := mkEncodedBytes {
  eb_encoding : string;
  eb_data : string
}.

Record PayloadWire := mkPayloadWire {
  pw_metadata : gmap string EncodedBytes;
  pw_data : EncodedBytes
}.

(** [BTreeMap::iter]. *)
Definition btree_iter {A} (m : gmap string A) : list (string * A) :=
  sort_entries (map_to_list m).

(** ** Times and executions *)

Record Timestamp := mkTimestamp {
  ts_seconds : Z;
  ts_nanoseconds : Z
}.

Record Duration := mkDuration {
  du_seconds : Z;
  du_nanoseconds : Z
}.

Record WorkflowExecution := mkWorkflowExecution {
  we_workflow_id : string;
  we_run_id : string
}.

Record NamespacedWorkflowExecution := mkNamespacedWorkflowExecution {
  nwe_namespace : string;
  nwe_workflow_id : string;
  nwe_run_id : string
}.

Record WorkflowPriority := mkWorkflowPriority {
  wp_priority_key : Z;
  wp_fairness_key : string;
  wp_fairness_weight_bits : N
}.

Record UpdateMeta := mkUpdateMeta {
  um_identity : string;
  um_update_id : string
}.

Inductive ContinueAsNewInitiator :=
| Initiator_Unspecified
| Initiator_Workflow
| Initiator_Retry
| Initiator_CronSchedule.

Record WorkerDeploymentVersion := mkWorkerDeploymentVersion {
  wdv_deployment_name : string;
  wdv_build_id : string
}.

Inductive SuggestContinueAsNewReason :=
| Suggest_Unspecified
| Suggest_HistorySizeTooLarge
| Suggest_TooManyHistoryEvents
| Suggest_TooManyUpdates.

Record ActivationMetadata := mkActivationMetadata {
  am_available_internal_flags : list N;
  am_history_size_bytes : string;
  am_continue_as_new_suggested : bool;
  am_deployment_version_for_current_task : option WorkerDeploymentVersion;
  am_last_sdk_version : string;
  am_suggest_continue_as_new_reasons : list SuggestContinueAsNewReason;
  am_target_worker_deployment_version_changed : bool
}.

(** ** Failures *)

Inductive RetryState :=
| RetryState_Unspecified
| RetryState_InProgress
| RetryState_NonRetryableFailure
| RetryState_Timeout
| RetryState_MaximumAttemptsReached
| RetryState_RetryPolicyNotSet
| RetryState_InternalServerError
| RetryState_CancelRequested.

Inductive TimeoutType :=
| Timeout_Unspecified
| Timeout_StartToClose
| Timeout_ScheduleToStart
| Timeout_ScheduleToClose
| Timeout_Heartbeat.

Inductive ApplicationFailureCategory := Category_Unspecified | Category_Benign.

Inductive NexusHandlerRetryBehavior :=
| Nexus_Unspecified
| Nexus_Retryable
| Nexus_NonRetryable.

Record NexusOperationFailure := mkNexusOperationFailure {
  nof_scheduled_event_id : Z;
  nof_endpoint : string;
  nof_service : string;
  nof_operation : string;
  nof_operation_id : string;
  nof_operation_token : string
}.

Inductive FailureInfo :=
| Info_Application (type_name : string) (non_retryable : bool) (details : list Payload)
    (category : ApplicationFailureCategory) (next_retry_delay : option Duration)
| Info_Canceled (details : list Payload) (identity : string)
| Info_Terminated (identity : string)
| Info_Activity (scheduled_event_id started_event_id : Z) (identity activity_type activity_id : string)
    (retry_state : RetryState)
| Info_ChildWorkflow (namespace workflow_id run_id workflow_type : string)
    (initiated_event_id started_event_id : Z) (retry_state : RetryState)
| Info_Timeout (timeout_type : TimeoutType) (last_heartbeat_details : list Payload)
| Info_Server (non_retryable : bool)
| Info_ResetWorkflow (last_heartbeat_details : list Payload)
| Info_NexusOperation (operation : NexusOperationFailure)
| Info_NexusHandler (type_name : string) (retry_behavior : NexusHandlerRetryBehavior)
| Info_Absent.

#[local] Unset Elimination Schemes.

Inductive Failure :=
| mkFailure (message source stack_trace : string) (encoded_attributes : option Payload)
    (cause : option Failure) (info : FailureInfo).

#[local] Set Elimination Schemes.

Definition f_message (f : Failure) : string := let 'mkFailure x _ _ _ _ _ := f in x.
Definition f_source (f : Failure) : string := let 'mkFailure _ x _ _ _ _ := f in x.
Definition f_stack_trace (f : Failure) : string := let 'mkFailure _ _ x _ _ _ := f in x.
Definition f_encoded_attributes (f : Failure) : option Payload := let 'mkFailure _ _ _ x _ _ := f in x.
Definition f_cause (f : Failure) : option Failure := let 'mkFailure _ _ _ _ x _ := f in x.
Definition f_info (f : Failure) : FailureInfo := let 'mkFailure _ _ _ _ _ x := f in x.

(** Induction along the cause chain. *)
Lemma Failure_ind (P : Failure → Prop) :
  (∀ message source stack_trace attributes cause info,
    (∀ c, cause = Some c → P c) →
    P (mkFailure message source stack_trace attributes cause info)) →
  ∀ f, P f.
Proof.
  intros step. fix go 1. intros [message source stack_trace attributes [cause|] info]; apply step.
  - intros c Hc. injection Hc as <-. apply go.
  - intros c Hc. discriminate Hc.
Qed.

(** ** Policies and contexts *)

Record RetryPolicy := mkRetryPolicy {
  rp_initial_interval : Duration;
  rp_backoff_coefficient_bits : string;
  rp_maximum_interval : Duration;
  rp_maximum_attempts : Z;
  rp_non_retryable_error_types : list string
}.

Record Continuation := mkContinuation {
  ct_continued_from_execution_run_id : string;
  ct_initiator : ContinueAsNewInitiator;
  ct_continued_failure : option Failure;
  ct_last_completion_result : option (list Payload)
}.

Record InitializeContext := mkInitializeContext {
  ic_headers : gmap string Payload;
  ic_memo : option (gmap string Payload);
  ic_search_attributes : option (gmap string Payload);
  ic_workflow_execution_expiration_time : option Timestamp;
  ic_first_workflow_task_backoff : option Duration;
  ic_identity : string;
  ic_parent_workflow : option NamespacedWorkflowExecution;
  ic_workflow_execution_timeout : option Duration;
  ic_workflow_run_timeout : option Duration;
  ic_workflow_task_timeout : option Duration;
  ic_first_execution_run_id : string;
  ic_start_time : option Timestamp;
  ic_root_workflow : option WorkflowExecution;
  ic_priority : option WorkflowPriority;
  ic_retry_policy : option RetryPolicy;
  ic_continuation : option Continuation
}.

(** ** Activations *)

Inductive ActivityResolution :=
| Activity_Completed (payload : option Payload)
| Activity_Failed (failure : Failure)
| Activity_Cancelled (failure : Failure)
| Activity_Backoff (attempt : N) (backoff_duration : Duration)
    (original_schedule_time : option Timestamp).

Inductive ChildWorkflowStartFailureCause := Cause_Unspecified | Cause_WorkflowAlreadyExists.

Inductive ChildWorkflowStartResolution :=
| ChildStart_Succeeded (run_id : string)
| ChildStart_Failed (workflow_id workflow_type : string) (cause : ChildWorkflowStartFailureCause)
| ChildStart_Cancelled (failure : Failure).

Inductive ChildWorkflowResolution :=
| Child_Completed (payload : option Payload)
| Child_Failed (failure : Failure)
| Child_Cancelled (failure : Failure).

Inductive ExternalWorkflowResolution :=
| External_Succeeded
| External_Failed (failure : Failure).

Inductive EvictionReason :=
| Eviction_Unspecified
| Eviction_CacheFull
| Eviction_CacheMiss
| Eviction_Nondeterminism
| Eviction_LangFail
| Eviction_LangRequested
| Eviction_TaskNotFound
| Eviction_UnhandledCommand
| Eviction_Fatal
| Eviction_PaginationOrHistoryFetch
| Eviction_WorkflowExecutionEnding.

Inductive ActivationJob :=
| InitializeWorkflow (workflow_id workflow_type : string) (arguments : list Payload)
    (randomness_seed : string) (attempt : Z) (context : option InitializeContext)
| ResolveActivity (seq : N) (result : ActivityResolution)
| ResolveChildWorkflowStart (seq : N) (result : ChildWorkflowStartResolution)
| ResolveChildWorkflow (seq : N) (result : ChildWorkflowResolution)
| ResolveSignalExternalWorkflow (seq : N) (result : ExternalWorkflowResolution)
| ResolveRequestCancelExternalWorkflow (seq : N) (result : ExternalWorkflowResolution)
| SignalWorkflow (signal_name : string) (input : list Payload) (identity : string)
    (headers : gmap string Payload)
| QueryWorkflow (query_id query_type : string) (arguments : list Payload)
    (headers : gmap string Payload)
| DoUpdate (id protocol_instance_id name : string) (input : list Payload)
    (headers : gmap string Payload) (meta : UpdateMeta) (run_validator : bool)
| NotifyHasPatch (patch_id : string)
| UpdateRandomSeed (randomness_seed : string)
| FireTimer (seq : N)
| Job_CancelWorkflow (reason : string)
| RemoveFromCache (message : string) (reason : EvictionReason).

Record Activation := mkActivation {
  ac_run_id : string;
  ac_timestamp : option Timestamp;
  ac_is_replaying : bool;
  ac_history_length : N;
  ac_jobs : list ActivationJob;
  ac_metadata : option ActivationMetadata
}.

(** ** Completions *)

Inductive ActivityCancellationType :=
| Cancellation_TryCancel
| Cancellation_WaitCancellationCompleted
| Cancellation_Abandon.

Inductive ChildWorkflowCancellationType :=
| ChildCancellation_TryCancel
| ChildCancellation_WaitCancellationCompleted
| ChildCancellation_Abandon
| ChildCancellation_WaitCancellationRequested.

Inductive ChildWorkflowParentClosePolicy :=
| ParentClose_Terminate
| ParentClose_Abandon
| ParentClose_RequestCancel.

Inductive ChildWorkflowIdReusePolicy :=
| IdReuse_AllowDuplicate
| IdReuse_AllowDuplicateFailedOnly
| IdReuse_RejectDuplicate.

Inductive QueryResult :=
| Query_Succeeded (payload : Payload)
| Query_Failed (failure : Failure).

Inductive UpdateResponseResult :=
| Update_Accepted
| Update_Rejected (failure : Failure)
| Update_Completed (payload : Payload).

Inductive CompletionCommand :=
| ScheduleActivity (seq : N) (activity_id activity_type task_queue : string)
    (arguments : list Payload)
    (schedule_to_close_timeout schedule_to_start_timeout start_to_close_timeout
      heartbeat_timeout : option Duration)
    (retry_policy : option RetryPolicy) (priority : option WorkflowPriority)
    (cancellation_type : ActivityCancellationType) (do_not_eagerly_execute : bool)
| ScheduleLocalActivity (seq : N) (activity_id activity_type : string) (attempt : N)
    (original_schedule_time : option Timestamp) (arguments : list Payload)
    (schedule_to_close_timeout schedule_to_start_timeout start_to_close_timeout : option Duration)
    (retry_policy : option RetryPolicy) (local_retry_threshold : option Duration)
    (cancellation_type : ActivityCancellationType)
| StartChildWorkflow (seq : N) (task_queue : option string)
    (parent_close_policy : option ChildWorkflowParentClosePolicy)
    (workflow_id workflow_type : string) (input : list Payload)
    (retry_policy : option RetryPolicy) (cancellation_type : ChildWorkflowCancellationType)
    (execution_timeout run_timeout task_timeout : option Duration)
    (id_reuse_policy : option ChildWorkflowIdReusePolicy)
| CancelChildWorkflow (seq : N) (reason : string)
| SignalExternalWorkflow (seq : N) (workflow_id run_id signal_name : string)
    (input : list Payload) (child_workflow_only : bool) (headers : gmap string Payload)
| RequestCancelExternalWorkflow (seq : N) (workflow_id run_id reason : string)
| RequestCancelActivity (seq : N)
| RequestCancelLocalActivity (seq : N)
| StartTimer (seq : N) (start_to_fire_timeout : Duration)
| CancelTimer (seq : N)
| CompleteWorkflow (result : option Payload)
| FailWorkflow (failure : Failure)
| ContinueAsNew (workflow_type : string) (input : list Payload)
| CancelWorkflow
| QueryResultCommand (query_id : string) (result : QueryResult)
| UpdateResponse (protocol_instance_id : string) (response : UpdateResponseResult)
| SetPatchMarker (patch_id : string) (deprecated : bool)
| UpsertSearchAttributes (search_attributes : gmap string Payload).

Inductive CompletionVersioningBehavior := Behavior_Pinned | Behavior_AutoUpgrade.

Record Completion := mkCompletion {
  cp_run_id : string;
  cp_commands : list CompletionCommand;
  cp_task_failure : option Failure;
  cp_versioning_behavior : option CompletionVersioningBehavior
}.
