(* ===== verification/CoreMessages.v ===== *)
(** * Messages of Temporal Core

    The protobuf messages that workflow_protocol.rs and activity_protocol.rs
    convert from and to.  They are generated in another crate; each record holds
    the fields that the bridge reads or sets, under their names there.  A nested
    message that the bridge never looks into is its encoding ([message]), a
    floating-point field is its bit pattern, an enum field is its number, and a
    message of one field is that field.

    What the bridge relies on of that crate is stated by classes: the numbering
    of an enum ([ProstEnum]) and the constructor of a failed completion
    ([CompletionFail]). *)

From S2P Require Import Prelude.

Definition message := list byte.

(** ** Enums *)

(** [as i32] (or [i32::from]) and [try_from]. *)
Class ProstEnum (A : Type) := {
  as_i32 : A → Z;
  try_from_i32 : Z → option A
}.

Class ProstEnumLaws (A : Type) `{ProstEnum A} := {
  try_from_as_i32 (a : A) : try_from_i32 (as_i32 a) = Some a;
  as_i32_try_from (z : Z) (a : A) : try_from_i32 z = Some a → as_i32 a = z
}.

Module Core.

Inductive RetryState :=
| RetryState_Unspecified
| RetryState_InProgress
| RetryState_NonRetryableFailure
| RetryState_Timeout
| RetryState_MaximumAttemptsReached
| RetryState_RetryPolicyNotSet
| RetryState_InternalServerError
| RetryState_CancelRequested.

Inductive TimeoutType :=
| Timeout_Unspecified
| Timeout_StartToClose
| Timeout_ScheduleToStart
| Timeout_ScheduleToClose
| Timeout_Heartbeat.

Inductive ApplicationErrorCategory := Category_Unspecified | Category_Benign.

Inductive NexusHandlerErrorRetryBehavior := Nexus_Unspecified | Nexus_Retryable | Nexus_NonRetryable.

Inductive ContinueAsNewInitiator :=
| Initiator_Unspecified
| Initiator_Workflow
| Initiator_Retry
| Initiator_CronSchedule.

Inductive SuggestContinueAsNewReason :=
| Suggest_Unspecified
| Suggest_HistorySizeTooLarge
| Suggest_TooManyHistoryEvents
| Suggest_TooManyUpdates.

Inductive StartChildWorkflowExecutionFailedCause :=
| Cause_Unspecified
| Cause_WorkflowAlreadyExists
| Cause_NamespaceNotFound
| Cause_InvalidVersioningOverride.

Inductive EvictionReason :=
| Eviction_Unspecified
| Eviction_CacheFull
| Eviction_CacheMiss
| Eviction_Nondeterminism
| Eviction_LangFail
| Eviction_LangRequested
| Eviction_TaskNotFound
| Eviction_UnhandledCommand
| Eviction_Fatal
| Eviction_PaginationOrHistoryFetch
| Eviction_WorkflowExecutionEnding.

Inductive ActivityCancellationType :=
| Cancellation_TryCancel
| Cancellation_WaitCancellationCompleted
| Cancellation_Abandon.

Inductive ChildWorkflowCancellationType :=
| ChildCancellation_TryCancel
| ChildCancellation_WaitCancellationCompleted
| ChildCancellation_Abandon
| ChildCancellation_WaitCancellationRequested.

Inductive ParentClosePolicy :=
| ParentClose_Unspecified
| ParentClose_Terminate
| ParentClose_Abandon
| ParentClose_RequestCancel.

Inductive WorkflowIdReusePolicy :=
| IdReuse_Unspecified
| IdReuse_AllowDuplicate
| IdReuse_AllowDuplicateFailedOnly
| IdReuse_RejectDuplicate
| IdReuse_TerminateIfRunning.

Inductive VersioningBehavior := Behavior_Unspecified | Behavior_Pinned | Behavior_AutoUpgrade.

(** The one cause the bridge names. *)
Inductive WorkflowTaskFailedCause := WorkflowWorkerUnhandledFailure.

(** ** Common messages *)

Record Payload := mkPayload {
  metadata : gmap string (list byte);
  data : list byte;
  external_payloads : list message
}.

Record Duration := mkDuration { du_seconds : Z; du_nanos : Z }.

Record Timestamp := mkTimestamp { ts_seconds : Z; ts_nanos : Z }.

Record RetryPolicy := mkRetryPolicy {
  initial_interval : option Duration;
  backoff_coefficient : N;
  maximum_interval : option Duration;
  maximum_attempts : Z;
  non_retryable_error_types : list string
}.

Record Priority := mkPriority {
  priority_key : Z;
  fairness_key : string;
  fairness_weight : N
}.

Record WorkflowExecution := mkWorkflowExecution {
  we_workflow_id : string;
  we_run_id : string
}.

Record NamespacedWorkflowExecution := mkNamespacedWorkflowExecution {
  nwe_namespace : string;
  nwe_workflow_id : string;
  nwe_run_id : string
}.

(** ** Failures *)

Inductive FailureInfo :=
| ApplicationFailureInfo (type_name : string) (non_retryable : bool)
    (details : option (list Payload)) (next_retry_delay : option Duration) (category : Z)
| CanceledFailureInfo (details : option (list Payload)) (identity : string)
| TerminatedFailureInfo (identity : string)
| ActivityFailureInfo (scheduled_event_id started_event_id : Z) (identity : string)
    (activity_type : option string) (activity_id : string) (retry_state : Z)
| ChildWorkflowExecutionFailureInfo (namespace : string)
    (workflow_execution : option WorkflowExecution) (workflow_type : option string)
    (initiated_event_id started_event_id : Z) (retry_state : Z)
| TimeoutFailureInfo (timeout_type : Z) (last_heartbeat_details : option (list Payload))
| ServerFailureInfo (non_retryable : bool)
| ResetWorkflowFailureInfo (last_heartbeat_details : option (list Payload))
| NexusOperationExecutionFailureInfo (scheduled_event_id : Z)
    (endpoint service operation operation_id operation_token : string)
| NexusHandlerFailureInfo (type_name : string) (retry_behavior : Z).

#[local] Unset Elimination Schemes.

Inductive Failure :=
| mkFailure (message source stack_trace : string) (encoded_attributes : option Payload)
    (cause : option Failure) (failure_info : option FailureInfo).

#[local] Set Elimination Schemes.

Definition f_cause (f : Failure) : option Failure := let 'mkFailure _ _ _ _ x _ := f in x.
Definition f_info (f : Failure) : option FailureInfo := let 'mkFailure _ _ _ _ _ x := f in x.

Lemma core_failure_ind (P : Failure → Prop) :
  (∀ message source stack_trace attributes cause info,
    (∀ c, cause = Some c → P c) →
    P (mkFailure message source stack_trace attributes cause info)) →
  ∀ f, P f.
Proof.
  intros step. fix go 1. intros [message source stack_trace attributes [cause|] info]; apply step.
  - intros c Hc. injection Hc as <-. apply go.
  - intros c Hc. discriminate Hc.
Qed.

(** ** Activations *)

Record InitializeWorkflow := mkInitializeWorkflow {
  iw_workflow_id : string;
  iw_workflow_type : string;
  iw_arguments : list Payload;
  iw_randomness_seed : N;
  iw_attempt : Z;
  iw_headers : gmap string Payload;
  iw_memo : option (gmap string Payload);
  iw_search_attributes : option (gmap string Payload);
  iw_workflow_execution_expiration_time : option Timestamp;
  iw_cron_schedule : string;
  iw_cron_schedule_to_schedule_interval : option Duration;
  iw_identity : string;
  iw_parent_workflow_info : option NamespacedWorkflowExecution;
  iw_workflow_execution_timeout : option Duration;
  iw_workflow_run_timeout : option Duration;
  iw_workflow_task_timeout : option Duration;
  iw_first_execution_run_id : string;
  iw_start_time : option Timestamp;
  iw_root_workflow : option WorkflowExecution;
  iw_priority : option Priority;
  iw_retry_policy : option RetryPolicy;
  iw_continued_from_execution_run_id : string;
  iw_continued_initiator : Z;
  iw_continued_failure : option Failure;
  iw_last_completion_result : option (list Payload)
}.

Inductive ActivityStatus :=
| Status_Completed (result : option Payload)
| Status_Failed (failure : option Failure)
| Status_Cancelled (failure : option Failure)
| Status_Backoff (attempt : N) (backoff_duration : option Duration)
    (original_schedule_time : option Timestamp).

Inductive ChildStartStatus :=
| ChildStart_Succeeded (run_id : string)
| ChildStart_Failed (workflow_id workflow_type : string) (cause : Z)
| ChildStart_Cancelled (failure : option Failure).

Inductive ChildStatus :=
| Child_Completed (result : option Payload)
| Child_Failed (failure : option Failure)
| Child_Cancelled (failure : option Failure).

Record UpdateMeta := mkUpdateMeta { um_identity : string; um_update_id : string }.

(** [workflow_activation_job::Variant].  The result of a resolved activity or
    child is its optional message, whose status is optional in turn. *)
Inductive JobVariant :=
| Job_InitializeWorkflow (value : InitializeWorkflow)
| Job_ResolveActivity (seq : N) (result : option (option ActivityStatus)) (is_local : bool)
| Job_ResolveChildWorkflowExecutionStart (seq : N) (status : option ChildStartStatus)
| Job_ResolveChildWorkflowExecution (seq : N) (result : option (option ChildStatus))
| Job_ResolveSignalExternalWorkflow (seq : N) (failure : option Failure)
| Job_ResolveRequestCancelExternalWorkflow (seq : N) (failure : option Failure)
| Job_SignalWorkflow (signal_name : string) (input : list Payload) (identity : string)
    (headers : gmap string Payload)
| Job_QueryWorkflow (query_id query_type : string) (arguments : list Payload)
    (headers : gmap string Payload)
| Job_DoUpdate (id protocol_instance_id name : string) (input : list Payload)
    (headers : gmap string Payload) (meta : option UpdateMeta) (run_validator : bool)
| Job_NotifyHasPatch (patch_id : string)
| Job_UpdateRandomSeed (randomness_seed : N)
| Job_FireTimer (seq : N)
| Job_CancelWorkflow (reason : string)
| Job_RemoveFromCache (message : string) (reason : Z)
| Job_Other.

Record WorkerDeploymentVersion := mkWorkerDeploymentVersion {
  deployment_name : string;
  build_id : string
}.

Record WorkflowActivation := mkWorkflowActivation {
  wa_run_id : string;
  wa_timestamp : option Timestamp;
  wa_is_replaying : bool;
  wa_history_length : N;
  wa_jobs : list (option JobVariant);
  wa_available_internal_flags : list N;
  wa_history_size_bytes : N;
  wa_continue_as_new_suggested : bool;
  wa_deployment_version_for_current_task : option WorkerDeploymentVersion;
  wa_last_sdk_version : string;
  wa_suggest_continue_as_new_reasons : list Z;
  wa_target_worker_deployment_version_changed : bool
}.

(** ** Commands *)

Record ScheduleActivity := mkScheduleActivity {
  sa_seq : N;
  sa_activity_id : string;
  sa_activity_type : string;
  sa_task_queue : string;
  sa_headers : gmap string Payload;
  sa_arguments : list Payload;
  sa_schedule_to_close_timeout : option Duration;
  sa_schedule_to_start_timeout : option Duration;
  sa_start_to_close_timeout : option Duration;
  sa_heartbeat_timeout : option Duration;
  sa_retry_policy : option RetryPolicy;
  sa_cancellation_type : Z;
  sa_do_not_eagerly_execute : bool;
  sa_versioning_intent : Z;
  sa_priority : option Priority
}.

Record ScheduleLocalActivity := mkScheduleLocalActivity {
  la_seq : N;
  la_activity_id : string;
  la_activity_type : string;
  la_attempt : N;
  la_original_schedule_time : option Timestamp;
  la_headers : gmap string Payload;
  la_arguments : list Payload;
  la_schedule_to_close_timeout : option Duration;
  la_schedule_to_start_timeout : option Duration;
  la_start_to_close_timeout : option Duration;
  la_retry_policy : option RetryPolicy;
  la_local_retry_threshold : option Duration;
  la_cancellation_type : Z;
  la_include_arguments_in_marker : bool
}.

Record StartChildWorkflowExecution := mkStartChildWorkflowExecution {
  sc_seq : N;
  sc_namespace : string;
  sc_workflow_id : string;
  sc_workflow_type : string;
  sc_task_queue : string;
  sc_input : list Payload;
  sc_workflow_execution_timeout : option Duration;
  sc_workflow_run_timeout : option Duration;
  sc_workflow_task_timeout : option Duration;
  sc_parent_close_policy : Z;
  sc_workflow_id_reuse_policy : Z;
  sc_retry_policy : option RetryPolicy;
  sc_cron_schedule : string;
  sc_headers : gmap string Payload;
  sc_memo : gmap string Payload;
  sc_search_attributes : option (gmap string Payload);
  sc_cancellation_type : Z;
  sc_versioning_intent : Z;
  sc_priority : option Priority
}.

Inductive SignalTarget :=
| Target_WorkflowExecution (execution : NamespacedWorkflowExecution)
| Target_ChildWorkflowId (id : string).

Record ContinueAsNewWorkflowExecution := mkContinueAsNewWorkflowExecution {
  can_workflow_type : string;
  can_task_queue : string;
  can_arguments : list Payload;
  can_workflow_run_timeout : option Duration;
  can_workflow_task_timeout : option Duration;
  can_memo : gmap string Payload;
  can_headers : gmap string Payload;
  can_search_attributes : option (gmap string Payload);
  can_retry_policy : option RetryPolicy;
  can_versioning_intent : Z;
  can_initial_versioning_behavior : Z;
  can_backoff_start_interval : option Duration
}.

Inductive QueryVariant :=
| Query_Succeeded (response : option Payload)
| Query_Failed (failure : Failure).

Inductive UpdateResponseVariant :=
| Update_Accepted
| Update_Rejected (failure : Failure)
| Update_Completed (payload : Payload).

(** [workflow_command::Variant]. *)
Inductive CommandVariant :=
| Cmd_ScheduleActivity (value : ScheduleActivity)
| Cmd_ScheduleLocalActivity (value : ScheduleLocalActivity)
| Cmd_RequestCancelActivity (seq : N)
| Cmd_RequestCancelLocalActivity (seq : N)
| Cmd_StartChildWorkflowExecution (value : StartChildWorkflowExecution)
| Cmd_CancelChildWorkflowExecution (child_workflow_seq : N) (reason : string)
| Cmd_SignalExternalWorkflowExecution (seq : N) (target : option SignalTarget)
    (signal_name : string) (args : list Payload) (headers : gmap string Payload)
| Cmd_RequestCancelExternalWorkflowExecution (seq : N)
    (workflow_execution : option NamespacedWorkflowExecution) (reason : string)
| Cmd_StartTimer (seq : N) (start_to_fire_timeout : option Duration)
| Cmd_CancelTimer (seq : N)
| Cmd_CompleteWorkflowExecution (result : option Payload)
| Cmd_FailWorkflowExecution (failure : option Failure)
| Cmd_ContinueAsNewWorkflowExecution (value : ContinueAsNewWorkflowExecution)
| Cmd_CancelWorkflowExecution (details : option message)
| Cmd_RespondToQuery (query_id : string) (variant : option QueryVariant)
| Cmd_UpdateResponse (protocol_instance_id : string) (response : option UpdateResponseVariant)
| Cmd_SetPatchMarker (patch_id : string) (deprecated : bool)
| Cmd_UpsertWorkflowSearchAttributes (search_attributes : option (gmap string Payload))
| Cmd_Other.

Record WorkflowCommand := mkWorkflowCommand {
  wc_variant : option CommandVariant;
  wc_user_metadata : option message;
  wc_event_group_markers : list message
}.

(** ** Completions *)

Record Success := mkSuccess {
  su_commands : list WorkflowCommand;
  su_used_internal_flags : list N;
  su_versioning_behavior : Z
}.

Inductive CompletionStatus :=
| Status_Successful (value : Success)
| Status_TaskFailed (failure : option Failure) (force_cause : Z).

Record WorkflowActivationCompletion := mkWorkflowActivationCompletion {
  wac_run_id : string;
  wac_status : option CompletionStatus;
  wac_payload_download_metrics : option message;
  wac_payload_upload_metrics : option message
}.

(** ** Activities *)

Inductive ActivityCancelReason :=
| Reason_NotFound
| Reason_Cancelled
| Reason_TimedOut
| Reason_WorkerShutdown
| Reason_Paused
| Reason_Reset.

(** The one cause of a failed activity the bridge names. *)
Inductive ActivityTaskFailedCause := ActivityCause_Unspecified.

Record ActivityStart := mkActivityStart {
  as_workflow_namespace : string;
  as_workflow_type : string;
  as_workflow_execution : option WorkflowExecution;
  as_activity_id : string;
  as_activity_type : string;
  as_is_local : bool;
  as_header_fields : gmap string Payload;
  as_input : list Payload;
  as_heartbeat_details : list Payload;
  as_scheduled_time : option Timestamp;
  as_current_attempt_scheduled_time : option Timestamp;
  as_started_time : option Timestamp;
  as_attempt : N;
  as_schedule_to_close_timeout : option Duration;
  as_start_to_close_timeout : option Duration;
  as_heartbeat_timeout : option Duration;
  as_retry_policy : option RetryPolicy;
  as_priority : option Priority;
  as_run_id : string
}.

Record ActivityCancellationDetails := mkActivityCancellationDetails {
  acd_is_not_found : bool;
  acd_is_cancelled : bool;
  acd_is_paused : bool;
  acd_is_timed_out : bool;
  acd_is_worker_shutdown : bool;
  acd_is_reset : bool
}.

(** [activity_task::Variant]. *)
Inductive ActivityVariant :=
| Variant_Start (start : ActivityStart)
| Variant_Cancel (reason : Z) (details : option ActivityCancellationDetails).

Record ActivityTask := mkActivityTask {
  at_task_token : list byte;
  at_variant : option ActivityVariant
}.

(** [activity_execution_result::Status]. *)
Inductive ActivityResultStatus :=
| Result_Completed (result : option Payload)
| Result_Failed (failure : option Failure) (cause : Z)
| Result_Cancelled (failure : option Failure)
| Result_WillCompleteAsync.

Record ActivityTaskCompletion := mkActivityTaskCompletion {
  atc_task_token : list byte;
  atc_result : option (option ActivityResultStatus)
}.

End Core.

(** ** What the bridge relies on *)

(** The enums of the crate. *)
Class CoreEnums := {
  #[global] retry_state_enum :: ProstEnum Core.RetryState;
  #[global] timeout_type_enum :: ProstEnum Core.TimeoutType;
  #[global] application_category_enum :: ProstEnum Core.ApplicationErrorCategory;
  #[global] nexus_retry_enum :: ProstEnum Core.NexusHandlerErrorRetryBehavior;
  #[global] initiator_enum :: ProstEnum Core.ContinueAsNewInitiator;
  #[global] suggest_enum :: ProstEnum Core.SuggestContinueAsNewReason;
  #[global] child_start_cause_enum :: ProstEnum Core.StartChildWorkflowExecutionFailedCause;
  #[global] eviction_enum :: ProstEnum Core.EvictionReason;
  #[global] cancellation_enum :: ProstEnum Core.ActivityCancellationType;
  #[global] child_cancellation_enum :: ProstEnum Core.ChildWorkflowCancellationType;
  #[global] parent_close_enum :: ProstEnum Core.ParentClosePolicy;
  #[global] id_reuse_enum :: ProstEnum Core.WorkflowIdReusePolicy;
  #[global] versioning_enum :: ProstEnum Core.VersioningBehavior;
  #[global] task_failed_cause_enum :: ProstEnum Core.WorkflowTaskFailedCause;
  #[global] cancel_reason_enum :: ProstEnum Core.ActivityCancelReason;
  #[global] activity_cause_enum :: ProstEnum Core.ActivityTaskFailedCause
}.

(** Each number names at most one value, and the unspecified value of an enum is
    number zero, as protobuf requires of the first value of an enum. *)
Class CoreEnumsLaws `{CoreEnums} := {
  #[global] retry_state_laws :: ProstEnumLaws Core.RetryState;
  #[global] timeout_type_laws :: ProstEnumLaws Core.TimeoutType;
  #[global] application_category_laws :: ProstEnumLaws Core.ApplicationErrorCategory;
  #[global] nexus_retry_laws :: ProstEnumLaws Core.NexusHandlerErrorRetryBehavior;
  #[global] initiator_laws :: ProstEnumLaws Core.ContinueAsNewInitiator;
  #[global] suggest_laws :: ProstEnumLaws Core.SuggestContinueAsNewReason;
  #[global] child_start_cause_laws :: ProstEnumLaws Core.StartChildWorkflowExecutionFailedCause;
  #[global] eviction_laws :: ProstEnumLaws Core.EvictionReason;
  #[global] cancellation_laws :: ProstEnumLaws Core.ActivityCancellationType;
  #[global] child_cancellation_laws :: ProstEnumLaws Core.ChildWorkflowCancellationType;
  #[global] parent_close_laws :: ProstEnumLaws Core.ParentClosePolicy;
  #[global] id_reuse_laws :: ProstEnumLaws Core.WorkflowIdReusePolicy;
  #[global] versioning_laws :: ProstEnumLaws Core.VersioningBehavior;
  #[global] task_failed_cause_laws :: ProstEnumLaws Core.WorkflowTaskFailedCause;
  #[global] cancel_reason_laws :: ProstEnumLaws Core.ActivityCancelReason;
  #[global] activity_cause_laws :: ProstEnumLaws Core.ActivityTaskFailedCause;
  versioning_unspecified_zero : as_i32 Core.Behavior_Unspecified = 0%Z;
  initiator_unspecified_zero : as_i32 Core.Initiator_Unspecified = 0%Z
}.

(** [WorkflowActivationCompletion::fail]. *)
Class CompletionFail := {
  completion_fail : string → Core.Failure → option Core.WorkflowTaskFailedCause →
    Core.WorkflowActivationCompletion
}.

(** It builds the failed status with the given failure and cause, and no more. *)
Class CompletionFailLaws `{CoreEnums, CompletionFail} := {
  completion_fail_status run_id failure cause :
    completion_fail run_id failure (Some cause) =
    Core.mkWorkflowActivationCompletion run_id
      (Some (Core.Status_TaskFailed (Some failure) (as_i32 cause))) None None
}.
