(* ===== verification/WorkflowChecks.v ===== *)
(** * Validation of workflow documents

    The validators of src/rust/core-bridge/src/workflow_protocol.rs.  Each loop
    of the source is [try_each] over the same list, so the first offending
    element decides the error.  What the validators of values accept is stated in
    the second half; activations and completions follow in [ActivationChecks] and
    [CompletionChecks]. *)

From stdpp Require Import pretty.
From Stdlib Require Import Ascii SpecFloat.
From S2P Require Import Prelude.
From S2P Require Import Text.
From S2P Require Import Protocol.
From S2P Require Import ProtocolTrees.
From S2P Require Import ProtocolCanonical.
From S2P Require Import WorkflowTypes.
Local Open Scope N_scope.
Local Open Scope bridge_scope.

(** ** Text *)

Definition identifier (value path : string) : result () ProtocolError :=
  if str_is_empty value || (MAX_STRING_BYTES <? str_len value) then
    Err (invalid path "identifier is empty or exceeds the protocol string safety limit")
  else if contains_nul value then Err (invalid path "identifier must not contain NUL")
  else if negb (utf8_valid value) then Err (invalid path "identifier must be valid UTF-8")
  else Ok tt.

Definition bounded_text (value path : string) : result () ProtocolError :=
  if MAX_STRING_BYTES <? str_len value then
    Err (invalid path "decoded JSON string limit exceeded")
  else Ok tt.

Definition signal_identity (value path : string) : result () ProtocolError :=
  let? _ := bounded_text value path in
  if contains_nul value then Err (invalid path "signal identity must not contain NUL")
  else if negb (utf8_valid value) then Err (invalid path "signal identity must be valid UTF-8")
  else Ok tt.

(** ** Times *)

Definition MAX_DURATION_SECONDS : Z := 315576000000.

Definition validate_time (seconds nanos : Z) (duration : bool) (path : string) :
    result () ProtocolError :=
  if negb ((0 <=? nanos)%Z && (nanos <=? 999999999)%Z) then
    Err (invalid path "nanoseconds are outside protobuf range")
  else if duration && (seconds <? 0)%Z then Err (invalid path "duration must not be negative")
  else if duration && (MAX_DURATION_SECONDS <? seconds)%Z then
    Err (invalid path "duration exceeds the protobuf maximum")
  else Ok tt.

Definition validate_duration (d : Duration) (path : string) : result () ProtocolError :=
  validate_time (du_seconds d) (du_nanoseconds d) true path.

Definition validate_timestamp (t : Timestamp) (path : string) : result () ProtocolError :=
  validate_time (ts_seconds t) (ts_nanoseconds t) false path.

Definition duration_is_zero (d : Duration) : bool :=
  (du_seconds d =? 0)%Z && (du_nanoseconds d =? 0)%Z.

(** The order of [(seconds, nanoseconds)] pairs. *)
Definition duration_lt (a b : Duration) : bool :=
  (du_seconds a <? du_seconds b)%Z ||
  ((du_seconds a =? du_seconds b)%Z && (du_nanoseconds a <? du_nanoseconds b)%Z).

Definition validate_close_timeout (value : option Duration) (path : string) :
    result () ProtocolError :=
  match value with
  | Some duration =>
      if duration_is_zero duration then
        Err (invalid path "activity close timeout must be positive")
      else Ok tt
  | None => Ok tt
  end.

(** ** Numbers *)

Definition not_canonical (path : string) : ProtocolError :=
  invalid path "value is not canonical unsigned 64-bit decimal".

(** [starts_with('0')]. *)
Definition starts_with_zero (value : string) : bool :=
  match value with String b _ => Ascii.eqb b "0"%char | EmptyString => false end.

Definition validate_uint64_decimal (value path : string) : result N ProtocolError :=
  if str_is_empty value || ((1 <? str_len value) && starts_with_zero value) then
    Err (not_canonical path)
  else
    match parse_u64 value with
    | None => Err (not_canonical path)
    | Some parsed =>
        if bool_decide (pretty parsed = value) then Ok parsed else Err (not_canonical path)
    end.

(** The seed and history-size checks of [validate_activation]. *)
Definition validate_decimal_text (value path : string) : result () ProtocolError :=
  match parse_u64 value with
  | None => Err (not_canonical path)
  | Some parsed => if bool_decide (pretty parsed = value) then Ok tt else Err (not_canonical path)
  end.

(** ** Retry policies *)

Definition F64_ONE : spec_float := f64_from_bits 0x3FF0000000000000.

Definition validate_error_type (path : string) (index : N) (error_type : string) :
    result () ProtocolError :=
  let item_path := path +:+ ".non_retryable_error_types[" +:+ pretty index +:+ "]" in
  let? _ := bounded_text error_type item_path in
  if str_is_empty error_type || contains_nul error_type then
    Err (invalid item_path "error type must be non-empty and must not contain NUL")
  else Ok tt.

Definition validate_retry_policy (value : RetryPolicy) (path : string) : result () ProtocolError :=
  let? _ := validate_duration (rp_initial_interval value) (path +:+ ".initial_interval") in
  let? _ := validate_duration (rp_maximum_interval value) (path +:+ ".maximum_interval") in
  if duration_is_zero (rp_initial_interval value) then
    Err (invalid (path +:+ ".initial_interval") "duration must be positive")
  else if duration_lt (rp_maximum_interval value) (rp_initial_interval value) then
    Err (invalid (path +:+ ".maximum_interval") "maximum interval must be at least initial interval")
  else
    let? bits :=
      validate_uint64_decimal (rp_backoff_coefficient_bits value)
        (path +:+ ".backoff_coefficient_bits") in
    let coefficient := f64_from_bits bits in
    if negb (is_finite coefficient) then
      Err (invalid (path +:+ ".backoff_coefficient_bits") "backoff coefficient must be finite")
    else if SFltb coefficient F64_ONE then
      Err (invalid (path +:+ ".backoff_coefficient_bits") "backoff coefficient must be at least 1.0")
    else if (rp_maximum_attempts value <? 0)%Z then
      Err (invalid (path +:+ ".maximum_attempts") "maximum attempts must not be negative")
    else try_each_at (validate_error_type path) 0 (rp_non_retryable_error_types value).

Definition validate_inbound_retry_policy (value : RetryPolicy) (path : string) :
    result () ProtocolError :=
  let? _ := validate_duration (rp_initial_interval value) (path +:+ ".initial_interval") in
  let? _ := validate_duration (rp_maximum_interval value) (path +:+ ".maximum_interval") in
  let? _ :=
    validate_uint64_decimal (rp_backoff_coefficient_bits value)
      (path +:+ ".backoff_coefficient_bits") in
  if (rp_maximum_attempts value <? 0)%Z then
    Err (invalid (path +:+ ".maximum_attempts") "maximum attempts must not be negative")
  else
    try_each_at
      (λ index error_type,
        bounded_text error_type
          (path +:+ ".non_retryable_error_types[" +:+ pretty index +:+ "]"))
      0 (rp_non_retryable_error_types value).

(** ** Priorities *)

Definition F32_ZERO : spec_float := f32_from_bits 0.
Definition F32_MIN_WEIGHT : spec_float := f32_from_bits 0x3A83126F.
Definition F32_MAX_WEIGHT : spec_float := f32_from_bits 0x447A0000.

Definition validate_priority (value : WorkflowPriority) (path : string) : result () ProtocolError :=
  if (wp_priority_key value <? 0)%Z then Err (invalid path "priority key cannot be negative")
  else if 64 <? str_len (wp_fairness_key value) then
    Err (invalid path "fairness key exceeds Core's 64-byte limit")
  else if contains_nul (wp_fairness_key value) then
    Err (invalid path "fairness key must not contain NUL")
  else
    let weight := f32_from_bits (wp_fairness_weight_bits value) in
    if negb (is_finite weight) ||
       (negb (SFeqb weight F32_ZERO) &&
        negb (SFleb F32_MIN_WEIGHT weight && SFleb weight F32_MAX_WEIGHT))
    then Err (invalid path "fairness weight must be zero or finite in [0.001, 1000]")
    else Ok tt.

Definition validate_inbound_priority (value : WorkflowPriority) (path : string) :
    result () ProtocolError :=
  if 64 <? str_len (wp_fairness_key value) then
    Err (invalid path "fairness key exceeds Core's 64-byte limit")
  else Ok tt.

(** ** Failures *)

Definition validate_failure_payload (path : string) (index : N) (payload : Payload) :
    result () ProtocolError :=
  let payload_path := path +:+ "[" +:+ pretty index +:+ "]" in
  if MAX_PAYLOAD_BYTES <? bytes_len (payload_data payload) then
    Err (invalid payload_path "payload exceeds the byte limit")
  else
    try_each
      (λ entry : string * list byte,
        if str_is_empty entry.1 || (MAX_STRING_BYTES <? str_len entry.1) then
          Err (invalid payload_path "payload metadata key is outside protocol limits")
        else if MAX_PAYLOAD_BYTES <? bytes_len entry.2 then
          Err (invalid payload_path "payload metadata value exceeds the byte limit")
        else Ok tt)
      (btree_iter (payload_metadata payload)).

Definition validate_failure_payloads (values : list Payload) (path : string) :
    result () ProtocolError :=
  try_each_at (validate_failure_payload path) 0 values.

Definition validate_failure_info (info : FailureInfo) (path : string) : result () ProtocolError :=
  match info with
  | Info_Application type_name _ details _ next_retry_delay =>
      let? _ := bounded_text type_name path in
      let? _ := validate_failure_payloads details (path +:+ ".details") in
      try_some (λ delay, validate_duration delay (path +:+ ".next_retry_delay")) next_retry_delay
  | Info_Canceled details identity =>
      let? _ := bounded_text identity path in
      validate_failure_payloads details (path +:+ ".details")
  | Info_Terminated identity => bounded_text identity path
  | Info_Activity scheduled_event_id started_event_id identity activity_type activity_id _ =>
      if (scheduled_event_id <? 0)%Z || (started_event_id <? 0)%Z then
        Err (invalid path "activity failure event IDs must not be negative")
      else
        let? _ := bounded_text identity path in
        let? _ := bounded_text activity_type path in
        bounded_text activity_id path
  | Info_ChildWorkflow namespace workflow_id run_id workflow_type initiated_event_id
      started_event_id _ =>
      let? _ :=
        try_each (λ text, bounded_text text path) [namespace; workflow_id; workflow_type; run_id] in
      if (initiated_event_id <? 0)%Z || (started_event_id <? 0)%Z then
        Err (invalid path "child workflow failure event IDs must not be negative")
      else Ok tt
  | Info_Timeout _ last_heartbeat_details | Info_ResetWorkflow last_heartbeat_details =>
      validate_failure_payloads last_heartbeat_details (path +:+ ".last_heartbeat_details")
  | Info_NexusOperation operation =>
      if (nof_scheduled_event_id operation <? 0)%Z then
        Err (invalid path "Nexus operation failure event ID must not be negative")
      else
        try_each (λ text, bounded_text text path)
          [nof_endpoint operation; nof_service operation; nof_operation operation;
           nof_operation_id operation; nof_operation_token operation]
  | Info_NexusHandler type_name _ => bounded_text type_name path
  | Info_Server _ | Info_Absent => Ok tt
  end.

Fixpoint validate_failure (value : Failure) (path : string) : result () ProtocolError :=
  match value with
  | mkFailure message source stack_trace _ cause info =>
      let? _ := bounded_text message path in
      let? _ := bounded_text source path in
      let? _ := bounded_text stack_trace path in
      let? _ := validate_failure_info info path in
      match cause with
      | Some cause => validate_failure cause path
      | None => Ok tt
      end
  end.

(** ** What the validators accept *)

Definition text_fits (s : string) : Prop := str_len s ≤ MAX_STRING_BYTES.

Definition is_identifier (s : string) : Prop :=
  s ≠ "" ∧ text_fits s ∧ contains_nul s = false ∧ utf8_valid s = true.

Definition time_ok (nanos : Z) : Prop := (0 ≤ nanos ≤ 999999999)%Z.

Definition duration_ok (d : Duration) : Prop :=
  (0 ≤ du_seconds d ≤ MAX_DURATION_SECONDS)%Z ∧ time_ok (du_nanoseconds d).

Definition timestamp_ok (t : Timestamp) : Prop := time_ok (ts_nanoseconds t).

Definition payload_fits (p : Payload) : Prop :=
  bytes_len (payload_data p) ≤ MAX_PAYLOAD_BYTES ∧
  map_Forall (λ key value, key ≠ "" ∧ text_fits key ∧ bytes_len value ≤ MAX_PAYLOAD_BYTES)
    (payload_metadata p).

(** Total order of durations, in nanoseconds. *)
Definition duration_nanos (d : Duration) : Z := (du_seconds d * 1000000000 + du_nanoseconds d)%Z.

Definition info_fits (info : FailureInfo) : Prop :=
  match info with
  | Info_Application type_name _ details _ next_retry_delay =>
      text_fits type_name ∧ Forall payload_fits details ∧
      ∀ delay, next_retry_delay = Some delay → duration_ok delay
  | Info_Canceled details identity => text_fits identity ∧ Forall payload_fits details
  | Info_Terminated identity => text_fits identity
  | Info_Activity scheduled started identity activity_type activity_id _ =>
      (0 ≤ scheduled ∧ 0 ≤ started)%Z ∧
      text_fits identity ∧ text_fits activity_type ∧ text_fits activity_id
  | Info_ChildWorkflow namespace workflow_id run_id workflow_type initiated started _ =>
      Forall text_fits [namespace; workflow_id; workflow_type; run_id] ∧
      (0 ≤ initiated ∧ 0 ≤ started)%Z
  | Info_Timeout _ details | Info_ResetWorkflow details => Forall payload_fits details
  | Info_NexusOperation op =>
      (0 ≤ nof_scheduled_event_id op)%Z ∧
      Forall text_fits [nof_endpoint op; nof_service op; nof_operation op; nof_operation_id op;
        nof_operation_token op]
  | Info_NexusHandler type_name _ => text_fits type_name
  | Info_Server _ | Info_Absent => True
  end.

Fixpoint failure_fits (f : Failure) : Prop :=
  match f with
  | mkFailure message source stack_trace _ cause info =>
      text_fits message ∧ text_fits source ∧ text_fits stack_trace ∧ info_fits info ∧
      match cause with Some cause => failure_fits cause | None => True end
  end.

Lemma Forall_btree_iter {A} (P : string * A → Prop) m :
  Forall P (btree_iter m) ↔ map_Forall (λ key value, P (key, value)) m.
Proof.
  unfold btree_iter. rewrite sort_entries_perm, map_Forall_to_list.
  apply Forall_iff. by intros [].
Qed.

Lemma bounded_text_Ok s path : bounded_text s path = Ok tt ↔ text_fits s.
Proof.
  unfold bounded_text, text_fits. rewrite guard_Ok, N.ltb_ge. naive_solver.
Qed.

Lemma identifier_Ok s path : identifier s path = Ok tt ↔ is_identifier s.
Proof.
  unfold identifier, is_identifier, text_fits.
  rewrite !guard_Ok, orb_false_iff, N.ltb_ge, negb_false_iff, <-str_is_empty_spec.
  destruct (str_is_empty s); naive_solver.
Qed.

Lemma signal_identity_Ok s path :
  signal_identity s path = Ok tt ↔ text_fits s ∧ contains_nul s = false ∧ utf8_valid s = true.
Proof.
  unfold signal_identity. rewrite seq_Ok, !guard_Ok, bounded_text_Ok, negb_false_iff. naive_solver.
Qed.

Lemma validate_duration_Ok d path : validate_duration d path = Ok tt ↔ duration_ok d.
Proof.
  unfold validate_duration, validate_time, duration_ok, time_ok.
  rewrite !guard_Ok, negb_false_iff, !andb_true_l, andb_true_iff, !Z.leb_le, !Z.ltb_ge.
  naive_solver lia.
Qed.

Lemma validate_timestamp_Ok t path : validate_timestamp t path = Ok tt ↔ timestamp_ok t.
Proof.
  unfold validate_timestamp, validate_time, timestamp_ok, time_ok.
  rewrite !guard_Ok, negb_false_iff, andb_true_iff, !Z.leb_le. naive_solver.
Qed.

Create Rewrite HintDb checks.
#[export] Hint Rewrite @seq_Ok @guard_Ok @try_each_Ok @try_some_Ok @Forall_btree_iter
  bounded_text_Ok identifier_Ok signal_identity_Ok validate_duration_Ok validate_timestamp_Ok
  N.ltb_ge N.leb_gt Z.ltb_ge Z.leb_gt N.eqb_neq orb_false_iff negb_false_iff : checks.

Lemma str_not_empty s : str_is_empty s = false ↔ s ≠ "".
Proof. rewrite <-str_is_empty_spec. by destruct (str_is_empty s). Qed.
#[export] Hint Rewrite str_not_empty : checks.

Lemma validate_failure_payload_Ok path i p :
  validate_failure_payload path i p = Ok tt ↔ payload_fits p.
Proof.
  unfold validate_failure_payload, payload_fits. cbv zeta. autorewrite with checks.
  apply and_iff_compat_l. split; intros H k v Hkv; specialize (H k v Hkv); simpl in *;
    autorewrite with checks in *; naive_solver.
Qed.

Lemma validate_failure_payloads_Ok values path :
  validate_failure_payloads values path = Ok tt ↔ Forall payload_fits values.
Proof. apply try_each_at_Ok, validate_failure_payload_Ok. Qed.
#[export] Hint Rewrite validate_failure_payloads_Ok : checks.

Lemma Forall_text_fits path l :
  Forall (λ text, bounded_text text path = Ok tt) l ↔ Forall text_fits l.
Proof. apply Forall_iff. intros s. apply bounded_text_Ok. Qed.
#[export] Hint Rewrite Forall_text_fits : checks.

Lemma validate_failure_info_Ok info path :
  validate_failure_info info path = Ok tt ↔ info_fits info.
Proof.
  destruct info; cbn [validate_failure_info info_fits]; autorewrite with checks; try tauto.
  by setoid_rewrite validate_duration_Ok.
Qed.

Lemma validate_failure_Ok f path : validate_failure f path = Ok tt ↔ failure_fits f.
Proof.
  induction f as [message source stack_trace attributes cause info IH] using Failure_ind.
  cbn [validate_failure failure_fits]. autorewrite with checks.
  rewrite validate_failure_info_Ok. destruct cause as [c|]; [|naive_solver].
  by rewrite (IH c eq_refl).
Qed.
#[export] Hint Rewrite validate_failure_Ok : checks.

(** ** Canonical numbers *)

Lemma starts_with_zero_pretty (n : N) : 1 < str_len (pretty n) → starts_with_zero (pretty n) = false.
Proof.
  unfold pretty, pretty_N. case_decide as Hn; [done|]. intros _.
  destruct (pretty_go_head n "" Hn) as (d & r & -> & Hd & Hd0). simpl.
  assert (d = 1 ∨ d = 2 ∨ d = 3 ∨ d = 4 ∨ d = 5 ∨ d = 6 ∨ d = 7 ∨ d = 8 ∨ d = 9) as Hcases by lia.
  by destruct_or? Hcases; subst d.
Qed.

Lemma pretty_not_empty (n : N) : str_is_empty (pretty n) = false.
Proof.
  rewrite str_not_empty. unfold pretty, pretty_N. case_decide as Hn; [done|].
  by destruct (pretty_go_head n "" Hn) as (d & r & -> & _).
Qed.

Lemma validate_uint64_decimal_Ok value path n :
  validate_uint64_decimal value path = Ok n ↔ n < u64_modulus ∧ value = pretty n.
Proof.
  unfold validate_uint64_decimal. rewrite guard_Ok. split.
  - intros [_ H]. destruct (parse_u64 value) as [m|] eqn:Hm; [|done].
    case_bool_decide as Hp; [|done]. injection H as <-. split; [by eapply parse_u64_bound|done].
  - intros [Hn ->]. rewrite parse_u64_pretty, bool_decide_true by done.
    split; [|done]. rewrite pretty_not_empty. simpl.
    destruct (1 <? str_len (pretty n)) eqn:Hl; [|done]. apply N.ltb_lt in Hl.
    by rewrite starts_with_zero_pretty.
Qed.

Lemma validate_decimal_text_Ok value path :
  validate_decimal_text value path = Ok tt ↔ ∃ n, n < u64_modulus ∧ value = pretty n.
Proof.
  unfold validate_decimal_text. split.
  - intros H. destruct (parse_u64 value) as [m|] eqn:Hm; [|done].
    case_bool_decide as Hp; [|done]. exists m. split; [by eapply parse_u64_bound|done].
  - intros (n & Hn & ->). by rewrite parse_u64_pretty, bool_decide_true.
Qed.

(** ** Coefficients and weights *)

Lemma f64_finite x (sign : bool) :
  x < 0x7FF0000000000000 →
  f64_from_bits (x + if sign then 0x8000000000000000 else 0) =
  finite_float sign (significand 52 x) (float_exponent 52 11 x).
Proof. intros Hx. exact (float_of_bits_finite 52 11 x sign Hx). Qed.

Lemma f32_finite x (sign : bool) :
  x < 0x7F800000 →
  f32_from_bits (x + if sign then 0x80000000 else 0) =
  finite_float sign (significand 23 x) (float_exponent 23 8 x).
Proof. intros Hx. exact (float_of_bits_finite 23 8 x sign Hx). Qed.

(** A coefficient is finite and at least one exactly between the bits of one
    and those of infinity. *)
Lemma coefficient_accepted bits :
  bits < u64_modulus →
  is_finite (f64_from_bits bits) = true ∧ SFltb (f64_from_bits bits) F64_ONE = false ↔
  0x3FF0000000000000 ≤ bits < 0x7FF0000000000000.
Proof.
  intros Hbits. assert (F64_ONE = _) as -> by exact (f64_finite 0x3FF0000000000000 false eq_refl).
  destruct (float_cases 52 11 bits Hbits) as [(sign & x & Hx & ->)|Hinf].
  2: { unfold f64_from_bits. rewrite Hinf. split; [by intros [? _]|]. intros Hb. exfalso.
       assert (bits < 0x7FF0000000000000) as Hlt by lia. clear Hb.
       pose proof (f64_finite bits false Hlt) as H. cbv iota in H. rewrite N.add_0_r in H.
       unfold f64_from_bits in H. by rewrite H, finite_float_finite in Hinf. }
  change (2 ^ (52 + 11)) with 0x8000000000000000. rewrite f64_finite, finite_float_finite by done.
  assert (x < 0x7FF0000000000000) as Hx' by exact Hx. clear Hx. destruct sign.
  - split; [|lia]. intros [_ H]. by destruct (significand 52 x).
  - unfold SFltb. rewrite float_compare, N.add_0_r.
    destruct (N.compare_spec x 0x3FF0000000000000); split; try lia; by intros [].
Qed.

(** A weight is accepted when it is a zero or between the bits of the bounds. *)
Lemma weight_accepted bits :
  bits < 2 ^ 32 →
  negb (is_finite (f32_from_bits bits)) ||
    (negb (SFeqb (f32_from_bits bits) F32_ZERO) &&
     negb (SFleb F32_MIN_WEIGHT (f32_from_bits bits) && SFleb (f32_from_bits bits) F32_MAX_WEIGHT))
  = false ↔
  bits = 0 ∨ bits = 0x80000000 ∨ 0x3A83126F ≤ bits ≤ 0x447A0000.
Proof.
  intros Hbits. assert (F32_ZERO = _) as -> by exact (f32_finite 0 false eq_refl).
  assert (F32_MIN_WEIGHT = _) as -> by exact (f32_finite 0x3A83126F false eq_refl).
  assert (F32_MAX_WEIGHT = _) as -> by exact (f32_finite 0x447A0000 false eq_refl).
  destruct (float_cases 23 8 bits Hbits) as [(sign & x & Hx & ->)|Hinf].
  2: { unfold f32_from_bits. rewrite Hinf. split; [done|]. intros Hb. exfalso.
       assert (∃ x (sign : bool), x < 0x7F800000 ∧ bits = x + if sign then 0x80000000 else 0)
         as (x & sign & Hlt & ->).
       { destruct Hb as [->|[->|?]]; [by exists 0, false|by exists 0, true|].
         exists bits, false. lia. }
       pose proof (f32_finite x sign Hlt) as H. unfold f32_from_bits in H.
       by rewrite H, finite_float_finite in Hinf. }
  change (2 ^ (23 + 8)) with 0x80000000. rewrite f32_finite, finite_float_finite by done.
  assert (x < 0x7F800000) as Hx' by exact Hx. clear Hx. cbn [negb orb].
  unfold SFeqb, SFleb. destruct sign.
  - pose proof (significand_zero 23 x) as Hz. pose proof (N.div_mod x (2 ^ 23) ltac:(done)) as Hdm.
    destruct (significand 23 x) as [|m] eqn:Hm; cbn -[N.mul N.pow N.div N.modulo].
    + destruct (Hz eq_refl) as [Hq Hr]. rewrite Hq, Hr in Hdm. split; [lia|done].
    + split; [done|]. intros [?|[?|?]]; [lia| |lia]. assert (x = 0) as -> by lia. done.
  - rewrite !float_compare, N.add_0_r.
    destruct (N.compare_spec x 0), (N.compare_spec 0x3A83126F x), (N.compare_spec x 0x447A0000);
      cbn; try lia; split; try done; try lia.
Qed.

Lemma duration_lt_nanos a b :
  duration_ok a → duration_ok b → duration_lt a b = true ↔ (duration_nanos a < duration_nanos b)%Z.
Proof.
  unfold duration_ok, time_ok, duration_lt, duration_nanos.
  rewrite orb_true_iff, andb_true_iff, !Z.ltb_lt, Z.eqb_eq. lia.
Qed.

Lemma duration_is_zero_nanos d :
  duration_ok d → duration_is_zero d = true ↔ duration_nanos d = 0%Z.
Proof.
  unfold duration_ok, time_ok, duration_is_zero, duration_nanos.
  rewrite andb_true_iff, !Z.eqb_eq. lia.
Qed.

(** The retry policies a command may carry. *)
Definition retry_policy_ok (p : RetryPolicy) : Prop :=
  duration_ok (rp_initial_interval p) ∧ duration_ok (rp_maximum_interval p) ∧
  (0 < duration_nanos (rp_initial_interval p) ≤ duration_nanos (rp_maximum_interval p))%Z ∧
  (∃ bits, rp_backoff_coefficient_bits p = pretty bits ∧
    0x3FF0000000000000 ≤ bits < 0x7FF0000000000000) ∧
  (0 ≤ rp_maximum_attempts p)%Z ∧
  Forall (λ e, e ≠ "" ∧ text_fits e ∧ contains_nul e = false) (rp_non_retryable_error_types p).

Lemma validate_error_type_Ok path i e :
  validate_error_type path i e = Ok tt ↔ e ≠ "" ∧ text_fits e ∧ contains_nul e = false.
Proof. unfold validate_error_type. cbv zeta. autorewrite with checks. naive_solver. Qed.

Lemma validate_retry_policy_Ok p path :
  validate_retry_policy p path = Ok tt ↔ retry_policy_ok p.
Proof.
  unfold validate_retry_policy, retry_policy_ok. cbv zeta.
  rewrite !seq_Ok, !guard_Ok, bind_Ok, !validate_duration_Ok.
  split.
  - intros (Hi & Hm & Hz & Hl & bits & [Hb ->]%validate_uint64_decimal_Ok & H).
    rewrite !guard_Ok, (try_each_at_Ok _ _ _ _ (validate_error_type_Ok path)) in H.
    destruct H as (Hf & Hlt & Ha & He). rewrite negb_false_iff in Hf.
    pose proof (proj1 (coefficient_accepted bits Hb) (conj Hf Hlt)).
    pose proof (duration_is_zero_nanos _ Hi) as Hzn. rewrite Hz in Hzn.
    pose proof (duration_lt_nanos _ _ Hm Hi) as Hln. rewrite Hl in Hln.
    apply Z.ltb_ge in Ha.
    assert (0 ≤ duration_nanos (rp_initial_interval p))%Z
      by (destruct Hi as [[? ?] [? ?]]; unfold duration_nanos; lia).
    assert (duration_nanos (rp_initial_interval p) ≠ 0%Z) by (by intros ?%Hzn).
    assert (¬ (duration_nanos (rp_maximum_interval p) < duration_nanos (rp_initial_interval p))%Z)
      by (by intros ?%Hln).
    split_and!; [done..|lia|lia|by exists bits|done|done].
  - intros (Hi & Hm & Hd & (bits & Hp & Hb) & Ha & He).
    split; [done|]. split; [done|].
    split; [apply not_true_iff_false; rewrite duration_is_zero_nanos by done; lia|].
    split; [apply not_true_iff_false; rewrite duration_lt_nanos by done; lia|].
    assert (bits < u64_modulus) as Hu by (unfold u64_modulus; lia).
    exists bits. split; [by apply validate_uint64_decimal_Ok|].
    destruct (proj2 (coefficient_accepted bits Hu) Hb) as [Hf Hlt].
    rewrite !guard_Ok, (try_each_at_Ok _ _ _ _ (validate_error_type_Ok path)), Hf, Hlt, Z.ltb_ge.
    done.
Qed.

(** A retry policy is accepted exactly when its intervals are normalized
    durations with a positive first one that does not exceed the last, the
    coefficient is the canonical decimal of the bits of a finite number of at
    least one, the attempts are not negative and each error type is a bounded
    non-empty text without NUL. *)
Theorem validate_retry_policy_accepts p path :
  validate_retry_policy p path = Ok tt ↔ retry_policy_ok p.
Proof. apply validate_retry_policy_Ok. Qed.

(** The priorities a command may carry. *)
Definition priority_ok (p : WorkflowPriority) : Prop :=
  (0 ≤ wp_priority_key p)%Z ∧ str_len (wp_fairness_key p) ≤ 64 ∧
  contains_nul (wp_fairness_key p) = false ∧
  (wp_fairness_weight_bits p = 0 ∨ wp_fairness_weight_bits p = 0x80000000 ∨
   0x3A83126F ≤ wp_fairness_weight_bits p ≤ 0x447A0000).

Lemma validate_priority_Ok p path :
  wp_fairness_weight_bits p < 2 ^ 32 → validate_priority p path = Ok tt ↔ priority_ok p.
Proof.
  intros Hw. unfold validate_priority, priority_ok. cbv zeta.
  rewrite !guard_Ok, Z.ltb_ge, N.ltb_ge, (weight_accepted _ Hw). tauto.
Qed.
