(* ===== verification/ActivationChecks.v ===== *)
(** * Validation of activations

    [validate_activation] of src/rust/core-bridge/src/workflow_protocol.rs: the
    checks on the list of jobs, then each job, then the metadata.  The theorem
    states what an accepted activation is without reference to the order of the
    checks or to the sets the loop carries. *)

From stdpp Require Import pretty.
From S2P Require Import Prelude.
From S2P Require Import Text.
From S2P Require Import Protocol.
From S2P Require Import WorkflowTypes.
From S2P Require Import WorkflowChecks.
Local Open Scope N_scope.
Local Open Scope bridge_scope.

(** ** The list of jobs *)

Definition is_remove_from_cache (job : ActivationJob) : bool :=
  match job with RemoveFromCache _ _ => true | _ => false end.

Definition is_initialize (job : ActivationJob) : bool :=
  match job with InitializeWorkflow _ _ _ _ _ _ => true | _ => false end.

Definition is_query (job : ActivationJob) : bool :=
  match job with QueryWorkflow _ _ _ _ => true | _ => false end.

(** [iter().filter(p).count()]. *)
Definition count_jobs (p : ActivationJob → bool) (jobs : list ActivationJob) : nat :=
  length (List.filter p jobs).

Definition validate_evictions (jobs : list ActivationJob) : result () ProtocolError :=
  let eviction_count := count_jobs is_remove_from_cache jobs in
  if negb (Nat.eqb eviction_count 0) &&
     (negb (Nat.eqb eviction_count 1) || negb (Nat.eqb (length jobs) 1))
  then Err (invalid "$.jobs" "cache eviction must be the activation's only job")
  else Ok tt.

Definition validate_activation_timestamp (value : Activation) : result () ProtocolError :=
  match ac_timestamp value with
  | Some timestamp => validate_timestamp timestamp "$.timestamp"
  | None =>
      if Nat.eqb (count_jobs is_remove_from_cache (ac_jobs value)) 1 then Ok tt
      else Err (invalid "$.timestamp" "timestamp may be null only for cache eviction")
  end.

Definition validate_initialize_first (jobs : list ActivationJob) : result () ProtocolError :=
  let initialize_count := count_jobs is_initialize jobs in
  let first := match jobs with job :: _ => is_initialize job | [] => false end in
  if Nat.ltb 1 initialize_count || (Nat.eqb initialize_count 1 && negb first) then
    Err (invalid "$.jobs" "initialize_workflow must occur at most once and first")
  else Ok tt.

Definition validate_queries_alone (jobs : list ActivationJob) : result () ProtocolError :=
  let query_count := count_jobs is_query jobs in
  if negb (Nat.eqb query_count 0) && negb (Nat.eqb query_count (length jobs)) then
    Err (invalid "$.jobs" "query_workflow jobs must be the activation's only jobs")
  else Ok tt.

(** The loop that inserts each query identifier into a set. *)
Fixpoint validate_query_ids (jobs : list ActivationJob) (query_ids : gset string) :
    result () ProtocolError :=
  match jobs with
  | [] => Ok tt
  | QueryWorkflow query_id _ _ _ :: jobs =>
      if decide (query_id ∈ query_ids) then
        Err (invalid "$.jobs.query_id" "query identifiers must be unique within one activation")
      else validate_query_ids jobs ({[query_id]} ∪ query_ids)
  | _ :: jobs => validate_query_ids jobs query_ids
  end.

(** ** The context of a started workflow *)

(** [for key in map.keys()]. *)
Definition validate_keys {A} (m : gmap string A) (path : string) : result () ProtocolError :=
  try_each (λ entry : string * A, identifier entry.1 path) (btree_iter m).

Definition validate_parent (parent : NamespacedWorkflowExecution) : result () ProtocolError :=
  let? _ := identifier (nwe_namespace parent) "$.jobs.context.parent_workflow.namespace" in
  let? _ := identifier (nwe_workflow_id parent) "$.jobs.context.parent_workflow.workflow_id" in
  identifier (nwe_run_id parent) "$.jobs.context.parent_workflow.run_id".

Definition validate_root (root : WorkflowExecution) : result () ProtocolError :=
  let? _ := identifier (we_workflow_id root) "$.jobs.context.root_workflow.workflow_id" in
  identifier (we_run_id root) "$.jobs.context.root_workflow.run_id".

Definition validate_continuation (continuation : Continuation) : result () ProtocolError :=
  let? _ :=
    (if negb (str_is_empty (ct_continued_from_execution_run_id continuation)) then
       identifier (ct_continued_from_execution_run_id continuation)
         "$.jobs.context.continuation.continued_from_execution_run_id"
     else Ok tt) in
  try_some
    (λ failure, validate_failure failure "$.jobs.context.continuation.continued_failure")
    (ct_continued_failure continuation).

(** [into_iter().flatten()] over optional durations. *)
Definition validate_durations (durations : list (option Duration)) (path : string) :
    result () ProtocolError :=
  try_each (try_some (λ d, validate_duration d path)) durations.

Definition validate_context (context : InitializeContext) : result () ProtocolError :=
  let? _ := validate_keys (ic_headers context) "$.jobs.context.headers" in
  let? _ := try_some (λ fields, validate_keys fields "$.jobs.context.memo") (ic_memo context) in
  let? _ :=
    try_some (λ fields, validate_keys fields "$.jobs.context.search_attributes")
      (ic_search_attributes context) in
  let? _ :=
    try_some (λ t, validate_timestamp t "$.jobs.context.workflow_execution_expiration_time")
      (ic_workflow_execution_expiration_time context) in
  let? _ :=
    try_some (λ d, validate_duration d "$.jobs.context.first_workflow_task_backoff")
      (ic_first_workflow_task_backoff context) in
  let? _ := bounded_text (ic_identity context) "$.jobs.context.identity" in
  let? _ := try_some validate_parent (ic_parent_workflow context) in
  let? _ :=
    identifier (ic_first_execution_run_id context) "$.jobs.context.first_execution_run_id" in
  let? _ :=
    validate_durations
      [ic_workflow_execution_timeout context; ic_workflow_run_timeout context;
       ic_workflow_task_timeout context]
      "$.jobs.context.timeout" in
  let? _ :=
    try_some (λ t, validate_timestamp t "$.jobs.context.start_time") (ic_start_time context) in
  let? _ := try_some validate_root (ic_root_workflow context) in
  let? _ :=
    try_some (λ p, validate_inbound_priority p "$.jobs.context.priority") (ic_priority context) in
  let? _ :=
    try_some (λ p, validate_inbound_retry_policy p "$.jobs.context.retry_policy")
      (ic_retry_policy context) in
  try_some validate_continuation (ic_continuation context).

(** ** One job *)

Definition validate_activity_resolution (r : ActivityResolution) : result () ProtocolError :=
  match r with
  | Activity_Completed _ => Ok tt
  | Activity_Failed failure | Activity_Cancelled failure =>
      validate_failure failure "$.jobs.result.failure"
  | Activity_Backoff attempt backoff_duration original_schedule_time =>
      if attempt =? 0 then
        Err (invalid "$.jobs.result.attempt" "local activity backoff attempt must be positive")
      else
        let? _ := validate_duration backoff_duration "$.jobs.result.backoff_duration" in
        try_some (λ t, validate_timestamp t "$.jobs.result.original_schedule_time")
          original_schedule_time
  end.

Definition validate_child_start_resolution (r : ChildWorkflowStartResolution) :
    result () ProtocolError :=
  match r with
  | ChildStart_Succeeded run_id => identifier run_id "$.jobs.result.run_id"
  | ChildStart_Failed workflow_id workflow_type _ =>
      let? _ := identifier workflow_id "$.jobs.result.workflow_id" in
      identifier workflow_type "$.jobs.result.workflow_type"
  | ChildStart_Cancelled failure => validate_failure failure "$.jobs.result.failure"
  end.

Definition validate_child_resolution (r : ChildWorkflowResolution) : result () ProtocolError :=
  match r with
  | Child_Completed _ => Ok tt
  | Child_Failed failure | Child_Cancelled failure =>
      validate_failure failure "$.jobs.result.failure"
  end.

Definition validate_external_resolution (r : ExternalWorkflowResolution) :
    result () ProtocolError :=
  match r with
  | External_Failed failure => validate_failure failure "$.jobs.result.failure"
  | External_Succeeded => Ok tt
  end.

(** The sets of update and update protocol identifiers the loop carries. *)
Definition UpdateIds : Type := gset string * gset string.

Definition validate_do_update (id protocol_instance_id name : string)
    (headers : gmap string Payload) (meta : UpdateMeta) (seen : UpdateIds) :
    result UpdateIds ProtocolError :=
  let? _ := identifier id "$.jobs.id" in
  let? _ := identifier protocol_instance_id "$.jobs.protocol_instance_id" in
  let? _ := identifier name "$.jobs.name" in
  if bool_decide (id ∈ seen.1) then
    Err (invalid "$.jobs.id" "update identifiers must be unique within one activation")
  else if bool_decide (protocol_instance_id ∈ seen.2) then
    Err (invalid "$.jobs.protocol_instance_id"
      "update protocol identifiers must be unique within one activation")
  else if negb (bool_decide (um_update_id meta = id)) then
    Err (invalid "$.jobs.meta.update_id" "update metadata ID must match the update ID")
  else
    let? _ := identifier (um_update_id meta) "$.jobs.meta.update_id" in
    let? _ := bounded_text (um_identity meta) "$.jobs.meta.identity" in
    let? _ := validate_keys headers "$.jobs.headers" in
    Ok ({[id]} ∪ seen.1, {[protocol_instance_id]} ∪ seen.2).

(** The jobs that leave the sets alone. *)
Definition validate_plain_job (job : ActivationJob) : result () ProtocolError :=
  match job with
  | InitializeWorkflow workflow_id workflow_type _ randomness_seed attempt context =>
      let? _ := identifier workflow_id "$.jobs.workflow_id" in
      let? _ := identifier workflow_type "$.jobs.workflow_type" in
      if (attempt <? 1)%Z then Err (invalid "$.jobs.attempt" "attempt must be positive")
      else
        let? _ := validate_decimal_text randomness_seed "$.jobs.randomness_seed" in
        try_some validate_context context
  | ResolveActivity _ result => validate_activity_resolution result
  | ResolveChildWorkflowStart _ result => validate_child_start_resolution result
  | ResolveChildWorkflow _ result => validate_child_resolution result
  | ResolveSignalExternalWorkflow _ result | ResolveRequestCancelExternalWorkflow _ result =>
      validate_external_resolution result
  | SignalWorkflow signal_name _ identity headers =>
      let? _ := identifier signal_name "$.jobs.signal_name" in
      let? _ := signal_identity identity "$.jobs.identity" in
      validate_keys headers "$.jobs.headers"
  | QueryWorkflow query_id query_type _ headers =>
      let? _ := identifier query_id "$.jobs.query_id" in
      let? _ := identifier query_type "$.jobs.query_type" in
      validate_keys headers "$.jobs.headers"
  | NotifyHasPatch patch_id => identifier patch_id "$.jobs.patch_id"
  | UpdateRandomSeed randomness_seed =>
      let? _ := validate_uint64_decimal randomness_seed "$.jobs.randomness_seed" in
      Ok tt
  | Job_CancelWorkflow reason => bounded_text reason "$.jobs.reason"
  | RemoveFromCache message _ => bounded_text message "$.jobs.message"
  | FireTimer _ => Ok tt
  | DoUpdate _ _ _ _ _ _ _ => Ok tt
  end.

Definition validate_job (job : ActivationJob) (seen : UpdateIds) : result UpdateIds ProtocolError :=
  match job with
  | DoUpdate id protocol_instance_id name _ headers meta _ =>
      validate_do_update id protocol_instance_id name headers meta seen
  | _ =>
      let? _ := validate_plain_job job in
      Ok seen
  end.

Fixpoint validate_jobs (jobs : list ActivationJob) (seen : UpdateIds) : result () ProtocolError :=
  match jobs with
  | [] => Ok tt
  | job :: jobs =>
      let? seen := validate_job job seen in
      validate_jobs jobs seen
  end.

(** ** The activation *)

Definition validate_activation_metadata (metadata : ActivationMetadata) :
    result () ProtocolError :=
  let? _ :=
    validate_decimal_text (am_history_size_bytes metadata) "$.metadata.history_size_bytes" in
  let? _ := bounded_text (am_last_sdk_version metadata) "$.metadata.last_sdk_version" in
  try_some
    (λ deployment,
      let? _ := bounded_text (wdv_deployment_name deployment) "$.metadata.deployment_name" in
      identifier (wdv_build_id deployment) "$.metadata.build_id")
    (am_deployment_version_for_current_task metadata).

Definition validate_activation (value : Activation) : result () ProtocolError :=
  let? _ := identifier (ac_run_id value) "$.run_id" in
  let? _ := validate_evictions (ac_jobs value) in
  let? _ := validate_activation_timestamp value in
  let? _ := validate_initialize_first (ac_jobs value) in
  let? _ := validate_queries_alone (ac_jobs value) in
  let? _ := validate_query_ids (ac_jobs value) ∅ in
  let? _ := validate_jobs (ac_jobs value) (∅, ∅) in
  try_some validate_activation_metadata (ac_metadata value).

(** ** Accepted activations *)

Definition keys_ok {A} (m : gmap string A) : Prop := map_Forall (λ key _, is_identifier key) m.

Definition decimal (s : string) : Prop := ∃ n, n < u64_modulus ∧ s = pretty n.

Definition inbound_retry_policy_ok (p : RetryPolicy) : Prop :=
  duration_ok (rp_initial_interval p) ∧ duration_ok (rp_maximum_interval p) ∧
  decimal (rp_backoff_coefficient_bits p) ∧ (0 ≤ rp_maximum_attempts p)%Z ∧
  Forall text_fits (rp_non_retryable_error_types p).

Definition continuation_ok (c : Continuation) : Prop :=
  (ct_continued_from_execution_run_id c ≠ "" →
    is_identifier (ct_continued_from_execution_run_id c)) ∧
  ∀ f, ct_continued_failure c = Some f → failure_fits f.

(** [P] of an optional value that is present. *)
Definition if_some {A} (P : A → Prop) (o : option A) : Prop := ∀ a, o = Some a → P a.

Definition context_ok (c : InitializeContext) : Prop :=
  keys_ok (ic_headers c) ∧ if_some keys_ok (ic_memo c) ∧ if_some keys_ok (ic_search_attributes c) ∧
  if_some timestamp_ok (ic_workflow_execution_expiration_time c) ∧
  if_some duration_ok (ic_first_workflow_task_backoff c) ∧ text_fits (ic_identity c) ∧
  if_some (λ p, is_identifier (nwe_namespace p) ∧ is_identifier (nwe_workflow_id p) ∧
    is_identifier (nwe_run_id p)) (ic_parent_workflow c) ∧
  is_identifier (ic_first_execution_run_id c) ∧
  Forall (if_some duration_ok)
    [ic_workflow_execution_timeout c; ic_workflow_run_timeout c; ic_workflow_task_timeout c] ∧
  if_some timestamp_ok (ic_start_time c) ∧
  if_some (λ r, is_identifier (we_workflow_id r) ∧ is_identifier (we_run_id r)) (ic_root_workflow c) ∧
  if_some (λ p, str_len (wp_fairness_key p) ≤ 64) (ic_priority c) ∧
  if_some inbound_retry_policy_ok (ic_retry_policy c) ∧ if_some continuation_ok (ic_continuation c).

Definition job_ok (job : ActivationJob) : Prop :=
  match job with
  | InitializeWorkflow workflow_id workflow_type _ randomness_seed attempt context =>
      is_identifier workflow_id ∧ is_identifier workflow_type ∧ (1 ≤ attempt)%Z ∧
      decimal randomness_seed ∧ if_some context_ok context
  | ResolveActivity _ (Activity_Completed _) | ResolveChildWorkflow _ (Child_Completed _)
  | ResolveSignalExternalWorkflow _ External_Succeeded
  | ResolveRequestCancelExternalWorkflow _ External_Succeeded | FireTimer _ => True
  | ResolveActivity _ (Activity_Failed failure | Activity_Cancelled failure)
  | ResolveChildWorkflow _ (Child_Failed failure | Child_Cancelled failure)
  | ResolveChildWorkflowStart _ (ChildStart_Cancelled failure)
  | ResolveSignalExternalWorkflow _ (External_Failed failure)
  | ResolveRequestCancelExternalWorkflow _ (External_Failed failure) => failure_fits failure
  | ResolveActivity _ (Activity_Backoff attempt backoff time) =>
      attempt ≠ 0 ∧ duration_ok backoff ∧ if_some timestamp_ok time
  | ResolveChildWorkflowStart _ (ChildStart_Succeeded run_id) => is_identifier run_id
  | ResolveChildWorkflowStart _ (ChildStart_Failed workflow_id workflow_type _) =>
      is_identifier workflow_id ∧ is_identifier workflow_type
  | SignalWorkflow signal_name _ identity headers =>
      is_identifier signal_name ∧
      (text_fits identity ∧ contains_nul identity = false ∧ utf8_valid identity = true) ∧
      keys_ok headers
  | QueryWorkflow query_id query_type _ headers =>
      is_identifier query_id ∧ is_identifier query_type ∧ keys_ok headers
  | DoUpdate id protocol_instance_id name _ headers meta _ =>
      is_identifier id ∧ is_identifier protocol_instance_id ∧ is_identifier name ∧
      um_update_id meta = id ∧ text_fits (um_identity meta) ∧ keys_ok headers
  | NotifyHasPatch patch_id => is_identifier patch_id
  | UpdateRandomSeed randomness_seed => decimal randomness_seed
  | Job_CancelWorkflow text | RemoveFromCache text _ => text_fits text
  end.

Definition query_id_of (job : ActivationJob) : option string :=
  match job with QueryWorkflow query_id _ _ _ => Some query_id | _ => None end.

Definition update_id_of (job : ActivationJob) : option string :=
  match job with DoUpdate id _ _ _ _ _ _ => Some id | _ => None end.

Definition update_protocol_id_of (job : ActivationJob) : option string :=
  match job with DoUpdate _ id _ _ _ _ _ => Some id | _ => None end.

Definition metadata_ok (m : ActivationMetadata) : Prop :=
  decimal (am_history_size_bytes m) ∧ text_fits (am_last_sdk_version m) ∧
  if_some (λ d, text_fits (wdv_deployment_name d) ∧ is_identifier (wdv_build_id d))
    (am_deployment_version_for_current_task m).

(** An eviction is alone; only an eviction has no timestamp; a start is the first
    job and the only one of its kind; queries are not mixed with other jobs and,
    like updates, have distinct identifiers. *)
Definition activation_ok (a : Activation) : Prop :=
  is_identifier (ac_run_id a) ∧
  (∀ job, job ∈ ac_jobs a → is_remove_from_cache job = true → ac_jobs a = [job]) ∧
  match ac_timestamp a with
  | Some t => timestamp_ok t
  | None => ∃ message reason, ac_jobs a = [RemoveFromCache message reason]
  end ∧
  (∀ i job, ac_jobs a !! i = Some job → is_initialize job = true → i = 0%nat) ∧
  (∀ job job', job ∈ ac_jobs a → job' ∈ ac_jobs a → is_query job = is_query job') ∧
  NoDup (omap query_id_of (ac_jobs a)) ∧
  NoDup (omap update_id_of (ac_jobs a)) ∧ NoDup (omap update_protocol_id_of (ac_jobs a)) ∧
  Forall job_ok (ac_jobs a) ∧ if_some metadata_ok (ac_metadata a).

(** ** What each check accepts *)

Lemma try_some_if {A} (f : A → result () ProtocolError) (P : A → Prop) o :
  (∀ a, f a = Ok tt ↔ P a) → try_some f o = Ok tt ↔ if_some P o.
Proof. intros Hf. rewrite try_some_Ok. unfold if_some. by setoid_rewrite Hf. Qed.

Lemma validate_keys_Ok {A} (m : gmap string A) path : validate_keys m path = Ok tt ↔ keys_ok m.
Proof.
  unfold validate_keys, keys_ok, map_Forall. autorewrite with checks.
  unfold map_Forall. by setoid_rewrite identifier_Ok.
Qed.
#[export] Hint Rewrite @validate_keys_Ok : checks.

Lemma validate_inbound_retry_policy_Ok p path :
  validate_inbound_retry_policy p path = Ok tt ↔ inbound_retry_policy_ok p.
Proof.
  unfold validate_inbound_retry_policy, inbound_retry_policy_ok, decimal.
  rewrite !seq_Ok, bind_Ok, !validate_duration_Ok.
  setoid_rewrite validate_uint64_decimal_Ok. setoid_rewrite guard_Ok.
  setoid_rewrite (try_each_at_Ok _ text_fits); [|intros; apply bounded_text_Ok].
  setoid_rewrite Z.ltb_ge. naive_solver.
Qed.

Lemma validate_continuation_Ok c : validate_continuation c = Ok tt ↔ continuation_ok c.
Proof.
  unfold validate_continuation, continuation_ok. rewrite seq_Ok, try_some_Ok.
  setoid_rewrite validate_failure_Ok. apply and_iff_compat_r.
  pose proof (str_not_empty (ct_continued_from_execution_run_id c)) as He.
  destruct (str_is_empty _); simpl; [naive_solver|]. rewrite identifier_Ok. naive_solver.
Qed.

Lemma validate_durations_Ok l path :
  validate_durations l path = Ok tt ↔ Forall (if_some duration_ok) l.
Proof.
  unfold validate_durations. rewrite try_each_Ok. apply Forall_iff. intros o.
  apply try_some_if. intros d. apply validate_duration_Ok.
Qed.

Lemma validate_context_Ok c : validate_context c = Ok tt ↔ context_ok c.
Proof.
  unfold validate_context, context_ok. rewrite !seq_Ok.
  rewrite validate_keys_Ok, bounded_text_Ok, identifier_Ok, validate_durations_Ok.
  rewrite !(try_some_if _ keys_ok) by (intros; apply validate_keys_Ok).
  rewrite !(try_some_if _ timestamp_ok) by (intros; apply validate_timestamp_Ok).
  rewrite !(try_some_if _ duration_ok) by (intros; apply validate_duration_Ok).
  rewrite (try_some_if _ inbound_retry_policy_ok) by (intros; apply validate_inbound_retry_policy_Ok).
  rewrite (try_some_if _ continuation_ok) by apply validate_continuation_Ok.
  rewrite (try_some_if validate_parent (λ p, is_identifier (nwe_namespace p) ∧
    is_identifier (nwe_workflow_id p) ∧ is_identifier (nwe_run_id p)))
    by (intros; unfold validate_parent; by autorewrite with checks).
  rewrite (try_some_if validate_root (λ r, is_identifier (we_workflow_id r) ∧ is_identifier (we_run_id r)))
    by (intros; unfold validate_root; by autorewrite with checks).
  rewrite (try_some_if _ (λ p, str_len (wp_fairness_key p) ≤ 64)); [tauto|].
  intros p. unfold validate_inbound_priority. autorewrite with checks. naive_solver.
Qed.

Lemma validate_plain_job_Ok job :
  update_id_of job = None → validate_plain_job job = Ok tt ↔ job_ok job.
Proof.
  destruct job; intros Hj; try done; cbn [validate_plain_job job_ok]; autorewrite with checks;
    try tauto.
  - rewrite validate_decimal_text_Ok. setoid_rewrite validate_context_Ok. tauto.
  - destruct result; cbn [validate_activity_resolution]; autorewrite with checks; try tauto.
    by setoid_rewrite validate_timestamp_Ok.
  - destruct result; cbn [validate_child_start_resolution]; autorewrite with checks; tauto.
  - destruct result; cbn [validate_child_resolution]; autorewrite with checks; tauto.
  - destruct result; cbn [validate_external_resolution]; autorewrite with checks; tauto.
  - destruct result; cbn [validate_external_resolution]; autorewrite with checks; tauto.
  - rewrite bind_Ok. setoid_rewrite validate_uint64_decimal_Ok. unfold decimal. naive_solver.
Qed.

Lemma validate_do_update_Ok id pid name input headers meta run seen seen' :
  validate_do_update id pid name headers meta seen = Ok seen' ↔
  job_ok (DoUpdate id pid name input headers meta run) ∧ id ∉ seen.1 ∧ pid ∉ seen.2 ∧
  seen' = ({[id]} ∪ seen.1, {[pid]} ∪ seen.2).
Proof.
  unfold validate_do_update. cbn [job_ok]. autorewrite with checks.
  rewrite !bool_decide_eq_false, bool_decide_eq_true. split; [naive_solver|].
  intros ((? & ? & ? & Hid & ? & ?) & ? & ? & ->). subst id. tauto.
Qed.

Lemma NoDup_omap_cons_None {A B} (f : A → option B) x l :
  f x = None → omap f (x :: l) = omap f l.
Proof. intros Hx. cbn. by rewrite Hx. Qed.

(** The two sets hold the identifiers of the jobs already visited. *)
Lemma validate_jobs_Ok jobs seen :
  validate_jobs jobs seen = Ok tt ↔
  Forall job_ok jobs ∧
  (NoDup (omap update_id_of jobs) ∧ ∀ id, id ∈ omap update_id_of jobs → id ∉ seen.1) ∧
  (NoDup (omap update_protocol_id_of jobs) ∧
    ∀ id, id ∈ omap update_protocol_id_of jobs → id ∉ seen.2).
Proof.
  revert seen. induction jobs as [|job jobs IH]; intros seen; cbn [validate_jobs].
  { split; [intros _|done]. repeat split; try constructor; by intros ? ?%elem_of_nil. }
  rewrite bind_Ok, Forall_cons. destruct (update_id_of job) as [id|] eqn:Hid.
  - destruct job as [| | | | | | | |id' pid name input headers meta run| | | | | ]; try done.
    injection Hid as ->. cbn [validate_job].
    setoid_rewrite (validate_do_update_Ok id pid name input headers meta run).
    cbn [omap list_omap update_id_of update_protocol_id_of]. rewrite !NoDup_cons.
    split.
    + intros (seen' & (Hok & Hi & Hp & ->) & (Hj & [Hu1 Hu2] & [Hp1 Hp2])%IH). simpl in *.
      set_solver.
    + intros ((Hok & Hj) & ((Hu & Hu1) & Hu2) & ((Hp & Hp1) & Hp2)).
      exists ({[id]} ∪ seen.1, {[pid]} ∪ seen.2). rewrite IH. simpl. set_solver.
  - assert (update_protocol_id_of job = None) as Hpid by (by destruct job).
    rewrite !NoDup_omap_cons_None by done.
    assert (∀ s, validate_job job seen = Ok s ↔ job_ok job ∧ s = seen) as Hjob.
    { intros s. rewrite <-(validate_plain_job_Ok job Hid).
      destruct job; try done; cbn [validate_job]; rewrite seq_Ok; naive_solver. }
    setoid_rewrite Hjob. setoid_rewrite IH. naive_solver.
Qed.

Lemma validate_query_ids_Ok jobs seen :
  validate_query_ids jobs seen = Ok tt ↔
  NoDup (omap query_id_of jobs) ∧ ∀ id, id ∈ omap query_id_of jobs → id ∉ seen.
Proof.
  revert seen. induction jobs as [|job jobs IH]; intros seen; cbn [validate_query_ids].
  { split; [intros _|done]. split; [constructor|]. by intros ? ?%elem_of_nil. }
  destruct job; try (rewrite NoDup_omap_cons_None by done; apply IH).
  cbn [omap list_omap query_id_of]. rewrite NoDup_cons.
  case_decide as Hin; [split; [done|]; set_solver|]. rewrite IH. set_solver.
Qed.

Lemma count_zero p jobs : count_jobs p jobs = 0%nat ↔ ∀ job, job ∈ jobs → p job = false.
Proof.
  unfold count_jobs. induction jobs as [|job jobs IH]; simpl; [set_solver|].
  destruct (p job) eqn:Hp; simpl.
  - split; [done|]. intros H. specialize (H job). rewrite Hp in H. set_solver.
  - rewrite IH. set_solver.
Qed.

Lemma count_cons p job jobs :
  count_jobs p (job :: jobs) = ((if p job then 1 else 0) + count_jobs p jobs)%nat.
Proof. unfold count_jobs. simpl. by destruct (p job). Qed.

Lemma count_le p jobs : (count_jobs p jobs ≤ length jobs)%nat.
Proof.
  induction jobs as [|job jobs IH]; [done|]. rewrite count_cons. simpl. destruct (p job); lia.
Qed.

Lemma count_all p jobs : count_jobs p jobs = length jobs ↔ ∀ job, job ∈ jobs → p job = true.
Proof.
  induction jobs as [|job jobs IH]; [set_solver|]. rewrite count_cons. simpl.
  pose proof (count_le p jobs). destruct (p job) eqn:Hp.
  - rewrite Nat.succ_inj_wd, IH. set_solver.
  - split; [lia|]. intros H'. specialize (H' job ltac:(set_solver)). congruence.
Qed.

Lemma count_pos p jobs :
  count_jobs p jobs ≠ 0%nat → ∃ job, job ∈ jobs ∧ p job = true.
Proof.
  induction jobs as [|a jobs IH]; [done|]. rewrite count_cons.
  destruct (p a) eqn:Ha; [intros _; exists a; set_solver|].
  intros (job & ? & ?)%IH. exists job. set_solver.
Qed.

Lemma validate_evictions_Ok jobs :
  validate_evictions jobs = Ok tt ↔
  ∀ job, job ∈ jobs → is_remove_from_cache job = true → jobs = [job].
Proof.
  unfold validate_evictions. cbv zeta. rewrite guard_Ok. split.
  - intros [H _] job Hj Hr. destruct jobs as [|a [|b rest]]; [set_solver|set_solver|].
    assert (count_jobs is_remove_from_cache (a :: b :: rest) ≠ 0%nat) as Hc.
    { rewrite count_zero. intros Hall. specialize (Hall job Hj). congruence. }
    apply Nat.eqb_neq in Hc. rewrite Hc in H. simpl in H. by rewrite orb_true_r in H.
  - intros H. split; [|done].
    destruct (count_jobs is_remove_from_cache jobs) as [|n] eqn:Hc; [done|].
    assert (∃ job, job ∈ jobs ∧ is_remove_from_cache job = true) as (job & Hj & Hr).
    { apply count_pos. lia. }
    rewrite (H job Hj Hr) in *. rewrite count_cons, Hr in Hc. injection Hc as <-. done.
Qed.

Lemma validate_initialize_first_Ok jobs :
  validate_initialize_first jobs = Ok tt ↔
  ∀ i job, jobs !! i = Some job → is_initialize job = true → i = 0%nat.
Proof.
  unfold validate_initialize_first. cbv zeta. rewrite guard_Ok.
  destruct jobs as [|first rest]; [by split|]. rewrite count_cons.
  trans (count_jobs is_initialize rest = 0%nat).
  { destruct (is_initialize first), (count_jobs is_initialize rest) as [|[|n]]; simpl; naive_solver. }
  rewrite count_zero. split.
  - intros H [|i] job Hi Hj; [done|]. simpl in Hi.
    rewrite (H job) in Hj; [done|]. by eapply list_elem_of_lookup_2.
  - intros H job [i Hi]%list_elem_of_lookup. apply not_true_iff_false. intros Hj.
    by specialize (H (S i) job Hi Hj).
Qed.

Lemma validate_queries_alone_Ok jobs :
  validate_queries_alone jobs = Ok tt ↔
  ∀ job job', job ∈ jobs → job' ∈ jobs → is_query job = is_query job'.
Proof.
  unfold validate_queries_alone. cbv zeta. rewrite guard_Ok.
  trans (count_jobs is_query jobs = 0%nat ∨ count_jobs is_query jobs = length jobs).
  { rewrite <-!Nat.eqb_eq. destruct (Nat.eqb _ 0), (Nat.eqb _ (length jobs)); simpl; naive_solver. }
  rewrite count_zero, count_all. split.
  - intros [H|H] job job' Hj Hj'; by rewrite !H.
  - intros H. destruct jobs as [|first rest]; [set_solver|].
    destruct (is_query first) eqn:Hq; [right|left]; intros job Hj; rewrite <-Hq; apply H; set_solver.
Qed.

Lemma validate_activation_timestamp_Ok a :
  validate_evictions (ac_jobs a) = Ok tt →
  validate_activation_timestamp a = Ok tt ↔
  match ac_timestamp a with
  | Some t => timestamp_ok t
  | None => ∃ message reason, ac_jobs a = [RemoveFromCache message reason]
  end.
Proof.
  intros Hev. unfold validate_activation_timestamp.
  destruct (ac_timestamp a) as [t|]; [apply validate_timestamp_Ok|].
  destruct (Nat.eqb _ 1) eqn:Hc; (split; [intros Hx|intros (m & r & Hj)]); try done.
  - apply Nat.eqb_eq in Hc. pose proof (proj1 (validate_evictions_Ok _) Hev) as Hall.
    destruct (count_pos is_remove_from_cache (ac_jobs a)) as (x & Hx1 & Hx2); [lia|].
    rewrite (Hall x Hx1 Hx2). destruct x; try done. eauto.
  - by rewrite Hj in Hc.
Qed.

Lemma validate_activation_metadata_Ok m : validate_activation_metadata m = Ok tt ↔ metadata_ok m.
Proof.
  unfold validate_activation_metadata, metadata_ok, decimal.
  rewrite !seq_Ok, validate_decimal_text_Ok, bounded_text_Ok.
  rewrite (try_some_if _ (λ d, text_fits (wdv_deployment_name d) ∧ is_identifier (wdv_build_id d)));
    [done|]. intros d. by autorewrite with checks.
Qed.

Lemma validate_activation_Ok a : validate_activation a = Ok tt ↔ activation_ok a.
Proof.
  unfold validate_activation, activation_ok. rewrite !seq_Ok, identifier_Ok.
  rewrite validate_initialize_first_Ok, validate_queries_alone_Ok, validate_query_ids_Ok.
  rewrite validate_jobs_Ok, (try_some_if _ metadata_ok) by apply validate_activation_metadata_Ok.
  rewrite <-validate_evictions_Ok. split.
  - intros (? & Hev & Ht%(validate_activation_timestamp_Ok a Hev) & ? & ? & [? _] & (? & [? _] & [? _]) & ?).
    done.
  - intros (? & Hev & Ht%(validate_activation_timestamp_Ok a Hev) & ? & ? & ? & ? & ? & ? & ?).
    split_and!; try done; set_solver.
Qed.

(** An activation is accepted exactly when its run identifier is valid, an
    eviction is its only job, a missing timestamp belongs to an eviction, a
    start is its first job, queries are not mixed with other jobs, query and
    update identifiers are distinct, and each job and the metadata are within
    the protocol's limits. *)
Theorem validate_activation_accepts a : validate_activation a = Ok tt ↔ activation_ok a.
Proof. apply validate_activation_Ok. Qed.
