(* ===== verification/CompletionChecks.v ===== *)
(** * Validation of completions

    [validate_completion] of src/rust/core-bridge/src/workflow_protocol.rs: the
    run and its task failure, then each command with the patch modes seen so
    far, then the phases of each update.  The theorem states what an accepted
    completion is without the maps the loops carry. *)

From S2P Require Import Prelude.
From S2P Require Import Text.
From S2P Require Import Protocol.
From S2P Require Import WorkflowTypes.
From S2P Require Import WorkflowChecks.
From S2P Require Import ActivationChecks.
Local Open Scope N_scope.
Local Open Scope bridge_scope.

(** ** Commands *)

Definition is_terminal (command : CompletionCommand) : bool :=
  match command with
  | CompleteWorkflow _ | FailWorkflow _ | ContinueAsNew _ _ | CancelWorkflow => true
  | _ => false
  end.

Definition command_priority (command : CompletionCommand) : option WorkflowPriority :=
  match command with
  | ScheduleActivity _ _ _ _ _ _ _ _ _ _ priority _ _ => priority
  | _ => None
  end.

Definition is_none {A} (o : option A) : bool := match o with None => true | Some _ => false end.

Definition validate_schedule_activity (activity_id activity_type task_queue : string)
    (schedule_to_close schedule_to_start start_to_close heartbeat : option Duration)
    (retry_policy : option RetryPolicy) (command : CompletionCommand) : result () ProtocolError :=
  let? _ := identifier activity_id "$.commands.activity_id" in
  let? _ := identifier activity_type "$.commands.activity_type" in
  let? _ := identifier task_queue "$.commands.task_queue" in
  if is_none schedule_to_close && is_none start_to_close then
    Err (invalid "$.commands" "activity requires schedule-to-close or start-to-close timeout")
  else
    let? _ := validate_close_timeout schedule_to_close "$.commands.schedule_to_close_timeout" in
    let? _ := validate_close_timeout start_to_close "$.commands.start_to_close_timeout" in
    let? _ :=
      validate_durations [schedule_to_close; schedule_to_start; start_to_close; heartbeat]
        "$.commands.timeout" in
    let? _ := try_some (λ p, validate_retry_policy p "$.commands.retry_policy") retry_policy in
    try_some (λ p, validate_priority p "$.commands.priority") (command_priority command).

Definition validate_schedule_local_activity (activity_id activity_type : string) (attempt : N)
    (original_schedule_time : option Timestamp)
    (schedule_to_close schedule_to_start start_to_close : option Duration)
    (retry_policy : option RetryPolicy) (local_retry_threshold : option Duration) :
    result () ProtocolError :=
  let? _ := identifier activity_id "$.commands.activity_id" in
  let? _ := identifier activity_type "$.commands.activity_type" in
  if attempt =? 0 then
    Err (invalid "$.commands.attempt" "local activity attempt must be positive")
  else if is_none schedule_to_close && is_none start_to_close then
    Err (invalid "$.commands"
      "local activity requires schedule-to-close or start-to-close timeout")
  else
    let? _ := validate_close_timeout schedule_to_close "$.commands.schedule_to_close_timeout" in
    let? _ := validate_close_timeout start_to_close "$.commands.start_to_close_timeout" in
    let? _ :=
      validate_durations [schedule_to_close; schedule_to_start; start_to_close; local_retry_threshold]
        "$.commands.timeout" in
    let? _ :=
      try_some (λ t, validate_timestamp t "$.commands.original_schedule_time")
        original_schedule_time in
    try_some (λ p, validate_retry_policy p "$.commands.retry_policy") retry_policy.

(** The check of one optional timeout of a child start. *)
Definition validate_child_timeout (path : string) (value : Duration) : result () ProtocolError :=
  let? _ := validate_duration value path in
  if negb (duration_lt (mkDuration 0 0) value) then Err (invalid path "timeout must be positive")
  else Ok tt.

Definition validate_child_timeouts (execution run task : option Duration) :
    result () ProtocolError :=
  let? _ := try_some (validate_child_timeout "$.commands.execution_timeout") execution in
  let? _ := try_some (validate_child_timeout "$.commands.run_timeout") run in
  let? _ := try_some (validate_child_timeout "$.commands.task_timeout") task in
  if match task with Some task => duration_lt (mkDuration 120 0) task | None => false end then
    Err (invalid "$.commands.task_timeout" "task timeout exceeds 120 seconds")
  else if match execution, run with
          | Some execution, Some run => duration_lt execution run
          | _, _ => false
          end
  then Err (invalid "$.commands.run_timeout" "run timeout exceeds execution timeout")
  else if match task, (match run with Some run => Some run | None => execution end) with
          | Some task, Some bound => duration_lt bound task
          | _, _ => false
          end
  then Err (invalid "$.commands.task_timeout" "task timeout exceeds the run (or execution) timeout")
  else Ok tt.

Definition validate_start_child (task_queue : option string) (workflow_id workflow_type : string)
    (retry_policy : option RetryPolicy) (execution run task : option Duration) :
    result () ProtocolError :=
  let? _ := identifier workflow_id "$.commands.workflow_id" in
  let? _ := identifier workflow_type "$.commands.workflow_type" in
  let? _ := try_some (λ q, identifier q "$.commands.task_queue") task_queue in
  let? _ := try_some (λ p, validate_retry_policy p "$.commands.retry_policy") retry_policy in
  validate_child_timeouts execution run task.

(** A run identifier that may be left out. *)
Definition validate_optional_run_id (run_id : string) : result () ProtocolError :=
  if negb (str_is_empty run_id) then identifier run_id "$.commands.run_id" else Ok tt.

Definition validate_signal_external (workflow_id run_id signal_name : string)
    (input : list Payload) (headers : gmap string Payload) : result () ProtocolError :=
  let? _ := identifier workflow_id "$.commands.workflow_id" in
  let? _ := validate_optional_run_id run_id in
  let? _ := identifier signal_name "$.commands.signal_name" in
  let? _ := try_each (λ payload, validate_failure_payloads [payload] "$.commands.input") input in
  try_each
    (λ entry : string * Payload,
      let? _ := identifier entry.1 "$.commands.headers" in
      validate_failure_payloads [entry.2] "$.commands.headers")
    (btree_iter headers).

(** A reason that is not empty and holds no NUL. *)
Definition validate_reason (reason : string) : result () ProtocolError :=
  if str_is_empty reason then Err (invalid "$.commands.reason" "reason must not be empty")
  else if contains_nul reason then
    Err (invalid "$.commands.reason" "reason must not contain NUL")
  else bounded_text reason "$.commands.reason".

Definition validate_request_cancel_external (workflow_id run_id reason : string) :
    result () ProtocolError :=
  let? _ := identifier workflow_id "$.commands.workflow_id" in
  let? _ := validate_optional_run_id run_id in
  validate_reason reason.

Definition validate_cancel_child (reason : string) : result () ProtocolError :=
  let? _ := validate_reason reason in
  if negb (utf8_valid reason) then Err (invalid "$.commands.reason" "reason must be valid UTF-8")
  else Ok tt.

Definition validate_query_result (query_id : string) (r : QueryResult) : result () ProtocolError :=
  let? _ := identifier query_id "$.commands.query_id" in
  match r with
  | Query_Succeeded _ => Ok tt
  | Query_Failed failure => validate_failure failure "$.commands.result.failure"
  end.

Definition validate_update_response (protocol_instance_id : string)
    (response : UpdateResponseResult) : result () ProtocolError :=
  let? _ := identifier protocol_instance_id "$.commands.protocol_instance_id" in
  match response with
  | Update_Accepted => Ok tt
  | Update_Rejected failure => validate_failure failure "$.commands.response.failure"
  | Update_Completed payload =>
      if MAX_PAYLOAD_BYTES <? bytes_len (payload_data payload) then
        Err (invalid "$.commands.response.payload" "payload exceeds the byte limit")
      else Ok tt
  end.

(** [payload.metadata.values().any(..)] and the data. *)
Definition payload_exceeds (payload : Payload) : bool :=
  (MAX_PAYLOAD_BYTES <? bytes_len (payload_data payload)) ||
  existsb (λ entry : string * list byte, MAX_PAYLOAD_BYTES <? bytes_len entry.2)
    (btree_iter (payload_metadata payload)).

Definition validate_upsert (search_attributes : gmap string Payload) : result () ProtocolError :=
  try_each
    (λ entry : string * Payload,
      let? _ := identifier entry.1 "$.commands.search_attributes" in
      if payload_exceeds entry.2 then
        Err (invalid "$.commands.search_attributes" "payload exceeds the byte limit")
      else Ok tt)
    (btree_iter search_attributes).

(** The commands that leave the patch modes alone. *)
Definition validate_command (command : CompletionCommand) : result () ProtocolError :=
  match command with
  | ScheduleActivity _ activity_id activity_type task_queue _ schedule_to_close schedule_to_start
      start_to_close heartbeat retry_policy _ _ _ =>
      validate_schedule_activity activity_id activity_type task_queue schedule_to_close
        schedule_to_start start_to_close heartbeat retry_policy command
  | ScheduleLocalActivity _ activity_id activity_type attempt original_schedule_time _
      schedule_to_close schedule_to_start start_to_close retry_policy local_retry_threshold _ =>
      validate_schedule_local_activity activity_id activity_type attempt original_schedule_time
        schedule_to_close schedule_to_start start_to_close retry_policy local_retry_threshold
  | StartChildWorkflow _ task_queue _ workflow_id workflow_type _ retry_policy _ execution run
      task _ =>
      validate_start_child task_queue workflow_id workflow_type retry_policy execution run task
  | SignalExternalWorkflow _ workflow_id run_id signal_name input _ headers =>
      validate_signal_external workflow_id run_id signal_name input headers
  | RequestCancelExternalWorkflow _ workflow_id run_id reason =>
      validate_request_cancel_external workflow_id run_id reason
  | CancelChildWorkflow _ reason => validate_cancel_child reason
  | RequestCancelActivity _ | RequestCancelLocalActivity _ => Ok tt
  | ContinueAsNew workflow_type _ => identifier workflow_type "$.commands.workflow_type"
  | StartTimer _ start_to_fire_timeout =>
      validate_duration start_to_fire_timeout "$.commands.start_to_fire_timeout"
  | FailWorkflow failure => validate_failure failure "$.commands.failure"
  | QueryResultCommand query_id result => validate_query_result query_id result
  | UpdateResponse protocol_instance_id response =>
      validate_update_response protocol_instance_id response
  | SetPatchMarker patch_id _ => identifier patch_id "$.commands.patch_id"
  | UpsertSearchAttributes search_attributes => validate_upsert search_attributes
  | CancelTimer _ | CompleteWorkflow _ | CancelWorkflow => Ok tt
  end.

(** [patch_modes.insert(patch_id, deprecated)] and its conflict. *)
Definition record_patch_mode (command : CompletionCommand) (patch_modes : gmap string bool) :
    result (gmap string bool) ProtocolError :=
  match command with
  | SetPatchMarker patch_id deprecated =>
      if match patch_modes !! patch_id with
         | Some existing => negb (eqb existing deprecated)
         | None => false
         end
      then
        Err (invalid "$.commands.patch_id"
          "one patch ID cannot use both active and deprecated marker modes")
      else Ok (<[patch_id := deprecated]> patch_modes)
  | _ => Ok patch_modes
  end.

Fixpoint validate_commands (total index : N) (commands : list CompletionCommand)
    (patch_modes : gmap string bool) : result () ProtocolError :=
  match commands with
  | [] => Ok tt
  | command :: commands =>
      if is_terminal command && negb (index + 1 =? total) then
        Err (invalid "$.commands" "terminal workflow command must be last")
      else
        let? _ := validate_command command in
        let? patch_modes := record_patch_mode command patch_modes in
        validate_commands total (index + 1) commands patch_modes
  end.

(** ** Update phases *)

Definition advance_phases (response : UpdateResponseResult) (phases : bool * bool) :
    result (bool * bool) ProtocolError :=
  let path := "$.commands.protocol_instance_id" in
  match response with
  | Update_Accepted =>
      if phases.1 || phases.2 then
        Err (invalid path "update acceptance must be the first response and may appear once")
      else Ok (true, phases.2)
  | Update_Rejected _ =>
      if phases.2 then
        Err (invalid path "update rejection may appear once and must be terminal")
      else Ok (phases.1, true)
  | Update_Completed _ =>
      if phases.2 then Err (invalid path "update completion may appear once")
      else Ok (phases.1, true)
  end.

Fixpoint validate_update_phases (commands : list CompletionCommand)
    (update_phases : gmap string (bool * bool)) : result () ProtocolError :=
  match commands with
  | [] => Ok tt
  | UpdateResponse protocol_instance_id response :: commands =>
      let phases := default (false, false) (update_phases !! protocol_instance_id) in
      let? phases := advance_phases response phases in
      validate_update_phases commands (<[protocol_instance_id := phases]> update_phases)
  | _ :: commands => validate_update_phases commands update_phases
  end.

(** ** The completion *)

Definition validate_completion (value : Completion) : result () ProtocolError :=
  let? _ := identifier (cp_run_id value) "$.run_id" in
  if negb (is_none (cp_task_failure value)) && negb (is_none (cp_versioning_behavior value)) then
    Err (invalid "$.versioning_behavior" "a failed workflow task cannot carry a versioning behavior")
  else
    let? _ :=
      try_some
        (λ failure,
          if negb (Nat.eqb (length (cp_commands value)) 0) then
            Err (invalid "$.commands" "failed workflow task cannot contain commands")
          else validate_failure failure "$.task_failure")
        (cp_task_failure value) in
    let? _ :=
      validate_commands (N.of_nat (length (cp_commands value))) 0 (cp_commands value) ∅ in
    validate_update_phases (cp_commands value) ∅.

(** ** Accepted completions *)

(** Some close timeout is given, and neither is zero. *)
Definition close_timeouts_ok (schedule_to_close start_to_close : option Duration) : Prop :=
  (is_Some schedule_to_close ∨ is_Some start_to_close) ∧
  if_some (λ d, duration_is_zero d = false) schedule_to_close ∧
  if_some (λ d, duration_is_zero d = false) start_to_close.

(** Each timeout of a child start is positive, the task timeout is at most two
    minutes, and task, run and execution are in order. *)
Definition child_timeouts_ok (execution run task : option Duration) : Prop :=
  Forall (if_some (λ d, duration_ok d ∧ 0 < duration_nanos d)%Z) [execution; run; task] ∧
  if_some (λ t, duration_nanos t ≤ 120 * 1000000000)%Z task ∧
  (∀ e r, execution = Some e → run = Some r → duration_nanos r ≤ duration_nanos e)%Z ∧
  (∀ t r, task = Some t → run = Some r → duration_nanos t ≤ duration_nanos r)%Z ∧
  (∀ t e, task = Some t → run = None → execution = Some e → duration_nanos t ≤ duration_nanos e)%Z.

Definition reason_ok (reason : string) : Prop :=
  reason ≠ "" ∧ contains_nul reason = false ∧ text_fits reason.

Definition values_fit (p : Payload) : Prop :=
  bytes_len (payload_data p) ≤ MAX_PAYLOAD_BYTES ∧
  map_Forall (λ _ value, bytes_len value ≤ MAX_PAYLOAD_BYTES) (payload_metadata p).

Definition command_ok (command : CompletionCommand) : Prop :=
  match command with
  | ScheduleActivity _ activity_id activity_type task_queue _ schedule_to_close schedule_to_start
      start_to_close heartbeat retry_policy priority _ _ =>
      is_identifier activity_id ∧ is_identifier activity_type ∧ is_identifier task_queue ∧
      close_timeouts_ok schedule_to_close start_to_close ∧
      Forall (if_some duration_ok) [schedule_to_close; schedule_to_start; start_to_close; heartbeat] ∧
      if_some retry_policy_ok retry_policy ∧ if_some priority_ok priority
  | ScheduleLocalActivity _ activity_id activity_type attempt time _ schedule_to_close
      schedule_to_start start_to_close retry_policy threshold _ =>
      is_identifier activity_id ∧ is_identifier activity_type ∧ attempt ≠ 0 ∧
      close_timeouts_ok schedule_to_close start_to_close ∧
      Forall (if_some duration_ok) [schedule_to_close; schedule_to_start; start_to_close; threshold] ∧
      if_some timestamp_ok time ∧ if_some retry_policy_ok retry_policy
  | StartChildWorkflow _ task_queue _ workflow_id workflow_type _ retry_policy _ execution run
      task _ =>
      is_identifier workflow_id ∧ is_identifier workflow_type ∧ if_some is_identifier task_queue ∧
      if_some retry_policy_ok retry_policy ∧ child_timeouts_ok execution run task
  | CancelChildWorkflow _ reason => reason_ok reason ∧ utf8_valid reason = true
  | SignalExternalWorkflow _ workflow_id run_id signal_name input _ headers =>
      is_identifier workflow_id ∧ (run_id ≠ "" → is_identifier run_id) ∧
      is_identifier signal_name ∧ Forall payload_fits input ∧
      map_Forall (λ key payload, is_identifier key ∧ payload_fits payload) headers
  | RequestCancelExternalWorkflow _ workflow_id run_id reason =>
      is_identifier workflow_id ∧ (run_id ≠ "" → is_identifier run_id) ∧ reason_ok reason
  | StartTimer _ timeout => duration_ok timeout
  | FailWorkflow failure => failure_fits failure
  | ContinueAsNew workflow_type _ => is_identifier workflow_type
  | QueryResultCommand query_id (Query_Succeeded _) => is_identifier query_id
  | QueryResultCommand query_id (Query_Failed failure) =>
      is_identifier query_id ∧ failure_fits failure
  | UpdateResponse id Update_Accepted => is_identifier id
  | UpdateResponse id (Update_Rejected failure) => is_identifier id ∧ failure_fits failure
  | UpdateResponse id (Update_Completed payload) =>
      is_identifier id ∧ bytes_len (payload_data payload) ≤ MAX_PAYLOAD_BYTES
  | SetPatchMarker patch_id _ => is_identifier patch_id
  | UpsertSearchAttributes attributes =>
      map_Forall (λ key payload, is_identifier key ∧ values_fit payload) attributes
  | RequestCancelActivity _ | RequestCancelLocalActivity _ | CancelTimer _ | CompleteWorkflow _
  | CancelWorkflow => True
  end.

(** The responses of one update, in order. *)
Definition responses_of (id : string) (commands : list CompletionCommand) :
    list UpdateResponseResult :=
  omap (λ command,
    match command with
    | UpdateResponse id' response => if decide (id' = id) then Some response else None
    | _ => None
    end) commands.

Definition is_accepted (r : UpdateResponseResult) : bool :=
  match r with Update_Accepted => true | _ => false end.

(** At most an acceptance and then at most one outcome. *)
Definition phases_ok (responses : list UpdateResponseResult) : Prop :=
  match responses with
  | [] | [_] => True
  | [first; second] => is_accepted first = true ∧ is_accepted second = false
  | _ => False
  end.

Definition completion_ok (c : Completion) : Prop :=
  is_identifier (cp_run_id c) ∧
  if_some (λ f, cp_versioning_behavior c = None ∧ cp_commands c = [] ∧ failure_fits f)
    (cp_task_failure c) ∧
  (∀ i command, cp_commands c !! i = Some command → is_terminal command = true →
    S i = length (cp_commands c)) ∧
  Forall command_ok (cp_commands c) ∧
  (∀ id mode mode', SetPatchMarker id mode ∈ cp_commands c →
    SetPatchMarker id mode' ∈ cp_commands c → mode = mode') ∧
  ∀ id, phases_ok (responses_of id (cp_commands c)).

(** Weights are 32-bit patterns. *)
Definition weights_u32 (c : Completion) : Prop :=
  Forall (λ command, if_some (λ p, wp_fairness_weight_bits p < 2 ^ 32) (command_priority command))
    (cp_commands c).

(** ** What each check accepts *)

Lemma if_some_mono {A} (P Q : A → Prop) o : (∀ a, P a → Q a) → if_some P o → if_some Q o.
Proof. unfold if_some. eauto. Qed.

Lemma validate_close_timeout_Ok o path :
  validate_close_timeout o path = Ok tt ↔ if_some (λ d, duration_is_zero d = false) o.
Proof.
  destruct o as [d|]; simpl; [|by split]. rewrite guard_Ok. unfold if_some. naive_solver.
Qed.

Lemma is_none_both {A B} (a : option A) (b : option B) :
  is_none a && is_none b = false ↔ is_Some a ∨ is_Some b.
Proof. destruct a, b; simpl; rewrite ?is_Some_alt; naive_solver. Qed.

Lemma duration_zero_lt d :
  duration_ok d → negb (duration_lt (mkDuration 0 0) d) = false ↔ (0 < duration_nanos d)%Z.
Proof.
  intros Hd. rewrite negb_false_iff, duration_lt_nanos; [done| |done].
  unfold duration_ok, time_ok, MAX_DURATION_SECONDS. simpl. lia.
Qed.

Lemma validate_child_timeout_Ok path d :
  validate_child_timeout path d = Ok tt ↔ duration_ok d ∧ (0 < duration_nanos d)%Z.
Proof.
  unfold validate_child_timeout. rewrite seq_Ok, guard_Ok, validate_duration_Ok.
  split; [intros (Hd & Hz & _)|intros (Hd & Hz)]; split_and!; try done; by apply duration_zero_lt.
Qed.

Lemma duration_not_lt a b :
  duration_ok a → duration_ok b → duration_lt a b = false ↔ (duration_nanos b ≤ duration_nanos a)%Z.
Proof.
  intros Ha Hb. rewrite <-not_true_iff_false, duration_lt_nanos by done. lia.
Qed.

Lemma two_minutes_ok : duration_ok (mkDuration 120 0).
Proof. unfold duration_ok, time_ok, MAX_DURATION_SECONDS. simpl. lia. Qed.

Lemma validate_child_timeouts_Ok execution run task :
  validate_child_timeouts execution run task = Ok tt ↔ child_timeouts_ok execution run task.
Proof.
  unfold validate_child_timeouts, child_timeouts_ok.
  rewrite !seq_Ok, !(try_some_if _ _ _ (validate_child_timeout_Ok _)), !guard_Ok.
  rewrite !Forall_cons, Forall_nil.
  destruct execution as [e|], run as [r|], task as [t|]; unfold if_some;
    (split; [intros (He & Hr & Ht & H1 & H2 & H3 & _)|intros ((He & Hr & Ht & _) & H1 & H2 & H3 & H4)]);
    try (destruct (He _ eq_refl) as [? ?]); try (destruct (Hr _ eq_refl) as [? ?]);
    try (destruct (Ht _ eq_refl) as [? ?]);
    rewrite ?duration_not_lt in * by (done || apply two_minutes_ok);
    split_and!; try done; intros; simplify_eq; try naive_solver;
    rewrite ?duration_not_lt in * by (done || apply two_minutes_ok); naive_solver.
Qed.

Lemma validate_optional_run_id_Ok run_id :
  validate_optional_run_id run_id = Ok tt ↔ (run_id ≠ "" → is_identifier run_id).
Proof.
  unfold validate_optional_run_id. pose proof (str_not_empty run_id) as He.
  destruct (str_is_empty run_id); simpl; [naive_solver|]. rewrite identifier_Ok. naive_solver.
Qed.

Lemma validate_reason_Ok reason : validate_reason reason = Ok tt ↔ reason_ok reason.
Proof. unfold validate_reason, reason_ok. autorewrite with checks. naive_solver. Qed.

Lemma payload_exceeds_spec p : payload_exceeds p = false ↔ values_fit p.
Proof.
  unfold payload_exceeds, values_fit. rewrite orb_false_iff, N.ltb_ge. apply and_iff_compat_l.
  pose proof (Forall_btree_iter (λ e : string * list byte, bytes_len e.2 ≤ MAX_PAYLOAD_BYTES)
    (payload_metadata p)) as H. simpl in H. rewrite <-H. clear H.
  induction (btree_iter (payload_metadata p)) as [|e l IH]; simpl; [by split|].
  rewrite orb_false_iff, N.ltb_ge, IH, Forall_cons. done.
Qed.

#[export] Hint Rewrite validate_close_timeout_Ok @is_none_both validate_child_timeouts_Ok
  validate_optional_run_id_Ok validate_reason_Ok payload_exceeds_spec validate_durations_Ok
  @Forall_cons @Forall_nil : checks.

Lemma validate_command_Ok command :
  if_some (λ p, wp_fairness_weight_bits p < 2 ^ 32) (command_priority command) →
  validate_command command = Ok tt ↔ command_ok command.
Proof.
  intros Hw. destruct command; cbn [validate_command command_ok]; try by autorewrite with checks.
  - unfold validate_schedule_activity. cbn [command_priority] in *.
    open_checks. rewrite (try_some_if _ retry_policy_ok) by (intros; apply validate_retry_policy_Ok).
    assert (try_some (λ p, validate_priority p "$.commands.priority") priority = Ok tt ↔
      if_some priority_ok priority) as ->.
    { rewrite try_some_Ok. unfold if_some. split; intros H a Ha; specialize (H a Ha);
        by apply (validate_priority_Ok a "$.commands.priority" (Hw a Ha)). }
    unfold close_timeouts_ok. autorewrite with checks. tauto.
  - unfold validate_schedule_local_activity.
    open_checks. rewrite (try_some_if _ retry_policy_ok) by (intros; apply validate_retry_policy_Ok).
    rewrite (try_some_if _ timestamp_ok) by (intros; apply validate_timestamp_Ok).
    unfold close_timeouts_ok. autorewrite with checks. tauto.
  - unfold validate_start_child.
    open_checks. rewrite (try_some_if _ retry_policy_ok) by (intros; apply validate_retry_policy_Ok).
    rewrite (try_some_if _ is_identifier) by (intros; apply identifier_Ok).
    autorewrite with checks. tauto.
  - unfold validate_cancel_child. autorewrite with checks. tauto.
  - unfold validate_signal_external. autorewrite with checks.
    do 3 apply and_iff_compat_l. f_equiv.
    + apply Forall_iff. intros p. autorewrite with checks. tauto.
    + unfold map_Forall. split; intros H k v Hkv; specialize (H k v Hkv); simpl in *;
        autorewrite with checks in *; naive_solver.
  - unfold validate_request_cancel_external. autorewrite with checks. tauto.
  - unfold validate_query_result. destruct result; autorewrite with checks; tauto.
  - unfold validate_update_response. destruct response; autorewrite with checks; tauto.
  - unfold validate_upsert, map_Forall. autorewrite with checks. unfold map_Forall.
    split; intros H k v Hkv; specialize (H k v Hkv); simpl in *;
      autorewrite with checks in *; naive_solver.
Qed.

(** ** The loops *)

(** The patch markers of the commands agree with [modes] and with each other. *)
Definition markers_agree (modes : gmap string bool) (commands : list CompletionCommand) : Prop :=
  (∀ id mode mode', SetPatchMarker id mode ∈ commands → modes !! id = Some mode' → mode = mode') ∧
  (∀ id mode mode', SetPatchMarker id mode ∈ commands → SetPatchMarker id mode' ∈ commands →
    mode = mode').

Lemma record_patch_mode_plain command modes :
  (∀ id mode, command ≠ SetPatchMarker id mode) → record_patch_mode command modes = Ok modes.
Proof. by destruct command; intros H; try (edestruct H; done). Qed.

Lemma markers_agree_cons id mode modes commands :
  markers_agree modes (SetPatchMarker id mode :: commands) ↔
  (∀ mode', modes !! id = Some mode' → mode = mode') ∧
  markers_agree (<[id := mode]> modes) commands.
Proof.
  unfold markers_agree. setoid_rewrite elem_of_cons. setoid_rewrite lookup_insert_Some. split.
  - intros [H1 H2]. split; [naive_solver|]. split; [|naive_solver].
    intros id' m m' Hm [[<- <-]|[? ?]]; [|naive_solver]. symmetry. naive_solver.
  - intros [H1 [H2 H3]]. split.
    + intros id' m m' [Heq|Hm] Hl; [naive_solver|]. destruct (decide (id = id')) as [<-|Hne].
      * rewrite (H2 id m mode Hm) by auto. naive_solver.
      * naive_solver.
    + intros id' m m' [Heq|Hm] [Heq'|Hm']; simplify_eq; [done| | |naive_solver].
      * symmetry. naive_solver.
      * naive_solver.
Qed.

Lemma markers_agree_other command modes commands :
  (∀ id mode, command ≠ SetPatchMarker id mode) →
  markers_agree modes (command :: commands) ↔ markers_agree modes commands.
Proof. intros Hc. unfold markers_agree. setoid_rewrite elem_of_cons. naive_solver. Qed.

Lemma markers_agree_step command modes commands :
  (∃ modes', record_patch_mode command modes = Ok modes' ∧ markers_agree modes' commands) ↔
  markers_agree modes (command :: commands).
Proof.
  assert ((∃ id mode, command = SetPatchMarker id mode) ∨
    ∀ id mode, command ≠ SetPatchMarker id mode) as [(id & mode & ->)|Hc]
    by (destruct command; eauto; by right).
  - rewrite markers_agree_cons. cbn [record_patch_mode].
    destruct (modes !! id) as [old|] eqn:Hold; [|naive_solver].
    destruct (eqb old mode) eqn:Heq; simpl; [apply eqb_prop in Heq as ->; naive_solver|].
    apply eqb_false_iff in Heq. naive_solver.
  - rewrite markers_agree_other, record_patch_mode_plain by done.
    naive_solver.
Qed.

Lemma validate_commands_Ok total index commands modes :
  validate_commands total index commands modes = Ok tt ↔
  (∀ i command, commands !! i = Some command → is_terminal command = true →
    index + N.of_nat i + 1 = total) ∧
  Forall (λ command, validate_command command = Ok tt) commands ∧ markers_agree modes commands.
Proof.
  revert index modes. induction commands as [|command commands IH]; intros index modes;
    cbn [validate_commands].
  { split; [intros _|done]. split_and!; [done|constructor|]. split; set_solver. }
  rewrite guard_Ok, seq_Ok, bind_Ok, Forall_cons. setoid_rewrite IH.
  rewrite <-markers_agree_step. split.
  - intros (Ht & Hv & modes' & Hr & Hi & Hf & Ha). split; [|naive_solver].
    intros [|i] c Hc Htc; simpl in Hc; [|rewrite <-(Hi i c Hc Htc); lia].
    injection Hc as ->. rewrite Htc in Ht. apply negb_false_iff, N.eqb_eq in Ht. lia.
  - intros (Hi & [Hv Hf] & modes' & Hr & Ha). split; [|split; [done|]].
    + destruct (is_terminal command) eqn:Htc; [|done]. simpl.
      rewrite negb_false_iff, N.eqb_eq. rewrite <-(Hi 0%nat command eq_refl Htc). lia.
    + exists modes'. split_and!; [done| |done|done].
      intros i c Hc Htc. rewrite <-(Hi (S i) c Hc Htc). lia.
Qed.

(** ** Phases *)

Fixpoint phases_run (phases : bool * bool) (responses : list UpdateResponseResult) : Prop :=
  match responses with
  | [] => True
  | response :: responses =>
      ∃ phases', advance_phases response phases = Ok phases' ∧ phases_run phases' responses
  end.

Lemma phases_run_done accepted responses : phases_run (accepted, true) responses ↔ responses = [].
Proof.
  destruct responses as [|r responses]; simpl; [by split|].
  split; [|done]. intros (? & H & _). destruct r; simpl in H; by rewrite ?orb_true_r in H.
Qed.

Lemma phases_run_accepted responses :
  phases_run (true, false) responses ↔
  responses = [] ∨ ∃ r, responses = [r] ∧ is_accepted r = false.
Proof.
  destruct responses as [|r responses]; simpl; [naive_solver|]. split.
  - intros (ph & H & Hr). destruct r; simpl in H; try done; simplify_eq;
      apply phases_run_done in Hr as ->; eauto.
  - intros [|(r' & Heq & Ha)]; [done|]. simplify_eq.
    destruct r'; try done; (eexists; split; [reflexivity|done]).
Qed.

Lemma phases_run_initial responses : phases_run (false, false) responses ↔ phases_ok responses.
Proof.
  destruct responses as [|r rest]; [by split|]. cbn [phases_run]. split.
  - intros (ph & H & Hr). destruct r; simpl in H; simplify_eq;
      [apply phases_run_accepted in Hr|apply phases_run_done in Hr as ->; done..].
    destruct Hr as [->|(r & -> & ?)]; done.
  - intros Hok. destruct rest as [|second [|third rest]]; [| |done].
    + destruct r; eexists; (split; [reflexivity|done]).
    + destruct Hok as [Hf Hs], r; try done. eexists. split; [reflexivity|].
      apply phases_run_accepted. eauto.
Qed.

Lemma validate_update_phases_Ok commands phases :
  validate_update_phases commands phases = Ok tt ↔
  ∀ id, phases_run (default (false, false) (phases !! id)) (responses_of id commands).
Proof.
  revert phases. induction commands as [|command commands IH]; intros phases; [done|].
  destruct command; cbn [validate_update_phases]; try apply IH.
  rewrite bind_Ok. setoid_rewrite IH. unfold responses_of. cbn [omap list_omap].
  set (rs := λ id, omap (λ command, match command with
    | UpdateResponse id' response => if decide (id' = id) then Some response else None
    | _ => None end) commands). split.
  - intros (ph & Hph & H) id. specialize (H id). fold (rs id) in *.
    destruct (decide (protocol_instance_id = id)) as [<-|Hne].
    + rewrite lookup_insert_eq in H. simpl. exists ph. by split.
    + by rewrite lookup_insert_ne in H.
  - intros H. pose proof (H protocol_instance_id) as Hid. rewrite decide_True in Hid by done.
    destruct Hid as (ph & Hph & Hrun). exists ph. split; [done|]. intros id. specialize (H id).
    destruct (decide (protocol_instance_id = id)) as [<-|Hne]; [by rewrite lookup_insert_eq|].
    by rewrite lookup_insert_ne.
Qed.

Lemma validate_completion_Ok c :
  weights_u32 c → validate_completion c = Ok tt ↔ completion_ok c.
Proof.
  intros Hw. unfold validate_completion, completion_ok.
  rewrite seq_Ok, guard_Ok, !seq_Ok, identifier_Ok, try_some_Ok.
  rewrite validate_commands_Ok, validate_update_phases_Ok.
  assert (Forall (λ command, validate_command command = Ok tt) (cp_commands c) ↔
    Forall command_ok (cp_commands c)) as ->.
  { unfold weights_u32 in Hw. rewrite !Forall_forall in *.
    split; intros H x Hx; specialize (Hw x Hx); specialize (H x Hx);
      by apply (validate_command_Ok x Hw). }
  setoid_rewrite lookup_empty. simpl. setoid_rewrite phases_run_initial.
  setoid_rewrite guard_Ok. setoid_rewrite validate_failure_Ok. unfold markers_agree.
  setoid_rewrite lookup_empty. unfold if_some.
  destruct (cp_task_failure c) as [f|], (cp_versioning_behavior c) as [b|], (cp_commands c) as [|x l] eqn:Hcs;
    simpl; split; try naive_solver lia.
Qed.

(** A completion is accepted exactly when its run identifier is valid, a
    failed task has no commands and no versioning behavior, a terminal command
    is the last one, the markers of a patch agree on its mode, each update is
    answered by at most an acceptance followed by at most one outcome, and each
    command is within the protocol's limits. *)
Theorem validate_completion_accepts c :
  weights_u32 c → validate_completion c = Ok tt ↔ completion_ok c.
Proof. apply validate_completion_Ok. Qed.
