(* ===== verification/Documents.v ===== *)
(** * Semantic documents as text

    The way of a typed document to JSON text and back: [to_serde], [from_serde],
    [semantic_from_value] and [encode_semantic] of
    src/rust/core-bridge/src/protocol.rs and the readers and writers of
    activations and completions in workflow_protocol.rs.  The derived
    serializer and deserializer of a document type are the class [Serde].  The
    theorem: a document that was written is read back as itself. *)

From S2P Require Import Prelude.
From S2P Require Import Text.
From S2P Require Import Protocol.
From S2P Require Import ProtocolTrees.
From S2P Require Import ProtocolText.
From S2P Require Import ProtocolCanonical.
From S2P Require Import ProtocolCodec.
From S2P Require Import WorkflowTypes.
From S2P Require Import WorkflowChecks.
From S2P Require Import ActivationChecks.
From S2P Require Import CompletionChecks.
Local Open Scope N_scope.
Local Open Scope bridge_scope.

(** ** serde_json's values *)

Inductive Number :=
| PosInt (value : N)
| NegInt (value : Z)
| Float.

#[local] Unset Elimination Schemes.

(** [serde_json::Value]; a map holds its entries in key order. *)
Inductive Value :=
| VNull
| VBool (value : bool)
| VNumber (value : Number)
| VString (value : string)
| VArray (values : list Value)
| VObject (entries : list (string * Value)).

#[local] Set Elimination Schemes.

(** [i64::into] and [u64::into]. *)
Definition number_of_i64 (value : Z) : Number :=
  if (value <? 0)%Z then NegInt value else PosInt (Z.to_N value).

Definition as_i64 (value : Number) : option Z :=
  match value with
  | PosInt n => if n <=? I64_MAX then Some (Z.of_N n) else None
  | NegInt z => Some z
  | Float => None
  end.

Definition as_u64 (value : Number) : option N :=
  match value with PosInt n => Some n | _ => None end.

(** The [Serialize] and [Deserialize] of a document type, through
    [serde_json::to_value] and [serde_json::from_value]. *)
Class Serde (A : Type) := {
  to_value : A → option Value;
  from_value : Value → option A
}.

(** ** Between the two trees *)

Fixpoint to_serde (value : JsonValue) : Value :=
  match value with
  | JNull => VNull
  | JBool value => VBool value
  | JSigned value => VNumber (number_of_i64 value)
  | JUnsigned value => VNumber (PosInt value)
  | JString value => VString value
  | JArray values => VArray (map to_serde values)
  | JObject entries =>
      VObject (btree_iter (list_to_map (reverse (map (λ e, (e.1, to_serde e.2)) entries))))
  end.

Fixpoint from_serde (value : Value) : result JsonValue ProtocolError :=
  match value with
  | VNull => Ok JNull
  | VBool value => Ok (JBool value)
  | VNumber value =>
      match as_i64 value with
      | Some value => Ok (JSigned value)
      | None =>
          match as_u64 value with
          | Some value => Ok (JUnsigned value)
          | None => Err (invalid "$" "non-integral number in semantic output")
          end
      end
  | VString value => Ok (JString value)
  | VArray values =>
      let? values := try_map from_serde values in
      Ok (JArray values)
  | VObject entries =>
      let? entries :=
        try_map (λ e : string * Value, let? value := from_serde e.2 in Ok (e.1, value)) entries in
      Ok (JObject entries)
  end.

Section Codec.
Context `{SerdeJson} `{Base64}.

Definition semantic_from_value {A} `{Serde A} (value : JsonValue) (message : string) :
    result A ProtocolError :=
  ok_or (from_value (to_serde value)) (invalid "$" message).

Definition encode_semantic {A} `{Serde A} (value : A) (unencodable : string) :
    result string ProtocolError :=
  let? json := ok_or (to_value value) (invalid "$" unencodable) in
  let? tree := from_serde json in
  encode_payload_object tree.

(** The shape of the readers and writers of documents. *)
Definition decode_document {A} `{Serde A} (validate : A → result () ProtocolError)
    (message input : string) : result A ProtocolError :=
  let? value := decode_payload_object input in
  let? document := semantic_from_value value message in
  let? _ := validate document in
  Ok document.

Definition encode_document {A} `{Serde A} (validate : A → result () ProtocolError)
    (decode : string → result A ProtocolError) (unencodable : string) (value : A) :
    result string ProtocolError :=
  let? _ := validate value in
  let? output := encode_semantic value unencodable in
  let? _ := decode output in
  Ok output.

(** ** Activations and completions *)

Context `{Serde Activation, Serde Completion}.

Definition decode_activation (input : string) : result Activation ProtocolError :=
  decode_document validate_activation "invalid workflow activation semantics" input.

Definition encode_activation (value : Activation) : result string ProtocolError :=
  encode_document validate_activation decode_activation "could not encode workflow activation" value.

Definition decode_completion (input : string) : result Completion ProtocolError :=
  decode_document validate_completion "invalid workflow completion semantics" input.

Definition encode_completion (value : Completion) : result string ProtocolError :=
  encode_document validate_completion decode_completion "could not encode workflow completion" value.

End Codec.

(** ** Round trip *)

Lemma Value_ind (P : Value → Prop) :
  P VNull → (∀ b, P (VBool b)) → (∀ n, P (VNumber n)) → (∀ s, P (VString s)) →
  (∀ vs, Forall P vs → P (VArray vs)) → (∀ es, Forall (λ e, P e.2) es → P (VObject es)) →
  ∀ v, P v.
Proof.
  intros Hnull Hbool Hnumber Hstring Harray Hobject. fix IH 1. intros [].
  - exact Hnull.
  - apply Hbool.
  - apply Hnumber.
  - apply Hstring.
  - apply Harray. induction values; constructor; auto.
  - apply Hobject. induction entries; constructor; auto.
Qed.

Definition number_ok (n : Number) : Prop :=
  match n with
  | PosInt n => n < u64_modulus
  | NegInt z => (- 2 ^ 63 ≤ z < 0)%Z
  | Float => True
  end.

(** The values serde_json holds: 64-bit integers, maps sorted without repetition. *)
Fixpoint value_ok (v : Value) : Prop :=
  match v with
  | VNumber n => number_ok n
  | VArray vs => Forall id (map value_ok vs)
  | VObject es =>
      NoDup es.*1 ∧ sort_entries es = es ∧ Forall id (map (λ e, value_ok e.2) es)
  | _ => True
  end.

(** A derived deserializer reads what the derived serializer wrote. *)
Class SerdeLaws (A : Type) `{Serde A} : Prop := {
  to_value_ok (a : A) v : to_value a = Some v → value_ok v;
  from_to_value (a : A) v : to_value a = Some v → from_value v = Some a
}.

Lemma raw_of_inj v w : raw_of v = raw_of w → v = w.
Proof.
  revert w. induction v as [|b|z|n|s|vs IH|es IH] using JsonValue_ind; intros [] Heq;
    simpl in Heq; try discriminate Heq; try done; try (by injection Heq as ->).
  - injection Heq as Heq. f_equal. revert values Heq.
    induction IH as [|v vs Hv _ IH]; intros [|w ws] Heq; try discriminate Heq; [done|].
    injection Heq as Hw Hws. f_equal; auto.
  - injection Heq as Heq. f_equal. revert entries Heq.
    induction IH as [|[k v] es Hv _ IH]; intros [|[k' w] ws] Heq; try discriminate Heq; [done|].
    injection Heq as -> Hw Hws. f_equal; [f_equal|]; auto.
Qed.

(** Collecting entries of distinct keys into a map sorts them. *)
Lemma collect_entries {A} (l : list (string * A)) :
  NoDup l.*1 → btree_iter (list_to_map (reverse l)) = sort_entries l.
Proof.
  intros Hl. unfold btree_iter. symmetry. apply sort_entries_unique; [done|].
  rewrite map_to_list_to_map; [by rewrite reverse_Permutation|].
  by rewrite fmap_reverse, reverse_Permutation.
Qed.

(** Numbers keep their value through the trees. *)
Lemma number_through n j :
  number_ok n → from_serde (VNumber n) = Ok j →
  machine_numbers j ∧ to_serde (normalize j) = VNumber n.
Proof.
  destruct n as [n|z|]; simpl; [|intros Hz [= <-]|done].
  - intros Hn. destruct (N.leb_spec n I64_MAX); intros [= <-]; simpl; [|done].
    rewrite (proj2 (Z.leb_le 0 (Z.of_N n))) by lia. simpl. rewrite N2Z.id.
    unfold I64_MAX in *. split; [lia|done].
  - simpl. rewrite (proj2 (Z.leb_gt 0 z)) by lia. simpl. unfold number_of_i64.
    rewrite (proj2 (Z.ltb_lt z 0)) by lia. split; [lia|done].
Qed.

Lemma Forall_values {A} (P : A → Prop) (l : list A) : Forall id (map P l) ↔ Forall P l.
Proof. rewrite Forall_map. done. Qed.

(** A value survives the conversion to the protocol's tree, its rendering and its
    reading. *)
Lemma value_through v j :
  value_ok v → from_serde v = Ok j → machine_numbers j ∧ to_serde (normalize j) = v.
Proof.
  revert j. induction v as [|b|n|s|vs IH|es IH] using Value_ind; intros j Hok Hj;
    try (by injection Hj as <-).
  - by apply number_through.
  - cbn [from_serde] in Hj. apply bind_Ok in Hj as (js & Hjs%try_map_Ok & [= <-]).
    cbn [value_ok] in Hok. rewrite Forall_values in Hok. cbn [machine_numbers normalize to_serde].
    rewrite Forall_values, map_map.
    assert (Forall machine_numbers js ∧ map (λ x, to_serde (normalize x)) js = vs) as [? ->]; [|done].
    induction Hjs as [|v j vs js Hv _ IHs]; [done|]. inversion_clear IH. inversion_clear Hok.
    destruct IHs as [? Heq]; [done|done|]. cbn [map]. rewrite Heq. naive_solver.
  - cbn [from_serde] in Hj. apply bind_Ok in Hj as (js & Hjs%try_map_Ok & [= <-]).
    cbn [value_ok] in Hok. destruct Hok as (Hnodup & Hsorted & Hok). rewrite Forall_values in Hok.
    cbn [machine_numbers normalize to_serde]. rewrite Forall_values.
    assert (Forall (λ e, machine_numbers e.2) js ∧
      map (λ e, (e.1, to_serde (normalize e.2))) js = es) as [Hnum Heq].
    { clear Hnodup Hsorted. induction Hjs as [|[k v] [k' j] es js Hv _ IHs]; [done|].
      inversion_clear IH as [|? ? IHv IHes]. inversion_clear Hok as [|? ? Hv' Hes]. simpl in *.
      apply bind_Ok in Hv as (j' & Hj & [= <- <-]). destruct IHs as [? Heq]; [done|done|].
      destruct (IHv j' Hv' Hj) as [? ->]. rewrite Heq. by repeat constructor. }
    split; [done|]. f_equal. rewrite (sort_entries_map normalize js).
    set (ns := map _ (sort_entries js)).
    assert (map (λ e, (e.1, to_serde e.2)) ns = es) as ->.
    { unfold ns. rewrite map_map. cbn [fst snd]. rewrite <-Hsorted, <-Heq.
      symmetry. apply (sort_entries_map (λ v, to_serde (normalize v)) js). }
    by rewrite collect_entries.
Qed.

Section Theorems.
Context `{ReaderLaws} `{Base64}.

Lemma decode_payload_object_reads text w :
  decode_payload_object text = Ok w → ∃ at_end, serde_parse text = Some (raw_of w, at_end).
Proof.
  unfold decode_payload_object, parse_strict_with_string_limit, object_or_error.
  rewrite bind_Ok. intros (v & Hv & Hw). destruct (is_object v); [|done]. injection Hw as <-.
  apply seq_Ok in Hv as [_ Hv]. destruct (serde_parse text) as [[raw at_end]|]; [|done].
  destruct (visit raw) as [v'|] eqn:Hvisit; [|done]. destruct at_end; [|done].
  cbn [negb] in Hv. apply bind_Ok in Hv as (? & _ & [= <-]). apply visit_exact in Hvisit as [-> _]. by eexists.
Qed.

Lemma encode_payload_object_writes tree text :
  encode_payload_object tree = Ok text →
  render_json tree = Ok text ∧ ∃ w, decode_payload_object text = Ok w.
Proof.
  unfold encode_payload_object, encode_with_limit. rewrite bind_Ok. intros (? & _ & Hv).
  rewrite bind_Ok in Hv. destruct Hv as (? & _ & (output & Hr & (w & Hw & (again & Ha & Hd)%bind_Ok)%bind_Ok)%bind_Ok).
  destruct (decide (again = output)); [|done]. injection Hd as <-. eauto.
Qed.

(** A written document is read back as itself. *)
Lemma semantic_round_trip {A} `{SerdeLaws A} (a : A) message text :
  encode_semantic a message = Ok text →
  ∃ w, decode_payload_object text = Ok w ∧ from_value (to_serde w) = Some a.
Proof.
  unfold encode_semantic. rewrite bind_Ok. intros (json & Hjson%ok_or_Ok & Htree).
  apply bind_Ok in Htree as (tree & Htree & Henc).
  destruct (encode_payload_object_writes tree text Henc) as [Hrender (w & Hw)].
  destruct (value_through json tree) as [Hnum Hback]; [by eapply to_value_ok|done|].
  destruct (decode_payload_object_reads text w Hw) as (at_end & Hparse).
  destruct (read_rendered tree text _ _ Hnum Hrender Hparse) as [Heq%raw_of_inj _]. subst w.
  exists (normalize tree). rewrite Hback. split; [done|]. by apply from_to_value.
Qed.

Lemma document_round_trip {A} `{SerdeLaws A} validate decode (a : A) message unencodable text :
  (∀ input, decode input = decode_document validate message input) →
  encode_document validate decode unencodable a = Ok text → decode text = Ok a.
Proof.
  intros Hdecode. unfold encode_document. rewrite seq_Ok. intros [Hv Henc].
  apply bind_Ok in Henc as (output & Hout & (b & Hb & [= <-])%bind_Ok). rewrite Hdecode in *.
  destruct (semantic_round_trip a unencodable output Hout) as (w & Hw & Ha).
  unfold decode_document, semantic_from_value. by rewrite Hw, Ha; simpl; rewrite Hv.
Qed.

(** A workflow document that was written is read back as itself: the text of
    an activation or of a completion, once the writer returned it, is decoded by
    the reader to the document it was written from. *)
Theorem workflow_documents_round_trip `{SerdeLaws Activation, SerdeLaws Completion} a c text :
  (encode_activation a = Ok text → decode_activation text = Ok a) ∧
  (encode_completion c = Ok text → decode_completion text = Ok c).
Proof. split; (eapply document_round_trip; intros input; reflexivity). Qed.

End Theorems.
