(* ===== verification/CoreConversion.v ===== *)
(** * Conversions shared by workflow and activity documents

    The conversions of texts, payloads, times, policies and failures in
    src/rust/core-bridge/src/workflow_protocol.rs.  Core's maps are hash maps,
    visited in the order of [map_to_list]; the order decides at most which of two
    errors is returned. *)

From stdpp Require Import pretty.
From Stdlib Require Import Ascii.
From S2P Require Import Prelude.
From S2P Require Import Text.
From S2P Require Import Protocol.
From S2P Require Import WorkflowTypes.
From S2P Require Import CoreMessages.
From S2P Require Import WorkflowChecks.
Local Open Scope N_scope.
Local Open Scope bridge_scope.

(** ** Errors *)

Inductive CoreConversionErrorCode := Unsupported | InvalidCore.

Record CoreConversionError := mkCoreConversionError {
  ce_code : CoreConversionErrorCode;
  ce_message : string
}.

Definition unsupported (message : string) : CoreConversionError :=
  mkCoreConversionError Unsupported message.

Definition invalid_core (message : string) : CoreConversionError :=
  mkCoreConversionError InvalidCore message.

(** ** Texts *)

Definition MAX_INBOUND_FAILURE_LAYERS : N := 100.

Definition LINE_FEED : ascii := "010"%char.

Definition truncation_marker (value : string) : string :=
  String LINE_FEED "[truncated by ocaml-temporal: original length " +:+
  pretty (usize_len value) +:+ " bytes]".

(** [while !value.is_char_boundary(cut) { cut -= 1; }]. *)
Fixpoint boundary_before (value : string) (cut : nat) : nat :=
  if is_char_boundary value cut then cut
  else match cut with O => O | S cut => boundary_before value cut end.

Definition inbound_text (value : string) : string :=
  if str_len value <=? MAX_STRING_BYTES then value
  else
    let marker := truncation_marker value in
    let cut := boundary_before value (N.to_nat (MAX_STRING_BYTES - str_len marker)) in
    str_take cut value +:+ marker.

(** The bytes of U+FFFD. *)
Definition REPLACEMENT : string :=
  String "239" (String "191" (String "189" "")).

(** [value.replace('\0', "\u{FFFD}")]. *)
Fixpoint replace_nul (value : string) : string :=
  match value with
  | EmptyString => EmptyString
  | String b value =>
      if Ascii.eqb b NUL then REPLACEMENT +:+ replace_nul value else String b (replace_nul value)
  end.

Definition inbound_identity (value : string) : string :=
  if contains_nul value then inbound_text (replace_nul value) else inbound_text value.

Definition addressable_map_key (key : string) : bool :=
  negb (str_is_empty key) && (str_len key <=? MAX_STRING_BYTES) && negb (contains_nul key).

(** ** Payloads *)

Definition payload_from_core (value : Core.Payload) : result Payload CoreConversionError :=
  if (MAX_PAYLOAD_BYTES <? bytes_len (Core.data value)) ||
     existsb (λ entry : string * list byte, MAX_PAYLOAD_BYTES <? bytes_len entry.2)
       (map_to_list (Core.metadata value))
  then Err (invalid_core "Core payload exceeds the protocol byte limit")
  else if existsb (λ entry : string * list byte, MAX_STRING_BYTES <? str_len entry.1)
            (map_to_list (Core.metadata value))
  then Err (invalid_core "Core payload metadata key is outside protocol limits")
  else
    Ok (mkPayload
      (filter (λ entry : string * list byte, str_is_empty entry.1 = false) (Core.metadata value))
      (Core.data value)).

Definition validate_payload_limits (value : Payload) : result () CoreConversionError :=
  if (MAX_PAYLOAD_BYTES <? bytes_len (payload_data value)) ||
     existsb (λ entry : string * list byte, MAX_PAYLOAD_BYTES <? bytes_len entry.2)
       (btree_iter (payload_metadata value))
  then Err (invalid_core "semantic payload exceeds the protocol byte limit")
  else if existsb
            (λ entry : string * list byte,
              str_is_empty entry.1 || (MAX_STRING_BYTES <? str_len entry.1))
            (btree_iter (payload_metadata value))
  then Err (invalid_core "semantic payload metadata key is outside protocol limits")
  else Ok tt.

Definition payload_to_core (value : Payload) : result Core.Payload CoreConversionError :=
  let? _ := validate_payload_limits value in
  Ok (Core.mkPayload (payload_metadata value) (payload_data value) []).

Definition payload_vec_from_core (values : list Core.Payload) :
    result (list Payload) CoreConversionError :=
  try_map payload_from_core values.

Definition payload_vec_to_core (values : list Payload) :
    result (list Core.Payload) CoreConversionError :=
  try_map payload_to_core values.

Definition payloads_from_core (value : option (list Core.Payload)) :
    result (list Payload) CoreConversionError :=
  match value with
  | Some payloads => try_map payload_from_core payloads
  | None => Ok []
  end.

Definition payloads_option_from_core (value : option (list Core.Payload)) :
    result (option (list Payload)) CoreConversionError :=
  match value with
  | Some payloads =>
      let? payloads := try_map payload_from_core payloads in
      Ok (Some payloads)
  | None => Ok None
  end.

Definition payloads_to_core (values : list Payload) :
    result (list Core.Payload) CoreConversionError :=
  payload_vec_to_core values.

(** [.map(|(key, value)| Ok((key.clone(), f(value)?))).collect()]. *)
Definition collect_map {A B E} (f : A → result B E) (entries : list (string * A)) :
    result (gmap string B) E :=
  let? entries := try_map (λ entry, let? value := f entry.2 in Ok (entry.1, value)) entries in
  Ok (list_to_map entries).

Definition inbound_payload_map_from_core (entries : gmap string Core.Payload) :
    result (gmap string Payload) CoreConversionError :=
  collect_map payload_from_core
    (List.filter (λ entry : string * Core.Payload, addressable_map_key entry.1)
      (map_to_list entries)).

Definition payload_map_from_core (entries : gmap string Core.Payload) :
    result (gmap string Payload) CoreConversionError :=
  collect_map payload_from_core (map_to_list entries).

Definition payload_map_to_core (entries : gmap string Payload) :
    result (gmap string Core.Payload) CoreConversionError :=
  collect_map payload_to_core (btree_iter entries).

(** ** Times *)

Definition duration_to_core (value : Duration) : Core.Duration :=
  Core.mkDuration (du_seconds value) (du_nanoseconds value).

Definition duration_from_core (value : Core.Duration) : result Duration CoreConversionError :=
  let duration := mkDuration (Core.du_seconds value) (Core.du_nanos value) in
  let? _ :=
    map_err (λ _, invalid_core "Core duration is not normalized") (validate_duration duration "$") in
  Ok duration.

Definition inbound_retry_delay_from_core (value : Core.Duration) :
    result (option Duration) CoreConversionError :=
  if (Core.du_seconds value <? 0)%Z || (Core.du_nanos value <? 0)%Z then Ok None
  else
    let? duration := duration_from_core value in
    Ok (Some duration).

(** The field-by-field copies of timestamps. *)
Definition timestamp_copy (value : Core.Timestamp) : Timestamp :=
  mkTimestamp (Core.ts_seconds value) (Core.ts_nanos value).

Definition timestamp_to_core (value : Timestamp) : Core.Timestamp :=
  Core.mkTimestamp (ts_seconds value) (ts_nanoseconds value).

(** ** Policies *)

Definition retry_policy_to_core (value : RetryPolicy) :
    result Core.RetryPolicy CoreConversionError :=
  let? _ :=
    map_err (λ _, invalid_core "retry policy violates semantic invariants")
      (validate_retry_policy value "$.commands.retry_policy") in
  let? coefficient_bits :=
    ok_or (parse_u64 (rp_backoff_coefficient_bits value))
      (invalid_core "retry policy coefficient bits are not canonical") in
  Ok (Core.mkRetryPolicy (Some (duration_to_core (rp_initial_interval value))) coefficient_bits
    (Some (duration_to_core (rp_maximum_interval value))) (rp_maximum_attempts value)
    (rp_non_retryable_error_types value)).

Definition retry_policy_from_core (value : Core.RetryPolicy) :
    result RetryPolicy CoreConversionError :=
  let? initial :=
    ok_or (Core.initial_interval value)
      (invalid_core "Core retry policy initial interval is absent") in
  let? initial := duration_from_core initial in
  let? maximum :=
    ok_or (Core.maximum_interval value)
      (invalid_core "Core retry policy maximum interval is absent") in
  let? maximum := duration_from_core maximum in
  let policy :=
    mkRetryPolicy initial (pretty (Core.backoff_coefficient value)) maximum
      (Core.maximum_attempts value) (Core.non_retryable_error_types value) in
  let? _ :=
    map_err (λ _, invalid_core "Core retry policy violates semantic invariants")
      (validate_retry_policy policy "$.commands.retry_policy") in
  Ok policy.

(** The closure [interval] of [inbound_retry_policy_from_core]. *)
Definition inbound_interval (duration : option Core.Duration) :
    result Duration CoreConversionError :=
  match duration with
  | Some duration =>
      if (0 <=? Core.du_seconds duration)%Z && (0 <=? Core.du_nanos duration)%Z then
        duration_from_core duration
      else Ok (mkDuration 0 0)
  | None => Ok (mkDuration 0 0)
  end.

Definition inbound_retry_policy_from_core (value : Core.RetryPolicy) :
    result RetryPolicy CoreConversionError :=
  let? initial := inbound_interval (Core.initial_interval value) in
  let? maximum := inbound_interval (Core.maximum_interval value) in
  Ok (mkRetryPolicy initial (pretty (Core.backoff_coefficient value)) maximum
    (Core.maximum_attempts value) (map inbound_text (Core.non_retryable_error_types value))).

Definition priority_to_core (value : WorkflowPriority) :
    result Core.Priority CoreConversionError :=
  let? _ :=
    map_err (λ _, invalid_core "workflow priority violates semantic invariants")
      (validate_priority value "$.commands.priority") in
  Ok (Core.mkPriority (wp_priority_key value) (wp_fairness_key value)
    (wp_fairness_weight_bits value)).

(** The field-by-field copy of a received priority. *)
Definition priority_copy (value : Core.Priority) : WorkflowPriority :=
  mkWorkflowPriority (Core.priority_key value) (Core.fairness_key value)
    (Core.fairness_weight value).

(** ** Texts *)

Lemma marker_len s : 50 ≤ str_len (truncation_marker s) ≤ 80.
Proof.
  assert (usize_len s < u64_modulus) as Hu by (by apply N.mod_lt).
  pose proof (pretty_u64_len _ Hu). unfold truncation_marker. rewrite !str_len_app.
  change (str_len " bytes]") with 7.
  change (str_len (String LINE_FEED "[truncated by ocaml-temporal: original length ")) with 47. lia.
Qed.

Lemma boundary_before_spec s n :
  (boundary_before s n ≤ n)%nat ∧ is_char_boundary s (boundary_before s n) = true ∧
  ∀ k, (k ≤ n)%nat → is_char_boundary s k = true → (k ≤ boundary_before s n)%nat.
Proof.
  induction n as [|n (IH1 & IH2 & IH3)]; cbn [boundary_before].
  { simpl. split_and!; [done|done|]. intros k Hk _. done. }
  destruct (is_char_boundary s (S n)) eqn:Hb; [split_and!; [done|done|by intros]|].
  split_and!; [lia|done|]. intros k Hk Hkb. apply IH3; [|done].
  destruct (decide (k = S n)) as [->|]; [congruence|lia].
Qed.

Lemma inbound_text_id s : text_fits s → inbound_text s = s.
Proof. unfold text_fits, inbound_text. intros Hs. by rewrite (proj2 (N.leb_le _ _) Hs). Qed.

(** A text over the limit keeps the longest prefix of whole characters that
    leaves room for the marker. *)
Lemma inbound_text_cut s :
  ¬ text_fits s →
  let room := N.to_nat (MAX_STRING_BYTES - str_len (truncation_marker s)) in
  inbound_text s = str_take (boundary_before s room) s +:+ truncation_marker s ∧
  str_len (inbound_text s) = N.of_nat (boundary_before s room) + str_len (truncation_marker s).
Proof.
  intros Hs room. unfold text_fits in Hs.
  assert (inbound_text s = str_take (boundary_before s room) s +:+ truncation_marker s) as Heq.
  { unfold inbound_text. by rewrite (proj2 (N.leb_gt _ _)) by lia. }
  split; [done|]. rewrite Heq, str_len_app, str_take_len; [done|].
  pose proof (boundary_before_spec s room) as (Hle & _). unfold str_len, room in *. lia.
Qed.

Lemma inbound_text_fits s : text_fits (inbound_text s).
Proof.
  destruct (decide (str_len s ≤ MAX_STRING_BYTES)) as [Hs|Hs]; [by rewrite inbound_text_id|].
  destruct (inbound_text_cut s Hs) as [_ Hlen]. unfold text_fits. rewrite Hlen.
  pose proof (marker_len s). unfold MAX_STRING_BYTES.
  pose proof (boundary_before_spec s (N.to_nat (65536 - str_len (truncation_marker s)))) as (Hle & _).
  lia.
Qed.

Lemma marker_ascii s : ascii_only (truncation_marker s) = true.
Proof.
  unfold truncation_marker. autorewrite with text. cbn. rewrite ascii_only_app, pretty_ascii. done.
Qed.

Lemma inbound_text_utf8 s : utf8_valid s = true → utf8_valid (inbound_text s) = true.
Proof.
  intros Hv. destruct (decide (text_fits s)) as [Hs|Hs]; [by rewrite inbound_text_id|].
  destruct (inbound_text_cut s Hs) as [-> _]. apply utf8_valid_text, utf8_text_app.
  - apply utf8_take; [by apply utf8_valid_text|]. apply boundary_before_spec.
  - apply ascii_only_utf8, marker_ascii.
Qed.

(** The text of a received failure always fits the protocol: a text within the
    limit is unchanged, and a longer one becomes the longest prefix of whole
    characters that leaves room for the marker naming its length, losing at most
    three bytes more than needed; valid UTF-8 stays valid. *)
Theorem inbound_text_bounded s :
  utf8_valid s = true →
  text_fits (inbound_text s) ∧ utf8_valid (inbound_text s) = true ∧
  (text_fits s → inbound_text s = s) ∧
  (¬ text_fits s → ∃ n, inbound_text s = str_take n s +:+ truncation_marker s ∧
    MAX_STRING_BYTES - 3 ≤ str_len (inbound_text s)).
Proof.
  intros Hv. split_and!; [apply inbound_text_fits|by apply inbound_text_utf8|apply inbound_text_id|].
  intros Hs. destruct (inbound_text_cut s Hs) as [Heq Hlen].
  exists (boundary_before s (N.to_nat (MAX_STRING_BYTES - str_len (truncation_marker s)))).
  split; [done|]. rewrite Hlen. set (room := N.to_nat _).
  destruct (boundary_before_spec s room) as (_ & _ & Hmax). unfold text_fits in Hs.
  pose proof (marker_len s) as Hm. unfold MAX_STRING_BYTES in *.
  destruct (boundary_near s room) as (k & Hk & Hb).
  { by apply utf8_valid_text. }
  { unfold room, str_len in *. lia. }
  specialize (Hmax k ltac:(lia) Hb). unfold room in *. lia.
Qed.

Lemma pretty_no_nul (n : N) : contains_byte NUL (pretty n) = false.
Proof.
  unfold pretty, pretty_N. case_decide; [done|].
  assert (∀ x s, contains_byte NUL s = false → contains_byte NUL (pretty_N_go x s) = false) as Hgo;
    [|by apply Hgo]. clear. intros x. induction (N.lt_wf_0 x) as [x _ IH]; intros s Hs.
  destruct (decide (x = 0)) as [->|Hne]; [by rewrite pretty_N_go_0|].
  rewrite pretty_N_go_step by lia. apply IH; [apply N.div_lt; lia|].
  cbn [contains_byte]. rewrite Hs, orb_false_r. unfold pretty_N_char. by repeat case_match.
Qed.

Lemma inbound_text_nul s : contains_nul s = false → contains_nul (inbound_text s) = false.
Proof.
  unfold contains_nul. intros Hn.
  destruct (decide (text_fits s)) as [Hs|Hs]; [by rewrite inbound_text_id|].
  destruct (inbound_text_cut s Hs) as [-> _]. rewrite contains_byte_app, contains_byte_take by done.
  unfold truncation_marker. autorewrite with text. cbn. rewrite contains_byte_app.
  by rewrite pretty_no_nul.
Qed.

Lemma replace_nul_clean s : contains_nul (replace_nul s) = false.
Proof.
  unfold contains_nul. induction s as [|b s IH]; [done|]. cbn [replace_nul].
  destruct (Ascii.eqb b NUL) eqn:Hb; [by rewrite contains_byte_app|].
  cbn [contains_byte]. by rewrite Hb, IH.
Qed.

Lemma replace_nul_app a b : replace_nul (a +:+ b) = replace_nul a +:+ replace_nul b.
Proof.
  induction a as [|x a IH]; [done|]. rewrite !string_app_cons. cbn [replace_nul].
  destruct (Ascii.eqb x NUL); rewrite IH; [by rewrite string_app_assoc|done].
Qed.

Lemma replace_nul_id s : contains_nul s = false → replace_nul s = s.
Proof.
  unfold contains_nul. induction s as [|b s IH]; [done|]. cbn [contains_byte replace_nul].
  intros [Hb Hs]%orb_false_iff. rewrite Hb. by rewrite IH.
Qed.

Lemma replace_nul_utf8 s : utf8_text s → utf8_text (replace_nul s).
Proof.
  induction 1 as [|c s Hc _ IH]; [constructor|]. rewrite replace_nul_app. apply utf8_text_app; [|done].
  assert (∀ x, 0x80 ≤ N_of_ascii x → Ascii.eqb x NUL = false) as Hhigh.
  { intros x Hx. apply Ascii.eqb_neq. intros ->. by vm_compute in Hx. }
  assert (∀ lo hi x, between lo hi x = true → 0x80 ≤ lo → Ascii.eqb x NUL = false) as Hbetween.
  { intros lo hi x Hx Hlo. apply Hhigh. unfold between in Hx. rewrite andb_true_iff, !N.leb_le in Hx. lia. }
  assert (∀ c', utf8_char c' → utf8_text c') as Hchar.
  { intros c' Hc'. rewrite <-(string_app_nil c'). by repeat constructor. }
  destruct Hc as [a Ha|a b Ha Hb|a b c Ha Hb Hc|a b c d Ha Hb Hc Hd].
  { cbn [replace_nul]. destruct (Ascii.eqb a NUL); apply Hchar; by constructor. }
  all: try (pose proof (second_of_three_continuation _ _ Hb) as Hb').
  all: try (pose proof (second_of_four_continuation _ _ Hb) as Hb').
  all: cbn [replace_nul]; unfold continuation in *;
    repeat (erewrite Hbetween by (try eassumption; done)); apply Hchar; by constructor.
Qed.

Lemma inbound_identity_ok s path :
  utf8_valid s = true → signal_identity (inbound_identity s) path = Ok tt.
Proof.
  intros Hv. rewrite signal_identity_Ok. unfold inbound_identity.
  assert (utf8_valid (replace_nul s) = true) as Hr.
  { apply utf8_valid_text, replace_nul_utf8. by apply utf8_valid_text. }
  destruct (contains_nul s) eqn:Hn;
    auto using inbound_text_fits, inbound_text_nul, inbound_text_utf8, replace_nul_clean.
Qed.

(** ** Payloads *)

(** The payloads Core may send. *)
Definition core_payload_fits (p : Core.Payload) : Prop :=
  bytes_len (Core.data p) ≤ MAX_PAYLOAD_BYTES ∧
  map_Forall (λ key value, text_fits key ∧ bytes_len value ≤ MAX_PAYLOAD_BYTES) (Core.metadata p).

Lemma existsb_Forall {A} (f : A → bool) (P : A → Prop) l :
  (∀ a, f a = false ↔ P a) → existsb f l = false ↔ Forall P l.
Proof.
  intros Hf. induction l as [|a l IH]; simpl; [by split|].
  by rewrite orb_false_iff, Hf, IH, Forall_cons.
Qed.

Lemma existsb_map_Forall {A} (f : string * A → bool) (P : string → A → Prop) m l :
  l ≡ₚ map_to_list m → (∀ k v, f (k, v) = false ↔ P k v) →
  existsb f l = false ↔ map_Forall P m.
Proof.
  intros Hl Hf. rewrite (existsb_Forall f (λ e, P e.1 e.2)) by (intros []; apply Hf).
  rewrite Hl, map_Forall_to_list. apply Forall_iff. by intros [].
Qed.

Lemma btree_iter_perm {A} (m : gmap string A) : btree_iter m ≡ₚ map_to_list m.
Proof. apply ProtocolCanonical.sort_entries_perm. Qed.

Lemma payload_from_core_Ok m p :
  payload_from_core m = Ok p ↔
  core_payload_fits m ∧
  p = mkPayload (filter (λ e : string * list byte, str_is_empty e.1 = false) (Core.metadata m))
        (Core.data m).
Proof.
  unfold payload_from_core, core_payload_fits. rewrite !guard_Ok, orb_false_iff, N.ltb_ge.
  rewrite (existsb_map_Forall _ (λ _ value, bytes_len value ≤ MAX_PAYLOAD_BYTES) _ _ (reflexivity _))
    by (intros; apply N.ltb_ge).
  rewrite (existsb_map_Forall _ (λ key _, text_fits key) _ _ (reflexivity _))
    by (intros; apply N.ltb_ge).
  unfold map_Forall. naive_solver.
Qed.

Lemma payload_from_core_fits m p : payload_from_core m = Ok p → payload_fits p.
Proof.
  intros [[Hd Hm] ->]%payload_from_core_Ok. split; [done|]. simpl.
  intros k v [Hkv Hk]%map_lookup_filter_Some. simpl in Hk. rewrite str_not_empty in Hk.
  split; [done|]. by apply Hm.
Qed.

Lemma validate_payload_limits_Ok p : validate_payload_limits p = Ok tt ↔ payload_fits p.
Proof.
  unfold validate_payload_limits, payload_fits. rewrite !guard_Ok, orb_false_iff, N.ltb_ge.
  rewrite (existsb_map_Forall _ (λ _ value, bytes_len value ≤ MAX_PAYLOAD_BYTES) _ _
    (btree_iter_perm _)) by (intros; apply N.ltb_ge).
  rewrite (existsb_map_Forall _ (λ key _, key ≠ "" ∧ text_fits key) _ _ (btree_iter_perm _)).
  2: { intros k v. simpl. by rewrite orb_false_iff, str_not_empty, N.ltb_ge. }
  unfold map_Forall. split.
  - intros ([Hd Hv] & Hk & _). split; [done|]. intros k v Hkv.
    destruct (Hk k v Hkv). by specialize (Hv k v Hkv).
  - intros [Hd Hm]. split_and!; try done; intros k v Hkv; by destruct (Hm k v Hkv) as (? & ? & ?).
Qed.

Lemma payload_to_core_Ok p m :
  payload_to_core p = Ok m ↔
  payload_fits p ∧ m = Core.mkPayload (payload_metadata p) (payload_data p) [].
Proof.
  unfold payload_to_core. rewrite seq_Ok, validate_payload_limits_Ok. naive_solver.
Qed.

Lemma payload_round_trip p m : payload_to_core p = Ok m → payload_from_core m = Ok p.
Proof.
  intros [[Hd Hm] ->]%payload_to_core_Ok. apply payload_from_core_Ok. simpl. split.
  - split; [done|]. intros k v Hkv. by destruct (Hm k v Hkv) as (_ & ? & ?).
  - destruct p as [metadata data]. simpl in *. f_equal. symmetry. apply map_filter_id.
    intros k v Hkv. apply str_not_empty. by destruct (Hm k v Hkv).
Qed.

(** Converting a list or a map back is done elementwise. *)
Lemma try_map_round_trip {A B E F} (f : A → result B E) (g : B → result A F) l k :
  (∀ a b, a ∈ l → f a = Ok b → g b = Ok a) → try_map f l = Ok k → try_map g k = Ok l.
Proof.
  intros Hfg Hk%try_map_Ok. apply try_map_Ok. apply Forall2_flip.
  induction Hk as [|a b l k Hab Hk IH]; constructor; [apply Hfg; set_solver|].
  apply IH. intros. apply Hfg; set_solver.
Qed.

Lemma payload_vec_round_trip l k : payload_vec_to_core l = Ok k → payload_vec_from_core k = Ok l.
Proof. apply try_map_round_trip. intros. by apply payload_round_trip. Qed.

Lemma try_option_round_trip {A B E F} (f : A → result B E) (g : B → result A F) o r :
  (∀ a b, o = Some a → f a = Ok b → g b = Ok a) → try_option f o = Ok r → try_option g r = Ok o.
Proof.
  intros Hfg Hr%try_option_Ok. apply try_option_Ok. destruct o, r; naive_solver.
Qed.

Lemma collect_map_exact {A B E} (f : A → result B E) m l m' :
  l ≡ₚ map_to_list m →
  collect_map f l = Ok m' ↔ ∀ k, match m !! k, m' !! k with
    | Some a, Some b => f a = Ok b | None, None => True | _, _ => False end.
Proof.
  intros Hl. assert (NoDup l.*1) as Hnd by (rewrite Hl; apply NoDup_fst_map_to_list).
  assert (m = list_to_map l) as ->.
  { rewrite <-(list_to_map_to_list m). symmetry. by apply list_to_map_proper. }
  clear Hl. unfold collect_map. rewrite bind_Ok. split.
  - intros (k & Hk%try_map_Ok & [= <-]) key.
    induction Hk as [|[a x] [b y] l k Hab Hk IH]; [by rewrite !list_to_map_nil, !lookup_empty|].
    simpl in *. apply bind_Ok in Hab as (z & Hz & [= <- <-]). apply NoDup_cons in Hnd as [Hna Hnd].
    destruct (decide (a = key)) as [<-|Hne]; [by rewrite !lookup_insert_eq|].
    rewrite !lookup_insert_ne by done. by apply IH.
  - revert m'. induction l as [|[a x] l IH]; intros m' Hm; simpl in *.
    { exists []. split; [done|]. f_equal. symmetry. apply map_empty. intros k.
      specialize (Hm k). rewrite lookup_empty in Hm. by destruct (m' !! k). }
    apply NoDup_cons in Hnd as [Hna Hnd].
    pose proof (Hm a) as Ha. rewrite lookup_insert_eq in Ha.
    destruct (m' !! a) as [b|] eqn:Hb; [|done]. rewrite Ha.
    destruct (IH Hnd (delete a m')) as (k & Hk & [= Hk']).
    { intros k. specialize (Hm k). destruct (decide (a = k)) as [<-|Hne].
      - rewrite lookup_delete_eq. by rewrite not_elem_of_list_to_map_1.
      - rewrite lookup_insert_ne in Hm by done. by rewrite lookup_delete_ne. }
    exists ((a, b) :: k). rewrite Hk. split; [done|]. f_equal. simpl. rewrite Hk'.
    by rewrite insert_delete_id.
Qed.

Lemma payload_map_round_trip m m' :
  payload_map_to_core m = Ok m' → payload_map_from_core m' = Ok m.
Proof.
  unfold payload_map_to_core, payload_map_from_core.
  rewrite (collect_map_exact _ m) by apply btree_iter_perm. rewrite (collect_map_exact _ m') by done.
  intros Hm k. specialize (Hm k). destruct (m !! k), (m' !! k); try done.
  by apply payload_round_trip.
Qed.

(** ** Times and policies *)

Lemma duration_from_core_Ok m d :
  duration_from_core m = Ok d ↔ duration_ok d ∧ m = duration_to_core d.
Proof.
  unfold duration_from_core, duration_to_core. cbv zeta.
  rewrite seq_Ok, map_err_Ok, validate_duration_Ok. destruct m, d; simpl. naive_solver.
Qed.

Lemma duration_round_trip d : duration_ok d → duration_from_core (duration_to_core d) = Ok d.
Proof. intros Hd. by apply duration_from_core_Ok. Qed.

Lemma durations_round_trip o :
  (∀ d, o = Some d → duration_ok d) → try_option duration_from_core (duration_to_core <$> o) = Ok o.
Proof. destruct o as [d|]; [|done]. intros Ho. simpl. by rewrite duration_round_trip by auto. Qed.

Lemma retry_policy_round_trip p m :
  retry_policy_to_core p = Ok m → retry_policy_from_core m = Ok p.
Proof.
  unfold retry_policy_to_core. rewrite seq_Ok, map_err_Ok, bind_Ok. setoid_rewrite ok_or_Ok.
  intros (Hp & bits & Hbits & [= <-]). unfold retry_policy_from_core. simpl.
  pose proof (proj1 (validate_retry_policy_Ok _ _) Hp) as (Hi & Hm & _ & (bits' & Hb & Hr) & _).
  rewrite !duration_round_trip by done.
  rewrite Hb, parse_u64_pretty in Hbits by (unfold u64_modulus; lia). injection Hbits as <-.
  rewrite <-Hb. destruct p as [initial coefficient maximum attempts types]. simpl in *. by rewrite Hp.
Qed.

Lemma priority_round_trip p m : priority_to_core p = Ok m → priority_copy m = p.
Proof.
  unfold priority_to_core. rewrite seq_Ok. intros (_ & [= <-]). by destruct p.
Qed.

(** A recorded policy converts to one that the inbound check accepts. *)
Lemma inbound_interval_ok o d : inbound_interval o = Ok d → duration_ok d.
Proof.
  assert (duration_ok (mkDuration 0 0)) as H0.
  { unfold duration_ok, time_ok, MAX_DURATION_SECONDS. simpl. lia. }
  destruct o as [m|]; simpl; [|by intros [= <-]].
  destruct (_ && _); [|by intros [= <-]]. by intros [? _]%duration_from_core_Ok.
Qed.
