(* ===== verification/FailureConversion.v ===== *)
(** * Conversion of failures

    The failure conversions of src/rust/core-bridge/src/workflow_protocol.rs and
    the retryability rule of src/lib/protocol/workflow_protocol.ml that reads
    their result.  The theorems: a conversion to Core and back is the identity, a
    received chain always fits the protocol, and cutting a long chain does not
    change whether the failure is retried. *)

From stdpp Require Import pretty.
From S2P Require Import Prelude.
From S2P Require Import Text.
From S2P Require Import Protocol.
From S2P Require Import WorkflowTypes.
From S2P Require Import CoreMessages.
From S2P Require Import WorkflowChecks.
From S2P Require Import CoreConversion.
Local Open Scope N_scope.
Local Open Scope bridge_scope.

(** ** The OCaml rule *)

Definition nexus_handler_type_non_retryable (type_name : string) : bool :=
  bool_decide (type_name ∈
    ["BAD_REQUEST"; "UNAUTHENTICATED"; "UNAUTHORIZED"; "NOT_FOUND"; "NOT_IMPLEMENTED"; "CONFLICT"]).

(** The rule's loop, with the depth counted down from the limit: [fuel] is
    [128 - depth]. *)
Fixpoint failure_non_retryable_loop (fuel : nat) (value : Failure) : bool :=
  let nested :=
    match f_cause value, fuel with
    | Some cause, S fuel => failure_non_retryable_loop fuel cause
    | _, _ => false
    end in
  match f_info value with
  | Info_Application _ non_retryable _ _ _ => non_retryable
  | Info_Canceled _ _ => false
  | Info_Terminated _ => true
  | Info_Activity _ _ _ _ _ retry_state | Info_ChildWorkflow _ _ _ _ _ _ retry_state =>
      match retry_state with
      | RetryState_NonRetryableFailure | RetryState_MaximumAttemptsReached => true
      | RetryState_RetryPolicyNotSet | RetryState_Unspecified => nested
      | RetryState_InProgress | RetryState_Timeout | RetryState_InternalServerError
      | RetryState_CancelRequested => false
      end
  | Info_Server non_retryable => non_retryable
  | Info_NexusHandler _ Nexus_NonRetryable => true
  | Info_NexusHandler _ Nexus_Retryable => false
  | Info_NexusHandler type_name Nexus_Unspecified => nexus_handler_type_non_retryable type_name
  | Info_Timeout _ _ | Info_ResetWorkflow _ | Info_NexusOperation _ | Info_Absent => nested
  end.

Definition failure_non_retryable (value : Failure) : bool := failure_non_retryable_loop 128 value.

Section Conversion.
Context `{CoreEnums}.

(** ** Enums *)

Definition retry_state_from_core (value : Z) : RetryState :=
  match default Core.RetryState_Unspecified (try_from_i32 value) with
  | Core.RetryState_Unspecified => RetryState_Unspecified
  | Core.RetryState_InProgress => RetryState_InProgress
  | Core.RetryState_NonRetryableFailure => RetryState_NonRetryableFailure
  | Core.RetryState_Timeout => RetryState_Timeout
  | Core.RetryState_MaximumAttemptsReached => RetryState_MaximumAttemptsReached
  | Core.RetryState_RetryPolicyNotSet => RetryState_RetryPolicyNotSet
  | Core.RetryState_InternalServerError => RetryState_InternalServerError
  | Core.RetryState_CancelRequested => RetryState_CancelRequested
  end.

Definition retry_state_to_core (value : RetryState) : Z :=
  as_i32
    match value with
    | RetryState_Unspecified => Core.RetryState_Unspecified
    | RetryState_InProgress => Core.RetryState_InProgress
    | RetryState_NonRetryableFailure => Core.RetryState_NonRetryableFailure
    | RetryState_Timeout => Core.RetryState_Timeout
    | RetryState_MaximumAttemptsReached => Core.RetryState_MaximumAttemptsReached
    | RetryState_RetryPolicyNotSet => Core.RetryState_RetryPolicyNotSet
    | RetryState_InternalServerError => Core.RetryState_InternalServerError
    | RetryState_CancelRequested => Core.RetryState_CancelRequested
    end.

Definition timeout_type_from_core (value : Z) : TimeoutType :=
  match default Core.Timeout_Unspecified (try_from_i32 value) with
  | Core.Timeout_Unspecified => Timeout_Unspecified
  | Core.Timeout_StartToClose => Timeout_StartToClose
  | Core.Timeout_ScheduleToStart => Timeout_ScheduleToStart
  | Core.Timeout_ScheduleToClose => Timeout_ScheduleToClose
  | Core.Timeout_Heartbeat => Timeout_Heartbeat
  end.

Definition timeout_type_to_core (value : TimeoutType) : Z :=
  as_i32
    match value with
    | Timeout_Unspecified => Core.Timeout_Unspecified
    | Timeout_StartToClose => Core.Timeout_StartToClose
    | Timeout_ScheduleToStart => Core.Timeout_ScheduleToStart
    | Timeout_ScheduleToClose => Core.Timeout_ScheduleToClose
    | Timeout_Heartbeat => Core.Timeout_Heartbeat
    end.

Definition application_category_from_core (value : Z) : ApplicationFailureCategory :=
  match default Core.Category_Unspecified (try_from_i32 value) with
  | Core.Category_Unspecified => Category_Unspecified
  | Core.Category_Benign => Category_Benign
  end.

Definition application_category_to_core (value : ApplicationFailureCategory) : Z :=
  as_i32
    match value with
    | Category_Unspecified => Core.Category_Unspecified
    | Category_Benign => Core.Category_Benign
    end.

Definition nexus_retry_behavior_from_core (value : Z) : NexusHandlerRetryBehavior :=
  match default Core.Nexus_Unspecified (try_from_i32 value) with
  | Core.Nexus_Unspecified => Nexus_Unspecified
  | Core.Nexus_Retryable => Nexus_Retryable
  | Core.Nexus_NonRetryable => Nexus_NonRetryable
  end.

Definition nexus_retry_behavior_to_core (value : NexusHandlerRetryBehavior) : Z :=
  as_i32
    match value with
    | Nexus_Unspecified => Core.Nexus_Unspecified
    | Nexus_Retryable => Core.Nexus_Retryable
    | Nexus_NonRetryable => Core.Nexus_NonRetryable
    end.

(** ** From Core *)

(** The arms of [failure_from_core_at]. *)
Definition failure_info_from_core (info : Core.FailureInfo) :
    result FailureInfo CoreConversionError :=
  match info with
  | Core.ApplicationFailureInfo type_name non_retryable details next_retry_delay category =>
      let? details := payloads_from_core details in
      let? delay := try_option inbound_retry_delay_from_core next_retry_delay in
      Ok (Info_Application (inbound_text type_name) non_retryable details
        (application_category_from_core category) (mjoin delay))
  | Core.CanceledFailureInfo details identity =>
      let? details := payloads_from_core details in
      Ok (Info_Canceled details (inbound_text identity))
  | Core.TerminatedFailureInfo identity => Ok (Info_Terminated (inbound_text identity))
  | Core.ActivityFailureInfo scheduled_event_id started_event_id identity activity_type
      activity_id retry_state =>
      Ok (Info_Activity scheduled_event_id started_event_id (inbound_text identity)
        (inbound_text (default "" activity_type)) (inbound_text activity_id)
        (retry_state_from_core retry_state))
  | Core.ChildWorkflowExecutionFailureInfo namespace workflow_execution workflow_type
      initiated_event_id started_event_id retry_state =>
      let '(workflow_id, run_id) :=
        match workflow_execution with
        | Some execution => (Core.we_workflow_id execution, Core.we_run_id execution)
        | None => ("", "")
        end in
      Ok (Info_ChildWorkflow (inbound_text namespace) (inbound_text workflow_id)
        (inbound_text run_id) (inbound_text (default "" workflow_type)) initiated_event_id
        started_event_id (retry_state_from_core retry_state))
  | Core.TimeoutFailureInfo timeout_type last_heartbeat_details =>
      let? details := payloads_from_core last_heartbeat_details in
      Ok (Info_Timeout (timeout_type_from_core timeout_type) details)
  | Core.ServerFailureInfo non_retryable => Ok (Info_Server non_retryable)
  | Core.ResetWorkflowFailureInfo last_heartbeat_details =>
      let? details := payloads_from_core last_heartbeat_details in
      Ok (Info_ResetWorkflow details)
  | Core.NexusOperationExecutionFailureInfo scheduled_event_id endpoint service operation
      operation_id operation_token =>
      Ok (Info_NexusOperation (mkNexusOperationFailure scheduled_event_id (inbound_text endpoint)
        (inbound_text service) (inbound_text operation) (inbound_text operation_id)
        (inbound_text operation_token)))
  | Core.NexusHandlerFailureInfo type_name retry_behavior =>
      Ok (Info_NexusHandler (inbound_text type_name)
        (nexus_retry_behavior_from_core retry_behavior))
  end.

(** The closure [wrapper] of [omitted_tail_non_retryable]. *)
Definition wrapper_decision (retry_state : Z) : option bool :=
  match (try_from_i32 retry_state : option Core.RetryState) with
  | Some (Core.RetryState_NonRetryableFailure | Core.RetryState_MaximumAttemptsReached) =>
      Some true
  | Some (Core.RetryState_InProgress | Core.RetryState_Timeout
      | Core.RetryState_InternalServerError | Core.RetryState_CancelRequested) => Some false
  | Some (Core.RetryState_RetryPolicyNotSet | Core.RetryState_Unspecified) | None => None
  end.

Definition layer_decision (info : option Core.FailureInfo) : option bool :=
  match info with
  | Some (Core.ApplicationFailureInfo _ non_retryable _ _ _) => Some non_retryable
  | Some (Core.CanceledFailureInfo _ _) => Some false
  | Some (Core.TerminatedFailureInfo _) => Some true
  | Some (Core.ActivityFailureInfo _ _ _ _ _ retry_state)
  | Some (Core.ChildWorkflowExecutionFailureInfo _ _ _ _ _ retry_state) =>
      wrapper_decision retry_state
  | Some (Core.ServerFailureInfo non_retryable) => Some non_retryable
  | Some (Core.NexusHandlerFailureInfo type_name retry_behavior) =>
      match (try_from_i32 retry_behavior : option Core.NexusHandlerErrorRetryBehavior) with
      | Some Core.Nexus_NonRetryable => Some true
      | Some Core.Nexus_Retryable => Some false
      | Some Core.Nexus_Unspecified | None =>
          Some (bool_decide (type_name ∈
            ["BAD_REQUEST"; "UNAUTHENTICATED"; "UNAUTHORIZED"; "NOT_FOUND"; "NOT_IMPLEMENTED";
             "CONFLICT"]))
      end
  | Some (Core.TimeoutFailureInfo _ _) | Some (Core.ResetWorkflowFailureInfo _)
  | Some (Core.NexusOperationExecutionFailureInfo _ _ _ _ _ _) | None => None
  end.

(** The walk ends at the first layer that decides, or at the end of the chain. *)
Fixpoint omitted_tail_non_retryable (failure : Core.Failure) : bool :=
  match failure with
  | Core.mkFailure _ _ _ _ cause info =>
      match layer_decision info with
      | Some non_retryable => non_retryable
      | None => match cause with Some cause => omitted_tail_non_retryable cause | None => false end
      end
  end.

(** The counting loop of [omitted_causes_failure]. *)
Fixpoint chain_length (failure : Core.Failure) : N :=
  match failure with
  | Core.mkFailure _ _ _ _ cause _ =>
      1 + match cause with Some cause => chain_length cause | None => 0 end
  end.

Definition omitted_causes_failure (first_omitted : Core.Failure) : Failure :=
  let omitted := chain_length first_omitted in
  let info :=
    if omitted_tail_non_retryable first_omitted then Info_Server true else Info_Absent in
  mkFailure
    ("[truncated by ocaml-temporal: " +:+ pretty (omitted `mod` u64_modulus) +:+
     " deeper failure causes omitted beyond " +:+ pretty MAX_INBOUND_FAILURE_LAYERS +:+ " layers]")
    "" "" None None info.

Definition is_last (failure : Core.Failure) : bool :=
  match Core.f_cause failure with None => true | Some _ => false end.

(** [failure_layer_from_core] around the converted information.  The cause comes
    with its own conversion, to be given the next layer. *)
Definition failure_layer_from_core (message source stack_trace : string)
    (encoded_attributes : option Core.Payload)
    (cause : option (Core.Failure * (N → result Failure CoreConversionError)))
    (info : FailureInfo) (layer : N) : result Failure CoreConversionError :=
  let? cause :=
    match cause with
    | None => Ok None
    | Some (cause, failure_from_core_at) =>
        if (layer + 1 <? MAX_INBOUND_FAILURE_LAYERS) || is_last cause then
          let? cause := failure_from_core_at (layer + 1) in
          Ok (Some cause)
        else Ok (Some (omitted_causes_failure cause))
    end in
  let? encoded_attributes := try_option payload_from_core encoded_attributes in
  Ok (mkFailure (inbound_text message) (inbound_text source) (inbound_text stack_trace)
    encoded_attributes cause info).

Fixpoint failure_from_core_at (value : Core.Failure) (layer : N) :
    result Failure CoreConversionError :=
  match value with
  | Core.mkFailure message source stack_trace encoded_attributes cause failure_info =>
      let cause :=
        match cause with
        | Some cause => Some (cause, failure_from_core_at cause)
        | None => None
        end in
      let? info :=
        match failure_info with
        | None => Ok Info_Absent
        | Some core_info => failure_info_from_core core_info
        end in
      failure_layer_from_core message source stack_trace encoded_attributes cause info layer
  end.

Definition failure_from_core (value : Core.Failure) : result Failure CoreConversionError :=
  failure_from_core_at value 1.

Definition required_failure_from_core (value : option Core.Failure) (missing : string) :
    result Failure CoreConversionError :=
  let? value := ok_or value (invalid_core missing) in
  failure_from_core value.

(** ** To Core *)

Definition details_to_core (details : list Payload) :
    result (option (list Core.Payload)) CoreConversionError :=
  let? details := payloads_to_core details in
  Ok (Some details).

(** An empty list becomes an absent field. *)
Definition heartbeat_details_to_core (details : list Payload) :
    result (option (list Core.Payload)) CoreConversionError :=
  match details with
  | [] => Ok None
  | _ => details_to_core details
  end.

Definition failure_info_to_core (info : FailureInfo) :
    result (option Core.FailureInfo) CoreConversionError :=
  match info with
  | Info_Application type_name non_retryable details category next_retry_delay =>
      let? details := details_to_core details in
      Ok (Some (Core.ApplicationFailureInfo type_name non_retryable details
        (duration_to_core <$> next_retry_delay) (application_category_to_core category)))
  | Info_Canceled details identity =>
      let? details := details_to_core details in
      Ok (Some (Core.CanceledFailureInfo details identity))
  | Info_Terminated identity => Ok (Some (Core.TerminatedFailureInfo identity))
  | Info_Activity scheduled_event_id started_event_id identity activity_type activity_id
      retry_state =>
      Ok (Some (Core.ActivityFailureInfo scheduled_event_id started_event_id identity
        (Some activity_type) activity_id (retry_state_to_core retry_state)))
  | Info_ChildWorkflow namespace workflow_id run_id workflow_type initiated_event_id
      started_event_id retry_state =>
      Ok (Some (Core.ChildWorkflowExecutionFailureInfo namespace
        (Some (Core.mkWorkflowExecution workflow_id run_id)) (Some workflow_type)
        initiated_event_id started_event_id (retry_state_to_core retry_state)))
  | Info_Timeout timeout_type last_heartbeat_details =>
      let? details := heartbeat_details_to_core last_heartbeat_details in
      Ok (Some (Core.TimeoutFailureInfo (timeout_type_to_core timeout_type) details))
  | Info_Server non_retryable => Ok (Some (Core.ServerFailureInfo non_retryable))
  | Info_ResetWorkflow last_heartbeat_details =>
      let? details := heartbeat_details_to_core last_heartbeat_details in
      Ok (Some (Core.ResetWorkflowFailureInfo details))
  | Info_NexusOperation op =>
      Ok (Some (Core.NexusOperationExecutionFailureInfo (nof_scheduled_event_id op)
        (nof_endpoint op) (nof_service op) (nof_operation op) (nof_operation_id op)
        (nof_operation_token op)))
  | Info_NexusHandler type_name retry_behavior =>
      Ok (Some (Core.NexusHandlerFailureInfo type_name
        (nexus_retry_behavior_to_core retry_behavior)))
  | Info_Absent => Ok None
  end.

Fixpoint failure_to_core (value : Failure) : result Core.Failure CoreConversionError :=
  match value with
  | mkFailure message source stack_trace encoded_attributes cause info =>
      let? encoded_attributes := try_option payload_to_core encoded_attributes in
      let? cause :=
        match cause with
        | Some cause => let? cause := failure_to_core cause in Ok (Some cause)
        | None => Ok None
        end in
      let? failure_info := failure_info_to_core info in
      Ok (Core.mkFailure message source stack_trace encoded_attributes cause failure_info)
  end.

End Conversion.

(** ** Round trip *)

Create Rewrite HintDb conversion.

Section Theorems.
Context `{CoreEnumsLaws}.

Lemma retry_state_round_trip s : retry_state_from_core (retry_state_to_core s) = s.
Proof. unfold retry_state_from_core, retry_state_to_core. rewrite try_from_as_i32. by destruct s. Qed.

Lemma timeout_type_round_trip s : timeout_type_from_core (timeout_type_to_core s) = s.
Proof. unfold timeout_type_from_core, timeout_type_to_core. rewrite try_from_as_i32. by destruct s. Qed.

Lemma application_category_round_trip s :
  application_category_from_core (application_category_to_core s) = s.
Proof.
  unfold application_category_from_core, application_category_to_core.
  rewrite try_from_as_i32. by destruct s.
Qed.

Lemma nexus_retry_behavior_round_trip s :
  nexus_retry_behavior_from_core (nexus_retry_behavior_to_core s) = s.
Proof.
  unfold nexus_retry_behavior_from_core, nexus_retry_behavior_to_core.
  rewrite try_from_as_i32. by destruct s.
Qed.

Lemma details_round_trip details m :
  details_to_core details = Ok m → payloads_from_core m = Ok details.
Proof.
  unfold details_to_core. rewrite bind_Ok. intros (k & Hk & [= <-]). by apply payload_vec_round_trip.
Qed.

Lemma heartbeat_details_round_trip details m :
  heartbeat_details_to_core details = Ok m → payloads_from_core m = Ok details.
Proof. destruct details; [by intros [= <-]|]. apply details_round_trip. Qed.

Lemma retry_delay_round_trip o :
  (∀ d, o = Some d → duration_ok d) →
  ∃ r, try_option inbound_retry_delay_from_core (duration_to_core <$> o) = Ok r ∧ mjoin r = o.
Proof.
  destruct o as [d|]; [|by exists None]. intros Hd. specialize (Hd d eq_refl).
  exists (Some (Some d)). split; [|done]. simpl. unfold inbound_retry_delay_from_core. simpl.
  rewrite duration_round_trip by done. destruct Hd as [[? ?] [? ?]].
  rewrite !(proj2 (Z.ltb_ge _ 0)) by lia. done.
Qed.

(** Texts that fit pass through unchanged. *)
#[local] Hint Rewrite inbound_text_id retry_state_round_trip timeout_type_round_trip
  application_category_round_trip nexus_retry_behavior_round_trip using done : conversion.

Lemma failure_info_round_trip info m :
  info_fits info → failure_info_to_core info = Ok m →
  match m with None => info = Info_Absent | Some i => failure_info_from_core i = Ok info end.
Proof.
  destruct info; cbn [info_fits failure_info_to_core]; intros Hfit Hm;
    rewrite ?Forall_cons in Hfit; destruct_and? Hfit; try (injection Hm as <-);
    cbn [failure_info_from_core default]; autorewrite with conversion; try done.
  - apply bind_Ok in Hm as (d & Hd%details_round_trip & [= <-]). cbn [failure_info_from_core].
    rewrite Hd. destruct (retry_delay_round_trip next_retry_delay) as (r & -> & ->); [done|].
    by autorewrite with conversion.
  - apply bind_Ok in Hm as (d & Hd%details_round_trip & [= <-]). cbn [failure_info_from_core].
    rewrite Hd. by autorewrite with conversion.
  - apply bind_Ok in Hm as (d & Hd%heartbeat_details_round_trip & [= <-]).
    cbn [failure_info_from_core]. rewrite Hd. by autorewrite with conversion.
  - apply bind_Ok in Hm as (d & Hd%heartbeat_details_round_trip & [= <-]).
    cbn [failure_info_from_core]. by rewrite Hd.
  - destruct operation. by simpl in *.
Qed.

(** The layers of a failure. *)
Fixpoint layers (f : Failure) : N :=
  match f with
  | mkFailure _ _ _ _ cause _ => 1 + match cause with Some cause => layers cause | None => 0 end
  end.

Lemma layers_pos f : 1 ≤ layers f.
Proof. destruct f. simpl. lia. Qed.

Lemma to_core_last f m : failure_to_core f = Ok m → is_last m = true ↔ f_cause f = None.
Proof.
  destruct f as [message source trace attributes cause info]. cbn [failure_to_core].
  rewrite bind_Ok. intros (a & _ & (c & Hc & (i & _ & [= <-])%bind_Ok)%bind_Ok).
  unfold is_last. simpl. destruct cause; [|by injection Hc as <-].
  apply bind_Ok in Hc as (c' & _ & [= <-]). done.
Qed.

Lemma failure_round_trip_at f m layer :
  failure_fits f → failure_to_core f = Ok m →
  layer + layers f ≤ MAX_INBOUND_FAILURE_LAYERS + 1 → failure_from_core_at m layer = Ok f.
Proof.
  revert m layer. induction f as [message source trace attributes cause info IH] using Failure_ind.
  intros m layer. cbn [failure_fits failure_to_core layers].
  intros (Hm & Hs & Ht & Hi & Hc). rewrite bind_Ok.
  intros (a & Ha & (c & Hcc & (i & Hii & [= <-])%bind_Ok)%bind_Ok) Hl.
  apply (try_option_round_trip _ payload_from_core) in Ha; [|intros; by apply payload_round_trip].
  apply failure_info_round_trip in Hii; [|done]. cbn [failure_from_core_at]. cbv zeta.
  assert (match i with Some i => failure_info_from_core i | None => Ok Info_Absent end = Ok info)
    as -> by (destruct i; [done|by subst]).
  unfold failure_layer_from_core. rewrite Ha, !inbound_text_id by done.
  destruct cause as [cause|]; [|by injection Hcc as <-].
  apply bind_Ok in Hcc as (c' & Hc' & [= <-]).
  assert ((layer + 1 <? MAX_INBOUND_FAILURE_LAYERS) || is_last c' = true) as ->.
  { apply orb_true_iff. destruct (f_cause cause) as [deep|] eqn:Hdeep.
    - left. apply N.ltb_lt. destruct cause as [? ? ? ? inner ?]. simpl in Hdeep. subst inner.
      simpl in Hl. pose proof (layers_pos deep). lia.
    - right. by apply (to_core_last _ _ Hc'). }
  rewrite (IH cause eq_refl c' (layer + 1)); [done|done|done|lia].
Qed.

(** A failure within the limits survives the conversion to Core and back. *)
Lemma failure_round_trip f m :
  failure_fits f → layers f ≤ MAX_INBOUND_FAILURE_LAYERS → failure_to_core f = Ok m →
  failure_from_core m = Ok f.
Proof. intros Hf Hl Hm. apply failure_round_trip_at; [done|done|lia]. Qed.

(** ** Received failures *)

(** A duration that is negative or normalized. *)
Definition core_delay_ok (d : Core.Duration) : Prop :=
  (Core.du_seconds d < 0 ∨ Core.du_nanos d < 0 ∨
    duration_ok (mkDuration (Core.du_seconds d) (Core.du_nanos d)))%Z.

Definition core_details_ok (details : option (list Core.Payload)) : Prop :=
  Forall core_payload_fits (default [] details).

(** What of a layer the bridge cannot shorten: its payloads, delay and event
    numbers. *)
Definition core_info_ok (info : Core.FailureInfo) : Prop :=
  match info with
  | Core.ApplicationFailureInfo _ _ details delay _ =>
      core_details_ok details ∧ ∀ d, delay = Some d → core_delay_ok d
  | Core.CanceledFailureInfo details _ | Core.TimeoutFailureInfo _ details
  | Core.ResetWorkflowFailureInfo details => core_details_ok details
  | Core.ActivityFailureInfo scheduled started _ _ _ _ => (0 ≤ scheduled ∧ 0 ≤ started)%Z
  | Core.ChildWorkflowExecutionFailureInfo _ _ _ initiated started _ =>
      (0 ≤ initiated ∧ 0 ≤ started)%Z
  | Core.NexusOperationExecutionFailureInfo scheduled _ _ _ _ _ => (0 ≤ scheduled)%Z
  | Core.TerminatedFailureInfo _ | Core.ServerFailureInfo _ | Core.NexusHandlerFailureInfo _ _ =>
      True
  end.

Fixpoint core_failure_ok (m : Core.Failure) : Prop :=
  match m with
  | Core.mkFailure _ _ _ attributes cause info =>
      (∀ p, attributes = Some p → core_payload_fits p) ∧
      (∀ i, info = Some i → core_info_ok i) ∧
      match cause with Some cause => core_failure_ok cause | None => True end
  end.

Lemma payload_from_core_total m : core_payload_fits m → ∃ p, payload_from_core m = Ok p ∧ payload_fits p.
Proof.
  intros Hm. eexists. assert (payload_from_core m = Ok _) as Hp by (by apply payload_from_core_Ok).
  split; [exact Hp|]. by eapply payload_from_core_fits.
Qed.

Lemma try_map_total {A B E} (f : A → result B E) (P : A → Prop) (Q : B → Prop) l :
  (∀ a, P a → ∃ b, f a = Ok b ∧ Q b) → Forall P l → ∃ k, try_map f l = Ok k ∧ Forall Q k.
Proof.
  intros Hf. induction 1 as [|a l Ha Hl (k & Hk & Hq)]; [by exists []|].
  destruct (Hf a Ha) as (b & Hb & Hqb). exists (b :: k). simpl. rewrite Hb, Hk. auto.
Qed.

Lemma payloads_from_core_total details :
  core_details_ok details → ∃ k, payloads_from_core details = Ok k ∧ Forall payload_fits k.
Proof.
  unfold core_details_ok. destruct details as [l|]; simpl; [|by exists []].
  apply try_map_total, payload_from_core_total.
Qed.

Lemma retry_delay_total delay :
  (∀ d, delay = Some d → core_delay_ok d) →
  ∃ r, try_option inbound_retry_delay_from_core delay = Ok r ∧
    ∀ d, mjoin r = Some d → duration_ok d.
Proof.
  destruct delay as [d|]; [|by exists None]. intros Hd. specialize (Hd d eq_refl). simpl.
  unfold inbound_retry_delay_from_core.
  destruct ((Core.du_seconds d <? 0)%Z || (Core.du_nanos d <? 0)%Z) eqn:Hneg.
  { exists (Some None). by split. }
  apply orb_false_iff in Hneg as [Hs%Z.ltb_ge Hn%Z.ltb_ge].
  destruct Hd as [|[|Hd]]; [lia|lia|].
  assert (duration_from_core d = Ok (mkDuration (Core.du_seconds d) (Core.du_nanos d))) as ->.
  { apply duration_from_core_Ok. split; [done|]. by destruct d. }
  eexists. split; [reflexivity|]. by intros ? [= <-].
Qed.

Lemma failure_info_from_core_total i :
  core_info_ok i → ∃ info, failure_info_from_core i = Ok info ∧ info_fits info.
Proof.
  destruct i; cbn [core_info_ok failure_info_from_core]; intros Hi.
  - destruct Hi as [Hd Hdelay]. destruct (payloads_from_core_total _ Hd) as (k & -> & Hk).
    destruct (retry_delay_total _ Hdelay) as (r & -> & Hr).
    eexists. split; [reflexivity|]. cbn. auto using inbound_text_fits.
  - destruct (payloads_from_core_total _ Hi) as (k & -> & Hk).
    eexists. split; [reflexivity|]. cbn. auto using inbound_text_fits.
  - eexists. split; [reflexivity|]. apply inbound_text_fits.
  - eexists. split; [reflexivity|]. cbn. auto using inbound_text_fits.
  - destruct workflow_execution; (eexists; split; [reflexivity|]); cbn;
      split; [repeat constructor; apply inbound_text_fits|done..|repeat constructor; apply inbound_text_fits|done].
  - destruct (payloads_from_core_total _ Hi) as (k & -> & Hk). eexists. by split.
  - eexists. by split.
  - destruct (payloads_from_core_total _ Hi) as (k & -> & Hk). eexists. by split.
  - eexists. split; [reflexivity|]. cbn.
    split; [done|]. repeat constructor; apply inbound_text_fits.
  - eexists. split; [reflexivity|]. apply inbound_text_fits.
Qed.

Lemma omitted_fits m : failure_fits (omitted_causes_failure m).
Proof.
  unfold omitted_causes_failure. cbv zeta. cbn [failure_fits]. unfold text_fits.
  split; [|by destruct (omitted_tail_non_retryable m)].
  assert (chain_length m `mod` u64_modulus < u64_modulus) as Hc by (by apply N.mod_lt).
  pose proof (pretty_u64_len _ Hc). rewrite !str_len_app.
  change (str_len (pretty MAX_INBOUND_FAILURE_LAYERS)) with 3.
  change (str_len "[truncated by ocaml-temporal: ") with 30.
  change (str_len " deeper failure causes omitted beyond ") with 38.
  change (str_len " layers]") with 8. unfold MAX_STRING_BYTES. lia.
Qed.

(** The layer numbers the conversion reaches. *)
Definition layer_ok (m : Core.Failure) (layer : N) : Prop :=
  layer < MAX_INBOUND_FAILURE_LAYERS ∨ (layer = MAX_INBOUND_FAILURE_LAYERS ∧ is_last m = true).

Lemma layer_ok_cause cause layer :
  (layer + 1 <? MAX_INBOUND_FAILURE_LAYERS) || is_last cause = true →
  layer < MAX_INBOUND_FAILURE_LAYERS → layer_ok cause (layer + 1).
Proof.
  unfold layer_ok. intros [Hl%N.ltb_lt|Hl]%orb_true_iff; [by left|].
  destruct (decide (layer + 1 < MAX_INBOUND_FAILURE_LAYERS)); [by left|]. right. split; [lia|done].
Qed.

Lemma failure_from_core_at_total m layer :
  core_failure_ok m → layer_ok m layer →
  ∃ f, failure_from_core_at m layer = Ok f ∧ failure_fits f ∧
    layer + layers f ≤ MAX_INBOUND_FAILURE_LAYERS + 1.
Proof.
  revert layer. induction m as [message source trace attributes cause info IH] using Core.core_failure_ind.
  intros layer (Ha & Hi & Hc) Hl. cbn [failure_from_core_at]. cbv zeta.
  assert (∃ i, match info with None => Ok Info_Absent | Some i => failure_info_from_core i end = Ok i ∧
    info_fits i) as (i & -> & Hfi).
  { destruct info as [i|]; [by apply failure_info_from_core_total, Hi|by exists Info_Absent]. }
  assert (∃ a, try_option payload_from_core attributes = Ok a) as [a Hattr].
  { destruct attributes as [p|]; [|by exists None].
    destruct (payload_from_core_total p (Ha p eq_refl)) as (q & Hq & _). exists (Some q).
    simpl. by rewrite Hq. }
  unfold failure_layer_from_core. rewrite Hattr.
  destruct cause as [cause|].
  2: { eexists. split; [reflexivity|]. cbn. destruct Hl as [|[? _]];
       (split; [auto using inbound_text_fits|lia]). }
  assert (layer < MAX_INBOUND_FAILURE_LAYERS) as Hlt by (by destruct Hl as [|[_ ?]]).
  destruct ((layer + 1 <? MAX_INBOUND_FAILURE_LAYERS) || is_last cause) eqn:Hkeep.
  - destruct (IH cause eq_refl (layer + 1)) as (f & Hf & Hff & Hlf); [done|by apply layer_ok_cause|].
    rewrite Hf. eexists. split; [reflexivity|]. cbn.
    split; [auto 10 using inbound_text_fits|lia].
  - eexists. split; [reflexivity|]. cbn [failure_fits layers].
    split; [auto 10 using inbound_text_fits, omitted_fits|]. simpl. lia.
Qed.

(** A received failure whose payloads, delays and event numbers are in range
    always converts, however long its texts and its chain of causes are: the
    result passes the protocol's own check and has at most a hundred layers. *)
Theorem received_failure_fits m :
  core_failure_ok m →
  ∃ f, failure_from_core m = Ok f ∧ validate_failure f "$" = Ok tt ∧
    layers f ≤ MAX_INBOUND_FAILURE_LAYERS.
Proof.
  intros Hm. destruct (failure_from_core_at_total m 1 Hm) as (f & Hf & Hff & Hl); [by left|].
  exists f. rewrite validate_failure_Ok. split_and!; [done|done|lia].
Qed.

(** ** Retryability *)

(** What one layer decides under the OCaml rule. *)
Definition info_decision (info : FailureInfo) : option bool :=
  match info with
  | Info_Application _ non_retryable _ _ _ | Info_Server non_retryable => Some non_retryable
  | Info_Canceled _ _ => Some false
  | Info_Terminated _ => Some true
  | Info_Activity _ _ _ _ _ retry_state | Info_ChildWorkflow _ _ _ _ _ _ retry_state =>
      match retry_state with
      | RetryState_NonRetryableFailure | RetryState_MaximumAttemptsReached => Some true
      | RetryState_RetryPolicyNotSet | RetryState_Unspecified => None
      | _ => Some false
      end
  | Info_NexusHandler _ Nexus_NonRetryable => Some true
  | Info_NexusHandler _ Nexus_Retryable => Some false
  | Info_NexusHandler type_name Nexus_Unspecified =>
      Some (nexus_handler_type_non_retryable type_name)
  | Info_Timeout _ _ | Info_ResetWorkflow _ | Info_NexusOperation _ | Info_Absent => None
  end.

Lemma non_retryable_step fuel f :
  failure_non_retryable_loop fuel f =
  match info_decision (f_info f) with
  | Some decision => decision
  | None =>
      match f_cause f, fuel with
      | Some cause, S fuel => failure_non_retryable_loop fuel cause
      | _, _ => false
      end
  end.
Proof.
  destruct fuel; cbn [failure_non_retryable_loop];
    destruct (f_info f); cbn [info_decision]; try destruct retry_state; try destruct retry_behavior;
    try done.
Qed.

(** No marked text is one of the names the rule looks for. *)
Lemma nexus_type_kept type_name :
  nexus_handler_type_non_retryable (inbound_text type_name) =
  nexus_handler_type_non_retryable type_name.
Proof.
  destruct (decide (text_fits type_name)) as [Hs|Hs]; [by rewrite inbound_text_id|].
  destruct (inbound_text_cut type_name Hs) as [_ Hlen]. pose proof (marker_len type_name) as Hm.
  assert (∀ s, 50 ≤ str_len s → nexus_handler_type_non_retryable s = false) as Hlong.
  { intros s Hl. apply bool_decide_eq_false. intros Hin.
    repeat (apply elem_of_cons in Hin as [->|Hin]; [by vm_compute in Hl|]).
    by apply elem_of_nil in Hin. }
  rewrite !Hlong; [done| |]; [unfold text_fits, MAX_STRING_BYTES in Hs; lia|lia].
Qed.

Lemma failure_info_decision i info :
  failure_info_from_core i = Ok info → info_decision info = layer_decision (Some i).
Proof.
  destruct i; cbn [failure_info_from_core layer_decision]; intros Hi;
    repeat (apply bind_Ok in Hi as (? & _ & Hi)); try (injection Hi as <-); cbn [info_decision].
  all: try done.
  - unfold retry_state_from_core, wrapper_decision. by destruct (try_from_i32 retry_state) as [[]|].
  - destruct workflow_execution; injection Hi as <-; cbn [info_decision];
      unfold retry_state_from_core, wrapper_decision; by destruct (try_from_i32 retry_state) as [[]|].
  - rewrite nexus_type_kept. unfold nexus_retry_behavior_from_core.
    by destruct (try_from_i32 retry_behavior) as [[]|].
Qed.

Lemma retryability_at m layer f fuel :
  failure_from_core_at m layer = Ok f → layers f ≤ N.of_nat fuel + 1 →
  failure_non_retryable_loop fuel f = omitted_tail_non_retryable m.
Proof.
  revert layer f fuel.
  induction m as [message source trace attributes cause info IH] using Core.core_failure_ind.
  intros layer f fuel. cbn [failure_from_core_at omitted_tail_non_retryable]. cbv zeta.
  rewrite bind_Ok. intros (i & Hi & Hf). unfold failure_layer_from_core in Hf.
  apply bind_Ok in Hf as (c & Hc & (a & _ & [= <-])%bind_Ok).
  assert (info_decision i = layer_decision info) as Hd.
  { destruct info as [core|]; [by apply failure_info_decision|by injection Hi as <-]. }
  intros Hl. rewrite non_retryable_step. cbn [f_info f_cause]. rewrite Hd.
  destruct (layer_decision info); [done|]. destruct cause as [cause|]; [|by injection Hc as <-].
  destruct (_ || _) in Hc.
  - apply bind_Ok in Hc as (g & Hg & [= <-]). cbn [layers] in Hl. pose proof (layers_pos g).
    destruct fuel as [|fuel]; [lia|]. eapply IH; [done|done|lia].
  - injection Hc as <-. cbn [layers] in Hl. destruct fuel as [|fuel]; [simpl in Hl; lia|].
    rewrite non_retryable_step. unfold omitted_causes_failure. cbn [f_info f_cause].
    by destruct (omitted_tail_non_retryable cause).
Qed.

Lemma converted_layers m f : failure_from_core m = Ok f → layers f ≤ MAX_INBOUND_FAILURE_LAYERS.
Proof.
  assert (∀ layer f, layer_ok m layer → failure_from_core_at m layer = Ok f →
    layer + layers f ≤ MAX_INBOUND_FAILURE_LAYERS + 1) as Hall.
  { clear f. induction m as [message source trace attributes cause info IH] using Core.core_failure_ind.
    intros layer f Hl. cbn [failure_from_core_at]. cbv zeta. rewrite bind_Ok.
    intros (i & _ & Hf). unfold failure_layer_from_core in Hf.
    apply bind_Ok in Hf as (c & Hc & (a & _ & [= <-])%bind_Ok). cbn [layers].
    destruct cause as [cause|]; [|injection Hc as <-; destruct Hl as [|[? _]]; lia].
    assert (layer < MAX_INBOUND_FAILURE_LAYERS) as Hlt by (by destruct Hl as [|[_ ?]]).
    destruct (_ || _) eqn:Hkeep in Hc.
    - apply bind_Ok in Hc as (g & Hg & [= <-]).
      pose proof (IH cause eq_refl (layer + 1) g (layer_ok_cause _ _ Hkeep Hlt) Hg). lia.
    - injection Hc as <-. simpl. lia. }
  intros Hf. pose proof (Hall 1 f (or_introl eq_refl) Hf). lia.
Qed.

(** C10: the retryability that the OCaml side computes from a converted failure is
    what the walk over the whole chain that Core sent decides, whether or not the
    conversion cut the chain, shortened a text or met an unknown enum number. *)
Theorem conversion_keeps_retryability m f :
  failure_from_core m = Ok f → failure_non_retryable f = omitted_tail_non_retryable m.
Proof.
  intros Hf. apply (retryability_at m 1); [done|].
  pose proof (converted_layers m f Hf). unfold MAX_INBOUND_FAILURE_LAYERS in *. lia.
Qed.

End Theorems.
