(* ===== verification/ActivationConversion.v ===== *)
(** * Conversion of activations

    [activation_from_core] of src/rust/core-bridge/src/workflow_protocol.rs.  A
    rejected activation fails again on every replay of its history, so the
    theorem is totality: an activation whose identifiers, payloads and times are
    in range is accepted whatever its free texts, sender identities, map keys,
    failure chains, advisory enum numbers and recorded retry policies are. *)

From stdpp Require Import pretty.
From S2P Require Import Prelude.
From S2P Require Import Text.
From S2P Require Import Protocol.
From S2P Require Import WorkflowTypes.
From S2P Require Import CoreMessages.
From S2P Require Import WorkflowChecks.
From S2P Require Import ActivationChecks.
From S2P Require Import CoreConversion.
From S2P Require Import FailureConversion.
Local Open Scope N_scope.
Local Open Scope bridge_scope.

Section Conversion.
Context `{CoreEnums}.

(** ** Starts *)

Definition continuation_initiator_from_core (value : Z) : ContinueAsNewInitiator :=
  match default Core.Initiator_Unspecified (try_from_i32 value) with
  | Core.Initiator_Unspecified => Initiator_Unspecified
  | Core.Initiator_Workflow => Initiator_Workflow
  | Core.Initiator_Retry => Initiator_Retry
  | Core.Initiator_CronSchedule => Initiator_CronSchedule
  end.

Definition option_is_none {A} (o : option A) : bool :=
  match o with None => true | Some _ => false end.

Definition continuation_from_core (value : Core.InitializeWorkflow) :
    result (option Continuation) CoreConversionError :=
  if str_is_empty (Core.iw_continued_from_execution_run_id value) &&
     (Core.iw_continued_initiator value =? 0)%Z &&
     option_is_none (Core.iw_continued_failure value) &&
     option_is_none (Core.iw_last_completion_result value)
  then Ok None
  else if MAX_STRING_BYTES <? str_len (Core.iw_continued_from_execution_run_id value) then
    Err (invalid_core "Core continuation run ID exceeds the protocol limit")
  else
    let? continued_failure := try_option failure_from_core (Core.iw_continued_failure value) in
    let? last_completion_result :=
      payloads_option_from_core (Core.iw_last_completion_result value) in
    Ok (Some (mkContinuation (Core.iw_continued_from_execution_run_id value)
      (continuation_initiator_from_core (Core.iw_continued_initiator value)) continued_failure
      last_completion_result)).

Definition validate_initialize_subset (value : Core.InitializeWorkflow)
    (continuation : option Continuation) : result () CoreConversionError :=
  if negb (str_is_empty (Core.iw_cron_schedule value)) ||
     (Core.iw_continued_initiator value =? as_i32 Core.Initiator_CronSchedule)%Z
  then Err (unsupported "cron schedules are not supported by the OCaml worker")
  else
    let supported_continuation :=
      match continuation with
      | Some value =>
          match ct_initiator value with
          | Initiator_Workflow | Initiator_Retry => true
          | _ => false
          end
      | None => false
      end in
    if negb supported_continuation &&
       match Core.iw_cron_schedule_to_schedule_interval value with
       | Some duration =>
           negb (Core.du_seconds duration =? 0)%Z || negb (Core.du_nanos duration =? 0)%Z
       | None => false
       end
    then Err (unsupported "root start delay is not supported by the OCaml worker")
    else Ok tt.

Definition duration_copy (value : Core.Duration) : Duration :=
  mkDuration (Core.du_seconds value) (Core.du_nanos value).

Definition context_from_core (value : Core.InitializeWorkflow) (continuation : option Continuation) :
    result InitializeContext CoreConversionError :=
  let? headers := inbound_payload_map_from_core (Core.iw_headers value) in
  let? memo := try_option inbound_payload_map_from_core (Core.iw_memo value) in
  let? search_attributes := try_option payload_map_from_core (Core.iw_search_attributes value) in
  let? workflow_execution_timeout :=
    try_option duration_from_core (Core.iw_workflow_execution_timeout value) in
  let? workflow_run_timeout :=
    try_option duration_from_core (Core.iw_workflow_run_timeout value) in
  let? workflow_task_timeout :=
    try_option duration_from_core (Core.iw_workflow_task_timeout value) in
  let? retry_policy := try_option inbound_retry_policy_from_core (Core.iw_retry_policy value) in
  Ok {|
    ic_headers := headers;
    ic_memo := memo;
    ic_search_attributes := search_attributes;
    ic_workflow_execution_expiration_time :=
      timestamp_copy <$> Core.iw_workflow_execution_expiration_time value;
    ic_first_workflow_task_backoff :=
      duration_copy <$> Core.iw_cron_schedule_to_schedule_interval value;
    ic_identity := inbound_text (Core.iw_identity value);
    ic_parent_workflow :=
      (λ parent, mkNamespacedWorkflowExecution (Core.nwe_namespace parent)
        (Core.nwe_workflow_id parent) (Core.nwe_run_id parent))
      <$> Core.iw_parent_workflow_info value;
    ic_workflow_execution_timeout := workflow_execution_timeout;
    ic_workflow_run_timeout := workflow_run_timeout;
    ic_workflow_task_timeout := workflow_task_timeout;
    ic_first_execution_run_id := Core.iw_first_execution_run_id value;
    ic_start_time := timestamp_copy <$> Core.iw_start_time value;
    ic_root_workflow :=
      (λ root, mkWorkflowExecution (Core.we_workflow_id root) (Core.we_run_id root))
      <$> Core.iw_root_workflow value;
    ic_priority := priority_copy <$> Core.iw_priority value;
    ic_retry_policy := retry_policy;
    ic_continuation := continuation
  |}.

(** The arm of a start in [activation_from_core]. *)
Definition initialize_from_core (value : Core.InitializeWorkflow) :
    result ActivationJob CoreConversionError :=
  let? continuation := continuation_from_core value in
  let? _ := validate_initialize_subset value continuation in
  let? arguments := payload_vec_from_core (Core.iw_arguments value) in
  let? context := context_from_core value continuation in
  Ok (InitializeWorkflow (Core.iw_workflow_id value) (Core.iw_workflow_type value) arguments
    (pretty (Core.iw_randomness_seed value)) (Core.iw_attempt value) (Some context)).

(** ** Resolutions *)

Definition activity_resolution_from_core (status : option Core.ActivityStatus) (is_local : bool) :
    result ActivityResolution CoreConversionError :=
  let? status := ok_or status (invalid_core "Core activity resolution status is absent") in
  match status with
  | Core.Status_Completed value =>
      let? payload := try_option payload_from_core value in
      Ok (Activity_Completed payload)
  | Core.Status_Failed failure =>
      let? failure := required_failure_from_core failure "Core failed activity has no failure" in
      Ok (Activity_Failed failure)
  | Core.Status_Cancelled failure =>
      let? failure := required_failure_from_core failure "Core cancelled activity has no failure" in
      Ok (Activity_Cancelled failure)
  | Core.Status_Backoff attempt backoff_duration original_schedule_time =>
      if negb is_local then Err (unsupported "remote activity backoff is not supported")
      else if attempt =? 0 then Err (invalid_core "Core local activity backoff attempt is zero")
      else
        let? backoff_duration :=
          ok_or backoff_duration (invalid_core "Core local activity backoff duration is absent") in
        let? backoff_duration := duration_from_core backoff_duration in
        let? original_schedule_time :=
          try_option
            (λ timestamp,
              let? _ :=
                map_err (λ _, invalid_core "Core local activity schedule timestamp is invalid")
                  (validate_timestamp (timestamp_copy timestamp) "$") in
              Ok (timestamp_copy timestamp))
            original_schedule_time in
        Ok (Activity_Backoff attempt backoff_duration original_schedule_time)
  end.

Definition child_start_failure_cause_from_core (value : Z) :
    result ChildWorkflowStartFailureCause CoreConversionError :=
  let? cause := ok_or (try_from_i32 value) (invalid_core "unknown Core child start failure cause") in
  Ok match cause with
     | Core.Cause_Unspecified | Core.Cause_NamespaceNotFound
     | Core.Cause_InvalidVersioningOverride => Cause_Unspecified
     | Core.Cause_WorkflowAlreadyExists => Cause_WorkflowAlreadyExists
     end.

Definition child_workflow_start_resolution_from_core (status : option Core.ChildStartStatus) :
    result ChildWorkflowStartResolution CoreConversionError :=
  let? status := ok_or status (invalid_core "Core child start resolution status is absent") in
  match status with
  | Core.ChildStart_Succeeded run_id => Ok (ChildStart_Succeeded run_id)
  | Core.ChildStart_Failed workflow_id workflow_type cause =>
      let? cause := child_start_failure_cause_from_core cause in
      Ok (ChildStart_Failed workflow_id workflow_type cause)
  | Core.ChildStart_Cancelled failure =>
      let? failure :=
        required_failure_from_core failure "Core cancelled child start has no failure" in
      Ok (ChildStart_Cancelled failure)
  end.

Definition child_workflow_resolution_from_core (status : option Core.ChildStatus) :
    result ChildWorkflowResolution CoreConversionError :=
  let? status := ok_or status (invalid_core "Core child workflow result status is absent") in
  match status with
  | Core.Child_Completed value =>
      let? payload := try_option payload_from_core value in
      Ok (Child_Completed payload)
  | Core.Child_Failed failure =>
      let? failure :=
        required_failure_from_core failure "Core failed child workflow has no failure" in
      Ok (Child_Failed failure)
  | Core.Child_Cancelled failure =>
      let? failure :=
        required_failure_from_core failure "Core cancelled child workflow has no failure" in
      Ok (Child_Cancelled failure)
  end.

Definition external_workflow_resolution_from_core (failure : option Core.Failure) :
    result ExternalWorkflowResolution CoreConversionError :=
  match failure with
  | None => Ok External_Succeeded
  | Some failure =>
      let? failure := failure_from_core failure in
      Ok (External_Failed failure)
  end.

Definition eviction_reason_from_core (value : Z) : result EvictionReason CoreConversionError :=
  let? reason := ok_or (try_from_i32 value) (invalid_core "unknown Core eviction reason") in
  Ok match reason with
     | Core.Eviction_Unspecified => Eviction_Unspecified
     | Core.Eviction_CacheFull => Eviction_CacheFull
     | Core.Eviction_CacheMiss => Eviction_CacheMiss
     | Core.Eviction_Nondeterminism => Eviction_Nondeterminism
     | Core.Eviction_LangFail => Eviction_LangFail
     | Core.Eviction_LangRequested => Eviction_LangRequested
     | Core.Eviction_TaskNotFound => Eviction_TaskNotFound
     | Core.Eviction_UnhandledCommand => Eviction_UnhandledCommand
     | Core.Eviction_Fatal => Eviction_Fatal
     | Core.Eviction_PaginationOrHistoryFetch => Eviction_PaginationOrHistoryFetch
     | Core.Eviction_WorkflowExecutionEnding => Eviction_WorkflowExecutionEnding
     end.

Definition suggestion_from_core (value : Z) : SuggestContinueAsNewReason :=
  match default Core.Suggest_Unspecified (try_from_i32 value) with
  | Core.Suggest_Unspecified => Suggest_Unspecified
  | Core.Suggest_HistorySizeTooLarge => Suggest_HistorySizeTooLarge
  | Core.Suggest_TooManyHistoryEvents => Suggest_TooManyHistoryEvents
  | Core.Suggest_TooManyUpdates => Suggest_TooManyUpdates
  end.

(** ** Jobs *)

(** The arm of an update: the top-level identifier is authoritative. *)
Definition update_from_core (id protocol_instance_id name : string) (input : list Core.Payload)
    (headers : gmap string Core.Payload) (meta : option Core.UpdateMeta) (run_validator : bool) :
    result ActivationJob CoreConversionError :=
  let? meta := ok_or meta (invalid_core "Core update metadata is absent") in
  if negb (str_is_empty (Core.um_update_id meta)) &&
     negb (bool_decide (Core.um_update_id meta = id))
  then Err (invalid_core "Core update metadata ID does not match update ID")
  else
    let? input := payload_vec_from_core input in
    let? headers := inbound_payload_map_from_core headers in
    Ok (DoUpdate id protocol_instance_id name input headers
      (mkUpdateMeta (inbound_identity (Core.um_identity meta)) id) run_validator).

(** The closure of [activation_from_core] over one job. *)
Definition job_from_core (job : option Core.JobVariant) :
    result ActivationJob CoreConversionError :=
  let? job := ok_or job (invalid_core "Core activation job variant is absent") in
  match job with
  | Core.Job_InitializeWorkflow value => initialize_from_core value
  | Core.Job_ResolveActivity seq result is_local =>
      let? result := ok_or result (invalid_core "Core activity result is absent") in
      let? result := activity_resolution_from_core result is_local in
      Ok (ResolveActivity seq result)
  | Core.Job_ResolveChildWorkflowExecutionStart seq status =>
      let? result := child_workflow_start_resolution_from_core status in
      Ok (ResolveChildWorkflowStart seq result)
  | Core.Job_ResolveChildWorkflowExecution seq result =>
      let? result := ok_or result (invalid_core "Core child workflow result is absent") in
      let? result := child_workflow_resolution_from_core result in
      Ok (ResolveChildWorkflow seq result)
  | Core.Job_ResolveSignalExternalWorkflow seq failure =>
      let? result := external_workflow_resolution_from_core failure in
      Ok (ResolveSignalExternalWorkflow seq result)
  | Core.Job_ResolveRequestCancelExternalWorkflow seq failure =>
      let? result := external_workflow_resolution_from_core failure in
      Ok (ResolveRequestCancelExternalWorkflow seq result)
  | Core.Job_SignalWorkflow signal_name input identity headers =>
      let? input := payload_vec_from_core input in
      let? headers := inbound_payload_map_from_core headers in
      Ok (SignalWorkflow signal_name input (inbound_identity identity) headers)
  | Core.Job_QueryWorkflow query_id query_type arguments headers =>
      let? arguments := payload_vec_from_core arguments in
      let? headers := inbound_payload_map_from_core headers in
      Ok (QueryWorkflow query_id query_type arguments headers)
  | Core.Job_DoUpdate id protocol_instance_id name input headers meta run_validator =>
      update_from_core id protocol_instance_id name input headers meta run_validator
  | Core.Job_NotifyHasPatch patch_id => Ok (NotifyHasPatch patch_id)
  | Core.Job_UpdateRandomSeed randomness_seed => Ok (UpdateRandomSeed (pretty randomness_seed))
  | Core.Job_FireTimer seq => Ok (FireTimer seq)
  | Core.Job_CancelWorkflow reason => Ok (Job_CancelWorkflow (inbound_text reason))
  | Core.Job_RemoveFromCache message reason =>
      let? reason := eviction_reason_from_core reason in
      Ok (RemoveFromCache (inbound_text message) reason)
  | Core.Job_Other => Err (unsupported "Core activation job kind is not supported")
  end.

Definition metadata_from_core (value : Core.WorkflowActivation) : ActivationMetadata := {|
  am_available_internal_flags := Core.wa_available_internal_flags value;
  am_history_size_bytes := pretty (Core.wa_history_size_bytes value);
  am_continue_as_new_suggested := Core.wa_continue_as_new_suggested value;
  am_deployment_version_for_current_task :=
    (λ version, mkWorkerDeploymentVersion (inbound_text (Core.deployment_name version))
      (Core.build_id version))
    <$> Core.wa_deployment_version_for_current_task value;
  am_last_sdk_version := inbound_text (Core.wa_last_sdk_version value);
  am_suggest_continue_as_new_reasons :=
    map suggestion_from_core (Core.wa_suggest_continue_as_new_reasons value);
  am_target_worker_deployment_version_changed :=
    Core.wa_target_worker_deployment_version_changed value
|}.

Definition activation_from_core (value : Core.WorkflowActivation) :
    result Activation CoreConversionError :=
  let? jobs := try_map job_from_core (Core.wa_jobs value) in
  let activation := {|
    ac_run_id := Core.wa_run_id value;
    ac_timestamp := timestamp_copy <$> Core.wa_timestamp value;
    ac_is_replaying := Core.wa_is_replaying value;
    ac_history_length := Core.wa_history_length value;
    ac_jobs := jobs;
    ac_metadata := Some (metadata_from_core value)
  |} in
  let? _ :=
    map_err (λ _, invalid_core "Core activation violates semantic protocol invariants")
      (validate_activation activation) in
  Ok activation.

End Conversion.

(** ** Activations that Core may send *)

Section Totality.
Context `{CoreEnumsLaws}.

(** A map of headers or memo fields: any UTF-8 keys. *)
Definition core_fields_ok (m : gmap string Core.Payload) : Prop :=
  map_Forall (λ key payload, utf8_valid key = true ∧
    (addressable_map_key key = true → core_payload_fits payload)) m.

Definition core_interval_ok (o : option Core.Duration) : Prop := if_some core_delay_ok o.

Definition core_retry_policy_ok (p : Core.RetryPolicy) : Prop :=
  core_interval_ok (Core.initial_interval p) ∧ core_interval_ok (Core.maximum_interval p) ∧
  Core.backoff_coefficient p < u64_modulus ∧ (0 ≤ Core.maximum_attempts p)%Z.

(** A first-task delay belongs to a run continued by its workflow or a retry. *)
Definition core_start_delay_ok (v : Core.InitializeWorkflow) : Prop :=
  if_some (λ d, duration_ok (duration_copy d)) (Core.iw_cron_schedule_to_schedule_interval v) ∧
  (if_some (λ d, Core.du_seconds d = 0 ∧ Core.du_nanos d = 0)%Z
     (Core.iw_cron_schedule_to_schedule_interval v) ∨
   try_from_i32 (Core.iw_continued_initiator v) = Some Core.Initiator_Workflow ∨
   try_from_i32 (Core.iw_continued_initiator v) = Some Core.Initiator_Retry).

Definition core_continuation_ok (v : Core.InitializeWorkflow) : Prop :=
  (Core.iw_continued_from_execution_run_id v ≠ "" →
    is_identifier (Core.iw_continued_from_execution_run_id v)) ∧
  if_some core_failure_ok (Core.iw_continued_failure v) ∧
  if_some (Forall core_payload_fits) (Core.iw_last_completion_result v).

Definition core_initialize_ok (v : Core.InitializeWorkflow) : Prop :=
  (is_identifier (Core.iw_workflow_id v) ∧ is_identifier (Core.iw_workflow_type v) ∧
   is_identifier (Core.iw_first_execution_run_id v)) ∧
  (1 ≤ Core.iw_attempt v)%Z ∧ Core.iw_randomness_seed v < u64_modulus ∧
  Forall core_payload_fits (Core.iw_arguments v) ∧
  core_fields_ok (Core.iw_headers v) ∧ if_some core_fields_ok (Core.iw_memo v) ∧
  if_some (map_Forall (λ key payload, is_identifier key ∧ core_payload_fits payload))
    (Core.iw_search_attributes v) ∧
  if_some (λ t, time_ok (Core.ts_nanos t)) (Core.iw_workflow_execution_expiration_time v) ∧
  if_some (λ t, time_ok (Core.ts_nanos t)) (Core.iw_start_time v) ∧
  Core.iw_cron_schedule v = "" ∧
  Core.iw_continued_initiator v ≠ as_i32 Core.Initiator_CronSchedule ∧ core_start_delay_ok v ∧
  if_some (λ p, is_identifier (Core.nwe_namespace p) ∧ is_identifier (Core.nwe_workflow_id p) ∧
    is_identifier (Core.nwe_run_id p)) (Core.iw_parent_workflow_info v) ∧
  Forall (if_some (λ d, duration_ok (duration_copy d)))
    [Core.iw_workflow_execution_timeout v; Core.iw_workflow_run_timeout v;
     Core.iw_workflow_task_timeout v] ∧
  if_some (λ r, is_identifier (Core.we_workflow_id r) ∧ is_identifier (Core.we_run_id r))
    (Core.iw_root_workflow v) ∧
  if_some (λ p, str_len (Core.fairness_key p) ≤ 64) (Core.iw_priority v) ∧
  if_some core_retry_policy_ok (Core.iw_retry_policy v) ∧ core_continuation_ok v.

Definition core_job_ok (job : Core.JobVariant) : Prop :=
  match job with
  | Core.Job_InitializeWorkflow v => core_initialize_ok v
  | Core.Job_ResolveActivity _ result is_local =>
      match result with
      | Some (Some (Core.Status_Completed p)) => if_some core_payload_fits p
      | Some (Some (Core.Status_Failed f | Core.Status_Cancelled f)) =>
          ∃ m, f = Some m ∧ core_failure_ok m
      | Some (Some (Core.Status_Backoff attempt backoff time)) =>
          is_local = true ∧ attempt ≠ 0 ∧
          (∃ d, backoff = Some d ∧ duration_ok (duration_copy d)) ∧
          if_some (λ t, time_ok (Core.ts_nanos t)) time
      | _ => False
      end
  | Core.Job_ResolveChildWorkflowExecutionStart _ status =>
      match status with
      | Some (Core.ChildStart_Succeeded run_id) => is_identifier run_id
      | Some (Core.ChildStart_Failed workflow_id workflow_type cause) =>
          is_identifier workflow_id ∧ is_identifier workflow_type ∧
          ∃ c : Core.StartChildWorkflowExecutionFailedCause, cause = as_i32 c
      | Some (Core.ChildStart_Cancelled f) => ∃ m, f = Some m ∧ core_failure_ok m
      | None => False
      end
  | Core.Job_ResolveChildWorkflowExecution _ result =>
      match result with
      | Some (Some (Core.Child_Completed p)) => if_some core_payload_fits p
      | Some (Some (Core.Child_Failed f | Core.Child_Cancelled f)) =>
          ∃ m, f = Some m ∧ core_failure_ok m
      | _ => False
      end
  | Core.Job_ResolveSignalExternalWorkflow _ failure
  | Core.Job_ResolveRequestCancelExternalWorkflow _ failure => if_some core_failure_ok failure
  | Core.Job_SignalWorkflow name input identity headers =>
      is_identifier name ∧ Forall core_payload_fits input ∧ utf8_valid identity = true ∧
      core_fields_ok headers
  | Core.Job_QueryWorkflow query_id query_type arguments headers =>
      is_identifier query_id ∧ is_identifier query_type ∧ Forall core_payload_fits arguments ∧
      core_fields_ok headers
  | Core.Job_DoUpdate id protocol_instance_id name input headers meta _ =>
      (is_identifier id ∧ is_identifier protocol_instance_id ∧ is_identifier name) ∧
      Forall core_payload_fits input ∧ core_fields_ok headers ∧
      ∃ m, meta = Some m ∧ (Core.um_update_id m = "" ∨ Core.um_update_id m = id)
  | Core.Job_NotifyHasPatch patch_id => is_identifier patch_id
  | Core.Job_UpdateRandomSeed seed => seed < u64_modulus
  | Core.Job_FireTimer _ | Core.Job_CancelWorkflow _ => True
  | Core.Job_RemoveFromCache _ reason => ∃ r : Core.EvictionReason, reason = as_i32 r
  | Core.Job_Other => False
  end.

Definition core_is_eviction (job : option Core.JobVariant) : bool :=
  match job with Some (Core.Job_RemoveFromCache _ _) => true | _ => false end.
Definition core_is_initialize (job : option Core.JobVariant) : bool :=
  match job with Some (Core.Job_InitializeWorkflow _) => true | _ => false end.
Definition core_query_id (job : option Core.JobVariant) : option string :=
  match job with Some (Core.Job_QueryWorkflow id _ _ _) => Some id | _ => None end.
Definition core_update_id (job : option Core.JobVariant) : option string :=
  match job with Some (Core.Job_DoUpdate id _ _ _ _ _ _) => Some id | _ => None end.
Definition core_update_protocol_id (job : option Core.JobVariant) : option string :=
  match job with Some (Core.Job_DoUpdate _ id _ _ _ _ _) => Some id | _ => None end.

Definition core_activation_ok (m : Core.WorkflowActivation) : Prop :=
  is_identifier (Core.wa_run_id m) ∧
  Forall (λ job, ∃ j, job = Some j ∧ core_job_ok j) (Core.wa_jobs m) ∧
  (∀ job, job ∈ Core.wa_jobs m → core_is_eviction job = true → length (Core.wa_jobs m) = 1%nat) ∧
  match Core.wa_timestamp m with
  | Some t => time_ok (Core.ts_nanos t)
  | None => ∃ job, job ∈ Core.wa_jobs m ∧ core_is_eviction job = true
  end ∧
  (∀ i job, Core.wa_jobs m !! i = Some job → core_is_initialize job = true → i = 0%nat) ∧
  (∀ job job', job ∈ Core.wa_jobs m → job' ∈ Core.wa_jobs m →
    is_Some (core_query_id job) ↔ is_Some (core_query_id job')) ∧
  NoDup (omap core_query_id (Core.wa_jobs m)) ∧ NoDup (omap core_update_id (Core.wa_jobs m)) ∧
  NoDup (omap core_update_protocol_id (Core.wa_jobs m)) ∧
  Core.wa_history_size_bytes m < u64_modulus ∧
  if_some (λ v, is_identifier (Core.build_id v)) (Core.wa_deployment_version_for_current_task m).

(** ** Every part converts *)

Lemma collect_map_total {A B} (f : A → result B CoreConversionError) (P : string → A → Prop) m l :
  l ≡ₚ map_to_list m → map_Forall P m → (∀ k a, P k a → ∃ b, f a = Ok b) →
  ∃ m', collect_map f l = Ok m' ∧ ∀ k, is_Some (m' !! k) → is_Some (m !! k).
Proof.
  intros Hl Hm Hf.
  destruct (try_map_total (λ e : string * A, let? value := f e.2 in Ok (e.1, value))
    (λ e, P e.1 e.2) (λ _, True) l) as (k & Hk & _).
  { intros [key a] Ha. destruct (Hf key a Ha) as (b & Hb). simpl. rewrite Hb. eauto. }
  { rewrite Hl. apply map_Forall_to_list in Hm. eapply Forall_impl; [exact Hm|]. by intros []. }
  assert (collect_map f l = Ok (list_to_map k)) as Hc by (unfold collect_map; by rewrite Hk).
  exists (list_to_map k). split; [done|]. intros key [b Hb].
  pose proof (proj1 (collect_map_exact f m l _ Hl) Hc key) as Hkey. rewrite Hb in Hkey.
  by destruct (m !! key).
Qed.

Lemma list_filter_map {A} (p : string → bool) (m : gmap string A) :
  List.filter (λ e : string * A, p e.1) (map_to_list m) ≡ₚ
  map_to_list (filter (λ e : string * A, p e.1 = true) m).
Proof.
  apply NoDup_Permutation;
    [apply NoDup_ListNoDup, List.NoDup_filter, NoDup_ListNoDup, NoDup_map_to_list
    |apply NoDup_map_to_list|].
  intros [k v]. rewrite list_elem_of_In, filter_In, <-list_elem_of_In.
  rewrite !elem_of_map_to_list, map_lookup_filter_Some. done.
Qed.

Lemma inbound_fields_total m :
  core_fields_ok m → ∃ m', inbound_payload_map_from_core m = Ok m' ∧ keys_ok m'.
Proof.
  intros Hm. unfold inbound_payload_map_from_core.
  destruct (collect_map_total payload_from_core (λ _ p, core_payload_fits p)
    (filter (λ e : string * Core.Payload, addressable_map_key e.1 = true) m)
    (List.filter (λ e : string * Core.Payload, addressable_map_key e.1) (map_to_list m)))
    as (m' & Hm' & Hkeys).
  { apply list_filter_map. }
  { intros k p [Hp Hk]%map_lookup_filter_Some. by apply (Hm k p Hp). }
  { intros _ p Hp. destruct (payload_from_core_total p Hp) as (q & ? & _). eauto. }
  exists m'. split; [done|]. intros k v Hv.
  destruct (Hkeys k) as [p [Hp Ha]%map_lookup_filter_Some]; [eauto|]. simpl in Ha.
  unfold addressable_map_key in Ha. rewrite !andb_true_iff, !negb_true_iff, N.leb_le, str_not_empty in Ha.
  destruct Ha as [[? ?] ?]. destruct (Hm k p Hp) as [? _]. done.
Qed.

Lemma payload_fields_total m :
  map_Forall (λ key payload, is_identifier key ∧ core_payload_fits payload) m →
  ∃ m', payload_map_from_core m = Ok m' ∧ keys_ok m'.
Proof.
  intros Hm. destruct (collect_map_total payload_from_core (λ key p, is_identifier key ∧ core_payload_fits p)
    m (map_to_list m)) as (m' & Hm' & Hkeys); [done|done| |].
  { intros _ p [_ Hp]. destruct (payload_from_core_total p Hp) as (q & ? & _). eauto. }
  exists m'. split; [done|]. intros k v Hv. destruct (Hkeys k) as [p Hp]; [eauto|].
  by destruct (Hm k p Hp).
Qed.

Lemma try_option_total {A B} (f : A → result B CoreConversionError) (P : A → Prop) (Q : B → Prop) o :
  (∀ a, P a → ∃ b, f a = Ok b ∧ Q b) → if_some P o → ∃ r, try_option f o = Ok r ∧ if_some Q r.
Proof.
  intros Hf Ho. destruct o as [a|]; [|by exists None].
  destruct (Hf a (Ho a eq_refl)) as (b & Hb & Hq). exists (Some b). simpl. rewrite Hb.
  split; [done|]. by intros ? [= <-].
Qed.

Lemma payloads_total l :
  Forall core_payload_fits l → ∃ k, payload_vec_from_core l = Ok k.
Proof.
  intros Hl. destruct (try_map_total payload_from_core _ _ l payload_from_core_total Hl) as (k & ? & _).
  eauto.
Qed.

Lemma duration_total d : duration_ok (duration_copy d) → duration_from_core d = Ok (duration_copy d).
Proof. intros Hd. apply duration_from_core_Ok. split; [done|]. by destruct d. Qed.

Lemma durations_total o :
  if_some (λ d, duration_ok (duration_copy d)) o →
  ∃ r, try_option duration_from_core o = Ok r ∧ if_some duration_ok r.
Proof.
  apply try_option_total. intros d Hd. exists (duration_copy d).
  split; [by apply duration_total|done].
Qed.

Lemma failure_total m :
  core_failure_ok m → ∃ f, failure_from_core m = Ok f ∧ failure_fits f.
Proof.
  intros Hm. destruct (failure_from_core_at_total m 1 Hm) as (f & Hf & Hff & _); [by left|]. eauto.
Qed.

Lemma interval_total o : core_interval_ok o → ∃ d, inbound_interval o = Ok d ∧ duration_ok d.
Proof.
  intros Ho. assert (∃ d, inbound_interval o = Ok d) as [d Hd].
  { destruct o as [m|]; simpl; [|eauto]. destruct (_ && _) eqn:Hpos; [|eauto].
    apply andb_true_iff in Hpos as [Hs%Z.leb_le Hn%Z.leb_le].
    destruct (Ho m eq_refl) as [|[|Hm]]; [lia|lia|]. rewrite duration_total by done. eauto. }
  exists d. split; [done|]. by eapply inbound_interval_ok.
Qed.

Lemma retry_policy_total p :
  core_retry_policy_ok p → ∃ q, inbound_retry_policy_from_core p = Ok q ∧ inbound_retry_policy_ok q.
Proof.
  intros (Hi & Hm & Hb & Ha). destruct (interval_total _ Hi) as (i & Hi' & Hiok).
  destruct (interval_total _ Hm) as (x & Hx & Hxok).
  unfold inbound_retry_policy_from_core. rewrite Hi', Hx. eexists. split; [reflexivity|].
  unfold inbound_retry_policy_ok. simpl. split_and!; try done; [by eexists|].
  apply Forall_forall. intros s (e & -> & _)%list_elem_of_fmap. apply inbound_text_fits.
Qed.

Lemma continuation_total v :
  core_continuation_ok v →
  ∃ c, continuation_from_core v = Ok c ∧ if_some continuation_ok c ∧
    (try_from_i32 (Core.iw_continued_initiator v) = Some Core.Initiator_Workflow ∨
     try_from_i32 (Core.iw_continued_initiator v) = Some Core.Initiator_Retry →
     ∃ x, c = Some x ∧ (ct_initiator x = Initiator_Workflow ∨ ct_initiator x = Initiator_Retry)).
Proof.
  intros (Hid & Hf & Hp). unfold continuation_from_core.
  destruct (_ && _) eqn:Hdefault.
  { exists None. split_and!; [done|done|]. intros Hi. exfalso.
    rewrite !andb_true_iff, Z.eqb_eq in Hdefault. destruct Hdefault as [[[_ Hz] _] _].
    rewrite Hz, <-initiator_unspecified_zero, try_from_as_i32 in Hi. by destruct Hi. }
  assert (text_fits (Core.iw_continued_from_execution_run_id v)) as Hfit.
  { destruct (decide (Core.iw_continued_from_execution_run_id v = "")) as [->|Hne]; [done|].
    by destruct (Hid Hne) as (_ & ? & _). }
  rewrite (proj2 (N.ltb_ge _ _)) by exact Hfit.
  destruct (try_option_total failure_from_core _ failure_fits _ failure_total Hf) as (r & -> & Hr).
  assert (∃ k, payloads_option_from_core (Core.iw_last_completion_result v) = Ok k) as [k ->].
  { destruct (Core.iw_last_completion_result v) as [l|]; simpl; [|eauto].
    destruct (payloads_total l (Hp l eq_refl)) as [k Hk]. unfold payload_vec_from_core in Hk.
    rewrite Hk. eauto. }
  eexists. split; [reflexivity|]. split.
  - intros c [= <-]. split; [done|]. simpl. intros f Hcf. by apply Hr.
  - intros Hi. eexists. split; [reflexivity|]. simpl. unfold continuation_initiator_from_core.
    destruct Hi as [-> | ->]; [by left|by right].
Qed.

Lemma initialize_subset_total v c :
  Core.iw_cron_schedule v = "" →
  Core.iw_continued_initiator v ≠ as_i32 Core.Initiator_CronSchedule →
  (if_some (λ d, Core.du_seconds d = 0 ∧ Core.du_nanos d = 0)%Z
     (Core.iw_cron_schedule_to_schedule_interval v) ∨
   ∃ x, c = Some x ∧ (ct_initiator x = Initiator_Workflow ∨ ct_initiator x = Initiator_Retry)) →
  validate_initialize_subset v c = Ok tt.
Proof.
  intros Hcron Hini Hdelay. unfold validate_initialize_subset. rewrite Hcron.
  rewrite (proj2 (Z.eqb_neq _ _) Hini). cbn [negb orb]. destruct Hdelay as [Hz|(x & -> & Hx)].
  - destruct (Core.iw_cron_schedule_to_schedule_interval v) as [d|]; [|by rewrite andb_false_r].
    destruct (Hz d eq_refl) as [-> ->]. by rewrite andb_false_r.
  - by destruct Hx as [-> | ->].
Qed.

Lemma if_some_fmap {A B} (f : A → B) (P : B → Prop) o :
  if_some (λ a, P (f a)) o → if_some P (f <$> o).
Proof. destruct o as [a|]; [|done]. intros Ho b [= <-]. by apply Ho. Qed.

Lemma context_total v c :
  core_initialize_ok v → if_some continuation_ok c →
  ∃ ctx, context_from_core v c = Ok ctx ∧ context_ok ctx.
Proof.
  intros ((_ & _ & Hfirst) & _ & _ & _ & Hh & Hmemo & Hsa & Hexp & Hstart & _ & _ & [Hdelay _] & Hpar & Hto &
    Hroot & Hprio & Hrp & _) Hc.
  apply Forall_cons in Hto as [Ht1 Hto]. apply Forall_cons in Hto as [Ht2 Hto].
  apply Forall_cons in Hto as [Ht3 _].
  unfold context_from_core.
  destruct (inbound_fields_total _ Hh) as (h & -> & Hhk).
  destruct (try_option_total _ _ _ _ inbound_fields_total Hmemo) as (memo & -> & Hmk).
  destruct (try_option_total _ _ _ _ payload_fields_total Hsa) as (sa & -> & Hsk).
  destruct (durations_total _ Ht1) as (t1 & -> & Hd1).
  destruct (durations_total _ Ht2) as (t2 & -> & Hd2).
  destruct (durations_total _ Ht3) as (t3 & -> & Hd3).
  destruct (try_option_total _ _ _ _ retry_policy_total Hrp) as (rp & -> & Hrpk).
  eexists. split; [reflexivity|]. unfold context_ok. simpl.
  split_and!; auto using inbound_text_fits; by apply if_some_fmap.
Qed.

Lemma initialize_total v :
  core_initialize_ok v → ∃ job, initialize_from_core v = Ok job ∧ job_ok job.
Proof.
  intros Hv. pose proof Hv as ((Hid & Hty & _) & Hat & Hseed & Hargs & _ & _ & _ & _ & _ & Hcron & Hini &
    [_ Hdelay] & _ & _ & _ & _ & _ & Hcont).
  destruct (continuation_total v Hcont) as (c & Hc & Hcok & Hsup).
  unfold initialize_from_core. rewrite Hc.
  rewrite initialize_subset_total; [|done|done|by destruct Hdelay as [|Hd]; [left|right; apply Hsup]].
  destruct (payloads_total _ Hargs) as (args & ->).
  destruct (context_total v c Hv Hcok) as (ctx & -> & Hctx).
  eexists. split; [reflexivity|]. cbn. split_and!; try done.
  - by eexists.
  - by intros ? [= <-].
Qed.

Lemma required_failure_total f m missing :
  f = Some m → core_failure_ok m →
  ∃ g, required_failure_from_core f missing = Ok g ∧ failure_fits g.
Proof. intros -> Hm. unfold required_failure_from_core. simpl. by apply failure_total. Qed.

Lemma external_total o :
  if_some core_failure_ok o →
  ∃ r, external_workflow_resolution_from_core o = Ok r ∧
    match r with External_Failed f => failure_fits f | External_Succeeded => True end.
Proof.
  destruct o as [m|]; simpl; [|by exists External_Succeeded]. intros Hm.
  destruct (failure_total m (Hm m eq_refl)) as (f & -> & Hf). by exists (External_Failed f).
Qed.

Lemma try_payload_total o :
  if_some core_payload_fits o → ∃ p, try_option payload_from_core o = Ok p.
Proof.
  intros Ho. destruct (try_option_total _ _ _ o payload_from_core_total Ho) as (p & ? & _). eauto.
Qed.

(** A conversion that has been computed. *)
Ltac converted := eexists; split; [reflexivity|cbn; auto using inbound_text_fits].

Lemma resolve_activity_total seq result is_local :
  core_job_ok (Core.Job_ResolveActivity seq result is_local) →
  ∃ job, job_from_core (Some (Core.Job_ResolveActivity seq result is_local)) = Ok job ∧ job_ok job.
Proof.
  destruct result as [[[p|f|f|attempt backoff time]|]|]; cbn; try done.
  - intros Hp. destruct (try_payload_total p Hp) as (q & ->). converted.
  - intros (m & Hm & Hok). destruct (required_failure_total f m "Core failed activity has no failure" Hm Hok)
      as (g & -> & ?). converted.
  - intros (m & Hm & Hok). destruct (required_failure_total f m "Core cancelled activity has no failure" Hm Hok)
      as (g & -> & ?). converted.
  - intros (-> & Ha & (d & -> & Hd) & Ht). cbn. rewrite (proj2 (N.eqb_neq _ _) Ha).
    rewrite duration_total by done.
    destruct (try_option_total
      (λ timestamp, let? _ := map_err (λ _, invalid_core "Core local activity schedule timestamp is invalid")
          (validate_timestamp (timestamp_copy timestamp) "$") in Ok (timestamp_copy timestamp))
      (λ t, time_ok (Core.ts_nanos t)) timestamp_ok time) as (r & -> & Hr); [|exact Ht|converted].
    intros a Hta. exists (timestamp_copy a).
    by rewrite (proj2 (validate_timestamp_Ok (timestamp_copy a) "$") Hta).
Qed.

Lemma resolve_child_start_total seq status :
  core_job_ok (Core.Job_ResolveChildWorkflowExecutionStart seq status) →
  ∃ job, job_from_core (Some (Core.Job_ResolveChildWorkflowExecutionStart seq status)) = Ok job ∧
    job_ok job.
Proof.
  destruct status as [[run|id ty cause|f]|]; cbn; try done.
  - intros Hrun. converted.
  - intros (? & ? & c & ->). unfold child_start_failure_cause_from_core.
    rewrite try_from_as_i32. cbn. converted.
  - intros (m & Hm & Hok).
    destruct (required_failure_total f m "Core cancelled child start has no failure" Hm Hok)
      as (g & -> & ?). converted.
Qed.

Lemma resolve_child_total seq result :
  core_job_ok (Core.Job_ResolveChildWorkflowExecution seq result) →
  ∃ job, job_from_core (Some (Core.Job_ResolveChildWorkflowExecution seq result)) = Ok job ∧ job_ok job.
Proof.
  destruct result as [[[p|f|f]|]|]; cbn; try done.
  - intros Hp. destruct (try_payload_total p Hp) as (q & ->). converted.
  - intros (m & Hm & Hok).
    destruct (required_failure_total f m "Core failed child workflow has no failure" Hm Hok)
      as (g & -> & ?). converted.
  - intros (m & Hm & Hok).
    destruct (required_failure_total f m "Core cancelled child workflow has no failure" Hm Hok)
      as (g & -> & ?). converted.
Qed.

Lemma job_total j : core_job_ok j → ∃ job, job_from_core (Some j) = Ok job ∧ job_ok job.
Proof.
  destruct j; try (cbn; intros Hj; by converted).
  - apply initialize_total.
  - apply resolve_activity_total.
  - apply resolve_child_start_total.
  - apply resolve_child_total.
  - cbn. intros Hf. destruct (external_total failure Hf) as (r & -> & Hr). destruct r; converted.
  - cbn. intros Hf. destruct (external_total failure Hf) as (r & -> & Hr). destruct r; converted.
  - cbn. intros (Hn & Hin & Hid & Hh). destruct (payloads_total _ Hin) as (k & ->).
    destruct (inbound_fields_total _ Hh) as (h & -> & Hk). eexists. split; [reflexivity|].
    cbn. pose proof (inbound_identity_ok identity "" Hid) as Hsi%signal_identity_Ok. done.
  - cbn. intros (Hi & Ht & Hin & Hh). destruct (payloads_total _ Hin) as (k & ->).
    destruct (inbound_fields_total _ Hh) as (h & -> & Hk). converted.
  - cbn. intros ((Hi & Hp & Hn) & Hin & Hh & m & -> & Hm). unfold update_from_core. cbn [ok_or].
    assert (negb (str_is_empty (Core.um_update_id m)) && negb (bool_decide (Core.um_update_id m = id)) = false)
      as -> by (destruct Hm as [-> | ->]; [done|]; by rewrite bool_decide_true, andb_false_r).
    destruct (payloads_total _ Hin) as (k & ->). destruct (inbound_fields_total _ Hh) as (h & -> & Hk).
    eexists. split; [reflexivity|]. cbn. split_and!; try done.
    unfold inbound_identity. destruct (contains_nul _); apply inbound_text_fits.
  - cbn. intros Hs. eexists. split; [reflexivity|]. by eexists.
  - cbn. intros (r & ->). unfold eviction_reason_from_core. rewrite try_from_as_i32. cbn.
    converted.
  - done.
Qed.

(** ** The kinds of the jobs are kept *)

Lemma job_from_core_kind j job :
  job_from_core j = Ok job →
  is_remove_from_cache job = core_is_eviction j ∧ is_initialize job = core_is_initialize j ∧
  query_id_of job = core_query_id j ∧ update_id_of job = core_update_id j ∧
  update_protocol_id_of job = core_update_protocol_id j.
Proof.
  destruct j as [j|]; [|done]. unfold job_from_core. cbn [ok_or].
  destruct j; intros Hj; unfold initialize_from_core, update_from_core in *;
    repeat (apply bind_Ok in Hj as (? & _ & Hj)); try (injection Hj as <-); try done.
  apply guard_Ok in Hj as [_ Hj]. repeat (apply bind_Ok in Hj as (? & _ & Hj)). by injection Hj as <-.
Qed.

Lemma omap_kind {A B C} (f : A → option C) (g : B → option C) l k :
  Forall2 (λ a b, g b = f a) l k → omap g k = omap f l.
Proof. induction 1 as [|a b l k Hab _ IH]; [done|]. cbn. by rewrite Hab, IH. Qed.

Lemma is_query_id job : is_query job = true ↔ is_Some (query_id_of job).
Proof. destruct job; simpl; rewrite is_Some_alt; done. Qed.

(** C9: every activation that Core may send is accepted: when its identifiers,
    payloads, times and decimals are in range and its jobs are arranged as the
    protocol demands, the conversion succeeds and the result passes the
    protocol's own check, whatever free texts, sender identities, header and memo
    keys, failure chains, advisory enum numbers and retry policies it carries. *)
Theorem activation_from_core_total m :
  core_activation_ok m →
  ∃ a, activation_from_core m = Ok a ∧ validate_activation a = Ok tt ∧
    Forall2 (λ j job, job_from_core j = Ok job) (Core.wa_jobs m) (ac_jobs a).
Proof.
  intros (Hrun & Hjobs & Hev & Hts & Hinit & Hq & Hqn & Hun & Hpn & Hsize & Hdep).
  assert (∃ jobs, try_map job_from_core (Core.wa_jobs m) = Ok jobs ∧ Forall job_ok jobs)
    as (jobs & Htry & Hok).
  { eapply try_map_total; [|exact Hjobs]. intros j (x & -> & Hx). by apply job_total. }
  pose proof (proj1 (try_map_Ok _ _ _) Htry) as Hall.
  assert (Forall2 (λ j job, is_remove_from_cache job = core_is_eviction j ∧
    is_initialize job = core_is_initialize j ∧ query_id_of job = core_query_id j ∧
    update_id_of job = core_update_id j ∧ update_protocol_id_of job = core_update_protocol_id j)
    (Core.wa_jobs m) jobs) as Hkind
    by (eapply Forall2_impl; [exact Hall|]; intros; by apply job_from_core_kind).
  assert (∀ job, job ∈ jobs → ∃ j, j ∈ Core.wa_jobs m ∧ job_from_core j = Ok job) as Hback.
  { intros job [i Hi]%list_elem_of_lookup. destruct (Forall2_lookup_r _ _ _ _ _ Hall Hi) as (j & Hj & Hjj).
    exists j. split; [by eapply list_elem_of_lookup_2|done]. }
  unfold activation_from_core. rewrite Htry. cbv zeta.
  set (a := {| ac_run_id := _ |}). assert (validate_activation a = Ok tt) as Hva.
  2: { exists a. rewrite Hva. done. }
  apply validate_activation_Ok. unfold activation_ok. simpl. split_and!; [done|..].
  - intros job Hjob Hr. destruct (Hback job Hjob) as (j & Hj & Hjj).
    destruct (job_from_core_kind _ _ Hjj) as [Hk _]. rewrite Hr in Hk. symmetry in Hk.
    pose proof (Hev j Hj Hk) as Hlen. rewrite (Forall2_length _ _ _ Hall) in Hlen.
    destruct jobs as [|x [|]]; try done. set_solver.
  - destruct (Core.wa_timestamp m) as [t|]; simpl; [done|]. destruct Hts as (j & Hj & Hje).
    apply list_elem_of_lookup in Hj as [i Hi]. pose proof (Hev j (list_elem_of_lookup_2 _ _ _ Hi) Hje) as Hlen.
    destruct (Forall2_lookup_l _ _ _ _ _ Hkind Hi) as (job & Hjob & Hk & _). rewrite Hje in Hk.
    rewrite (Forall2_length _ _ _ Hall) in Hlen. destruct jobs as [|x [|]]; try done.
    destruct i; [|done]. injection Hjob as ->. destruct job; try done. eauto.
  - intros i job Hi Hini. destruct (Forall2_lookup_r _ _ _ _ _ Hkind Hi) as (j & Hj & _ & Hk & _).
    rewrite Hini in Hk. by eapply Hinit.
  - intros x y (jx & Hjx & (_ & _ & Hkx & _)%job_from_core_kind)%Hback
      (jy & Hjy & (_ & _ & Hky & _)%job_from_core_kind)%Hback.
    apply eq_bool_prop_intro. rewrite !Is_true_true, !is_query_id, Hkx, Hky. by apply Hq.
  - rewrite (omap_kind core_query_id query_id_of (Core.wa_jobs m)); [done|].
    eapply Forall2_impl; [exact Hkind|]. naive_solver.
  - rewrite (omap_kind core_update_id update_id_of (Core.wa_jobs m)); [done|].
    eapply Forall2_impl; [exact Hkind|]. naive_solver.
  - rewrite (omap_kind core_update_protocol_id update_protocol_id_of (Core.wa_jobs m)); [done|].
    eapply Forall2_impl; [exact Hkind|]. naive_solver.
  - done.
  - intros md [= <-]. unfold metadata_ok. simpl.
    split_and!; [by eexists|apply inbound_text_fits|]. apply if_some_fmap. simpl.
    intros v Hv. split; [apply inbound_text_fits|by apply Hdep].
Qed.

End Totality.
