(* ===== verification/CompletionConversion.v ===== *)
(** * Conversion of completions

    The command and completion conversions of
    src/rust/core-bridge/src/workflow_protocol.rs.  The theorems: a completion
    survives the conversion to Core and back, a completion is only handed to
    Core when it answers its activation, and every command that names another
    workflow carries the worker's namespace. *)

From stdpp Require Import pretty.
From S2P Require Import Prelude.
From S2P Require Import Text.
From S2P Require Import Protocol.
From S2P Require Import WorkflowTypes.
From S2P Require Import CoreMessages.
From S2P Require Import WorkflowChecks.
From S2P Require Import ActivationChecks.
From S2P Require Import CompletionChecks.
From S2P Require Import CoreConversion.
From S2P Require Import FailureConversion.
From S2P Require Import ActivationConversion.
Local Open Scope N_scope.
Local Open Scope bridge_scope.

Section Conversion.
Context `{CoreEnums, !CompletionFail}.

(** ** Enums *)

Definition versioning_to_core (value : CompletionVersioningBehavior) : Z :=
  match value with
  | Behavior_Pinned => as_i32 Core.Behavior_Pinned
  | Behavior_AutoUpgrade => as_i32 Core.Behavior_AutoUpgrade
  end.

Definition versioning_from_core (value : Z) :
    result (option CompletionVersioningBehavior) CoreConversionError :=
  match try_from_i32 value with
  | Some Core.Behavior_Unspecified => Ok None
  | Some Core.Behavior_Pinned => Ok (Some Behavior_Pinned)
  | Some Core.Behavior_AutoUpgrade => Ok (Some Behavior_AutoUpgrade)
  | None => Err (unsupported "unknown workflow versioning behavior")
  end.

Definition cancellation_to_core (value : ActivityCancellationType) : Z :=
  as_i32
    match value with
    | Cancellation_TryCancel => Core.Cancellation_TryCancel
    | Cancellation_WaitCancellationCompleted => Core.Cancellation_WaitCancellationCompleted
    | Cancellation_Abandon => Core.Cancellation_Abandon
    end.

Definition cancellation_from_core (value : Z) :
    result ActivityCancellationType CoreConversionError :=
  let? value := ok_or (try_from_i32 value) (invalid_core "unknown Core cancellation type") in
  Ok match value with
     | Core.Cancellation_TryCancel => Cancellation_TryCancel
     | Core.Cancellation_WaitCancellationCompleted => Cancellation_WaitCancellationCompleted
     | Core.Cancellation_Abandon => Cancellation_Abandon
     end.

Definition child_cancellation_to_core (value : ChildWorkflowCancellationType) : Z :=
  as_i32
    match value with
    | ChildCancellation_TryCancel => Core.ChildCancellation_TryCancel
    | ChildCancellation_WaitCancellationCompleted => Core.ChildCancellation_WaitCancellationCompleted
    | ChildCancellation_Abandon => Core.ChildCancellation_Abandon
    | ChildCancellation_WaitCancellationRequested => Core.ChildCancellation_WaitCancellationRequested
    end.

Definition child_cancellation_from_core (value : Z) :
    result ChildWorkflowCancellationType CoreConversionError :=
  let? value := ok_or (try_from_i32 value) (invalid_core "unknown Core child cancellation type") in
  Ok match value with
     | Core.ChildCancellation_TryCancel => ChildCancellation_TryCancel
     | Core.ChildCancellation_WaitCancellationCompleted =>
         ChildCancellation_WaitCancellationCompleted
     | Core.ChildCancellation_Abandon => ChildCancellation_Abandon
     | Core.ChildCancellation_WaitCancellationRequested =>
         ChildCancellation_WaitCancellationRequested
     end.

Definition parent_close_to_core (value : option ChildWorkflowParentClosePolicy) : Z :=
  as_i32
    match value with
    | None => Core.ParentClose_Unspecified
    | Some ParentClose_Terminate => Core.ParentClose_Terminate
    | Some ParentClose_Abandon => Core.ParentClose_Abandon
    | Some ParentClose_RequestCancel => Core.ParentClose_RequestCancel
    end.

Definition parent_close_from_core (value : Z) :
    result (option ChildWorkflowParentClosePolicy) CoreConversionError :=
  let? value := ok_or (try_from_i32 value) (invalid_core "unknown Core parent close policy") in
  Ok match value with
     | Core.ParentClose_Unspecified => None
     | Core.ParentClose_Terminate => Some ParentClose_Terminate
     | Core.ParentClose_Abandon => Some ParentClose_Abandon
     | Core.ParentClose_RequestCancel => Some ParentClose_RequestCancel
     end.

Definition id_reuse_to_core (value : option ChildWorkflowIdReusePolicy) : Z :=
  as_i32
    match value with
    | None => Core.IdReuse_Unspecified
    | Some IdReuse_AllowDuplicate => Core.IdReuse_AllowDuplicate
    | Some IdReuse_AllowDuplicateFailedOnly => Core.IdReuse_AllowDuplicateFailedOnly
    | Some IdReuse_RejectDuplicate => Core.IdReuse_RejectDuplicate
    end.

Definition id_reuse_from_core (value : Z) :
    result (option ChildWorkflowIdReusePolicy) CoreConversionError :=
  let? value := ok_or (try_from_i32 value) (invalid_core "unknown Core ID reuse policy") in
  match value with
  | Core.IdReuse_Unspecified => Ok None
  | Core.IdReuse_AllowDuplicate => Ok (Some IdReuse_AllowDuplicate)
  | Core.IdReuse_AllowDuplicateFailedOnly => Ok (Some IdReuse_AllowDuplicateFailedOnly)
  | Core.IdReuse_RejectDuplicate => Ok (Some IdReuse_RejectDuplicate)
  | Core.IdReuse_TerminateIfRunning =>
      Err (unsupported "Core child ID reuse policy is not represented by this protocol")
  end.

(** ** Commands to Core *)

(** [child_workflow_namespace.unwrap_or_default()]. *)
Definition namespace_or_default (namespace : option string) : string := default "" namespace.

Definition schedule_activity_to_core (seq : N) (activity_id activity_type task_queue : string)
    (arguments : list Payload)
    (schedule_to_close schedule_to_start start_to_close heartbeat : option Duration)
    (retry_policy : option RetryPolicy) (priority : option WorkflowPriority)
    (cancellation_type : ActivityCancellationType) (do_not_eagerly_execute : bool) :
    result Core.CommandVariant CoreConversionError :=
  let? arguments := payload_vec_to_core arguments in
  let? retry_policy := try_option retry_policy_to_core retry_policy in
  let? priority := try_option priority_to_core priority in
  Ok (Core.Cmd_ScheduleActivity {|
    Core.sa_seq := seq;
    Core.sa_activity_id := activity_id;
    Core.sa_activity_type := activity_type;
    Core.sa_task_queue := task_queue;
    Core.sa_headers := ∅;
    Core.sa_arguments := arguments;
    Core.sa_schedule_to_close_timeout := duration_to_core <$> schedule_to_close;
    Core.sa_schedule_to_start_timeout := duration_to_core <$> schedule_to_start;
    Core.sa_start_to_close_timeout := duration_to_core <$> start_to_close;
    Core.sa_heartbeat_timeout := duration_to_core <$> heartbeat;
    Core.sa_retry_policy := retry_policy;
    Core.sa_cancellation_type := cancellation_to_core cancellation_type;
    Core.sa_do_not_eagerly_execute := do_not_eagerly_execute;
    Core.sa_versioning_intent := 0;
    Core.sa_priority := priority
  |}).

Definition schedule_local_activity_to_core (seq : N) (activity_id activity_type : string)
    (attempt : N) (original_schedule_time : option Timestamp) (arguments : list Payload)
    (schedule_to_close schedule_to_start start_to_close : option Duration)
    (retry_policy : option RetryPolicy) (local_retry_threshold : option Duration)
    (cancellation_type : ActivityCancellationType) :
    result Core.CommandVariant CoreConversionError :=
  let? arguments := payload_vec_to_core arguments in
  let? retry_policy := try_option retry_policy_to_core retry_policy in
  Ok (Core.Cmd_ScheduleLocalActivity {|
    Core.la_seq := seq;
    Core.la_activity_id := activity_id;
    Core.la_activity_type := activity_type;
    Core.la_attempt := attempt;
    Core.la_original_schedule_time := timestamp_to_core <$> original_schedule_time;
    Core.la_headers := ∅;
    Core.la_arguments := arguments;
    Core.la_schedule_to_close_timeout := duration_to_core <$> schedule_to_close;
    Core.la_schedule_to_start_timeout := duration_to_core <$> schedule_to_start;
    Core.la_start_to_close_timeout := duration_to_core <$> start_to_close;
    Core.la_retry_policy := retry_policy;
    Core.la_local_retry_threshold := duration_to_core <$> local_retry_threshold;
    Core.la_cancellation_type := cancellation_to_core cancellation_type;
    Core.la_include_arguments_in_marker := false
  |}).

Definition start_child_to_core (namespace : option string) (seq : N) (task_queue : option string)
    (parent_close_policy : option ChildWorkflowParentClosePolicy)
    (workflow_id workflow_type : string) (input : list Payload)
    (retry_policy : option RetryPolicy) (cancellation_type : ChildWorkflowCancellationType)
    (execution run task : option Duration) (id_reuse : option ChildWorkflowIdReusePolicy) :
    result Core.CommandVariant CoreConversionError :=
  let? input := payload_vec_to_core input in
  let? retry_policy := try_option retry_policy_to_core retry_policy in
  Ok (Core.Cmd_StartChildWorkflowExecution {|
    Core.sc_seq := seq;
    Core.sc_namespace := namespace_or_default namespace;
    Core.sc_workflow_id := workflow_id;
    Core.sc_workflow_type := workflow_type;
    Core.sc_task_queue := default "" task_queue;
    Core.sc_input := input;
    Core.sc_workflow_execution_timeout := duration_to_core <$> execution;
    Core.sc_workflow_run_timeout := duration_to_core <$> run;
    Core.sc_workflow_task_timeout := duration_to_core <$> task;
    Core.sc_parent_close_policy := parent_close_to_core parent_close_policy;
    Core.sc_workflow_id_reuse_policy := id_reuse_to_core id_reuse;
    Core.sc_retry_policy := retry_policy;
    Core.sc_cron_schedule := "";
    Core.sc_headers := ∅;
    Core.sc_memo := ∅;
    Core.sc_search_attributes := None;
    Core.sc_cancellation_type := child_cancellation_to_core cancellation_type;
    Core.sc_versioning_intent := 0;
    Core.sc_priority := None
  |}).

Definition signal_external_to_core (namespace : option string) (seq : N)
    (workflow_id run_id signal_name : string) (input : list Payload) (child_workflow_only : bool)
    (headers : gmap string Payload) : result Core.CommandVariant CoreConversionError :=
  let target :=
    if child_workflow_only then Core.Target_ChildWorkflowId workflow_id
    else
      Core.Target_WorkflowExecution
        (Core.mkNamespacedWorkflowExecution (namespace_or_default namespace) workflow_id run_id) in
  let? args := payload_vec_to_core input in
  let? headers := payload_map_to_core headers in
  Ok (Core.Cmd_SignalExternalWorkflowExecution seq (Some target) signal_name args headers).

Definition continue_as_new_to_core (workflow_type : string) (input : list Payload) :
    result Core.CommandVariant CoreConversionError :=
  let? arguments := payload_vec_to_core input in
  Ok (Core.Cmd_ContinueAsNewWorkflowExecution {|
    Core.can_workflow_type := workflow_type;
    Core.can_task_queue := "";
    Core.can_arguments := arguments;
    Core.can_workflow_run_timeout := None;
    Core.can_workflow_task_timeout := None;
    Core.can_memo := ∅;
    Core.can_headers := ∅;
    Core.can_search_attributes := None;
    Core.can_retry_policy := None;
    Core.can_versioning_intent := 0;
    Core.can_initial_versioning_behavior := 0;
    Core.can_backoff_start_interval := None
  |}).

Definition query_result_to_core (query_id : string) (r : QueryResult) :
    result Core.CommandVariant CoreConversionError :=
  let? variant :=
    match r with
    | Query_Succeeded payload =>
        let? payload := payload_to_core payload in
        Ok (Core.Query_Succeeded (Some payload))
    | Query_Failed failure =>
        let? failure := failure_to_core failure in
        Ok (Core.Query_Failed failure)
    end in
  Ok (Core.Cmd_RespondToQuery query_id (Some variant)).

Definition update_response_to_core (protocol_instance_id : string)
    (response : UpdateResponseResult) : result Core.CommandVariant CoreConversionError :=
  let? response :=
    match response with
    | Update_Accepted => Ok Core.Update_Accepted
    | Update_Rejected failure =>
        let? failure := failure_to_core failure in
        Ok (Core.Update_Rejected failure)
    | Update_Completed payload =>
        let? payload := payload_to_core payload in
        Ok (Core.Update_Completed payload)
    end in
  Ok (Core.Cmd_UpdateResponse protocol_instance_id (Some response)).

Definition command_variant_to_core (value : CompletionCommand) (namespace : option string) :
    result Core.CommandVariant CoreConversionError :=
  match value with
  | ScheduleActivity seq activity_id activity_type task_queue arguments schedule_to_close
      schedule_to_start start_to_close heartbeat retry_policy priority cancellation_type eager =>
      schedule_activity_to_core seq activity_id activity_type task_queue arguments
        schedule_to_close schedule_to_start start_to_close heartbeat retry_policy priority
        cancellation_type eager
  | ScheduleLocalActivity seq activity_id activity_type attempt original_schedule_time arguments
      schedule_to_close schedule_to_start start_to_close retry_policy threshold
      cancellation_type =>
      schedule_local_activity_to_core seq activity_id activity_type attempt
        original_schedule_time arguments schedule_to_close schedule_to_start start_to_close
        retry_policy threshold cancellation_type
  | RequestCancelActivity seq => Ok (Core.Cmd_RequestCancelActivity seq)
  | RequestCancelLocalActivity seq => Ok (Core.Cmd_RequestCancelLocalActivity seq)
  | StartChildWorkflow seq task_queue parent_close_policy workflow_id workflow_type input
      retry_policy cancellation_type execution run task id_reuse =>
      start_child_to_core namespace seq task_queue parent_close_policy workflow_id workflow_type
        input retry_policy cancellation_type execution run task id_reuse
  | CancelChildWorkflow seq reason => Ok (Core.Cmd_CancelChildWorkflowExecution seq reason)
  | SignalExternalWorkflow seq workflow_id run_id signal_name input child_workflow_only headers =>
      signal_external_to_core namespace seq workflow_id run_id signal_name input
        child_workflow_only headers
  | RequestCancelExternalWorkflow seq workflow_id run_id reason =>
      Ok (Core.Cmd_RequestCancelExternalWorkflowExecution seq
        (Some (Core.mkNamespacedWorkflowExecution (namespace_or_default namespace) workflow_id
          run_id))
        reason)
  | StartTimer seq timeout => Ok (Core.Cmd_StartTimer seq (Some (duration_to_core timeout)))
  | CancelTimer seq => Ok (Core.Cmd_CancelTimer seq)
  | CompleteWorkflow result =>
      let? result := try_option payload_to_core result in
      Ok (Core.Cmd_CompleteWorkflowExecution result)
  | FailWorkflow failure =>
      let? failure := failure_to_core failure in
      Ok (Core.Cmd_FailWorkflowExecution (Some failure))
  | ContinueAsNew workflow_type input => continue_as_new_to_core workflow_type input
  | CancelWorkflow => Ok (Core.Cmd_CancelWorkflowExecution None)
  | QueryResultCommand query_id result => query_result_to_core query_id result
  | UpdateResponse protocol_instance_id response =>
      update_response_to_core protocol_instance_id response
  | SetPatchMarker patch_id deprecated => Ok (Core.Cmd_SetPatchMarker patch_id deprecated)
  | UpsertSearchAttributes search_attributes =>
      let? indexed_fields := payload_map_to_core search_attributes in
      Ok (Core.Cmd_UpsertWorkflowSearchAttributes (Some indexed_fields))
  end.

Definition command_to_core (value : CompletionCommand) (namespace : option string) :
    result Core.WorkflowCommand CoreConversionError :=
  let? variant := command_variant_to_core value namespace in
  Ok (Core.mkWorkflowCommand (Some variant) None []).

(** ** Commands from Core *)

(** [HashMap::is_empty]. *)
Definition map_is_empty {A} (m : gmap string A) : bool := bool_decide (dom m = ∅).

Definition schedule_activity_from_core (value : Core.ScheduleActivity) :
    result CompletionCommand CoreConversionError :=
  if negb (map_is_empty (Core.sa_headers value)) ||
     negb (Core.sa_versioning_intent value =? 0)%Z
  then
    Err (unsupported "Core schedule activity headers or versioning intent are not supported")
  else
    let? arguments := payload_vec_from_core (Core.sa_arguments value) in
    let? schedule_to_close := try_option duration_from_core (Core.sa_schedule_to_close_timeout value) in
    let? schedule_to_start := try_option duration_from_core (Core.sa_schedule_to_start_timeout value) in
    let? start_to_close := try_option duration_from_core (Core.sa_start_to_close_timeout value) in
    let? heartbeat := try_option duration_from_core (Core.sa_heartbeat_timeout value) in
    let? retry_policy := try_option retry_policy_from_core (Core.sa_retry_policy value) in
    let? cancellation_type := cancellation_from_core (Core.sa_cancellation_type value) in
    Ok (ScheduleActivity (Core.sa_seq value) (Core.sa_activity_id value)
      (Core.sa_activity_type value) (Core.sa_task_queue value) arguments schedule_to_close
      schedule_to_start start_to_close heartbeat retry_policy
      (priority_copy <$> Core.sa_priority value) cancellation_type
      (Core.sa_do_not_eagerly_execute value)).

Definition schedule_local_activity_from_core (value : Core.ScheduleLocalActivity) :
    result CompletionCommand CoreConversionError :=
  if negb (map_is_empty (Core.la_headers value)) then
    Err (unsupported
      "Core local activity headers or user metadata are not represented by this protocol")
  else if Core.la_include_arguments_in_marker value then
    Err (unsupported "Core local activity marker arguments are not represented by this protocol")
  else
    let? arguments := payload_vec_from_core (Core.la_arguments value) in
    let? schedule_to_close := try_option duration_from_core (Core.la_schedule_to_close_timeout value) in
    let? schedule_to_start := try_option duration_from_core (Core.la_schedule_to_start_timeout value) in
    let? start_to_close := try_option duration_from_core (Core.la_start_to_close_timeout value) in
    let? retry_policy := try_option retry_policy_from_core (Core.la_retry_policy value) in
    let? threshold := try_option duration_from_core (Core.la_local_retry_threshold value) in
    let? cancellation_type := cancellation_from_core (Core.la_cancellation_type value) in
    Ok (ScheduleLocalActivity (Core.la_seq value) (Core.la_activity_id value)
      (Core.la_activity_type value) (Core.la_attempt value)
      (timestamp_copy <$> Core.la_original_schedule_time value) arguments schedule_to_close
      schedule_to_start start_to_close retry_policy threshold cancellation_type).

Definition start_child_from_core (value : Core.StartChildWorkflowExecution) :
    result CompletionCommand CoreConversionError :=
  if negb (str_is_empty (Core.sc_namespace value)) ||
     negb (str_is_empty (Core.sc_cron_schedule value)) ||
     negb (map_is_empty (Core.sc_headers value)) ||
     negb (map_is_empty (Core.sc_memo value)) ||
     negb (option_is_none (Core.sc_search_attributes value)) ||
     negb (Core.sc_versioning_intent value =? 0)%Z ||
     negb (option_is_none (Core.sc_priority value))
  then Err (unsupported "Core child workflow options are not represented by this protocol")
  else
    let? parent_close := parent_close_from_core (Core.sc_parent_close_policy value) in
    let? input := payload_vec_from_core (Core.sc_input value) in
    let? retry_policy := try_option retry_policy_from_core (Core.sc_retry_policy value) in
    let? cancellation_type := child_cancellation_from_core (Core.sc_cancellation_type value) in
    let? execution := try_option duration_from_core (Core.sc_workflow_execution_timeout value) in
    let? run := try_option duration_from_core (Core.sc_workflow_run_timeout value) in
    let? task := try_option duration_from_core (Core.sc_workflow_task_timeout value) in
    let? id_reuse := id_reuse_from_core (Core.sc_workflow_id_reuse_policy value) in
    Ok (StartChildWorkflow (Core.sc_seq value)
      (if str_is_empty (Core.sc_task_queue value) then None else Some (Core.sc_task_queue value))
      parent_close (Core.sc_workflow_id value) (Core.sc_workflow_type value) input retry_policy
      cancellation_type execution run task id_reuse).

Definition cancel_child_from_core (seq : N) (reason : string) :
    result CompletionCommand CoreConversionError :=
  if str_is_empty reason || contains_nul reason then
    Err (invalid_core "Core child cancellation reason is invalid")
  else
    let? _ :=
      map_err (λ _, invalid_core "Core child cancellation reason is too long")
        (bounded_text reason "$.commands.reason") in
    Ok (CancelChildWorkflow seq reason).

Definition signal_external_from_core (seq : N) (target : option Core.SignalTarget)
    (signal_name : string) (args : list Core.Payload) (headers : gmap string Core.Payload) :
    result CompletionCommand CoreConversionError :=
  let? target := ok_or target (invalid_core "Core external signal target is absent") in
  let '(workflow_id, run_id, child_workflow_only) :=
    match target with
    | Core.Target_WorkflowExecution execution =>
        (Core.nwe_workflow_id execution, Core.nwe_run_id execution, false)
    | Core.Target_ChildWorkflowId id => (id, "", true)
    end in
  let? input := payload_vec_from_core args in
  let? headers := payload_map_from_core headers in
  Ok (SignalExternalWorkflow seq workflow_id run_id signal_name input child_workflow_only headers).

Definition continue_as_new_from_core (value : Core.ContinueAsNewWorkflowExecution) :
    result CompletionCommand CoreConversionError :=
  if negb (str_is_empty (Core.can_task_queue value)) ||
     negb (option_is_none (Core.can_workflow_run_timeout value)) ||
     negb (option_is_none (Core.can_workflow_task_timeout value)) ||
     negb (map_is_empty (Core.can_memo value)) ||
     negb (map_is_empty (Core.can_headers value)) ||
     negb (option_is_none (Core.can_search_attributes value)) ||
     negb (option_is_none (Core.can_retry_policy value)) ||
     negb (Core.can_versioning_intent value =? 0)%Z ||
     negb (Core.can_initial_versioning_behavior value =? 0)%Z ||
     negb (option_is_none (Core.can_backoff_start_interval value))
  then Err (unsupported "Core continue-as-new options are not represented by this protocol")
  else
    let? _ :=
      map_err (λ _, invalid_core "Core continue-as-new workflow type is invalid")
        (identifier (Core.can_workflow_type value) "$.commands.workflow_type") in
    let? input := payload_vec_from_core (Core.can_arguments value) in
    Ok (ContinueAsNew (Core.can_workflow_type value) input).

Definition query_result_from_core (query_id : string) (variant : option Core.QueryVariant) :
    result CompletionCommand CoreConversionError :=
  let? variant := ok_or variant (invalid_core "Core query result variant is absent") in
  let? result :=
    match variant with
    | Core.Query_Succeeded response =>
        let? payload :=
          ok_or response (invalid_core "Core successful query result has no payload") in
        let? payload := payload_from_core payload in
        Ok (Query_Succeeded payload)
    | Core.Query_Failed failure =>
        let? failure := failure_from_core failure in
        Ok (Query_Failed failure)
    end in
  Ok (QueryResultCommand query_id result).

Definition update_response_from_core (protocol_instance_id : string)
    (response : option Core.UpdateResponseVariant) :
    result CompletionCommand CoreConversionError :=
  let? response := ok_or response (invalid_core "Core update response variant is absent") in
  let? response :=
    match response with
    | Core.Update_Accepted => Ok Update_Accepted
    | Core.Update_Rejected failure =>
        let? failure := failure_from_core failure in
        Ok (Update_Rejected failure)
    | Core.Update_Completed payload =>
        let? payload := payload_from_core payload in
        Ok (Update_Completed payload)
    end in
  Ok (UpdateResponse protocol_instance_id response).

Definition command_from_core (value : Core.WorkflowCommand) :
    result CompletionCommand CoreConversionError :=
  if negb (option_is_none (Core.wc_user_metadata value)) then
    Err (unsupported "Core command user metadata is not supported")
  else if negb (Nat.eqb (length (Core.wc_event_group_markers value)) 0) then
    Err (unsupported "Core command event group markers are not supported")
  else
    let? variant := ok_or (Core.wc_variant value) (invalid_core "Core command variant is absent") in
    match variant with
    | Core.Cmd_ScheduleActivity value => schedule_activity_from_core value
    | Core.Cmd_ScheduleLocalActivity value => schedule_local_activity_from_core value
    | Core.Cmd_StartChildWorkflowExecution value => start_child_from_core value
    | Core.Cmd_CancelChildWorkflowExecution seq reason => cancel_child_from_core seq reason
    | Core.Cmd_SignalExternalWorkflowExecution seq target signal_name args headers =>
        signal_external_from_core seq target signal_name args headers
    | Core.Cmd_RequestCancelExternalWorkflowExecution seq workflow_execution reason =>
        let? execution :=
          ok_or workflow_execution (invalid_core "Core external cancellation target is absent") in
        Ok (RequestCancelExternalWorkflow seq (Core.nwe_workflow_id execution)
          (Core.nwe_run_id execution) reason)
    | Core.Cmd_RequestCancelActivity seq => Ok (RequestCancelActivity seq)
    | Core.Cmd_RequestCancelLocalActivity seq => Ok (RequestCancelLocalActivity seq)
    | Core.Cmd_StartTimer seq timeout =>
        let? timeout := ok_or timeout (invalid_core "Core timer timeout is absent") in
        let? timeout := duration_from_core timeout in
        Ok (StartTimer seq timeout)
    | Core.Cmd_CancelTimer seq => Ok (CancelTimer seq)
    | Core.Cmd_CompleteWorkflowExecution result =>
        let? result := try_option payload_from_core result in
        Ok (CompleteWorkflow result)
    | Core.Cmd_FailWorkflowExecution failure =>
        let? failure := required_failure_from_core failure "Core fail command has no failure" in
        Ok (FailWorkflow failure)
    | Core.Cmd_ContinueAsNewWorkflowExecution value => continue_as_new_from_core value
    | Core.Cmd_CancelWorkflowExecution details =>
        if negb (option_is_none details) then
          Err (unsupported
            "Core workflow cancellation details are not represented by this protocol")
        else Ok CancelWorkflow
    | Core.Cmd_RespondToQuery query_id variant => query_result_from_core query_id variant
    | Core.Cmd_UpdateResponse protocol_instance_id response =>
        update_response_from_core protocol_instance_id response
    | Core.Cmd_SetPatchMarker patch_id deprecated => Ok (SetPatchMarker patch_id deprecated)
    | Core.Cmd_UpsertWorkflowSearchAttributes search_attributes =>
        let? attributes :=
          ok_or search_attributes (invalid_core "Core search-attribute command has no values") in
        let? attributes := payload_map_from_core attributes in
        Ok (UpsertSearchAttributes attributes)
    | Core.Cmd_Other => Err (unsupported "Core workflow command kind is not supported")
    end.

(** ** Completions *)

Definition completion_to_core_with_child_namespace (value : Completion)
    (namespace : option string) :
    result Core.WorkflowActivationCompletion CoreConversionError :=
  let? _ :=
    map_err (λ _, invalid_core "semantic completion violates protocol invariants")
      (validate_completion value) in
  match cp_task_failure value with
  | Some failure =>
      let? failure := failure_to_core failure in
      Ok (completion_fail (cp_run_id value) failure (Some Core.WorkflowWorkerUnhandledFailure))
  | None =>
      let? commands := try_map (λ command, command_to_core command namespace) (cp_commands value) in
      Ok (Core.mkWorkflowActivationCompletion (cp_run_id value)
        (Some (Core.Status_Successful (Core.mkSuccess commands []
          match cp_versioning_behavior value with
          | Some behavior => versioning_to_core behavior
          | None => 0
          end)))
        None None)
  end.

Definition completion_to_core (value : Completion) :
    result Core.WorkflowActivationCompletion CoreConversionError :=
  completion_to_core_with_child_namespace value None.

Definition is_query_result (command : CompletionCommand) : bool :=
  match command with QueryResultCommand _ _ => true | _ => false end.

(** The loop over the commands of a query completion. *)
Fixpoint collect_query_results (query_ids : gset string) (commands : list CompletionCommand)
    (result_ids : gset string) : result (gset string) CoreConversionError :=
  match commands with
  | [] => Ok result_ids
  | QueryResultCommand query_id _ :: commands =>
      if bool_decide (query_id ∉ query_ids) || bool_decide (query_id ∈ result_ids) then
        Err (invalid_core "query completion identifier does not match its activation")
      else collect_query_results query_ids commands ({[query_id]} ∪ result_ids)
  | _ :: _ => Err (invalid_core "query activation completion may contain only query results")
  end.

Definition is_eviction (activation : Activation) : bool :=
  match ac_jobs activation with [RemoveFromCache _ _] => true | _ => false end.

Definition completion_to_core_for_activation_with_optional_namespace (activation : Activation)
    (completion : Completion) (namespace : option string) :
    result Core.WorkflowActivationCompletion CoreConversionError :=
  if negb (bool_decide (ac_run_id activation = cp_run_id completion)) then
    Err (invalid_core "completion run id does not match its activation")
  else if is_eviction activation &&
          (negb (Nat.eqb (length (cp_commands completion)) 0) ||
           negb (option_is_none (cp_task_failure completion)))
  then Err (invalid_core "cache eviction activation must have an empty completion")
  else
    let query_ids : gset string := list_to_set (omap query_id_of (ac_jobs activation)) in
    let? _ :=
      if bool_decide (query_ids = ∅) then
        if existsb is_query_result (cp_commands completion) then
          Err (invalid_core "query result command requires a query activation")
        else Ok tt
      else if negb (option_is_none (cp_task_failure completion)) then
        Err (invalid_core "query activation requires query results, not a task failure")
      else
        let? result_ids := collect_query_results query_ids (cp_commands completion) ∅ in
        if negb (bool_decide (result_ids = query_ids)) then
          Err (invalid_core "query activation must receive exactly one result per query")
        else Ok tt in
    completion_to_core_with_child_namespace completion namespace.

Definition completion_to_core_for_activation (activation : Activation) (completion : Completion) :
    result Core.WorkflowActivationCompletion CoreConversionError :=
  completion_to_core_for_activation_with_optional_namespace activation completion None.

Definition completion_to_core_for_activation_with_namespace (activation : Activation)
    (completion : Completion) (namespace : string) :
    result Core.WorkflowActivationCompletion CoreConversionError :=
  let? _ :=
    map_err (λ _, invalid_core "worker namespace is not a valid identifier")
      (identifier namespace "$.worker_namespace") in
  completion_to_core_for_activation_with_optional_namespace activation completion (Some namespace).

Definition completion_from_core (value : Core.WorkflowActivationCompletion) :
    result Completion CoreConversionError :=
  if negb (option_is_none (Core.wac_payload_download_metrics value)) ||
     negb (option_is_none (Core.wac_payload_upload_metrics value))
  then
    Err (unsupported "Core completion metadata is not represented by this protocol slice")
  else
    let? status := ok_or (Core.wac_status value) (invalid_core "Core completion status is absent") in
    match status with
    | Core.Status_TaskFailed failure force_cause =>
        if negb (force_cause =? as_i32 Core.WorkflowWorkerUnhandledFailure)%Z then
          Err (unsupported "unsupported workflow task failure cause")
        else
          let? failure := ok_or failure (invalid_core "workflow task failure is absent") in
          let? failure := failure_from_core failure in
          let completion := mkCompletion (Core.wac_run_id value) [] (Some failure) None in
          let? _ :=
            map_err (λ _, invalid_core "Core task failure violates protocol invariants")
              (validate_completion completion) in
          Ok completion
    | Core.Status_Successful success =>
        if negb (Nat.eqb (length (Core.su_used_internal_flags success)) 0) then
          Err (unsupported "Core completion metadata is not represented by this protocol slice")
        else
          let? behavior := versioning_from_core (Core.su_versioning_behavior success) in
          let? commands := try_map command_from_core (Core.su_commands success) in
          let completion := mkCompletion (Core.wac_run_id value) commands None behavior in
          let? _ :=
            map_err (λ _, invalid_core "Core completion violates semantic protocol invariants")
              (validate_completion completion) in
          Ok completion
    end.

End Conversion.

(** ** Round trip *)

Section Theorems.
Context `{CoreEnumsLaws, !CompletionFail, !CompletionFailLaws}.

Lemma versioning_round_trip o :
  versioning_from_core
    match o with Some behavior => versioning_to_core behavior | None => 0%Z end = Ok o.
Proof.
  unfold versioning_from_core. destruct o as [[]|]; cbn [versioning_to_core].
  - by rewrite try_from_as_i32.
  - by rewrite try_from_as_i32.
  - by rewrite <-versioning_unspecified_zero, try_from_as_i32.
Qed.

Lemma cancellation_round_trip c : cancellation_from_core (cancellation_to_core c) = Ok c.
Proof. unfold cancellation_from_core, cancellation_to_core. rewrite try_from_as_i32. by destruct c. Qed.

Lemma child_cancellation_round_trip c :
  child_cancellation_from_core (child_cancellation_to_core c) = Ok c.
Proof.
  unfold child_cancellation_from_core, child_cancellation_to_core. rewrite try_from_as_i32.
  by destruct c.
Qed.

Lemma parent_close_round_trip o : parent_close_from_core (parent_close_to_core o) = Ok o.
Proof.
  unfold parent_close_from_core, parent_close_to_core. rewrite try_from_as_i32. by destruct o as [[]|].
Qed.

Lemma id_reuse_round_trip o : id_reuse_from_core (id_reuse_to_core o) = Ok o.
Proof.
  unfold id_reuse_from_core, id_reuse_to_core. rewrite try_from_as_i32. by destruct o as [[]|].
Qed.

(** The commands whose every field has a place in Core's message: a signal to a
    child has no run, and a failure is not deeper than the inbound limit. *)
Definition representable (command : CompletionCommand) : Prop :=
  match command with
  | SignalExternalWorkflow _ _ run_id _ _ child_workflow_only _ =>
      child_workflow_only = true → run_id = ""
  | FailWorkflow failure | QueryResultCommand _ (Query_Failed failure)
  | UpdateResponse _ (Update_Rejected failure) => layers failure ≤ MAX_INBOUND_FAILURE_LAYERS
  | _ => True
  end.

Lemma priorities_round_trip o r :
  try_option priority_to_core o = Ok r → priority_copy <$> r = o.
Proof.
  intros Hr%try_option_Ok. destruct o, r; simpl; try done. by rewrite (priority_round_trip _ _ Hr).
Qed.

Lemma retry_policies_round_trip o r :
  try_option retry_policy_to_core o = Ok r → try_option retry_policy_from_core r = Ok o.
Proof. apply try_option_round_trip. intros. by apply retry_policy_round_trip. Qed.

Lemma payload_option_round_trip o r :
  try_option payload_to_core o = Ok r → try_option payload_from_core r = Ok o.
Proof. apply try_option_round_trip. intros. by apply payload_round_trip. Qed.

Lemma timestamps_round_trip (o : option Timestamp) :
  timestamp_copy <$> (timestamp_to_core <$> o) = o.
Proof. by destruct o as [[]|]. Qed.

Lemma map_is_empty_empty {A} : map_is_empty (∅ : gmap string A) = true.
Proof. by apply bool_decide_eq_true. Qed.

Lemma schedule_activity_round_trip command m :
  match command with ScheduleActivity _ _ _ _ _ _ _ _ _ _ _ _ _ => True | _ => False end →
  command_ok command → command_to_core command None = Ok m → command_from_core m = Ok command.
Proof.
  destruct command; try done. intros _ (_ & _ & _ & _ & Hd & _ & _) Hm.
  apply bind_Ok in Hm as (v & Hv & [= <-]). cbn [command_variant_to_core] in Hv.
  unfold schedule_activity_to_core in Hv.
  apply bind_Ok in Hv as (a & Ha%payload_vec_round_trip & Hv).
  apply bind_Ok in Hv as (r & Hr%retry_policies_round_trip & Hv).
  apply bind_Ok in Hv as (p & Hp%priorities_round_trip & [= <-]).
  rewrite !Forall_cons in Hd. destruct Hd as (Hd1 & Hd2 & Hd3 & Hd4 & _).
  cbn [command_from_core Core.wc_user_metadata Core.wc_event_group_markers Core.wc_variant
    option_is_none negb ok_or length Nat.eqb].
  unfold schedule_activity_from_core. cbn [Core.sa_headers Core.sa_versioning_intent].
  rewrite map_is_empty_empty. simpl. rewrite Ha, !durations_round_trip, Hr, cancellation_round_trip, Hp
    by done. done.
Qed.

Lemma schedule_local_activity_round_trip command m :
  match command with ScheduleLocalActivity _ _ _ _ _ _ _ _ _ _ _ _ => True | _ => False end →
  command_ok command → command_to_core command None = Ok m → command_from_core m = Ok command.
Proof.
  destruct command; try done. intros _ (_ & _ & _ & _ & Hd & _ & _) Hm.
  apply bind_Ok in Hm as (v & Hv & [= <-]). cbn [command_variant_to_core] in Hv.
  unfold schedule_local_activity_to_core in Hv.
  apply bind_Ok in Hv as (a & Ha%payload_vec_round_trip & Hv).
  apply bind_Ok in Hv as (r & Hr%retry_policies_round_trip & [= <-]).
  rewrite !Forall_cons in Hd. destruct Hd as (Hd1 & Hd2 & Hd3 & Hd4 & _).
  cbn [command_from_core Core.wc_user_metadata Core.wc_event_group_markers Core.wc_variant
    option_is_none negb ok_or length Nat.eqb].
  unfold schedule_local_activity_from_core. cbn [Core.la_headers].
  rewrite map_is_empty_empty. simpl.
  rewrite Ha, !durations_round_trip, Hr, cancellation_round_trip, timestamps_round_trip by done. done.
Qed.

Lemma start_child_round_trip command m :
  match command with StartChildWorkflow _ _ _ _ _ _ _ _ _ _ _ _ => True | _ => False end →
  command_ok command → command_to_core command None = Ok m → command_from_core m = Ok command.
Proof.
  destruct command; try done. intros _ (_ & _ & Hq & _ & Hd & _) Hm.
  apply bind_Ok in Hm as (v & Hv & [= <-]). cbn [command_variant_to_core] in Hv.
  unfold start_child_to_core in Hv.
  apply bind_Ok in Hv as (a & Ha%payload_vec_round_trip & Hv).
  apply bind_Ok in Hv as (r & Hr%retry_policies_round_trip & [= <-]).
  rewrite !Forall_cons in Hd. destruct Hd as (Hd1 & Hd2 & Hd3 & _).
  assert (∀ o, if_some (λ d, duration_ok d ∧ (0 < duration_nanos d)%Z) o →
    ∀ d, o = Some d → duration_ok d) as Hpos by (intros o Ho d Hod; apply (Ho d Hod)).
  cbn [command_from_core Core.wc_user_metadata Core.wc_event_group_markers Core.wc_variant
    option_is_none negb ok_or length Nat.eqb].
  unfold start_child_from_core. cbn [Core.sc_headers Core.sc_memo].
  rewrite !(map_is_empty_empty (A:=Core.Payload)). simpl.
  rewrite parent_close_round_trip, Ha, Hr, child_cancellation_round_trip, !durations_round_trip,
    id_reuse_round_trip by (by apply Hpos).
  destruct task_queue as [q|]; [|done]. simpl. specialize (Hq q eq_refl) as (Hne & _).
  by rewrite (proj2 (str_not_empty q) Hne).
Qed.

Lemma command_round_trip command m :
  command_ok command → representable command → command_to_core command None = Ok m →
  command_from_core m = Ok command.
Proof.
  intros Hok Hrep Hm. pose proof Hm as Hv. apply bind_Ok in Hv as (v & Hv & Heq).
  injection Heq as <-.
  destruct command; try (by apply schedule_activity_round_trip);
    try (by apply schedule_local_activity_round_trip); try (by apply start_child_round_trip);
    cbn [command_variant_to_core] in Hv; cbn [command_ok] in Hok; cbn [representable] in Hrep;
    cbn [command_from_core Core.wc_user_metadata Core.wc_event_group_markers Core.wc_variant
      option_is_none negb ok_or length Nat.eqb]; clear Hm; try (injection Hv as <-; done).
  - injection Hv as <-. destruct Hok as [(Hne & Hnul & Hfit) _]. cbn. unfold cancel_child_from_core.
    rewrite (proj2 (str_not_empty _) Hne), Hnul. cbn [orb].
    by rewrite (proj2 (bounded_text_Ok reason "$.commands.reason") Hfit).
  - unfold signal_external_to_core in Hv.
    apply bind_Ok in Hv as (a & Ha%payload_vec_round_trip & Hv).
    apply bind_Ok in Hv as (h & Hh%payload_map_round_trip & [= <-]). cbn.
    unfold signal_external_from_core. destruct child_workflow_only; simpl; rewrite Ha, Hh; [|done].
    by rewrite Hrep.
  - injection Hv as <-. cbn. by rewrite duration_round_trip.
  - apply bind_Ok in Hv as (p & Hp%payload_option_round_trip & [= <-]). cbn. by rewrite Hp.
  - apply bind_Ok in Hv as (f & Hf & [= <-]). cbn. unfold required_failure_from_core. simpl.
    by rewrite (failure_round_trip _ _ Hok Hrep Hf).
  - unfold continue_as_new_to_core in Hv. apply bind_Ok in Hv as (a & Ha%payload_vec_round_trip & [= <-]).
    cbn. unfold continue_as_new_from_core. cbn [Core.can_memo Core.can_headers].
    rewrite !(map_is_empty_empty (A:=Core.Payload)). simpl.
    by rewrite (proj2 (identifier_Ok workflow_type "$.commands.workflow_type") Hok), Ha.
  - unfold query_result_to_core in Hv. apply bind_Ok in Hv as (q & Hq & [= <-]). cbn.
    destruct result; apply bind_Ok in Hq as (x & Hx & [= <-]); simpl.
    + by rewrite (payload_round_trip _ _ Hx).
    + destruct Hok. by rewrite (failure_round_trip failure _).
  - unfold update_response_to_core in Hv. apply bind_Ok in Hv as (q & Hq & [= <-]). cbn.
    destruct response; [by injection Hq as <-|..]; apply bind_Ok in Hq as (x & Hx & [= <-]); simpl.
    + destruct Hok. by rewrite (failure_round_trip failure _).
    + by rewrite (payload_round_trip _ _ Hx).
  - apply bind_Ok in Hv as (h & Hh%payload_map_round_trip & [= <-]). cbn. by rewrite Hh.
Qed.


(** ** Completions answer their activations *)

Definition result_id_of (command : CompletionCommand) : option string :=
  match command with QueryResultCommand query_id _ => Some query_id | _ => None end.

(** The set the loop returns adds the identifiers of the results, each once. *)
Lemma collect_query_results_Ok query_ids commands seen ids :
  collect_query_results query_ids commands seen = Ok ids →
  Forall (λ command, is_query_result command = true) commands ∧
  NoDup (omap result_id_of commands) ∧
  (∀ id, id ∈ omap result_id_of commands → id ∉ seen) ∧
  ids = list_to_set (omap result_id_of commands) ∪ seen.
Proof.
  revert seen. induction commands as [|command commands IH]; intros seen; cbn [collect_query_results].
  { intros [= <-]. cbn. split_and!; [constructor|constructor|set_solver|set_solver]. }
  destruct command; try done.
  rewrite guard_Ok, orb_false_iff, !bool_decide_eq_false. intros [[_ Hs] (Hf & Hnd & Hd & ->)%IH].
  cbn [omap list_omap result_id_of]. split_and!; [by constructor| |set_solver|set_solver].
  constructor; [|done]. intros Hin. specialize (Hd _ Hin). set_solver.
Qed.

Lemma no_query_results commands :
  existsb is_query_result commands = false → omap result_id_of commands = [].
Proof.
  induction commands as [|c commands IH]; [done|]. cbn. intros [Hc Hr]%orb_false_iff.
  destruct c; try done; by apply IH.
Qed.

Lemma query_ids_NoDup a : validate_activation a = Ok tt → NoDup (omap query_id_of (ac_jobs a)).
Proof. by intros (_ & _ & _ & _ & _ & ? & _)%validate_activation_Ok. Qed.

(** C8: a completion reaches Core only as the answer to its activation: it names
    the same run, it is empty when the activation is an eviction, it carries
    exactly one result for each query and nothing else when the activation asks
    queries, and no query result otherwise. *)
Theorem completion_answers_activation a c namespace m :
  validate_activation a = Ok tt →
  completion_to_core_for_activation_with_namespace a c namespace = Ok m →
  cp_run_id c = ac_run_id a ∧
  (is_eviction a = true → cp_commands c = [] ∧ cp_task_failure c = None) ∧
  omap result_id_of (cp_commands c) ≡ₚ omap query_id_of (ac_jobs a) ∧
  (omap query_id_of (ac_jobs a) ≠ [] →
    cp_task_failure c = None ∧ Forall (λ command, is_query_result command = true) (cp_commands c)).
Proof.
  intros Ha. unfold completion_to_core_for_activation_with_namespace,
    completion_to_core_for_activation_with_optional_namespace. cbv zeta.
  rewrite seq_Ok, !guard_Ok, seq_Ok, negb_false_iff, bool_decide_eq_true.
  intros (_ & Hrun & Hev & Hq & _). split; [done|]. split.
  { intros He. rewrite He in Hev. cbn [andb] in Hev. apply orb_false_iff in Hev as [Hc Hf].
    rewrite negb_false_iff in Hc, Hf. apply Nat.eqb_eq, nil_length_inv in Hc. split; [done|].
    by destruct (cp_task_failure c). }
  pose proof (query_ids_NoDup a Ha) as Hnd. case_bool_decide as Hids.
  - apply guard_Ok in Hq as [Hno%no_query_results _]. rewrite Hno.
    assert (omap query_id_of (ac_jobs a) = []) as ->; [|done].
    destruct (omap query_id_of (ac_jobs a)); [done|set_solver].
  - apply guard_Ok in Hq as [Hf Hq]. apply bind_Ok in Hq as (ids & Hcollect & Hsame).
    apply guard_Ok in Hsame as [Hsame _]. rewrite negb_false_iff, bool_decide_eq_true in Hsame.
    apply collect_query_results_Ok in Hcollect as (Hall & Hnd' & _ & ->). split.
    + apply NoDup_Permutation; [done|done|]. intros id. set_solver.
    + intros _. split; [|done]. destruct (cp_task_failure c); [discriminate Hf|done].
Qed.

(** ** Namespaces *)

(** Where a command names another workflow, it names it in [namespace]. *)
Definition in_namespace (namespace : string) (command : Core.WorkflowCommand) : Prop :=
  match Core.wc_variant command with
  | Some (Core.Cmd_StartChildWorkflowExecution v) => Core.sc_namespace v = namespace
  | Some (Core.Cmd_SignalExternalWorkflowExecution _ (Some (Core.Target_WorkflowExecution e)) _ _ _)
  | Some (Core.Cmd_RequestCancelExternalWorkflowExecution _ (Some e) _) =>
      Core.nwe_namespace e = namespace
  | _ => True
  end.

Lemma command_in_namespace command namespace m :
  command_to_core command (Some namespace) = Ok m → in_namespace namespace m.
Proof.
  intros Hm. apply bind_Ok in Hm as (v & Hv & [= <-]). unfold in_namespace. simpl.
  destruct command; cbn [command_variant_to_core] in Hv;
    unfold schedule_activity_to_core, schedule_local_activity_to_core, start_child_to_core,
      signal_external_to_core, continue_as_new_to_core, query_result_to_core,
      update_response_to_core in Hv; cbv zeta in Hv;
    repeat (apply bind_Ok in Hv as (? & _ & Hv)); injection Hv as <-; try done.
  by destruct child_workflow_only.
Qed.

(** A live worker's commands keep their number and order, and each one that
    starts, signals or cancels another workflow by its execution does so in the
    worker's own namespace, a valid identifier. *)
Theorem commands_in_worker_namespace a c namespace m success :
  completion_to_core_for_activation_with_namespace a c namespace = Ok m →
  Core.wac_status m = Some (Core.Status_Successful success) →
  cp_task_failure c = None →
  is_identifier namespace ∧
  Forall2 (λ command core, command_to_core command (Some namespace) = Ok core ∧
    in_namespace namespace core) (cp_commands c) (Core.su_commands success).
Proof.
  unfold completion_to_core_for_activation_with_namespace,
    completion_to_core_for_activation_with_optional_namespace,
    completion_to_core_with_child_namespace. cbv zeta.
  rewrite seq_Ok, map_err_Ok, identifier_Ok, !guard_Ok, !seq_Ok. intros (Hns & _ & _ & _ & _ & Hm) Hs Hf.
  split; [done|]. rewrite Hf in Hm. apply bind_Ok in Hm as (k & Hk%try_map_Ok & [= <-]).
  simpl in Hs. injection Hs as <-. simpl. eapply Forall2_impl; [exact Hk|].
  intros x y Hxy. split; [done|]. exact (command_in_namespace x namespace y Hxy).
Qed.

End Theorems.
