(* ===== verification/PayloadWire.v ===== *)
(** * Payloads as JSON

    The hand-written serialization of payloads in
    src/rust/core-bridge/src/workflow_protocol.rs: bytes are written as canonical
    padded base64 in an object that names the encoding.  Writing and reading are
    inverse to each other on what they accept. *)

From S2P Require Import Prelude.
From S2P Require Import Text.
From S2P Require Import Protocol.
From S2P Require Import ProtocolCodec.
From S2P Require Import WorkflowTypes.
From S2P Require Import WorkflowChecks.
From S2P Require Import CoreConversion.
Local Open Scope N_scope.
Local Open Scope bridge_scope.

Section Wire.
Context `{Base64}.

Definition encode_bytes (value : list byte) : result EncodedBytes string :=
  if MAX_PAYLOAD_BYTES <? bytes_len value then Err "payload exceeds the byte limit"
  else Ok (mkEncodedBytes "base64" (base64_encode value)).

Definition decode_bytes (value : EncodedBytes) : result (list byte) string :=
  if negb (bool_decide (eb_encoding value = "base64")) then Err "unsupported payload encoding"
  else
    let? decoded :=
      ok_or (base64_decode (eb_data value)) "payload is not canonical padded base64" in
    if (MAX_PAYLOAD_BYTES <? bytes_len decoded) ||
       negb (bool_decide (base64_encode decoded = eb_data value))
    then Err "payload is not canonical padded base64"
    else Ok decoded.

(** The key check both directions make before converting a value. *)
Definition wire_entry {A B} (f : A → result B string) (entry : string * A) :
    result (string * B) string :=
  if str_is_empty entry.1 || (MAX_STRING_BYTES <? str_len entry.1) then
    Err "metadata key length is outside protocol limits"
  else
    let? value := f entry.2 in
    Ok (entry.1, value).

(** [Serialize for Payload] up to the structure it hands to serde. *)
Definition payload_serialize (value : Payload) : result PayloadWire string :=
  let? metadata := try_map (wire_entry encode_bytes) (btree_iter (payload_metadata value)) in
  let? data := encode_bytes (payload_data value) in
  Ok (mkPayloadWire (list_to_map metadata) data).

(** [Deserialize for Payload] from the structure serde hands over. *)
Definition payload_deserialize (wire : PayloadWire) : result Payload string :=
  let? metadata := try_map (wire_entry decode_bytes) (btree_iter (pw_metadata wire)) in
  let? data := decode_bytes (pw_data wire) in
  Ok (mkPayload (list_to_map metadata) data).

End Wire.

(** ** Inverse directions *)

Section Theorems.
Context `{Base64Laws}.

Lemma encode_decode_bytes value wire : encode_bytes value = Ok wire ↔ decode_bytes wire = Ok value.
Proof.
  unfold encode_bytes, decode_bytes. rewrite !guard_Ok, bind_Ok. setoid_rewrite guard_Ok.
  setoid_rewrite ok_or_Ok. rewrite negb_false_iff, bool_decide_eq_true, N.ltb_ge. split.
  - intros [Hlen [= <-]]. simpl. split; [done|]. exists value.
    rewrite base64_decode_encode, bool_decide_true by done. simpl.
    by rewrite (proj2 (N.ltb_ge _ _) Hlen).
  - intros (Henc & decoded & Hdec & Hguard & [= <-]).
    apply orb_false_iff in Hguard as [Hlen%N.ltb_ge Hcanon].
    rewrite negb_false_iff, bool_decide_eq_true in Hcanon. split; [done|].
    destruct wire as [encoding data]. simpl in *. by subst.
Qed.

Lemma wire_entry_collect {A B} (f : A → result B string) (m : gmap string A) (m' : gmap string B) :
  (∃ l, try_map (wire_entry f) (btree_iter m) = Ok l ∧ m' = list_to_map l) ↔
  map_Forall (λ key _, key ≠ "" ∧ text_fits key) m ∧
  ∀ k, match m !! k, m' !! k with
    | Some a, Some b => f a = Ok b | None, None => True | _, _ => False end.
Proof.
  rewrite <-(collect_map_exact f m (btree_iter m) m' (btree_iter_perm m)).
  pose proof (Forall_btree_iter (λ e : string * A, e.1 ≠ "" ∧ text_fits e.1) m) as Hkeys. simpl in Hkeys.
  rewrite <-Hkeys. unfold collect_map. rewrite bind_Ok. generalize (btree_iter m) as l. intros l.
  assert (∀ k, try_map (wire_entry f) l = Ok k ↔
    Forall (λ e : string * A, e.1 ≠ "" ∧ text_fits e.1) l ∧
    try_map (λ e : string * A, let? value := f e.2 in Ok (e.1, value)) l = Ok k) as Heq.
  { clear. intros k. rewrite !try_map_Ok. revert k. induction l as [|e l IH]; intros k.
    { split; [intros ->%Forall2_nil_inv_l; by split|intros [_ ->%Forall2_nil_inv_l]; constructor]. }
    rewrite Forall_cons. split.
    - intros (b & k' & Hb & Hk & ->)%Forall2_cons_inv_l. unfold wire_entry in Hb.
      rewrite guard_Ok, orb_false_iff, str_not_empty, N.ltb_ge in Hb. destruct Hb as [Hkey Hb].
      apply IH in Hk as [Hl Hk]. split; [by split|]. by constructor.
    - intros ([Hkey Hl] & (b & k' & Hb & Hk & ->)%Forall2_cons_inv_l).
      constructor; [|by apply IH]. unfold wire_entry.
      by rewrite guard_Ok, orb_false_iff, str_not_empty, N.ltb_ge. }
  setoid_rewrite Heq. naive_solver.
Qed.

(** Writing a payload and reading it are inverse: a payload is written to a
    wire value exactly when that wire value is read back to it, so each accepted
    payload has one wire form and each accepted wire form one payload. *)
Theorem payload_wire_inverse p w : payload_serialize p = Ok w ↔ payload_deserialize w = Ok p.
Proof.
  destruct p as [metadata data], w as [wire_metadata wire_data].
  unfold payload_serialize, payload_deserialize. simpl.
  pose proof (wire_entry_collect encode_bytes metadata wire_metadata) as He.
  pose proof (wire_entry_collect decode_bytes wire_metadata metadata) as Hd.
  assert ((map_Forall (λ key _, key ≠ "" ∧ text_fits key) metadata ∧
    ∀ k, match metadata !! k, wire_metadata !! k with
      | Some a, Some b => encode_bytes a = Ok b | None, None => True | _, _ => False end) ↔
    (map_Forall (λ key _, key ≠ "" ∧ text_fits key) wire_metadata ∧
    ∀ k, match wire_metadata !! k, metadata !! k with
      | Some a, Some b => decode_bytes a = Ok b | None, None => True | _, _ => False end)) as Hswap.
  { split; intros [Hkeys Hall]; (split;
      [intros k v Hk; specialize (Hall k); rewrite Hk in Hall;
       match type of Hall with context [match ?x with _ => _ end] => destruct x eqn:Hx end; [|done];
       by eapply Hkeys
      |intros k; specialize (Hall k); destruct (metadata !! k), (wire_metadata !! k); try done;
       by apply encode_decode_bytes]). }
  rewrite <-He, <-Hd in Hswap. rewrite !bind_Ok. setoid_rewrite bind_Ok.
  setoid_rewrite encode_decode_bytes. split.
  - intros (l & Hl & d & Hdata & [= Hm ->]).
    destruct (proj1 Hswap) as (l' & Hl' & ->); [by eauto|]. eauto.
  - intros (l & Hl & d & Hdata & [= Hm ->]).
    destruct (proj2 Hswap) as (l' & Hl' & ->); [by eauto|]. eauto.
Qed.

End Theorems.
