(* ===== verification/ActivityProtocol.v ===== *)
(** * Activity documents

    src/rust/core-bridge/src/activity_protocol.rs: the semantic types of activity
    tasks, completions and heartbeats, their checks and their conversions from
    and to Core.  The theorems say which tasks and results are accepted, and that
    a completion reaches Core under the token of the task it answers. *)

From stdpp Require Import pretty.
From S2P Require Import Prelude.
From S2P Require Import Text.
From S2P Require Import Protocol.
From S2P Require Import ProtocolCodec.
From S2P Require Import WorkflowTypes.
From S2P Require Import CoreMessages.
From S2P Require Import WorkflowChecks.
From S2P Require Import ActivationChecks.
From S2P Require Import CoreConversion.
From S2P Require Import FailureConversion.
From S2P Require Import ActivationConversion.
Local Open Scope N_scope.
Local Open Scope bridge_scope.

(** ** Types *)

Record RetryPolicy := mkRetryPolicy {
  rp_initial_interval : option Duration;
  rp_backoff_coefficient_bits : string;
  rp_maximum_interval : option Duration;
  rp_maximum_attempts : Z;
  rp_non_retryable_error_types : list string
}.

Record ActivityStart := mkActivityStart {
  st_workflow_namespace : string;
  st_workflow_type : string;
  st_workflow_execution : WorkflowExecution;
  st_activity_id : string;
  st_activity_type : string;
  st_is_local : bool;
  st_header_fields : gmap string Payload;
  st_input : list Payload;
  st_heartbeat_details : list Payload;
  st_scheduled_time : option Timestamp;
  st_current_attempt_scheduled_time : option Timestamp;
  st_started_time : option Timestamp;
  st_attempt : N;
  st_schedule_to_close_timeout : option Duration;
  st_start_to_close_timeout : option Duration;
  st_heartbeat_timeout : option Duration;
  st_retry_policy : option RetryPolicy;
  st_priority : option WorkflowPriority;
  st_standalone_run_id : string
}.

Inductive ActivityCancelReason :=
| Reason_NotFound
| Reason_Cancelled
| Reason_TimedOut
| Reason_WorkerShutdown
| Reason_Paused
| Reason_Reset.

Record ActivityCancellationDetails := mkActivityCancellationDetails {
  cd_is_not_found : bool;
  cd_is_cancelled : bool;
  cd_is_paused : bool;
  cd_is_timed_out : bool;
  cd_is_worker_shutdown : bool;
  cd_is_reset : bool
}.

Record ActivityCancel := mkActivityCancel {
  cn_reason : ActivityCancelReason;
  cn_details : option ActivityCancellationDetails
}.

Inductive ActivityTaskVariant :=
| Variant_Start (start : ActivityStart)
| Variant_Cancel (cancel : ActivityCancel).

Record ActivityTask := mkActivityTask {
  tk_task_token : string;
  tk_variant : ActivityTaskVariant
}.

Inductive ActivityCompletionResult :=
| Result_Completed (result : Payload)
| Result_Failed (failure : Failure)
| Result_Cancelled (failure : Failure)
| Result_WillCompleteAsync.

Record ActivityCompletion := mkActivityCompletion {
  cm_task_token : string;
  cm_result : ActivityCompletionResult
}.

Record ActivityHeartbeat := mkActivityHeartbeat {
  hb_task_token : string;
  hb_details : list Payload
}.

Record AsyncActivityHeartbeat := mkAsyncActivityHeartbeat {
  ah_task_token : string;
  ah_details : list Payload;
  ah_heartbeat_timeout : option Duration
}.

(** ** Checks *)

Section Checks.
Context `{Base64}.

Definition decode_token (value : string) : result (list byte) ProtocolError :=
  let? bytes :=
    ok_or (base64_decode value) (invalid "$.task_token" "task token is not canonical base64") in
  if bool_decide (bytes = []) || (MAX_PAYLOAD_BYTES <? bytes_len bytes) ||
     negb (bool_decide (base64_encode bytes = value))
  then Err (invalid "$.task_token" "task token is not canonical base64")
  else Ok bytes.

Definition validate_text (value path : string) : result () ProtocolError :=
  if MAX_STRING_BYTES <? str_len value then
    Err (invalid path "decoded JSON string limit exceeded")
  else Ok tt.

Definition validate_uint64_decimal (value path : string) : result () ProtocolError :=
  let? _ := validate_text value path in
  let? parsed :=
    ok_or (parse_u64 value) (invalid path "value is not canonical unsigned 64-bit decimal") in
  if negb (bool_decide (pretty parsed = value)) then
    Err (invalid path "value is not canonical unsigned 64-bit decimal")
  else Ok tt.

Definition validate_retry_policy (value : RetryPolicy) : result () ProtocolError :=
  let? _ :=
    try_some (λ duration, validate_duration duration "$.variant.retry_policy.initial_interval")
      (rp_initial_interval value) in
  let? _ :=
    validate_uint64_decimal (rp_backoff_coefficient_bits value)
      "$.variant.retry_policy.backoff_coefficient_bits" in
  let? _ :=
    try_some (λ duration, validate_duration duration "$.variant.retry_policy.maximum_interval")
      (rp_maximum_interval value) in
  try_each_at
    (λ index error_type,
      validate_text error_type
        ("$.variant.retry_policy.non_retryable_error_types[" +:+ pretty index +:+ "]"))
    0 (rp_non_retryable_error_types value).

(** The arm of [validate_task] for a start. *)
Definition validate_start (start : ActivityStart) : result () ProtocolError :=
  let? _ :=
    try_each (λ field : string * string, identifier field.1 field.2)
      [(st_workflow_namespace start, "$.variant.workflow_namespace");
       (st_workflow_type start, "$.variant.workflow_type");
       (we_workflow_id (st_workflow_execution start), "$.variant.workflow_execution.workflow_id");
       (we_run_id (st_workflow_execution start), "$.variant.workflow_execution.run_id");
       (st_activity_id start, "$.variant.activity_id");
       (st_activity_type start, "$.variant.activity_type")] in
  let? _ :=
    try_each
      (λ field : option Timestamp * string,
        try_some (λ time, validate_timestamp time field.2) field.1)
      [(st_scheduled_time start, "$.variant.scheduled_time");
       (st_current_attempt_scheduled_time start, "$.variant.current_attempt_scheduled_time");
       (st_started_time start, "$.variant.started_time")] in
  let? _ :=
    try_each
      (λ field : option Duration * string,
        try_some (λ duration, validate_duration duration field.2) field.1)
      [(st_schedule_to_close_timeout start, "$.variant.schedule_to_close_timeout");
       (st_start_to_close_timeout start, "$.variant.start_to_close_timeout");
       (st_heartbeat_timeout start, "$.variant.heartbeat_timeout")] in
  let? _ :=
    try_each
      (λ entry : string * Payload, identifier entry.1 "$.variant.header_fields.<key>")
      (btree_iter (st_header_fields start)) in
  let? _ := try_some validate_retry_policy (st_retry_policy start) in
  let? _ :=
    try_some
      (λ priority,
        if 64 <? str_len (wp_fairness_key priority) then
          Err (invalid "$.variant.priority.fairness_key"
            "fairness key exceeds Core's 64-byte limit")
        else Ok tt)
      (st_priority start) in
  validate_text (st_standalone_run_id start) "$.variant.standalone_run_id".

Definition validate_task (value : ActivityTask) : result () ProtocolError :=
  let? _ := decode_token (tk_task_token value) in
  match tk_variant value with
  | Variant_Start start => validate_start start
  | Variant_Cancel _ => Ok tt
  end.

Definition validate_completion (value : ActivityCompletion) : result () ProtocolError :=
  let? _ := decode_token (cm_task_token value) in
  match cm_result value with
  | Result_Completed result =>
      map_err (λ _, invalid "$.result.result" "result payload violates protocol limits")
        (validate_payload_limits result)
  | Result_Failed failure | Result_Cancelled failure =>
      validate_failure failure "$.result.failure"
  | Result_WillCompleteAsync => Ok tt
  end.

(** The loop over the details of either kind of heartbeat. *)
Definition validate_details (details : list Payload) : result () ProtocolError :=
  try_each
    (λ payload,
      map_err (λ _, invalid "$.details" "heartbeat payload violates protocol limits")
        (validate_payload_limits payload))
    details.

Definition validate_heartbeat (value : ActivityHeartbeat) : result () ProtocolError :=
  let? _ := decode_token (hb_task_token value) in
  validate_details (hb_details value).

Definition validate_async_heartbeat (value : AsyncActivityHeartbeat) : result () ProtocolError :=
  let? _ := decode_token (ah_task_token value) in
  let? _ := validate_details (ah_details value) in
  try_some (λ timeout, validate_duration timeout "$.heartbeat_timeout") (ah_heartbeat_timeout value).

End Checks.

(** [member] inside [reject_null_completed_payload]. *)
Definition member (value : JsonValue) (name : string) : option JsonValue :=
  match value with
  | JObject entries => find_member entries name
  | _ => None
  end.

Definition reject_null_completed_payload (value : JsonValue) : result () ProtocolError :=
  match member value "result" with
  | None => Ok tt
  | Some result =>
      let completed :=
        match member result "kind" with
        | Some (JString kind) => bool_decide (kind = "completed")
        | _ => false
        end in
      if completed && match member result "result" with Some JNull => true | _ => false end then
        Err (invalid "$.result.result" "completed activity result requires a payload")
      else Ok tt
  end.

(** ** Conversions *)

Section Conversion.
Context `{Base64, CoreEnums}.

Definition timestamp_from_core (value : Core.Timestamp) : Timestamp :=
  mkTimestamp (Core.ts_seconds value) (Core.ts_nanos value).

(** The closure [interval] of [retry_policy_from_core]. *)
Definition optional_interval (duration : option Core.Duration) :
    result (option Duration) CoreConversionError :=
  match duration with
  | Some duration =>
      if (0 <=? Core.du_seconds duration)%Z && (0 <=? Core.du_nanos duration)%Z then
        let? duration := duration_from_core duration in
        Ok (Some duration)
      else Ok None
  | None => Ok None
  end.

Definition retry_policy_from_core (value : Core.RetryPolicy) :
    result RetryPolicy CoreConversionError :=
  let? initial := optional_interval (Core.initial_interval value) in
  let? maximum := optional_interval (Core.maximum_interval value) in
  Ok (mkRetryPolicy initial (pretty (Core.backoff_coefficient value)) maximum
    (Core.maximum_attempts value) (Core.non_retryable_error_types value)).

Definition cancel_reason_from_core (value : Z) :
    result ActivityCancelReason CoreConversionError :=
  let? value := ok_or (try_from_i32 value) (unsupported "unknown activity cancellation reason") in
  Ok match value with
     | Core.Reason_NotFound => Reason_NotFound
     | Core.Reason_Cancelled => Reason_Cancelled
     | Core.Reason_TimedOut => Reason_TimedOut
     | Core.Reason_WorkerShutdown => Reason_WorkerShutdown
     | Core.Reason_Paused => Reason_Paused
     | Core.Reason_Reset => Reason_Reset
     end.

(** The two arms of [task_from_core]. *)
Definition start_from_core (start : Core.ActivityStart) :
    result ActivityTaskVariant CoreConversionError :=
  let? execution :=
    ok_or (Core.as_workflow_execution start)
      (invalid_core "activity workflow execution is absent") in
  let? header_fields := collect_map payload_from_core (map_to_list (Core.as_header_fields start)) in
  let? input := try_map payload_from_core (Core.as_input start) in
  let? heartbeat_details := try_map payload_from_core (Core.as_heartbeat_details start) in
  let? schedule_to_close :=
    try_option duration_from_core (Core.as_schedule_to_close_timeout start) in
  let? start_to_close := try_option duration_from_core (Core.as_start_to_close_timeout start) in
  let? heartbeat := try_option duration_from_core (Core.as_heartbeat_timeout start) in
  let? retry_policy := try_option retry_policy_from_core (Core.as_retry_policy start) in
  Ok (Variant_Start {|
    st_workflow_namespace := Core.as_workflow_namespace start;
    st_workflow_type := Core.as_workflow_type start;
    st_workflow_execution :=
      mkWorkflowExecution (Core.we_workflow_id execution) (Core.we_run_id execution);
    st_activity_id := Core.as_activity_id start;
    st_activity_type := Core.as_activity_type start;
    st_is_local := Core.as_is_local start;
    st_header_fields := header_fields;
    st_input := input;
    st_heartbeat_details := heartbeat_details;
    st_scheduled_time := timestamp_from_core <$> Core.as_scheduled_time start;
    st_current_attempt_scheduled_time :=
      timestamp_from_core <$> Core.as_current_attempt_scheduled_time start;
    st_started_time := timestamp_from_core <$> Core.as_started_time start;
    st_attempt := Core.as_attempt start;
    st_schedule_to_close_timeout := schedule_to_close;
    st_start_to_close_timeout := start_to_close;
    st_heartbeat_timeout := heartbeat;
    st_retry_policy := retry_policy;
    st_priority := priority_copy <$> Core.as_priority start;
    st_standalone_run_id := Core.as_run_id start
  |}).

Definition cancel_from_core (reason : Z) (details : option Core.ActivityCancellationDetails) :
    result ActivityTaskVariant CoreConversionError :=
  let? reason := cancel_reason_from_core reason in
  Ok (Variant_Cancel (mkActivityCancel reason
    ((λ d, mkActivityCancellationDetails (Core.acd_is_not_found d) (Core.acd_is_cancelled d)
       (Core.acd_is_paused d) (Core.acd_is_timed_out d) (Core.acd_is_worker_shutdown d)
       (Core.acd_is_reset d)) <$> details))).

Definition task_from_core (value : Core.ActivityTask) : result ActivityTask CoreConversionError :=
  let? variant :=
    ok_or (Core.at_variant value) (invalid_core "Core activity variant is absent") in
  let? variant :=
    match variant with
    | Core.Variant_Start start => start_from_core start
    | Core.Variant_Cancel reason details => cancel_from_core reason details
    end in
  let task := mkActivityTask (base64_encode (Core.at_task_token value)) variant in
  let? _ :=
    map_err (λ _, invalid_core "Core activity task violates semantic protocol")
      (validate_task task) in
  Ok task.

Definition result_to_core (value : ActivityCompletionResult) :
    result Core.ActivityResultStatus CoreConversionError :=
  match value with
  | Result_Completed result =>
      let? payload := payload_to_core result in
      Ok (Core.Result_Completed (Some payload))
  | Result_Failed failure =>
      let? failure := failure_to_core failure in
      Ok (Core.Result_Failed (Some failure) (as_i32 Core.ActivityCause_Unspecified))
  | Result_Cancelled failure =>
      let? failure := failure_to_core failure in
      Ok (Core.Result_Cancelled (Some failure))
  | Result_WillCompleteAsync => Ok Core.Result_WillCompleteAsync
  end.

Definition completion_to_core (value : ActivityCompletion) :
    result Core.ActivityTaskCompletion CoreConversionError :=
  let? _ :=
    map_err (λ _, invalid_core "activity completion violates semantic protocol")
      (validate_completion value) in
  let? status := result_to_core (cm_result value) in
  let? token :=
    map_err (λ _, invalid_core "activity task token is invalid")
      (decode_token (cm_task_token value)) in
  Ok (Core.mkActivityTaskCompletion token (Some (Some status))).

End Conversion.

(** ** What the checks accept *)

Section Theorems.
Context `{Base64Laws, CoreEnumsLaws}.

Lemma decode_token_Ok s bytes :
  decode_token s = Ok bytes ↔
  bytes ≠ [] ∧ bytes_len bytes ≤ MAX_PAYLOAD_BYTES ∧ s = base64_encode bytes.
Proof.
  unfold decode_token. rewrite bind_Ok. setoid_rewrite ok_or_Ok. setoid_rewrite guard_Ok.
  setoid_rewrite orb_false_iff. setoid_rewrite orb_false_iff.
  setoid_rewrite bool_decide_eq_false. setoid_rewrite negb_false_iff.
  setoid_rewrite bool_decide_eq_true. setoid_rewrite N.ltb_ge. split.
  - intros (b & Hb & [[? ?] <-] & [= <-]). done.
  - intros (? & ? & ->). exists bytes. by rewrite base64_decode_encode.
Qed.

Definition token_ok (s : string) : Prop :=
  ∃ bytes, bytes ≠ [] ∧ bytes_len bytes ≤ MAX_PAYLOAD_BYTES ∧ s = base64_encode bytes.

Lemma token_check {A} s (k : result A ProtocolError) x :
  (let? _ := decode_token s in k) = Ok x ↔ token_ok s ∧ k = Ok x.
Proof.
  rewrite bind_Ok. setoid_rewrite decode_token_Ok. unfold token_ok. naive_solver.
Qed.

Lemma validate_text_Ok s path : validate_text s path = Ok tt ↔ text_fits s.
Proof. apply bounded_text_Ok. Qed.

Lemma pretty_u64_fits n : n < u64_modulus → text_fits (pretty n).
Proof. intros Hn. pose proof (pretty_u64_len n Hn). unfold text_fits, MAX_STRING_BYTES. lia. Qed.

Lemma activity_decimal_Ok s path :
  validate_uint64_decimal s path = Ok tt ↔ ∃ n, n < u64_modulus ∧ s = pretty n.
Proof.
  unfold validate_uint64_decimal. rewrite seq_Ok, bind_Ok, validate_text_Ok.
  setoid_rewrite ok_or_Ok. setoid_rewrite guard_Ok. setoid_rewrite negb_false_iff.
  setoid_rewrite bool_decide_eq_true. split.
  - intros (_ & n & Hn & <- & _). exists n. split; [by eapply parse_u64_bound|done].
  - intros (n & Hn & ->). split; [by apply pretty_u64_fits|]. exists n. by rewrite parse_u64_pretty.
Qed.

Definition activity_retry_ok (p : RetryPolicy) : Prop :=
  if_some duration_ok (rp_initial_interval p) ∧
  (∃ n, n < u64_modulus ∧ rp_backoff_coefficient_bits p = pretty n) ∧
  if_some duration_ok (rp_maximum_interval p) ∧
  Forall text_fits (rp_non_retryable_error_types p).

#[local] Hint Rewrite validate_text_Ok activity_decimal_Ok @token_check : checks.

Lemma validate_duration_some path o :
  try_some (λ d, validate_duration d path) o = Ok tt ↔ if_some duration_ok o.
Proof. apply try_some_if. intros d. apply validate_duration_Ok. Qed.

Lemma validate_timestamp_some path o :
  try_some (λ t, validate_timestamp t path) o = Ok tt ↔ if_some timestamp_ok o.
Proof. apply try_some_if. intros t. apply validate_timestamp_Ok. Qed.

Lemma activity_retry_policy_Ok p : validate_retry_policy p = Ok tt ↔ activity_retry_ok p.
Proof.
  unfold validate_retry_policy, activity_retry_ok. open_checks.
  rewrite !validate_duration_some, activity_decimal_Ok.
  by rewrite (try_each_at_Ok _ text_fits) by (intros; apply validate_text_Ok).
Qed.

Definition start_ok (s : ActivityStart) : Prop :=
  Forall is_identifier
    [st_workflow_namespace s; st_workflow_type s; we_workflow_id (st_workflow_execution s);
     we_run_id (st_workflow_execution s); st_activity_id s; st_activity_type s] ∧
  Forall (if_some timestamp_ok)
    [st_scheduled_time s; st_current_attempt_scheduled_time s; st_started_time s] ∧
  Forall (if_some duration_ok)
    [st_schedule_to_close_timeout s; st_start_to_close_timeout s; st_heartbeat_timeout s] ∧
  keys_ok (st_header_fields s) ∧ if_some activity_retry_ok (st_retry_policy s) ∧
  if_some (λ p, str_len (wp_fairness_key p) ≤ 64) (st_priority s) ∧
  text_fits (st_standalone_run_id s).

Definition task_ok (t : ActivityTask) : Prop :=
  token_ok (tk_task_token t) ∧
  match tk_variant t with Variant_Start s => start_ok s | Variant_Cancel _ => True end.

Lemma validate_start_Ok s : validate_start s = Ok tt ↔ start_ok s.
Proof.
  unfold validate_start, start_ok. open_checks. rewrite !try_each_Ok, Forall_btree_iter.
  rewrite (try_some_if _ activity_retry_ok) by apply activity_retry_policy_Ok.
  rewrite (try_some_if _ (λ p, str_len (wp_fairness_key p) ≤ 64)).
  2: { intros p. rewrite guard_Ok, N.ltb_ge. naive_solver. }
  rewrite validate_text_Ok, !Forall_cons, !Forall_nil. simpl.
  rewrite !identifier_Ok, !validate_duration_some, !validate_timestamp_some.
  unfold keys_ok, map_Forall. setoid_rewrite identifier_Ok. done.
Qed.

Lemma validate_task_Ok t : validate_task t = Ok tt ↔ task_ok t.
Proof.
  unfold validate_task, task_ok. rewrite token_check. apply and_iff_compat_l.
  destruct (tk_variant t); [apply validate_start_Ok|done].
Qed.

(** ** Received tasks *)

Definition core_activity_retry_ok (p : Core.RetryPolicy) : Prop :=
  core_interval_ok (Core.initial_interval p) ∧ core_interval_ok (Core.maximum_interval p) ∧
  Core.backoff_coefficient p < u64_modulus ∧ Forall text_fits (Core.non_retryable_error_types p).

Definition core_start_ok (s : Core.ActivityStart) : Prop :=
  (∃ e, Core.as_workflow_execution s = Some e ∧
    Forall is_identifier
      [Core.as_workflow_namespace s; Core.as_workflow_type s; Core.we_workflow_id e;
       Core.we_run_id e; Core.as_activity_id s; Core.as_activity_type s]) ∧
  map_Forall (λ key payload, is_identifier key ∧ core_payload_fits payload)
    (Core.as_header_fields s) ∧
  Forall core_payload_fits (Core.as_input s) ∧ Forall core_payload_fits (Core.as_heartbeat_details s) ∧
  Forall (if_some (λ t, time_ok (Core.ts_nanos t)))
    [Core.as_scheduled_time s; Core.as_current_attempt_scheduled_time s; Core.as_started_time s] ∧
  Forall (if_some (λ d, duration_ok (duration_copy d)))
    [Core.as_schedule_to_close_timeout s; Core.as_start_to_close_timeout s;
     Core.as_heartbeat_timeout s] ∧
  if_some core_activity_retry_ok (Core.as_retry_policy s) ∧
  if_some (λ p, str_len (Core.fairness_key p) ≤ 64) (Core.as_priority s) ∧
  text_fits (Core.as_run_id s).

Definition core_task_ok (m : Core.ActivityTask) : Prop :=
  (Core.at_task_token m ≠ [] ∧ bytes_len (Core.at_task_token m) ≤ MAX_PAYLOAD_BYTES) ∧
  match Core.at_variant m with
  | Some (Core.Variant_Start s) => core_start_ok s
  | Some (Core.Variant_Cancel reason _) =>
      ∃ r : Core.ActivityCancelReason, try_from_i32 reason = Some r
  | None => False
  end.

(** A negative or absent interval is unset, another one must be normalized. *)
Lemma optional_interval_accepts o :
  (∃ r, optional_interval o = Ok r) ↔ core_interval_ok o.
Proof.
  unfold core_interval_ok, if_some. destruct o as [d|]; [|naive_solver]. simpl.
  destruct (_ && _) eqn:Hsign.
  - apply andb_true_iff in Hsign as [Hs%Z.leb_le Hn%Z.leb_le]. setoid_rewrite bind_Ok.
    setoid_rewrite duration_from_core_Ok. split.
    + intros (r & d' & [Hd ->] & _) a [= <-]. do 2 right. by destruct d'.
    + intros Ha. specialize (Ha d eq_refl) as [?|[?|Ha]]; [lia|lia|].
      exists (Some (duration_copy d)), (duration_copy d). by destruct d.
  - apply andb_false_iff in Hsign. split; [|by eexists].
    intros _ a [= <-]. unfold core_delay_ok. rewrite !Z.leb_gt in Hsign. tauto.
Qed.

Lemma optional_interval_ok o r : optional_interval o = Ok r → if_some duration_ok r.
Proof.
  destruct o as [d|]; simpl; [|by intros [= <-]]. destruct (_ && _); [|by intros [= <-]].
  rewrite bind_Ok. intros (d' & [Hd _]%duration_from_core_Ok & [= <-]). by intros ? [= <-].
Qed.

Lemma retry_policy_from_core_accepts p :
  (∃ q, retry_policy_from_core p = Ok q ∧ activity_retry_ok q) ↔ core_activity_retry_ok p.
Proof.
  unfold retry_policy_from_core, core_activity_retry_ok. rewrite <-!optional_interval_accepts.
  setoid_rewrite bind_Ok. setoid_rewrite bind_Ok. split.
  - intros (q & (i & Hi & m & Hm & [= <-]) & _ & (n & Hn & Hp) & _ & Ht).
    simpl in *. apply (inj pretty) in Hp. subst n. split_and!; eauto.
  - intros ([i Hi] & [m Hm] & Hn & Ht). eexists. split; [by eauto 10|].
    unfold activity_retry_ok. simpl. eauto 10 using optional_interval_ok.
Qed.

Lemma durations_accept o :
  (∃ r, try_option duration_from_core o = Ok r) ↔ if_some (λ d, duration_ok (duration_copy d)) o.
Proof.
  split; [|by intros (r & ? & _)%durations_total; eauto].
  intros (r & Hr%try_option_Ok) d ->. destruct r as [d'|]; [|done].
  apply duration_from_core_Ok in Hr as [Hd ->]. by destruct d'.
Qed.

Lemma payloads_accept l :
  (∃ k, try_map payload_from_core l = Ok k) ↔ Forall core_payload_fits l.
Proof.
  split; [|apply payloads_total]. intros [k Hk%try_map_Ok].
  induction Hk as [|m p l k [Hm _]%payload_from_core_Ok _ IH]; by constructor.
Qed.

Lemma header_accepts m :
  (∃ m', collect_map payload_from_core (map_to_list m) = Ok m' ∧ keys_ok m') ↔
  map_Forall (λ key payload, is_identifier key ∧ core_payload_fits payload) m.
Proof.
  split; [|apply payload_fields_total]. intros (m' & Hm & Hkeys) key payload Hp.
  rewrite (collect_map_exact _ m) in Hm by done. specialize (Hm key). rewrite Hp in Hm.
  destruct (m' !! key) as [p|] eqn:Hk; [|done]. split; [by eapply Hkeys|].
  by apply payload_from_core_Ok in Hm as [? _].
Qed.

Lemma if_some_fmap_iff {A B} (f : A → B) (P : B → Prop) o :
  if_some P (f <$> o) ↔ if_some (λ a, P (f a)) o.
Proof. unfold if_some. destruct o; simpl; naive_solver. Qed.

Lemma retry_policies_accept o :
  (∃ r, try_option retry_policy_from_core o = Ok r ∧ if_some activity_retry_ok r) ↔
  if_some core_activity_retry_ok o.
Proof.
  destruct o as [p|]; [|unfold if_some; naive_solver]. unfold if_some at 2. split.
  - intros (r & Hr%try_option_Ok & Hok) ? [= <-]. destruct r as [q|]; [|done].
    apply retry_policy_from_core_accepts. eauto.
  - intros (q & Hq & Hok)%(λ H, proj2 (retry_policy_from_core_accepts p) (H p eq_refl)).
    exists (Some q). simpl. rewrite Hq. split; [done|]. by intros ? [= <-].
Qed.

Lemma durations_kept o r : try_option duration_from_core o = Ok r → if_some duration_ok r.
Proof.
  intros Hr%try_option_Ok d ->. destruct o as [m|]; [|done].
  by apply duration_from_core_Ok in Hr as [? _].
Qed.

Lemma start_from_core_accepts s :
  (∃ v, start_from_core s = Ok (Variant_Start v) ∧ start_ok v) ↔ core_start_ok s.
Proof.
  unfold core_start_ok. rewrite <-header_accepts, <-!payloads_accept, <-retry_policies_accept.
  rewrite !Forall_cons, <-!durations_accept. split.
  - intros (v & Hv & Hok). unfold start_from_core in Hv.
    apply bind_Ok in Hv as (e & He%ok_or_Ok & Hv). apply bind_Ok in Hv as (h & Hh & Hv).
    apply bind_Ok in Hv as (i & Hi & Hv). apply bind_Ok in Hv as (d & Hd & Hv).
    apply bind_Ok in Hv as (t1 & Ht1 & Hv). apply bind_Ok in Hv as (t2 & Ht2 & Hv).
    apply bind_Ok in Hv as (t3 & Ht3 & Hv). apply bind_Ok in Hv as (r & Hr & [= <-]).
    destruct Hok as (Hids & Htimes & _ & Hkeys & Hretry & Hprio & Hrun). simpl in *.
    rewrite !Forall_cons, !if_some_fmap_iff in Htimes. rewrite if_some_fmap_iff in Hprio.
    destruct Htimes as (? & ? & ? & _). split_and!; eauto.
  - intros ((e & He & Hids) & (h & Hh & Hkeys) & (i & Hi) & (d & Hd) & (Hs & Hc & Ht & _) &
      ((t1 & Ht1) & (t2 & Ht2) & (t3 & Ht3) & _) & (r & Hr & Hretry) & Hprio & Hrun).
    unfold start_from_core. rewrite He, Hh, Hi, Hd, Ht1, Ht2, Ht3, Hr. simpl.
    eexists. split; [reflexivity|]. unfold start_ok. simpl.
    rewrite !Forall_cons, !if_some_fmap_iff.
    rewrite !Forall_cons in Hids. destruct_and? Hids.
    split_and!; eauto using durations_kept, Forall_nil_2.
Qed.

Lemma token_ok_encode bytes :
  token_ok (base64_encode bytes) ↔ bytes ≠ [] ∧ bytes_len bytes ≤ MAX_PAYLOAD_BYTES.
Proof.
  split; [|intros []; by exists bytes]. intros (b & Hne & Hlen & Heq).
  apply (f_equal base64_decode) in Heq. rewrite !base64_decode_encode in Heq. by injection Heq as ->.
Qed.

Lemma task_from_core_Ok m t :
  task_from_core m = Ok t ↔
  task_ok t ∧ tk_task_token t = base64_encode (Core.at_task_token m) ∧
  match Core.at_variant m with
  | Some (Core.Variant_Start s) => start_from_core s = Ok (tk_variant t)
  | Some (Core.Variant_Cancel reason details) => cancel_from_core reason details = Ok (tk_variant t)
  | None => False
  end.
Proof.
  unfold task_from_core. rewrite bind_Ok. setoid_rewrite ok_or_Ok. setoid_rewrite bind_Ok. cbv zeta.
  setoid_rewrite seq_Ok. setoid_rewrite map_err_Ok. setoid_rewrite validate_task_Ok. split.
  - intros (v & -> & w & Hw & Hok & [= <-]). destruct v; done.
  - destruct t as [token variant]. simpl. intros (Hok & -> & Hv).
    destruct (Core.at_variant m) as [[s|reason details]|]; naive_solver.
Qed.

(** An activity task of Core is handed to the workflow language exactly when
    its token has between one byte and the payload limit, a start names its
    execution, its identifiers, header keys, payloads, times, error types and
    fairness key are within the limits, each interval of its retry policy is
    negative or normalized, and a cancellation has a known reason. *)
Theorem task_from_core_accepts m : (∃ t, task_from_core m = Ok t) ↔ core_task_ok m.
Proof.
  unfold core_task_ok. setoid_rewrite task_from_core_Ok. unfold task_ok.
  destruct (Core.at_variant m) as [[s|reason details]|]; [| |naive_solver].
  - rewrite <-start_from_core_accepts, <-token_ok_encode. split.
    + intros ([token variant] & [Htoken Hok] & Heq & Hv). simpl in *. subst token. split; [done|].
      destruct variant as [v|]; [eauto|]. exfalso. revert Hv. unfold start_from_core.
      repeat setoid_rewrite bind_Ok. naive_solver.
    + intros (Htoken & v & Hv & Hok).
      by exists (mkActivityTask (base64_encode (Core.at_task_token m)) (Variant_Start v)).
  - rewrite <-token_ok_encode. unfold cancel_from_core, cancel_reason_from_core.
    setoid_rewrite bind_Ok. setoid_rewrite bind_Ok. setoid_rewrite ok_or_Ok. split.
    + intros ([token variant] & [Htoken _] & Heq & r & (c & Hc & _) & _). simpl in *. subst. eauto.
    + intros (Htoken & c & Hc). eexists (mkActivityTask _ (Variant_Cancel _)). simpl.
      split_and!; [done|done|reflexivity|]. eauto 10.
Qed.

(** ** Completions *)

(** The encoded attributes of each layer are within the payload limits. *)
Fixpoint attributes_fit (f : Failure) : Prop :=
  match f with
  | mkFailure _ _ _ attributes cause _ =>
      match attributes with Some p => payload_fits p | None => True end ∧
      match cause with Some cause => attributes_fit cause | None => True end
  end.

Lemma payload_to_core_total p : payload_fits p → ∃ m, payload_to_core p = Ok m.
Proof. intros Hp. eexists. by apply payload_to_core_Ok. Qed.

Lemma payloads_to_core_total l : Forall payload_fits l → ∃ k, payload_vec_to_core l = Ok k.
Proof.
  unfold payload_vec_to_core. setoid_rewrite try_map_Ok.
  induction 1 as [|p l [m Hm]%payload_to_core_total _ [k Hk]]; eauto.
Qed.

Lemma details_to_core_total l :
  Forall payload_fits l →
  (∃ k, details_to_core l = Ok k) ∧ ∃ k, heartbeat_details_to_core l = Ok k.
Proof.
  intros Hl. assert (∃ k, details_to_core l = Ok k) as Hd.
  { unfold details_to_core, payloads_to_core. destruct (payloads_to_core_total l Hl) as [k ->]. eauto. }
  split; [done|]. destruct l; [by eexists|done].
Qed.

Lemma failure_info_to_core_total info : info_fits info → ∃ m, failure_info_to_core info = Ok m.
Proof.
  destruct info; simpl; try by eexists.
  - intros (_ & Hd & _). destruct (details_to_core_total _ Hd) as [[k ->] _]. by eexists.
  - intros (_ & Hd). destruct (details_to_core_total _ Hd) as [[k ->] _]. by eexists.
  - intros Hd. destruct (details_to_core_total _ Hd) as [_ [k ->]]. by eexists.
  - intros Hd. destruct (details_to_core_total _ Hd) as [_ [k ->]]. by eexists.
Qed.

Lemma failure_to_core_accepts f :
  failure_fits f → (∃ m, failure_to_core f = Ok m) ↔ attributes_fit f.
Proof.
  induction f as [message source trace attributes cause info IH] using Failure_ind.
  cbn [failure_fits failure_to_core attributes_fit]. intros (_ & _ & _ & Hi & Hc).
  destruct (failure_info_to_core_total info Hi) as [i ->].
  assert (∀ p, (∃ m, payload_to_core p = Ok m) ↔ payload_fits p) as Hp.
  { intros p. split; [|apply payload_to_core_total]. by intros (m & [? _]%payload_to_core_Ok). }
  destruct attributes as [p|], cause as [c|]; simpl; rewrite <-?Hp, <-?(IH _ eq_refl Hc);
    [destruct (payload_to_core p), (failure_to_core c)|destruct (payload_to_core p)
    |destruct (failure_to_core c)|]; naive_solver.
Qed.

Definition result_ok (r : ActivityCompletionResult) : Prop :=
  match r with
  | Result_Completed p => payload_fits p
  | Result_Failed f | Result_Cancelled f => failure_fits f
  | Result_WillCompleteAsync => True
  end.

(** The results that Core can be told. *)
Definition result_sendable (r : ActivityCompletionResult) : Prop :=
  match r with
  | Result_Completed p => payload_fits p
  | Result_Failed f | Result_Cancelled f => failure_fits f ∧ attributes_fit f
  | Result_WillCompleteAsync => True
  end.

(** Reading the status again gives the result. *)
Definition reports (r : ActivityCompletionResult) (status : Core.ActivityResultStatus) : Prop :=
  match r, status with
  | Result_Completed p, Core.Result_Completed (Some m) => payload_from_core m = Ok p
  | Result_Failed f, Core.Result_Failed (Some m) _ | Result_Cancelled f, Core.Result_Cancelled (Some m) =>
      layers f ≤ MAX_INBOUND_FAILURE_LAYERS → failure_from_core m = Ok f
  | Result_WillCompleteAsync, Core.Result_WillCompleteAsync => True
  | _, _ => False
  end.

Lemma activity_completion_Ok c :
  validate_completion c = Ok tt ↔ token_ok (cm_task_token c) ∧ result_ok (cm_result c).
Proof.
  unfold validate_completion. rewrite token_check. apply and_iff_compat_l.
  destruct (cm_result c); simpl; rewrite ?map_err_Ok, ?validate_payload_limits_Ok, ?validate_failure_Ok;
    done.
Qed.

Lemma result_to_core_accepts r :
  result_ok r → (∃ status, result_to_core r = Ok status) ↔ result_sendable r.
Proof.
  destruct r as [p|f|f|]; simpl; setoid_rewrite bind_Ok || idtac.
  - intros Hp. split; [done|]. destruct (payload_to_core_total p Hp) as [m Hm]. eauto.
  - intros Hf. rewrite <-(failure_to_core_accepts f Hf). naive_solver.
  - intros Hf. rewrite <-(failure_to_core_accepts f Hf). naive_solver.
  - naive_solver.
Qed.

Lemma result_to_core_reports r status :
  result_ok r → result_to_core r = Ok status → reports r status.
Proof.
  destruct r as [p|f|f|]; simpl; intros Hok.
  - intros (m & Hm & [= <-])%bind_Ok. by apply payload_round_trip.
  - intros (m & Hm & [= <-])%bind_Ok Hl. by apply failure_round_trip.
  - intros (m & Hm & [= <-])%bind_Ok Hl. by apply failure_round_trip.
  - by intros [= <-].
Qed.

(** C14: a completion that carries the token of a received task reaches Core under
    the very token bytes that Core sent; it is accepted exactly when its payload
    or failure is within the limits, and Core reads back the same result. *)
Theorem completion_reaches_task m t c :
  task_from_core m = Ok t → cm_task_token c = tk_task_token t →
  ((∃ k, completion_to_core c = Ok k) ↔ result_sendable (cm_result c)) ∧
  ∀ k, completion_to_core c = Ok k →
    Core.atc_task_token k = Core.at_task_token m ∧
    ∃ status, Core.atc_result k = Some (Some status) ∧ reports (cm_result c) status.
Proof.
  intros ([Htoken _] & Heq & _)%task_from_core_Ok Hc. rewrite Heq in Hc, Htoken.
  assert (decode_token (cm_task_token c) = Ok (Core.at_task_token m)) as Hdec.
  { rewrite Hc. apply decode_token_Ok. by apply token_ok_encode in Htoken as []. }
  unfold completion_to_core. setoid_rewrite seq_Ok. setoid_rewrite map_err_Ok.
  setoid_rewrite activity_completion_Ok. rewrite Hdec. setoid_rewrite bind_Ok. simpl. split.
  - split.
    + intros (k & [_ Hok] & status & Hs & _). apply result_to_core_accepts; eauto.
    + intros Hs. assert (result_ok (cm_result c)) as Hok by (destruct (cm_result c); naive_solver).
      apply (result_to_core_accepts _ Hok) in Hs as [status Hs]. rewrite Hc. eauto 10.
  - intros k ([_ Hok] & status & Hs & [= <-]). simpl. eauto using result_to_core_reports.
Qed.

End Theorems.
