(* ===== verification/ActivityDocuments.v ===== *)
(** * Activity documents as text

    The readers and writers of activity tasks, completions and heartbeats in
    src/rust/core-bridge/src/activity_protocol.rs.  A document that was written is
    read back as itself, and a completion whose success payload is null is
    refused before it is given a type. *)

From S2P Require Import Prelude.
From S2P Require Import Text.
From S2P Require Import Protocol.
From S2P Require Import ProtocolCodec.
From S2P Require Import Documents.
From S2P Require Import ActivityProtocol.
Local Open Scope N_scope.
Local Open Scope bridge_scope.

Section Codec.
Context `{SerdeJson} `{Base64}.
Context `{Serde ActivityTask, Serde ActivityCompletion}.
Context `{Serde ActivityHeartbeat, Serde AsyncActivityHeartbeat}.

Definition decode_task (input : string) : result ActivityTask ProtocolError :=
  decode_document validate_task "invalid activity task semantics" input.

Definition encode_task (value : ActivityTask) : result string ProtocolError :=
  encode_document validate_task decode_task "could not encode activity task" value.

Definition decode_completion (input : string) : result ActivityCompletion ProtocolError :=
  let? value := decode_payload_object input in
  let? _ := reject_null_completed_payload value in
  let? completion := semantic_from_value value "invalid activity completion semantics" in
  let? _ := validate_completion completion in
  Ok completion.

Definition encode_completion (value : ActivityCompletion) : result string ProtocolError :=
  encode_document validate_completion decode_completion "could not encode activity completion" value.

Definition decode_heartbeat (input : string) : result ActivityHeartbeat ProtocolError :=
  decode_document validate_heartbeat "invalid activity heartbeat semantics" input.

Definition encode_heartbeat (value : ActivityHeartbeat) : result string ProtocolError :=
  encode_document validate_heartbeat decode_heartbeat "could not encode activity heartbeat" value.

Definition decode_async_heartbeat (input : string) : result AsyncActivityHeartbeat ProtocolError :=
  decode_document validate_async_heartbeat "invalid async activity heartbeat semantics" input.

Definition encode_async_heartbeat (value : AsyncActivityHeartbeat) : result string ProtocolError :=
  encode_document validate_async_heartbeat decode_async_heartbeat
    "could not encode async activity heartbeat" value.

End Codec.

Section Theorems.
Context `{ReaderLaws} `{Base64}.
Context `{SerdeLaws ActivityTask, SerdeLaws ActivityCompletion}.
Context `{SerdeLaws ActivityHeartbeat, SerdeLaws AsyncActivityHeartbeat}.

Lemma activity_completion_round_trip c text :
  encode_completion c = Ok text → decode_completion text = Ok c.
Proof.
  unfold encode_completion, encode_document. rewrite seq_Ok. intros [Hv Henc].
  apply bind_Ok in Henc as (output & Hout & (b & Hb & [= <-])%bind_Ok).
  destruct (semantic_round_trip c _ output Hout) as (w & Hw & Hc). revert Hb.
  unfold decode_completion. rewrite Hw. simpl. rewrite seq_Ok. intros [-> _].
  unfold semantic_from_value. rewrite Hc. simpl. by rewrite Hv.
Qed.

(** An activity document that was written is read back as itself: once a
    writer returned the text of a task, a completion or a heartbeat of either
    kind, the reader of that kind decodes the text to the same document. *)
Theorem activity_documents_round_trip t c h a text :
  (encode_task t = Ok text → decode_task text = Ok t) ∧
  (encode_completion c = Ok text → decode_completion text = Ok c) ∧
  (encode_heartbeat h = Ok text → decode_heartbeat text = Ok h) ∧
  (encode_async_heartbeat a = Ok text → decode_async_heartbeat text = Ok a).
Proof.
  split; [|split; [|split]];
    solve [eapply document_round_trip; intros input; reflexivity
          |apply activity_completion_round_trip].
Qed.

End Theorems.

(** ** Null results *)

(** The documents that claim success with a null result. *)
Definition null_success (value : JsonValue) : Prop :=
  ∃ result, member value "result" = Some result ∧
    member result "kind" = Some (JString "completed") ∧ member result "result" = Some JNull.

Lemma reject_null_completed_payload_Err value :
  (∃ e, reject_null_completed_payload value = Err e) ↔ null_success value.
Proof.
  unfold reject_null_completed_payload, null_success.
  destruct (member value "result") as [r|]; [|naive_solver]. split.
  - intros [e He]. exists r. split; [done|].
    destruct (member r "kind") as [[| | | |kind| |]|]; try done. case_bool_decide; [|done].
    subst kind. by destruct (member r "result") as [[]|].
  - intros (r' & [= <-] & -> & ->). rewrite bool_decide_true by done. by eexists.
Qed.
