(* ===== verification/ClientTypes.v ===== *)
(** * Types of the client protocol

    The requests, responses and errors of
    src/rust/core-bridge/src/client_protocol.rs. *)

From S2P Require Import Prelude.
From S2P Require Import WorkflowTypes.
From S2P Require Import CoreConversion.
Local Open Scope N_scope.

Record ExecutionRef := mkExecutionRef {
  ex_namespace : string;
  ex_workflow_id : string;
  ex_run_id : string
}.

Record MetadataField := mkMetadataField { mf_key : string; mf_value : Payload }.

Inductive IdConflictPolicy := Conflict_Fail | Conflict_UseExisting | Conflict_TerminateExisting.

Inductive IdReusePolicy :=
| Reuse_AllowDuplicate
| Reuse_AllowDuplicateFailedOnly
| Reuse_RejectDuplicate.

(** ** Requests *)

Record StartWorkflowRequest := mkStartWorkflowRequest {
  sr_request_id : string;
  sr_namespace : string;
  sr_workflow_id : string;
  sr_workflow_type : string;
  sr_task_queue : string;
  sr_input : list Payload;
  sr_memo : list MetadataField;
  sr_search_attributes : list MetadataField;
  sr_id_conflict_policy : IdConflictPolicy;
  sr_id_reuse_policy : IdReusePolicy;
  sr_execution_timeout_ms : option N;
  sr_run_timeout_ms : option N;
  sr_task_timeout_ms : option N;
  sr_retry_policy : option RetryPolicy;
  sr_rpc_timeout_ms : option N
}.

Record WaitWorkflowRequest := mkWaitWorkflowRequest {
  wr_namespace : string;
  wr_workflow_id : string;
  wr_run_id : string
}.

Record CancelWorkflowRequest := mkCancelWorkflowRequest {
  cr_namespace : string;
  cr_workflow_id : string;
  cr_run_id : string;
  cr_request_id : string;
  cr_reason : string;
  cr_rpc_timeout_ms : option N
}.

Record TerminateWorkflowRequest := mkTerminateWorkflowRequest {
  tr_namespace : string;
  tr_workflow_id : string;
  tr_run_id : string;
  tr_reason : string;
  tr_rpc_timeout_ms : option N
}.

Record ResetWorkflowRequest := mkResetWorkflowRequest {
  rr_namespace : string;
  rr_workflow_id : string;
  rr_run_id : string;
  rr_request_id : string;
  rr_reason : string;
  rr_workflow_task_finish_event_id : Z;
  rr_rpc_timeout_ms : option N
}.

Record SignalWorkflowRequest := mkSignalWorkflowRequest {
  gr_namespace : string;
  gr_workflow_id : string;
  gr_run_id : string;
  gr_signal_name : string;
  gr_request_id : string;
  gr_input : list Payload;
  gr_rpc_timeout_ms : option N
}.

Record QueryWorkflowRequest := mkQueryWorkflowRequest {
  qr_namespace : string;
  qr_workflow_id : string;
  qr_run_id : string;
  qr_query_type : string;
  qr_input : list Payload;
  qr_rpc_timeout_ms : option N
}.

Record UpdateWorkflowRequest := mkUpdateWorkflowRequest {
  ur_namespace : string;
  ur_workflow_id : string;
  ur_run_id : string;
  ur_update_id : string;
  ur_update_name : string;
  ur_input : list Payload;
  ur_rpc_timeout_ms : option N
}.

Record PollWorkflowUpdateRequest := mkPollWorkflowUpdateRequest {
  pr_namespace : string;
  pr_workflow_id : string;
  pr_run_id : string;
  pr_update_id : string
}.

Record VisibilityRequest := mkVisibilityRequest {
  vr_namespace : string;
  vr_query : string;
  vr_page_size : N;
  vr_next_page_token : option string;
  vr_rpc_timeout_ms : option N
}.

Record HistoryRequest := mkHistoryRequest {
  hr_namespace : string;
  hr_workflow_id : string;
  hr_run_id : string;
  hr_page_size : option N;
  hr_rpc_timeout_ms : option N
}.

(** ** Responses *)

Record StartWorkflowResponse := mkStartWorkflowResponse {
  sp_execution : ExecutionRef;
  sp_started : bool
}.

Record StartTicketDocument := mkStartTicketDocument { td_ticket : string }.

Record CancelWorkflowResponse := mkCancelWorkflowResponse { cw_acknowledged : bool }.
Record TerminateWorkflowResponse := mkTerminateWorkflowResponse { tw_acknowledged : bool }.
Record ResetWorkflowResponse := mkResetWorkflowResponse { rw_execution : ExecutionRef }.
Record SignalWorkflowResponse := mkSignalWorkflowResponse { gw_acknowledged : bool }.
Record QueryWorkflowResponse := mkQueryWorkflowResponse { qw_result : list Payload }.

Inductive UpdateOutcome :=
| Update_OutcomeCompleted (result : list Payload)
| Update_OutcomeFailed (failure : Failure).

Record UpdateWorkflowResponse := mkUpdateWorkflowResponse {
  uw_update_id : string;
  uw_execution : ExecutionRef;
  uw_outcome : option UpdateOutcome
}.

Record PollWorkflowUpdateResponse := mkPollWorkflowUpdateResponse {
  pw_outcome : option UpdateOutcome
}.

Record VisibilityExecution := mkVisibilityExecution {
  ve_workflow_id : string;
  ve_run_id : string;
  ve_workflow_type : string;
  ve_task_queue : string;
  ve_status : string
}.

Record VisibilityPage := mkVisibilityPage {
  vp_executions : list VisibilityExecution;
  vp_next_page_token : option string
}.

Record SuccessorRef := mkSuccessorRef {
  su_namespace : string;
  su_workflow_id : string;
  su_run_id : string
}.

Inductive WorkflowOutcome :=
| Outcome_Completed (result : list Payload) (successor : option SuccessorRef)
| Outcome_Failed (failure : Failure) (successor : option SuccessorRef)
| Outcome_Cancelled (details : list Payload)
| Outcome_Terminated (details : list Payload)
| Outcome_TimedOut (successor : option SuccessorRef)
| Outcome_ContinuedAsNew (successor : SuccessorRef).

Record WaitWorkflowResponse := mkWaitWorkflowResponse {
  ww_execution : ExecutionRef;
  ww_outcome : WorkflowOutcome
}.

(** ** Errors *)

Inductive ClientOperationError :=
| Error_AlreadyStarted (workflow_id : string) (existing_run_id : option string)
| Error_Rpc (code : string)
| Error_QueryFailed (message : string)
| Error_Core (error : CoreConversionError).

Inductive StartWorkflowOutcome :=
| Start_Accepted (response : StartWorkflowResponse)
| Start_Rejected (error : ClientOperationError)
| Start_Unknown (request_id workflow_id : string).

Inductive ClientErrorDocument :=
| Document_AlreadyStarted (workflow_id : string) (existing_run_id : option string)
| Document_Rpc (code : string)
| Document_QueryFailed (message : string)
| Document_Protocol (code : string).

Inductive StartWorkflowOutcomeDocument :=
| Document_Accepted (execution : ExecutionRef) (started : bool)
| Document_Rejected (error : ClientErrorDocument)
| Document_Unknown (request_id workflow_id : string).
