(* ===== verification/ClientChecks.v ===== *)
(** * Checks of the client protocol

    The checks of requests and responses in
    src/rust/core-bridge/src/client_protocol.rs, each with a predicate that says
    what it accepts, and the names of visibility statuses. *)

From stdpp Require Import pretty.
From Stdlib Require Import Ascii.
From S2P Require Import Prelude.
From S2P Require Import Text.
From S2P Require Import Protocol.
From S2P Require Import WorkflowTypes.
From S2P Require Import WorkflowChecks.
From S2P Require Import ActivationChecks.
From S2P Require Import CoreConversion.
From S2P Require Import ClientTypes.
Local Open Scope N_scope.
Local Open Scope bridge_scope.

Definition MAX_RPC_TIMEOUT_MS : N := 60000.
Definition MAX_WORKFLOW_TASK_TIMEOUT_MS : N := 120000.
Definition MAX_WORKFLOW_TIMEOUT_MS : N := 315576000000999.

(** ** Fields *)

Definition validate_identifier (value path : string) : result () ProtocolError :=
  if str_is_empty value || (MAX_STRING_BYTES <? str_len value) then
    Err (invalid path "identifier is empty or exceeds the protocol string safety limit")
  else if contains_nul value then Err (invalid path "identifier contains a NUL byte")
  else Ok tt.

Definition validate_run_selector (value path : string) : result () ProtocolError :=
  if str_is_empty value then Ok tt else validate_identifier value path.

Definition validate_rpc_timeout (value : option N) : result () ProtocolError :=
  match value with
  | Some milliseconds =>
      if negb ((1 <=? milliseconds) && (milliseconds <=? MAX_RPC_TIMEOUT_MS)) then
        Err (invalid "$.rpc_timeout_ms" "rpc timeout must be between 1 and 60000 milliseconds")
      else Ok tt
  | None => Ok tt
  end.

Definition validate_run_target (namespace workflow_id run_id : string) : result () ProtocolError :=
  let? _ := validate_identifier namespace "$.namespace" in
  let? _ := validate_identifier workflow_id "$.workflow_id" in
  validate_run_selector run_id "$.run_id".

Definition validate_reason (reason : string) : result () ProtocolError :=
  if MAX_STRING_BYTES <? str_len reason then
    Err (invalid "$.reason" "reason exceeds the protocol string safety limit")
  else if contains_nul reason then Err (invalid "$.reason" "reason contains a NUL byte")
  else Ok tt.

(** [payload_to_core] used for its check only, reported at one path. *)
Definition validate_payloads (path : string) (payloads : list Payload) : result () ProtocolError :=
  try_each
    (λ payload,
      let? _ := map_err (λ _, invalid path "invalid Temporal payload") (payload_to_core payload) in
      Ok tt)
    payloads.

Definition validate_input_payloads (input : list Payload) : result () ProtocolError :=
  validate_payloads "$.input" input.

Fixpoint validate_metadata_from (path : string) (index : N) (names : gset string)
    (fields : list MetadataField) : result () ProtocolError :=
  match fields with
  | [] => Ok tt
  | field :: fields =>
      let field_path := path +:+ "[" +:+ pretty index +:+ "].key" in
      let? _ := validate_identifier (mf_key field) field_path in
      if bool_decide (mf_key field ∈ names) then Err (invalid field_path "duplicate metadata key")
      else
        let? _ :=
          map_err
            (λ _, invalid (path +:+ "[" +:+ pretty index +:+ "].value") "invalid Temporal payload")
            (payload_to_core (mf_value field)) in
        validate_metadata_from path (index + 1) ({[mf_key field]} ∪ names) fields
  end.

Definition validate_metadata (fields : list MetadataField) (path : string) :
    result () ProtocolError :=
  validate_metadata_from path 0 ∅ fields.

Definition validate_execution (value : ExecutionRef) (path : string) : result () ProtocolError :=
  let? _ := validate_identifier (ex_namespace value) (path +:+ ".namespace") in
  let? _ := validate_identifier (ex_workflow_id value) (path +:+ ".workflow_id") in
  let? _ := validate_identifier (ex_run_id value) (path +:+ ".run_id") in
  Ok tt.

(** ** Requests *)

Definition validate_workflow_timeout (timeout : option N * string * N) :
    result () ProtocolError :=
  let '(timeout, path, maximum) := timeout in
  match timeout with
  | Some milliseconds =>
      if milliseconds =? 0 then Err (invalid path "workflow timeout must be positive")
      else if maximum <? milliseconds then
        Err (invalid path "workflow timeout exceeds its maximum")
      else Ok tt
  | None => Ok tt
  end.

(** [a > b] when both are present. *)
Definition exceeds (a b : option N) : bool :=
  match a, b with Some a, Some b => b <? a | _, _ => false end.

(** [Option::or]. *)
Definition option_or {A} (a b : option A) : option A :=
  match a with Some _ => a | None => b end.

Definition validate_start_policies (value : StartWorkflowRequest) : result () ProtocolError :=
  let? _ :=
    try_each validate_workflow_timeout
      [(sr_execution_timeout_ms value, "$.execution_timeout_ms", MAX_WORKFLOW_TIMEOUT_MS);
       (sr_run_timeout_ms value, "$.run_timeout_ms", MAX_WORKFLOW_TIMEOUT_MS);
       (sr_task_timeout_ms value, "$.task_timeout_ms", MAX_WORKFLOW_TASK_TIMEOUT_MS)] in
  if exceeds (sr_run_timeout_ms value) (sr_execution_timeout_ms value) then
    Err (invalid "$.run_timeout_ms" "run timeout exceeds the execution timeout")
  else if exceeds (sr_task_timeout_ms value)
            (option_or (sr_run_timeout_ms value) (sr_execution_timeout_ms value)) then
    Err (invalid "$.task_timeout_ms" "task timeout exceeds the run timeout")
  else try_some (λ policy, validate_retry_policy policy "$.retry_policy") (sr_retry_policy value).

Definition validate_start_request (value : StartWorkflowRequest) : result () ProtocolError :=
  let? _ := validate_identifier (sr_request_id value) "$.request_id" in
  let? _ := validate_identifier (sr_namespace value) "$.namespace" in
  let? _ := validate_identifier (sr_workflow_id value) "$.workflow_id" in
  let? _ := validate_identifier (sr_workflow_type value) "$.workflow_type" in
  let? _ := validate_identifier (sr_task_queue value) "$.task_queue" in
  let? _ := validate_input_payloads (sr_input value) in
  let? _ := validate_metadata (sr_memo value) "$.memo" in
  let? _ := validate_metadata (sr_search_attributes value) "$.search_attributes" in
  let? _ := validate_start_policies value in
  validate_rpc_timeout (sr_rpc_timeout_ms value).

Definition validate_wait_request (value : WaitWorkflowRequest) : result () ProtocolError :=
  validate_run_target (wr_namespace value) (wr_workflow_id value) (wr_run_id value).

Definition validate_cancel_request (value : CancelWorkflowRequest) : result () ProtocolError :=
  let? _ := validate_rpc_timeout (cr_rpc_timeout_ms value) in
  let? _ := validate_run_target (cr_namespace value) (cr_workflow_id value) (cr_run_id value) in
  let? _ := validate_identifier (cr_request_id value) "$.request_id" in
  validate_reason (cr_reason value).

Definition validate_terminate_request (value : TerminateWorkflowRequest) :
    result () ProtocolError :=
  let? _ := validate_rpc_timeout (tr_rpc_timeout_ms value) in
  let? _ := validate_run_target (tr_namespace value) (tr_workflow_id value) (tr_run_id value) in
  validate_reason (tr_reason value).

Definition validate_reset_request (value : ResetWorkflowRequest) : result () ProtocolError :=
  let? _ := validate_rpc_timeout (rr_rpc_timeout_ms value) in
  let? _ := validate_run_target (rr_namespace value) (rr_workflow_id value) (rr_run_id value) in
  let? _ := validate_identifier (rr_request_id value) "$.request_id" in
  if (rr_workflow_task_finish_event_id value <=? 1)%Z then
    Err (invalid "$.workflow_task_finish_event_id" "event ID must be greater than 1")
  else validate_reason (rr_reason value).

Definition validate_signal_request (value : SignalWorkflowRequest) : result () ProtocolError :=
  let? _ := validate_rpc_timeout (gr_rpc_timeout_ms value) in
  let? _ := validate_run_target (gr_namespace value) (gr_workflow_id value) (gr_run_id value) in
  let? _ := validate_identifier (gr_signal_name value) "$.signal_name" in
  let? _ := validate_identifier (gr_request_id value) "$.request_id" in
  validate_input_payloads (gr_input value).

Definition validate_query_request (value : QueryWorkflowRequest) : result () ProtocolError :=
  let? _ := validate_rpc_timeout (qr_rpc_timeout_ms value) in
  let? _ := validate_run_target (qr_namespace value) (qr_workflow_id value) (qr_run_id value) in
  let? _ := validate_identifier (qr_query_type value) "$.query_type" in
  validate_input_payloads (qr_input value).

Definition validate_update_request (value : UpdateWorkflowRequest) : result () ProtocolError :=
  let? _ := validate_rpc_timeout (ur_rpc_timeout_ms value) in
  let? _ := validate_run_target (ur_namespace value) (ur_workflow_id value) (ur_run_id value) in
  let? _ := validate_identifier (ur_update_id value) "$.update_id" in
  let? _ := validate_identifier (ur_update_name value) "$.update_name" in
  validate_input_payloads (ur_input value).

Definition validate_poll_update_request (value : PollWorkflowUpdateRequest) :
    result () ProtocolError :=
  let? _ := validate_run_target (pr_namespace value) (pr_workflow_id value) (pr_run_id value) in
  let? _ := validate_identifier (pr_update_id value) "$.update_id" in
  Ok tt.

Definition validate_history_request (value : HistoryRequest) : result () ProtocolError :=
  let? _ := validate_rpc_timeout (hr_rpc_timeout_ms value) in
  let? _ := validate_run_target (hr_namespace value) (hr_workflow_id value) (hr_run_id value) in
  match hr_page_size value with
  | Some size =>
      if negb ((1 <=? size) && (size <=? 1000)) then
        Err (invalid "$.page_size" "page_size must be between 1 and 1000")
      else Ok tt
  | None => Ok tt
  end.

(** ** Responses *)

Definition validate_query_response (value : QueryWorkflowResponse) : result () ProtocolError :=
  validate_payloads "$.result" (qw_result value).

Definition validate_update_outcome (value : UpdateOutcome) : result () ProtocolError :=
  match value with
  | Update_OutcomeCompleted payloads => validate_payloads "$.outcome.result" payloads
  | Update_OutcomeFailed failure =>
      map_err (λ _, invalid "$.outcome.failure" "invalid Temporal failure")
        (validate_failure failure "$.outcome.failure")
  end.

Definition validate_update_response (value : UpdateWorkflowResponse) : result () ProtocolError :=
  let? _ := validate_identifier (uw_update_id value) "$.update_id" in
  let? _ := validate_execution (uw_execution value) "$.execution" in
  try_some validate_update_outcome (uw_outcome value).

Definition validate_poll_update_response (value : PollWorkflowUpdateResponse) :
    result () ProtocolError :=
  try_some validate_update_outcome (pw_outcome value).

Definition validate_successor_shape (value : SuccessorRef) : result () ProtocolError :=
  let? _ := validate_identifier (su_namespace value) "$.outcome.successor.namespace" in
  let? _ := validate_identifier (su_workflow_id value) "$.outcome.successor.workflow_id" in
  validate_identifier (su_run_id value) "$.outcome.successor.run_id".

Definition validate_outcome (value : WorkflowOutcome) : result () ProtocolError :=
  match value with
  | Outcome_Completed payloads successor =>
      let? _ := validate_payloads "$.outcome.result" payloads in
      try_some validate_successor_shape successor
  | Outcome_Failed failure successor =>
      let? _ := validate_failure failure "$.outcome.failure" in
      try_some validate_successor_shape successor
  | Outcome_Cancelled details | Outcome_Terminated details =>
      validate_payloads "$.outcome.details" details
  | Outcome_TimedOut successor => try_some validate_successor_shape successor
  | Outcome_ContinuedAsNew successor => validate_successor_shape successor
  end.

Definition validate_successor_for_execution (successor : SuccessorRef) (execution : ExecutionRef) :
    result () ProtocolError :=
  let? _ := validate_successor_shape successor in
  if negb (bool_decide (su_namespace successor = ex_namespace execution)) then
    Err (invalid "$.outcome.successor.namespace"
           "successor namespace does not match the waited execution")
  else if negb (bool_decide (su_workflow_id successor = ex_workflow_id execution)) then
    Err (invalid "$.outcome.successor.workflow_id"
           "successor workflow ID does not match the waited execution")
  else if bool_decide (su_run_id successor = ex_run_id execution) then
    Err (invalid "$.outcome.successor.run_id" "successor run ID must differ from the waited run")
  else Ok tt.

(** The successor an outcome carries. *)
Definition outcome_successor (value : WorkflowOutcome) : option SuccessorRef :=
  match value with
  | Outcome_Completed _ successor | Outcome_Failed _ successor | Outcome_TimedOut successor =>
      successor
  | Outcome_ContinuedAsNew successor => Some successor
  | Outcome_Cancelled _ | Outcome_Terminated _ => None
  end.

Definition validate_wait_response (value : WaitWorkflowResponse) : result () ProtocolError :=
  let execution := ww_execution value in
  let? _ := validate_identifier (ex_namespace execution) "$.execution.namespace" in
  let? _ := validate_identifier (ex_workflow_id execution) "$.execution.workflow_id" in
  let? _ := validate_run_selector (ex_run_id execution) "$.execution.run_id" in
  let? _ := validate_outcome (ww_outcome value) in
  try_some (λ successor, validate_successor_for_execution successor execution)
    (outcome_successor (ww_outcome value)).

(** ** Visibility *)

Definition MAX_KNOWN_VISIBILITY_STATUS : Z := 8.
Definition UNKNOWN_STATUS_PREFIX : string := "unknown_".

Definition visibility_status (status : Z) : result string ClientOperationError :=
  match status with
  | 0 => Err (Error_Core (invalid_core "visibility row has an unspecified execution status"))
  | 1 => Ok "running"
  | 2 => Ok "completed"
  | 3 => Ok "failed"
  | 4 => Ok "canceled"
  | 5 => Ok "terminated"
  | 6 => Ok "continued_as_new"
  | 7 => Ok "timed_out"
  | 8 => Ok "paused"
  | _ => Ok (UNKNOWN_STATUS_PREFIX +:+ pretty status)
  end%Z.

(** [str::parse::<i32>]: an optional sign, at least one digit, and a value of 32 bits. *)
Definition parse_i32 (s : string) : option Z :=
  let unsigned (limit : N) (digits : string) : option N :=
    if str_is_empty digits then None
    else match parse_digits 0 digits with
         | Some value => if value <=? limit then Some value else None
         | None => None
         end in
  match s with
  | String b digits =>
      if Ascii.eqb b "-" then (λ value, (- Z.of_N value)%Z) <$> unsigned (2 ^ 31) digits
      else if Ascii.eqb b "+" then Z.of_N <$> unsigned (2 ^ 31 - 1) digits
      else Z.of_N <$> unsigned (2 ^ 31 - 1) s
  | EmptyString => None
  end.

(** [str::strip_prefix]. *)
Fixpoint strip_prefix (prefix s : string) : option string :=
  match prefix, s with
  | EmptyString, _ => Some s
  | String a prefix, String b s => if Ascii.eqb a b then strip_prefix prefix s else None
  | String _ _, EmptyString => None
  end.

Definition KNOWN_STATUS_NAMES : list string :=
  ["running"; "completed"; "failed"; "canceled"; "terminated"; "continued_as_new"; "timed_out";
   "paused"; "unspecified"].

Definition is_visibility_status_name (status : string) : bool :=
  bool_decide (status ∈ KNOWN_STATUS_NAMES) ||
  match strip_prefix UNKNOWN_STATUS_PREFIX status with
  | Some digits =>
      match parse_i32 digits with
      | Some value =>
          negb ((0 <=? value)%Z && (value <=? MAX_KNOWN_VISIBILITY_STATUS)%Z) &&
          bool_decide (pretty value = digits)
      | None => false
      end
  | None => false
  end.

Section Visibility.
Context `{Base64}.

Definition validate_page_token (token : string) : result () ProtocolError :=
  match base64_decode token with
  | None => Err (invalid "$.next_page_token" "invalid base64 page token")
  | Some _ => Ok tt
  end.

Definition validate_visibility_request (value : VisibilityRequest) : result () ProtocolError :=
  let? _ := validate_rpc_timeout (vr_rpc_timeout_ms value) in
  let? _ := validate_identifier (vr_namespace value) "$.namespace" in
  if (MAX_STRING_BYTES <? str_len (vr_query value)) || contains_nul (vr_query value) then
    Err (invalid "$.query" "query exceeds the protocol string safety limit or contains NUL")
  else if negb ((1 <=? vr_page_size value) && (vr_page_size value <=? 1000)) then
    Err (invalid "$.page_size" "page_size must be between 1 and 1000")
  else
    try_some
      (λ token,
        if (MAX_STRING_BYTES <? str_len token) || contains_nul token then
          Err (invalid "$.next_page_token"
                 "page token exceeds the protocol string safety limit or contains NUL")
        else validate_page_token token)
      (vr_next_page_token value).

Definition validate_visibility_row (index : N) (execution : VisibilityExecution) :
    result () ProtocolError :=
  let path := "$.executions[" +:+ pretty index +:+ "]" in
  let? _ := validate_identifier (ve_workflow_id execution) (path +:+ ".workflow_id") in
  let? _ := validate_identifier (ve_run_id execution) (path +:+ ".run_id") in
  let? _ := validate_identifier (ve_workflow_type execution) (path +:+ ".workflow_type") in
  let? _ := validate_identifier (ve_task_queue execution) (path +:+ ".task_queue") in
  if negb (is_visibility_status_name (ve_status execution)) then
    Err (invalid (path +:+ ".status") "unknown visibility status")
  else Ok tt.

Definition validate_visibility_page (value : VisibilityPage) : result () ProtocolError :=
  let? _ := try_each_at validate_visibility_row 0 (vp_executions value) in
  try_some validate_page_token (vp_next_page_token value).

End Visibility.

(** ** What the checks accept *)

(** A name: not empty, bounded and without NUL. *)
Definition is_name (s : string) : Prop := s ≠ "" ∧ text_fits s ∧ contains_nul s = false.

Lemma validate_identifier_Ok s path : validate_identifier s path = Ok tt ↔ is_name s.
Proof.
  unfold validate_identifier, is_name, text_fits.
  rewrite !guard_Ok, orb_false_iff, N.ltb_ge, str_not_empty. naive_solver.
Qed.

Lemma validate_payloads_Ok path l : validate_payloads path l = Ok tt ↔ Forall payload_fits l.
Proof.
  unfold validate_payloads. rewrite try_each_Ok. apply Forall_iff. intros p.
  rewrite bind_Ok. setoid_rewrite map_err_Ok. setoid_rewrite payload_to_core_Ok. naive_solver.
Qed.

Lemma validate_execution_Ok e path :
  validate_execution e path = Ok tt ↔
  is_name (ex_namespace e) ∧ is_name (ex_workflow_id e) ∧ is_name (ex_run_id e).
Proof. unfold validate_execution. rewrite !seq_Ok, !validate_identifier_Ok. naive_solver. Qed.

Lemma validate_rpc_timeout_Ok o :
  validate_rpc_timeout o = Ok tt ↔ ∀ ms, o = Some ms → 1 ≤ ms ≤ MAX_RPC_TIMEOUT_MS.
Proof.
  destruct o as [ms|]; simpl; [|naive_solver].
  rewrite guard_Ok, negb_false_iff, andb_true_iff, !N.leb_le. naive_solver.
Qed.

Lemma validate_run_selector_Ok s path :
  validate_run_selector s path = Ok tt ↔ s = "" ∨ is_name s.
Proof.
  unfold validate_run_selector. destruct (str_is_empty s) eqn:Hs.
  - apply str_is_empty_spec in Hs. naive_solver.
  - apply str_not_empty in Hs. rewrite validate_identifier_Ok. naive_solver.
Qed.

(** Fields under distinct names, each with a payload within the limits. *)
Definition metadata_ok (fields : list MetadataField) : Prop :=
  NoDup (map mf_key fields) ∧ Forall (λ f, is_name (mf_key f) ∧ payload_fits (mf_value f)) fields.

Lemma validate_metadata_from_Ok path i names fields :
  validate_metadata_from path i names fields = Ok tt ↔
  metadata_ok fields ∧ Forall (λ f, mf_key f ∉ names) fields.
Proof.
  unfold metadata_ok. revert i names.
  induction fields as [|f fields IH]; intros i names; cbn [validate_metadata_from map].
  { split; [by repeat constructor|done]. }
  rewrite seq_Ok, validate_identifier_Ok, guard_Ok, bool_decide_eq_false, bind_Ok.
  setoid_rewrite map_err_Ok. setoid_rewrite payload_to_core_Ok. setoid_rewrite IH.
  rewrite NoDup_cons, !Forall_cons.
  assert (Forall (λ f', mf_key f' ∉ {[mf_key f]} ∪ names) fields ↔
    mf_key f ∉ map mf_key fields ∧ Forall (λ f', mf_key f' ∉ names) fields) as Hnames.
  { rewrite !Forall_forall, list_elem_of_fmap. set_solver. }
  setoid_rewrite Hnames. naive_solver.
Qed.

Lemma validate_metadata_Ok fields path : validate_metadata fields path = Ok tt ↔ metadata_ok fields.
Proof.
  unfold validate_metadata. rewrite validate_metadata_from_Ok.
  split; [by intros []|]. intros H. split; [done|]. apply Forall_forall. set_solver.
Qed.

Definition timeout_ok (maximum : N) (timeout : option N) : Prop :=
  ∀ ms, timeout = Some ms → 0 < ms ≤ maximum.

(** [a] does not outlast [b] when both are set. *)
Definition within (a b : option N) : Prop := ∀ x y, a = Some x → b = Some y → x ≤ y.

Lemma validate_workflow_timeout_Ok timeout path maximum :
  validate_workflow_timeout (timeout, path, maximum) = Ok tt ↔ timeout_ok maximum timeout.
Proof.
  unfold validate_workflow_timeout, timeout_ok. destruct timeout as [ms|]; [|naive_solver].
  rewrite !guard_Ok, N.eqb_neq, N.ltb_ge. split; [intros ? ? [= <-]; lia|].
  intros H. specialize (H ms eq_refl). split_and!; [lia..|done].
Qed.

Lemma exceeds_within a b : exceeds a b = false ↔ within a b.
Proof.
  unfold exceeds, within. destruct a, b; try naive_solver. rewrite N.ltb_ge. naive_solver.
Qed.

Record start_policies_ok (value : StartWorkflowRequest) : Prop := {
  execution_timeout_ok : timeout_ok MAX_WORKFLOW_TIMEOUT_MS (sr_execution_timeout_ms value);
  run_timeout_ok : timeout_ok MAX_WORKFLOW_TIMEOUT_MS (sr_run_timeout_ms value);
  task_timeout_ok : timeout_ok MAX_WORKFLOW_TASK_TIMEOUT_MS (sr_task_timeout_ms value);
  run_within_execution : within (sr_run_timeout_ms value) (sr_execution_timeout_ms value);
  task_within_run : within (sr_task_timeout_ms value) (sr_run_timeout_ms value);
  task_within_execution : within (sr_task_timeout_ms value) (sr_execution_timeout_ms value);
  start_retry_ok : ∀ policy, sr_retry_policy value = Some policy → retry_policy_ok policy
}.

Lemma validate_start_policies_Ok value :
  validate_start_policies value = Ok tt ↔ start_policies_ok value.
Proof.
  unfold validate_start_policies. rewrite seq_Ok, try_each_Ok, !Forall_cons, !guard_Ok, try_some_Ok.
  rewrite !validate_workflow_timeout_Ok, !exceeds_within. setoid_rewrite validate_retry_policy_Ok.
  split.
  - intros ((? & ? & ? & _) & Hrun & Htask & ?). constructor; try done;
      unfold within, option_or in *; destruct (sr_run_timeout_ms value); try naive_solver.
    intros x y Hx Hy. etrans; [by apply Htask|by eapply Hrun].
  - intros []. split_and!; try done. unfold option_or. by destruct (sr_run_timeout_ms value).
Qed.

Record start_request_ok (value : StartWorkflowRequest) : Prop := {
  start_names_ok :
    Forall is_name [sr_request_id value; sr_namespace value; sr_workflow_id value;
      sr_workflow_type value; sr_task_queue value];
  start_input_ok : Forall payload_fits (sr_input value);
  start_memo_ok : metadata_ok (sr_memo value);
  start_attributes_ok : metadata_ok (sr_search_attributes value);
  start_policies : start_policies_ok value;
  start_budget_ok : ∀ ms, sr_rpc_timeout_ms value = Some ms → 1 ≤ ms ≤ MAX_RPC_TIMEOUT_MS
}.

Lemma validate_start_request_Ok value :
  validate_start_request value = Ok tt ↔ start_request_ok value.
Proof.
  unfold validate_start_request, validate_input_payloads.
  rewrite !seq_Ok, !validate_identifier_Ok, validate_payloads_Ok, !validate_metadata_Ok.
  rewrite validate_start_policies_Ok, validate_rpc_timeout_Ok.
  split; [intros; destruct_and!; constructor; first [done|by rewrite !Forall_cons]|].
  intros [Hnames]. rewrite !Forall_cons in Hnames. naive_solver.
Qed.

(** A start request is accepted exactly when its names are not empty, bounded
    and free of NUL, its payloads fit, its memo and its search attributes have
    distinct names, each timeout is positive and at most its maximum, no timeout
    outlasts a wider one (the task timeout neither the run nor the execution
    timeout), its retry policy is well formed and its budget is between one
    millisecond and one minute. *)
Theorem validate_start_request_accepts value :
  validate_start_request value = Ok tt ↔ start_request_ok value.
Proof. apply validate_start_request_Ok. Qed.

(** The responses to a wait that leave the bridge. *)
Lemma validate_wait_response_Ok value :
  validate_wait_response value = Ok tt →
  ∀ s, outcome_successor (ww_outcome value) = Some s →
  su_namespace s = ex_namespace (ww_execution value) ∧
  su_workflow_id s = ex_workflow_id (ww_execution value) ∧
  is_name (su_run_id s) ∧ su_run_id s ≠ ex_run_id (ww_execution value).
Proof.
  unfold validate_wait_response. cbv zeta. rewrite !seq_Ok, try_some_Ok.
  intros (_ & _ & _ & _ & H) s Hs. specialize (H s Hs).
  unfold validate_successor_for_execution, validate_successor_shape in H.
  rewrite !seq_Ok, !guard_Ok, !negb_false_iff, !bool_decide_eq_true, bool_decide_eq_false,
    !validate_identifier_Ok in H. naive_solver.
Qed.

(** ** Names of visibility statuses *)

Definition is_i32 (z : Z) : Prop := (- 2 ^ 31 ≤ z < 2 ^ 31)%Z.

Lemma strip_prefix_app p s : strip_prefix p (p +:+ s) = Some s.
Proof.
  induction p as [|a p IH]; [by destruct s|]. autorewrite with text. cbn [strip_prefix].
  by rewrite Ascii.eqb_refl.
Qed.

Lemma strip_prefix_Some p s r : strip_prefix p s = Some r → s = p +:+ r.
Proof.
  revert s. induction p as [|a p IH]; intros s; [by destruct s; intros [= <-]|].
  destruct s as [|b s]; [done|]. cbn [strip_prefix]. destruct (Ascii.eqb_spec a b) as [<-|]; [|done].
  intros ->%IH. by autorewrite with text.
Qed.

Lemma parse_digits_pretty n : n < u64_modulus → parse_digits 0 (pretty n) = Some n.
Proof.
  intros Hn. unfold pretty, pretty_N. case_decide; [by subst|]. by rewrite parse_pretty_go.
Qed.

(** The first byte of a decimal is no sign. *)
Lemma pretty_unsigned (n : N) b r :
  pretty n = String b r → Ascii.eqb b "-" = false ∧ Ascii.eqb b "+" = false.
Proof.
  unfold pretty, pretty_N. case_decide as Hn; [by intros [= <- <-]|].
  destruct (pretty_go_head n "" Hn) as (d & r' & -> & Hd & Hd0). intros [= <- _].
  assert (d = 1 ∨ d = 2 ∨ d = 3 ∨ d = 4 ∨ d = 5 ∨ d = 6 ∨ d = 7 ∨ d = 8 ∨ d = 9) as Hcases by lia.
  by destruct_or? Hcases; subst d.
Qed.

Lemma parse_i32_pretty z : is_i32 z → parse_i32 (pretty z) = Some z.
Proof.
  unfold is_i32. intros Hz. destruct z as [|p|p]; [done| |].
  - change (pretty (Zpos p)) with (pretty (Npos p)).
    assert (Npos p ≤ 2 ^ 31 - 1) as Hp by lia.
    destruct (pretty (Npos p)) as [|b r] eqn:Heq.
    { pose proof (pretty_not_empty (Npos p)) as He. by rewrite Heq in He. }
    destruct (pretty_unsigned _ _ _ Heq) as [Hm Hplus]. unfold parse_i32. rewrite Hm, Hplus, <-Heq.
    rewrite pretty_not_empty, parse_digits_pretty by (unfold u64_modulus; lia).
    by rewrite (proj2 (N.leb_le _ _) Hp).
  - change (pretty (Zneg p)) with (String "-" (pretty (Npos p))).
    assert (Npos p ≤ 2 ^ 31) as Hp by lia. unfold parse_i32. rewrite Ascii.eqb_refl.
    rewrite pretty_not_empty, parse_digits_pretty by (unfold u64_modulus; lia).
    by rewrite (proj2 (N.leb_le _ _) Hp).
Qed.

Lemma parse_i32_range s z : parse_i32 s = Some z → is_i32 z.
Proof.
  unfold is_i32. destruct s as [|b digits]; [done|]. unfold parse_i32.
  intros H. repeat case_match; simplify_option_eq; rewrite N.leb_le in *; lia.
Qed.

Lemma visibility_status_unknown status :
  ¬ (0 ≤ status ≤ 8)%Z → visibility_status status = Ok (UNKNOWN_STATUS_PREFIX +:+ pretty status).
Proof.
  intros H. destruct status as [|p|p]; [lia| |done].
  do 4 (destruct p as [p|p|]; try done; try lia).
Qed.

Lemma visibility_status_inv status name :
  visibility_status status = Ok name →
  ((1 ≤ status ≤ 8)%Z ∧ name ∈ KNOWN_STATUS_NAMES ∧ name ≠ "unspecified" ∧
    strip_prefix UNKNOWN_STATUS_PREFIX name = None) ∨
  (¬ (0 ≤ status ≤ 8)%Z ∧ name = UNKNOWN_STATUS_PREFIX +:+ pretty status).
Proof.
  intros H. destruct (decide (0 ≤ status ≤ 8)%Z) as [Hs|Hs].
  - left. assert (status = 0 ∨ status = 1 ∨ status = 2 ∨ status = 3 ∨ status = 4 ∨ status = 5 ∨
      status = 6 ∨ status = 7 ∨ status = 8)%Z as Hcases by lia.
    destruct_or? Hcases; subst status; simpl in H; try done; injection H as <-;
      (split; [lia|split; [unfold KNOWN_STATUS_NAMES; set_solver|done]]).
  - right. split; [done|]. rewrite visibility_status_unknown in H by done. by injection H as <-.
Qed.

(** Distinct statuses have distinct names. *)
Lemma visibility_status_inj s t name :
  visibility_status s = Ok name → visibility_status t = Ok name → s = t.
Proof.
  intros Hs Ht. destruct (visibility_status_inv s name Hs) as [(Hr & _ & _ & Hn)|[_ ->]].
  - destruct (visibility_status_inv t name Ht) as [(Hr' & _ & _ & _)|[_ ->]].
    + assert (∀ z, (1 ≤ z ≤ 8)%Z →
        z = 1 ∨ z = 2 ∨ z = 3 ∨ z = 4 ∨ z = 5 ∨ z = 6 ∨ z = 7 ∨ z = 8)%Z as Hz by lia.
      apply Hz in Hr, Hr'. destruct_or? Hr; subst s; simpl in Hs; injection Hs as <-;
        destruct_or? Hr'; subst t; by simpl in Ht.
    + by rewrite strip_prefix_app in Hn.
  - destruct (visibility_status_inv t _ Ht) as [(_ & _ & _ & Hn)|[_ Heq]].
    + by rewrite strip_prefix_app in Hn.
    + apply (f_equal (strip_prefix UNKNOWN_STATUS_PREFIX)) in Heq.
      rewrite !strip_prefix_app in Heq. injection Heq as Heq. by apply (inj pretty) in Heq.
Qed.

Lemma is_visibility_status_name_spec name :
  is_visibility_status_name name = true ↔
  name = "unspecified" ∨ ∃ status, is_i32 status ∧ visibility_status status = Ok name.
Proof.
  unfold is_visibility_status_name. rewrite orb_true_iff, bool_decide_eq_true. split.
  - intros [Hknown|Hunknown].
    + assert (∀ z : Z, (1 ≤ z ≤ 8)%Z → is_i32 z) as Hz by (unfold is_i32; lia).
      unfold KNOWN_STATUS_NAMES in Hknown. rewrite !elem_of_cons, elem_of_nil in Hknown.
      destruct Hknown as [->|[->|[->|[->|[->|[->|[->|[->|[->|[]]]]]]]]]]; [right..|by left];
        [exists 1%Z|exists 2%Z|exists 3%Z|exists 4%Z|exists 5%Z|exists 6%Z|exists 7%Z|exists 8%Z];
        (split; [by apply Hz|done]).
    + right. destruct (strip_prefix _ name) as [digits|] eqn:Hstrip; [|done].
      destruct (parse_i32 digits) as [z|] eqn:Hparse; [|done].
      rewrite andb_true_iff, negb_true_iff, andb_false_iff, bool_decide_eq_true, !Z.leb_gt in Hunknown.
      destruct Hunknown as [Hz <-]. exists z. split; [by eapply parse_i32_range|].
      apply strip_prefix_Some in Hstrip as ->.
      apply visibility_status_unknown. unfold MAX_KNOWN_VISIBILITY_STATUS in Hz. lia.
  - intros [->|(z & Hz & [(_ & ? & _)|[Hr ->]]%visibility_status_inv)];
      [left; unfold KNOWN_STATUS_NAMES; set_solver|by left|right].
    rewrite strip_prefix_app, parse_i32_pretty by done.
    rewrite andb_true_iff, negb_true_iff, andb_false_iff, bool_decide_eq_true, !Z.leb_gt.
    unfold MAX_KNOWN_VISIBILITY_STATUS. split; [lia|done].
Qed.

(** The recognizer of status names and the function that names statuses agree
    on 32-bit statuses: every name given is recognized, each recognized name but
    the legacy one is the name of a status, and no two statuses share a name. *)
Theorem visibility_names_agree name :
  (is_visibility_status_name name = true ↔
   name = "unspecified" ∨ ∃ status, is_i32 status ∧ visibility_status status = Ok name) ∧
  ∀ s t, visibility_status s = Ok name → visibility_status t = Ok name → s = t.
Proof.
  split; [apply is_visibility_status_name_spec|]. intros s t. apply visibility_status_inj.
Qed.
