(* ===== verification/ClientStatus.v ===== *)
(** * RPC statuses

    How client_protocol.rs turns the status of a failed call into a client error,
    what it decides from such an error, and the message of a failed query.  The
    gRPC status is that of the tonic crate; the messages in its details are
    decoded by other crates (class [StatusDetails]). *)

From Stdlib Require Import Ascii.
From S2P Require Import Prelude.
From S2P Require Import Text.
From S2P Require Import Protocol.
From S2P Require Import WorkflowChecks.
From S2P Require Import CoreConversion.
From S2P Require Import ClientTypes.
From S2P Require Import ClientChecks.
Local Open Scope N_scope.
Local Open Scope bridge_scope.

(** ** tonic *)

Inductive Code :=
| Code_Ok
| Code_Cancelled
| Code_Unknown
| Code_InvalidArgument
| Code_DeadlineExceeded
| Code_NotFound
| Code_AlreadyExists
| Code_PermissionDenied
| Code_ResourceExhausted
| Code_FailedPrecondition
| Code_Aborted
| Code_OutOfRange
| Code_Unimplemented
| Code_Internal
| Code_Unavailable
| Code_DataLoss
| Code_Unauthenticated.

#[global] Instance Code_eq_dec : EqDecision Code.
Proof. solve_decision. Defined.

Record Status := mkStatus {
  st_code : Code;
  st_message : string;
  st_details : list byte
}.

(** A detail of [google.rpc.Status]. *)
Record Any := mkAny { any_type_url : string; any_value : list byte }.

(** The decoders of status details. *)
Class StatusDetails := {
  (** [decode_status_detail] of an already-started failure: its run ID. *)
  already_started_detail : list byte → option string;
  (** [google::rpc::Status::decode]: the details. *)
  rpc_status_decode : list byte → option (list Any);
  (** [QueryFailedFailure::decode]: the message of its failure, if it has one. *)
  query_failed_decode : list byte → option (option string)
}.

(** ** Codes *)

Definition rpc_code (code : Code) : string :=
  match code with
  | Code_Ok => "ok"
  | Code_Cancelled => "cancelled"
  | Code_Unknown => "unknown"
  | Code_InvalidArgument => "invalid_argument"
  | Code_DeadlineExceeded => "deadline_exceeded"
  | Code_NotFound => "not_found"
  | Code_AlreadyExists => "already_exists"
  | Code_PermissionDenied => "permission_denied"
  | Code_ResourceExhausted => "resource_exhausted"
  | Code_FailedPrecondition => "failed_precondition"
  | Code_Aborted => "aborted"
  | Code_OutOfRange => "out_of_range"
  | Code_Unimplemented => "unimplemented"
  | Code_Internal => "internal"
  | Code_Unavailable => "unavailable"
  | Code_DataLoss => "data_loss"
  | Code_Unauthenticated => "unauthenticated"
  end.

Definition map_rpc_status (status : Status) : ClientOperationError :=
  Error_Rpc (rpc_code (st_code status)).

Definition deadline_exceeded : ClientOperationError := Error_Rpc "deadline_exceeded".

(** Once [elapsed] has reached [budget], the statuses of an expired deadline. *)
Definition budget_status (elapsed budget : N) (map : Status → ClientOperationError)
    (status : Status) : ClientOperationError :=
  if match st_code status with Code_Cancelled | Code_DeadlineExceeded => true | _ => false end &&
     (budget <=? elapsed)
  then deadline_exceeded
  else map status.

Definition terminate_retry_forbidden (status : Status) : bool :=
  negb (bool_decide (st_code status = Code_ResourceExhausted)).

Definition terminate_status_error (status : Status) : ClientOperationError :=
  match st_code status with
  | Code_Unavailable | Code_DeadlineExceeded | Code_Cancelled =>
      Error_Rpc "termination_outcome_uncertain"
  | _ => map_rpc_status status
  end.

(** ** Start *)

Definition reflected_run_id (run_id : string) : bool :=
  negb (str_is_empty run_id) && (str_len run_id <=? MAX_STRING_BYTES) && negb (contains_nul run_id).

(** [Option::filter]. *)
Definition option_filter {A} (p : A → bool) (o : option A) : option A :=
  match o with Some a => if p a then Some a else None | None => None end.

Section Details.
Context `{StatusDetails}.

Definition map_start_status (workflow_id : string) (status : Status) : ClientOperationError :=
  if bool_decide (st_code status = Code_AlreadyExists) then
    Error_AlreadyStarted workflow_id
      (option_filter reflected_run_id (already_started_detail (st_details status)))
  else map_rpc_status status.

Definition uncertain_start (error : ClientOperationError) : bool :=
  match error with
  | Error_AlreadyStarted _ _ | Error_QueryFailed _ => false
  | Error_Core _ => true
  | Error_Rpc code =>
      bool_decide (code ∈ ["cancelled"; "unknown"; "deadline_exceeded"; "resource_exhausted";
        "aborted"; "internal"; "unavailable"; "data_loss"])
  end.

(** ** Query *)

Definition QUERY_FAILED_TYPE_URL : string :=
  "type.googleapis.com/temporal.api.errordetails.v1.QueryFailedFailure".

Definition query_failed_detail (details : list byte) : option (option string) :=
  match rpc_status_decode details with
  | Some (detail :: _) =>
      if negb (bool_decide (any_type_url detail = QUERY_FAILED_TYPE_URL)) then None
      else query_failed_decode (any_value detail)
  | _ => None
  end.

Definition MAX_QUERY_FAILURE_MESSAGE_BYTES : N := 4096.

(** The loop over [message.chars()]. *)
Fixpoint bounded_loop (bounded : string) (characters : list string) : string :=
  match characters with
  | [] => bounded
  | character :: characters =>
      let character := if bool_decide (character = String NUL "") then REPLACEMENT else character in
      if MAX_QUERY_FAILURE_MESSAGE_BYTES <? str_len bounded + str_len character then bounded
      else bounded_loop (bounded +:+ character) characters
  end.

Definition bounded_query_failure_message (message : string) : string :=
  bounded_loop "" (chars message).

Definition map_query_status (status : Status) : ClientOperationError :=
  if bool_decide (st_code status = Code_InvalidArgument) then
    match query_failed_detail (st_details status) with
    | Some detail =>
        let message :=
          match detail with
          | Some message => if str_is_empty message then st_message status else message
          | None => st_message status
          end in
        Error_QueryFailed (bounded_query_failure_message message)
    | None => map_rpc_status status
    end
  else map_rpc_status status.

End Details.

(** ** Theorems *)

(** The names of the codes tell them apart. *)
Lemma rpc_code_inj c d : rpc_code c = rpc_code d → c = d.
Proof. by destruct c, d. Qed.

Lemma rpc_code_name c : is_name (rpc_code c).
Proof. destruct c; by vm_compute. Qed.

Lemma reflected_run_id_name s : reflected_run_id s = true ↔ is_name s.
Proof.
  unfold reflected_run_id, is_name, text_fits.
  rewrite !andb_true_iff, !negb_true_iff, N.leb_le, str_not_empty. naive_solver.
Qed.

(** The character that replaces one. *)
Lemma replaced_char c :
  utf8_char c → (if bool_decide (c = String NUL "") then REPLACEMENT else c) = replace_nul c.
Proof.
  assert (∀ lo hi x, between lo hi x = true → 0x80 ≤ lo → Ascii.eqb x NUL = false) as Hhigh.
  { intros lo hi x Hx Hlo. apply Ascii.eqb_neq. intros ->. unfold between in Hx.
    rewrite andb_true_iff, !N.leb_le in Hx. change (N_of_ascii NUL) with 0 in Hx. lia. }
  intros Hc. destruct Hc as [a Ha|a b Ha Hb|a b c Ha Hb Hc|a b c d Ha Hb Hc Hd]; cbn [replace_nul].
  - case_bool_decide as Heq; [by injection Heq as ->|].
    destruct (Ascii.eqb_spec a NUL) as [->|]; done.
  - unfold continuation in Hb. rewrite bool_decide_false by done.
    by rewrite (Hhigh _ _ a Ha), (Hhigh _ _ b Hb) by done.
  - apply second_of_three_continuation in Hb. unfold continuation in Hb, Hc.
    rewrite bool_decide_false by done.
    by rewrite (Hhigh _ _ a Ha), (Hhigh _ _ b Hb), (Hhigh _ _ c Hc) by done.
  - apply second_of_four_continuation in Hb. unfold continuation in Hb, Hc, Hd.
    rewrite bool_decide_false by done.
    by rewrite (Hhigh _ _ a Ha), (Hhigh _ _ b Hb), (Hhigh _ _ c Hc), (Hhigh _ _ d Hd) by done.
Qed.

(** The loop keeps the longest run of whole characters that fits. *)
Lemma bounded_loop_spec s bounded :
  utf8_text s → str_len bounded ≤ MAX_QUERY_FAILURE_MESSAGE_BYTES →
  ∃ kept dropped, s = kept +:+ dropped ∧ utf8_text kept ∧
    bounded_loop bounded (chars s) = bounded +:+ replace_nul kept ∧
    str_len (bounded +:+ replace_nul kept) ≤ MAX_QUERY_FAILURE_MESSAGE_BYTES ∧
    (dropped = "" ∨
     ∃ c rest, utf8_char c ∧ dropped = c +:+ rest ∧
       MAX_QUERY_FAILURE_MESSAGE_BYTES < str_len (bounded +:+ replace_nul (kept +:+ c))).
Proof.
  intros Hs. revert bounded. induction Hs as [|c s Hc Hs IH]; intros bounded Hb.
  { exists "", "". change (replace_nul "") with "". rewrite !string_app_nil.
    split; [done|]. split; [apply text_nil|]. split; [done|]. split; [done|by left]. }
  rewrite chars_cons by done. cbn [bounded_loop]. cbv zeta. rewrite replaced_char by done.
  destruct (N.ltb_spec MAX_QUERY_FAILURE_MESSAGE_BYTES (str_len bounded + str_len (replace_nul c)))
    as [Hfit|Hfit].
  - exists "", (c +:+ s). split_and!;
      [done|constructor|by rewrite string_app_nil|by rewrite string_app_nil|].
    right. exists c, s. by rewrite string_nil_app, str_len_app.
  - destruct (IH (bounded +:+ replace_nul c)) as (kept & dropped & -> & Hk & Heqb & Hle & Hmax);
      [by rewrite str_len_app|].
    exists (c +:+ kept), dropped. rewrite replace_nul_app, !string_app_assoc in *.
    split_and!; [done|by constructor|done|done|].
    destruct Hmax as [?|(c' & r & Hc' & -> & Hlt)]; [by left|right].
    exists c', r. split; [done|]. split; [done|].
    by rewrite !replace_nul_app, !string_app_assoc in *.
Qed.

(** The message of a failed query is valid UTF-8 of at most 4096 bytes without
    NUL, made of whole characters: it is the start of the message with every NUL
    replaced, and the next character, if there is one, would not have fit. *)
Theorem query_message_bounded message :
  utf8_valid message = true →
  let bounded := bounded_query_failure_message message in
  str_len bounded ≤ MAX_QUERY_FAILURE_MESSAGE_BYTES ∧ contains_nul bounded = false ∧
  utf8_valid bounded = true ∧
  ∃ kept dropped, message = kept +:+ dropped ∧ bounded = replace_nul kept ∧
    (dropped = "" ∨
     ∃ c rest, utf8_char c ∧ dropped = c +:+ rest ∧
       MAX_QUERY_FAILURE_MESSAGE_BYTES < str_len (replace_nul (kept +:+ c))).
Proof.
  intros Hm%utf8_valid_text bounded.
  destruct (bounded_loop_spec message "" Hm)
    as (kept & dropped & Hsplit & Hk & Heq & Hle & Hmax); [by vm_compute|].
  change (bounded = "" +:+ replace_nul kept) in Heq. rewrite string_nil_app in *. rewrite Heq.
  split_and!; [done|apply replace_nul_clean| |by exists kept, dropped].
  by apply utf8_valid_text, replace_nul_utf8.
Qed.

Lemma query_message_bounded_witness :
  bounded_query_failure_message (String "a" (String NUL "b")) = "a" +:+ REPLACEMENT +:+ "b" ∧
  utf8_valid (bounded_query_failure_message (String "a" (String NUL "b"))) = true.
Proof.
  split; [by vm_compute|].
  apply (query_message_bounded (String "a" (String NUL "b"))). by vm_compute.
Defined.

(** The error of a failed termination tells whether the run may have been
    terminated: a status that can follow an applied termination, and no other, is
    reported as an uncertain outcome, and the only status after which the request
    is sent again is that of a refused admission, which is reported as such. *)
Theorem terminate_errors_classified status :
  (terminate_status_error status = Error_Rpc "termination_outcome_uncertain" ↔
   st_code status ∈ [Code_Unavailable; Code_DeadlineExceeded; Code_Cancelled]) ∧
  (terminate_retry_forbidden status = false ↔
   terminate_status_error status = Error_Rpc "resource_exhausted") ∧
  (st_code status ∉ [Code_Unavailable; Code_DeadlineExceeded; Code_Cancelled] →
   terminate_status_error status = map_rpc_status status).
Proof.
  unfold terminate_status_error, terminate_retry_forbidden, map_rpc_status.
  rewrite negb_false_iff, bool_decide_eq_true.
  destruct (st_code status); cbn [rpc_code];
    (split; [split|split; [split|]]); intros; first [done|set_solver].
Qed.
