(* ===== verification/ClientMessages.v ===== *)
(** * Messages of the workflow service

    The requests and responses of Temporal's workflow service that
    client_protocol.rs builds and reads, generated in another crate: each record
    holds the fields that the bridge sets or reads.  [CallRequest] is a tonic
    request with what the bridge attaches to it, and [Reply] what awaiting it
    under a timeout gives. *)

From S2P Require Import Prelude.
From S2P Require Import CoreMessages.
From S2P Require Import ClientStatus.
Local Open Scope N_scope.

Module Service.

(** ** Enums *)

Inductive WorkflowIdConflictPolicy :=
| ConflictPolicy_Unspecified
| ConflictPolicy_Fail
| ConflictPolicy_UseExisting
| ConflictPolicy_TerminateExisting.

Inductive UpdateLifecycleStage :=
| Stage_Unspecified
| Stage_Admitted
| Stage_Accepted
| Stage_Completed.

Inductive HistoryEventFilterType :=
| Filter_Unspecified
| Filter_AllEvent
| Filter_CloseEvent.

(** ** Requests *)

Record TaskQueue := mkTaskQueue { tq_name : string; tq_kind : Z; tq_normal_name : string }.

Record StartRequest := mkStartRequest {
  s_namespace : string;
  s_input : option (list Core.Payload);
  s_workflow_id : string;
  s_workflow_type : option string;
  s_task_queue : option TaskQueue;
  s_memo : option (gmap string Core.Payload);
  s_search_attributes : option (gmap string Core.Payload);
  s_identity : string;
  s_request_id : string;
  s_workflow_id_conflict_policy : Z;
  s_workflow_id_reuse_policy : Z;
  s_workflow_execution_timeout : option Core.Duration;
  s_workflow_run_timeout : option Core.Duration;
  s_workflow_task_timeout : option Core.Duration;
  s_retry_policy : option Core.RetryPolicy
}.

Record ListRequest := mkListRequest {
  l_namespace : string;
  l_query : string;
  l_page_size : Z;
  l_next_page_token : list byte
}.

Record HistoryRequest := mkHistoryRequest {
  h_namespace : string;
  h_execution : option Core.WorkflowExecution;
  h_maximum_page_size : Z;
  h_next_page_token : list byte;
  h_wait_new_event : bool;
  h_history_event_filter_type : Z;
  h_skip_archival : bool
}.

Record CancelRequest := mkCancelRequest {
  c_namespace : string;
  c_workflow_execution : option Core.WorkflowExecution;
  c_identity : string;
  c_request_id : string;
  c_reason : string
}.

Record ResetRequest := mkResetRequest {
  r_namespace : string;
  r_workflow_execution : option Core.WorkflowExecution;
  r_reason : string;
  r_workflow_task_finish_event_id : Z;
  r_request_id : string;
  r_identity : string
}.

Record TerminateRequest := mkTerminateRequest {
  t_namespace : string;
  t_workflow_execution : option Core.WorkflowExecution;
  t_reason : string;
  t_identity : string
}.

Record SignalRequest := mkSignalRequest {
  g_namespace : string;
  g_workflow_execution : option Core.WorkflowExecution;
  g_signal_name : string;
  g_input : option (list Core.Payload);
  g_identity : string;
  g_request_id : string
}.

Record QueryRequest := mkQueryRequest {
  q_namespace : string;
  q_execution : option Core.WorkflowExecution;
  q_query_type : string;
  q_query_args : option (list Core.Payload);
  q_query_reject_condition : Z
}.

Record UpdateRequest := mkUpdateRequest {
  u_namespace : string;
  u_workflow_execution : option Core.WorkflowExecution;
  u_lifecycle_stage : Z;
  u_update_id : string;
  u_identity : string;
  u_name : string;
  u_args : option (list Core.Payload)
}.

Record UpdateRef := mkUpdateRef {
  ur_workflow_execution : option Core.WorkflowExecution;
  ur_update_id : string
}.

Record PollUpdateRequest := mkPollUpdateRequest {
  p_namespace : string;
  p_update_ref : option UpdateRef;
  p_identity : string;
  p_lifecycle_stage : Z
}.

(** ** Responses *)

Record StartResponse := mkStartResponse { sr_run_id : string; sr_started : bool }.

Record ExecutionInfo := mkExecutionInfo {
  ei_execution : option Core.WorkflowExecution;
  ei_type : option string;
  ei_task_queue : string;
  ei_status : Z
}.

Record ListResponse := mkListResponse {
  lr_executions : list ExecutionInfo;
  lr_next_page_token : list byte
}.

(** A page of history; the bridge looks into its events only to wait. *)
Record HistoryResponse (Event : Type) := mkHistoryResponse {
  hp_history : option (list Event);
  hp_next_page_token : list byte
}.

Record QueryResponse := mkQueryResponse {
  qp_query_rejected : bool;
  qp_query_result : option (list Core.Payload)
}.

Inductive OutcomeValue :=
| Value_Success (payloads : list Core.Payload)
| Value_Failure (failure : Core.Failure).

(** [outcome] is the message with its optional value. *)
Record UpdateResponse := mkUpdateResponse {
  up_update_ref : option UpdateRef;
  up_outcome : option (option OutcomeValue);
  up_stage : Z
}.

(** The attributes of the event that closes a run. *)
Inductive Attributes :=
| Attributes_Completed (payloads : option (list Core.Payload)) (new_execution_run_id : string)
| Attributes_Failed (failure : option Core.Failure) (new_execution_run_id : string)
| Attributes_Canceled (details : option (list Core.Payload))
| Attributes_Terminated (details : option (list Core.Payload))
| Attributes_TimedOut (new_execution_run_id : string)
| Attributes_ContinuedAsNew (new_execution_run_id : string)
| Attributes_Other (attributes : message).

Record HistoryEvent := mkHistoryEvent { ev_attributes : option Attributes }.

End Service.

Arguments Service.mkHistoryResponse {Event}.
Arguments Service.hp_history {Event}.
Arguments Service.hp_next_page_token {Event}.

(** ** What the bridge relies on *)

Class ClientEnums := {
  #[global] conflict_policy_enum :: ProstEnum Service.WorkflowIdConflictPolicy;
  #[global] stage_enum :: ProstEnum Service.UpdateLifecycleStage;
  #[global] filter_enum :: ProstEnum Service.HistoryEventFilterType
}.

(** ** Calls *)

(** Times in nanoseconds. *)
Definition from_millis (milliseconds : N) : N := milliseconds * 1000000.
Definition from_secs (seconds : N) : N := seconds * 1000000000.

(** [RetryOptions]: what the bridge overrides of Core's defaults.  The outer
    option of [max_elapsed_time] tells whether it is overridden. *)
Record RetryOptions := mkRetryOptions {
  max_elapsed_time : option (option N);
  max_retries : option N
}.

Record CallRequest (M : Type) := mkCallRequest {
  rq_message : M;
  rq_timeout : option N;
  rq_retry : RetryOptions;
  rq_no_retry_on : option (Status → bool);
  rq_metadata : list (string * string)
}.
Arguments mkCallRequest {M}.
Arguments rq_message {M}.
Arguments rq_timeout {M}.
Arguments rq_retry {M}.
Arguments rq_no_retry_on {M}.
Arguments rq_metadata {M}.

(** What awaiting a call inside [tokio::time::timeout] gives: the answer of the
    call, with the time that had passed since the call began, or the timer. *)
Inductive Reply (R : Type) :=
| Replied (elapsed : N) (answer : result R Status)
| Elapsed.
Arguments Replied {R}.
Arguments Elapsed {R}.
