(* ===== verification/ClientOperations.v ===== *)
(** * Client calls

    The operations of src/rust/core-bridge/src/client_protocol.rs that make one
    call to the workflow service: start, cancel, reset, terminate, signal, query,
    the poll of an update and a page of visibility.  Each takes the service as a
    function from the request sent to what awaiting it gives, and the identity of
    the connection. *)

From S2P Require Import Prelude.
From S2P Require Import Text.
From S2P Require Import Protocol.
From S2P Require Import ProtocolCodec.
From S2P Require Import WorkflowTypes.
From S2P Require Import CoreMessages.
From S2P Require Import WorkflowChecks.
From S2P Require Import CoreConversion.
From S2P Require Import FailureConversion.
From S2P Require Import ClientTypes.
From S2P Require Import ClientChecks.
From S2P Require Import ClientStatus.
From S2P Require Import ClientMessages.
Local Open Scope N_scope.
Local Open Scope bridge_scope.

(** ** Budgets *)

Definition START_RPC_TIMEOUT : N := from_secs 10.
Definition CONTROL_RPC_TIMEOUT : N := from_secs 3.
Definition VISIBILITY_RPC_TIMEOUT : N := from_secs 10.
Definition QUERY_RPC_TIMEOUT : N := from_secs 30.
Definition UPDATE_POLL_TIMEOUT : N := from_secs 30.

Definition rpc_budget (rpc_timeout_ms : option N) (default : N) : N :=
  match rpc_timeout_ms with Some ms => from_millis ms | None => default end.

Definition budgeted_request {M} (message : M) (budget : N) : CallRequest M :=
  mkCallRequest message (Some budget) (mkRetryOptions (Some (Some budget)) None) None [].

Definition terminate_request (message : Service.TerminateRequest) (budget : N) :
    CallRequest Service.TerminateRequest :=
  let request := budgeted_request message budget in
  mkCallRequest (rq_message request) (rq_timeout request) (rq_retry request)
    (Some terminate_retry_forbidden) (rq_metadata request).

(** The answer of a budgeted call, with its errors. *)
Definition budgeted_reply {R} (budget : N) (map : Status → ClientOperationError) (reply : Reply R) :
    result R ClientOperationError :=
  match reply with
  | Replied elapsed answer => map_err (budget_status elapsed budget map) answer
  | Elapsed => Err deadline_exceeded
  end.

(** ** Conversions *)

Definition milliseconds_to_core (milliseconds : N) : result Core.Duration ClientOperationError :=
  let invalid := Error_Core (invalid_core "duration is out of range") in
  let? seconds :=
    if milliseconds / 1000 <? 2 ^ 63 then Ok (Z.of_N (milliseconds / 1000)) else Err invalid in
  let? nanos :=
    if milliseconds mod 1000 * 1000000 <? 2 ^ 31 then
      Ok (Z.of_N (milliseconds mod 1000 * 1000000))
    else Err invalid in
  Ok (Core.mkDuration seconds nanos).

Definition optional_milliseconds_to_core (milliseconds : option N) :
    result (option Core.Duration) ClientOperationError :=
  try_option milliseconds_to_core milliseconds.

Fixpoint metadata_loop (fields : list MetadataField) (values : gmap string Core.Payload) :
    result (gmap string Core.Payload) CoreConversionError :=
  match fields with
  | [] => Ok values
  | field :: fields =>
      let? payload := payload_to_core (mf_value field) in
      metadata_loop fields (<[mf_key field := payload]> values)
  end.

Definition metadata_to_memo (fields : list MetadataField) :
    result (option (gmap string Core.Payload)) CoreConversionError :=
  if bool_decide (fields = []) then Ok None
  else
    let? values := metadata_loop fields ∅ in
    Ok (Some values).

Definition metadata_to_search_attributes (fields : list MetadataField) :
    result (option (gmap string Core.Payload)) CoreConversionError :=
  if bool_decide (fields = []) then Ok None
  else
    let? values := metadata_loop fields ∅ in
    Ok (Some values).

Section Operations.
Context `{CoreEnums, ClientEnums, StatusDetails, Base64}.
Context (identity : string).

(** ** Start *)

Definition conflict_policy_to_core (policy : IdConflictPolicy) : Z :=
  as_i32
    match policy with
    | Conflict_Fail => Service.ConflictPolicy_Fail
    | Conflict_UseExisting => Service.ConflictPolicy_UseExisting
    | Conflict_TerminateExisting => Service.ConflictPolicy_TerminateExisting
    end.

Definition reuse_policy_to_core (policy : IdReusePolicy) : Z :=
  as_i32
    match policy with
    | Reuse_AllowDuplicate => Core.IdReuse_AllowDuplicate
    | Reuse_AllowDuplicateFailedOnly => Core.IdReuse_AllowDuplicateFailedOnly
    | Reuse_RejectDuplicate => Core.IdReuse_RejectDuplicate
    end.

(** The message that [start_workflow] sends. *)
Definition start_message (request : StartWorkflowRequest) :
    result Service.StartRequest ClientOperationError :=
  let? payloads := map_err Error_Core (payloads_to_core (sr_input request)) in
  let? memo := map_err Error_Core (metadata_to_memo (sr_memo request)) in
  let? search_attributes :=
    map_err Error_Core (metadata_to_search_attributes (sr_search_attributes request)) in
  let? retry_policy :=
    map_err Error_Core (try_option retry_policy_to_core (sr_retry_policy request)) in
  let? workflow_execution_timeout :=
    optional_milliseconds_to_core (sr_execution_timeout_ms request) in
  let? workflow_run_timeout := optional_milliseconds_to_core (sr_run_timeout_ms request) in
  let? workflow_task_timeout := optional_milliseconds_to_core (sr_task_timeout_ms request) in
  Ok (Service.mkStartRequest (sr_namespace request) (Some payloads) (sr_workflow_id request)
    (Some (sr_workflow_type request)) (Some (Service.mkTaskQueue (sr_task_queue request) 0 ""))
    memo search_attributes identity (sr_request_id request)
    (conflict_policy_to_core (sr_id_conflict_policy request))
    (reuse_policy_to_core (sr_id_reuse_policy request))
    workflow_execution_timeout workflow_run_timeout workflow_task_timeout retry_policy).

(** What [start_workflow] makes of the response. *)
Definition start_response (request : StartWorkflowRequest) (response : Service.StartResponse) :
    result StartWorkflowResponse ClientOperationError :=
  let started :=
    Service.sr_started response ||
    match sr_id_conflict_policy request with Conflict_UseExisting => false | _ => true end in
  let run_id := Service.sr_run_id response in
  if str_is_empty run_id then
    Err (Error_Core (invalid_core "Temporal start response omitted run ID"))
  else
    let execution := mkExecutionRef (sr_namespace request) (sr_workflow_id request) run_id in
    let? _ :=
      map_err
        (λ _, Error_Core (invalid_core "Temporal start response had invalid execution identity"))
        (validate_execution execution "$.execution") in
    Ok (mkStartWorkflowResponse execution started).

Definition start_workflow (rpc : CallRequest Service.StartRequest → Reply Service.StartResponse)
    (request : StartWorkflowRequest) : result StartWorkflowResponse ClientOperationError :=
  let? message := start_message request in
  let budget := rpc_budget (sr_rpc_timeout_ms request) START_RPC_TIMEOUT in
  let? response :=
    budgeted_reply budget (map_start_status (sr_workflow_id request))
      (rpc (budgeted_request message budget)) in
  start_response request response.

(** ** Control *)

Definition cancel_workflow (rpc : CallRequest Service.CancelRequest → Reply ())
    (request : CancelWorkflowRequest) : result CancelWorkflowResponse ClientOperationError :=
  let budget := rpc_budget (cr_rpc_timeout_ms request) CONTROL_RPC_TIMEOUT in
  let message :=
    Service.mkCancelRequest (cr_namespace request)
      (Some (Core.mkWorkflowExecution (cr_workflow_id request) (cr_run_id request)))
      identity (cr_request_id request) (cr_reason request) in
  let? _ := budgeted_reply budget map_rpc_status (rpc (budgeted_request message budget)) in
  Ok (mkCancelWorkflowResponse true).

(** The response of the service is its run ID. *)
Definition reset_workflow (rpc : CallRequest Service.ResetRequest → Reply string)
    (request : ResetWorkflowRequest) : result ResetWorkflowResponse ClientOperationError :=
  let budget := rpc_budget (rr_rpc_timeout_ms request) CONTROL_RPC_TIMEOUT in
  let message :=
    Service.mkResetRequest (rr_namespace request)
      (Some (Core.mkWorkflowExecution (rr_workflow_id request) (rr_run_id request)))
      (rr_reason request) (rr_workflow_task_finish_event_id request) (rr_request_id request)
      identity in
  let? run_id := budgeted_reply budget map_rpc_status (rpc (budgeted_request message budget)) in
  if str_is_empty run_id then
    Err (Error_Core (invalid_core "Temporal reset response omitted run ID"))
  else
    let execution := mkExecutionRef (rr_namespace request) (rr_workflow_id request) run_id in
    let? _ :=
      map_err
        (λ _, Error_Core (invalid_core "Temporal reset response had invalid execution identity"))
        (let? _ := validate_identifier (ex_namespace execution) "$.execution.namespace" in
         let? _ := validate_identifier (ex_workflow_id execution) "$.execution.workflow_id" in
         validate_identifier (ex_run_id execution) "$.execution.run_id") in
    Ok (mkResetWorkflowResponse execution).

Definition terminate_workflow (rpc : CallRequest Service.TerminateRequest → Reply ())
    (request : TerminateWorkflowRequest) : result TerminateWorkflowResponse ClientOperationError :=
  let budget := rpc_budget (tr_rpc_timeout_ms request) CONTROL_RPC_TIMEOUT in
  let message :=
    Service.mkTerminateRequest (tr_namespace request)
      (Some (Core.mkWorkflowExecution (tr_workflow_id request) (tr_run_id request)))
      (tr_reason request) identity in
  match rpc (terminate_request message budget) with
  | Replied _ answer =>
      let? _ := map_err terminate_status_error answer in
      Ok (mkTerminateWorkflowResponse true)
  | Elapsed => Err (Error_Rpc "termination_outcome_uncertain")
  end.

Definition signal_workflow (rpc : CallRequest Service.SignalRequest → Reply ())
    (request : SignalWorkflowRequest) : result SignalWorkflowResponse ClientOperationError :=
  let budget := rpc_budget (gr_rpc_timeout_ms request) CONTROL_RPC_TIMEOUT in
  let? payloads := map_err Error_Core (payloads_to_core (gr_input request)) in
  let message :=
    Service.mkSignalRequest (gr_namespace request)
      (Some (Core.mkWorkflowExecution (gr_workflow_id request) (gr_run_id request)))
      (gr_signal_name request) (Some payloads) identity (gr_request_id request) in
  let? _ := budgeted_reply budget map_rpc_status (rpc (budgeted_request message budget)) in
  Ok (mkSignalWorkflowResponse true).

Definition query_workflow (rpc : CallRequest Service.QueryRequest → Reply Service.QueryResponse)
    (request : QueryWorkflowRequest) : result QueryWorkflowResponse ClientOperationError :=
  let budget := rpc_budget (qr_rpc_timeout_ms request) QUERY_RPC_TIMEOUT in
  let? query_args := map_err Error_Core (payloads_to_core (qr_input request)) in
  let message :=
    Service.mkQueryRequest (qr_namespace request)
      (Some (Core.mkWorkflowExecution (qr_workflow_id request) (qr_run_id request)))
      (qr_query_type request) (Some query_args) 1 in
  let? response :=
    budgeted_reply budget map_query_status (rpc (budgeted_request message budget)) in
  if Service.qp_query_rejected response then Err (Error_Rpc "failed_precondition")
  else
    let? payloads := map_err Error_Core (payloads_from_core (Service.qp_query_result response)) in
    Ok (mkQueryWorkflowResponse payloads).

(** ** The poll of an update *)

Definition update_outcome_from_core (outcome : option Service.OutcomeValue) :
    result UpdateOutcome CoreConversionError :=
  match outcome with
  | Some (Service.Value_Success payloads) =>
      let? payloads := payloads_from_core (Some payloads) in
      Ok (Update_OutcomeCompleted payloads)
  | Some (Service.Value_Failure failure) =>
      let? failure := failure_from_core failure in
      Ok (Update_OutcomeFailed failure)
  | None => Err (invalid_core "Temporal update outcome omitted success and failure")
  end.

(** The response of the service is its outcome. *)
Definition poll_workflow_update
    (rpc : CallRequest Service.PollUpdateRequest → Reply (option (option Service.OutcomeValue)))
    (request : PollWorkflowUpdateRequest) :
    result PollWorkflowUpdateResponse ClientOperationError :=
  let message :=
    Service.mkPollUpdateRequest (pr_namespace request)
      (Some (Service.mkUpdateRef
        (Some (Core.mkWorkflowExecution (pr_workflow_id request) (pr_run_id request)))
        (pr_update_id request)))
      identity (as_i32 Service.Stage_Completed) in
  match rpc (budgeted_request message UPDATE_POLL_TIMEOUT) with
  | Replied _ answer =>
      let? response := map_err map_rpc_status answer in
      let? outcome := map_err Error_Core (try_option update_outcome_from_core response) in
      Ok (mkPollWorkflowUpdateResponse outcome)
  | Elapsed => Ok (mkPollWorkflowUpdateResponse None)
  end.

(** ** Visibility *)

(** [as i32] of a [u32]. *)
Definition u32_as_i32 (value : N) : Z :=
  if value <? 2 ^ 31 then Z.of_N value else (Z.of_N value - 2 ^ 32)%Z.

Definition visibility_row (info : Service.ExecutionInfo) :
    result VisibilityExecution ClientOperationError :=
  let? execution :=
    ok_or (Service.ei_execution info)
      (Error_Core (invalid_core "visibility row has no execution identity")) in
  let? workflow_type :=
    ok_or (Service.ei_type info)
      (Error_Core (invalid_core "visibility row has no workflow type")) in
  let? status := visibility_status (Service.ei_status info) in
  Ok (mkVisibilityExecution (Core.we_workflow_id execution) (Core.we_run_id execution) workflow_type
    (Service.ei_task_queue info) status).

Definition list_message (request : VisibilityRequest) :
    result Service.ListRequest ClientOperationError :=
  let? token :=
    try_option
      (λ value,
        ok_or (base64_decode value) (Error_Core (invalid_core "invalid visibility page token")))
      (vr_next_page_token request) in
  Ok (Service.mkListRequest (vr_namespace request) (vr_query request)
    (u32_as_i32 (vr_page_size request)) (default [] token)).

Definition list_visibility (rpc : CallRequest Service.ListRequest → Reply Service.ListResponse)
    (request : VisibilityRequest) : result VisibilityPage ClientOperationError :=
  let budget := rpc_budget (vr_rpc_timeout_ms request) VISIBILITY_RPC_TIMEOUT in
  let? message := list_message request in
  let? response := budgeted_reply budget map_rpc_status (rpc (budgeted_request message budget)) in
  let? executions := try_map visibility_row (Service.lr_executions response) in
  Ok (mkVisibilityPage executions
    (if bool_decide (Service.lr_next_page_token response = []) then None
     else Some (base64_encode (Service.lr_next_page_token response)))).

End Operations.

(** ** Theorems *)

Definition core_payload (p : Payload) : Core.Payload :=
  Core.mkPayload (payload_metadata p) (payload_data p) [].

(** The fields of a request as a map. *)
Definition metadata_map (fields : list MetadataField) : gmap string Payload :=
  list_to_map (map (λ f, (mf_key f, mf_value f)) fields).

Lemma payload_to_core_fits p : payload_fits p → payload_to_core p = Ok (core_payload p).
Proof. intros Hp. by apply payload_to_core_Ok. Qed.

Lemma payloads_to_core_fits l : Forall payload_fits l → payloads_to_core l = Ok (map core_payload l).
Proof.
  intros Hl. apply try_map_Ok. induction Hl; constructor; [by apply payload_to_core_fits|done].
Qed.

Lemma metadata_loop_ok fields values :
  metadata_ok fields →
  metadata_loop fields values = Ok ((core_payload <$> metadata_map fields) ∪ values).
Proof.
  intros [Hnd Hall]. unfold metadata_map. revert values Hnd.
  induction Hall as [|f fields [_ Hf] _ IH]; intros values Hnd; cbn [metadata_loop map].
  { by rewrite list_to_map_nil, fmap_empty, map_empty_union. }
  inversion_clear Hnd as [|? ? Hfresh Hnd']. rewrite payload_to_core_fits by done.
  rewrite IH by done. f_equal. rewrite list_to_map_cons, fmap_insert, <-insert_union_l, insert_union_r; [done|].
  rewrite lookup_fmap, fmap_None. apply not_elem_of_list_to_map_1. rewrite <-list_fmap_compose. done.
Qed.

Lemma metadata_to_memo_ok fields :
  metadata_ok fields →
  metadata_to_memo fields =
  Ok (if decide (fields = []) then None else Some (core_payload <$> metadata_map fields)).
Proof.
  intros Hok. unfold metadata_to_memo. case_decide; [by rewrite bool_decide_true|].
  by rewrite bool_decide_false, metadata_loop_ok, map_union_empty by done.
Qed.

Definition core_milliseconds (d : Core.Duration) : Z :=
  (Core.du_seconds d * 1000 + Core.du_nanos d / 1000000)%Z.

Lemma milliseconds_to_core_ok ms :
  ms ≤ MAX_WORKFLOW_TIMEOUT_MS →
  ∃ d, milliseconds_to_core ms = Ok d ∧ core_milliseconds d = Z.of_N ms ∧
    (0 ≤ Core.du_seconds d ≤ 315576000000)%Z ∧ (0 ≤ Core.du_nanos d ≤ 999999999)%Z.
Proof.
  unfold MAX_WORKFLOW_TIMEOUT_MS. intros Hms. unfold milliseconds_to_core.
  pose proof (N.div_mod ms 1000 ltac:(done)) as Hdiv.
  pose proof (N.mod_lt ms 1000 ltac:(done)) as Hmod.
  revert Hdiv Hmod. generalize (ms / 1000), (ms mod 1000). intros q r Hdiv Hmod.
  assert (q < 2 ^ 63 ∧ r * 1000000 < 2 ^ 31) as [Hs Hn] by lia.
  rewrite (proj2 (N.ltb_lt _ _) Hs), (proj2 (N.ltb_lt _ _) Hn). eexists. split; [done|].
  unfold core_milliseconds. cbn [Core.du_seconds Core.du_nanos].
  rewrite N2Z.inj_mul, Z.div_mul by done. lia.
Qed.

Lemma optional_milliseconds_ok maximum o :
  timeout_ok maximum o → maximum ≤ MAX_WORKFLOW_TIMEOUT_MS →
  ∃ d, optional_milliseconds_to_core o = Ok d ∧ core_milliseconds <$> d = Z.of_N <$> o.
Proof.
  intros Ho Hmax. destruct o as [ms|]; [|by exists None].
  destruct (milliseconds_to_core_ok ms) as (d & Hd & Hms & _); [specialize (Ho ms eq_refl); lia|].
  exists (Some d). unfold optional_milliseconds_to_core. simpl. by rewrite Hd, Hms.
Qed.

Section Theorems.
Context `{CoreEnums, ClientEnums, StatusDetails}.
Context (identity : string).

(** What the service receives of a request. *)
Record start_carried (request : StartWorkflowRequest) (m : Service.StartRequest) : Prop := {
  carried_names :
    Service.s_namespace m = sr_namespace request ∧ Service.s_workflow_id m = sr_workflow_id request ∧
    Service.s_workflow_type m = Some (sr_workflow_type request) ∧
    Service.tq_name <$> Service.s_task_queue m = Some (sr_task_queue request) ∧
    Service.s_request_id m = sr_request_id request ∧ Service.s_identity m = identity;
  carried_input : payloads_from_core (Service.s_input m) = Ok (sr_input request);
  carried_memo : default ∅ (Service.s_memo m) = core_payload <$> metadata_map (sr_memo request);
  carried_attributes :
    default ∅ (Service.s_search_attributes m) =
    core_payload <$> metadata_map (sr_search_attributes request);
  carried_policies :
    Service.s_workflow_id_conflict_policy m = conflict_policy_to_core (sr_id_conflict_policy request) ∧
    Service.s_workflow_id_reuse_policy m = reuse_policy_to_core (sr_id_reuse_policy request);
  carried_timeouts :
    core_milliseconds <$> Service.s_workflow_execution_timeout m =
      Z.of_N <$> sr_execution_timeout_ms request ∧
    core_milliseconds <$> Service.s_workflow_run_timeout m = Z.of_N <$> sr_run_timeout_ms request ∧
    core_milliseconds <$> Service.s_workflow_task_timeout m = Z.of_N <$> sr_task_timeout_ms request;
  carried_retry :
    try_option retry_policy_from_core (Service.s_retry_policy m) = Ok (sr_retry_policy request)
}.

Lemma retry_policy_to_core_ok p : retry_policy_ok p → ∃ m, retry_policy_to_core p = Ok m.
Proof.
  intros Hp. unfold retry_policy_to_core.
  rewrite (proj2 (validate_retry_policy_Ok p _) Hp). cbn [map_err].
  destruct Hp as (_ & _ & _ & (bits & -> & Hb) & _).
  rewrite parse_u64_pretty by (unfold u64_modulus; lia). by eexists.
Qed.

Lemma start_message_total request :
  start_request_ok request → ∃ m, start_message identity request = Ok m ∧ start_carried request m.
Proof.
  intros [_ Hinput Hmemo Hattributes [He Hr Ht _ _ _ Hretry] _]. unfold start_message.
  assert (payloads_to_core (sr_input request) = Ok (map core_payload (sr_input request))) as Hpayloads
    by (by apply payloads_to_core_fits).
  rewrite Hpayloads, (metadata_to_memo_ok _ Hmemo). cbn [map_err].
  change (metadata_to_search_attributes (sr_search_attributes request))
    with (metadata_to_memo (sr_search_attributes request)).
  rewrite (metadata_to_memo_ok _ Hattributes). cbn [map_err].
  destruct (optional_milliseconds_ok _ _ He) as (de & -> & Hde); [done|].
  destruct (optional_milliseconds_ok _ _ Hr) as (dr & -> & Hdr); [done|].
  destruct (optional_milliseconds_ok _ _ Ht) as (dt & -> & Hdt); [done|].
  assert (∃ m, try_option retry_policy_to_core (sr_retry_policy request) = Ok m ∧
    try_option retry_policy_from_core m = Ok (sr_retry_policy request)) as (m & -> & Hm).
  { destruct (sr_retry_policy request) as [p|]; [|by exists None].
    destruct (retry_policy_to_core_ok p) as (m & Hp); [by apply Hretry|].
    exists (Some m). simpl. by rewrite Hp, (retry_policy_round_trip p m Hp). }
  cbn [map_err]. eexists. split; [reflexivity|]. constructor; cbn; try done.
  - by apply payload_vec_round_trip.
  - case_decide as Hnil; [by rewrite Hnil|done].
  - case_decide as Hnil; [by rewrite Hnil|done].
Qed.

(** A start request that was accepted is sent: nothing of it fails to convert,
    the one message it makes carries its names, its payloads, its fields, its
    policies and its timeouts to the millisecond, and the result is what the answer
    to that message gives. *)
Theorem accepted_start_is_sent request :
  validate_start_request request = Ok tt →
  ∃ m, start_message identity request = Ok m ∧ start_carried request m ∧
  ∀ rpc, start_workflow identity rpc request =
    let budget := rpc_budget (sr_rpc_timeout_ms request) START_RPC_TIMEOUT in
    match budgeted_reply budget (map_start_status (sr_workflow_id request))
        (rpc (budgeted_request m budget)) with
    | Ok response => start_response request response
    | Err error => Err error
    end.
Proof.
  intros Hok%validate_start_request_Ok. destruct (start_message_total request Hok) as (m & Hm & Hc).
  exists m. split; [done|]. split; [done|]. intros rpc. unfold start_workflow. by rewrite Hm.
Qed.

End Theorems.

Lemma budgeted_reply_Ok {R} budget map (reply : Reply R) r :
  budgeted_reply budget map reply = Ok r ↔ ∃ elapsed, reply = Replied elapsed (Ok r).
Proof.
  destruct reply as [elapsed answer|]; cbn [budgeted_reply]; [|naive_solver].
  rewrite map_err_Ok. naive_solver.
Qed.

(** A row of the page is that of the response. *)
Definition same_row (info : Service.ExecutionInfo) (row : VisibilityExecution) : Prop :=
  Service.ei_execution info =
    Some (Core.mkWorkflowExecution (ve_workflow_id row) (ve_run_id row)) ∧
  Service.ei_type info = Some (ve_workflow_type row) ∧
  Service.ei_task_queue info = ve_task_queue row ∧
  visibility_status (Service.ei_status info) = Ok (ve_status row).

Lemma visibility_row_Ok info row : visibility_row info = Ok row ↔ same_row info row.
Proof.
  unfold visibility_row, same_row. rewrite bind_Ok. setoid_rewrite ok_or_Ok. split.
  - intros ([w r] & He & Hrow). apply bind_Ok in Hrow as (ty & Ht%ok_or_Ok & Hrow).
    apply bind_Ok in Hrow as (st & Hs & [= <-]). done.
  - destruct row as [w r ty q st]. simpl. intros (He & Ht & <- & Hs).
    eexists. split; [done|]. by rewrite Ht, Hs.
Qed.

(** A page of visibility has the rows of the response in order, under status
    names that the check of a page recognizes, and its token leads to the next
    page: a request with the token of a page sends the bytes that the service gave
    with it, and a page without token was the last. *)
Theorem visibility_pages_chain `{Base64Laws} rpc request page :
  list_visibility rpc request = Ok page →
  ∃ m elapsed response,
    list_message request = Ok m ∧
    rpc (budgeted_request m (rpc_budget (vr_rpc_timeout_ms request) VISIBILITY_RPC_TIMEOUT)) =
      Replied elapsed (Ok response) ∧
    Forall2 same_row (Service.lr_executions response) (vp_executions page) ∧
    (Forall (λ info, is_i32 (Service.ei_status info)) (Service.lr_executions response) →
     Forall (λ row, is_visibility_status_name (ve_status row) = true) (vp_executions page)) ∧
    (vp_next_page_token page = None ↔ Service.lr_next_page_token response = []) ∧
    ∀ next, vr_next_page_token next = vp_next_page_token page →
    Service.l_next_page_token <$> (match list_message next with Ok m => Some m | Err _ => None end) =
    Some (Service.lr_next_page_token response).
Proof.
  unfold list_visibility. rewrite bind_Ok. intros (m & Hm & Hpage).
  apply bind_Ok in Hpage as (response & (elapsed & Hreply)%budgeted_reply_Ok & Hpage).
  apply bind_Ok in Hpage as (rows & Hrows%try_map_Ok & [= <-]). cbn [vp_executions vp_next_page_token].
  assert (Forall2 same_row (Service.lr_executions response) rows) as Hsame.
  { eapply Forall2_impl; [exact Hrows|]. intros info row. apply visibility_row_Ok. }
  exists m, elapsed, response. split_and!; try done.
  - intros Hi32. clear -Hsame Hi32. induction Hsame as [|info row infos rows Hrow _ IH]; [done|].
    inversion_clear Hi32. constructor; [|by apply IH]. destruct Hrow as (_ & _ & _ & Hstatus).
    apply is_visibility_status_name_spec. right. by eexists.
  - case_bool_decide; naive_solver.
  - intros next Hnext. unfold list_message. rewrite Hnext.
    case_bool_decide as Htoken; simpl; [by rewrite Htoken|].
    by rewrite base64_decode_encode.
Qed.
