(* ===== verification/ClientLoops.v ===== *)
(** * Client calls that repeat

    The operations of src/rust/core-bridge/src/client_protocol.rs that call the
    workflow service in a loop: the admission of an update, the fetch of a history
    and the wait for a run.  The service is the list of what it does on successive
    calls; an operation returns [None] when it would make one more call than the
    list answers, and the calls it made.  Readings of the clock with no await
    between them are one instant. *)

From S2P Require Import Prelude.
From S2P Require Import Text.
From S2P Require Import Protocol.
From S2P Require Import WorkflowTypes.
From S2P Require Import CoreMessages.
From S2P Require Import WorkflowChecks.
From S2P Require Import CoreConversion.
From S2P Require Import FailureConversion.
From S2P Require Import ClientTypes.
From S2P Require Import ClientChecks.
From S2P Require Import ClientStatus.
From S2P Require Import ClientMessages.
From S2P Require Import ClientOperations.
Local Open Scope N_scope.
Local Open Scope bridge_scope.

Definition UPDATE_ACCEPTANCE_TIMEOUT : N := from_secs 30.
Definition UPDATE_READMISSION_PAUSE : N := from_millis 100.
Definition HISTORY_PAGE_RPC_TIMEOUT : N := from_secs 30.
Definition WAIT_MAX_ATTEMPTS : N := 30.
Definition SUPPORTED_FEATURES_HEADER : string := "supported-features".
Definition FOLLOWS_NEXT_RUN_ID_FEATURE : string := "follows-next-run-id".

Definition wait_retry_options : RetryOptions := mkRetryOptions (Some None) (Some WAIT_MAX_ATTEMPTS).

(** What a loop has done: its result, unless it is still running, and its calls. *)
Definition Run (M A : Type) : Type := option (result A ClientOperationError) * list (CallRequest M).

(** The calls of a loop after one more call. *)
Definition after_call {M A} (call : CallRequest M) (run : Run M A) : Run M A :=
  (run.1, call :: run.2).

(** ** Update *)

(** One attempt: its reply, and how much longer than asked for the pause after it
    lasts. *)
Record Attempt := mkAttempt {
  at_reply : Reply Service.UpdateResponse;
  at_oversleep : N
}.

Section Loops.
Context `{CoreEnums, ClientEnums}.
Context (identity : string).

Definition update_message (request : UpdateWorkflowRequest) :
    result Service.UpdateRequest CoreConversionError :=
  let? input := payloads_to_core (ur_input request) in
  Ok (Service.mkUpdateRequest (ur_namespace request)
    (Some (Core.mkWorkflowExecution (ur_workflow_id request) (ur_run_id request)))
    (as_i32 Service.Stage_Accepted) (ur_update_id request) identity (ur_update_name request)
    (Some input)).

Definition update_stage_is_accepted (stage : Z) : result bool ClientOperationError :=
  match try_from_i32 stage with
  | Some Service.Stage_Accepted => Ok true
  | Some Service.Stage_Completed =>
      Err (Error_Core (invalid_core "Temporal completed update omitted its outcome"))
  | Some (Service.Stage_Unspecified | Service.Stage_Admitted) | None => Ok false
  end.

Definition update_response_from_core (request : UpdateWorkflowRequest)
    (response : Service.UpdateResponse) : result UpdateWorkflowResponse ClientOperationError :=
  let? update_ref :=
    ok_or (Service.up_update_ref response)
      (Error_Core (invalid_core "Temporal update admission omitted update_ref")) in
  let? execution :=
    ok_or (Service.ur_workflow_execution update_ref)
      (Error_Core (invalid_core "Temporal update admission omitted workflow execution")) in
  if negb (bool_decide (Service.ur_update_id update_ref = ur_update_id request)) then
    Err (Error_Core (invalid_core "Temporal update response changed update_id"))
  else
    let execution :=
      mkExecutionRef (ur_namespace request) (Core.we_workflow_id execution)
        (if str_is_empty (Core.we_run_id execution) then ur_run_id request
         else Core.we_run_id execution) in
    let changed_run :=
      negb (str_is_empty (ur_run_id request)) &&
      negb (bool_decide (ex_run_id execution = ur_run_id request)) in
    if negb (bool_decide (ex_workflow_id execution = ur_workflow_id request)) || changed_run then
      Err (Error_Core (invalid_core "Temporal update response changed workflow execution"))
    else if str_is_empty (ex_run_id execution) then
      Err (Error_Core (invalid_core "Temporal update response omitted the run that accepted it"))
    else
      let? outcome :=
        map_err Error_Core (try_option update_outcome_from_core (Service.up_outcome response)) in
      Ok (mkUpdateWorkflowResponse (Service.ur_update_id update_ref) execution outcome).

(** The loop at time [now]. *)
Fixpoint update_loop (request : UpdateWorkflowRequest) (message : Service.UpdateRequest)
    (deadline now : N) (attempts : list Attempt) : Run Service.UpdateRequest UpdateWorkflowResponse :=
  let remaining := deadline - now in
  if remaining =? 0 then (Some (Err deadline_exceeded), [])
  else
    match attempts with
    | [] => (None, [])
    | attempt :: attempts =>
        after_call (budgeted_request message remaining)
          match at_reply attempt with
          | Elapsed => (Some (Err deadline_exceeded), [])
          | Replied elapsed (Err status) =>
              (Some (Err (budget_status elapsed remaining map_rpc_status status)), [])
          | Replied elapsed (Ok response) =>
              match update_response_from_core request response with
              | Err error => (Some (Err error), [])
              | Ok converted =>
                  if bool_decide (is_Some (uw_outcome converted)) then (Some (Ok converted), [])
                  else
                    match update_stage_is_accepted (Service.up_stage response) with
                    | Err error => (Some (Err error), [])
                    | Ok true => (Some (Ok converted), [])
                    | Ok false =>
                        let pause_until := now + elapsed + UPDATE_READMISSION_PAUSE in
                        if deadline <=? pause_until then (Some (Err deadline_exceeded), [])
                        else
                          update_loop request message deadline
                            (pause_until + at_oversleep attempt) attempts
                    end
              end
          end
    end.

Definition update_workflow_within (request : UpdateWorkflowRequest) (budget : N)
    (attempts : list Attempt) : Run Service.UpdateRequest UpdateWorkflowResponse :=
  match update_message request with
  | Err error => (Some (Err (Error_Core error)), [])
  | Ok message => update_loop request message budget 0 attempts
  end.

Definition update_workflow (request : UpdateWorkflowRequest) (attempts : list Attempt) :
    Run Service.UpdateRequest UpdateWorkflowResponse :=
  update_workflow_within request (rpc_budget (ur_rpc_timeout_ms request) UPDATE_ACCEPTANCE_TIMEOUT)
    attempts.

(** ** History *)

Section History.
Context {Event : Type}.
Context (encode_to_vec : list Event → list byte).

Definition history_message (request : HistoryRequest) (next_page_token : list byte) :
    Service.HistoryRequest :=
  Service.mkHistoryRequest (hr_namespace request)
    (Some (Core.mkWorkflowExecution (hr_workflow_id request) (hr_run_id request)))
    match hr_page_size request with
    | Some size => if size <? 2 ^ 31 then Z.of_N size else 0%Z
    | None => 0%Z
    end
    next_page_token false (as_i32 Service.Filter_AllEvent) false.

Definition append_page (encoded : list byte) (history : option (list Event)) :
    result (list byte) ClientOperationError :=
  match history with
  | Some (event :: events) =>
      let page := encode_to_vec (event :: events) in
      if MAX_PAYLOAD_BYTES <? bytes_len encoded + bytes_len page then
        Err (Error_Core (invalid_core "workflow history exceeds the bridge payload limit"))
      else Ok (encoded ++ page)
  | _ => Ok encoded
  end.

Definition finish_history (encoded : list byte) : result (list byte) ClientOperationError :=
  if bool_decide (encoded = []) then
    Err (Error_Core (invalid_core "Temporal returned a workflow history with no events"))
  else Ok encoded.

Fixpoint history_loop (request : HistoryRequest) (budget : N) (encoded next_page_token : list byte)
    (replies : list (Reply (Service.HistoryResponse Event))) :
    Run Service.HistoryRequest (list byte) :=
  match replies with
  | [] => (None, [])
  | reply :: replies =>
      after_call (budgeted_request (history_message request next_page_token) budget)
        match budgeted_reply budget map_rpc_status reply with
        | Err error => (Some (Err error), [])
        | Ok response =>
            match append_page encoded (Service.hp_history response) with
            | Err error => (Some (Err error), [])
            | Ok encoded =>
                if bool_decide (Service.hp_next_page_token response = []) then
                  (Some (finish_history encoded), [])
                else
                  history_loop request budget encoded (Service.hp_next_page_token response) replies
            end
        end
  end.

Definition fetch_history (request : HistoryRequest)
    (replies : list (Reply (Service.HistoryResponse Event))) :
    Run Service.HistoryRequest (list byte) :=
  history_loop request (rpc_budget (hr_rpc_timeout_ms request) HISTORY_PAGE_RPC_TIMEOUT) [] []
    replies.

End History.

(** ** Wait *)

Definition successor_ref (namespace workflow_id run_id : string) : option SuccessorRef :=
  if str_is_empty run_id then None else Some (mkSuccessorRef namespace workflow_id run_id).

Definition outcome_from_event (event : Service.HistoryEvent) (namespace workflow_id : string) :
    result WorkflowOutcome ClientOperationError :=
  let successor := successor_ref namespace workflow_id in
  let? attributes :=
    ok_or (Service.ev_attributes event)
      (Error_Core (invalid_core "Temporal close event omitted attributes")) in
  match attributes with
  | Service.Attributes_Completed payloads new_execution_run_id =>
      let? payloads := map_err Error_Core (payloads_from_core payloads) in
      Ok (Outcome_Completed payloads (successor new_execution_run_id))
  | Service.Attributes_Failed failure new_execution_run_id =>
      let? failure :=
        ok_or failure
          (Error_Core (invalid_core "Temporal failed event omitted failure details")) in
      let? failure := map_err Error_Core (failure_from_core failure) in
      Ok (Outcome_Failed failure (successor new_execution_run_id))
  | Service.Attributes_Canceled details =>
      let? details := map_err Error_Core (payloads_from_core details) in
      Ok (Outcome_Cancelled details)
  | Service.Attributes_Terminated details =>
      let? details := map_err Error_Core (payloads_from_core details) in
      Ok (Outcome_Terminated details)
  | Service.Attributes_TimedOut new_execution_run_id =>
      Ok (Outcome_TimedOut (successor new_execution_run_id))
  | Service.Attributes_ContinuedAsNew new_execution_run_id =>
      let? successor :=
        ok_or (successor new_execution_run_id)
          (Error_Core (invalid_core "Temporal continued-as-new event omitted successor run ID")) in
      Ok (Outcome_ContinuedAsNew successor)
  | Service.Attributes_Other _ =>
      Err (Error_Core (unsupported "Temporal returned an unsupported close event"))
  end.

Definition wait_poll (request : WaitWorkflowRequest) (next_page_token : list byte) :
    CallRequest Service.HistoryRequest :=
  mkCallRequest
    (Service.mkHistoryRequest (wr_namespace request)
      (Some (Core.mkWorkflowExecution (wr_workflow_id request) (wr_run_id request)))
      0 next_page_token true (as_i32 Service.Filter_CloseEvent) false)
    None wait_retry_options None [(SUPPORTED_FEATURES_HEADER, FOLLOWS_NEXT_RUN_ID_FEATURE)].

Definition wait_result (request : WaitWorkflowRequest) (event : Service.HistoryEvent) :
    result WaitWorkflowResponse ClientOperationError :=
  let execution :=
    mkExecutionRef (wr_namespace request) (wr_workflow_id request) (wr_run_id request) in
  let? outcome := outcome_from_event event (wr_namespace request) (wr_workflow_id request) in
  let response := mkWaitWorkflowResponse execution outcome in
  let? _ :=
    map_err
      (λ _, Error_Core (invalid_core "Temporal close event violated client result invariants"))
      (validate_wait_response response) in
  Ok response.

(** The long polls have no timeout of the bridge's own. *)
Fixpoint wait_loop (request : WaitWorkflowRequest) (next_page_token : list byte)
    (answers : list (result (Service.HistoryResponse Service.HistoryEvent) Status)) :
    Run Service.HistoryRequest WaitWorkflowResponse :=
  match answers with
  | [] => (None, [])
  | answer :: answers =>
      after_call (wait_poll request next_page_token)
        match answer with
        | Err status => (Some (Err (map_rpc_status status)), [])
        | Ok response =>
            match last (default [] (Service.hp_history response)) with
            | Some event => (Some (wait_result request event), [])
            | None => wait_loop request (Service.hp_next_page_token response) answers
            end
        end
  end.

Definition wait_workflow (request : WaitWorkflowRequest)
    (answers : list (result (Service.HistoryResponse Service.HistoryEvent) Status)) :
    Run Service.HistoryRequest WaitWorkflowResponse :=
  wait_loop request [] answers.

End Loops.

(** ** Theorems *)

Section Theorems.
Context `{CoreEnums, ClientEnums}.
Context (identity : string).
Implicit Types (request : UpdateWorkflowRequest).

(** What a step of the loop does: it is out of time, it has no more answers, it
    ends with its call, or it goes on after the pause, before the deadline. *)
Lemma update_loop_step request message deadline now attempts :
  (deadline ≤ now ∧
    update_loop request message deadline now attempts = (Some (Err deadline_exceeded), [])) ∨
  now < deadline ∧
  match attempts with
  | [] => update_loop request message deadline now attempts = (None, [])
  | attempt :: rest =>
      let call := budgeted_request message (deadline - now) in
      (∃ error, update_loop request message deadline now attempts = (Some (Err error), [call])) ∨
      (∃ elapsed response converted,
        at_reply attempt = Replied elapsed (Ok response) ∧
        update_response_from_core request response = Ok converted ∧
        (is_Some (uw_outcome converted) ∨
         update_stage_is_accepted (Service.up_stage response) = Ok true) ∧
        update_loop request message deadline now attempts = (Some (Ok converted), [call])) ∨
      (∃ later, now + UPDATE_READMISSION_PAUSE ≤ later ∧
        update_loop request message deadline now attempts =
        after_call call (update_loop request message deadline later rest))
  end.
Proof.
  destruct (decide (deadline ≤ now)) as [Hle|Hlt].
  { left. split; [done|]. assert (deadline - now = 0) as Hz by lia.
    destruct attempts; cbn [update_loop]; by rewrite Hz. }
  right. split; [lia|]. assert ((deadline - now =? 0) = false) as Hz by (apply N.eqb_neq; lia).
  destruct attempts as [|attempt rest]; cbn [update_loop]; cbv zeta; rewrite Hz; [done|].
  destruct (at_reply attempt) as [elapsed [response|status]|]; [|left; by eexists..].
  destruct (update_response_from_core request response) as [converted|error] eqn:Hconv;
    [|left; by eexists].
  case_bool_decide as Hout; [right; left; by eauto 10|].
  destruct (update_stage_is_accepted _) as [[|]|error] eqn:Hstage;
    [right; left; by eauto 10| |left; by eexists].
  case_match; [left; by eexists|]. right. right. eexists. split; [|done]. lia.
Qed.

Lemma update_loop_calls request message deadline now attempts :
  let run := update_loop request message deadline now attempts in
  (run.2 ≠ [] → now + (N.of_nat (length run.2) - 1) * UPDATE_READMISSION_PAUSE < deadline) ∧
  (run.1 = None → now + N.of_nat (length attempts) * UPDATE_READMISSION_PAUSE < deadline) ∧
  Forall (λ call, ∃ left, call = budgeted_request message left ∧ 0 < left ≤ deadline - now) run.2.
Proof.
  revert now. induction attempts as [|attempt attempts IH]; intros now run; subst run.
  - destruct (update_loop_step request message deadline now []) as [[? ->]|[Hlt ->]]; [done|].
    split; [done|]. split; [simpl; lia|done].
  - destruct (update_loop_step request message deadline now (attempt :: attempts))
      as [[? ->]|[Hlt Hstep]]; [done|].
    assert (∃ left, budgeted_request message (deadline - now) = budgeted_request message left ∧
      0 < left ≤ deadline - now) as Hcall by (eexists; split; [done|lia]).
    destruct Hstep as [(error & ->)|[(? & ? & ? & _ & _ & _ & ->)|(later & Hlater & ->)]];
      [by split_and!; try done; [simpl; lia|by constructor]..|].
    destruct (IH later) as (Hcalls & Hnone & Hall). unfold after_call. cbn [fst snd length].
    split_and!.
    + intros _. destruct (update_loop _ _ _ later _).2 as [|call calls]; [simpl; lia|].
      specialize (Hcalls ltac:(done)). cbn [length] in *. lia.
    + intros Hn%Hnone. lia.
    + constructor; [done|]. eapply Forall_impl; [exact Hall|]. intros ? (left & -> & Hleft).
      exists left. split; [done|lia].
Qed.

(** C20: the admission of an update ends within its budget: it sends one and the same
    request at most once per pause of 100 ms (and once at the start), each time with
    a positive share of the budget as its deadline, and it has a result as soon as
    the service has answered that many times. *)
Theorem update_ends_within_budget request budget attempts :
  let attempts_allowed := budget / UPDATE_READMISSION_PAUSE + 1 in
  let run := update_workflow_within identity request budget attempts in
  N.of_nat (length run.2) ≤ attempts_allowed ∧
  (attempts_allowed ≤ N.of_nat (length attempts) → is_Some run.1) ∧
  Forall (λ call, ∃ message left, update_message identity request = Ok message ∧
    call = budgeted_request message left ∧ 0 < left ≤ budget) run.2.
Proof.
  intros allowed run. subst run. unfold update_workflow_within.
  destruct (update_message identity request) as [message|error]; [|simpl; split_and!; [lia|eauto|done]].
  destruct (update_loop_calls request message budget 0 attempts) as (Hcalls & Hnone & Hall).
  pose proof (N.div_mod budget UPDATE_READMISSION_PAUSE ltac:(done)) as Hdiv.
  pose proof (N.mod_lt budget UPDATE_READMISSION_PAUSE ltac:(done)) as Hmod.
  split_and!.
  - destruct (update_loop _ _ _ _ _).2 as [|call calls]; [simpl; lia|].
    specialize (Hcalls ltac:(done)). subst allowed. nia.
  - intros Hlen. destruct (update_loop _ _ _ _ _).1; [by eexists|].
    specialize (Hnone ltac:(done)). subst allowed. nia.
  - eapply Forall_impl; [exact Hall|]. intros ? (left & -> & Hleft). exists message, left.
    split; [done|]. split; [done|lia].
Qed.

(** The identity that a response keeps. *)
Lemma update_response_identity request response converted :
  update_response_from_core request response = Ok converted →
  uw_update_id converted = ur_update_id request ∧
  ex_namespace (uw_execution converted) = ur_namespace request ∧
  ex_workflow_id (uw_execution converted) = ur_workflow_id request ∧
  ex_run_id (uw_execution converted) ≠ "" ∧
  (ur_run_id request ≠ "" → ex_run_id (uw_execution converted) = ur_run_id request).
Proof.
  unfold update_response_from_core. rewrite bind_Ok. intros (update_ref & _ & H1).
  apply bind_Ok in H1 as (execution & _ & H1). cbv zeta in H1. revert H1.
  rewrite !guard_Ok, orb_false_iff, andb_false_iff, !negb_false_iff, !bool_decide_eq_true, bind_Ok.
  intros (Hid & [Hw Hrun] & Hne & outcome & _ & [= <-]). cbn [uw_update_id uw_execution].
  apply str_not_empty in Hne. split_and!; try done.
  intros Hr. apply str_not_empty in Hr. by destruct Hrun as [Hrun|]; [rewrite Hr in Hrun|].
Qed.

Lemma update_loop_answer request message deadline now attempts converted :
  (update_loop request message deadline now attempts).1 = Some (Ok converted) →
  ∃ attempt elapsed response, attempt ∈ attempts ∧ at_reply attempt = Replied elapsed (Ok response) ∧
    update_response_from_core request response = Ok converted ∧
    (is_Some (uw_outcome converted) ∨
     update_stage_is_accepted (Service.up_stage response) = Ok true).
Proof.
  revert now. induction attempts as [|attempt attempts IH]; intros now.
  - by destruct (update_loop_step request message deadline now []) as [[_ ->]|[_ ->]].
  - destruct (update_loop_step request message deadline now (attempt :: attempts))
      as [[_ ->]|[_ [(error & ->)|[(e & r & c & Hr & Hc & Hacc & ->)|(later & _ & ->)]]]]; try done.
    + intros [= <-]. exists attempt, e, r. split_and!; try done. set_solver.
    + intros (a & e & r & Ha & Hrest)%IH. exists a, e, r. set_solver.
Qed.

(** A handle to an update is given out only for an answer that carries its
    outcome or reports the stage Accepted, and it names the update, the workflow
    and, when the request named one, the run that were asked for; its run is never
    empty. *)
Theorem update_handle_accepted request budget attempts converted :
  (update_workflow_within identity request budget attempts).1 = Some (Ok converted) →
  (∃ attempt elapsed response, attempt ∈ attempts ∧ at_reply attempt = Replied elapsed (Ok response) ∧
    (is_Some (Service.up_outcome response) ∨
     try_from_i32 (Service.up_stage response) = Some Service.Stage_Accepted)) ∧
  uw_update_id converted = ur_update_id request ∧
  ex_namespace (uw_execution converted) = ur_namespace request ∧
  ex_workflow_id (uw_execution converted) = ur_workflow_id request ∧
  ex_run_id (uw_execution converted) ≠ "" ∧
  (ur_run_id request ≠ "" → ex_run_id (uw_execution converted) = ur_run_id request).
Proof.
  unfold update_workflow_within. destruct (update_message identity request) as [message|]; [|done].
  intros (attempt & elapsed & response & Hin & Hr & Hconv & Hacc)%update_loop_answer.
  split; [|by eapply update_response_identity].
  exists attempt, elapsed, response. split; [done|]. split; [done|].
  destruct Hacc as [Hout|Hstage]; [left|right].
  - unfold update_response_from_core in Hconv. destruct (Service.up_outcome response); [by eexists|].
    rewrite bind_Ok in Hconv. destruct Hconv as (? & _ & Hc). apply bind_Ok in Hc as (? & _ & Hc).
    cbv zeta in Hc. rewrite !guard_Ok in Hc. destruct Hc as (_ & _ & _ & [= <-]). by destruct Hout.
  - unfold update_stage_is_accepted in Hstage.
    by destruct (try_from_i32 _) as [[]|].
Qed.

End Theorems.

(** ** History *)

Section HistoryTheorems.
Context `{ClientEnums}.
Context {Event : Type}.
Context (encode_to_vec : list Event → list byte) (history_decode : list byte → option (list Event)).

(** The messages of a repeated field append: decoding an encoding before other
    bytes gives its events first. *)
Definition appends : Prop :=
  history_decode [] = Some [] ∧
  ∀ events rest, history_decode (encode_to_vec events ++ rest) = app events <$> history_decode rest.

Definition page_events (page : Service.HistoryResponse Event) : list Event :=
  default [] (Service.hp_history page).

Definition page_bytes (page : Service.HistoryResponse Event) : list byte :=
  match page_events page with [] => [] | events => encode_to_vec events end.

(** A service that answers each call with the next page. *)
Definition answering (page : N * Service.HistoryResponse Event) :
    Reply (Service.HistoryResponse Event) :=
  Replied page.1 (Ok page.2).

Lemma append_page_bytes encoded page :
  bytes_len encoded ≤ MAX_PAYLOAD_BYTES →
  append_page encode_to_vec encoded (Service.hp_history page) =
  if MAX_PAYLOAD_BYTES <? bytes_len (encoded ++ page_bytes page) then
    Err (Error_Core (invalid_core "workflow history exceeds the bridge payload limit"))
  else Ok (encoded ++ page_bytes page).
Proof.
  intros Hle. unfold append_page, page_bytes, page_events, bytes_len in *. rewrite length_app, Nat2N.inj_add.
  destruct (Service.hp_history page) as [[|event events]|]; cbn [default length]; try done;
    rewrite app_nil_r, N.add_0_r; by rewrite (proj2 (N.ltb_ge _ _) Hle).
Qed.

Lemma history_loop_pages request budget encoded token pages final :
  bytes_len encoded ≤ MAX_PAYLOAD_BYTES →
  Forall (λ page, Service.hp_next_page_token page.2 ≠ []) pages →
  Service.hp_next_page_token final.2 = [] →
  let total := encoded ++ concat (map (λ page, page_bytes page.2) (pages ++ [final])) in
  let run := history_loop encode_to_vec request budget encoded token
    (map answering (pages ++ [final])) in
  run.1 = Some (if MAX_PAYLOAD_BYTES <? bytes_len total then
      Err (Error_Core (invalid_core "workflow history exceeds the bridge payload limit"))
    else finish_history total) ∧
  (bytes_len total ≤ MAX_PAYLOAD_BYTES →
   run.2 = map (λ token, budgeted_request (history_message request token) budget)
     (token :: map (λ page, Service.hp_next_page_token page.2) pages)).
Proof.
  intros Hle Htokens Hfinal. revert encoded token Hle.
  induction Htokens as [|page pages Hpage _ IH]; intros encoded token Hle total run; subst total run;
    cbn [map app concat history_loop answering budgeted_reply map_err after_call fst snd].
  - rewrite append_page_bytes, app_nil_r by done.
    destruct (N.ltb_spec MAX_PAYLOAD_BYTES (bytes_len (encoded ++ page_bytes final.2))); [done|].
    rewrite Hfinal. done.
  - rewrite append_page_bytes, app_assoc by done.
    destruct (N.ltb_spec MAX_PAYLOAD_BYTES (bytes_len (encoded ++ page_bytes page.2))) as [Hgt|Hfit].
    + assert (∀ rest, MAX_PAYLOAD_BYTES < bytes_len ((encoded ++ page_bytes page.2) ++ rest)) as Hall.
      { intros rest. unfold bytes_len in *. rewrite length_app, Nat2N.inj_add. lia. }
      cbn [fst]. rewrite (proj2 (N.ltb_lt _ _) (Hall _)).
      split; [done|]. intros Hcontra. specialize (Hall (concat (map (λ page, page_bytes page.2) (pages ++ [final])))). lia.
    + rewrite bool_decide_false by done.
      destruct (IH (encoded ++ page_bytes page.2) (Service.hp_next_page_token page.2) Hfit)
        as [Hres Hcalls]. cbv zeta in *. split; [done|]. intros Htotal.
      cbn [map]. by rewrite Hcalls.
Qed.

Lemma decode_pages pages :
  appends →
  history_decode (concat (map page_bytes pages)) = Some (concat (map page_events pages)).
Proof.
  intros [Hnil Happ]. induction pages as [|page pages IH]; [done|]. cbn [map concat].
  unfold page_bytes at 1. destruct (page_events page) as [|event events]; [done|].
  by rewrite Happ, IH.
Qed.

(** C21: the fetch of a history that the service gives page by page, with a token on
    each page but the last, returns the encodings of the pages in order, which
    decode to all their events, unless they are empty or exceed the payload limit
    together, which are its two errors; and it asks for each page with the token of
    the page before, the first with none. *)
Theorem fetch_history_complete request pages final :
  appends →
  Forall (λ page, Service.hp_next_page_token page.2 ≠ []) pages →
  Service.hp_next_page_token final.2 = [] →
  let all := map snd (pages ++ [final]) in
  let total := concat (map page_bytes all) in
  let run := fetch_history encode_to_vec request (map answering (pages ++ [final])) in
  history_decode total = Some (concat (map page_events all)) ∧
  run.1 = Some (if MAX_PAYLOAD_BYTES <? bytes_len total then
      Err (Error_Core (invalid_core "workflow history exceeds the bridge payload limit"))
    else if bool_decide (total = []) then
      Err (Error_Core (invalid_core "Temporal returned a workflow history with no events"))
    else Ok total) ∧
  (bytes_len total ≤ MAX_PAYLOAD_BYTES →
   map (λ call, Service.h_next_page_token (rq_message call)) run.2 =
   [] :: map (λ page, Service.hp_next_page_token page.2) pages).
Proof.
  intros Happ Htokens Hfinal all total run. split; [by apply decode_pages|].
  destruct (history_loop_pages request
    (rpc_budget (hr_rpc_timeout_ms request) HISTORY_PAGE_RPC_TIMEOUT) [] [] pages final)
    as [Hres Hcalls]; [by vm_compute|done|done|].
  assert (concat (map (λ page, page_bytes page.2) (pages ++ [final])) = total) as Htotal
    by (unfold total, all; by rewrite map_map).
  cbv zeta in *. rewrite app_nil_l, Htotal in Hres, Hcalls.
  split; [exact Hres|]. intros Hle. unfold run, fetch_history. rewrite Hcalls by done.
  by rewrite map_map, map_id.
Qed.

End HistoryTheorems.

(** ** Wait *)

Section WaitTheorems.
Context `{CoreEnums, ClientEnums}.
Implicit Types (page : Service.HistoryResponse Service.HistoryEvent).

Lemma wait_loop_answer request token answers r :
  (wait_loop request token answers).1 = Some (Ok r) →
  ∃ skipped page event rest,
    answers = map Ok skipped ++ Ok page :: rest ∧
    Forall (λ page, default [] (Service.hp_history page) = []) skipped ∧
    last (default [] (Service.hp_history page)) = Some event ∧
    wait_result request event = Ok r ∧
    (wait_loop request token answers).2 =
    map (wait_poll request) (token :: map Service.hp_next_page_token skipped).
Proof.
  revert token. induction answers as [|[page|status] answers IH]; intros token;
    cbn [wait_loop after_call fst snd]; [done| |done].
  destruct (last (default [] (Service.hp_history page))) as [event|] eqn:Hlast.
  - intros [= Hr]. by exists [], page, event, answers.
  - intros (skipped & page' & event & rest & -> & Hall & Hevent & Hr & ->)%IH.
    exists (page :: skipped), page', event, rest. split_and!; try done.
    constructor; [by apply last_None|done].
Qed.

(** C19: a wait returns the outcome of the last event of the first page that has
    one, with the execution that was asked for.  Every poll names that execution,
    asks for the close event and carries the token of the page before.  A successor
    that the outcome names is another run of the same workflow; the wait never
    looks at it. *)
Theorem wait_observes_one_run request answers r :
  (wait_workflow request answers).1 = Some (Ok r) →
  let execution :=
    mkExecutionRef (wr_namespace request) (wr_workflow_id request) (wr_run_id request) in
  ww_execution r = execution ∧
  (∃ skipped page event rest,
    answers = map Ok skipped ++ Ok page :: rest ∧
    Forall (λ page, default [] (Service.hp_history page) = []) skipped ∧
    last (default [] (Service.hp_history page)) = Some event ∧
    outcome_from_event event (wr_namespace request) (wr_workflow_id request) = Ok (ww_outcome r) ∧
    (wait_workflow request answers).2 =
    map (wait_poll request) ([] :: map Service.hp_next_page_token skipped)) ∧
  ∀ s, outcome_successor (ww_outcome r) = Some s →
  su_namespace s = ex_namespace execution ∧ su_workflow_id s = ex_workflow_id execution ∧
  su_run_id s ≠ "" ∧ su_run_id s ≠ ex_run_id execution.
Proof.
  intros (skipped & page & event & rest & Ha & Hall & Hlast & Hr & Hcalls)%wait_loop_answer.
  unfold wait_result in Hr. cbv zeta in Hr. apply bind_Ok in Hr as (outcome & Hout & Hr).
  rewrite seq_Ok, map_err_Ok in Hr. destruct Hr as [Hvalid [= <-]].
  intros execution. split; [done|]. split; [by exists skipped, page, event, rest|].
  intros s Hs. destruct (validate_wait_response_Ok _ Hvalid s Hs) as (? & ? & [] & ?). done.
Qed.

End WaitTheorems.
