(* ===== verification/ClientDocuments.v ===== *)
(** * Client documents

    The readers of client requests and the writers of client responses in
    src/rust/core-bridge/src/client_protocol.rs, and the outcome of a start that
    abi.rs reports.  The derived reader and writer of a document type, through
    [serde_json::from_str] and [serde_json::to_string], are the class
    [JsonText]. *)

From S2P Require Import Prelude.
From S2P Require Import Text.
From S2P Require Import Protocol.
From S2P Require Import WorkflowTypes.
From S2P Require Import CoreMessages.
From S2P Require Import WorkflowChecks.
From S2P Require Import CoreConversion.
From S2P Require Import ClientTypes.
From S2P Require Import ClientChecks.
From S2P Require Import ClientStatus.
From S2P Require Import ClientMessages.
From S2P Require Import ClientOperations.
Local Open Scope N_scope.
Local Open Scope bridge_scope.

Class JsonText (A : Type) := {
  from_str : string → option A;
  to_string : A → option string
}.

(** ** Equality of documents *)

#[global] Instance Payload_eq_dec : EqDecision Payload.
Proof. solve_decision. Defined.
#[global] Instance Duration_eq_dec : EqDecision Duration.
Proof. solve_decision. Defined.
#[global] Instance RetryPolicy_eq_dec : EqDecision RetryPolicy.
Proof. solve_decision. Defined.
#[global] Instance SemanticRetryState_eq_dec : EqDecision RetryState.
Proof. solve_decision. Defined.
#[global] Instance SemanticTimeoutType_eq_dec : EqDecision TimeoutType.
Proof. solve_decision. Defined.
#[global] Instance ApplicationFailureCategory_eq_dec : EqDecision ApplicationFailureCategory.
Proof. solve_decision. Defined.
#[global] Instance NexusHandlerRetryBehavior_eq_dec : EqDecision NexusHandlerRetryBehavior.
Proof. solve_decision. Defined.
#[global] Instance NexusOperationFailure_eq_dec : EqDecision NexusOperationFailure.
Proof. solve_decision. Defined.
#[global] Instance FailureInfo_eq_dec : EqDecision FailureInfo.
Proof. solve_decision. Defined.
#[global] Instance Failure_eq_dec : EqDecision Failure.
Proof.
  refine (fix go (x y : Failure) : Decision (x = y) :=
    match x, y with
    | mkFailure m1 s1 t1 e1 c1 i1, mkFailure m2 s2 t2 e2 c2 i2 =>
        cast_if_and6 (decide (m1 = m2)) (decide (s1 = s2)) (decide (t1 = t2)) (decide (e1 = e2))
          (match c1, c2 return Decision (c1 = c2) with
           | None, None => left eq_refl
           | Some f1, Some f2 => cast_if (go f1 f2)
           | _, _ => right _
           end)
          (decide (i1 = i2))
    end); congruence.
Defined.
#[global] Instance ExecutionRef_eq_dec : EqDecision ExecutionRef.
Proof. solve_decision. Defined.
#[global] Instance MetadataField_eq_dec : EqDecision MetadataField.
Proof. solve_decision. Defined.
#[global] Instance IdConflictPolicy_eq_dec : EqDecision IdConflictPolicy.
Proof. solve_decision. Defined.
#[global] Instance IdReusePolicy_eq_dec : EqDecision IdReusePolicy.
Proof. solve_decision. Defined.
#[global] Instance StartWorkflowRequest_eq_dec : EqDecision StartWorkflowRequest.
Proof. solve_decision. Defined.
#[global] Instance StartTicketDocument_eq_dec : EqDecision StartTicketDocument.
Proof. solve_decision. Defined.
#[global] Instance StartWorkflowResponse_eq_dec : EqDecision StartWorkflowResponse.
Proof. solve_decision. Defined.
#[global] Instance CancelWorkflowResponse_eq_dec : EqDecision CancelWorkflowResponse.
Proof. solve_decision. Defined.
#[global] Instance TerminateWorkflowResponse_eq_dec : EqDecision TerminateWorkflowResponse.
Proof. solve_decision. Defined.
#[global] Instance ResetWorkflowResponse_eq_dec : EqDecision ResetWorkflowResponse.
Proof. solve_decision. Defined.
#[global] Instance SignalWorkflowResponse_eq_dec : EqDecision SignalWorkflowResponse.
Proof. solve_decision. Defined.
#[global] Instance QueryWorkflowResponse_eq_dec : EqDecision QueryWorkflowResponse.
Proof. solve_decision. Defined.
#[global] Instance UpdateOutcome_eq_dec : EqDecision UpdateOutcome.
Proof. solve_decision. Defined.
#[global] Instance UpdateWorkflowResponse_eq_dec : EqDecision UpdateWorkflowResponse.
Proof. solve_decision. Defined.
#[global] Instance PollWorkflowUpdateResponse_eq_dec : EqDecision PollWorkflowUpdateResponse.
Proof. solve_decision. Defined.
#[global] Instance VisibilityExecution_eq_dec : EqDecision VisibilityExecution.
Proof. solve_decision. Defined.
#[global] Instance VisibilityPage_eq_dec : EqDecision VisibilityPage.
Proof. solve_decision. Defined.
#[global] Instance SuccessorRef_eq_dec : EqDecision SuccessorRef.
Proof. solve_decision. Defined.
#[global] Instance WorkflowOutcome_eq_dec : EqDecision WorkflowOutcome.
Proof. solve_decision. Defined.
#[global] Instance WaitWorkflowResponse_eq_dec : EqDecision WaitWorkflowResponse.
Proof. solve_decision. Defined.
#[global] Instance ClientErrorDocument_eq_dec : EqDecision ClientErrorDocument.
Proof. solve_decision. Defined.
#[global] Instance StartWorkflowOutcomeDocument_eq_dec : EqDecision StartWorkflowOutcomeDocument.
Proof. solve_decision. Defined.

(** ** Identity of start requests *)

Definition with_rpc_timeout (timeout : option N) (r : StartWorkflowRequest) : StartWorkflowRequest :=
  mkStartWorkflowRequest (sr_request_id r) (sr_namespace r) (sr_workflow_id r) (sr_workflow_type r)
    (sr_task_queue r) (sr_input r) (sr_memo r) (sr_search_attributes r) (sr_id_conflict_policy r)
    (sr_id_reuse_policy r) (sr_execution_timeout_ms r) (sr_run_timeout_ms r) (sr_task_timeout_ms r)
    (sr_retry_policy r) timeout.

Definition same_start_request (l r : StartWorkflowRequest) : bool :=
  bool_decide (with_rpc_timeout None l = with_rpc_timeout None r).

(** ** Errors as documents *)

Definition error_document (error : ClientOperationError) : ClientErrorDocument :=
  match error with
  | Error_AlreadyStarted workflow_id existing_run_id =>
      Document_AlreadyStarted workflow_id existing_run_id
  | Error_Rpc code => Document_Rpc code
  | Error_QueryFailed message => Document_QueryFailed message
  | Error_Core conversion =>
      Document_Protocol
        match ce_code conversion with
        | Unsupported => "core_unsupported"
        | InvalidCore => "core_invalid"
        end
  end.

Definition validate_start_outcome_document (document : StartWorkflowOutcomeDocument) :
    result () ProtocolError :=
  match document with
  | Document_Accepted execution _ => validate_execution execution "$.execution"
  | Document_Rejected error =>
      match error with
      | Document_AlreadyStarted workflow_id existing_run_id =>
          let? _ := validate_identifier workflow_id "$.error.workflow_id" in
          try_some (λ run_id, validate_identifier run_id "$.error.existing_run_id") existing_run_id
      | Document_Rpc code => validate_identifier code "$.error.code"
      | Document_Protocol code => validate_identifier code "$.error.code"
      | Document_QueryFailed _ =>
          Err (invalid "$.error.kind" "query_failed is not a valid start rejection")
      end
  | Document_Unknown request_id workflow_id =>
      let? _ := validate_identifier request_id "$.request_id" in
      validate_identifier workflow_id "$.workflow_id"
  end.

Definition start_outcome_document (outcome : StartWorkflowOutcome) : StartWorkflowOutcomeDocument :=
  match outcome with
  | Start_Accepted response => Document_Accepted (sp_execution response) (sp_started response)
  | Start_Rejected error => Document_Rejected (error_document error)
  | Start_Unknown request_id workflow_id => Document_Unknown request_id workflow_id
  end.

Section Documents.
Context `{SerdeJson} `{Base64}.

Definition decode_request {A} `{JsonText A} (input : string)
    (parse : string → result JsonValue ProtocolError) (message : string)
    (validate : A → result () ProtocolError) : result A ProtocolError :=
  let? _ := parse input in
  let? request := ok_or (from_str input) (invalid "$" message) in
  let? _ := validate request in
  Ok request.

Definition encode_document {A} `{JsonText A, EqDecision A} (value : A) :
    result string ProtocolError :=
  let? output := ok_or (to_string value) (invalid "$" "could not encode client JSON") in
  let? _ := decode_payload_object output in
  let? reparsed := ok_or (from_str output) (invalid "$" "client JSON did not round trip") in
  if decide (reparsed = value) then Ok output
  else Err (invalid "$" "client JSON did not preserve its typed value").

(** ** Requests *)

Context `{JsonText StartWorkflowRequest, JsonText WaitWorkflowRequest}.
Context `{JsonText CancelWorkflowRequest, JsonText TerminateWorkflowRequest}.
Context `{JsonText ResetWorkflowRequest, JsonText SignalWorkflowRequest}.
Context `{JsonText QueryWorkflowRequest, JsonText UpdateWorkflowRequest}.
Context `{JsonText PollWorkflowUpdateRequest, JsonText VisibilityRequest, JsonText HistoryRequest}.

Definition decode_start_request (input : string) : result StartWorkflowRequest ProtocolError :=
  decode_request input decode_payload_object "invalid client start request" validate_start_request.

Definition decode_wait_request (input : string) : result WaitWorkflowRequest ProtocolError :=
  decode_request input decode_object "invalid client wait request" validate_wait_request.

Definition decode_cancel_request (input : string) : result CancelWorkflowRequest ProtocolError :=
  decode_request input decode_object "invalid client cancel request" validate_cancel_request.

Definition decode_terminate_request (input : string) :
    result TerminateWorkflowRequest ProtocolError :=
  decode_request input decode_object "invalid client terminate request" validate_terminate_request.

Definition decode_reset_request (input : string) : result ResetWorkflowRequest ProtocolError :=
  decode_request input decode_object "invalid client reset request" validate_reset_request.

Definition decode_signal_request (input : string) : result SignalWorkflowRequest ProtocolError :=
  decode_request input decode_payload_object "invalid client signal request"
    validate_signal_request.

Definition decode_query_request (input : string) : result QueryWorkflowRequest ProtocolError :=
  decode_request input decode_payload_object "invalid client query request" validate_query_request.

Definition decode_update_request (input : string) : result UpdateWorkflowRequest ProtocolError :=
  decode_request input decode_payload_object "invalid client update request"
    validate_update_request.

Definition decode_poll_update_request (input : string) :
    result PollWorkflowUpdateRequest ProtocolError :=
  decode_request input decode_object "invalid client update poll request"
    validate_poll_update_request.

Definition decode_visibility_request (input : string) : result VisibilityRequest ProtocolError :=
  decode_request input decode_object "invalid visibility request" validate_visibility_request.

Definition decode_history_request (input : string) : result HistoryRequest ProtocolError :=
  decode_request input decode_object "invalid history request" validate_history_request.

(** ** Responses *)

Context `{JsonText StartTicketDocument, JsonText StartWorkflowResponse}.
Context `{JsonText CancelWorkflowResponse, JsonText TerminateWorkflowResponse}.
Context `{JsonText ResetWorkflowResponse, JsonText SignalWorkflowResponse}.
Context `{JsonText QueryWorkflowResponse, JsonText UpdateWorkflowResponse}.
Context `{JsonText PollWorkflowUpdateResponse, JsonText VisibilityPage}.
Context `{JsonText WaitWorkflowResponse, JsonText StartWorkflowOutcomeDocument}.
Context `{JsonText ClientErrorDocument}.

(** The text that [to_json] falls back to. *)
Definition internal_error_text : string :=
  "{" +:+ fixed_member "kind" (in_quotes "rpc") +:+ "," +:+
  fixed_member "code" (in_quotes "internal") +:+ "}".

Definition to_json (error : ClientOperationError) : string :=
  default internal_error_text (to_string (error_document error)).

Definition decode_start_ticket (input : string) : result string ProtocolError :=
  let? _ := decode_object input in
  let? document := ok_or (from_str input) (invalid "$" "invalid start ticket") in
  let? _ := validate_identifier (td_ticket document) "$.ticket" in
  Ok (td_ticket document).

Definition encode_start_ticket (ticket : string) : result string ProtocolError :=
  let? _ := validate_identifier ticket "$.ticket" in
  encode_document (mkStartTicketDocument ticket).

Definition encode_start_response (response : StartWorkflowResponse) : result string ProtocolError :=
  let? _ := validate_execution (sp_execution response) "$.execution" in
  encode_document response.

Definition encode_reset_response (response : ResetWorkflowResponse) : result string ProtocolError :=
  let execution := rw_execution response in
  let? _ := validate_identifier (ex_namespace execution) "$.execution.namespace" in
  let? _ := validate_identifier (ex_workflow_id execution) "$.execution.workflow_id" in
  let? _ := validate_identifier (ex_run_id execution) "$.execution.run_id" in
  encode_document response.

Definition encode_cancel_response (response : CancelWorkflowResponse) :
    result string ProtocolError :=
  if negb (cw_acknowledged response) then
    Err (invalid "$.acknowledged" "cancellation acknowledgement must be true")
  else encode_document response.

Definition encode_terminate_response (response : TerminateWorkflowResponse) :
    result string ProtocolError :=
  if negb (tw_acknowledged response) then
    Err (invalid "$.acknowledged" "termination acknowledgement must be true")
  else encode_document response.

Definition encode_signal_response (response : SignalWorkflowResponse) :
    result string ProtocolError :=
  if negb (gw_acknowledged response) then
    Err (invalid "$.acknowledged" "signal acknowledgement must be true")
  else encode_document response.

Definition encode_query_response (response : QueryWorkflowResponse) : result string ProtocolError :=
  let? _ := validate_query_response response in
  encode_document response.

Definition encode_update_response (response : UpdateWorkflowResponse) :
    result string ProtocolError :=
  let? _ := validate_update_response response in
  encode_document response.

Definition encode_poll_update_response (response : PollWorkflowUpdateResponse) :
    result string ProtocolError :=
  let? _ := validate_poll_update_response response in
  encode_document response.

Definition encode_visibility_response (response : VisibilityPage) : result string ProtocolError :=
  let? _ := validate_visibility_page response in
  encode_document response.

Definition encode_wait_response (response : WaitWorkflowResponse) : result string ProtocolError :=
  let? _ := validate_wait_response response in
  encode_document response.

(** ** The outcome of a start *)

Definition encode_start_outcome (outcome : StartWorkflowOutcome) : result string ProtocolError :=
  let document := start_outcome_document outcome in
  let? _ := validate_start_outcome_document document in
  encode_document document.

(** What the supervisor makes of the result of a start task. *)
Definition start_outcome (request : StartWorkflowRequest)
    (r : option (result StartWorkflowResponse ClientOperationError)) : StartWorkflowOutcome :=
  let unknown := Start_Unknown (sr_request_id request) (sr_workflow_id request) in
  match r with
  | Some (Ok response) => Start_Accepted response
  | Some (Err error) => if uncertain_start error then unknown else Start_Rejected error
  | None => unknown
  end.

Definition start_outcome_bytes (request : StartWorkflowRequest)
    (r : option (result StartWorkflowResponse ClientOperationError)) : result string ProtocolError :=
  match encode_start_outcome (start_outcome request r) with
  | Ok encoded => Ok encoded
  | Err _ => encode_start_outcome (Start_Unknown (sr_request_id request) (sr_workflow_id request))
  end.

End Documents.

(** ** Theorems *)

(** Two requests are the same start exactly when they differ at most in the time
    the caller waits for the call. *)
Lemma same_start_request_spec l r :
  same_start_request l r = true ↔ r = with_rpc_timeout (sr_rpc_timeout_ms r) l.
Proof.
  unfold same_start_request. rewrite bool_decide_eq_true. destruct l, r.
  unfold with_rpc_timeout; simpl. split; [by intros [= -> -> -> -> -> -> -> -> -> -> -> -> -> ->]|].
  by intros [= -> -> -> -> -> -> -> -> -> -> -> -> -> ->].
Qed.

Section DocumentTheorems.
Context `{SerdeJson} `{Base64}.

Lemma decode_request_Ok {A} `{JsonText A} input parse message validate (a : A) :
  decode_request input parse message validate = Ok a ↔
  (∃ tree, parse input = Ok tree) ∧ from_str input = Some a ∧ validate a = Ok tt.
Proof.
  unfold decode_request. rewrite bind_Ok. setoid_rewrite bind_Ok. setoid_rewrite ok_or_Ok.
  setoid_rewrite seq_Ok. naive_solver.
Qed.

Lemma encode_document_Ok {A} `{JsonText A, EqDecision A} (a : A) text :
  encode_document a = Ok text →
  (∃ tree, decode_payload_object text = Ok tree) ∧ from_str text = Some a.
Proof.
  unfold encode_document. rewrite bind_Ok. intros (output & _ & Hout).
  apply bind_Ok in Hout as (tree & Htree & Hout).
  apply bind_Ok in Hout as (reparsed & Hre%ok_or_Ok & Hout).
  destruct (decide (reparsed = a)) as [->|]; [|done]. injection Hout as <-. eauto.
Qed.

(** What a written response promises to its reader. *)
Definition readable {A} `{JsonText A} (a : A) (text : string) : Prop :=
  (∃ tree, decode_payload_object text = Ok tree) ∧ from_str text = Some a.

(** A response that leaves the bridge passed its check and is read back as
    itself, both by the strict parser and by the typed reader; an acknowledgement
    that leaves it is positive. *)
Theorem responses_read_back `{JsonText StartWorkflowResponse, JsonText ResetWorkflowResponse}
    `{JsonText CancelWorkflowResponse, JsonText UpdateWorkflowResponse}
    `{JsonText VisibilityPage, JsonText WaitWorkflowResponse} text :
  (∀ r, encode_start_response r = Ok text →
    validate_execution (sp_execution r) "$.execution" = Ok tt ∧ readable r text) ∧
  (∀ r, encode_reset_response r = Ok text → is_name (ex_run_id (rw_execution r)) ∧ readable r text) ∧
  (∀ r, encode_cancel_response r = Ok text → r = mkCancelWorkflowResponse true ∧ readable r text) ∧
  (∀ r, encode_update_response r = Ok text → validate_update_response r = Ok tt ∧ readable r text) ∧
  (∀ r, encode_visibility_response r = Ok text →
    validate_visibility_page r = Ok tt ∧ readable r text) ∧
  (∀ r, encode_wait_response r = Ok text → validate_wait_response r = Ok tt ∧ readable r text).
Proof.
  unfold encode_start_response, encode_reset_response, encode_cancel_response,
    encode_update_response, encode_visibility_response, encode_wait_response.
  cbv zeta. split_and!; intros r; rewrite ?seq_Ok, ?guard_Ok.
  - intros [? ?%encode_document_Ok]. done.
  - intros (_ & _ & Hrun%validate_identifier_Ok & ?%encode_document_Ok). done.
  - intros [Hack%negb_false_iff ?%encode_document_Ok]. destruct r as [ack]. simpl in Hack. by subst ack.
  - intros [? ?%encode_document_Ok]. done.
  - intros [? ?%encode_document_Ok]. done.
  - intros [? ?%encode_document_Ok]. done.
Qed.

End DocumentTheorems.

(** ** The outcome of a start *)

Section StartTheorems.
Context `{CoreEnums, ClientEnums, StatusDetails}.
Context (identity : string).

(** The statuses that prove that a start was not accepted. *)
Definition definite (code : Code) : Prop :=
  code ∈ [Code_Ok; Code_InvalidArgument; Code_NotFound; Code_AlreadyExists; Code_PermissionDenied;
    Code_FailedPrecondition; Code_OutOfRange; Code_Unimplemented; Code_Unauthenticated].

Lemma definite_code code : uncertain_start (Error_Rpc (rpc_code code)) = false → definite code.
Proof.
  unfold uncertain_start, definite. rewrite bool_decide_eq_false. destruct code; simpl; set_solver.
Qed.

(** A computation that fails only in conversions. *)
Definition converts {A} (r : result A ClientOperationError) : Prop :=
  ∀ error, r = Err error → ∃ conversion, error = Error_Core conversion.

Lemma converts_bind {A B} (c : result A ClientOperationError) (k : A → result B ClientOperationError) :
  converts c → (∀ a, converts (k a)) →
  converts (match c with Ok a => k a | Err e => Err e end).
Proof. intros Hc Hk error. destruct c; [apply Hk|by intros [= <-]; apply Hc]. Qed.

Lemma converts_map_err {A} (r : result A CoreConversionError) : converts (map_err Error_Core r).
Proof. destruct r; [done|]. intros error [= <-]. by eexists. Qed.

Lemma converts_milliseconds o : converts (optional_milliseconds_to_core o).
Proof.
  assert (∀ ms, converts (milliseconds_to_core ms)) as Hms.
  { intros ms. unfold milliseconds_to_core. cbv zeta.
    repeat (apply converts_bind; [|intros ?]); try (by intros ? [=]);
      case_match; intros ? [= <-]; by eexists. }
  destruct o as [ms|]; [|done]. apply (converts_bind (milliseconds_to_core ms)); [apply Hms|done].
Qed.

Lemma converts_start_message request : converts (start_message identity request).
Proof.
  unfold start_message.
  repeat (apply converts_bind; [apply converts_map_err || apply converts_milliseconds|intros ?]).
  by intros ? [=].
Qed.

(** A certain error of a start is a status of the service. *)
Lemma start_error_definite rpc request error :
  start_workflow identity rpc request = Err error → uncertain_start error = false →
  ∃ call elapsed status, rpc call = Replied elapsed (Err status) ∧ definite (st_code status) ∧
    error = map_start_status (sr_workflow_id request) status.
Proof.
  unfold start_workflow. destruct (start_message identity request) as [m|e] eqn:Hm.
  2: { intros [= <-]. by destruct (converts_start_message request e Hm) as (c & ->). }
  set (call := budgeted_request m _). destruct (rpc call) as [elapsed [response|status]|] eqn:Hrpc;
    cbn [budgeted_reply map_err].
  - unfold start_response. cbv zeta. case_match; [by intros [= <-]|].
    destruct (validate_execution _ _); cbn [map_err]; [done|by intros [= <-]].
  - intros [= <-] Hcertain. exists call, elapsed, status. split; [done|]. revert Hcertain.
    unfold budget_status. case_match; [done|]. unfold map_start_status.
    case_bool_decide as Hcode; intros Hcertain; (split; [|done]).
    + rewrite Hcode. unfold definite. set_solver.
    + by apply definite_code.
  - by intros [= <-].
Qed.


(** The report of a start is not lost: it is written whenever a report of an
    unknown outcome can be, and what is written reads back as the report that was
    made or as one that the outcome is unknown, with the names of the request. *)
Theorem start_report_kept `{SerdeJson} `{Base64} `{JsonText StartWorkflowOutcomeDocument} request r :
  let unknown := Start_Unknown (sr_request_id request) (sr_workflow_id request) in
  (is_ok (encode_start_outcome unknown) = true → is_ok (start_outcome_bytes request r) = true) ∧
  ∀ text, start_outcome_bytes request r = Ok text →
  from_str text = Some (start_outcome_document (start_outcome request r)) ∨
  from_str text = Some (start_outcome_document unknown).
Proof.
  intros unknown. unfold start_outcome_bytes. fold unknown.
  assert (∀ outcome text, encode_start_outcome outcome = Ok text →
    from_str text = Some (start_outcome_document outcome)) as Hread.
  { intros outcome text. unfold encode_start_outcome. cbv zeta. rewrite seq_Ok.
    by intros [_ [_ ?]%encode_document_Ok]. }
  destruct (encode_start_outcome (start_outcome request r)) as [encoded|e] eqn:Hfirst.
  - split; [done|]. intros text [= <-]. left. by apply Hread.
  - split; [done|]. intros text Htext. right. by apply Hread.
Qed.

End StartTheorems.
