(* ===== verification/Diagnostics.v ===== *)
(** * Diagnostics

    src/rust/core-bridge/src/diagnostics.rs: bounded single-line text, the lines
    of Core's log with their queue and writer, the level chosen by the operator,
    and the description of a failed connection.  An error with its sources is the
    list of its links, and the environment variable, the values of log fields and
    the outcome of waiting for the writer are inputs. *)

From stdpp Require Import pretty.
From Stdlib Require Import Ascii.
From S2P Require Import Prelude.
From S2P Require Import Text.
From S2P Require Import Protocol.
From S2P Require Import WorkflowTypes.
From S2P Require Import WorkflowChecks.
From S2P Require Import ClientStatus.
Local Open Scope N_scope.

Definition MAX_CONNECTION_DETAIL_BYTES : N := 512.
Definition MAX_CORE_LOG_LINE_BYTES : N := 2048.
Definition MAX_SOURCE_DEPTH : nat := 8.
Definition TRUNCATED_MARKER : string := "...[truncated]".
Definition CORE_LOG_ENV : string := "OCAML_TEMPORAL_CORE_LOG".

(** ** Bounded text *)

(** [char::is_control]: U+0000 to U+001F and U+007F to U+009F. *)
Definition is_control (character : string) : bool :=
  match character with
  | String a EmptyString => between 0 0x1F a || between 0x7F 0x7F a
  | String a (String b EmptyString) => between 0xC2 0xC2 a && between 0x80 0x9F b
  | _ => false
  end.

Definition hex_digit (n : N) : ascii :=
  if n <? 10 then ascii_of_N (0x30 + n) else ascii_of_N (0x61 + (n - 10)).

(** [char::escape_default] of a control character. *)
Definition escape_default (character : string) : string :=
  let code :=
    match character with
    | String a EmptyString => N_of_ascii a
    | String _ (String b EmptyString) => N_of_ascii b
    | _ => 0
    end in
  if code =? 9 then "\t"
  else if code =? 13 then "\r"
  else if code =? 10 then "\n"
  else
    "\u{" +:+
    (if code <? 16 then String (hex_digit code) ""
     else String (hex_digit (code / 16)) (String (hex_digit (code mod 16)) "")) +:+ "}".

Record BoundedText := mkBoundedText {
  bt_text : string;
  bt_limit : N;
  bt_truncated : bool
}.

Definition BoundedText_new (limit : N) : BoundedText := mkBoundedText "" limit false.

Definition push_unit (unit : string) (budget : N) (b : BoundedText) : BoundedText :=
  if budget <? str_len (bt_text b) + str_len unit then
    mkBoundedText (bt_text b) (bt_limit b) true
  else mkBoundedText (bt_text b +:+ unit) (bt_limit b) (bt_truncated b).

(** What is appended for one character. *)
Definition sanitized (character : string) : string :=
  if is_control character then escape_default character else character.

Fixpoint push_chars (budget : N) (characters : list string) (b : BoundedText) : BoundedText :=
  match characters with
  | [] => b
  | character :: characters =>
      if bt_truncated b then b
      else push_chars budget characters (push_unit (sanitized character) budget b)
  end.

Definition push (fragment : string) (b : BoundedText) : BoundedText :=
  push_chars (saturating_sub (bt_limit b) (str_len TRUNCATED_MARKER)) (chars fragment) b.

Definition finish (b : BoundedText) : string :=
  if bt_truncated b then bt_text b +:+ TRUNCATED_MARKER else bt_text b.

(** ** Log lines *)

(** A field of a record: a JSON string, or another value as serde_json renders it. *)
Inductive LogField :=
| LogText (value : string)
| LogOther (rendered : string).

Definition log_field_text (field : LogField) : string :=
  match field with LogText value => value | LogOther rendered => rendered end.

Definition push_all (fragments : list string) (b : BoundedText) : BoundedText :=
  foldl (λ b fragment, push fragment b) b fragments.

(** What is pushed for a record. *)
Definition log_fragments (level target message : string) (fields : gmap string LogField) :
    list string :=
  ["ocaml-temporal core "; level; " "; target; ": "; message] ++
  (btree_iter fields ≫= λ field, [" "; field.1; "="; log_field_text field.2]).

Definition LF : string := String "010" "".

Definition format_core_log_line (level target message : string) (fields : gmap string LogField) :
    string :=
  finish (push_all (log_fragments level target message fields)
    (BoundedText_new MAX_CORE_LOG_LINE_BYTES)) +:+ LF.

Definition core_log_drop_line (dropped : N) : string :=
  "ocaml-temporal core WARN ocaml_temporal_core_bridge: " +:+ pretty dropped +:+
  " Core log records dropped because the stderr writer fell behind" +:+ LF.

(** ** The level *)

Inductive CoreLogLevel := Level_Error | Level_Warn | Level_Info | Level_Debug | Level_Trace.

Definition directive (level : CoreLogLevel) : string :=
  match level with
  | Level_Error => "error"
  | Level_Warn => "warn"
  | Level_Info => "info"
  | Level_Debug => "debug"
  | Level_Trace => "trace"
  end.

(** The derived order: at most as verbose. *)
Definition verbosity (level : CoreLogLevel) : N :=
  match level with
  | Level_Error => 0
  | Level_Warn => 1
  | Level_Info => 2
  | Level_Debug => 3
  | Level_Trace => 4
  end.

Definition level_min (a b : CoreLogLevel) : CoreLogLevel :=
  if verbosity b <? verbosity a then b else a.

(** [char::is_whitespace]. *)
Definition is_whitespace (character : string) : bool :=
  match character with
  | String a EmptyString => between 0x09 0x0D a || between 0x20 0x20 a
  | String a (String b EmptyString) =>
      between 0xC2 0xC2 a && (between 0x85 0x85 b || between 0xA0 0xA0 b)
  | String a (String b (String c EmptyString)) =>
      (between 0xE1 0xE1 a && between 0x9A 0x9A b && between 0x80 0x80 c) ||
      (between 0xE2 0xE2 a && between 0x80 0x80 b &&
        (between 0x80 0x8A c || between 0xA8 0xA9 c || between 0xAF 0xAF c)) ||
      (between 0xE2 0xE2 a && between 0x81 0x81 b && between 0x9F 0x9F c) ||
      (between 0xE3 0xE3 a && between 0x80 0x80 b && between 0x80 0x80 c)
  | _ => false
  end.

Fixpoint skip_whitespace (characters : list string) : list string :=
  match characters with
  | character :: rest => if is_whitespace character then skip_whitespace rest else characters
  | [] => []
  end.

(** [str::trim]. *)
Definition trim (s : string) : string :=
  String.concat "" (reverse (skip_whitespace (reverse (skip_whitespace (chars s))))).

(** [to_ascii_lowercase]. *)
Definition lowercase_byte (b : ascii) : ascii :=
  if between 0x41 0x5A b then ascii_of_N (N_of_ascii b + 0x20) else b.

Fixpoint to_ascii_lowercase (s : string) : string :=
  match s with
  | EmptyString => EmptyString
  | String b s => String (lowercase_byte b) (to_ascii_lowercase s)
  end.

Definition invalid_core_log_level : string :=
  CORE_LOG_ENV +:+ " must be one of off, error, warn, info, debug, or trace".

Definition parse_core_log_level (value : option string) : result (option CoreLogLevel) string :=
  match option_filter (λ value, negb (str_is_empty value)) (trim <$> value) with
  | None => Ok (Some Level_Warn)
  | Some value =>
      let value := to_ascii_lowercase value in
      if bool_decide (value ∈ ["off"; "none"]) then Ok None
      else if bool_decide (value = "error") then Ok (Some Level_Error)
      else if bool_decide (value ∈ ["warn"; "warning"]) then Ok (Some Level_Warn)
      else if bool_decide (value = "info") then Ok (Some Level_Info)
      else if bool_decide (value = "debug") then Ok (Some Level_Debug)
      else if bool_decide (value = "trace") then Ok (Some Level_Trace)
      else Err invalid_core_log_level
  end.

(** What [std::env::var] gives. *)
Inductive EnvVar :=
| Env_Present (value : string)
| Env_NotPresent
| Env_NotUnicode.

Definition core_log_level_from_env (variable : EnvVar) : result (option CoreLogLevel) string :=
  match variable with
  | Env_Present value => parse_core_log_level (Some value)
  | Env_NotPresent => parse_core_log_level None
  | Env_NotUnicode => Err invalid_core_log_level
  end.

Definition core_log_filter (level : CoreLogLevel) : string :=
  let core := directive level in
  let other := directive (level_min level Level_Warn) in
  other +:+ ",temporalio_common=" +:+ core +:+ ",temporalio_sdk_core=" +:+ core +:+
  ",temporalio_client=" +:+ core +:+ ",temporalio_sdk=" +:+ core +:+
  ",ocaml_temporal_core_bridge=" +:+ core.

(** ** Failed connections *)

Inductive ConnectionCause :=
| Cause_Dns
| Cause_Refused
| Cause_Reset
| Cause_Timeout
| Cause_Tls
| Cause_Unauthenticated
| Cause_PermissionDenied
| Cause_Unavailable
| Cause_Other.

Definition cause_as_str (cause : ConnectionCause) : string :=
  match cause with
  | Cause_Dns => "dns"
  | Cause_Refused => "refused"
  | Cause_Reset => "reset"
  | Cause_Timeout => "timeout"
  | Cause_Tls => "tls"
  | Cause_Unauthenticated => "unauthenticated"
  | Cause_PermissionDenied => "permission_denied"
  | Cause_Unavailable => "unavailable"
  | Cause_Other => "other"
  end.

Inductive ConnectFailure :=
| Failure_Configuration
| Failure_Connection (cause : ConnectionCause) (detail : string).

(** The kinds of [std::io::Error] that are told apart. *)
Inductive IoErrorKind :=
| Io_ConnectionRefused
| Io_ConnectionReset
| Io_ConnectionAborted
| Io_TimedOut
| Io_Other.

(** One error of a chain: its text, and its kind if it is an [std::io::Error]. *)
Record ErrorLink := mkErrorLink {
  link_text : string;
  link_io_kind : option IoErrorKind
}.

(** An error and its sources. *)
Definition error_chain (error : list ErrorLink) : list ErrorLink := take MAX_SOURCE_DEPTH error.

Fixpoint starts_with (prefix s : string) : bool :=
  match prefix, s with
  | EmptyString, _ => true
  | String a prefix, String b s => Ascii.eqb a b && starts_with prefix s
  | String _ _, EmptyString => false
  end.

(** [str::contains]. *)
Fixpoint str_contains (text needle : string) : bool :=
  starts_with needle text ||
  match text with EmptyString => false | String _ text => str_contains text needle end.

Definition io_cause (kind : IoErrorKind) : option ConnectionCause :=
  match kind with
  | Io_ConnectionRefused => Some Cause_Refused
  | Io_ConnectionReset | Io_ConnectionAborted => Some Cause_Reset
  | Io_TimedOut => Some Cause_Timeout
  | Io_Other => None
  end.

(** One turn of the loop of [classify_chain]. *)
Definition classify_link (cause : option ConnectionCause) (link : ErrorLink) :
    option ConnectionCause :=
  let cause :=
    match link_io_kind link ≫= io_cause with Some found => Some found | None => cause end in
  let text := to_ascii_lowercase (link_text link) in
  let has := str_contains text in
  if has "dns error" || has "failed to lookup address" || has "name or service not known" ||
     has "no such host"
  then Some Cause_Dns
  else if has "certificate" || has "tls" || has "handshake" then Some Cause_Tls
  else
    match cause with
    | Some _ => cause
    | None =>
        if has "timed out" || has "deadline" then Some Cause_Timeout
        else if has "connection refused" then Some Cause_Refused
        else None
    end.

Definition classify_chain (error : list ErrorLink) : option ConnectionCause :=
  foldl classify_link None (error_chain error).

(** The fragments that [push_error_chain] appends. *)
Fixpoint chain_fragments (previous : string) (first : bool) (links : list ErrorLink) : list string :=
  match links with
  | [] => []
  | link :: links =>
      let text := link_text link in
      if str_is_empty text || str_contains previous text then chain_fragments previous first links
      else (if first then [] else [": "]) ++ text :: chain_fragments text false links
  end.

Definition push_error_chain (error : list ErrorLink) (output : BoundedText) : BoundedText :=
  push_all (chain_fragments "" true (error_chain error)) output.

Definition grpc_code_name (code : Code) : string :=
  match code with
  | Code_Ok => "ok"
  | Code_Cancelled => "cancelled"
  | Code_Unknown => "unknown"
  | Code_InvalidArgument => "invalid_argument"
  | Code_DeadlineExceeded => "deadline_exceeded"
  | Code_NotFound => "not_found"
  | Code_AlreadyExists => "already_exists"
  | Code_PermissionDenied => "permission_denied"
  | Code_ResourceExhausted => "resource_exhausted"
  | Code_FailedPrecondition => "failed_precondition"
  | Code_Aborted => "aborted"
  | Code_OutOfRange => "out_of_range"
  | Code_Unimplemented => "unimplemented"
  | Code_Internal => "internal"
  | Code_Unavailable => "unavailable"
  | Code_DataLoss => "data_loss"
  | Code_Unauthenticated => "unauthenticated"
  end.

Definition connection_failure (error : list ErrorLink) (forced : option ConnectionCause) :
    ConnectFailure :=
  let detail :=
    push_error_chain error (BoundedText_new MAX_CONNECTION_DETAIL_BYTES) in
  let cause := match forced with Some cause => Some cause | None => classify_chain error end in
  Failure_Connection (default Cause_Other cause) (finish detail).

(** [ClientConnectError]; a status carries the chain of its source, if it has one. *)
Inductive ClientConnectError :=
| Connect_TonicTransportError (error : list ErrorLink)
| Connect_SystemInfoCallError (status : Status) (source : option (list ErrorLink))
| Connect_DnsResolutionError (host : string) (source : list ErrorLink)
| Connect_InvalidUri (message : string)
| Connect_InvalidHeaders (message : string)
| Connect_InvalidConfig (message : string)
| Connect_Unknown.

Definition code_cause (code : Code) : option ConnectionCause :=
  match code with
  | Code_Unauthenticated => Some Cause_Unauthenticated
  | Code_PermissionDenied => Some Cause_PermissionDenied
  | Code_DeadlineExceeded => Some Cause_Timeout
  | _ => None
  end.

Definition describe_connect_error (error : ClientConnectError) : ConnectFailure :=
  match error with
  | Connect_TonicTransportError error => connection_failure error None
  | Connect_SystemInfoCallError status source =>
      let detail :=
        push_all ["GetSystemInfo returned "; grpc_code_name (st_code status)]
          (BoundedText_new MAX_CONNECTION_DETAIL_BYTES) in
      let detail :=
        match source with
        | Some source => push_error_chain source (push ": " detail)
        | None => detail
        end in
      let cause :=
        match code_cause (st_code status), source with
        | Some cause, _ => Some cause
        | None, Some source => classify_chain source
        | None, None => None
        end in
      Failure_Connection
        (default
          (if bool_decide (st_code status = Code_Unavailable) then Cause_Unavailable
           else Cause_Other)
          cause)
        (finish detail)
  | Connect_DnsResolutionError _ source => connection_failure source (Some Cause_Dns)
  | Connect_InvalidUri _ | Connect_InvalidHeaders _ | Connect_InvalidConfig _ =>
      Failure_Configuration
  | Connect_Unknown => Failure_Connection Cause_Other ""
  end.

Definition connection_failure_message (cause : ConnectionCause) (detail : string) : string :=
  let prefix := "Temporal client connection failed (cause=" +:+ cause_as_str cause +:+ ")" in
  if str_is_empty detail then prefix else prefix +:+ ": " +:+ detail.

(** ** The queue of log lines and its writer *)

(** What is written to the sink, one entry per call of [write_all]. *)
Inductive SinkWrite :=
| Wrote_Line (line : string)
| Wrote_Drops (dropped : N).

(** Where the loop of the writer is. *)
Inductive WriterPoint :=
| W_Recv
| W_ReportThenWrite (line : string)
| W_Write (line : string)
| W_ReportIdle
| W_ReportLast
| W_Done.

Record LogQueue := mkLogQueue {
  (** The sender is there until the queue is closed. *)
  lq_open : bool;
  lq_capacity : N;
  lq_queue : list string;
  lq_dropped : N;
  lq_writer : WriterPoint;
  lq_sink : list SinkWrite
}.

Definition LogQueue_spawn (capacity : N) : LogQueue :=
  mkLogQueue true (N.max capacity 1) [] 0 W_Recv [].

(** [CoreLogQueue::submit]; the lock on the sender is held throughout. *)
Definition submit (line : string) (q : LogQueue) : bool * LogQueue :=
  if negb (lq_open q) then (false, q)
  else if N.of_nat (length (lq_queue q)) <? lq_capacity q then
    (true, mkLogQueue (lq_open q) (lq_capacity q) (lq_queue q ++ [line]) (lq_dropped q)
             (lq_writer q) (lq_sink q))
  else
    (false, mkLogQueue (lq_open q) (lq_capacity q) (lq_queue q)
              (u64_wrapping_add (lq_dropped q) 1) (lq_writer q) (lq_sink q)).

(** The first half of [shutdown]. *)
Definition disconnect (q : LogQueue) : LogQueue :=
  mkLogQueue false (lq_capacity q) (lq_queue q) (lq_dropped q) (lq_writer q) (lq_sink q).

Definition at_point (point : WriterPoint) (q : LogQueue) : LogQueue :=
  mkLogQueue (lq_open q) (lq_capacity q) (lq_queue q) (lq_dropped q) point (lq_sink q).

(** [report_core_log_drops]: the swap and the line it writes. *)
Definition report_core_log_drops (q : LogQueue) : LogQueue :=
  mkLogQueue (lq_open q) (lq_capacity q) (lq_queue q) 0 (lq_writer q)
    (if 0 <? lq_dropped q then lq_sink q ++ [Wrote_Drops (lq_dropped q)] else lq_sink q).

(** One action of [run_core_log_writer]; [recv_timeout] on an empty queue whose
    sender is there ends by its timeout. *)
Definition run_core_log_writer (q : LogQueue) : LogQueue :=
  match lq_writer q with
  | W_Recv =>
      match lq_queue q with
      | line :: rest =>
          mkLogQueue (lq_open q) (lq_capacity q) rest (lq_dropped q) (W_ReportThenWrite line)
            (lq_sink q)
      | [] => at_point (if lq_open q then W_ReportIdle else W_ReportLast) q
      end
  | W_ReportThenWrite line => at_point (W_Write line) (report_core_log_drops q)
  | W_Write line =>
      mkLogQueue (lq_open q) (lq_capacity q) (lq_queue q) (lq_dropped q) W_Recv
        (lq_sink q ++ [Wrote_Line line])
  | W_ReportIdle => at_point W_Recv (report_core_log_drops q)
  | W_ReportLast => at_point W_Done (report_core_log_drops q)
  | W_Done => q
  end.

Inductive LogEvent :=
| E_Submit (line : string)
| E_Writer
| E_Disconnect.

(** A queue with the lines that [submit] took and the number that it counted. *)
Record LogHistory := mkLogHistory {
  lh_queue : LogQueue;
  lh_taken : list string;
  lh_refused : N
}.

Definition log_step (h : LogHistory) (e : LogEvent) : LogHistory :=
  let q := lh_queue h in
  match e with
  | E_Submit line =>
      let '(taken, q') := submit line q in
      mkLogHistory q' (if taken then lh_taken h ++ [line] else lh_taken h)
        (if lq_open q && negb taken then lh_refused h + 1 else lh_refused h)
  | E_Writer => mkLogHistory (run_core_log_writer q) (lh_taken h) (lh_refused h)
  | E_Disconnect => mkLogHistory (disconnect q) (lh_taken h) (lh_refused h)
  end.

Definition log_run (capacity : N) (events : list LogEvent) : LogHistory :=
  foldl log_step (mkLogHistory (LogQueue_spawn capacity) [] 0) events.

Inductive CoreLogWriterClose := Close_Joined | Close_Detached.

(** What waiting for the signal of the writer gives. *)
Inductive DoneSignal := Done_Received | Done_Disconnected | Done_Timeout.

(** The second half of [shutdown]; [thread] tells whether the handle is there. *)
Definition join_writer (thread : bool) (signal : DoneSignal) : CoreLogWriterClose :=
  if negb thread then Close_Joined
  else match signal with
       | Done_Received | Done_Disconnected => Close_Joined
       | Done_Timeout => Close_Detached
       end.

(** ** Bounded text is bounded and clean *)

(** Valid text without control characters. *)
Inductive clean : string → Prop :=
| clean_nil : clean ""
| clean_cons c s : utf8_char c → is_control c = false → clean s → clean (c +:+ s).

Lemma clean_app a b : clean a → clean b → clean (a +:+ b).
Proof.
  induction 1 as [|c s Hc Hctl _ IH]; intros Hb; [done|]. rewrite string_app_assoc.
  constructor; auto.
Qed.

Lemma clean_utf8 s : clean s → utf8_text s.
Proof. induction 1; by constructor. Qed.

Fixpoint printable (s : string) : bool :=
  match s with EmptyString => true | String b s => between 0x20 0x7E b && printable s end.

Lemma printable_clean s : printable s = true → clean s.
Proof.
  induction s as [|b s IH]; cbn [printable]; [constructor|]. intros [Hb Hs]%andb_true_iff.
  apply (clean_cons (String b "")); [constructor| |auto].
  - unfold between in *. rewrite andb_true_iff, !N.leb_le in *. lia.
  - unfold is_control. by rewrite !(between_disjoint _ _ _ _ _ Hb) by lia.
Qed.

Lemma printable_app a b : printable (a +:+ b) = printable a && printable b.
Proof.
  induction a as [|x a IH]; [done|]. rewrite string_app_cons. cbn. by rewrite IH, andb_assoc.
Qed.

Lemma hex_digit_printable n : n < 16 → between 0x20 0x7E (hex_digit n) = true.
Proof.
  intros Hn. destruct n as [|p]; [done|]. do 4 (destruct p as [p|p|]; try done; try lia).
Qed.

Lemma escape_default_clean c : clean (escape_default c).
Proof.
  apply printable_clean. unfold escape_default. cbv zeta.
  set (code := match c with String a "" => _ | _ => _ end).
  assert (code < 256) as Hcode.
  { unfold code. repeat case_match; try lia; apply N_ascii_bounded. }
  repeat (case_match; [done|]). rewrite !printable_app. cbn [printable].
  case_match eqn:H16; cbn [printable]; rewrite ?N.ltb_lt, ?N.ltb_ge in H16.
  - by rewrite hex_digit_printable.
  - rewrite !hex_digit_printable; [done|apply N.mod_lt; lia|].
    apply N.Div0.div_lt_upper_bound. lia.
Qed.

Lemma sanitized_clean c : utf8_char c → clean (sanitized c).
Proof.
  intros Hc. unfold sanitized. destruct (is_control c) eqn:Hctl; [apply escape_default_clean|].
  rewrite <-(string_app_nil c). by constructor; [..|constructor].
Qed.

(** What is appended for a text. *)
Definition sanitized_units (fragments : list string) : list string :=
  fragments ≫= λ fragment, sanitized <$> chars fragment.

(** The text after pushing [units]: those that fit in order, up to the first that
    does not. *)
Definition holds_units (budget : N) (units : list string) (b : BoundedText) : Prop :=
  ∃ kept rest, units = kept ++ rest ∧ bt_text b = String.concat "" kept ∧
    str_len (bt_text b) ≤ budget ∧
    (if bt_truncated b then
       ∃ unit rest', rest = unit :: rest' ∧ budget < str_len (bt_text b) + str_len unit
     else rest = []).

Lemma concat_app l k : String.concat "" (l ++ k) = String.concat "" l +:+ String.concat "" k.
Proof.
  assert (∀ x l, String.concat "" (x :: l) = x +:+ String.concat "" l) as Hcons.
  { intros x [|y l']; [by rewrite string_app_nil|done]. }
  induction l as [|x l IH]; [done|]. cbn [app]. by rewrite !Hcons, IH, string_app_assoc.
Qed.

Lemma push_chars_holds budget units characters b :
  holds_units budget units b →
  holds_units budget (units ++ (sanitized <$> characters)) (push_chars budget characters b).
Proof.
  revert units b. induction characters as [|c characters IH]; intros units b Hb.
  { by rewrite app_nil_r. }
  cbn [push_chars fmap list_fmap]. destruct (bt_truncated b) eqn:Htr.
  - destruct Hb as (kept & rest & -> & Htext & Hle & Hrest). rewrite Htr in Hrest.
    destruct Hrest as (unit & rest' & -> & Hlt).
    eexists kept, _. rewrite <-app_assoc. split; [done|]. split; [done|]. split; [done|].
    rewrite Htr. by eexists unit, _.
  - rewrite cons_middle, app_assoc. apply IH.
    destruct Hb as (kept & rest & -> & Htext & Hle & Hrest). rewrite Htr in Hrest. subst rest.
    unfold push_unit. destruct (N.ltb_spec budget (str_len (bt_text b) + str_len (sanitized c))).
    + exists kept, [sanitized c]. cbn [bt_text bt_truncated]. rewrite app_nil_r. split_and!; try done.
      by exists (sanitized c), [].
    + exists (kept ++ [sanitized c]), []. cbn [bt_text bt_truncated]. rewrite !app_nil_r, Htr, concat_app, <-Htext.
      split; [done|]. split; [done|]. by rewrite str_len_app.
Qed.

Lemma push_all_holds fragments limit :
  holds_units (saturating_sub limit (str_len TRUNCATED_MARKER)) (sanitized_units fragments)
    (push_all fragments (BoundedText_new limit)) ∧
  bt_limit (push_all fragments (BoundedText_new limit)) = limit.
Proof.
  assert (∀ budget characters b, bt_limit (push_chars budget characters b) = bt_limit b) as Hlimit.
  { intros budget characters. induction characters as [|c cs IH]; intros b; [done|].
    cbn [push_chars]. case_match; [done|]. rewrite IH. unfold push_unit. by case_match. }
  induction fragments as [|fragment fragments [IH IHl]] using rev_ind.
  { split; [|done]. exists [], []. split_and!; [done..|apply N.le_0_l|done]. }
  unfold push_all, sanitized_units in *. rewrite foldl_app, bind_app. cbn [foldl mbind list_bind].
  rewrite app_nil_r. revert IH IHl. generalize (foldl (λ b fragment, push fragment b)
    (BoundedText_new limit) fragments). intros b IH IHl. unfold push. rewrite Hlimit, IHl. split; [|done]. by apply push_chars_holds.
Qed.

(** The finished text of some fragments. *)
Definition bounded_text_of (limit : N) (fragments : list string) : string :=
  finish (push_all fragments (BoundedText_new limit)).

Lemma bounded_text_spec limit fragments :
  str_len TRUNCATED_MARKER ≤ limit → Forall utf8_text fragments →
  let text := bounded_text_of limit fragments in
  str_len text ≤ limit ∧ clean text ∧
  ∃ kept rest, sanitized_units fragments = kept ++ rest ∧
    text = String.concat "" kept +:+ (if decide (rest = []) then "" else TRUNCATED_MARKER) ∧
    ∀ unit rest', rest = unit :: rest' →
      limit < str_len (String.concat "" (kept ++ [unit])) + str_len TRUNCATED_MARKER.
Proof.
  intros Hlimit Hutf. cbv zeta. unfold bounded_text_of, finish.
  destruct (push_all_holds fragments limit) as [(kept & rest & Hunits & Htext & Hle & Hrest) _].
  set (b := push_all fragments (BoundedText_new limit)) in *.
  assert (clean (bt_text b)) as Hclean.
  { assert (Forall clean (sanitized_units fragments)) as Hall.
    { unfold sanitized_units. clear -Hutf. induction Hutf as [|f fs Hf _ IH]; [constructor|].
      cbn [mbind list_bind]. apply Forall_app. split; [|done].
      induction Hf as [|c s Hc Hs IHs]; [constructor|]. rewrite chars_cons by done.
      constructor; [by apply sanitized_clean|done]. }
    rewrite Hunits, Forall_app in Hall. destruct Hall as [Hkept _]. rewrite Htext.
    clear -Hkept. induction Hkept as [|u us Hu _ IH]; [constructor|].
    change (u :: us) with ([u] ++ us). rewrite concat_app. by apply clean_app. }
  unfold saturating_sub in *. destruct (bt_truncated b).
  - destruct Hrest as (unit & rest' & -> & Hlt). rewrite str_len_app. split; [lia|].
    split; [apply clean_app; [done|by apply printable_clean]|].
    exists kept, (unit :: rest'). split; [done|]. split; [by rewrite Htext|].
    intros ? ? [= <- <-]. rewrite concat_app, str_len_app, <-Htext. cbn [String.concat]. lia.
  - subst rest. split; [lia|]. split; [done|]. exists kept, []. split; [done|].
    split; [by rewrite Htext, string_app_nil|done].
Qed.

(** A clean text has no line break. *)
Lemma clean_no_break s : clean s → contains_byte "010" s = false.
Proof.
  induction 1 as [|c s Hc Hctl _ IH]; [done|]. rewrite contains_byte_app, IH, orb_false_r.
  assert (∀ lo hi x, between lo hi x = true → 0x80 ≤ lo → Ascii.eqb x "010" = false) as Hhigh.
  { intros lo hi x Hx Hlo. apply Ascii.eqb_neq. intros ->. unfold between in Hx.
    rewrite andb_true_iff, !N.leb_le in Hx. change (N_of_ascii "010") with 10 in Hx. lia. }
  destruct Hc as [a Ha|a b Ha Hb|a b c Ha Hb Hc|a b c d Ha Hb Hc Hd]; cbn [contains_byte].
  - rewrite orb_false_r. apply Ascii.eqb_neq. by intros ->.
  - unfold continuation in Hb. by rewrite (Hhigh _ _ a Ha), (Hhigh _ _ b Hb) by done.
  - apply second_of_three_continuation in Hb. unfold continuation in Hb, Hc.
    by rewrite (Hhigh _ _ a Ha), (Hhigh _ _ b Hb), (Hhigh _ _ c Hc) by done.
  - apply second_of_four_continuation in Hb. unfold continuation in Hb, Hc, Hd.
    by rewrite (Hhigh _ _ a Ha), (Hhigh _ _ b Hb), (Hhigh _ _ c Hc), (Hhigh _ _ d Hd) by done.
Qed.

(** A record of Core's log becomes one line: valid UTF-8 of at most 2048 bytes
    without control characters before the line break that ends it, whatever the
    record holds, so that no record forges a second line; the line holds the
    sanitized record from its start, and is cut, with a marker, only before a unit
    that would not have fit. *)
Theorem log_line_single level target message fields :
  Forall utf8_text (log_fragments level target message fields) →
  ∃ body, format_core_log_line level target message fields = body +:+ LF ∧
    str_len body ≤ MAX_CORE_LOG_LINE_BYTES ∧ clean body ∧ contains_byte "010" body = false ∧
    ∃ kept rest, sanitized_units (log_fragments level target message fields) = kept ++ rest ∧
      body = String.concat "" kept +:+ (if decide (rest = []) then "" else TRUNCATED_MARKER) ∧
      ∀ unit rest', rest = unit :: rest' →
        MAX_CORE_LOG_LINE_BYTES <
        str_len (String.concat "" (kept ++ [unit])) + str_len TRUNCATED_MARKER.
Proof.
  intros Hutf. exists (bounded_text_of MAX_CORE_LOG_LINE_BYTES (log_fragments level target message fields)).
  destruct (bounded_text_spec MAX_CORE_LOG_LINE_BYTES _ ltac:(done) Hutf) as (Hlen & Hclean & Hunits).
  split_and!; try done. by apply clean_no_break.
Qed.

Lemma log_line_single_witness :
  ∃ body, format_core_log_line "WARN" "core" (String "a" LF) ∅ = body +:+ LF ∧
    contains_byte "010" body = false.
Proof.
  destruct (log_line_single "WARN" "core" (String "a" LF) ∅) as (body & Hbody & _ & _ & Hbreak & _).
  { repeat constructor; apply utf8_valid_text; by vm_compute. }
  exists body. split; [exact Hbody|exact Hbreak].
Defined.

(** ** The queue loses nothing *)

Definition written_lines (sink : list SinkWrite) : list string :=
  omap (λ w, match w with Wrote_Line line => Some line | Wrote_Drops _ => None end) sink.

Definition reported_drops (sink : list SinkWrite) : N :=
  foldr N.add 0 (omap (λ w, match w with Wrote_Drops n => Some n | Wrote_Line _ => None end) sink).

#[local] Arguments written_lines : simpl never.
#[local] Arguments reported_drops : simpl never.

(** The line that the writer holds. *)
Definition in_hand (point : WriterPoint) : list string :=
  match point with W_ReportThenWrite line | W_Write line => [line] | _ => [] end.

Record log_inv (h : LogHistory) : Prop := {
  lines_kept :
    lh_taken h =
    written_lines (lq_sink (lh_queue h)) ++ in_hand (lq_writer (lh_queue h)) ++ lq_queue (lh_queue h);
  drops_counted :
    lh_refused h < u64_modulus →
    lh_refused h = reported_drops (lq_sink (lh_queue h)) + lq_dropped (lh_queue h);
  queue_bounded : N.of_nat (length (lq_queue (lh_queue h))) ≤ lq_capacity (lh_queue h);
  last_closed :
    lq_writer (lh_queue h) = W_ReportLast →
    lq_open (lh_queue h) = false ∧ lq_queue (lh_queue h) = [];
  done_closed :
    lq_writer (lh_queue h) = W_Done →
    lq_open (lh_queue h) = false ∧ lq_queue (lh_queue h) = [] ∧ lq_dropped (lh_queue h) = 0
}.

Lemma written_lines_app a b : written_lines (a ++ b) = written_lines a ++ written_lines b.
Proof. apply omap_app. Qed.

Lemma reported_drops_app a b : reported_drops (a ++ b) = reported_drops a + reported_drops b.
Proof.
  unfold reported_drops. rewrite omap_app. generalize (omap (λ w,
    match w with Wrote_Drops n => Some n | Wrote_Line _ => None end) a).
  intros l. induction l as [|n l IH]; [done|]. cbn [app foldr]. lia.
Qed.

Lemma report_written q : written_lines (lq_sink (report_core_log_drops q)) = written_lines (lq_sink q).
Proof. unfold report_core_log_drops. simpl. case_match; [|done]. by rewrite written_lines_app, app_nil_r. Qed.

Lemma report_drops q :
  reported_drops (lq_sink (report_core_log_drops q)) = reported_drops (lq_sink q) + lq_dropped q.
Proof.
  unfold report_core_log_drops. simpl. destruct (N.ltb_spec 0 (lq_dropped q)); [|lia].
  rewrite reported_drops_app. unfold reported_drops at 2. simpl. lia.
Qed.

(** The invariant after a report. *)
Ltac settle_report Hdrops :=
  constructor;
  cbn [lh_queue lh_taken lh_refused at_point lq_sink lq_writer lq_queue lq_dropped lq_capacity];
  try done;
  [by rewrite report_written|intros; rewrite report_drops; cbn; rewrite Hdrops by done; lia].

Lemma log_step_inv h e : log_inv h → log_inv (log_step h e).
Proof.
  intros [Hlines Hdrops Hcap Hlast Hdone]. destruct h as [[open cap queue dropped point sink] taken refused].
  simpl in *. destruct e as [line| |].
  - unfold log_step, submit. cbn. destruct open; cbn.
    2: by constructor.
    destruct (N.ltb_spec (N.of_nat (length queue)) cap) as [Hlt|Hge]; cbn.
    + constructor; cbn; try done; [by rewrite Hlines, !app_assoc|rewrite length_app; simpl; lia|..].
      * intros Hp. by destruct (Hlast Hp).
      * intros Hp. by destruct (Hdone Hp).
    + constructor; cbn; try done.
      * intros Href. assert (refused < u64_modulus) as Hlt by lia. specialize (Hdrops Hlt).
        rewrite u64_wrapping_add_exact by lia. lia.
      * intros Hp. by destruct (Hdone Hp).
  - unfold log_step, run_core_log_writer. cbn. destruct point as [|line|line| | |]; cbn in *.
    + destruct queue as [|line queue]; cbn; [by constructor; cbn; try done; destruct open|].
      constructor; cbn; try done. cbn in Hcap. lia.
    + settle_report Hdrops.
    + constructor; cbn; try done; [by rewrite Hlines, written_lines_app, <-app_assoc|].
      intros Href. rewrite reported_drops_app. unfold reported_drops at 2. cbn. rewrite Hdrops by done. lia.
    + settle_report Hdrops.
    + destruct (Hlast eq_refl) as [-> ->].
      settle_report Hdrops.
    + by constructor.
  - constructor; cbn in *; try done; [intros Hp; by destruct (Hlast Hp)|].
    intros Hp. by destruct (Hdone Hp) as (_ & -> & ->).
Qed.

Lemma log_run_inv capacity events : log_inv (log_run capacity events).
Proof.
  unfold log_run. induction events as [|e events IH] using rev_ind; [by constructor; cbn; try lia|].
  rewrite foldl_app. by apply log_step_inv.
Qed.

(** C24: no line of Core's log is lost or reordered once it was taken: whatever the
    threads do, the lines taken are, in order, those written, the one the writer
    holds and those in the queue, which is within its capacity, and each line
    refused because the queue was full is reported or still counted.  A writer that
    ended has written every line taken and reported every line refused. *)
Theorem log_lines_accounted capacity events :
  let h := log_run capacity events in
  let q := lh_queue h in
  lh_taken h = written_lines (lq_sink q) ++ in_hand (lq_writer q) ++ lq_queue q ∧
  N.of_nat (length (lq_queue q)) ≤ lq_capacity q ∧
  (lh_refused h < u64_modulus → lh_refused h = reported_drops (lq_sink q) + lq_dropped q) ∧
  (lq_writer q = W_Done → lh_refused h < u64_modulus →
   written_lines (lq_sink q) = lh_taken h ∧ reported_drops (lq_sink q) = lh_refused h).
Proof.
  intros h q. destruct (log_run_inv capacity events) as [Hlines Hdrops Hcap _ Hdone].
  subst q h. split_and!; [done..|]. intros Hp Href. destruct (Hdone Hp) as (_ & Hq & Hd).
  rewrite Hlines, Hdrops, Hp, Hq, Hd by done. cbn [in_hand app]. rewrite app_nil_r. split; [done|lia].
Qed.

(** ** The writer ends *)

(** Actions that the writer of a closed queue still makes. *)
Definition writer_work (q : LogQueue) : nat :=
  match lq_writer q with
  | W_Done => 0
  | W_ReportLast => 1
  | W_Recv => 3 * length (lq_queue q) + 2
  | W_Write _ | W_ReportIdle => 3 * length (lq_queue q) + 3
  | W_ReportThenWrite _ => 3 * length (lq_queue q) + 4
  end.

Definition is_writer (e : LogEvent) : bool := match e with E_Writer => true | _ => false end.

Lemma closed_step h e :
  lq_open (lh_queue h) = false →
  lq_open (lh_queue (log_step h e)) = false ∧
  (writer_work (lh_queue (log_step h e)) ≤
   writer_work (lh_queue h) - (if is_writer e then 1 else 0))%nat.
Proof.
  destruct h as [[open cap queue dropped point sink] taken refused]. cbn. intros ->.
  destruct e as [line| |]; cbn; [by split; [|lia]| |by split; [|unfold writer_work; cbn; lia]].
  unfold run_core_log_writer, writer_work. cbn.
  destruct point; cbn; try (split; [done|lia]).
  destruct queue; cbn; (split; [done|lia]).
Qed.

Lemma closed_run h events :
  lq_open (lh_queue h) = false →
  (writer_work (lh_queue (foldl log_step h events)) ≤
   writer_work (lh_queue h) - length (filter (λ e, is_writer e = true) events))%nat.
Proof.
  revert h. induction events as [|e events IH]; intros h Hopen; cbn [foldl]; [simpl; lia|].
  destruct (closed_step h e Hopen) as [Hopen' Hwork]. specialize (IH _ Hopen').
  rewrite filter_cons. destruct e; cbn [is_writer] in *; case_decide; try done; cbn [length]; lia.
Qed.

Lemma foldl_log_capacity events h :
  lq_capacity (lh_queue (foldl log_step h events)) = lq_capacity (lh_queue h).
Proof.
  revert h. induction events as [|e events IH]; intros h; [done|]. cbn [foldl]. rewrite IH.
  destruct h as [[open cap queue dropped point sink] taken refused].
  destruct e; cbn; [| |done].
  { unfold submit. cbn. destruct open; cbn; [|done]. by destruct (_ <? _). }
  unfold run_core_log_writer. cbn. by repeat case_match.
Qed.

(** A closed queue is drained: once the sender was taken, the writer ends after
    at most three actions per line of capacity and four more, whatever is submitted
    meanwhile. *)
Theorem writer_drains capacity before after :
  let actions := length (filter (λ e, is_writer e = true) after) in
  3 * N.max capacity 1 + 4 ≤ N.of_nat actions →
  lq_writer (lh_queue (log_run capacity (before ++ E_Disconnect :: after))) = W_Done.
Proof.
  intros actions Hactions. unfold log_run. rewrite foldl_app. cbn [foldl].
  set (h := log_step (foldl log_step _ before) E_Disconnect).
  pose proof (closed_run h after eq_refl) as Hwork. fold actions in Hwork.
  assert (N.of_nat (length (lq_queue (lh_queue h))) ≤ N.max capacity 1) as Hcap.
  { pose proof (queue_bounded _ (log_run_inv capacity before)) as Hq. unfold log_run in Hq.
    by rewrite foldl_log_capacity in Hq. }
  assert (writer_work (lh_queue h) ≤ 3 * length (lq_queue (lh_queue h)) + 4)%nat as Hle.
  { unfold writer_work. case_match; lia. }
  assert (writer_work (lh_queue (foldl log_step h after)) = 0)%nat as Hzero by lia.
  unfold writer_work in Hzero. case_match; (done || lia).
Qed.

Lemma writer_drains_witness :
  lq_writer (lh_queue (log_run 1 ([E_Submit "a"; E_Submit "b"] ++ E_Disconnect :: replicate 7 E_Writer))) =
    W_Done.
Proof. apply (writer_drains 1 [E_Submit "a"; E_Submit "b"] (replicate 7 E_Writer)). by vm_compute. Defined.

(** ** Descriptions of failed connections *)

Lemma push_all_app a b t : push_all (a ++ b) t = push_all b (push_all a t).
Proof. apply foldl_app. Qed.

(** The texts of an error come from its links. *)
Lemma chain_fragments_utf8 previous first links :
  Forall (λ link, utf8_text (link_text link)) links →
  Forall utf8_text (chain_fragments previous first links).
Proof.
  intros Hall. revert previous first. induction Hall as [|link links Hlink _ IH]; intros previous first;
    cbn [chain_fragments]; [constructor|]. cbv zeta.
  case_match; [apply IH|]. apply Forall_app. split; [|constructor; [done|apply IH]].
  destruct first; [constructor|]. constructor; [|constructor]. by apply ascii_only_utf8.
Qed.

Lemma error_chain_utf8 error :
  Forall (λ link, utf8_text (link_text link)) error →
  Forall utf8_text (chain_fragments "" true (error_chain error)).
Proof. intros Hall. apply chain_fragments_utf8. by apply Forall_take. Qed.

Definition connect_links (error : ClientConnectError) : list ErrorLink :=
  match error with
  | Connect_TonicTransportError error | Connect_DnsResolutionError _ error => error
  | Connect_SystemInfoCallError _ source => default [] source
  | _ => []
  end.

Lemma bounded_detail fragments :
  Forall utf8_text fragments →
  str_len (bounded_text_of MAX_CONNECTION_DETAIL_BYTES fragments) ≤ MAX_CONNECTION_DETAIL_BYTES ∧
  clean (bounded_text_of MAX_CONNECTION_DETAIL_BYTES fragments).
Proof. intros Hall. by destruct (bounded_text_spec MAX_CONNECTION_DETAIL_BYTES fragments) as (? & ? & _). Qed.

Lemma described_detail error cause detail :
  Forall (λ link, utf8_text (link_text link)) (connect_links error) →
  describe_connect_error error = Failure_Connection cause detail →
  str_len detail ≤ MAX_CONNECTION_DETAIL_BYTES ∧ clean detail.
Proof.
  intros Hlinks. destruct error as [error|status source|host source|m|m|m|];
    cbn [connect_links describe_connect_error] in *; unfold connection_failure; cbv zeta; try done.
  - intros [= _ <-]. apply bounded_detail. by apply error_chain_utf8.
  - intros [= _ <-]. set (name := grpc_code_name (st_code status)).
    assert (Forall utf8_text ["GetSystemInfo returned "; name]) as Hhead.
    { repeat constructor; apply ascii_only_utf8; [done|]. unfold name. by destruct (st_code status). }
    destruct source as [source|]; [|by apply (bounded_detail ["GetSystemInfo returned "; name])].
    change (push_error_chain source (push ": " (push name (push "GetSystemInfo returned "
      (BoundedText_new MAX_CONNECTION_DETAIL_BYTES)))))
      with (push_all (chain_fragments "" true (error_chain source))
        (push_all (["GetSystemInfo returned "; name] ++ [": "])
          (BoundedText_new MAX_CONNECTION_DETAIL_BYTES))).
    rewrite <-push_all_app. apply bounded_detail. rewrite !Forall_app.
    split; [split; [done|]|by apply error_chain_utf8]. repeat constructor. by apply ascii_only_utf8.
  - intros [= _ <-]. apply bounded_detail. by apply error_chain_utf8.
  - intros [= _ <-]. split; [by vm_compute|constructor].
Qed.

(** What a failed connection reveals is bounded and local: the message is one
    line of at most 600 bytes, its detail at most 512, and neither depends on the
    text that a server put in its status nor on the host that was looked up. *)
Theorem connection_message_bounded error cause detail :
  Forall (λ link, utf8_text (link_text link)) (connect_links error) →
  describe_connect_error error = Failure_Connection cause detail →
  str_len detail ≤ MAX_CONNECTION_DETAIL_BYTES ∧
  str_len (connection_failure_message cause detail) ≤ 600 ∧
  clean (connection_failure_message cause detail) ∧
  match error with
  | Connect_SystemInfoCallError status source =>
      ∀ message details, describe_connect_error
        (Connect_SystemInfoCallError (mkStatus (st_code status) message details) source) =
        Failure_Connection cause detail
  | Connect_DnsResolutionError _ source =>
      ∀ host, describe_connect_error (Connect_DnsResolutionError host source) =
        Failure_Connection cause detail
  | _ => True
  end.
Proof.
  intros Hlinks Hdescribe. destruct (described_detail error cause detail Hlinks Hdescribe) as [Hlen Hclean].
  split; [done|]. unfold connection_failure_message. cbv zeta.
  set (prefix := "Temporal client connection failed (cause=" +:+ cause_as_str cause +:+ ")").
  assert (str_len prefix ≤ 80 ∧ printable prefix = true) as [Hp Hprint]
    by (unfold prefix; by destruct cause; vm_compute).
  apply printable_clean in Hprint. split_and!.
  - case_match; rewrite ?str_len_app; unfold MAX_CONNECTION_DETAIL_BYTES in *;
      change (str_len ": ") with 2 in *; lia.
  - case_match; [done|]. apply clean_app; [done|]. apply clean_app; [by apply printable_clean|done].
  - destruct error; try done; intros; by rewrite <-Hdescribe.
Qed.

Lemma connection_message_bounded_witness :
  describe_connect_error (Connect_TonicTransportError
    [mkErrorLink "transport error" None; mkErrorLink "connection refused" (Some Io_ConnectionRefused)]) =
    Failure_Connection Cause_Refused "transport error: connection refused" ∧
  str_len (connection_failure_message Cause_Refused "transport error: connection refused") ≤ 600.
Proof.
  split; [by vm_compute|].
  eapply (connection_message_bounded (Connect_TonicTransportError
    [mkErrorLink "transport error" None; mkErrorLink "connection refused" (Some Io_ConnectionRefused)]));
    [repeat constructor; by apply ascii_only_utf8|by vm_compute].
Defined.

(** An outer link decides before an inner one: a chain whose outer text says that it
    timed out is classified so although its inner text says that it was refused. *)
Example outer_link_wins :
  classify_chain [mkErrorLink "operation timed out" None; mkErrorLink "connection refused" None] =
  Some Cause_Timeout.
Proof. by vm_compute. Qed.
