(* ===== verification/Replay.v ===== *)
(** * Replay histories

    The documents of src/rust/core-bridge/src/replay_bridge.rs: a recorded history
    arrives as strict JSON around a base64 protobuf and is admitted to Core's
    replay only if it meets what Core relies on later.  The protobuf codec and
    Core's [HistoryInfo] are the class [ReplayCore]. *)

From S2P Require Import Prelude.
From S2P Require Import Text.
From S2P Require Import Protocol.
From S2P Require Import ProtocolCodec.
From S2P Require Import CoreMessages.
From S2P Require Import WorkflowChecks.
From S2P Require Import ClientChecks.
From S2P Require Import ClientDocuments.
Local Open Scope N_scope.
Local Open Scope bridge_scope.

(** ** Errors *)

Inductive ReplayInputError :=
| InvalidDocument
| InvalidWorkflowId
| InvalidEncoding
| InvalidProtobuf
| InvalidHistory
| WorkflowIdMismatch
| MissingTaskQueue
| NonContiguousEventIds
| MissingWorkflowTaskTimestamp.

#[global] Instance ReplayInputError_eq_dec : EqDecision ReplayInputError.
Proof. solve_decision. Defined.

Definition input_error_text (error : ReplayInputError) : string :=
  match error with
  | InvalidDocument => "replay history JSON failed validation"
  | InvalidWorkflowId => "replay history workflow_id failed validation"
  | InvalidEncoding => "replay history payload is not canonical base64"
  | InvalidProtobuf => "replay history is not a valid Temporal protobuf"
  | InvalidHistory => "replay history failed Core invariant validation"
  | WorkflowIdMismatch => "replay history records a different workflow ID than the one supplied"
  | MissingTaskQueue => "replay history start event has no task queue"
  | NonContiguousEventIds => "replay history event IDs are not contiguous from 1"
  | MissingWorkflowTaskTimestamp =>
      "replay history has a WorkflowTaskStarted event without an event time"
  end.

Definition abi_message (error : ReplayInputError) : string :=
  match error with
  | WorkflowIdMismatch =>
      "Temporal replay history records a different workflow ID than the one supplied"
  | MissingTaskQueue => "Temporal replay history start event has no task queue"
  | NonContiguousEventIds => "Temporal replay history event IDs are not contiguous from 1"
  | MissingWorkflowTaskTimestamp =>
      "Temporal replay history has a WorkflowTaskStarted event without an event time"
  | InvalidDocument | InvalidWorkflowId | InvalidEncoding | InvalidProtobuf | InvalidHistory =>
      "Temporal replay history failed strict validation"
  end.

(** ** Documents *)

Record ReplayPayload := mkReplayPayload {
  rp_encoding : string;
  rp_data : string
}.

Record ReplayHistoryDocument := mkReplayHistoryDocument {
  rd_workflow_id : string;
  rd_history : ReplayPayload
}.

(** ** What Core provides *)

Record StartedAttributes := mkStartedAttributes {
  sa_workflow_id : string;
  sa_task_queue : option string
}.

Inductive EventAttributes :=
| WorkflowExecutionStartedEventAttributes (started : StartedAttributes)
| OtherEventAttributes.

(** The fields of an event that the bridge reads, and the rest of it. *)
Record ReplayEvent := mkReplayEvent {
  re_event_id : Z;
  re_event_type : Z;
  re_event_time : option Core.Timestamp;
  re_attributes : option EventAttributes;
  re_rest : list byte
}.

Definition History : Type := list ReplayEvent.

(** [new_from_history] gives [None] if it panics. *)
Class ReplayCore := {
  HistoryInfo : Type;
  history_decode : list byte → option History;
  history_encode : History → list byte;
  new_from_history : History → option (option HistoryInfo);
  orig_run_id : HistoryInfo → string;
  info_history : HistoryInfo → History;
  workflow_task_started : Z
}.

(** prost reads back what it writes. *)
Class ReplayCoreLaws `{ReplayCore} : Prop := {
  history_decode_encode h : history_decode (history_encode h) = Some h
}.

(** A derived serializer whose text its deserializer reads back. *)
Class JsonTextLaws (A : Type) `{JsonText A} : Prop := {
  from_to_string (a : A) text : to_string a = Some text → from_str text = Some a
}.

Section Replay.
Context `{SerdeJson} `{Base64} `{JsonText ReplayHistoryDocument} `{ReplayCore}.

Record HistoryForReplay := mkHistoryForReplay {
  hr_info : HistoryInfo;
  hr_workflow_id : string
}.

(** ** Checks *)

Definition validate_workflow_id (workflow_id : string) : result () ReplayInputError :=
  if str_is_empty workflow_id || (MAX_STRING_BYTES <? str_len workflow_id) ||
     contains_nul workflow_id
  then Err InvalidWorkflowId
  else Ok ().

Definition decode_history_bytes (payload : ReplayPayload) : result (list byte) ReplayInputError :=
  if negb (bool_decide (rp_encoding payload = "base64")) then Err InvalidEncoding
  else
    let? decoded := ok_or (base64_decode (rp_data payload)) InvalidEncoding in
    if (MAX_PAYLOAD_BYTES <? bytes_len decoded) ||
       negb (bool_decide (base64_encode decoded = rp_data payload))
    then Err InvalidEncoding
    else Ok decoded.

Definition decode_wire (input : string) : result ReplayHistoryDocument ReplayInputError :=
  let? _ := map_err (λ _, InvalidDocument) (decode_payload_object input) in
  ok_or (from_str input) InvalidDocument.

(** The loop over the events. *)
Fixpoint validate_events (expected : Z) (events : list ReplayEvent) : result () ReplayInputError :=
  match events with
  | [] => Ok ()
  | event :: events =>
      if negb (re_event_id event =? expected)%Z then Err NonContiguousEventIds
      else if (re_event_type event =? workflow_task_started)%Z &&
              negb (bool_decide (is_Some (re_event_time event)))
      then Err MissingWorkflowTaskTimestamp
      else validate_events (expected + 1) events
  end.

Definition validate_replay_preconditions (history : History) (workflow_id : string) :
    result () ReplayInputError :=
  match head history ≫= re_attributes with
  | Some (WorkflowExecutionStartedEventAttributes started) =>
      if negb (str_is_empty (sa_workflow_id started)) &&
         negb (bool_decide (sa_workflow_id started = workflow_id))
      then Err WorkflowIdMismatch
      else if negb (bool_decide (is_Some (sa_task_queue started))) then Err MissingTaskQueue
      else validate_events 1 history
  | _ => Err InvalidHistory
  end.

(** [new_from_history] behind [catch_unwind], and the check of its run. *)
Definition checked_info (history : History) : result HistoryInfo ReplayInputError :=
  let? caught := ok_or (new_from_history history) InvalidHistory in
  let? info := ok_or caught InvalidHistory in
  if str_is_empty (orig_run_id info) then Err InvalidHistory else Ok info.

Definition decode_history_document (input : string) : result HistoryForReplay ReplayInputError :=
  let? document := decode_wire input in
  let? _ := validate_workflow_id (rd_workflow_id document) in
  let? bytes := decode_history_bytes (rd_history document) in
  let? history := ok_or (history_decode bytes) InvalidProtobuf in
  let? info := checked_info history in
  let? _ := validate_replay_preconditions history (rd_workflow_id document) in
  Ok (mkHistoryForReplay info (rd_workflow_id document)).

Definition encode_history_document (workflow_id : string) (history : History) :
    result string ReplayInputError :=
  let? _ := validate_workflow_id workflow_id in
  let? info := checked_info history in
  let bytes := history_encode (info_history info) in
  if MAX_PAYLOAD_BYTES <? bytes_len bytes then Err InvalidProtobuf
  else
    let document :=
      mkReplayHistoryDocument workflow_id (mkReplayPayload "base64" (base64_encode bytes)) in
    let? encoded := ok_or (to_string document) InvalidDocument in
    let? _ := decode_history_document encoded in
    Ok encoded.

(** ** What is accepted *)

Lemma validate_workflow_id_Ok id : validate_workflow_id id = Ok () ↔ is_name id.
Proof.
  unfold validate_workflow_id, is_name, text_fits.
  destruct id; [naive_solver|]. cbn [str_is_empty orb].
  destruct (N.ltb_spec MAX_STRING_BYTES (str_len (String a id))); cbn [orb];
    [split; [done|intros (_ & ? & _); lia]|].
  destruct (contains_nul _); naive_solver.
Qed.

Definition canonical (data : string) (bytes : list byte) : Prop :=
  base64_decode data = Some bytes ∧ base64_encode bytes = data ∧ bytes_len bytes ≤ MAX_PAYLOAD_BYTES.

Lemma decode_history_bytes_Ok payload bytes :
  decode_history_bytes payload = Ok bytes ↔
  rp_encoding payload = "base64" ∧ canonical (rp_data payload) bytes.
Proof.
  unfold decode_history_bytes, canonical. case_bool_decide as Henc; cbn [negb]; [|naive_solver].
  destruct (base64_decode _) as [decoded|]; cbn; [|naive_solver].
  destruct (N.ltb_spec MAX_PAYLOAD_BYTES (bytes_len decoded)); cbn [orb].
  { split; [done|]. intros (_ & [= ->] & _ & ?). lia. }
  case_bool_decide; cbn [negb]; naive_solver.
Qed.

(** An event that Core can apply at its place. *)
Definition event_applies (expected : Z) (event : ReplayEvent) : Prop :=
  re_event_id event = expected ∧
  (re_event_type event = workflow_task_started → is_Some (re_event_time event)).

Lemma validate_events_Ok expected events :
  validate_events expected events = Ok () ↔
  ∀ i event, events !! i = Some event → event_applies (expected + Z.of_nat i) event.
Proof.
  revert expected. induction events as [|event events IH]; intros expected; cbn [validate_events].
  { split; [|done]. intros _ i event Hi. by rewrite lookup_nil in Hi. }
  assert (event_applies expected event ∧ validate_events (expected + 1) events = Ok () ↔
    ∀ i event0, (event :: events) !! i = Some event0 →
      event_applies (expected + Z.of_nat i) event0) as <-.
  { rewrite IH. split.
    - intros [Hhead Htail] [|i] e; cbn; [intros [= ->]; by rewrite Z.add_0_r|].
      intros Hi. replace (expected + Z.of_nat (S i))%Z with (expected + 1 + Z.of_nat i)%Z by lia. auto.
    - intros Hall. split; [rewrite <-(Z.add_0_r expected); by apply (Hall 0%nat)|].
      intros i e Hi. replace (expected + 1 + Z.of_nat i)%Z with (expected + Z.of_nat (S i))%Z by lia.
      by apply Hall. }
  unfold event_applies. destruct (Z.eqb_spec (re_event_id event) expected); cbn [negb]; [|naive_solver].
  destruct (Z.eqb_spec (re_event_type event) workflow_task_started); cbn [andb]; [|naive_solver].
  case_bool_decide; cbn [negb]; naive_solver.
Qed.

(** What Core relies on when it replays a history under an ID. *)
Record replayable (history : History) (workflow_id : string) : Prop := {
  rb_start : ∃ first started, head history = Some first ∧
    re_attributes first = Some (WorkflowExecutionStartedEventAttributes started) ∧
    (sa_workflow_id started = "" ∨ sa_workflow_id started = workflow_id) ∧
    is_Some (sa_task_queue started);
  rb_events i event : history !! i = Some event → event_applies (1 + Z.of_nat i) event
}.

Lemma validate_replay_preconditions_Ok history workflow_id :
  validate_replay_preconditions history workflow_id = Ok () ↔ replayable history workflow_id.
Proof.
  unfold validate_replay_preconditions.
  assert (validate_events 1 history = Ok () ↔
    ∀ i event, history !! i = Some event → event_applies (1 + Z.of_nat i) event) as Hevents.
  { apply validate_events_Ok. }
  destruct (head history ≫= re_attributes) as [[started|]|] eqn:Hattributes.
  - apply bind_Some in Hattributes as (first & Hfirst & Hattributes).
    trans ((sa_workflow_id started = "" ∨ sa_workflow_id started = workflow_id) ∧
      is_Some (sa_task_queue started) ∧ validate_events 1 history = Ok ()).
    + destruct (sa_workflow_id started) as [|a s] eqn:Hid.
      * change (str_is_empty "") with true. cbn [negb andb].
        case_bool_decide; cbn [negb]; naive_solver.
      * change (str_is_empty (String a s)) with false. cbn [negb andb].
        case_bool_decide; cbn [negb]; [|naive_solver]. case_bool_decide; cbn [negb]; naive_solver.
    + rewrite Hevents. split.
      * intros (? & ? & ?). constructor; [|done]. by exists first, started.
      * intros [(first' & started' & Hfirst' & Hattributes' & ? & ?) ?].
        rewrite Hfirst in Hfirst'. injection Hfirst' as <-.
        rewrite Hattributes in Hattributes'. by injection Hattributes' as <-.
  - apply bind_Some in Hattributes as (first & Hfirst & Hattributes). split; [done|].
    intros [(first' & started' & Hfirst' & Hattributes' & _) _]. congruence.
  - split; [done|]. intros [(first' & started' & Hfirst' & Hattributes' & _) _].
    rewrite Hfirst' in Hattributes. cbn in Hattributes. congruence.
Qed.

Lemma checked_info_Ok history info :
  checked_info history = Ok info ↔
  new_from_history history = Some (Some info) ∧ orig_run_id info ≠ "".
Proof.
  unfold checked_info. destruct (new_from_history history) as [[found|]|]; cbn; try naive_solver.
  pose proof (str_is_empty_spec (orig_run_id found)). destruct (str_is_empty _); naive_solver.
Qed.

Lemma decode_wire_Ok input document :
  decode_wire input = Ok document ↔
  (∃ tree, decode_payload_object input = Ok tree) ∧ from_str input = Some document.
Proof.
  unfold decode_wire. destruct (decode_payload_object input) as [tree|]; cbn; [|naive_solver].
  destruct (from_str input); cbn; naive_solver.
Qed.

(** Every check of the reader. *)
Lemma decode_history_document_Ok input replay :
  decode_history_document input = Ok replay ↔
  ∃ document bytes history,
    decode_wire input = Ok document ∧
    is_name (rd_workflow_id document) ∧
    decode_history_bytes (rd_history document) = Ok bytes ∧
    history_decode bytes = Some history ∧
    checked_info history = Ok (hr_info replay) ∧
    replayable history (rd_workflow_id document) ∧
    hr_workflow_id replay = rd_workflow_id document.
Proof.
  unfold decode_history_document.
  destruct replay as [info id]; cbn [hr_info hr_workflow_id]. split.
  - intros (document & ? & [Hid Hrest]%seq_Ok)%bind_Ok.
    apply bind_Ok in Hrest as (bytes & ? & Hrest).
    apply bind_Ok in Hrest as (history & Hhistory%ok_or_Ok & Hrest).
    apply bind_Ok in Hrest as (info' & ? & Hrest). apply seq_Ok in Hrest as [Hreplay [= <- <-]].
    exists document, bytes, history. split_and!; try done;
      [by apply validate_workflow_id_Ok|by apply validate_replay_preconditions_Ok].
  - intros (document & bytes & history & Hwire & Hid & Hbytes & Hhistory & Hinfo & Hreplay & ->).
    rewrite Hwire. cbn beta iota. apply seq_Ok. split; [by apply validate_workflow_id_Ok|].
    rewrite Hbytes. cbn beta iota. rewrite Hhistory. cbn [ok_or]. rewrite Hinfo. cbn beta iota.
    apply seq_Ok. split; [by apply validate_replay_preconditions_Ok|done].
Qed.

(** A history document is admitted exactly when it is a strict document with a
    proper workflow ID and canonical base64 of a bounded protobuf, Core accepts the
    history with a run ID, the start event names no other workflow and has a task
    queue, the event IDs run 1, 2, 3, ... and every started workflow task has a time.
    What is admitted is Core's view of that history under the ID supplied. *)
Theorem history_admitted input replay :
  decode_history_document input = Ok replay ↔
  ∃ tree data bytes history,
    decode_payload_object input = Ok tree ∧
    from_str input =
      Some (mkReplayHistoryDocument (hr_workflow_id replay) (mkReplayPayload "base64" data)) ∧
    is_name (hr_workflow_id replay) ∧ canonical data bytes ∧
    history_decode bytes = Some history ∧
    new_from_history history = Some (Some (hr_info replay)) ∧ orig_run_id (hr_info replay) ≠ "" ∧
    replayable history (hr_workflow_id replay).
Proof.
  rewrite decode_history_document_Ok. setoid_rewrite decode_wire_Ok.
  setoid_rewrite decode_history_bytes_Ok. setoid_rewrite checked_info_Ok. split.
  - intros ([id [encoding data]] & bytes & history & [[tree ?] ?] & ? & [Henc ?] & ? & [? ?] & ? & Hid).
    cbn in *. subst. by exists tree, data, bytes, history.
  - intros (tree & data & bytes & history & ? & ? & ? & ? & ? & ? & ? & ?).
    eexists _, bytes, history. split_and!; [by exists tree|done..].
Qed.

(** A document that was encoded reads back as Core's view of the canonical
    history of what was encoded, under the same workflow ID. *)
Theorem history_document_round_trip `{!ReplayCoreLaws} `{!Base64Laws}
    `{!JsonTextLaws ReplayHistoryDocument} workflow_id history text :
  encode_history_document workflow_id history = Ok text →
  ∃ info canonical_info,
    new_from_history history = Some (Some info) ∧
    new_from_history (info_history info) = Some (Some canonical_info) ∧
    decode_history_document text = Ok (mkHistoryForReplay canonical_info workflow_id) ∧
    replayable (info_history info) workflow_id.
Proof.
  unfold encode_history_document. rewrite seq_Ok. intros [_ (info & Hinfo & Hrest)%bind_Ok].
  revert Hrest. cbv zeta. case_match; [done|].
  intros (encoded & Hencoded%ok_or_Ok & (replay & Hdecode & [= ->])%bind_Ok)%bind_Ok.
  apply checked_info_Ok in Hinfo as [Hinfo _].
  pose proof Hdecode as (document & bytes & found & [_ Hfrom]%decode_wire_Ok & _ &
    [_ (Hbytes & _)]%decode_history_bytes_Ok & Hfound & [Hcanonical _]%checked_info_Ok &
    Hreplay & Hid)%decode_history_document_Ok.
  rewrite (from_to_string _ _ Hencoded) in Hfrom. injection Hfrom as <-. cbn in *.
  rewrite base64_decode_encode in Hbytes. injection Hbytes as <-.
  rewrite history_decode_encode in Hfound. injection Hfound as <-.
  exists info, (hr_info replay). split_and!; [done..| |done]. by destruct replay; cbn in *; subst.
Qed.

End Replay.
