(* ===== verification/ReplayWorker.v ===== *)
(** * Replay workers

    [ReplayWorker] of src/rust/core-bridge/src/replay_bridge.rs: the history feeder
    and the operations of the owner, composed from the calls of [PollLanes] that they
    await.  A worker runs on top of the lanes' [World], so an operation interleaves
    with the poll lane.  The answers of the feeder and the wake-ups of a wait are
    inputs. *)

From S2P Require Import Prelude.
From S2P Require Import TaskLedger.
From S2P Require Import Readiness.
From S2P Require Import PollLanes.
From S2P Require Import LaneDebts.
From S2P Require Import LaneSafety.
From S2P Require Import OwnerSafety.
From S2P Require Import LaneTheorems.
From S2P Require Import Protocol.
From S2P Require Import ClientDocuments.
From S2P Require Import Replay.

(** ** Errors *)

Inductive ReplayWorkerError :=
| FeederClosed
| ReplayNotDrained (input_finished workflow_shutdown_observed outstanding_tasks : bool)
| InvalidReplayHistory (error : ReplayInputError)
| CoreInitialization
| ReplayPollLane (error : PollLaneError)
| ReplayFinalization (error : WorkerBridgeError)
| ReplayTimedOut (operation : string).

Definition poll_lane_category (error : PollLaneError) : string :=
  match error with
  | LaneCore _ => "Core polling failed"
  | LaneAdmission Retired => "poll identity was already retired during disposal"
  | LaneAdmission _ => "poll task admission failed"
  | DuplicateIdentity => "poll task identity was duplicated"
  | InvalidActivityVariant => "poll activity variant was invalid"
  end.

Definition finalization_category (error : WorkerBridgeError) : string :=
  match error with
  | Completion _ => "worker completion was invalid"
  | CoreWorkflow _ => "Core workflow completion failed"
  | CoreActivity _ => "Core activity completion failed"
  | RetryableActivityCompletion => "worker completion transport was temporarily unavailable"
  | OutstandingTasks _ => "worker has outstanding tasks"
  | LostPollLease => "worker has an uncompleted poll lease"
  | WorkerStillShared => "worker ownership was not released"
  | CompletionStranded => "workflow completion was not processed before Core shut down"
  | CoreWaitTimedOut => "Core did not respond within its bound"
  end.

(** The [Display] text. *)
Definition worker_error_text (error : ReplayWorkerError) : string :=
  match error with
  | FeederClosed => "replay history feeder is closed"
  | ReplayNotDrained _ _ _ => "replay worker input was not fully drained"
  | InvalidReplayHistory error => "invalid replay history: " +:+ input_error_text error
  | CoreInitialization => "Core replay worker initialization failed"
  | ReplayPollLane error => poll_lane_category error
  | ReplayFinalization error => finalization_category error
  | ReplayTimedOut operation => "replay " +:+ operation +:+ " did not finish within its bound"
  end.

(** ** The worker *)

(** The call of the lanes that an operation awaits, and what it does next. *)
Inductive ReplayPoint {History : Type} :=
| RpFeed (history : History)
| RpWait (deadline : N)
| RpTake
| RpComplete
| RpReject
| FzMark
| FzJoin
| FzShutdown (error : PollLaneError)
| FzAbandon (error : PollLaneError)
| FzFinalize
| DsAbandon
| DsShutdown
| DsJoin
| DsAbandonAgain
| DsFinalize.
Arguments ReplayPoint : clear implicits.

Inductive ReplayResult :=
| FeedResult (r : result () ReplayWorkerError)
| InputFinished
| WaitResult (readiness : ReadinessWait)
| TakeResult (task : option (ReadyTask WorkflowActivation))
| CompleteResult (r : result () ReplayWorkerError)
| RejectResult (r : result () ReplayWorkerError)
| FinalizeReplayResult (r : result () ReplayWorkerError)
| DisposeResult (r : result () ReplayWorkerError).

(** How a worker was consumed. *)
Inductive Release := ReleasedByFinalize | ReleasedByDispose | Leaked.

Inductive ReplayCall :=
| FeedJson (input : string)
| FinishInput
| WaitWorkflow (now : N)
| TryTakeWorkflow
| CompleteWorkflow (completion : WorkflowActivationCompletion)
| RejectWorkflowDelivery (run_id reason : string)
| Finalize
| Dispose.

(** How [feeder.feed] under its timeout ends. *)
Inductive FeedAnswer := Fed | FeedRefused | FeedElapsed.

Inductive ReplayInput :=
| RvCall (call : ReplayCall)
| RvFeed (answer : FeedAnswer)
| RvWake (timed_out : bool) (now : N)
| RvWorld (event : Event)
| RvResume.

Section ReplayWorker.
Context {C : Type → Type} `{!Mpsc C}.
Context `{SerdeJson} `{Base64} `{JsonText ReplayHistoryDocument} `{ReplayCore}.
Variable is_local_activity_task : list byte → bool.
Local Notation world_step := (world_step is_local_activity_task).

Record ReplayWorker := mkReplayWorker {
  rw_world : World C;
  (** The sender of the feeder is there. *)
  rw_feeder : bool;
  rw_shutdown_observed : bool;
  rw_point : option (ReplayPoint HistoryForReplay);
  rw_results : list ReplayResult;
  rw_fed : list HistoryForReplay;
  rw_released : option Release
}.

(** [start] after [init_replay_worker]. *)
Definition ReplayWorker_start (initialized : bool) : result ReplayWorker ReplayWorkerError :=
  if initialized then
    Ok (mkReplayWorker (world_init true false true) true false None [] [] None)
  else Err CoreInitialization.

Definition with_world (w : World C) (r : ReplayWorker) : ReplayWorker :=
  mkReplayWorker w (rw_feeder r) (rw_shutdown_observed r) (rw_point r) (rw_results r) (rw_fed r)
    (rw_released r).

Definition at_point (point : option (ReplayPoint HistoryForReplay)) (r : ReplayWorker) :
    ReplayWorker :=
  mkReplayWorker (rw_world r) (rw_feeder r) (rw_shutdown_observed r) point (rw_results r)
    (rw_fed r) (rw_released r).

(** The operation returns. *)
Definition returns (res : ReplayResult) (r : ReplayWorker) : ReplayWorker :=
  mkReplayWorker (rw_world r) (rw_feeder r) (rw_shutdown_observed r) None (rw_results r ++ [res])
    (rw_fed r) (rw_released r).

(** The operation returns and the worker is gone. *)
Definition releases (how : Release) (res : ReplayResult) (r : ReplayWorker) : ReplayWorker :=
  mkReplayWorker (rw_world r) (rw_feeder r) (rw_shutdown_observed r) None (rw_results r ++ [res])
    (rw_fed r) (Some how).

Definition call_lanes (call : OwnerCall) (point : ReplayPoint HistoryForReplay) (r : ReplayWorker) :
    option ReplayWorker :=
  w ← world_step (EvCall call) (rw_world r);
  Some (at_point (Some point) (with_world w r)).

(** *** Feeding *)

Definition feed_json (input : string) (r : ReplayWorker) : ReplayWorker :=
  match decode_history_document input with
  | Err error => returns (FeedResult (Err (InvalidReplayHistory error))) r
  | Ok history =>
      if rw_feeder r then at_point (Some (RpFeed history)) r
      else returns (FeedResult (Err FeederClosed)) r
  end.

Definition feed_answered (history : HistoryForReplay) (answer : FeedAnswer) (r : ReplayWorker) :
    ReplayWorker :=
  match answer with
  | Fed =>
      returns (FeedResult (Ok ()))
        (mkReplayWorker (rw_world r) (rw_feeder r) (rw_shutdown_observed r) (rw_point r)
          (rw_results r) (rw_fed r ++ [history]) (rw_released r))
  | FeedRefused => returns (FeedResult (Err FeederClosed)) r
  | FeedElapsed => returns (FeedResult (Err (ReplayTimedOut "history feed"))) r
  end.

Definition finish_input (r : ReplayWorker) : ReplayWorker :=
  mkReplayWorker (rw_world r) false (rw_shutdown_observed r) (rw_point r) (rw_results r)
    (rw_fed r) (rw_released r).

(** *** Waiting *)

Definition observe_shutdown (readiness : ReadinessWait) (r : ReplayWorker) : ReplayWorker :=
  mkReplayWorker (rw_world r) (rw_feeder r)
    (match readiness with WaitShutdown => true | _ => rw_shutdown_observed r end) (rw_point r)
    (rw_results r) (rw_fed r) (rw_released r).

(** One turn of the lane's wait, with the state it finds. *)
Definition wait_workflow (deadline : N) (timed_out : bool) (now : N) (r : ReplayWorker) :
    ReplayWorker :=
  let point :=
    mkWaitPoint timed_out (state (workflow_signal (lanes (rw_world r)))) now in
  match wait_loop deadline [point] with
  | Some readiness => returns (WaitResult readiness) (observe_shutdown readiness r)
  | None => r
  end.

(** *** Finalization and disposal *)

Definition finalize (r : ReplayWorker) : option ReplayWorker :=
  let l := lanes (rw_world r) in
  if replay_join_timed_out l then
    Some (returns (FinalizeReplayResult (Err (ReplayPollLane
      (LaneCore "workflow poll lane did not stop within its bound")))) r)
  else
    let input_finished := negb (rw_feeder r) in
    let outstanding_tasks := has_outstanding_tasks l in
    if negb input_finished || negb (rw_shutdown_observed r) || outstanding_tasks then
      Some (returns (FinalizeReplayResult (Err (ReplayNotDrained input_finished
        (rw_shutdown_observed r) outstanding_tasks))) r)
    else call_lanes CallMarkNaturalShutdown FzMark r.

Definition dispose (r : ReplayWorker) : option ReplayWorker :=
  let r := finish_input r in
  if replay_join_timed_out (lanes (rw_world r)) then
    Some (releases Leaked (DisposeResult (Ok ())) r)
  else call_lanes CallAbandonReplay DsAbandon r.

Definition call (c : ReplayCall) (r : ReplayWorker) : option ReplayWorker :=
  match c with
  | FeedJson input => Some (feed_json input r)
  | FinishInput => Some (returns InputFinished (finish_input r))
  | WaitWorkflow now =>
      Some (at_point (Some (RpWait (now + READINESS_WAIT_TIMEOUT_MS)%N)) r)
  | TryTakeWorkflow => call_lanes CallTryTakeWorkflow RpTake r
  | CompleteWorkflow completion =>
      call_lanes (CallCompleteReplayWorkflow completion) RpComplete r
  | RejectWorkflowDelivery run_id reason =>
      call_lanes (CallRejectReplayWorkflow run_id reason) RpReject r
  | Finalize => finalize r
  | Dispose => dispose r
  end.

(** What follows the call that was awaited, given what it returned. *)
Definition resume (point : ReplayPoint HistoryForReplay) (res : OwnerResult) (r : ReplayWorker) :
    option ReplayWorker :=
  match point, res with
  | RpTake, TookWorkflow task => Some (returns (TakeResult task) r)
  | RpComplete, UnitResult outcome =>
      Some (returns (CompleteResult (map_err ReplayFinalization outcome)) r)
  | RpReject, UnitResult outcome =>
      Some (returns (RejectResult (map_err ReplayFinalization outcome)) r)
  | FzMark, Returned => call_lanes CallJoinReplay FzJoin r
  | FzJoin, LaneJoinResult (Err error) => call_lanes CallInitiateShutdown (FzShutdown error) r
  | FzShutdown error, Returned => call_lanes CallAbandonReplay (FzAbandon error) r
  | FzAbandon error, Returned =>
      Some (returns (FinalizeReplayResult (Err (ReplayPollLane error))) r)
  | FzJoin, LaneJoinResult (Ok _) => call_lanes CallFinalize FzFinalize r
  | FzFinalize, FinalizeResult (Ok _) =>
      Some (releases ReleasedByFinalize (FinalizeReplayResult (Ok ())) r)
  | FzFinalize, FinalizeResult (Err error) =>
      Some (returns (FinalizeReplayResult (Err (ReplayFinalization error))) r)
  | DsAbandon, Returned => call_lanes CallInitiateShutdown DsShutdown r
  | DsShutdown, Returned => call_lanes CallJoinReplay DsJoin r
  | DsJoin, LaneJoinResult (Err error) =>
      Some (returns (DisposeResult (Err (ReplayPollLane error))) r)
  | DsJoin, LaneJoinResult (Ok _) => call_lanes CallAbandonReplay DsAbandonAgain r
  | DsAbandonAgain, Returned => call_lanes CallFinalize DsFinalize r
  | DsFinalize, FinalizeResult (Ok _) =>
      Some (releases ReleasedByDispose (DisposeResult (Ok ())) r)
  | DsFinalize, FinalizeResult (Err error) =>
      Some (returns (DisposeResult (Err (ReplayFinalization error))) r)
  | _, _ => None
  end.

(** ** Runs *)

Definition is_call (event : Event) : bool := match event with EvCall _ => true | _ => false end.

(** A call needs an idle worker that is still there; an operation goes on when
    the call it awaits has returned. *)
Definition replay_step (input : ReplayInput) (r : ReplayWorker) : option ReplayWorker :=
  match input with
  | RvCall c =>
      match rw_point r, rw_released r with None, None => call c r | _, _ => None end
  | RvFeed answer =>
      match rw_point r with
      | Some (RpFeed history) => Some (feed_answered history answer r)
      | _ => None
      end
  | RvWake timed_out now =>
      match rw_point r with
      | Some (RpWait deadline) => Some (wait_workflow deadline timed_out now r)
      | _ => None
      end
  | RvWorld event =>
      if is_call event then None
      else w ← world_step event (rw_world r); Some (with_world w r)
  | RvResume =>
      match rw_point r, agenda (rw_world r), last (results (rw_world r)) with
      | Some point, [], Some res => resume point res r
      | _, _, _ => None
      end
  end.

Fixpoint replay_run (inputs : list ReplayInput) (r : ReplayWorker) : option ReplayWorker :=
  match inputs with
  | [] => Some r
  | input :: inputs => replay_step input r ≫= replay_run inputs
  end.

End ReplayWorker.
