(* ===== verification/ReplaySafety.v ===== *)
(** * Safety of replay workers

    What a successful finalization of a replay proves, and that a worker whose lane
    did not stop is never handed to Core's finalizer. *)

From S2P Require Import Prelude.
From S2P Require Import TaskLedger.
From S2P Require Import Readiness.
From S2P Require Import PollLanes.
From S2P Require Import LaneDebts.
From S2P Require Import LaneSafety.
From S2P Require Import OwnerSafety.
From S2P Require Import LaneTheorems.
From S2P Require Import Protocol.
From S2P Require Import ClientDocuments.
From S2P Require Import Replay.
From S2P Require Import ReplayWorker.

(** ** Which call a point belongs to *)

Inductive Kind :=
| KTakeWorkflow | KTakeActivity | KShutdown | KMark | KCompleteWorkflow | KCompleteActivity
| KHeartbeat | KRejectWorkflow | KRejectActivity | KDrain | KJoin | KReplayJoin | KDispose
| KAbandon | KFinalize.

#[global] Instance Kind_eq_dec : EqDecision Kind.
Proof. solve_decision. Defined.

Definition kind_of (i : instr) : Kind :=
  match i with
  | ITryTakeWorkflow _ => KTakeWorkflow
  | ITryTakeActivity _ => KTakeActivity
  | IInitiateShutdown _ => KShutdown
  | IMarkNaturalShutdown => KMark
  | ICompleteWorkflow _ => KCompleteWorkflow
  | ICompleteActivity _ => KCompleteActivity
  | IHeartbeat _ => KHeartbeat
  | IRejectWorkflow _ => KRejectWorkflow
  | IRejectActivity _ => KRejectActivity
  | IRetire _ | IDrain _ | IDrainTimedOut _ => KDrain
  | IJoin _ => KJoin
  | IReplayJoin _ => KReplayJoin
  | IDispose _ => KDispose
  | IAbandonReplay _ => KAbandon
  | IFinalize => KFinalize
  end.

Definition point_kind {History} (point : ReplayPoint History) : option Kind :=
  match point with
  | RpFeed _ | RpWait _ => None
  | RpTake => Some KTakeWorkflow
  | RpComplete => Some KCompleteWorkflow
  | RpReject => Some KRejectWorkflow
  | FzMark => Some KMark
  | FzJoin | DsJoin => Some KReplayJoin
  | FzShutdown _ | DsShutdown => Some KShutdown
  | FzAbandon _ | DsAbandon | DsAbandonAgain => Some KAbandon
  | FzFinalize | DsFinalize => Some KFinalize
  end.

Section Frame.
Context {C : Type → Type} `{!Mpsc C} `{!MpscLaws C}.
Variable is_local_activity_task : list byte → bool.
Local Notation owner_exec := (owner_exec is_local_activity_task).

Lemma workflow_take_frame rf (l : PollLanes C) o l' :
  workflow_take rf l = (o, l') →
  core_calls l' = core_calls l ∧ replay_join_timed_out l' = replay_join_timed_out l ∧
  shutdown_started l' = shutdown_started l.
Proof. unfold workflow_take. destruct (take_inner _ _ _) as [[]]. by intros [= <- <-]. Qed.

Lemma activity_take_frame rf (l : PollLanes C) o l' :
  activity_take rf l = (o, l') →
  core_calls l' = core_calls l ∧ replay_join_timed_out l' = replay_join_timed_out l ∧
  shutdown_started l' = shutdown_started l ∧ workflow_signal l' = workflow_signal l.
Proof. unfold activity_take. destruct (take_inner _ _ _) as [[]]. by intros [= <- <-]. Qed.

Ltac taken :=
  repeat match goal with
  | H : workflow_take _ _ = (_, _) |- _ => apply workflow_take_frame in H as (? & ? & ?)
  | H : activity_take _ _ = (_, _) |- _ => apply activity_take_frame in H as (? & ? & ? & ?)
  end.

(** A step stays within its call. *)
Lemma owner_exec_kind status input i (l : PollLanes C) out :
  owner_exec status input i l = Some out →
  Forall (λ j, kind_of j = kind_of i) (out_next out).
Proof.
  intros Hrun. owner_cases i Hrun; try (by repeat constructor).
  all: rewrite ?Forall_app, ?Forall_fmap; repeat split;
    try (apply Forall_forall; intros; by destruct_and?);
    try (by repeat constructor); try (apply Forall_forall; done).
Qed.

(** What a step does to the calls of Core that matter here: shutdown is initiated
    and Core finalized only by the points made for it. *)
Lemma owner_exec_calls status input i (l : PollLanes C) out :
  owner_exec status input i l = Some out →
  (∀ c, c ∈ core_calls l → c ∈ core_calls (out_lanes out)) ∧
  (InitiateShutdown ∈ core_calls (out_lanes out) →
    InitiateShutdown ∈ core_calls l ∨ i = IInitiateShutdown IsCore) ∧
  (FinalizeShutdown ∈ core_calls (out_lanes out) →
    FinalizeShutdown ∈ core_calls l ∨ i = IFinalize ∧ finalized (out_result out) = true) ∧
  (finalized (out_result out) = true → FinalizeShutdown ∈ core_calls (out_lanes out)) ∧
  (i = IInitiateShutdown IsCore → InitiateShutdown ∈ core_calls (out_lanes out)).
Proof.
  intros Hrun. owner_cases i Hrun; taken; simpl;
    repeat match goal with H : core_calls _ = core_calls _ |- _ => rewrite H; clear H end;
    split_and!; intros; rewrite ?elem_of_app, ?list_elem_of_singleton in *; try naive_solver.
  all: unfold complete_workflow_for_dispose, core_call in *; destruct eviction_only; cbn in *;
    rewrite ?elem_of_app, ?list_elem_of_singleton in *; naive_solver.
Qed.

(** A join that times out says so and returns an error at once. *)
Lemma owner_exec_timed_out status input i (l : PollLanes C) out :
  owner_exec status input i l = Some out →
  replay_join_timed_out (out_lanes out) = replay_join_timed_out l ∨
  kind_of i = KReplayJoin ∧ out_next out = [] ∧
    ∃ e, out_result out = Some (LaneJoinResult (Err e)).
Proof.
  intros Hrun. owner_cases i Hrun; taken; simpl;
    first [by left|by right; split_and!; [..|eexists]|left].
  unfold complete_workflow_for_dispose, core_call. by destruct eviction_only.
Qed.

Lemma owner_exec_timed_set status input i (l : PollLanes C) out :
  owner_exec status input i l = Some out →
  replay_join_timed_out l = true → replay_join_timed_out (out_lanes out) = true.
Proof.
  intros Hrun Ht. owner_cases i Hrun; taken; simpl; try congruence.
  unfold complete_workflow_for_dispose, core_call. by destruct eviction_only.
Qed.

Lemma owner_exec_started status input i (l : PollLanes C) out :
  owner_exec status input i l = Some out →
  shutdown_started (out_lanes out) = shutdown_started l ∨ kind_of i = KShutdown.
Proof.
  intros Hrun. owner_cases i Hrun; taken; simpl; first [by left|by right|left].
  unfold complete_workflow_for_dispose, core_call. by destruct eviction_only.
Qed.

(** ** Why the workflow signal is closed *)

Definition sig (l : PollLanes C) : ReadinessState := state (workflow_signal l).
Definition sender_gone (l : PollLanes C) : Prop :=
  mpsc_sender_open (queue (workflow_signal l)) = false.

(** Core ended the stream, or the lane failed. *)
Definition lane_over (l : PollLanes C) : Prop :=
  core_stream_ended (sig l) = true ∨ is_Some (lane_error (sig l)).

Definition explained (l : PollLanes C) : Prop :=
  (closed (sig l) = true ∨ sender_gone l) → lane_over l.

(** A step of the owner that does not shut down leaves the explanation alone. *)
Definition same_story (l l' : PollLanes C) : Prop :=
  core_stream_ended (sig l') = core_stream_ended (sig l) ∧
  lane_error (sig l') = lane_error (sig l) ∧
  (sender_gone l' → sender_gone l) ∧
  (closed (sig l') = true → closed (sig l) = true ∨ sender_gone l).

Lemma take_story {T} rf (r : Readiness C T) g o r' g' :
  take_inner rf r g = (o, r', g') →
  core_stream_ended (state r') = core_stream_ended (state r) ∧
  lane_error (state r') = lane_error (state r) ∧
  mpsc_sender_open (queue r') = mpsc_sender_open (queue r) ∧
  (closed (state r') = true → closed (state r) = true ∨ mpsc_sender_open (queue r) = false).
Proof.
  unfold take_inner. destruct (mpsc_contents (queue r)) as [|m q] eqn:Hc.
  - rewrite (mpsc_try_recv_nil _ Hc). destruct (mpsc_sender_open (queue r)) eqn:Hs;
      intros [= <- <- <-]; cbn; auto.
  - destruct (mpsc_try_recv_cons _ _ _ Hc) as (c' & -> & _ & _ & Hs).
    intros [= <- <- <-]; cbn; auto.
Qed.

Lemma take_async_story {T} (r : Readiness C T) o r' :
  take_async_recv r = Some (o, r') →
  state r' = state r ∧ mpsc_sender_open (queue r') = mpsc_sender_open (queue r).
Proof.
  unfold take_async_recv. destruct (mpsc_contents (queue r)) as [|m q] eqn:Hc.
  - rewrite (mpsc_try_recv_nil _ Hc). destruct (mpsc_sender_open (queue r)) eqn:Hs; intros [=]; by subst.
  - destruct (mpsc_try_recv_cons _ _ _ Hc) as (c' & -> & _ & _ & Hs). by intros [= <- <-].
Qed.

Lemma workflow_take_story rf (l : PollLanes C) o l' : workflow_take rf l = (o, l') → same_story l l'.
Proof.
  unfold workflow_take, same_story, sender_gone, sig.
  destruct (take_inner _ _ _) as [[o' r'] g'] eqn:Ht. intros [= <- <-]; cbn.
  apply take_story in Ht as (-> & -> & -> & ?). auto.
Qed.

Lemma same_story_refl l : same_story l l.
Proof. unfold same_story. auto. Qed.

Lemma same_story_signal (l l' l'' : PollLanes C) :
  same_story l l' → workflow_signal l'' = workflow_signal l' → same_story l l''.
Proof. unfold same_story, sender_gone, sig. by intros Hs ->. Qed.

Lemma explained_story l l' : same_story l l' → explained l → explained l'.
Proof.
  unfold explained, lane_over. intros (-> & -> & Hs & Hc) He [Hcl%Hc|Hg%Hs]; naive_solver.
Qed.

Lemma owner_exec_story status input i (l : PollLanes C) out :
  owner_exec status input i l = Some out → kind_of i ≠ KShutdown → same_story l (out_lanes out).
Proof.
  intros Hrun Hkind. owner_cases i Hrun;
    repeat match goal with
    | H : workflow_take _ _ = (_, _) |- _ => apply workflow_take_story in H
    | H : activity_take _ _ = (_, _) |- _ => apply activity_take_frame in H as (_ & _ & _ & H)
    | H : take_async_recv (workflow_signal _) = Some (_, _) |- _ =>
        apply take_async_story in H as [??]
    end;
    try (eapply same_story_signal; [apply same_story_refl|done]);
    try (eapply same_story_signal; [done|done]);
    try (by unfold same_story, sender_gone, sig; simpl;
      repeat match goal with H : _ = _ |- _ => rewrite H end; auto).
  unfold complete_workflow_for_dispose, core_call. destruct eviction_only;
    (eapply same_story_signal; [apply same_story_refl|done]).
Qed.

(** The lane's points that an open queue never leads to. *)
Definition pc_open (pc : WorkflowLanePoint) : bool :=
  match pc with WlAbandon _ | WlFailClosed _ => false | _ => true end.

Lemma workflow_lane_frame poll pc (l : PollLanes C) l' pc' lost :
  run_workflow_lane poll pc l = (l', pc', lost) →
  (∀ c, c ∈ core_calls l → c ∈ core_calls l') ∧
  (InitiateShutdown ∈ core_calls l' → InitiateShutdown ∈ core_calls l) ∧
  (FinalizeShutdown ∈ core_calls l' → FinalizeShutdown ∈ core_calls l) ∧
  replay_join_timed_out l' = replay_join_timed_out l ∧ shutdown_started l' = shutdown_started l.
Proof.
  intros Hrun. destruct pc; simpl in Hrun;
    try (unfold workflow_enqueue in Hrun; destruct (enqueue _ _ _) as [[[] r'] g']);
    unfold workflow_lane_exit in Hrun; repeat case_match; simplify_eq/=;
    try (injection Hrun as <- <- <-); cbn; split_and!; intros;
    rewrite ?elem_of_app, ?list_elem_of_singleton in *; naive_solver.
Qed.

Lemma activity_lane_frame poll pc (l : PollLanes C) l' pc' lost :
  run_activity_lane is_local_activity_task poll pc l = (l', pc', lost) →
  (∀ c, c ∈ core_calls l → c ∈ core_calls l') ∧
  replay_join_timed_out l' = replay_join_timed_out l.
Proof.
  intros Hrun. destruct pc; simpl in Hrun;
    try (unfold activity_enqueue in Hrun; destruct (enqueue _ _ _) as [[[] r'] g']);
    unfold activity_lane_exit in Hrun; repeat case_match; simplify_eq/=;
    try (injection Hrun as <- <- <-); cbn; split; intros;
    rewrite ?elem_of_app, ?list_elem_of_singleton in *; naive_solver.
Qed.

Lemma enqueue_story m (l : PollLanes C) :
  queues_open l →
  ∃ l', workflow_enqueue m l = (true, l') ∧
    same_story l l' ∧ closed (sig l') = closed (sig l).
Proof.
  intros [Ho _]. unfold workflow_enqueue, enqueue, same_story, sender_gone, sig.
  destruct (mpsc_send_open m (queue (workflow_signal l)) Ho) as (c' & -> & _ & _ & Hs).
  eexists. split; [done|]. cbn. by rewrite Hs; split_and!; auto.
Qed.

Lemma workflow_lane_story poll pc (l : PollLanes C) l' pc' lost :
  run_workflow_lane poll pc l = (l', pc', lost) → queues_open l → pc_open pc = true →
  pc_open pc' = true ∧ (explained l → explained l') ∧
  (core_stream_ended (sig l) = true → core_stream_ended (sig l') = true).
Proof.
  intros Hrun Hopen Hpc. destruct pc; try done; simpl in Hrun;
    try (match type of Hrun with context [workflow_enqueue ?m l] =>
           destruct (enqueue_story m l Hopen) as (l1 & He & Hs & _); rewrite He in Hrun end);
    unfold workflow_lane_exit in Hrun; repeat case_match; simplify_eq/=;
    try (injection Hrun as <- <- <-); (split; [done|]).
  all: try (by split; [eapply explained_story|destruct Hs as (-> & _)]).
  all: try (by split; [eapply explained_story; eapply same_story_signal;
    [apply same_story_refl|]|]).
  - unfold explained, lane_over, sig; cbn. eauto.
  - unfold explained, lane_over, sig; cbn. rewrite orb_true_r. auto.
Qed.

(** Calls that never have more than one point on the agenda. *)
Definition single (k : Kind) : bool :=
  match k with KFinalize | KReplayJoin | KShutdown | KMark => true | _ => false end.

Lemma owner_exec_single status input i (l : PollLanes C) out :
  owner_exec status input i l = Some out → single (kind_of i) = true →
  length (out_next out) ≤ 1.
Proof. intros Hrun Hs. owner_cases i Hrun; simpl; lia. Qed.

(** What never goes away. *)
Lemma world_flags_grow ev (w w' : World C) :
  world_step is_local_activity_task ev w = Some w' →
  (∀ c, c ∈ core_calls (lanes w) → c ∈ core_calls (lanes w')) ∧
  (replay_join_timed_out (lanes w) = true → replay_join_timed_out (lanes w') = true).
Proof.
  intros Hstep. destruct ev.
  - apply workflow_event_inv in Hstep as (_ & l & pc' & lost & Hrun & ->).
    apply workflow_lane_frame in Hrun as (Hkeep & _ & _ & Ht & _). cbn. by rewrite Ht.
  - apply activity_event_inv in Hstep as (_ & l & pc' & lost & Hrun & ->). cbn.
    apply activity_lane_frame in Hrun as [? ->]. auto.
  - cbn in Hstep. destruct (agenda w); [|done]. destruct (owner_consumed w); [done|].
    injection Hstep as <-. by destruct call.
  - cbn in Hstep. destruct (agenda w) as [|i rest]; [done|].
    destruct (PollLanes.owner_exec _ _ _ _ _) as [out|] eqn:Hrun; [|done]. injection Hstep as <-. cbn.
    pose proof (owner_exec_calls _ _ _ _ _ Hrun) as [Hcalls _]. split; [done|].
    intros Ht. by eapply owner_exec_timed_set.
  - cbn in Hstep. destruct (agenda w); [done|]. case_match; [|done]. by injection Hstep as <-.
  - cbn in Hstep. destruct (agenda w); [done|]. case_match; [|done]. by injection Hstep as <-.
  - cbn in Hstep. case_match; [|done]. by injection Hstep as <-.
Qed.

(** ** Stuck lanes *)

Section Stuck.
Context {History : Type}.
Implicit Types (point : option (ReplayPoint History)) (w : World C).

(** Where a worker whose join timed out can be. *)
Definition stuck_at point w : Prop :=
  match point with
  | Some FzJoin | Some DsJoin =>
      agenda w = [] ∧ ∃ e, last (results w) = Some (LaneJoinResult (Err e))
  | Some FzMark | Some FzFinalize | Some DsAbandon | Some DsShutdown | Some DsAbandonAgain
  | Some DsFinalize => False
  | _ => True
  end.

Record core_ok point w : Prop := {
  co_agenda : match point ≫= point_kind with
    | Some k => Forall (λ i, kind_of i = k) (agenda w) ∧ (single k = true → length (agenda w) ≤ 1)
    | None => agenda w = []
    end;
  co_activity : activity_pc w = AlDone;
  co_finalized : FinalizeShutdown ∈ core_calls (lanes w) → owner_consumed w = true ∧ agenda w = [];
  co_result : FinalizeResult (Ok tt) ∈ results w → FinalizeShutdown ∈ core_calls (lanes w);
  co_stuck : replay_join_timed_out (lanes w) = true →
    FinalizeShutdown ∉ core_calls (lanes w) ∧ stuck_at point w
}.

(** The head of the agenda is a point of the operation. *)
Lemma agenda_head point w i rest :
  core_ok point w → agenda w = i :: rest →
  (point ≫= point_kind) = Some (kind_of i) ∧ Forall (λ j, kind_of j = kind_of i) rest ∧
  (single (kind_of i) = true → rest = []) ∧
  FinalizeShutdown ∉ core_calls (lanes w).
Proof.
  intros Hok Ha. pose proof (co_agenda _ _ Hok) as Hk. rewrite Ha in Hk.
  destruct (point ≫= point_kind) as [k|]; [|done].
  destruct Hk as [[<- Hrest]%Forall_cons Hs]. split_and!; [done..| |].
  - intros Hsingle. specialize (Hs Hsingle). destruct rest; [done|simpl in Hs; lia].
  - intros Hfin. apply (co_finalized _ _ Hok) in Hfin as [_ Hnil]. congruence.
Qed.

Lemma core_ok_owner point w input w' :
  world_step is_local_activity_task (EvOwner input) w = Some w' → core_ok point w → core_ok point w'.
Proof.
  cbn [world_step]. intros Hstep Hok. destruct (agenda w) as [|i rest] eqn:Ha; [done|].
  destruct (agenda_head _ _ _ _ Hok Ha) as (Hpoint & Hrest & Hsingle & Hfin).
  destruct (PollLanes.owner_exec _ _ _ _ _) as [out|] eqn:Hrun; [|done]. injection Hstep as <-.
  pose proof (owner_exec_kind _ _ _ _ _ Hrun) as Hkind.
  pose proof (owner_exec_calls _ _ _ _ _ Hrun) as (_ & _ & Hcall & Hresult & _).
  pose proof (owner_exec_timed_out _ _ _ _ _ Hrun) as Htimed.
  pose proof (owner_exec_single _ _ _ _ _ Hrun) as Hone.
  destruct Hok as [_ Hactivity _ Hres Hstuck].
  split; cbn [agenda activity_pc lanes owner_consumed results]; try done.
  - rewrite Hpoint. split; [by apply Forall_app|]. intros Hs. rewrite (Hsingle Hs), app_nil_r. auto.
  - intros [?|[-> Hf]]%Hcall; [done|]. rewrite Hf, orb_true_r. split; [done|].
    rewrite (Hsingle eq_refl), app_nil_r. specialize (Hone eq_refl).
    unfold PollLanes.owner_exec, PollLanes.finalize, return_ in Hrun. repeat case_match; by simplify_eq/=.
  - rewrite elem_of_app. intros [?%Hres|Hr]; [done|].
    apply Hresult. destruct (out_result out) as [r|]; [|by apply elem_of_nil in Hr].
    apply list_elem_of_singleton in Hr as <-. done.
  - intros Ht. destruct Htimed as [Hsame|(Hk & Hnext & e & Hr)].
    + rewrite Hsame in Ht. destruct (Hstuck Ht) as [_ Hat]. split; [|].
      * intros [?|[-> _]]%Hcall; [done|].
        destruct point as [[]|]; by simplify_eq/=.
      * destruct point as [[]|]; try done; cbn in Hat; destruct Hat as [Hnil _]; congruence.
    + split; [by intros [?|[-> _]]%Hcall|]. rewrite Hk in Hpoint, Hsingle.
      rewrite Hnext, Hr, (Hsingle eq_refl). cbn [app option_list].
      destruct point as [[]|]; try done; cbn; (split; [done|]); exists e; apply last_snoc.
Qed.

Lemma core_ok_event point w ev w' :
  world_step is_local_activity_task ev w = Some w' → is_call ev = false →
  core_ok point w → core_ok point w'.
Proof.
  intros Hstep Hcall Hok. destruct ev; try done.
  - apply workflow_event_inv in Hstep as (_ & l & pc' & lost & Hrun & ->).
    apply workflow_lane_frame in Hrun as (Hkeep & _ & Hfin & Ht & _).
    destruct Hok. split; cbn; auto. rewrite Ht. intros Htimed.
    destruct (co_stuck0 Htimed). auto.
  - cbn in Hstep. by rewrite (co_activity _ _ Hok) in Hstep.
  - by eapply core_ok_owner.
  - cbn in Hstep. destruct (agenda w) as [|i rest] eqn:Ha; [done|].
    destruct (agenda_head _ _ _ _ Hok Ha) as (Hpoint & _).
    destruct (drain_await i) eqn:Hd; [|done].
    assert (kind_of i = KDrain) as Hk by (by destruct i). rewrite Hk in Hpoint.
    by destruct point as [[]|].
  - cbn in Hstep. destruct (agenda w) as [|i rest] eqn:Ha; [done|].
    destruct (agenda_head _ _ _ _ Hok Ha) as (Hpoint & _ & _ & Hfin).
    destruct (replay_await i) eqn:Hd; [|done]. injection Hstep as <-.
    assert (kind_of i = KReplayJoin) as Hk by (by destruct i). rewrite Hk in Hpoint.
    destruct Hok as [_ Hactivity Hdone Hres Hstuck].
    split; cbn [agenda activity_pc lanes owner_consumed results]; try done.
    + rewrite Hpoint. split; [by repeat constructor|]. simpl; lia.
    + intros Ht. destruct (Hstuck Ht) as [_ Hat]. split; [done|].
      destruct point as [[]|]; try done; cbn in Hat; destruct Hat as [Hnil _]; congruence.
  - cbn in Hstep. case_match; [|done]. injection Hstep as <-. destruct Hok. by split.
Qed.

(** A call starts at a point where a stuck worker can be, or is not made by one. *)
Lemma core_ok_call point w c w' pt :
  world_step is_local_activity_task (EvCall c) w = Some w' → core_ok point w →
  point_kind pt = Some (kind_of (entry_point c)) →
  (replay_join_timed_out (lanes w) = true → stuck_at (Some pt) w') → core_ok (Some pt) w'.
Proof.
  cbn [world_step]. intros Hstep [_ Hactivity Hdone Hres Hstuck] Hpt Hat.
  destruct (agenda w) eqn:Ha; [|done]. destruct (owner_consumed w) eqn:Hc; [done|].
  injection Hstep as <-.
  assert (FinalizeShutdown ∉ core_calls (lanes w)) as Hfin by (intros Hf; destruct (Hdone Hf); done).
  split; cbn [agenda activity_pc lanes owner_consumed results] in *; try done.
  - cbn. rewrite Hpt. split; [by repeat constructor|]. simpl; lia.
  - by destruct c.
  - by destruct c.
  - intros Ht. split; [by destruct c|]. apply Hat. by destruct c.
Qed.

Lemma core_ok_idle point w : core_ok point w → agenda w = [] → core_ok None w.
Proof.
  intros [_ ? ? ? Hstuck] Ha. split; try done. intros Ht. by destruct (Hstuck Ht).
Qed.


End Stuck.

End Frame.

Section ReplayTheorems.
Context {C : Type → Type} `{!Mpsc C} `{!MpscLaws C}.
Context `{SerdeJson} `{Base64} `{JsonText ReplayHistoryDocument} `{ReplayCore}.
Variable is_local_activity_task : list byte → bool.
Local Notation step := (replay_step (C := C) is_local_activity_task).
Local Notation run := (replay_run (C := C) is_local_activity_task).
Implicit Types r : ReplayWorker (C := C).

(** A worker of Core that exists. *)
Definition started : ReplayWorker (C := C) :=
  mkReplayWorker (world_init true false true) true false None [] [] None.

Record stuck_inv r : Prop := {
  si_core : core_ok (rw_point r) (rw_world r);
  si_released how : rw_released r = Some how → rw_point r = None ∧
    match how with
    | Leaked => replay_join_timed_out (lanes (rw_world r)) = true
    | _ => FinalizeShutdown ∈ core_calls (lanes (rw_world r))
    end
}.

Lemma started_stuck : stuck_inv started.
Proof. split; [|done]. split; cbn; try done; set_solver. Qed.

(** An operation that returns, or waits for something else than the lanes. *)
Lemma stuck_returns r r' :
  stuck_inv r → rw_released r = None → agenda (rw_world r) = [] →
  rw_world r' = rw_world r → rw_released r' = None →
  (rw_point r' ≫= point_kind) = None → stuck_inv r'.
Proof.
  intros [Hcore _] Hrel Ha Hw Hrel' Hpoint. split; [|by rewrite Hrel'].
  rewrite Hw. apply core_ok_idle in Hcore; [|done]. destruct Hcore as [_ ? ? ? Hstuck].
  split; try done; [by rewrite Hpoint|]. intros Ht. destruct (Hstuck Ht). split; [done|].
  by destruct (rw_point r') as [[]|].
Qed.

Lemma stuck_call_lanes c pt r r' :
  call_lanes is_local_activity_task c pt r = Some r' → stuck_inv r → rw_released r = None →
  point_kind pt = Some (kind_of (entry_point c)) →
  (replay_join_timed_out (lanes (rw_world r)) = true → ∀ w : World C, stuck_at (Some pt) w) → stuck_inv r'.
Proof.
  unfold call_lanes. intros (w & Hstep & [= <-])%bind_Some [Hcore _] Hrel Hkind Hat.
  split; cbn; [|by rewrite Hrel]. eapply core_ok_call; [done..|]. auto.
Qed.

Lemma stuck_resume point res r r' :
  resume is_local_activity_task point res r = Some r' → rw_point r = Some point →
  agenda (rw_world r) = [] → last (results (rw_world r)) = Some res → stuck_inv r → stuck_inv r'.
Proof.
  intros Hresume Hpoint Ha Hlast Hinv.
  assert (rw_released r = None) as Hrel.
  { destruct (rw_released r) eqn:Hr; [|done]. destruct (si_released _ Hinv _ Hr). congruence. }
  pose proof (co_stuck _ _ (si_core _ Hinv)) as Hstuck. rewrite Hpoint in Hstuck.
  assert (∀ u, res = FinalizeResult (Ok u) → FinalizeShutdown ∈ core_calls (lanes (rw_world r))) as Hfin.
  { intros [] ->. apply (co_result _ _ (si_core _ Hinv)). by apply last_Some_elem_of. }
  destruct point, res as [| |[]| |[]|[]|]; try done; cbn [resume] in Hresume;
    try (eapply (stuck_call_lanes _ _ r); [done..|]; intros Ht; destruct (Hstuck Ht) as [_ Hat];
      cbn in *; first [done|destruct Hat as (_ & ? & ?); congruence]);
    injection Hresume as <-;
    try (by apply (stuck_returns r)).
  all: split; cbn; [|intros ? [= <-]; split; [done|by eapply Hfin]].
  all: by eapply core_ok_idle; [apply Hinv|].
Qed.

Lemma idle_agenda r : stuck_inv r → (rw_point r ≫= point_kind) = None → agenda (rw_world r) = [].
Proof. intros [Hcore _] Hp. pose proof (co_agenda _ _ Hcore) as Ha. by rewrite Hp in Ha. Qed.

Lemma released_idle r : stuck_inv r → rw_point r ≠ None → rw_released r = None.
Proof.
  intros Hinv Hp. destruct (rw_released r) eqn:Hr; [|done].
  by destruct (si_released _ Hinv _ Hr).
Qed.

Lemma stuck_call c r r' :
  call is_local_activity_task c r = Some r' → rw_point r = None → rw_released r = None →
  stuck_inv r → stuck_inv r'.
Proof.
  intros Hcall Hpoint Hrel Hinv. assert (agenda (rw_world r) = []) as Ha
    by (apply idle_agenda; [done|by rewrite Hpoint]).
  destruct c; cbn [call] in Hcall; try (by eapply (stuck_call_lanes _ _ r)).
  - injection Hcall as <-. unfold feed_json. repeat case_match; by apply (stuck_returns r).
  - injection Hcall as <-. by apply (stuck_returns r).
  - injection Hcall as <-. by apply (stuck_returns r).
  - unfold finalize in Hcall. destruct (replay_join_timed_out _) eqn:Ht;
      [injection Hcall as <-; by apply (stuck_returns r)|]. case_match.
    + injection Hcall as <-. by apply (stuck_returns r).
    + eapply (stuck_call_lanes _ _ r); [done..|]. congruence.
  - unfold dispose in Hcall. destruct (replay_join_timed_out _) eqn:Ht.
    + injection Hcall as <-. split; cbn; [|intros ? [= <-]; split; [done|exact Ht]].
      eapply core_ok_idle; [apply Hinv|done].
    + eapply (stuck_call_lanes _ _ (finish_input r)); [done| |done..|].
      * split; cbn; [apply Hinv|by rewrite Hrel].
      * cbn in *. congruence.
Qed.

Lemma stuck_step input r r' : step input r = Some r' → stuck_inv r → stuck_inv r'.
Proof.
  intros Hstep Hinv. destruct input; cbn [replay_step] in Hstep.
  - destruct (rw_point r) eqn:Hp; [done|]. destruct (rw_released r) eqn:Hr; [done|].
    by eapply stuck_call.
  - destruct (rw_point r) as [[]|] eqn:Hp; try done. injection Hstep as <-.
    assert (agenda (rw_world r) = []) as Ha by (apply idle_agenda; [done|by rewrite Hp]).
    assert (rw_released r = None) as Hrel
      by (apply released_idle; [done|by rewrite Hp]).
    destruct answer; by apply (stuck_returns r).
  - destruct (rw_point r) as [[]|] eqn:Hp; try done. injection Hstep as <-.
    assert (agenda (rw_world r) = []) as Ha by (apply idle_agenda; [done|by rewrite Hp]).
    assert (rw_released r = None) as Hrel
      by (apply released_idle; [done|by rewrite Hp]).
    unfold wait_workflow. case_match; [by apply (stuck_returns r)|done].
  - destruct (is_call event) eqn:Hcall; [done|].
    apply bind_Some in Hstep as (w & Hstep & [= <-]). destruct Hinv as [Hcore Hrel].
    pose proof (world_flags_grow _ _ _ _ Hstep) as [Hkeep Hflag].
    split; cbn; [by eapply core_ok_event|]. intros how Hhow. destruct (Hrel how Hhow) as [? Hr].
    split; [done|]. destruct how; auto.
  - destruct (rw_point r) eqn:Hp; [|done]. destruct (agenda _) eqn:Ha; [|done].
    destruct (last _) eqn:Hl; [|done]. by eapply stuck_resume.
Qed.

Lemma stuck_run inputs r r' : run inputs r = Some r' → stuck_inv r → stuck_inv r'.
Proof.
  revert r. induction inputs as [|input inputs IH]; cbn; intros r; [by intros [= ->]|].
  intros (r1 & Hstep & Hrun)%bind_Some Hinv. eapply IH; [done|]. by eapply stuck_step.
Qed.

(** Calls of Core are never forgotten. *)
Lemma replay_calls_grow input r r' c :
  step input r = Some r' → c ∈ core_calls (lanes (rw_world r)) →
  c ∈ core_calls (lanes (rw_world r')).
Proof.
  assert (∀ call pt r r', call_lanes is_local_activity_task call pt r = Some r' →
    c ∈ core_calls (lanes (rw_world r)) → c ∈ core_calls (lanes (rw_world r'))) as Hlanes.
  { unfold call_lanes. intros call pt r1 r1' (w & Hstep & [= <-])%bind_Some.
    apply world_flags_grow in Hstep as [Hgrow _]. apply Hgrow. }
  intros Hstep Hin. destruct input; cbn [replay_step] in Hstep.
  - destruct (rw_point r); [done|]. destruct (rw_released r); [done|].
    destruct call; cbn [ReplayWorker.call] in Hstep; try (by eapply Hlanes);
      try (injection Hstep as <-; unfold feed_json; by repeat case_match).
    + unfold finalize in Hstep. repeat case_match; try (by injection Hstep as <-). by eapply Hlanes.
    + unfold dispose in Hstep. case_match; [by injection Hstep as <-|].
      eapply Hlanes; [done|exact Hin].
  - destruct (rw_point r) as [[]|]; try done. injection Hstep as <-. by destruct answer.
  - destruct (rw_point r) as [[]|]; try done. injection Hstep as <-.
    unfold wait_workflow. by case_match.
  - destruct (is_call event); [done|]. apply bind_Some in Hstep as (w & Hstep & [= <-]).
    apply world_flags_grow in Hstep as [Hgrow _]. by apply Hgrow.
  - destruct (rw_point r) as [pt|]; [|done]. destruct (agenda _); [|done]. destruct (last _); [|done].
    destruct pt, o as [| |[]| |[]|[]|]; try done; cbn [resume] in Hstep; try (by eapply Hlanes);
      by injection Hstep as <-.
Qed.

(** A replay worker whose poll lane did not stop within its bound is never
    given to Core's finalizer: not by an operation that already ran, a finalization
    that is asked for refuses at once, and a disposal releases it by leaking it. *)
Theorem stuck_worker_not_finalized inputs r :
  run inputs started = Some r → replay_join_timed_out (lanes (rw_world r)) = true →
  FinalizeShutdown ∉ core_calls (lanes (rw_world r)) ∧
  (rw_released r = None ∨ rw_released r = Some Leaked) ∧
  (rw_point r = None → rw_released r = None →
    (∃ r', step (RvCall Finalize) r = Some r' ∧ rw_world r' = rw_world r ∧ rw_released r' = None ∧
      rw_results r' = rw_results r ++ [FinalizeReplayResult (Err (ReplayPollLane
        (LaneCore "workflow poll lane did not stop within its bound")))]) ∧
    (∃ r', step (RvCall Dispose) r = Some r' ∧ rw_world r' = rw_world r ∧
      rw_released r' = Some Leaked ∧ rw_results r' = rw_results r ++ [DisposeResult (Ok ())])).
Proof.
  intros Hrun Ht. apply stuck_run in Hrun as [Hcore Hrel]; [|apply started_stuck].
  destruct (co_stuck _ _ Hcore Ht) as [Hfin _]. split_and!; [done| |].
  - destruct (rw_released r) as [how|]; [|by left]. destruct (Hrel how eq_refl) as [_ Hhow].
    destruct how; [done|done|by right].
  - intros Hpoint Hnone. cbn [replay_step]. rewrite Hpoint, Hnone. cbn [call].
    unfold finalize, dispose. cbn [finish_input rw_world]. rewrite Ht. split; by eexists.
Qed.

End ReplayTheorems.
