(* ===== verification/ReplayNatural.v ===== *)
(** * Natural ends of a replay

    A replay that finalizes without the bridge having asked Core to shut down is
    evidence: the input was closed, Core itself ended the stream, and every
    activation that Core handed out was settled. *)

From S2P Require Import Prelude.
From S2P Require Import TaskLedger.
From S2P Require Import Readiness.
From S2P Require Import PollLanes.
From S2P Require Import LaneDebts.
From S2P Require Import LaneSafety.
From S2P Require Import OwnerSafety.
From S2P Require Import LaneTheorems.
From S2P Require Import Protocol.
From S2P Require Import ClientDocuments.
From S2P Require Import Replay.
From S2P Require Import ReplayWorker.
From S2P Require Import ReplaySafety.

Section Natural.
Context {C : Type → Type} `{!Mpsc C} `{!MpscLaws C}.
Context `{SerdeJson} `{Base64} `{JsonText ReplayHistoryDocument} `{ReplayCore}.
Variable is_local_activity_task : list byte → bool.
Local Notation step := (replay_step (C := C) is_local_activity_task).
Local Notation run := (replay_run (C := C) is_local_activity_task).
Local Notation world_step := (world_step is_local_activity_task).
Implicit Types (r : ReplayWorker (C := C)) (w : World C)
  (point : option (ReplayPoint HistoryForReplay)).

(** ** The invariant *)

Definition shutting_down point : bool :=
  match point with Some (FzShutdown _) => true | _ => false end.

(** Points of a finalization that has passed its checks. *)
Definition finalizing point : bool :=
  match point with Some (FzMark | FzJoin | FzFinalize) => true | _ => false end.

(** Points that a worker reaches only after shutdown was initiated. *)
Definition forced point : bool :=
  match point with
  | Some (FzAbandon _ | DsAbandon | DsShutdown | DsJoin | DsAbandonAgain | DsFinalize) => true
  | _ => false
  end.

(** Where the lane may have been aborted. *)
Definition aborted_at point w : Prop :=
  match point with
  | Some FzJoin =>
      (∃ ds, agenda w = [IReplayJoin (RjAbort ds)]) ∨ agenda w = [IReplayJoin (RjClear None)] ∨
      agenda w = [] ∧ ∃ e, last (results w) = Some (LaneJoinResult (Err e))
  | Some (FzShutdown _) => True
  | _ => False
  end.

Record quiet_world point w : Prop := {
  qw_world : world_ok w;
  qw_started : shutdown_started (lanes w) = false;
  qw_pc : pc_open (workflow_pc w) = true;
  qw_closed : shutting_down point = false → abort_requested w = false → explained (lanes w);
  qw_abort : abort_requested w = true → aborted_at point w;
  qw_forced : forced point = false;
  qw_shutdown : shutting_down point = true → agenda w ≠ []
}.

Definition shutdown_called w : Prop := InitiateShutdown ∈ core_calls (lanes w).

Lemma quiet_open point w : quiet_world point w → queues_open (lanes w).
Proof. intros Hq. apply (ok_open _ _ _ _ _ _ (wo_lanes _ (qw_world _ _ Hq))). Qed.

Lemma quiet_shutdown_owner point w input w' pt :
  world_step (EvOwner input) w = Some w' → agenda w = [IInitiateShutdown pt] →
  shutting_down point = true → quiet_world point w → shutdown_called w' ∨ quiet_world point w'.
Proof.
  intros Hstep Ha Hpoint Hq. pose proof (world_step_ok _ _ _ _ Hstep eq_refl (qw_world _ _ Hq)) as Hok.
  pose proof (qw_started _ _ Hq) as Hst. cbn [PollLanes.world_step] in Hstep. rewrite Ha in Hstep.
  destruct Hq as [_ _ Hpc Hcl Hab Hf Hsh].
  destruct pt; cbn in Hstep; rewrite ?Hst in Hstep; injection Hstep as <-.
  4: left; unfold shutdown_called; cbn; rewrite elem_of_app; right; by apply list_elem_of_singleton.
  all: right; split; try done; cbn; destruct point as [[]|]; try done.
Qed.

Lemma core_stream_owner status input i (l : PollLanes C) out :
  owner_exec is_local_activity_task status input i l = Some out →
  core_stream_ended (sig l) = true → core_stream_ended (sig (out_lanes out)) = true.
Proof.
  intros Hrun He. destruct (decide (kind_of i = KShutdown)) as [Hk|Hk].
  - destruct i; try done. cbn in Hrun. destruct pt; cbn in Hrun; repeat case_match;
      unfold goto, return_ in Hrun; simplify_eq/=; try done.
    unfold sig, workflow_signal_map, close, close_inner in *. cbn in *. by rewrite He.
  - destruct (owner_exec_story _ _ _ _ _ _ Hrun Hk) as (-> & _). done.
Qed.

Lemma quiet_owner point w input w' :
  world_step (EvOwner input) w = Some w' → core_ok point w → quiet_world point w →
  shutdown_called w' ∨ quiet_world point w'.
Proof.
  intros Hstep Hcore Hq. destruct (agenda w) as [|i rest] eqn:Ha; [by cbn in Hstep; rewrite Ha in Hstep|].
  destruct (agenda_head _ _ _ _ Hcore Ha) as (Hpoint & _ & Hsingle & _).
  destruct (decide (kind_of i = KShutdown)) as [Hk|Hk].
  { rewrite Hk in Hpoint, Hsingle. specialize (Hsingle eq_refl) as ->. destruct i; try done.
    eapply quiet_shutdown_owner; [done..| |done]. pose proof (qw_forced _ _ Hq).
    by destruct point as [[]|]. }
  right. pose proof (world_step_ok _ _ _ _ Hstep eq_refl (qw_world _ _ Hq)) as Hok.
  cbn [PollLanes.world_step] in Hstep. rewrite Ha in Hstep.
  destruct (owner_exec _ _ _ _ _) as [out|] eqn:Hrun; [|done]. injection Hstep as <-.
  pose proof (owner_exec_story _ _ _ _ _ _ Hrun Hk) as Hstory.
  destruct Hq as [_ Hst Hpc Hcl Hab Hf Hsh]. split; cbn; try done.
  - destruct (owner_exec_started _ _ _ _ _ _ Hrun) as [->|]; done.
  - intros ? ?. eapply explained_story; [done|]. auto.
  - intros Habort. specialize (Hab Habort). destruct point as [[]|]; try done. cbn in Hab.
    destruct Hab as [[ds Hds]|[Hclear|[Hnil _]]]; [| |congruence]; rewrite Ha in *; simplify_eq/=; [by auto|].
    unfold return_ in Hrun. injection Hrun as <-. cbn.
    right; right. split; [done|]. eexists. apply last_snoc.
  - intros Hs. destruct point as [[]|]; try done. injection Hpoint as Hpoint. congruence.
Qed.

Lemma quiet_event point w ev w' :
  world_step ev w = Some w' → is_call ev = false → core_ok point w → quiet_world point w →
  shutdown_called w' ∨ quiet_world point w'.
Proof.
  intros Hstep Hcall Hcore Hq. destruct ev; try done; [| |by eapply quiet_owner|..]; right;
    (pose proof (world_step_ok _ _ _ _ Hstep eq_refl (qw_world _ _ Hq)) as Hok).
  - apply workflow_event_inv in Hstep as (_ & l & pc' & lost & Hrun & ->).
    pose proof (workflow_lane_frame _ _ _ _ _ _ Hrun) as (_ & _ & _ & _ & Hst).
    destruct (workflow_lane_story _ _ _ _ _ _ Hrun (quiet_open _ _ Hq) (qw_pc _ _ Hq))
      as (Hpc & Hex & _).
    destruct Hq. split; cbn in *; auto. by rewrite Hst.
  - cbn in Hstep. by rewrite (co_activity _ _ Hcore) in Hstep.
  - cbn in Hstep. destruct (agenda w) as [|i rest] eqn:Ha; [done|].
    destruct (agenda_head _ _ _ _ Hcore Ha) as (Hpoint & _).
    destruct (drain_await i) eqn:Hd; [|done].
    assert (kind_of i = KDrain) as Hk by (by destruct i). rewrite Hk in Hpoint.
    by destruct point as [[]|].
  - cbn in Hstep. destruct (agenda w) as [|i rest] eqn:Ha; [done|].
    destruct (agenda_head _ _ _ _ Hcore Ha) as (Hpoint & _).
    destruct (replay_await i) eqn:Hd; [|done]. injection Hstep as <-.
    assert (kind_of i = KReplayJoin) as Hk by (by destruct i). rewrite Hk in Hpoint.
    destruct Hq. destruct point as [[]|]; try done. split; cbn; try done. eauto.
  - cbn in Hstep. destruct (abort_requested w) eqn:Hab; [|done]. case_match; [|done].
    injection Hstep as <-. destruct Hq as [? ? ? ? Habort ? ?]. split; cbn; try done.
    intros _. specialize (Habort Hab). by destruct point as [[]|].
Qed.

Lemma quiet_call point w c w' pt :
  world_step (EvCall c) w = Some w' → quiet_world point w → live_call c = true →
  forced (Some pt) = false → (abort_requested w = true → aborted_at (Some pt) w') →
  (shutting_down point = true → agenda w ≠ []) → quiet_world (Some pt) w'.
Proof.
  intros Hstep Hq Hlive Hforced Habort Hsh.
  pose proof (world_step_ok _ _ _ _ Hstep Hlive (qw_world _ _ Hq)) as Hok.
  cbn [PollLanes.world_step] in Hstep. destruct (agenda w) eqn:Ha; [|done].
  destruct (owner_consumed w); [done|]. injection Hstep as <-.
  destruct Hq as [_ Hst Hpc Hcl Hab Hf _].
  assert (shutting_down point = false) as Hpoint by (destruct (shutting_down point); naive_solver).
  split; cbn; try done; [by destruct c|]. intros _ Hno. specialize (Hcl Hpoint Hno). by destruct c.
Qed.

Lemma quiet_idle point w : quiet_world point w → agenda w = [] → abort_requested w = false →
  ∀ pt, (pt ≫= point_kind) = None → quiet_world pt w.
Proof.
  intros [? ? ? Hcl ? ? Hsh] Ha Hab pt Hpt.
  assert (shutting_down point = false) by (destruct (shutting_down point); naive_solver).
  split; try done; [by auto|congruence|by destruct pt as [[]|]|by destruct pt as [[]|]].
Qed.

(** What a step of the lanes never takes back. *)
Lemma stream_grows point w ev w' :
  world_step ev w = Some w' → quiet_world point w → core_ok point w →
  (core_stream_ended (sig (lanes w)) = true → core_stream_ended (sig (lanes w')) = true) ∧
  (owner_consumed w = true → owner_consumed w' = true).
Proof.
  intros Hstep Hq Hcore. destruct ev.
  - apply workflow_event_inv in Hstep as (_ & l & pc' & lost & Hrun & ->).
    by destruct (workflow_lane_story _ _ _ _ _ _ Hrun (quiet_open _ _ Hq) (qw_pc _ _ Hq)) as (_ & _ & ?).
  - cbn in Hstep. by rewrite (co_activity _ _ Hcore) in Hstep.
  - cbn in Hstep. destruct (agenda w); [|done]. destruct (owner_consumed w); [done|].
    injection Hstep as <-. split; [|done]. by destruct call.
  - cbn in Hstep. destruct (agenda w) as [|i rest]; [done|].
    destruct (owner_exec _ _ _ _ _) as [out|] eqn:Hrun; [|done]. injection Hstep as <-. cbn.
    split; [by eapply core_stream_owner|]. by intros ->.
  - cbn in Hstep. destruct (agenda w); [done|]. case_match; [|done]. by injection Hstep as <-.
  - cbn in Hstep. destruct (agenda w); [done|]. case_match; [|done]. by injection Hstep as <-.
  - cbn in Hstep. case_match; [|done]. by injection Hstep as <-.
Qed.

(** ** The worker *)

Record natural r : Prop := {
  na_quiet : quiet_world (rw_point r) (rw_world r);
  na_observed : rw_shutdown_observed r = true →
    core_stream_ended (sig (lanes (rw_world r))) = true;
  na_finalizing : finalizing (rw_point r) = true →
    rw_feeder r = false ∧ rw_shutdown_observed r = true;
  na_released how : rw_released r = Some how →
    rw_feeder r = false ∧ rw_shutdown_observed r = true ∧ owner_consumed (rw_world r) = true
}.

Definition settled_or_natural r : Prop := shutdown_called (rw_world r) ∨ natural r.

Lemma started_natural : natural started.
Proof.
  split; cbn; try done. split; try done; [apply world_init_ok|].
  intros _ _. unfold explained, sender_gone, sig; cbn.
  destruct (mpsc_new_spec (ReadyTask WorkflowActivation)) as (_ & _ & ->). naive_solver.
Qed.

(** An operation that returns, or waits for something else than the lanes. *)
Lemma natural_returns r r' :
  natural r → agenda (rw_world r) = [] → abort_requested (rw_world r) = false →
  rw_world r' = rw_world r → (rw_point r' ≫= point_kind) = None → rw_released r' = None →
  (rw_shutdown_observed r' = true → core_stream_ended (sig (lanes (rw_world r))) = true) →
  natural r'.
Proof.
  intros Hn Ha Hab Hw Hpoint Hrel Hobs. split; rewrite ?Hw; try done.
  - by eapply quiet_idle; [apply Hn|..].
  - by destruct (rw_point r') as [[]|].
  - by rewrite Hrel.
Qed.

Lemma natural_call_lanes c pt r r' :
  call_lanes is_local_activity_task c pt r = Some r' → natural r →
  core_ok (rw_point r) (rw_world r) → rw_released r = None →
  live_call c = true → forced (Some pt) = false →
  (abort_requested (rw_world r) = true → ∀ w, aborted_at (Some pt) w) →
  (finalizing (Some pt) = true → rw_feeder r = false ∧ rw_shutdown_observed r = true) → natural r'.
Proof.
  unfold call_lanes. intros (w & Hstep & [= <-])%bind_Some Hn Hcore Hrel Hlive Hforced Hab Hfin.
  pose proof (stream_grows _ _ _ _ Hstep (na_quiet _ Hn) Hcore) as [Hgrow _].
  split; cbn; [| |done|by rewrite Hrel].
  - eapply quiet_call; [done|apply Hn|done..| |apply Hn]. auto.
  - intros Ho. apply Hgrow. by apply (na_observed _ Hn).
Qed.

(** Away from the join of a finalization the lane has not been aborted. *)
Lemma natural_not_aborted r :
  natural r → (rw_point r ≠ Some FzJoin) → shutting_down (rw_point r) = false →
  abort_requested (rw_world r) = false.
Proof.
  intros Hn Hj Hs. destruct (abort_requested (rw_world r)) eqn:Hab; [|done].
  pose proof (qw_abort _ _ (na_quiet _ Hn) Hab) as Hat.
  by destruct (rw_point r) as [[]|].
Qed.

Lemma natural_resume pt res r r' :
  resume is_local_activity_task pt res r = Some r' → rw_point r = Some pt →
  agenda (rw_world r) = [] → last (results (rw_world r)) = Some res →
  stuck_inv r → natural r → natural r'.
Proof.
  intros Hresume Hpoint Ha Hlast Hinv Hn.
  assert (rw_released r = None) as Hrel.
  { destruct (rw_released r) eqn:Hr; [|done]. destruct (si_released _ Hinv _ Hr). congruence. }
  pose proof (si_core _ Hinv) as Hcore. pose proof (na_observed _ Hn) as Hobs.
  pose proof (na_finalizing _ Hn) as Hfin. pose proof (qw_forced _ _ (na_quiet _ Hn)) as Hforced.
  pose proof (qw_shutdown _ _ (na_quiet _ Hn)) as Hsh.
  pose proof (natural_not_aborted _ Hn) as Hna. rewrite Hpoint in *.
  destruct pt, res as [| |[]| |[]|[]|]; try done; cbn [resume] in Hresume;
    try (by destruct (Hsh eq_refl));
    try (injection Hresume as <-; apply (natural_returns r); by auto).
  - apply (natural_call_lanes _ _ r) in Hresume; auto; [by rewrite Hpoint|].
    intros Hab. by rewrite Hna in Hab.
  - apply (natural_call_lanes _ _ r) in Hresume; auto; [by rewrite Hpoint|].
    intros Hab. pose proof (qw_abort _ _ (na_quiet _ Hn) Hab) as Hat. rewrite Hpoint in Hat.
    destruct Hat as [[? Hx]|[Hx|(_ & ? & Hx)]]; congruence.
  - apply (natural_call_lanes _ _ r) in Hresume; auto; [by rewrite Hpoint|done].
  - injection Hresume as <-. split; cbn; try done.
    + eapply quiet_idle; [apply Hn|done|by apply Hna|done].
    + intros how _. destruct (Hfin eq_refl). split_and!; try done.
      apply (co_finalized _ _ Hcore). apply (co_result _ _ Hcore).
      destruct a. by apply last_Some_elem_of.
Qed.

Lemma natural_call c r r' :
  call is_local_activity_task c r = Some r' → c ≠ Dispose → rw_point r = None →
  rw_released r = None → stuck_inv r → natural r → natural r'.
Proof.
  intros Hcall Hc Hpoint Hrel Hinv Hn.
  assert (agenda (rw_world r) = []) as Ha by (apply idle_agenda; [done|by rewrite Hpoint]).
  pose proof (natural_not_aborted _ Hn) as Hab. rewrite Hpoint in Hab. specialize (Hab ltac:(done) eq_refl).
  pose proof (na_observed _ Hn) as Hobs. pose proof (si_core _ Hinv) as Hcore.
  assert (∀ c pt r', call_lanes is_local_activity_task c pt r = Some r' → live_call c = true →
    forced (Some pt) = false →
    (finalizing (Some pt) = true → rw_feeder r = false ∧ rw_shutdown_observed r = true) →
    natural r') as Hlanes.
  { intros. eapply (natural_call_lanes _ _ r); try done. congruence. }
  destruct c; cbn [call] in Hcall; try done; try (by eapply Hlanes).
  - injection Hcall as <-. unfold feed_json. repeat case_match; by apply (natural_returns r).
  - injection Hcall as <-. by apply (natural_returns r).
  - injection Hcall as <-. by apply (natural_returns r).
  - unfold finalize in Hcall. case_match; [injection Hcall as <-; by apply (natural_returns r)|].
    destruct (rw_feeder r) eqn:Hf, (rw_shutdown_observed r) eqn:Ho, (has_outstanding_tasks _);
      cbn [negb orb] in Hcall; try (injection Hcall as <-; apply (natural_returns r); try done;
        cbn; rewrite ?Ho; by auto).
    by eapply Hlanes.
Qed.

(** Core ended the stream if a wait saw the shutdown. *)
Lemma observed_shutdown r deadline timed_out now :
  wait_loop deadline [mkWaitPoint timed_out (sig (lanes (rw_world r))) now] = Some WaitShutdown →
  natural r → shutting_down (rw_point r) = false → abort_requested (rw_world r) = false →
  core_stream_ended (sig (lanes (rw_world r))) = true.
Proof.
  cbn. intros Hwait Hn Hs Hab. pose proof (qw_closed _ _ (na_quiet _ Hn) Hs Hab) as Hex.
  destruct timed_out; [done|]. unfold observe_lane, explained, lane_over in *.
  destruct (0 <? pending _)%N; [done|]. destruct (lane_error _) eqn:He; [done|].
  destruct (closed _) eqn:Hc; [|by case_match].
  destruct Hex as [|[? He']]; [by left|done|congruence].
Qed.

Lemma natural_step input r r' :
  step input r = Some r' → input ≠ RvCall Dispose → stuck_inv r →
  settled_or_natural r → settled_or_natural r'.
Proof.
  intros Hstep Hin Hinv [Hcalled|Hn].
  { left. unfold shutdown_called in *. eapply replay_calls_grow; done. }
  destruct input; cbn [replay_step] in Hstep.
  - destruct (rw_point r) eqn:Hp; [done|]. destruct (rw_released r) eqn:Hr; [done|].
    right. eapply natural_call; [done|congruence|done..].
  - destruct (rw_point r) as [[]|] eqn:Hp; try done. injection Hstep as <-. right.
    assert (agenda (rw_world r) = []) as Ha by (apply idle_agenda; [done|by rewrite Hp]).
    assert (abort_requested (rw_world r) = false) as Hab
      by (apply natural_not_aborted; by rewrite ?Hp).
    pose proof (na_observed _ Hn). pose proof (released_idle _ Hinv) as Hrel. rewrite Hp in Hrel.
    destruct answer; apply (natural_returns r); auto.
  - destruct (rw_point r) as [[]|] eqn:Hp; try done. injection Hstep as <-. right.
    assert (agenda (rw_world r) = []) as Ha by (apply idle_agenda; [done|by rewrite Hp]).
    assert (abort_requested (rw_world r) = false) as Hab
      by (apply natural_not_aborted; by rewrite ?Hp).
    pose proof (na_observed _ Hn). pose proof (released_idle _ Hinv) as Hrel. rewrite Hp in Hrel.
    unfold wait_workflow. destruct (wait_loop _ _) as [readiness|] eqn:Hwait; [|done].
    apply (natural_returns r); auto. cbn. destruct readiness; auto. intros _.
    eapply observed_shutdown; [done..| |done]. by rewrite Hp.
  - destruct (is_call event) eqn:Hcall; [done|]. apply bind_Some in Hstep as (w & Hstep & [= <-]).
    pose proof (si_core _ Hinv) as Hcore.
    pose proof (stream_grows _ _ _ _ Hstep (na_quiet _ Hn) Hcore) as [Hgrow Hcons].
    destruct (quiet_event _ _ _ _ Hstep Hcall Hcore (na_quiet _ Hn)) as [|Hq]; [by left|].
    right. destruct Hn as [_ Hobs Hfin Hrel]. split; cbn; auto. intros how Hhow.
    destruct (Hrel how Hhow) as (? & ? & ?). auto.
  - destruct (rw_point r) eqn:Hp; [|done]. destruct (agenda _) eqn:Ha; [|done].
    destruct (last _) eqn:Hl; [|done]. right. by eapply natural_resume.
Qed.

Lemma natural_run inputs r r' :
  run inputs r = Some r' → RvCall Dispose ∉ inputs → stuck_inv r →
  settled_or_natural r → settled_or_natural r'.
Proof.
  revert r. induction inputs as [|input inputs IH]; cbn; intros r; [by intros [= ->]|].
  intros (r1 & Hstep & Hrun)%bind_Some [Hin Hins]%not_elem_of_cons Hinv Hs.
  eapply IH; [done..| |]; [by eapply stuck_step|by eapply natural_step].
Qed.

(** C22: a replay that was finalized although the bridge never asked Core to shut
    down, and that was not disposed of, is evidence.  Its input was closed, Core ended
    the stream itself and the owner saw it, the lane has stopped, nothing is
    outstanding, and every activation that Core handed out was settled exactly once,
    but for completions that Core rejected while it had handed the run out again. *)
Theorem finalized_replay_is_evidence inputs r :
  run inputs started = Some r → RvCall Dispose ∉ inputs →
  rw_released r = Some ReleasedByFinalize →
  InitiateShutdown ∉ core_calls (lanes (rw_world r)) →
  rw_feeder r = false ∧ rw_shutdown_observed r = true ∧
  core_stream_ended (sig (lanes (rw_world r))) = true ∧
  workflow_pc (rw_world r) = WlDone ∧ outstanding (ledger (lanes (rw_world r))) = 0 ∧
  (∀ d, occurrences d (polled (rw_world r)) =
    occurrences d (settled (lanes (rw_world r))) + occurrences d (dropped (rw_world r)).*1) ∧
  Forall (λ x, x.2 = DropRestoreConflict) (dropped (rw_world r)).
Proof.
  intros Hrun Hdispose Hrel Hcalls. pose proof (stuck_run _ _ _ _ Hrun started_stuck) as Hinv.
  destruct (natural_run _ _ _ Hrun Hdispose started_stuck (or_intror started_natural))
    as [?|Hn]; [done|].
  destruct (na_released _ Hn _ Hrel) as (Hfeed & Hobs & Hcons).
  destruct (qw_world _ _ (na_quiet _ Hn)) as [[Hb _ _] _ _ Hdr Hco].
  destruct (Hco Hcons) as (Ha & Hw & Hk & Hout & Hlost).
  destruct (done_world_hands _ Ha Hw Hk) as (Hh & _ & Hp). split_and!; try done.
  - by apply (na_observed _ Hn).
  - intros d. specialize (Hb d). rewrite Hh, Hp, (outstanding_zero _ d Hout) in Hb.
    autorewrite with occ in Hb. lia.
  - assert (abort_requested (rw_world r) = false) as Hab.
    { destruct (si_released _ Hinv _ Hrel) as [Hpoint _].
      apply natural_not_aborted; [done|..]; by rewrite Hpoint. }
    eapply Forall_impl; [done|]. intros [k []]; unfold drop_explained; cbn; congruence.
Qed.

End Natural.
