(* ===== verification/WorkerConfig.v ===== *)
(** * Worker configuration

    The worker document of src/rust/core-bridge/src/abi.rs: its checks and the
    configuration that it becomes for Core.  Durations are milliseconds, and a rate
    is a binary64 number.  What Core's own builder rejects is a parameter. *)

From stdpp Require Import pretty.
From Stdlib Require Import Floats.SpecFloat.
From S2P Require Import Prelude.
From S2P Require Import Text.
From S2P Require Import WorkflowChecks.
From S2P Require Import ClientChecks.
From S2P Require Import ClientCalls.
From S2P Require Import PollLanes.
Local Open Scope N_scope.
Local Open Scope bridge_scope.

(** ** Limits *)

Definition MAX_TRANSPORT_STRING_BYTES : N := 64 * 1024.
Definition MAX_WORKER_COUNT : N := 1000000.
Definition DEFAULT_MAX_OUTSTANDING_ACTIVITIES : N := 1.
Definition DEFAULT_MAX_OUTSTANDING_LOCAL_ACTIVITIES : N := 1.
Definition DEFAULT_MAX_CONCURRENT_ACTIVITY_POLLS : N := DEFAULT_MAX_OUTSTANDING_ACTIVITIES.
Definition MIN_CACHED_WORKFLOW_POLLS : N := 2.
Definition MAX_GRACEFUL_SHUTDOWN_MS : N := 24 * 60 * 60 * 1000.
Definition MAX_WORKER_TUNING_DURATION_MS : N := 24 * 60 * 60 * 1000.
Definition CORE_DEFAULT_STICKY_QUEUE_SCHEDULE_TO_START_MS : N := 10000.
Definition CORE_DEFAULT_MAX_HEARTBEAT_THROTTLE_MS : N := 60000.
Definition CORE_DEFAULT_HEARTBEAT_THROTTLE_MS : N := 30000.

(** ** Binary64 *)

Definition f64 : Type := spec_float.

Definition is_normal (x : f64) : bool :=
  match x with S754_finite _ m _ => (Z.pos (digits2_pos m) =? 53)%Z | _ => false end.

Definition is_sign_positive (x : f64) : bool :=
  match x with
  | S754_zero s | S754_infinity s | S754_finite s _ _ => negb s
  | S754_nan => true
  end.

Definition f64_1 : f64 := S754_finite false 4503599627370496 (-52).
Definition f64_86400 : f64 := S754_finite false 5937362789990400 (-36).
Definition MIN_WORKER_ACTIVITIES_PER_SECOND : f64 := SFdiv 53 1024 f64_1 f64_86400.

(** ** The document *)

Inductive WorkerVersioningInput :=
| Versioning_None
| Versioning_LegacyBuildId (build_id : string)
| Versioning_DeploymentBased (deployment_name build_id : string) (use_worker_versioning : bool)
    (default_versioning_behavior : option string).

Record PollerAutoscalingInput := mkPollerAutoscalingInput {
  pa_minimum : N;
  pa_maximum : N;
  pa_initial : N
}.

Record WorkerTaskTypesInput := mkWorkerTaskTypesInput {
  tt_workflows : bool;
  tt_activities : bool
}.

Definition WorkerTaskTypesInput_default : WorkerTaskTypesInput := mkWorkerTaskTypesInput true true.

Record WorkerTuningInput := mkWorkerTuningInput {
  workflow_task_poller_autoscaling : option PollerAutoscalingInput;
  sticky_queue_schedule_to_start_timeout_ms : option N;
  max_heartbeat_throttle_interval_ms : option N;
  default_heartbeat_throttle_interval_ms : option N;
  max_worker_activities_per_second : option f64;
  max_task_queue_activities_per_second : option f64
}.

Record WorkerConfigInput := mkWorkerConfigInput {
  in_namespace : string;
  in_task_queue : string;
  in_build_id : string;
  in_versioning : WorkerVersioningInput;
  in_max_cached_workflows : N;
  in_max_outstanding_workflow_tasks : N;
  in_max_concurrent_workflow_task_polls : N;
  in_graceful_shutdown_timeout_ms : N;
  in_task_types : WorkerTaskTypesInput;
  in_tuning : WorkerTuningInput
}.

(** ** Core's configuration *)

Inductive VersioningBehavior := AutoUpgrade | Pinned.

#[global] Instance VersioningBehavior_eq_dec : EqDecision VersioningBehavior.
Proof. solve_decision. Defined.

Inductive WorkerVersioningStrategy :=
| Strategy_None (build_id : string)
| Strategy_LegacyBuildIdBased (build_id : string)
| Strategy_WorkerDeploymentBased (deployment_name build_id : string) (use_worker_versioning : bool)
    (default_versioning_behavior : option VersioningBehavior).

Inductive PollerBehavior :=
| SimpleMaximum (maximum : N)
| Autoscaling (minimum maximum initial : N).

Record ValidatedTuning := mkValidatedTuning {
  vt_sticky : N;
  vt_max_heartbeat : N;
  vt_default_heartbeat : N;
  vt_worker_rate : option f64;
  vt_task_queue_rate : option f64
}.

Record CoreWorkerConfig := mkCoreWorkerConfig {
  cw_namespace : string;
  cw_task_queue : string;
  cw_max_cached_workflows : N;
  cw_max_outstanding_workflow_tasks : N;
  cw_workflow_task_poller_behavior : PollerBehavior;
  cw_tuning : ValidatedTuning;
  cw_graceful_shutdown_period : N;
  cw_versioning_strategy : WorkerVersioningStrategy;
  cw_max_outstanding_activities : N;
  cw_max_outstanding_local_activities : N;
  cw_activity_task_poller_behavior : PollerBehavior;
  cw_task_types : WorkerTaskTypes
}.

(** ** Checks *)

Definition configuration_failure (message : string) : Failure :=
  mkFailure STATUS_CONFIGURATION message.

Definition to_usize (name : string) (value : N) : result N Failure :=
  if value <=? usize_max then Ok value
  else Err (configuration_failure (name +:+ " exceeds platform capacity")).

Definition tuning_duration (name : string) (value : option N) (default_ms : N) :
    result N Failure :=
  match value with
  | None => Ok default_ms
  | Some milliseconds =>
      if (1 <=? milliseconds) && (milliseconds <=? MAX_WORKER_TUNING_DURATION_MS)
      then Ok milliseconds
      else Err (configuration_failure (name +:+ " must be between 1 and " +:+
        pretty MAX_WORKER_TUNING_DURATION_MS))
  end.

Definition tuning_rate (name : string) (value : option f64) : result (option f64) Failure :=
  match value with
  | None => Ok None
  | Some rate =>
      if is_normal rate && is_sign_positive rate then Ok (Some rate)
      else Err (configuration_failure (name +:+ " must be a positive finite number"))
  end.

Definition worker_rate (name : string) (value : option f64) : result (option f64) Failure :=
  let? rate := tuning_rate name value in
  match rate with
  | Some rate =>
      if SFltb rate MIN_WORKER_ACTIVITIES_PER_SECOND
      then Err (configuration_failure (name +:+ " must be at least one per day (1/86400)"))
      else Ok (Some rate)
  | None => Ok None
  end.

(** [validate_identifier] of abi.rs. *)
Definition validate_transport_identifier (name value : string) : result () Failure :=
  if str_is_empty value then Err (configuration_failure (name +:+ " must not be empty"))
  else if MAX_TRANSPORT_STRING_BYTES <? str_len value then
    Err (configuration_failure (name +:+ " exceeds " +:+ pretty MAX_TRANSPORT_STRING_BYTES +:+
      " UTF-8 bytes"))
  else if contains_nul value then Err (configuration_failure (name +:+ " must not contain NUL"))
  else Ok ().

Definition validate_count (name : string) (value : N) (allow_zero : bool) : result () Failure :=
  if (negb allow_zero && (value =? 0)) || (MAX_WORKER_COUNT <? value) then
    Err (configuration_failure (name +:+ " must be between " +:+
      (if allow_zero then "0" else "1") +:+ " and " +:+ pretty MAX_WORKER_COUNT))
  else Ok ().

(** ** Tuning *)

Definition workflow_task_poller_behavior (tuning : WorkerTuningInput)
    (max_concurrent_workflow_task_polls : N) : result PollerBehavior Failure :=
  match workflow_task_poller_autoscaling tuning with
  | None =>
      let? maximum :=
        to_usize "max_concurrent_workflow_task_polls" max_concurrent_workflow_task_polls in
      Ok (SimpleMaximum maximum)
  | Some autoscaling =>
      let minimum := pa_minimum autoscaling in
      let maximum := pa_maximum autoscaling in
      let initial := pa_initial autoscaling in
      let? _ := validate_count "workflow_task_poller_autoscaling.minimum" minimum false in
      let? _ := validate_count "workflow_task_poller_autoscaling.maximum" maximum false in
      if maximum <? minimum then
        Err (configuration_failure
          "workflow_task_poller_autoscaling.maximum must be at least minimum")
      else if (initial <? minimum) || (maximum <? initial) then
        Err (configuration_failure
          "workflow_task_poller_autoscaling.initial must be between minimum and maximum")
      else if negb (maximum =? max_concurrent_workflow_task_polls) then
        Err (configuration_failure
          "workflow_task_poller_autoscaling.maximum must equal max_concurrent_workflow_task_polls")
      else
        let? minimum := to_usize "workflow_task_poller_autoscaling.minimum" minimum in
        let? maximum := to_usize "workflow_task_poller_autoscaling.maximum" maximum in
        let? initial := to_usize "workflow_task_poller_autoscaling.initial" initial in
        Ok (Autoscaling minimum maximum initial)
  end.

(** Both intervals are given and the default is longer than the longest. *)
Definition intervals_contradict (tuning : WorkerTuningInput) : bool :=
  match default_heartbeat_throttle_interval_ms tuning,
        max_heartbeat_throttle_interval_ms tuning with
  | Some default, Some maximum => maximum <? default
  | _, _ => false
  end.

Definition validated (tuning : WorkerTuningInput) : result ValidatedTuning Failure :=
  let? sticky := tuning_duration "sticky_queue_schedule_to_start_timeout_ms"
    (sticky_queue_schedule_to_start_timeout_ms tuning)
    CORE_DEFAULT_STICKY_QUEUE_SCHEDULE_TO_START_MS in
  let? max_heartbeat := tuning_duration "max_heartbeat_throttle_interval_ms"
    (max_heartbeat_throttle_interval_ms tuning) CORE_DEFAULT_MAX_HEARTBEAT_THROTTLE_MS in
  let? default_heartbeat := tuning_duration "default_heartbeat_throttle_interval_ms"
    (default_heartbeat_throttle_interval_ms tuning) CORE_DEFAULT_HEARTBEAT_THROTTLE_MS in
  if intervals_contradict tuning
  then Err (configuration_failure
    "default_heartbeat_throttle_interval_ms must not exceed max_heartbeat_throttle_interval_ms")
  else
    let? worker := worker_rate "max_worker_activities_per_second"
      (max_worker_activities_per_second tuning) in
    let? task_queue := tuning_rate "max_task_queue_activities_per_second"
      (max_task_queue_activities_per_second tuning) in
    Ok (mkValidatedTuning sticky max_heartbeat default_heartbeat worker task_queue).

(** [heartbeat_intervals]: the longest and the default interval. *)
Definition heartbeat_intervals (tuning : WorkerTuningInput) : result (N * N) Failure :=
  let? tuning := validated tuning in
  Ok (vt_max_heartbeat tuning, vt_default_heartbeat tuning).

(** ** Versioning *)

Definition versioning_behavior (value : option string) :
    result (option VersioningBehavior) Failure :=
  match value with
  | None => Ok None
  | Some value =>
      if bool_decide (value = "auto_upgrade") then Ok (Some AutoUpgrade)
      else if bool_decide (value = "pinned") then Ok (Some Pinned)
      else Err (configuration_failure
        ("versioning.default_versioning_behavior has unsupported value " +:+ value))
  end.

Definition same_build_id (build_id expected : string) : result () Failure :=
  if bool_decide (build_id = expected) then Ok ()
  else Err (configuration_failure "versioning.build_id must match build_id").

Definition versioning_strategy (versioning : WorkerVersioningInput) (expected : string) :
    result WorkerVersioningStrategy Failure :=
  match versioning with
  | Versioning_None => Ok (Strategy_None expected)
  | Versioning_LegacyBuildId build_id =>
      let? _ := validate_transport_identifier "versioning.build_id" build_id in
      let? _ := same_build_id build_id expected in
      Ok (Strategy_LegacyBuildIdBased build_id)
  | Versioning_DeploymentBased deployment_name build_id use_worker_versioning default =>
      let? _ := validate_transport_identifier "versioning.deployment_name" deployment_name in
      let? _ := validate_transport_identifier "versioning.build_id" build_id in
      let? _ := same_build_id build_id expected in
      let? default := versioning_behavior default in
      if negb use_worker_versioning && negb (bool_decide (default = None)) then
        Err (configuration_failure
          "versioning.default_versioning_behavior requires use_worker_versioning")
      else if use_worker_versioning && bool_decide (default = None) then
        Err (configuration_failure
          "versioning.use_worker_versioning requires default_versioning_behavior")
      else
        Ok (Strategy_WorkerDeploymentBased deployment_name build_id use_worker_versioning default)
  end.

(** ** The conversion *)

(** Slots for workflow tasks. *)
Definition workflow_task_slots (cached outstanding : N) : N :=
  if cached =? 0 then outstanding else N.min outstanding (N.max cached 2).

Section IntoCore.
(** What the builder of Core's configuration rejects, with its message. *)
Variable core_rejects : CoreWorkerConfig → option string.

Definition build (config : CoreWorkerConfig) : result CoreWorkerConfig Failure :=
  match core_rejects config with
  | Some message =>
      Err (configuration_failure
        ("Temporal workflow worker configuration is invalid: " +:+ message))
  | None => Ok config
  end.

Definition into_core (input : WorkerConfigInput) : result CoreWorkerConfig Failure :=
  let cached := in_max_cached_workflows input in
  let outstanding := in_max_outstanding_workflow_tasks input in
  let polls := in_max_concurrent_workflow_task_polls input in
  let? _ := validate_transport_identifier "namespace" (in_namespace input) in
  let? _ := validate_transport_identifier "task_queue" (in_task_queue input) in
  let? _ := validate_transport_identifier "build_id" (in_build_id input) in
  let? versioning := versioning_strategy (in_versioning input) (in_build_id input) in
  let? _ := validate_count "max_cached_workflows" cached true in
  let? _ := validate_count "max_outstanding_workflow_tasks" outstanding false in
  let? _ := validate_count "max_concurrent_workflow_task_polls" polls false in
  if (0 <? cached) && bool_decide (workflow_task_poller_autoscaling (in_tuning input) = None) &&
     (polls <? MIN_CACHED_WORKFLOW_POLLS)
  then Err (configuration_failure
    "max_concurrent_workflow_task_polls must be at least 2 when max_cached_workflows is greater than zero")
  else if MAX_GRACEFUL_SHUTDOWN_MS <? in_graceful_shutdown_timeout_ms input then
    Err (configuration_failure ("graceful_shutdown_timeout_ms exceeds " +:+
      pretty MAX_GRACEFUL_SHUTDOWN_MS))
  else
    let? slots :=
      to_usize "max_outstanding_workflow_tasks" (workflow_task_slots cached outstanding) in
    let? poller := workflow_task_poller_behavior (in_tuning input) polls in
    let? tuning := validated (in_tuning input) in
    let? cached := to_usize "max_cached_workflows" cached in
    let? task_types :=
      map_err configuration_failure
        (bridge_task_types (tt_workflows (in_task_types input))
          (tt_activities (in_task_types input))) in
    build {|
      cw_namespace := in_namespace input;
      cw_task_queue := in_task_queue input;
      cw_max_cached_workflows := cached;
      cw_max_outstanding_workflow_tasks := slots;
      cw_workflow_task_poller_behavior := poller;
      cw_tuning := tuning;
      cw_graceful_shutdown_period := in_graceful_shutdown_timeout_ms input;
      cw_versioning_strategy := versioning;
      cw_max_outstanding_activities := DEFAULT_MAX_OUTSTANDING_ACTIVITIES;
      cw_max_outstanding_local_activities := DEFAULT_MAX_OUTSTANDING_LOCAL_ACTIVITIES;
      cw_activity_task_poller_behavior := SimpleMaximum DEFAULT_MAX_CONCURRENT_ACTIVITY_POLLS;
      cw_task_types := task_types
    |}.

End IntoCore.

(** ** What is accepted *)

Definition transport_name (s : string) : Prop :=
  s ≠ "" ∧ str_len s ≤ MAX_TRANSPORT_STRING_BYTES ∧ contains_nul s = false.

Lemma validate_transport_identifier_Ok name value :
  validate_transport_identifier name value = Ok () ↔ transport_name value.
Proof.
  unfold validate_transport_identifier, transport_name.
  open_checks. rewrite <-not_true_iff_false, str_is_empty_spec, N.ltb_ge. naive_solver.
Qed.

Lemma validate_count_Ok name value allow_zero :
  validate_count name value allow_zero = Ok () ↔
  value ≤ MAX_WORKER_COUNT ∧ (allow_zero = false → value ≠ 0).
Proof.
  unfold validate_count. rewrite guard_Ok, orb_false_iff, andb_false_iff, N.ltb_ge, N.eqb_neq.
  destruct allow_zero; naive_solver.
Qed.

Lemma to_usize_Ok name value r : to_usize name value = Ok r ↔ value ≤ usize_max ∧ r = value.
Proof. unfold to_usize. destruct (N.leb_spec value usize_max); naive_solver lia. Qed.

(** A duration that is given is from one millisecond to a day. *)
Definition duration_given (value : option N) : Prop :=
  ∀ ms, value = Some ms → 1 ≤ ms ≤ MAX_WORKER_TUNING_DURATION_MS.

Lemma tuning_duration_Ok name value default_ms r :
  tuning_duration name value default_ms = Ok r ↔
  duration_given value ∧ r = default default_ms value.
Proof.
  unfold tuning_duration, duration_given. destruct value as [ms|]; cbn; [|naive_solver].
  destruct (N.leb_spec 1 ms), (N.leb_spec ms MAX_WORKER_TUNING_DURATION_MS); cbn [andb];
    split; try done; try (intros [= <-]; split; [intros ? [= <-]; lia|done]);
    try (intros [Hms _]; specialize (Hms ms eq_refl); lia).
  intros [_ ->]. done.
Qed.

Definition positive_rate (rate : f64) : Prop :=
  is_normal rate = true ∧ is_sign_positive rate = true.

Lemma tuning_rate_Ok name value r :
  tuning_rate name value = Ok r ↔ (∀ rate, value = Some rate → positive_rate rate) ∧ r = value.
Proof.
  unfold tuning_rate, positive_rate. destruct value as [rate|]; [|naive_solver].
  destruct (is_normal rate) eqn:?, (is_sign_positive rate) eqn:?; cbn [andb]; split; try naive_solver;
    intros [Hr _]; destruct (Hr rate eq_refl); congruence.
Qed.

Lemma worker_rate_Ok name value r :
  worker_rate name value = Ok r ↔
  (∀ rate, value = Some rate →
    positive_rate rate ∧ SFltb rate MIN_WORKER_ACTIVITIES_PER_SECOND = false) ∧ r = value.
Proof.
  unfold worker_rate. rewrite bind_Ok. setoid_rewrite tuning_rate_Ok.
  destruct value as [rate|]; [|naive_solver].
  split.
  - intros (? & [Hp ->] & Hr). destruct (SFltb _ _) eqn:?; [done|]. injection Hr as <-.
    split; [|done]. intros ? [= <-]. auto.
  - intros [Hr ->]. destruct (Hr rate eq_refl) as [Hp Hlt]. exists (Some rate). rewrite Hlt.
    split; [|done]. split; [|done]. by intros ? [= <-].
Qed.

(** *** Tuning *)

Record tuning_valid (t : WorkerTuningInput) : Prop := {
  tv_sticky : duration_given (sticky_queue_schedule_to_start_timeout_ms t);
  tv_max : duration_given (max_heartbeat_throttle_interval_ms t);
  tv_default : duration_given (default_heartbeat_throttle_interval_ms t);
  tv_order d m : default_heartbeat_throttle_interval_ms t = Some d →
    max_heartbeat_throttle_interval_ms t = Some m → d ≤ m;
  tv_worker_rate rate : max_worker_activities_per_second t = Some rate →
    positive_rate rate ∧ SFltb rate MIN_WORKER_ACTIVITIES_PER_SECOND = false;
  tv_task_queue_rate rate : max_task_queue_activities_per_second t = Some rate → positive_rate rate
}.

Definition tuned (t : WorkerTuningInput) : ValidatedTuning := {|
  vt_sticky :=
    default CORE_DEFAULT_STICKY_QUEUE_SCHEDULE_TO_START_MS
      (sticky_queue_schedule_to_start_timeout_ms t);
  vt_max_heartbeat :=
    default CORE_DEFAULT_MAX_HEARTBEAT_THROTTLE_MS (max_heartbeat_throttle_interval_ms t);
  vt_default_heartbeat :=
    default CORE_DEFAULT_HEARTBEAT_THROTTLE_MS (default_heartbeat_throttle_interval_ms t);
  vt_worker_rate := max_worker_activities_per_second t;
  vt_task_queue_rate := max_task_queue_activities_per_second t
|}.

Lemma validated_Ok t v : validated t = Ok v ↔ tuning_valid t ∧ v = tuned t.
Proof.
  assert (intervals_contradict t = false ↔
    ∀ d m, default_heartbeat_throttle_interval_ms t = Some d →
      max_heartbeat_throttle_interval_ms t = Some m → d ≤ m) as Horder.
  { unfold intervals_contradict.
    destruct (default_heartbeat_throttle_interval_ms t), (max_heartbeat_throttle_interval_ms t);
      rewrite ?N.ltb_ge; naive_solver. }
  unfold validated. split.
  - intros (? & [? ->]%tuning_duration_Ok & Hv)%bind_Ok.
    apply bind_Ok in Hv as (? & [? ->]%tuning_duration_Ok & Hv).
    apply bind_Ok in Hv as (? & [? ->]%tuning_duration_Ok & Hv).
    apply guard_Ok in Hv as [Ho Hv]. pose proof (proj1 Horder Ho).
    apply bind_Ok in Hv as (? & [? ->]%worker_rate_Ok & Hv).
    apply bind_Ok in Hv as (? & [? ->]%tuning_rate_Ok & [= <-]). by split; [constructor|].
  - intros [[] ->]. apply bind_Ok. eexists. rewrite tuning_duration_Ok. split; [done|].
    apply bind_Ok. eexists. rewrite tuning_duration_Ok. split; [done|].
    apply bind_Ok. eexists. rewrite tuning_duration_Ok. split; [done|].
    apply guard_Ok. split; [by apply Horder|].
    apply bind_Ok. eexists. rewrite worker_rate_Ok. split; [done|].
    apply bind_Ok. eexists. rewrite tuning_rate_Ok. by split.
Qed.

(** *** Pollers *)

Definition autoscaling_valid (a : PollerAutoscalingInput) (polls : N) : Prop :=
  1 ≤ pa_minimum a ≤ pa_initial a ∧ pa_initial a ≤ pa_maximum a ∧ pa_maximum a = polls.

Definition poller (t : WorkerTuningInput) (polls : N) : PollerBehavior :=
  match workflow_task_poller_autoscaling t with
  | None => SimpleMaximum polls
  | Some a => Autoscaling (pa_minimum a) (pa_maximum a) (pa_initial a)
  end.

Lemma workflow_task_poller_behavior_Ok t polls p :
  polls ≤ MAX_WORKER_COUNT →
  workflow_task_poller_behavior t polls = Ok p ↔
  (∀ a, workflow_task_poller_autoscaling t = Some a → autoscaling_valid a polls) ∧ p = poller t polls.
Proof.
  intros Hpolls. assert (MAX_WORKER_COUNT ≤ usize_max) as Husize by (vm_compute; discriminate).
  unfold workflow_task_poller_behavior, poller. destruct (workflow_task_poller_autoscaling t) as [a|].
  - open_checks. rewrite !validate_count_Ok, !bind_Ok, N.ltb_ge, orb_false_iff, !N.ltb_ge,
      negb_false_iff, N.eqb_eq. unfold autoscaling_valid. split.
    + intros (? & ? & ? & ? & ? & ? & Hm & Hrest).
      apply bind_Ok in Hrest as (? & [_ ->]%to_usize_Ok & Hrest).
      apply bind_Ok in Hrest as (? & [_ ->]%to_usize_Ok & [= <-]). apply to_usize_Ok in Hm as [_ ->].
      split; [|done]. intros ? [= <-]. lia.
    + intros [Hv ->]. specialize (Hv a eq_refl). split_and!; try done; try lia.
      exists (pa_minimum a). rewrite to_usize_Ok. split; [lia|].
      apply bind_Ok. exists (pa_maximum a). rewrite to_usize_Ok. split; [lia|].
      apply bind_Ok. exists (pa_initial a). rewrite to_usize_Ok. split; [lia|done].
  - rewrite bind_Ok. setoid_rewrite to_usize_Ok. split; [naive_solver|].
    intros [_ ->]. exists polls. split; [lia|done].
Qed.

(** *** Versioning *)

Definition behavior_named (value : option string) (behavior : option VersioningBehavior) : Prop :=
  match behavior with
  | None => value = None
  | Some AutoUpgrade => value = Some "auto_upgrade"
  | Some Pinned => value = Some "pinned"
  end.

Lemma versioning_behavior_Ok value behavior :
  versioning_behavior value = Ok behavior ↔ behavior_named value behavior.
Proof.
  unfold versioning_behavior, behavior_named. destruct value as [value|].
  - repeat case_bool_decide; subst; destruct behavior as [[]|]; naive_solver.
  - destruct behavior as [[]|]; naive_solver.
Qed.

(** The strategy that a valid document names. *)
Definition strategy_of (versioning : WorkerVersioningInput) (build_id : string)
    (strategy : WorkerVersioningStrategy) : Prop :=
  match versioning, strategy with
  | Versioning_None, Strategy_None b => b = build_id
  | Versioning_LegacyBuildId b, Strategy_LegacyBuildIdBased b' =>
      transport_name b ∧ b = build_id ∧ b' = b
  | Versioning_DeploymentBased name b use value, Strategy_WorkerDeploymentBased name' b' use' behavior =>
      transport_name name ∧ transport_name b ∧ b = build_id ∧ behavior_named value behavior ∧
      (use = true ↔ behavior ≠ None) ∧ name' = name ∧ b' = b ∧ use' = use
  | _, _ => False
  end.

Lemma versioning_strategy_Ok versioning build_id strategy :
  versioning_strategy versioning build_id = Ok strategy ↔ strategy_of versioning build_id strategy.
Proof.
  assert (∀ b, same_build_id b build_id = Ok () ↔ b = build_id) as Hsame.
  { intros b. unfold same_build_id. case_bool_decide; naive_solver. }
  destruct versioning as [|b|name b use value]; cbn [versioning_strategy].
  - destruct strategy; naive_solver.
  - open_checks. rewrite validate_transport_identifier_Ok, Hsame. destruct strategy; naive_solver.
  - open_checks. rewrite !validate_transport_identifier_Ok, Hsame, bind_Ok.
    setoid_rewrite versioning_behavior_Ok. unfold strategy_of. split.
    + intros (? & ? & ? & behavior & ? & Hrest). revert Hrest.
      destruct use, behavior; cbn; try case_bool_decide; try done; intros [= <-]; naive_solver.
    + destruct strategy as [| |name' b' use' behavior]; try done.
      intros (? & ? & ? & ? & Huse & -> & -> & ->). split_and!; try done. exists behavior.
      split; [done|]. destruct use, behavior; cbn; try case_bool_decide; naive_solver.
Qed.

(** *** The document *)

Record config_valid (input : WorkerConfigInput) : Prop := {
  cv_namespace : transport_name (in_namespace input);
  cv_task_queue : transport_name (in_task_queue input);
  cv_build_id : transport_name (in_build_id input);
  cv_cached : in_max_cached_workflows input ≤ MAX_WORKER_COUNT;
  cv_outstanding : 1 ≤ in_max_outstanding_workflow_tasks input ≤ MAX_WORKER_COUNT;
  cv_polls : 1 ≤ in_max_concurrent_workflow_task_polls input ≤ MAX_WORKER_COUNT;
  cv_cached_polls : 0 < in_max_cached_workflows input →
    workflow_task_poller_autoscaling (in_tuning input) = None →
    2 ≤ in_max_concurrent_workflow_task_polls input;
  cv_graceful : in_graceful_shutdown_timeout_ms input ≤ MAX_GRACEFUL_SHUTDOWN_MS;
  cv_autoscaling a : workflow_task_poller_autoscaling (in_tuning input) = Some a →
    autoscaling_valid a (in_max_concurrent_workflow_task_polls input);
  cv_tuning : tuning_valid (in_tuning input);
  cv_task_types :
    tt_workflows (in_task_types input) = true ∨ tt_activities (in_task_types input) = true
}.

(** What Core gets for a document with the given strategy. *)
Definition core_config (input : WorkerConfigInput) (strategy : WorkerVersioningStrategy) :
    CoreWorkerConfig := {|
  cw_namespace := in_namespace input;
  cw_task_queue := in_task_queue input;
  cw_max_cached_workflows := in_max_cached_workflows input;
  cw_max_outstanding_workflow_tasks :=
    workflow_task_slots (in_max_cached_workflows input) (in_max_outstanding_workflow_tasks input);
  cw_workflow_task_poller_behavior :=
    poller (in_tuning input) (in_max_concurrent_workflow_task_polls input);
  cw_tuning := tuned (in_tuning input);
  cw_graceful_shutdown_period := in_graceful_shutdown_timeout_ms input;
  cw_versioning_strategy := strategy;
  cw_max_outstanding_activities := 1;
  cw_max_outstanding_local_activities := 1;
  cw_activity_task_poller_behavior := SimpleMaximum 1;
  cw_task_types :=
    let workflows := tt_workflows (in_task_types input) in
    mkWorkerTaskTypes workflows workflows (tt_activities (in_task_types input)) false
|}.

Lemma bridge_task_types_Ok workflows activities types :
  bridge_task_types workflows activities = Ok types ↔
  (workflows = true ∨ activities = true) ∧
  types = mkWorkerTaskTypes workflows workflows activities false.
Proof. unfold bridge_task_types. destruct workflows, activities; cbn; naive_solver. Qed.

Lemma slots_bound cached outstanding :
  1 ≤ outstanding → outstanding ≤ MAX_WORKER_COUNT →
  1 ≤ workflow_task_slots cached outstanding ≤ MAX_WORKER_COUNT ∧
  (0 < cached → workflow_task_slots cached outstanding ≤ N.max cached 2).
Proof. unfold workflow_task_slots. destruct (N.eqb_spec cached 0); lia. Qed.

(** *** Rates *)

(** The time between two activities at a rate is under [seconds]: one is less than
    [seconds] times the rate, over the integers. *)
Definition period_below (rate : f64) (seconds : Z) : Prop :=
  match rate with
  | S754_finite false m e => (2 ^ Z.max 0 (- e) < seconds * Z.pos m * 2 ^ Z.max 0 e)%Z
  | _ => False
  end.

Lemma normal_mantissa m : Z.pos (digits2_pos m) = 53%Z → (2 ^ 52 <= Z.pos m)%Z.
Proof.
  assert (digits2_pos m = Pos.size m) as -> by (induction m; cbn; congruence).
  intros Hsize. pose proof (Pos.size_le m) as Hle. injection Hsize as Hsize. rewrite Hsize in Hle.
  apply Pos2Z.pos_le_pos in Hle. change (Z.pos (2 ^ 53)) with 9007199254740992%Z in Hle.
  change (2 ^ 52)%Z with 4503599627370496%Z. lia.
Qed.

Lemma accepted_rate_period rate :
  positive_rate rate → SFltb rate MIN_WORKER_ACTIVITIES_PER_SECOND = false →
  period_below rate 86401.
Proof.
  replace MIN_WORKER_ACTIVITIES_PER_SECOND with (S754_finite false 6832127434707241 (-69))
    by (vm_compute; reflexivity).
  intros [Hnormal Hsign] Hmin. destruct rate as [s|s| |[] m e]; try discriminate.
  unfold is_normal in Hnormal. apply Z.eqb_eq, normal_mantissa in Hnormal.
  unfold SFltb, SFcompare in Hmin. unfold period_below.
  destruct (Z.compare_spec e (-69)) as [->|He|He]; [|done|].
  - pose proof (Pos.compare_spec m 6832127434707241) as Hcompare. unfold Pos.compare in Hcompare.
    destruct Hcompare as [->|Hm|Hm]; [by vm_compute|discriminate|].
    apply Pos2Z.pos_lt_pos in Hm. change (2 ^ Z.max 0 (- -69))%Z with 590295810358705651712%Z. lia.
  - destruct (Z.le_gt_cases 0 e) as [Hpos|Hneg].
    + rewrite Z.max_l, Z.max_r by lia. pose proof (Z.pow_pos_nonneg 2 e). nia.
    + rewrite Z.max_r, Z.max_l by lia.
      assert (2 ^ (- e) <= 2 ^ 68)%Z by (apply Z.pow_le_mono_r; lia). lia.
Qed.

Section Accepts.
Variable core_rejects : CoreWorkerConfig → option string.

Lemma build_Ok config config' :
  build core_rejects config = Ok config' ↔ core_rejects config = None ∧ config' = config.
Proof. unfold build. destruct (core_rejects config); naive_solver. Qed.

Definition accepted (input : WorkerConfigInput) (config : CoreWorkerConfig) : Prop :=
  config_valid input ∧
  ∃ strategy, strategy_of (in_versioning input) (in_build_id input) strategy ∧
    config = core_config input strategy ∧ core_rejects config = None.

Lemma into_core_valid input config :
  into_core core_rejects input = Ok config → accepted input config.
Proof.
  unfold into_core. cbv zeta.
  intros [Hns%validate_transport_identifier_Ok Hr]%seq_Ok.
  apply seq_Ok in Hr as [Htq%validate_transport_identifier_Ok Hr].
  apply seq_Ok in Hr as [Hb%validate_transport_identifier_Ok Hr].
  apply bind_Ok in Hr as (strategy & Hstrategy%versioning_strategy_Ok & Hr).
  apply seq_Ok in Hr as [[Hcached _]%validate_count_Ok Hr].
  apply seq_Ok in Hr as [[Hout Hout0]%validate_count_Ok Hr].
  apply seq_Ok in Hr as [[Hpolls Hpolls0]%validate_count_Ok Hr].
  apply guard_Ok in Hr as [Hcp Hr]. apply guard_Ok in Hr as [Hgrace%N.ltb_ge Hr].
  apply bind_Ok in Hr as (slots & [_ ->]%to_usize_Ok & Hr).
  apply bind_Ok in Hr as (p & [Hauto ->]%workflow_task_poller_behavior_Ok & Hr); [|done].
  apply bind_Ok in Hr as (tuning & [Htuning ->]%validated_Ok & Hr).
  apply bind_Ok in Hr as (cached & [_ ->]%to_usize_Ok & Hr).
  apply bind_Ok in Hr as (types & Htypes & Hr).
  apply map_err_Ok, bridge_task_types_Ok in Htypes as [Hkinds ->].
  apply build_Ok in Hr as [Hcore ->]. specialize (Hout0 eq_refl). specialize (Hpolls0 eq_refl).
  split; [|by exists strategy]. split; try done; try lia. intros Hc Hnone.
  rewrite !andb_false_iff, N.ltb_ge, N.ltb_ge, bool_decide_eq_false in Hcp.
  unfold MIN_CACHED_WORKFLOW_POLLS in Hcp. destruct Hcp as [[?|?]|?]; [lia|done|lia].
Qed.

Lemma into_core_complete input config :
  accepted input config → into_core core_rejects input = Ok config.
Proof.
  assert (MAX_WORKER_COUNT ≤ usize_max) as Husize by (vm_compute; discriminate).
  unfold into_core. cbv zeta.
  intros [[] (strategy & Hstrategy & -> & Hcore)].
  destruct (slots_bound (in_max_cached_workflows input) (in_max_outstanding_workflow_tasks input))
    as [Hslots _]; [lia..|].
  apply seq_Ok. split; [by apply validate_transport_identifier_Ok|].
  apply seq_Ok. split; [by apply validate_transport_identifier_Ok|].
  apply seq_Ok. split; [by apply validate_transport_identifier_Ok|].
  apply bind_Ok. exists strategy. split; [by apply versioning_strategy_Ok|].
  apply seq_Ok. split; [by apply validate_count_Ok|].
  apply seq_Ok. split; [apply validate_count_Ok; lia|].
  apply seq_Ok. split; [apply validate_count_Ok; lia|].
  apply guard_Ok. split.
  { rewrite !andb_false_iff, N.ltb_ge, N.ltb_ge, bool_decide_eq_false.
    unfold MIN_CACHED_WORKFLOW_POLLS. destruct (N.eq_dec (in_max_cached_workflows input) 0); [lia|].
    destruct (workflow_task_poller_autoscaling (in_tuning input)); [by left; right|].
    right. apply cv_cached_polls0; [lia|done]. }
  apply guard_Ok. split; [by apply N.ltb_ge|].
  apply bind_Ok. eexists. split; [apply to_usize_Ok; split; [lia|done]|].
  apply bind_Ok. eexists. split; [by apply workflow_task_poller_behavior_Ok; [lia|]|].
  apply bind_Ok. eexists. split; [by apply validated_Ok|].
  apply bind_Ok. eexists. split; [apply to_usize_Ok; split; [lia|done]|].
  apply bind_Ok. eexists. split; [apply map_err_Ok; by apply bridge_task_types_Ok|].
  by apply build_Ok.
Qed.

(** A worker document is accepted exactly when its names are proper, its counts,
    pollers, durations and rates are within their limits, its versioning is
    consistent, it enables some kind of task and Core's builder takes the result,
    which is the document's own values with the slots capped by the cache. *)
Theorem worker_config_accepts input config :
  into_core core_rejects input = Ok config ↔
  config_valid input ∧
  ∃ strategy, strategy_of (in_versioning input) (in_build_id input) strategy ∧
    config = core_config input strategy ∧ core_rejects config = None.
Proof. split; [apply into_core_valid|apply into_core_complete]. Qed.

(** *** Well-formed configurations *)

Definition tuning_limit (ms : N) : Prop := 1 ≤ ms ≤ MAX_WORKER_TUNING_DURATION_MS.

Definition poller_wf (cached : N) (behavior : PollerBehavior) : Prop :=
  match behavior with
  | SimpleMaximum maximum => 1 ≤ maximum ≤ MAX_WORKER_COUNT ∧ (0 < cached → 2 ≤ maximum)
  | Autoscaling minimum maximum initial =>
      1 ≤ minimum ≤ initial ∧ initial ≤ maximum ≤ MAX_WORKER_COUNT
  end.

(** A deployment that versions workers has a default behavior, and only it has. *)
Definition strategy_wf (strategy : WorkerVersioningStrategy) : Prop :=
  match strategy with
  | Strategy_None build_id | Strategy_LegacyBuildIdBased build_id => transport_name build_id
  | Strategy_WorkerDeploymentBased name build_id use behavior =>
      transport_name name ∧ transport_name build_id ∧ (use = true ↔ behavior ≠ None)
  end.

Record tuning_wf (t : ValidatedTuning) : Prop := {
  tw_sticky : tuning_limit (vt_sticky t);
  tw_max : tuning_limit (vt_max_heartbeat t);
  tw_default : tuning_limit (vt_default_heartbeat t);
  tw_worker_rate rate : vt_worker_rate t = Some rate → period_below rate 86401;
  tw_task_queue_rate rate : vt_task_queue_rate t = Some rate → positive_rate rate
}.

Record config_wf (c : CoreWorkerConfig) : Prop := {
  cw_wf_names : transport_name (cw_namespace c) ∧ transport_name (cw_task_queue c);
  cw_wf_cached : cw_max_cached_workflows c ≤ MAX_WORKER_COUNT;
  cw_wf_slots : 1 ≤ cw_max_outstanding_workflow_tasks c ≤ MAX_WORKER_COUNT;
  cw_wf_slots_cached : 0 < cw_max_cached_workflows c →
    cw_max_outstanding_workflow_tasks c ≤ N.max (cw_max_cached_workflows c) 2;
  cw_wf_poller : poller_wf (cw_max_cached_workflows c) (cw_workflow_task_poller_behavior c);
  cw_wf_tuning : tuning_wf (cw_tuning c);
  cw_wf_graceful : cw_graceful_shutdown_period c ≤ MAX_GRACEFUL_SHUTDOWN_MS;
  cw_wf_strategy : strategy_wf (cw_versioning_strategy c);
  cw_wf_lanes : poll_lanes_for (cw_task_types c) ≠ (false, false)
}.

Lemma duration_limit value d :
  duration_given value → tuning_limit d → tuning_limit (default d value).
Proof. intros Hgiven Hd. destruct value; [by apply Hgiven|done]. Qed.

Lemma tuned_wf t : tuning_valid t → tuning_wf (tuned t).
Proof.
  intros []. split; cbn; try (apply duration_limit; [done|split; vm_compute; discriminate]).
  - intros rate [? ?]%tv_worker_rate0. by apply accepted_rate_period.
  - done.
Qed.

Lemma strategy_of_wf versioning build_id strategy :
  transport_name build_id → strategy_of versioning build_id strategy → strategy_wf strategy.
Proof. intros Hb. destruct versioning, strategy; cbn; naive_solver. Qed.

Lemma poller_of_wf t cached polls :
  1 ≤ polls ≤ MAX_WORKER_COUNT →
  (0 < cached → workflow_task_poller_autoscaling t = None → 2 ≤ polls) →
  (∀ a, workflow_task_poller_autoscaling t = Some a → autoscaling_valid a polls) →
  poller_wf cached (poller t polls).
Proof.
  unfold poller, autoscaling_valid. intros Hpolls Hcached Hauto.
  destruct (workflow_task_poller_autoscaling t) as [a|]; cbn; [|auto].
  specialize (Hauto a eq_refl). lia.
Qed.

(** C23: whatever the document, a configuration handed to Core is well formed: the
    task slots are at least one and never more than the cache allows, a fixed poller
    of a caching worker has the two polls that the sticky queue needs, the durations
    are between a millisecond and a day, an accepted worker rate never makes an
    activity wait longer than 86401 seconds, and at least one lane polls. *)
Theorem worker_config_well_formed input config :
  into_core core_rejects input = Ok config → config_wf config.
Proof.
  intros [[] (strategy & Hstrategy & -> & _)]%into_core_valid.
  destruct (slots_bound (in_max_cached_workflows input) (in_max_outstanding_workflow_tasks input));
    [lia..|].
  split; cbn [core_config cw_namespace cw_task_queue cw_max_cached_workflows
    cw_max_outstanding_workflow_tasks cw_workflow_task_poller_behavior cw_tuning
    cw_graceful_shutdown_period cw_versioning_strategy cw_task_types]; try done.
  - by apply poller_of_wf.
  - by apply tuned_wf.
  - by eapply strategy_of_wf.
  - unfold poll_lanes_for; cbn. destruct cv_task_types0 as [->| ->]; [done|]. by destruct tt_workflows.
Qed.

(** The throttle of the heartbeats runs on the intervals that Core was given. *)
Lemma heartbeat_intervals_agree input config :
  into_core core_rejects input = Ok config →
  heartbeat_intervals (in_tuning input) =
  Ok (vt_max_heartbeat (cw_tuning config), vt_default_heartbeat (cw_tuning config)).
Proof.
  intros [[] (strategy & Hstrategy & -> & _)]%into_core_valid. unfold heartbeat_intervals.
  apply bind_Ok. eexists. split; [by apply validated_Ok|done].
Qed.

End Accepts.

(** A caching worker with autoscaling polls, a deployment and a rate of one a day. *)
Definition autoscaled_worker : WorkerConfigInput := {|
  in_namespace := "default";
  in_task_queue := "orders";
  in_build_id := "build-1";
  in_versioning := Versioning_DeploymentBased "orders" "build-1" true (Some "pinned");
  in_max_cached_workflows := 1;
  in_max_outstanding_workflow_tasks := 100;
  in_max_concurrent_workflow_task_polls := 10;
  in_graceful_shutdown_timeout_ms := 5000;
  in_task_types := WorkerTaskTypesInput_default;
  in_tuning := {|
    workflow_task_poller_autoscaling := Some (mkPollerAutoscalingInput 1 10 5);
    sticky_queue_schedule_to_start_timeout_ms := None;
    max_heartbeat_throttle_interval_ms := Some 20000;
    default_heartbeat_throttle_interval_ms := Some 10000;
    max_worker_activities_per_second := Some MIN_WORKER_ACTIVITIES_PER_SECOND;
    max_task_queue_activities_per_second := None
  |}
|}.

Lemma worker_config_well_formed_witness :
  ∃ config, into_core (λ _, None) autoscaled_worker = Ok config ∧
    cw_max_outstanding_workflow_tasks config = 2 ∧ config_wf config.
Proof.
  eexists. split; [vm_compute; reflexivity|]. split; [reflexivity|].
  apply (worker_config_well_formed (λ _, None) autoscaled_worker). vm_compute. reflexivity.
Defined.
