(* ===== verification/BindAddress.v ===== *)
(** * Bind addresses

    The address of the metrics endpoint is checked twice: by the OCaml library
    (src/lib/base/metrics_config.ml) before the document is written, and by the
    bridge (src/rust/core-bridge/src/telemetry.rs), which parses it with the
    standard library's parser of socket addresses.  Both sides promise to accept
    exactly the same text, and the theorem of this file says that they do. *)

From Stdlib Require Import String Ascii.
From S2P Require Import Prelude.
From S2P Require Import Text.
Local Open Scope N_scope.

(** A text is the list of its bytes. *)
Definition Bytes : Type := list ascii.

Notation dot := "."%char.
Notation colon := ":"%char.
Notation percent := "%"%char.
Notation zero := "0"%char.
Notation bracket := "["%char.
Notation unbracket := "]"%char.

(** ** The standard library's parser *)

(** [char::to_digit]. *)
Definition to_digit (radix : N) (c : ascii) : option N :=
  d ← (if between 48 57 c then Some (N_of_ascii c - 48)
       else if between 97 122 c then Some (N_of_ascii c - 87)
       else if between 65 90 c then Some (N_of_ascii c - 55)
       else None);
  if d <? radix then Some d else None.

Definition read_given_char (expected : ascii) (s : Bytes) : option Bytes :=
  match s with
  | c :: s => if bool_decide (c = expected) then Some s else None
  | [] => None
  end.

(** The digits that the loop of [read_number] takes. *)
Fixpoint take_digits (radix : N) (s : Bytes) : list N * Bytes :=
  match s with
  | [] => ([], [])
  | c :: rest =>
      match to_digit radix c with
      | Some d => let '(ds, rest) := take_digits radix rest in (d :: ds, rest)
      | None => ([], s)
      end
  end.

Definition value (radix : N) (digits : list N) : N :=
  foldl (λ acc d, acc * radix + d) 0 digits.

(** [checked_mul] and [checked_add] at a type with the given largest value. *)
Fixpoint checked_value (largest radix acc : N) (digits : list N) : option N :=
  match digits with
  | [] => Some acc
  | d :: digits =>
      if largest <? acc * radix then None
      else if largest <? acc * radix + d then None
      else checked_value largest radix (acc * radix + d) digits
  end.

(** A number of a type with the given largest value. *)
Definition read_number (radix : N) (max_digits : option nat) (allow_zero_prefix : bool)
    (largest : N) (s : Bytes) : option (N * Bytes) :=
  let has_leading_zero := bool_decide (head s = Some zero) in
  let '(digits, rest) := take_digits radix s in
  let result :=
    match max_digits with
    | Some m =>
        if (m <? length digits)%nat then None
        else if value radix digits <=? largest then Some (value radix digits) else None
    | None => checked_value largest radix 0 digits
    end in
  if (length digits =? 0)%nat then None
  else if negb allow_zero_prefix && has_leading_zero && (1 <? length digits)%nat then None
  else (λ v, (v, rest)) <$> result.

Definition read_separator {A} (separator : ascii) (index : nat) (inner : Bytes → option (A * Bytes))
    (s : Bytes) : option (A * Bytes) :=
  if (0 <? index)%nat then read_given_char separator s ≫= inner else inner s.

Fixpoint read_octets (slots index : nat) (s : Bytes) : option (list N * Bytes) :=
  match slots with
  | O => Some ([], s)
  | S slots =>
      '(octet, s) ← read_separator dot index (read_number 10 (Some 3%nat) false 255) s;
      '(octets, s) ← read_octets slots (S index) s;
      Some (octet :: octets, s)
  end.

Definition read_ipv4_addr (s : Bytes) : option (list N * Bytes) := read_octets 4 0 s.

Definition ipv4_groups (octets : list N) : list N :=
  match octets with
  | [a; b; c; d] => [256 * a + b; 256 * c + d]
  | _ => []
  end.

(** [read_groups] on the last [slots] places: the groups, whether they end in an
    embedded IPv4 address, and the rest. *)
Fixpoint read_groups (slots index : nat) (s : Bytes) : list N * bool * Bytes :=
  match slots with
  | O => ([], false, s)
  | S slots =>
      let embedded :=
        if (0 <? slots)%nat then read_separator colon index read_ipv4_addr s else None in
      match embedded with
      | Some (octets, rest) => (ipv4_groups octets, true, rest)
      | None =>
          match read_separator colon index (read_number 16 (Some 4%nat) true 65535) s with
          | Some (group, rest) =>
              let '(groups, ipv4, rest) := read_groups slots (S index) rest in
              (group :: groups, ipv4, rest)
          | None => ([], false, s)
          end
      end
  end.

Definition read_ipv6_addr (s : Bytes) : option (list N * Bytes) :=
  let '(front, ipv4, s) := read_groups 8 0 s in
  if (length front =? 8)%nat then Some (front, s)
  else if (ipv4 : bool) then None
  else
    s ← read_given_char colon s;
    s ← read_given_char colon s;
    let '(back, _, s) := read_groups (8 - (length front + 1)) 0 s in
    Some (front ++ repeat 0 (8 - length front - length back) ++ back, s).

Inductive SocketAddr :=
| V4 (octets : list N) (port : N)
| V6 (groups : list N) (scope_id port : N).

Definition read_port (s : Bytes) : option (N * Bytes) :=
  read_given_char colon s ≫= read_number 10 None true 65535.

Definition read_scope_id (s : Bytes) : option (N * Bytes) :=
  read_given_char percent s ≫= read_number 10 None true 4294967295.

Definition read_socket_addr_v4 (s : Bytes) : option (SocketAddr * Bytes) :=
  '(ip, s) ← read_ipv4_addr s;
  '(port, s) ← read_port s;
  Some (V4 ip port, s).

Definition read_socket_addr_v6 (s : Bytes) : option (SocketAddr * Bytes) :=
  s ← read_given_char bracket s;
  '(ip, s) ← read_ipv6_addr s;
  let '(scope_id, s) := default (0, s) (read_scope_id s) in
  s ← read_given_char unbracket s;
  '(port, s) ← read_port s;
  Some (V6 ip scope_id port, s).

(** [SocketAddr::from_str]: an address and nothing after it. *)
Definition SocketAddr_from_str (s : Bytes) : option SocketAddr :=
  '(address, rest) ←
    match read_socket_addr_v4 s with Some r => Some r | None => read_socket_addr_v6 s end;
  if bool_decide (rest = []) then Some address else None.

Definition is_ipv6 (address : SocketAddr) : bool :=
  match address with V6 _ _ _ => true | V4 _ _ => false end.

(** ** The bridge *)

Fixpoint rsplit_once (separator : ascii) (s : Bytes) : option (Bytes * Bytes) :=
  match s with
  | [] => None
  | c :: rest =>
      match rsplit_once separator rest with
      | Some (before, after) => Some (c :: before, after)
      | None => if bool_decide (c = separator) then Some ([], rest) else None
      end
  end.

Definition is_digit (c : ascii) : bool := between 48 57 c.

(** A canonical decimal number of at most [max_digits] digits. *)
Definition canonical_decimal (max_digits : nat) (s : Bytes) : bool :=
  negb (bool_decide (s = [])) && forallb is_digit s && (length s <=? max_digits)%nat &&
  (bool_decide (s = [zero]) || negb (bool_decide (head s = Some zero))).

Definition canonical_port (port : Bytes) : bool := canonical_decimal 5 port.

Definition bracketed (host : Bytes) : bool :=
  bool_decide (head host = Some bracket) && bool_decide (last host = Some unbracket).

Definition parse_bind_address (text : Bytes) : option SocketAddr :=
  '(host, port) ← rsplit_once colon text;
  if negb (canonical_port port) || bool_decide (percent ∈ host) then None
  else
    address ← SocketAddr_from_str text;
    if Bool.eqb (bracketed host) (is_ipv6 address) then Some address else None.

(** ** The OCaml library *)

(** The value of a run of decimal digits ([int_of_string]). *)
Definition int_of_string (s : Bytes) : N := value 10 (take_digits 10 s).1.

Definition valid_port (port : Bytes) : bool :=
  canonical_decimal 5 port && (int_of_string port <=? 65535).

Fixpoint split_on_char (separator : ascii) (s : Bytes) : list Bytes :=
  match s with
  | [] => [[]]
  | c :: s =>
      if bool_decide (c = separator) then [] :: split_on_char separator s
      else
        match split_on_char separator s with
        | part :: parts => (c :: part) :: parts
        | [] => [[c]]
        end
  end.

Definition valid_octet (octet : Bytes) : bool :=
  canonical_decimal 3 octet && (int_of_string octet <=? 255).

Definition valid_ipv4 (host : Bytes) : bool :=
  match split_on_char dot host with
  | [_; _; _; _] as octets => forallb valid_octet octets
  | _ => false
  end.

Definition is_hex (c : ascii) : bool := between 48 57 c || between 97 102 c || between 65 70 c.

Definition valid_hex_group (group : Bytes) : bool :=
  (1 <=? length group)%nat && (length group <=? 4)%nat && forallb is_hex group.

Fixpoint check_parts (allow_ipv4_tail : bool) (count index : nat) (parts : list Bytes) : option nat :=
  match parts with
  | [] => Some 0%nat
  | part :: rest =>
      if bool_decide (rest = []) && (index =? count - 1)%nat && allow_ipv4_tail && valid_ipv4 part
      then Some 2%nat
      else if valid_hex_group part then S <$> check_parts allow_ipv4_tail count (S index) rest
      else None
  end.

Definition ipv6_groups (allow_ipv4_tail : bool) (fragment : Bytes) : option nat :=
  if bool_decide (fragment = []) then Some 0%nat
  else
    let parts := split_on_char colon fragment in
    check_parts allow_ipv4_tail (length parts) 0 parts.

(** The index of the first double colon. *)
Fixpoint find_double_colon (s : Bytes) : option nat :=
  match s with
  | c :: (d :: _) as rest =>
      if bool_decide (c = colon) && bool_decide (d = colon) then Some 0%nat
      else S <$> find_double_colon rest
  | _ => None
  end.

Definition valid_ipv6 (host : Bytes) : bool :=
  match find_double_colon host with
  | None => bool_decide (ipv6_groups true host = Some 8%nat)
  | Some index =>
      match ipv6_groups false (take index host), ipv6_groups true (drop (index + 2) host) with
      | Some head_groups, Some tail_groups => (head_groups + tail_groups <=? 7)%nat
      | _, _ => false
      end
  end.

Definition valid_host (host : Bytes) : bool :=
  if (2 <=? length host)%nat && bracketed host
  then valid_ipv6 (take (length host - 2) (drop 1 host))
  else valid_ipv4 host.

Definition max_bind_address_bytes : nat := 128.

(** [validate_bind_address]: whether it is [Ok ()]. *)
Definition validate_bind_address (address : Bytes) : bool :=
  if bool_decide (address = []) || (max_bind_address_bytes <? length address)%nat then false
  else
    match rsplit_once colon address with
    | None => false
    | Some (host, port) => valid_host host && valid_port port
    end.

Lemma read_given_char_eq c s : read_given_char c (c :: s) = Some s.
Proof. cbn. by rewrite bool_decide_true. Qed.

Lemma read_given_char_Some c s rest : read_given_char c s = Some rest → s = c :: rest.
Proof. destruct s as [|x s]; [done|]. cbn. case_bool_decide; naive_solver. Qed.

(** ** Digits *)

(** What follows a number does not continue it. *)
Definition ends (radix : N) (rest : Bytes) : Prop :=
  ∀ c, head rest = Some c → to_digit radix c = None.

Definition run (radix : N) (w : Bytes) : Prop := Forall (λ c, is_Some (to_digit radix c)) w.

Lemma to_digit_is_digit c : is_Some (to_digit 10 c) ↔ is_digit c = true.
Proof. destruct c as [[] [] [] [] [] [] [] []]; vm_compute; split; (done || by eexists || by intros [? ?]). Qed.

Lemma to_digit_is_hex c : is_Some (to_digit 16 c) ↔ is_hex c = true.
Proof. destruct c as [[] [] [] [] [] [] [] []]; vm_compute; split; (done || by eexists || by intros [? ?]). Qed.

Lemma run_forallb radix p w :
  (∀ c, is_Some (to_digit radix c) ↔ p c = true) → run radix w ↔ forallb p w = true.
Proof.
  intros Hp. unfold run. induction w as [|c w IH]; [done|]. cbn [forallb].
  rewrite Forall_cons, andb_true_iff, IH, Hp. done.
Qed.

Lemma take_digits_run radix w rest :
  run radix w → ends radix rest →
  ∃ ds, take_digits radix (w ++ rest) = (ds, rest) ∧ take_digits radix w = (ds, []) ∧
    length ds = length w ∧ Forall (λ d, d < radix) ds.
Proof.
  intros Hw Hrest. induction Hw as [|c w [d Hd] _ IH]; cbn.
  - exists []. destruct rest as [|c rest]; [done|]. cbn. by rewrite (Hrest c eq_refl).
  - destruct IH as (ds & -> & -> & Hlen & Hds). rewrite Hd. exists (d :: ds). cbn. split_and!; [done..|lia|].
    constructor; [|done]. unfold to_digit in Hd. apply bind_Some in Hd as (x & _ & Hx).
    by destruct (N.ltb_spec x radix); simplify_eq.
Qed.

Lemma take_digits_split radix s ds rest :
  take_digits radix s = (ds, rest) → ∃ w, s = w ++ rest ∧ run radix w ∧ ends radix rest.
Proof.
  revert ds. induction s as [|c s IH]; cbn; intros ds.
  - intros [= <- <-]. exists []. by split_and!; [|constructor|].
  - destruct (to_digit radix c) as [d|] eqn:Hd.
    + destruct (take_digits radix s) as [ds' rest']. intros [= <- <-].
      destruct (IH ds' eq_refl) as (w & -> & Hw & Hend). exists (c :: w). split_and!; [done| |done].
      constructor; [by eexists|done].
    + intros [= <- <-]. exists []. split_and!; [done|constructor|]. by intros ? [= <-].
Qed.

Lemma value_app radix acc ds :
  foldl (λ acc d, acc * radix + d) acc ds = acc * radix ^ N.of_nat (length ds) + value radix ds.
Proof.
  unfold value. revert acc. induction ds as [|d ds IH]; intros acc; cbn [foldl length].
  - rewrite N.pow_0_r. lia.
  - rewrite IH, (IH (0 * radix + d)). rewrite Nat2N.inj_succ, N.pow_succ_r'. lia.
Qed.

Lemma value_bound radix ds :
  Forall (λ d, d < radix) ds → value radix ds < radix ^ N.of_nat (length ds).
Proof.
  induction 1 as [|d ds Hd _ IH]; [by vm_compute|]. unfold value. cbn [foldl length].
  rewrite value_app, Nat2N.inj_succ, N.pow_succ_r'. nia.
Qed.

Lemma checked_value_Some largest radix acc ds v :
  0 < radix → acc ≤ largest →
  checked_value largest radix acc ds = Some v ↔
  v = foldl (λ acc d, acc * radix + d) acc ds ∧ v ≤ largest.
Proof.
  intros Hr. revert acc. induction ds as [|d ds IH]; intros acc Hacc; cbn [checked_value foldl].
  - naive_solver.
  - assert (acc * radix + d ≤ foldl (λ acc d, acc * radix + d) (acc * radix + d) ds) as Hgrow.
    { rewrite value_app. pose proof (N.pow_nonzero radix (N.of_nat (length ds))). nia. }
    destruct (N.ltb_spec largest (acc * radix)).
    { split; [done|]. intros [-> ?]. lia. }
    destruct (N.ltb_spec largest (acc * radix + d)).
    { split; [done|]. intros [-> ?]. lia. }
    by apply IH.
Qed.

(** ** Numbers *)

(** The value of a run of digits. *)
Definition number (radix : N) (w : Bytes) : N := value radix (take_digits radix w).1.

Lemma read_number_Some radix m allow largest s v rest :
  read_number radix (Some m) allow largest s = Some (v, rest) ↔
  ∃ w, s = w ++ rest ∧ run radix w ∧ ends radix rest ∧ w ≠ [] ∧ (length w ≤ m)%nat ∧
    (allow = true ∨ length w = 1%nat ∨ head w ≠ Some zero) ∧ v = number radix w ∧ v ≤ largest.
Proof.
  unfold read_number, number. split.
  - destruct (take_digits radix s) as [ds rest'] eqn:Htake.
    destruct (take_digits_split _ _ _ _ Htake) as (w & -> & Hw & Hend).
    destruct (take_digits_run _ _ _ Hw Hend) as (ds' & Htake' & Hdw & Hlen & _).
    rewrite Htake' in Htake. injection Htake as ->. intros Hread.
    destruct (Nat.eqb_spec (length ds) 0); [done|].
    destruct (negb allow && _ && _) eqn:Hzero; [done|].
    destruct (Nat.ltb_spec m (length ds)); [done|].
    destruct (N.leb_spec (value radix ds) largest); [|done]. injection Hread as <- <-.
    exists w. rewrite Hdw. split_and!; try done; try lia; [by intros ->|].
    rewrite !andb_false_iff, negb_false_iff, bool_decide_eq_false, Nat.ltb_ge in Hzero.
    destruct w as [|c w]; cbn in *; [lia|]. naive_solver lia.
  - intros (w & -> & Hw & Hend & Hne & Hm & Hzero & -> & Hv).
    destruct (take_digits_run _ _ _ Hw Hend) as (ds & Htake & Hdw & Hlen & _).
    rewrite Htake. rewrite Hdw in Hv |- *. cbn [fst] in *.
    destruct w as [|c w]; [done|]. cbn [length] in *.
    destruct (Nat.eqb_spec (length ds) 0); [lia|].
    destruct (Nat.ltb_spec m (length ds)); [lia|].
    destruct (N.leb_spec (value radix ds) largest); [|lia].
    replace (negb allow && _ && _) with false; [done|]. symmetry.
    rewrite !andb_false_iff, negb_false_iff, bool_decide_eq_false, Nat.ltb_ge. cbn. naive_solver lia.
Qed.

Lemma read_octet_Some s v rest :
  read_number 10 (Some 3%nat) false 255 s = Some (v, rest) ↔
  ∃ w, s = w ++ rest ∧ valid_octet w = true ∧ ends 10 rest ∧ v = int_of_string w.
Proof.
  rewrite read_number_Some. unfold valid_octet, canonical_decimal, int_of_string, number.
  split; intros (w & Hs & Hw); exists w; split; try done; revert Hw;
    rewrite !andb_true_iff, orb_true_iff, !negb_true_iff, !bool_decide_eq_true,
      !bool_decide_eq_false, Nat.leb_le, N.leb_le, (run_forallb 10 is_digit)
      by apply to_digit_is_digit.
  - intros (? & ? & ? & ? & Hz & -> & ?). split_and!; try done.
    destruct Hz as [|[Hone|?]]; [done| |by right].
    destruct w as [|c [|? ?]]; try done. destruct (decide (c = zero)); [left|right]; naive_solver.
  - intros ([(((? & ?) & ?) & Hz) ?] & ? & ->). split_and!; try done.
    destruct Hz as [->|?]; auto.
Qed.

Lemma hex_value w : run 16 w → (length w ≤ 4)%nat → number 16 w ≤ 65535.
Proof.
  intros Hw Hlen. destruct (take_digits_run 16 w [] Hw ltac:(done)) as (ds & _ & Htake & Hds & Hlt).
  unfold number. rewrite Htake. cbn [fst]. apply value_bound in Hlt.
  assert (16 ^ N.of_nat (length ds) ≤ 16 ^ 4) by (apply N.pow_le_mono_r; lia).
  change (16 ^ 4) with 65536 in *. lia.
Qed.

Lemma read_group_Some s v rest :
  read_number 16 (Some 4%nat) true 65535 s = Some (v, rest) ↔
  ∃ w, s = w ++ rest ∧ valid_hex_group w = true ∧ ends 16 rest ∧ v = number 16 w.
Proof.
  rewrite read_number_Some. unfold valid_hex_group.
  split; intros (w & Hs & Hw); exists w; split; try done; revert Hw;
    rewrite !andb_true_iff, !Nat.leb_le, <-(run_forallb 16 is_hex) by apply to_digit_is_hex.
  - intros (? & ? & Hne & ? & _ & -> & _). split_and!; try done. destruct w; [done|cbn; lia].
  - intros ([[? ?] ?] & ? & ->). split_and!; try done; [intros ->; cbn in *; lia|by left|by apply hex_value].
Qed.

(** ** Tokens *)

Definition tail_join (separator : ascii) (tokens : list Bytes) : Bytes :=
  concat (cons separator <$> tokens).

Definition join (separator : ascii) (tokens : list Bytes) : Bytes :=
  match tokens with [] => [] | w :: tokens => w ++ tail_join separator tokens end.

(** The tokens from the given index on. *)
Definition render (separator : ascii) (index : nat) (tokens : list Bytes) : Bytes :=
  match index with O => join separator tokens | S _ => tail_join separator tokens end.

Lemma split_on_char_ne c s : split_on_char c s ≠ [].
Proof. destruct s as [|x s]; cbn; [done|]. case_bool_decide; [done|]. by case_match. Qed.

Lemma join_split c s : join c (split_on_char c s) = s.
Proof.
  induction s as [|x s IH]; [done|]. cbn. pose proof (split_on_char_ne c s).
  destruct (split_on_char c s) as [|part parts]; [done|]. cbn in IH.
  case_bool_decide as Hx; [subst x|]; cbn; unfold tail_join in *; by rewrite <-IH.
Qed.

Lemma split_clean c s : Forall (λ w, c ∉ w) (split_on_char c s).
Proof.
  induction s as [|x s IH]; cbn; [constructor; [set_solver|done]|].
  case_bool_decide; [constructor; [set_solver|done]|].
  destruct IH as [|part parts Hp Hps]; [repeat constructor; set_solver|].
  constructor; [set_solver|done].
Qed.

Lemma split_app c w rest :
  c ∉ w →
  split_on_char c (w ++ c :: rest) = w :: split_on_char c rest ∧ split_on_char c w = [w].
Proof.
  induction w as [|x w IH]; intros Hw; cbn.
  - by rewrite bool_decide_true.
  - rewrite bool_decide_false by set_solver. destruct IH as [-> ->]; [set_solver|done].
Qed.

Lemma split_join c tokens :
  tokens ≠ [] → Forall (λ w, c ∉ w) tokens → split_on_char c (join c tokens) = tokens.
Proof.
  intros Hne Hclean. destruct Hclean as [|w tokens Hw Hclean]; [done|]. clear Hne. unfold join.
  revert w Hw. induction Hclean as [|w' tokens Hw' _ IH]; intros w Hw; cbn.
  - rewrite app_nil_r. by apply split_app.
  - change (tail_join c (w' :: tokens)) with (c :: w' ++ tail_join c tokens).
    rewrite (proj1 (split_app c w _ Hw)), IH; done.
Qed.

Lemma join_clean x c ts : x ≠ c → Forall (λ w, x ∉ w) ts → x ∉ join c ts.
Proof.
  intros Hx Hts. destruct Hts as [|w ts Hw Hts]; cbn; [set_solver|]. rewrite not_elem_of_app.
  split; [done|]. unfold tail_join. clear Hw. induction Hts; set_solver.
Qed.

Lemma render_cons c index w tokens :
  render c index (w :: tokens) = (match index with O => [] | S _ => [c] end) ++ w ++ tail_join c tokens.
Proof. by destruct index. Qed.

Lemma read_separator_render {A} c index (inner : Bytes → option (A * Bytes)) s :
  read_separator c index inner ((match index with O => [] | S _ => [c] end) ++ s) = inner s.
Proof. destruct index; cbn; [done|]. by rewrite bool_decide_true. Qed.

Lemma read_separator_Some {A} c index (inner : Bytes → option (A * Bytes)) s r :
  read_separator c index inner s = Some r →
  ∃ s', s = (match index with O => [] | S _ => [c] end) ++ s' ∧ inner s' = Some r.
Proof.
  destruct index; cbn; [by exists s|]. destruct s as [|x s]; [done|]. cbn.
  case_bool_decide; [|done]. subst. by exists s.
Qed.

Lemma tail_ends c radix tokens rest :
  to_digit radix c = None → ends radix rest → ends radix (tail_join c tokens ++ rest).
Proof. intros Hc Hrest. destruct tokens as [|w tokens]; [done|]. by intros ? [= <-]. Qed.

(** ** IPv4 *)

Lemma forallb_not_in (p : ascii → bool) w x : forallb p w = true → p x = false → x ∉ w.
Proof.
  intros Hw Hx Hin%list_elem_of_In. apply (proj1 (forallb_forall _ _) Hw) in Hin. congruence.
Qed.

Lemma octet_clean w :
  valid_octet w = true → (∀ x, is_digit x = false → x ∉ w) ∧ w ≠ [] ∧ forallb is_digit w = true.
Proof.
  unfold valid_octet, canonical_decimal. rewrite !andb_true_iff, negb_true_iff, bool_decide_eq_false.
  intros [[[[? Hd] _] _] _]. split_and!; try done. intros x. by apply forallb_not_in.
Qed.

Lemma valid_ipv4_octets w :
  valid_ipv4 w = true ↔
  ∃ ws, length ws = 4%nat ∧ Forall (λ o, valid_octet o = true) ws ∧ w = join dot ws.
Proof.
  unfold valid_ipv4. split.
  - destruct (split_on_char dot w) as [|a [|b [|c [|d [|? ?]]]]] eqn:Hsplit; try done. intros Hall.
    exists [a; b; c; d]. split_and!; [done| |by rewrite <-Hsplit, join_split].
    cbn in Hall. rewrite !andb_true_iff in Hall. naive_solver.
  - intros (ws & Hlen & Hws & ->). rewrite split_join.
    + destruct ws as [|a [|b [|c [|d [|? ?]]]]]; try done. cbn.
      repeat match goal with H : Forall _ (_ :: _) |- _ => inversion_clear H end.
      by rewrite !andb_true_iff.
    + by destruct ws.
    + eapply Forall_impl; [exact Hws|]. intros o [Ho _]%octet_clean. by apply Ho.
Qed.

Lemma read_octets_sound n index s os rest :
  read_octets n index s = Some (os, rest) →
  length os = n ∧ ∃ ws, length ws = n ∧ Forall (λ o, valid_octet o = true) ws ∧
    s = render dot index ws ++ rest ∧ (n ≠ 0%nat → ends 10 rest).
Proof.
  revert index s os. induction n as [|n IH]; intros index s os; cbn [read_octets].
  - intros [= <- <-]. split; [done|]. exists []. by destruct index.
  - intros ([v s1] & (s' & -> & (w & -> & Hw & Hend & _)%read_octet_Some)%read_separator_Some & Hrec)%bind_Some.
    apply bind_Some in Hrec as ([os' rest'] & Hrec & [= <- <-]).
    destruct (IH _ _ _ Hrec) as [Hlen (ws & Hws & Hall & -> & Hends)].
    split; [cbn; lia|]. exists (w :: ws). split_and!; [cbn; lia|by constructor| |].
    + by rewrite render_cons, <-!app_assoc.
    + intros _. destruct n; [|by apply Hends]. destruct ws; [|done]. done.
Qed.

Lemma read_octets_complete ws index rest :
  Forall (λ o, valid_octet o = true) ws → ends 10 rest →
  ∃ os, read_octets (length ws) index (render dot index ws ++ rest) = Some (os, rest).
Proof.
  intros Hws Hend. revert index. induction Hws as [|w ws Hw _ IH]; intros index.
  - exists []. by destruct index.
  - destruct (IH (S index)) as [os Hos]. exists (int_of_string w :: os). cbn [length read_octets].
    rewrite render_cons, <-!app_assoc, read_separator_render.
    assert (read_number 10 (Some 3%nat) false 255 (w ++ tail_join dot ws ++ rest) =
      Some (int_of_string w, tail_join dot ws ++ rest)) as ->.
    { apply read_octet_Some. exists w. split_and!; try done. by apply tail_ends. }
    cbn [mbind option_bind]. cbn [render] in Hos. by rewrite Hos.
Qed.

Lemma read_ipv4_sound s os rest :
  read_ipv4_addr s = Some (os, rest) →
  length os = 4%nat ∧ ∃ w, s = w ++ rest ∧ valid_ipv4 w = true ∧ ends 10 rest.
Proof.
  intros [Hlen (ws & Hws & Hall & -> & Hend)]%read_octets_sound. split; [done|].
  exists (join dot ws). split_and!; [done| |by apply Hend]. apply valid_ipv4_octets. eauto.
Qed.

Lemma read_ipv4_complete w rest :
  valid_ipv4 w = true → ends 10 rest → ∃ os, read_ipv4_addr (w ++ rest) = Some (os, rest).
Proof.
  intros (ws & Hlen & Hall & ->)%valid_ipv4_octets Hend. unfold read_ipv4_addr. rewrite <-Hlen.
  exact (read_octets_complete ws 0 rest Hall Hend).
Qed.

(** ** IPv6 *)

(** Hexadecimal groups, and an address of four octets after them. *)
Record fragment (hexes : list Bytes) (quad : option Bytes) : Prop := {
  fr_hexes : Forall (λ w, valid_hex_group w = true) hexes;
  fr_quad w : quad = Some w → valid_ipv4 w = true
}.

Definition tokens (hexes : list Bytes) (quad : option Bytes) : list Bytes := hexes ++ option_list quad.

Definition groups (hexes : list Bytes) (quad : option Bytes) : nat :=
  length hexes + match quad with Some _ => 2 | None => 0 end.

Lemma hex_clean w :
  valid_hex_group w = true → (∀ x, is_hex x = false → x ∉ w) ∧ w ≠ [] ∧ run 16 w.
Proof.
  unfold valid_hex_group. rewrite !andb_true_iff, Nat.leb_le. intros [[Hlen _] Hhex].
  split_and!; [intros x; by apply forallb_not_in| |].
  - intros ->. cbn in Hlen. lia.
  - by apply (run_forallb 16 is_hex), Hhex; apply to_digit_is_hex.
Qed.

Lemma ipv4_clean w :
  valid_ipv4 w = true → (∀ x, is_digit x = false → x ≠ dot → x ∉ w) ∧ w ≠ [].
Proof.
  intros (ws & Hlen & Hall & ->)%valid_ipv4_octets. split.
  - intros x Hx Hdot. apply join_clean; [done|]. eapply Forall_impl; [exact Hall|].
    intros o [Ho _]%octet_clean. by apply Ho.
  - destruct Hall as [|o ws (_ & Ho & _)%octet_clean _]; [done|]. cbn. by destruct o.
Qed.

Lemma fragment_clean hexes quad x :
  is_hex x = false → x ≠ dot → fragment hexes quad →
  Forall (λ w, x ∉ w ∧ w ≠ []) (tokens hexes quad).
Proof.
  intros Hx Hdot [Hhex Hquad]. apply Forall_app. split.
  - eapply Forall_impl; [exact Hhex|]. intros w (Hw & ? & ?)%hex_clean. auto.
  - destruct quad as [w|]; [|done]. destruct (ipv4_clean w (Hquad w eq_refl)) as [Hw Hne].
    repeat constructor; [|done]. apply Hw; [|done]. unfold is_hex in Hx. by apply orb_false_iff in Hx as [[? _]%orb_false_iff _].
Qed.

Lemma ipv4_not_number s : ends 10 s → read_ipv4_addr s = None.
Proof.
  intros Hs. destruct (read_ipv4_addr s) as [[os rest]|] eqn:Hread; [|done]. exfalso.
  apply read_ipv4_sound in Hread as (_ & w & -> & (ws & Hlen & Hall & ->)%valid_ipv4_octets & _).
  destruct Hall as [|o ws (_ & Hne & Ho)%octet_clean _]; [done|]. destruct o as [|c o]; [done|].
  cbn in Ho. apply andb_true_iff in Ho as [Ho _]. apply to_digit_is_digit in Ho as [d Hd].
  specialize (Hs c eq_refl). congruence.
Qed.

Lemma group_not_number s : ends 16 s → read_number 16 (Some 4%nat) true 65535 s = None.
Proof.
  intros Hs. destruct (read_number _ _ _ _ s) as [[v rest]|] eqn:Hread; [|done]. exfalso.
  apply read_group_Some in Hread as (w & -> & (_ & Hne & Hw)%hex_clean & _ & _).
  destruct Hw as [|c w [d Hd] _]; [done|]. specialize (Hs c eq_refl). congruence.
Qed.

Lemma digit_hex c : to_digit 16 c = None → to_digit 10 c = None.
Proof. destruct c as [[] [] [] [] [] [] [] []]; vm_compute; done. Qed.

(** A hexadecimal group is not the start of an IPv4 address. *)
Lemma ipv4_not_group w rest :
  valid_hex_group w = true → ends 16 rest → head rest ≠ Some dot → read_ipv4_addr (w ++ rest) = None.
Proof.
  intros (_ & _ & Hw)%hex_clean Hend Hdot.
  destruct (read_ipv4_addr (w ++ rest)) as [[os r]|] eqn:Hread; [|done]. exfalso.
  apply read_ipv4_sound in Hread as (_ & v & Heq & (ws & Hlen & Hall & ->)%valid_ipv4_octets & _).
  destruct ws as [|o [|o' ws]]; [done..|].
  apply Forall_cons in Hall as [(_ & _ & Ho)%octet_clean _].
  assert (run 16 o) as Hrun.
  { apply (run_forallb 10 is_digit) in Ho; [|apply to_digit_is_digit].
    eapply Forall_impl; [exact Ho|]. intros c [d Hd]. destruct (to_digit 16 c) eqn:Hc; [by eexists|].
    apply digit_hex in Hc. congruence. }
  destruct (take_digits_run 16 w rest Hw Hend) as (ds & Htake & _).
  destruct (take_digits_run 16 o (dot :: o' ++ tail_join dot ws ++ r) Hrun) as (ds' & Htake' & _).
  { by intros ? [= <-]. }
  assert (w ++ rest = o ++ dot :: o' ++ tail_join dot ws ++ r) as Heq'.
  { rewrite Heq. cbn. rewrite <-app_assoc. cbn. by rewrite <-app_assoc. }
  rewrite Heq', Htake' in Htake. injection Htake as _ <-. by apply Hdot.
Qed.

Lemma read_groups_sound n index s gs ipv4 rest :
  read_groups n index s = (gs, ipv4, rest) →
  (length gs ≤ n)%nat ∧ ∃ hexes quad, fragment hexes quad ∧
    s = render colon index (tokens hexes quad) ++ rest ∧
    ipv4 = bool_decide (is_Some quad) ∧ length gs = groups hexes quad.
Proof.
  revert index s gs. induction n as [|n IH]; intros index s gs; cbn [read_groups].
  - intros [= <- <- <-]. split; [done|]. exists [], None. split_and!; [by split|by destruct index|done..].
  - destruct (if (0 <? n)%nat then _ else _) as [[os r]|] eqn:Hquad.
    + destruct (Nat.ltb_spec 0 n); [|done].
      apply read_separator_Some in Hquad as (s' & -> & [Hlen (w & -> & Hw & _)]%read_ipv4_sound).
      intros [= <- <- <-]. destruct os as [|a [|b [|c [|d [|? ?]]]]]; try done.
      split; [cbn; lia|]. exists [], (Some w). split_and!; [split; naive_solver| |done..].
      cbn. rewrite render_cons, <-app_assoc. cbn. by rewrite app_nil_r.
    + clear Hquad. destruct (read_separator _ _ _ _) as [[v r]|] eqn:Hgroup.
      * apply read_separator_Some in Hgroup as (s' & -> & (w & -> & Hw & _)%read_group_Some).
        destruct (read_groups n (S index) r) as [[gs' ipv4'] rest'] eqn:Hrec. intros [= <- <- <-].
        destruct (IH _ _ _ Hrec) as [Hle (hexes & quad & [Hhex Hq] & -> & -> & Hlen)].
        split; [cbn; lia|]. exists (w :: hexes), quad. split_and!; [by split; [constructor|]| |done|cbn; by rewrite Hlen].
        cbn. by rewrite render_cons, <-!app_assoc.
      * intros [= <- <- <-]. split; [cbn; lia|]. exists [], None.
        split_and!; [by split|by destruct index|done..].
Qed.

(** What may follow the groups of a fragment. *)
Definition stops (rest : Bytes) : Prop :=
  head rest = Some unbracket ∨ ∃ s, rest = colon :: colon :: s.

Lemma read_groups_complete n index hexes quad rest :
  fragment hexes quad → (groups hexes quad ≤ n)%nat → stops rest →
  ∃ gs, read_groups n index (render colon index (tokens hexes quad) ++ rest) =
    (gs, bool_decide (is_Some quad), rest) ∧ length gs = groups hexes quad.
Proof.
  intros Hfrag Hn Hstop. revert index n Hn. destruct Hfrag as [Hhex Hquad].
  assert (∀ radix, (radix = 10 ∨ radix = 16) → ends radix rest) as Hends.
  { intros radix Hr c Hc. destruct Hstop as [Hb|[s ->]]; [rewrite Hc in Hb|]; cbn in *;
      simplify_eq; by destruct Hr as [->| ->]. }
  induction Hhex as [|w hexes Hw Hhex IH]; intros index n Hn.
  - destruct quad as [w|].
    + destruct n as [|[|n]]; [cbn in Hn; lia..|]. change (tokens [] (Some w)) with [w]. cbn [read_groups].
      destruct (read_ipv4_complete w rest) as [os Hos]; [by apply Hquad|by apply Hends; left|].
      rewrite render_cons, <-!app_assoc, read_separator_render. cbn [tail_join concat fmap list_fmap app Nat.ltb Nat.leb].
      rewrite Hos. destruct (read_ipv4_sound _ _ _ Hos) as [Hlen _].
      exists (ipv4_groups os). split; [done|]. by destruct os as [|a [|b [|c [|d [|? ?]]]]].
    + exists []. split; [|done]. change (tokens [] None) with (@nil Bytes).
      assert (render colon index [] ++ rest = rest) as -> by by destruct index.
      destruct n as [|n]; [done|]. cbn [read_groups].
      assert (∀ A (inner : Bytes → option (A * Bytes)), inner rest = None → (∀ s, inner (colon :: s) = None) →
        read_separator colon index inner rest = None) as Hsep.
      { intros A inner Hrest Hcolon. destruct index; [done|]. cbn.
        destruct Hstop as [Hb|[s ->]]; [|cbn; rewrite bool_decide_true by done; apply Hcolon].
        destruct rest as [|c rest]; [done|]. by injection Hb as ->. }
      rewrite !Hsep; [by destruct (0 <? n)%nat|..].
      * apply group_not_number, Hends. by right.
      * intros s. apply group_not_number. by intros ? [= <-].
      * apply ipv4_not_number, Hends. by left.
      * intros s. apply ipv4_not_number. by intros ? [= <-].
  - destruct n as [|n]; [cbn in Hn; lia|]. destruct (IH (S index) n) as (gs & Hgs & Hlen); [unfold groups in *; cbn [length] in Hn; lia|].
    exists (number 16 w :: gs). change (tokens (w :: hexes) quad) with (w :: tokens hexes quad).
    cbn [read_groups]. rewrite render_cons, <-!app_assoc, !read_separator_render. cbn [render] in Hgs.
    set (X := tail_join colon (tokens hexes quad) ++ rest) in *.
    assert (ends 16 X) as HX by (apply tail_ends; [done|apply Hends; by right]).
    rewrite (ipv4_not_group w X Hw HX).
    2:{ subst X. destruct (tokens hexes quad); cbn; [|done].
        destruct Hstop as [->|[s ->]]; done. }
    assert (read_number 16 (Some 4%nat) true 65535 (w ++ X) = Some (number 16 w, X)) as ->.
    { apply read_group_Some. eauto. }
    rewrite Hgs. split; [by destruct (0 <? n)%nat|]. cbn. by rewrite Hlen.
Qed.

Lemma hex_not_ipv4 w : valid_hex_group w = true → valid_ipv4 w = false.
Proof.
  intros (Hdot & _)%hex_clean. unfold valid_ipv4.
  by destruct (split_app dot w [] (Hdot dot eq_refl)) as [_ ->].
Qed.

Lemma check_parts_Some allow count index parts n :
  count = (index + length parts)%nat →
  check_parts allow count index parts = Some n ↔
  ∃ hexes quad, parts = tokens hexes quad ∧ fragment hexes quad ∧ n = groups hexes quad ∧
    (allow = false → quad = None).
Proof.
  revert index n. induction parts as [|part rest IH]; intros index n ->; cbn [check_parts].
  - split.
    + intros [= <-]. exists [], None. split_and!; [done|by split|done..].
    + intros ([|] & [|] & ? & _ & -> & _); done.
  - specialize (IH (S index)). cbn [length] in *. destruct (_ && valid_ipv4 part) eqn:Hquad.
    + rewrite !andb_true_iff, bool_decide_eq_true in Hquad. destruct Hquad as [[[-> _] ->] Hv]. split.
      * intros [= <-]. exists [], (Some part). split_and!; [done|split; naive_solver|done..].
      * intros (hexes & quad & Heq & [Hhex _] & -> & _). destruct Hhex as [|w hexes Hw _].
        { by destruct quad. }
        injection Heq as -> Heq. apply hex_not_ipv4 in Hw. congruence.
    + split.
      * destruct (valid_hex_group part) eqn:Hw; [|done]. intros (m & Hm & ->)%fmap_Some.
        apply IH in Hm as (hexes & quad & -> & [Hhex Hq] & -> & Hallow); [|lia].
        exists (part :: hexes), quad. split_and!; [done|split; [by constructor|done]|done..].
      * intros (hexes & quad & Heq & [Hhex Hq] & -> & Hallow). destruct Hhex as [|w hexes Hw Hhex].
        { destruct quad as [w|]; [|done]. injection Heq as -> ->. exfalso.
          rewrite !andb_false_iff, bool_decide_eq_false, Nat.eqb_neq, Hq in Hquad by done.
          destruct allow; [|by specialize (Hallow eq_refl)]. cbn in Hquad. naive_solver lia. }
        change (tokens (w :: hexes) quad) with (w :: tokens hexes quad) in Heq.
        injection Heq as -> ->. rewrite Hw.
        assert (check_parts allow (index + S (length (tokens hexes quad))) (S index) (tokens hexes quad) =
          Some (groups hexes quad)) as ->; [|done].
        apply IH; [lia|]. exists hexes, quad. split_and!; [done|by split|done..].
Qed.

Lemma join_nil c ts : Forall (λ w, c ∉ w ∧ w ≠ []) ts → join c ts = [] → ts = [].
Proof. intros Hts. destruct Hts as [|w ts [_ Hw] _]; [done|]. by destruct w. Qed.

Lemma ipv6_groups_Some allow s n :
  ipv6_groups allow s = Some n ↔
  ∃ hexes quad, s = join colon (tokens hexes quad) ∧ fragment hexes quad ∧ n = groups hexes quad ∧
    (allow = false → quad = None).
Proof.
  unfold ipv6_groups. case_bool_decide as Hs.
  - subst. split.
    + intros [= <-]. exists [], None. split_and!; [done|by split|done..].
    + intros (hexes & quad & Heq & Hfrag & -> & _).
      symmetry in Heq. apply join_nil in Heq; [|by apply fragment_clean]. by destruct hexes, quad.
  - rewrite check_parts_Some by done. split.
    + intros (hexes & quad & Heq & ?). exists hexes, quad. by rewrite <-Heq, join_split.
    + intros (hexes & quad & -> & Hfrag & ?). exists hexes, quad. split; [|done]. apply split_join.
      * by intros Hnil; rewrite Hnil in Hs.
      * eapply Forall_impl; [by apply (fragment_clean hexes quad colon)|]. naive_solver.
Qed.

(** ** The gap *)

Lemma find_double_colon_unfold c d s :
  find_double_colon (c :: d :: s) =
  if bool_decide (c = colon) && bool_decide (d = colon) then Some 0%nat
  else S <$> find_double_colon (d :: s).
Proof. done. Qed.

Lemma find_double_colon_app s x :
  find_double_colon s = None → last s ≠ Some colon →
  find_double_colon (s ++ colon :: colon :: x) = Some (length s).
Proof.
  induction s as [|c s IH]; intros Hnone Hlast; [cbn; by rewrite bool_decide_true|].
  destruct s as [|d s].
  - cbn in *. rewrite bool_decide_false by congruence. cbn. by rewrite bool_decide_true.
  - rewrite find_double_colon_unfold in Hnone. cbn [app]. rewrite find_double_colon_unfold.
    destruct (bool_decide _ && _); [done|]. apply fmap_None in Hnone. specialize (IH Hnone Hlast). cbn [app] in IH. by rewrite IH.
Qed.

Lemma find_double_colon_Some s i :
  find_double_colon s = Some i → s = take i s ++ colon :: colon :: drop (i + 2) s.
Proof.
  revert i. induction s as [|c s IH]; intros i; [done|]. destruct s as [|d s]; [done|].
  rewrite find_double_colon_unfold. destruct (bool_decide _ && _) eqn:Hc.
  - rewrite andb_true_iff, !bool_decide_eq_true in Hc. destruct Hc as [-> ->]. by intros [= <-].
  - intros (j & Hj & ->)%fmap_Some. cbn [take drop Nat.add app]. f_equal. by apply IH.
Qed.

Lemma find_double_colon_cons c s :
  find_double_colon s = None → (c ≠ colon ∨ head s ≠ Some colon) → find_double_colon (c :: s) = None.
Proof.
  intros Hs Hc. destruct s as [|d s]; [done|]. rewrite find_double_colon_unfold.
  replace (bool_decide _ && _) with false; [by rewrite Hs|].
  symmetry. rewrite andb_false_iff, !bool_decide_eq_false. cbn in Hc. naive_solver.
Qed.

Lemma find_double_colon_word w s :
  colon ∉ w → find_double_colon s = None → find_double_colon (w ++ s) = None.
Proof.
  intros Hw Hs. induction w as [|c w IH]; [done|]. cbn [app]. apply find_double_colon_cons.
  - apply IH. set_solver.
  - left. set_solver.
Qed.

Lemma join_no_gap ts :
  Forall (λ w, colon ∉ w ∧ w ≠ []) ts →
  find_double_colon (join colon ts) = None ∧ last (join colon ts) ≠ Some colon.
Proof.
  intros Hts. destruct Hts as [|w ts [Hw Hne] Hts]; [done|]. cbn [join]. revert w Hw Hne.
  induction Hts as [|w' ts [Hw' Hne'] _ IH]; intros w Hw Hne.
  - unfold tail_join. cbn. split; [by apply find_double_colon_word|]. rewrite app_nil_r.
    by intros ?%last_Some_elem_of.
  - change (tail_join colon (w' :: ts)) with (colon :: w' ++ tail_join colon ts).
    destruct (IH w' Hw' Hne') as [Hfind Hlast]. split.
    + apply find_double_colon_word; [done|]. apply find_double_colon_cons; [done|right].
      destruct w' as [|c w']; [done|]. cbn. set_solver.
    + rewrite last_app_cons, last_cons. destruct (last (w' ++ _)) eqn:Hl; [done|].
      apply last_None, app_nil in Hl as [? _]. done.
Qed.

(** ** Addresses *)

(** Eight groups, or fewer around one gap. *)
Inductive ipv6_text : Bytes → Prop :=
| Ipv6_full hexes quad :
    fragment hexes quad → groups hexes quad = 8%nat →
    ipv6_text (join colon (tokens hexes quad))
| Ipv6_gap front hexes quad :
    fragment front None → fragment hexes quad → (length front + groups hexes quad ≤ 7)%nat →
    ipv6_text (join colon front ++ colon :: colon :: join colon (tokens hexes quad)).

Lemma tokens_None hexes : tokens hexes None = hexes.
Proof. apply app_nil_r. Qed.

Lemma valid_ipv6_text host : valid_ipv6 host = true ↔ ipv6_text host.
Proof.
  unfold valid_ipv6. split.
  - destruct (find_double_colon host) as [i|] eqn:Hfind.
    + destruct (ipv6_groups false _) as [nf|] eqn:Hfront; [|done].
      destruct (ipv6_groups true _) as [nb|] eqn:Hback; [|done]. intros Hle%Nat.leb_le.
      apply ipv6_groups_Some in Hfront as (front & quad & Hf & Hfrag & -> & Hnone).
      specialize (Hnone eq_refl) as ->.
      apply ipv6_groups_Some in Hback as (hexes & quad & Hb & Hfrag' & -> & _).
      apply find_double_colon_Some in Hfind. rewrite Hf, Hb, tokens_None in Hfind. rewrite Hfind.
      apply Ipv6_gap; [done..|]. unfold groups in *. lia.
    + intros Hg%bool_decide_eq_true.
      apply ipv6_groups_Some in Hg as (hexes & quad & -> & Hfrag & Hn & _). by constructor.
  - intros Htext. destruct Htext as [hexes quad Hfrag Hn|front hexes quad Hfront Hfrag Hn].
    + rewrite (proj1 (join_no_gap _ (fragment_clean _ _ colon eq_refl ltac:(done) Hfrag))). apply bool_decide_eq_true, ipv6_groups_Some.
      by exists hexes, quad.
    + pose proof (fragment_clean _ _ colon eq_refl ltac:(done) Hfront) as Hclean. rewrite tokens_None in Hclean.
      destruct (join_no_gap _ Hclean) as [Hnone Hlast]. rewrite find_double_colon_app by done.
      rewrite take_app_length, drop_app_add. cbn [drop]. rewrite drop_0.
      assert (ipv6_groups false (join colon front) = Some (groups front None)) as ->.
      { apply ipv6_groups_Some. exists front, None. by rewrite tokens_None. }
      assert (ipv6_groups true (join colon (tokens hexes quad)) = Some (groups hexes quad)) as ->.
      { apply ipv6_groups_Some. by exists hexes, quad. }
      apply Nat.leb_le. unfold groups in *. lia.
Qed.

Lemma read_ipv6_sound s ip rest :
  read_ipv6_addr s = Some (ip, rest) → ∃ w, s = w ++ rest ∧ ipv6_text w.
Proof.
  unfold read_ipv6_addr. destruct (read_groups 8 0 s) as [[front ipv4] s1] eqn:Hfront.
  apply read_groups_sound in Hfront as [Hle (hexes & quad & Hfrag & -> & -> & Hlen)].
  destruct (Nat.eqb_spec (length front) 8) as [H8|H8].
  - intros [= <- <-]. eexists. split; [done|]. constructor; [done|]. congruence.
  - case_bool_decide as Hquad; [done|]. intros (s2 & H1 & Hs2)%bind_Some.
    apply bind_Some in Hs2 as (s3 & H2 & Hback).
    apply read_given_char_Some in H1 as ->. apply read_given_char_Some in H2 as ->.
    destruct (read_groups _ 0 s3) as [[back ipv4] s4] eqn:Hb. injection Hback as <- <-.
    apply read_groups_sound in Hb as [Hle' (hexes' & quad' & Hfrag' & -> & _ & Hlen')].
    destruct quad as [w|]; [by destruct Hquad|]. cbn [render].
    exists (join colon hexes ++ colon :: colon :: join colon (tokens hexes' quad')).
    split; [by rewrite tokens_None, <-app_assoc|]. apply Ipv6_gap; [done..|]. unfold groups in *. lia.
Qed.

Lemma read_ipv6_complete w s :
  ipv6_text w → ∃ ip, read_ipv6_addr (w ++ unbracket :: s) = Some (ip, unbracket :: s).
Proof.
  assert (stops (unbracket :: s)) as Hstop by by left.
  intros Htext. unfold read_ipv6_addr.
  destruct Htext as [hexes quad Hfrag Hn|front hexes quad Hfront Hfrag Hn].
  - destruct (read_groups_complete 8 0 _ _ _ Hfrag ltac:(lia) Hstop) as (gs & Hgs & Hlen).
    cbn [render] in Hgs. rewrite Hgs. exists gs. by rewrite (proj2 (Nat.eqb_eq _ _)) by congruence.
  - destruct (read_groups_complete 8 0 front None
      (colon :: colon :: join colon (tokens hexes quad) ++ unbracket :: s)) as (gs & Hgs & Hlen);
      [done|unfold groups in *; lia|right; by eexists|].
    cbn [render] in Hgs. rewrite tokens_None in Hgs. rewrite <-app_assoc. cbn [app]. rewrite Hgs.
    unfold groups in Hlen, Hn. rewrite Nat.add_0_r in Hlen.
    rewrite (proj2 (Nat.eqb_neq _ _)) by lia. rewrite bool_decide_false by (by intros []).
    rewrite read_given_char_eq. cbn [mbind option_bind]. rewrite read_given_char_eq. cbn [mbind option_bind].
    destruct (read_groups_complete (8 - (length gs + 1)) 0 _ _ _ Hfrag ltac:(unfold groups; lia) Hstop)
      as (gs' & Hgs' & _).
    cbn [render] in Hgs'. rewrite Hgs'. by eexists.
Qed.

Lemma rsplit_once_Some c s a b : rsplit_once c s = Some (a, b) ↔ s = a ++ c :: b ∧ c ∉ b.
Proof.
  revert a b. induction s as [|x s IH]; intros a b; cbn.
  - split; [done|]. intros [Heq _]. by destruct a.
  - destruct (rsplit_once c s) as [[a' b']|].
    + destruct (proj1 (IH a' b') eq_refl) as [Hs Hb']. split.
      * intros [= <- <-]. by rewrite Hs.
      * intros [Heq Hb]. destruct a as [|y a]; injection Heq as -> Heq; [subst; set_solver|].
        by injection (proj2 (IH a b) (conj Heq Hb)) as -> ->.
    + assert (c ∉ s) as Hc.
      { intros (l & r & -> & Hr)%list_elem_of_split_r. by specialize (proj2 (IH l r) (conj eq_refl Hr)). }
      case_bool_decide as Hx; split; try done.
      * intros [= <- <-]. by rewrite Hx.
      * intros [Heq Hb]. destruct a as [|y a]; injection Heq as _ Heq; [by subst|]. subst. set_solver.
      * intros [Heq Hb]. destruct a as [|y a]; injection Heq as -> Heq; [done|]. subst. set_solver.
Qed.

Lemma canonical_run m w : canonical_decimal m w = true → run 10 w ∧ w ≠ [] ∧ colon ∉ w.
Proof.
  unfold canonical_decimal. rewrite !andb_true_iff, negb_true_iff, bool_decide_eq_false.
  intros [[[Hne Hd] _] _]. split_and!; [|done|].
  - by apply (run_forallb 10 is_digit), Hd; apply to_digit_is_digit.
  - intros Hin%list_elem_of_In. by apply (proj1 (forallb_forall _ _) Hd) in Hin.
Qed.

Lemma read_port_Some s port :
  read_port s = Some (port, []) ↔
  ∃ w, s = colon :: w ∧ run 10 w ∧ w ≠ [] ∧ port = int_of_string w ∧ port ≤ 65535.
Proof.
  unfold read_port. split.
  - intros (s' & ->%read_given_char_Some & Hread)%bind_Some. unfold read_number in Hread.
    destruct (take_digits 10 s') as [ds rest] eqn:Htake.
    destruct (Nat.eqb_spec (length ds) 0); [done|]. cbn in Hread.
    apply fmap_Some in Hread as (v & Hv & [= <- <-]).
    apply checked_value_Some in Hv as [-> Hle]; [|lia..].
    destruct (take_digits_split _ _ _ _ Htake) as (w & -> & Hw & _). rewrite app_nil_r in *.
    exists w. unfold int_of_string. rewrite Htake. split_and!; try done. intros ->. cbn in Htake. by injection Htake as <-.
  - intros (w & -> & Hw & Hne & -> & Hle). rewrite read_given_char_eq.
    cbn [mbind option_bind]. unfold read_number, int_of_string in *.
    destruct (take_digits_run 10 w [] Hw ltac:(done)) as (ds & _ & Htake & Hlen & _).
    rewrite Htake in Hle |- *. cbn [fst] in *.
    destruct (Nat.eqb_spec (length ds) 0); [by destruct w; cbn in *; [|lia]|]. cbn [negb andb].
    assert (checked_value 65535 10 0 ds = Some (value 10 ds)) as ->; [|done].
    by apply checked_value_Some; [lia..|].
Qed.

(** ** Agreement *)

Lemma run_colon p : run 10 p → colon ∉ p.
Proof. intros Hp Hin. by apply (proj1 (Forall_forall _ _) Hp) in Hin as [? ?]. Qed.

(** The last colon is before the port. *)
Lemma last_colon host port h p :
  colon ∉ port → run 10 p → host ++ colon :: port = h ++ colon :: p → h = host ∧ p = port.
Proof.
  intros Hport Hp%run_colon Heq.
  pose proof (proj2 (rsplit_once_Some colon _ h p) (conj Heq Hp)) as H1.
  pose proof (proj2 (rsplit_once_Some colon _ host port) (conj eq_refl Hport)) as H2. naive_solver.
Qed.

(** A port that the standard library reads. *)
Definition port_read (port : Bytes) : Prop :=
  run 10 port ∧ port ≠ [] ∧ int_of_string port ≤ 65535.

Lemma socket_addr_v4_sound host port address :
  colon ∉ port → read_socket_addr_v4 (host ++ colon :: port) = Some (address, []) →
  is_ipv6 address = false ∧ valid_ipv4 host = true ∧ port_read port.
Proof.
  intros Hcolon ([os s'] & (_ & h & Hs & Hh & _)%read_ipv4_sound & Hport)%bind_Some.
  apply bind_Some in Hport as ([p s''] & Hport & [= <- ->]).
  apply read_port_Some in Hport as (w & -> & Hw & Hne & -> & Hle).
  by destruct (last_colon host port h w Hcolon Hw Hs) as [-> ->].
Qed.

(** A scope is introduced by a percent sign. *)
Lemma read_scope_split s scope rest :
  default (0, s) (read_scope_id s) = (scope, unbracket :: rest) →
  s = unbracket :: rest ∨ ∃ d, s = percent :: d ++ unbracket :: rest.
Proof.
  unfold read_scope_id. destruct (read_given_char percent s) as [s1|] eqn:Hpct; cbn [mbind option_bind].
  - apply read_given_char_Some in Hpct as ->.
    destruct (read_number 10 None true 4294967295 s1) as [[v s2]|] eqn:Hnum; cbn; [|done].
    intros [= -> ->]. right. unfold read_number in Hnum.
    destruct (take_digits 10 s1) as [ds s3] eqn:Htake. apply take_digits_split in Htake as (d & -> & _ & _).
    destruct (length ds =? 0)%nat; [done|]. cbn in Hnum. apply fmap_Some in Hnum as (? & _ & [= _ ->]).
    by exists d.
  - cbn. intros [= _ ->]. by left.
Qed.

Lemma socket_addr_v6_sound host port address :
  colon ∉ port → percent ∉ host →
  read_socket_addr_v6 (host ++ colon :: port) = Some (address, []) →
  is_ipv6 address = true ∧ port_read port ∧
  ∃ w, host = bracket :: w ++ [unbracket] ∧ ipv6_text w.
Proof.
  intros Hcolon Hpercent (s1 & Hs1%read_given_char_Some & Hread)%bind_Some.
  apply bind_Some in Hread as ([ip s2] & (w & -> & Hw)%read_ipv6_sound & Hread).
  destruct (default (0, s2) (read_scope_id s2)) as [scope s3] eqn:Hscope.
  apply bind_Some in Hread as (s4 & ->%read_given_char_Some & Hport).
  apply bind_Some in Hport as ([p s5] & Hport & [= <- ->]).
  apply read_port_Some in Hport as (port' & -> & Hp & Hne & -> & Hle).
  apply read_scope_split in Hscope as [->|[d ->]].
  - destruct (last_colon host port (bracket :: w ++ [unbracket]) port' Hcolon Hp) as [<- <-].
    { rewrite Hs1. cbn. by rewrite <-app_assoc. }
    split_and!; try done. by exists w.
  - exfalso. apply Hpercent.
    destruct (last_colon host port (bracket :: w ++ percent :: d ++ [unbracket]) port' Hcolon Hp) as [<- _].
    { rewrite Hs1. cbn. rewrite <-!app_assoc. cbn. by rewrite <-app_assoc. }
    set_solver.
Qed.

Lemma bracketed_inner w : bracketed (bracket :: w ++ [unbracket]) = true.
Proof.
  unfold bracketed. rewrite andb_true_iff, !bool_decide_eq_true. split; [done|].
  by rewrite last_cons, last_snoc.
Qed.

Lemma valid_host_inner w :
  valid_host (bracket :: w ++ [unbracket]) = valid_ipv6 w.
Proof.
  unfold valid_host. rewrite bracketed_inner. cbn [length drop]. rewrite length_app, drop_0. cbn [length].
  destruct (Nat.leb_spec 2 (S (length w + 1))); [|lia]. cbn [andb].
  replace (S (length w + 1) - 2)%nat with (length w) by lia. by rewrite take_app_length.
Qed.

Lemma bracketed_host host :
  (2 ≤ length host)%nat → bracketed host = true → ∃ w, host = bracket :: w ++ [unbracket].
Proof.
  unfold bracketed. rewrite andb_true_iff, !bool_decide_eq_true. intros Hlen [Hhead Hlast].
  destruct host as [|c host]; [done|]. injection Hhead as ->.
  destruct host as [|d host] using rev_ind; [cbn in Hlen; lia|]. clear IHhost.
  rewrite last_cons, last_snoc in Hlast. injection Hlast as ->. by exists host.
Qed.

Lemma ipv4_first host : valid_ipv4 host = true → ∃ c rest, host = c :: rest ∧ is_digit c = true.
Proof.
  intros (ws & Hlen & Hall & ->)%valid_ipv4_octets.
  destruct Hall as [|o ws (_ & Hne & Ho)%octet_clean _]; [done|]. destruct o as [|c o]; [done|].
  cbn in Ho. apply andb_true_iff in Ho as [? _]. by exists c, (o ++ tail_join dot ws).
Qed.

Lemma valid_host_cases host :
  valid_host host = true ↔
  (∃ w, host = bracket :: w ++ [unbracket] ∧ ipv6_text w) ∨
  valid_ipv4 host = true ∧ bracketed host = false.
Proof.
  split.
  - unfold valid_host at 1. destruct ((2 <=? length host)%nat && bracketed host) eqn:Hb; intros Hhost.
    + apply andb_true_iff in Hb as [Hlen%Nat.leb_le Hb].
      destruct (bracketed_host host Hlen Hb) as [w ->]. left. exists w. split; [done|].
      apply valid_ipv6_text. rewrite <-valid_host_inner. unfold valid_host. rewrite bracketed_inner.
      by destruct (2 <=? _)%nat eqn:?; [|apply Nat.leb_gt in Heqb; lia].
    + right. split; [done|]. apply ipv4_first in Hhost as (c & rest & -> & Hc). unfold bracketed.
      rewrite bool_decide_false; [done|]. by intros [= ->].
  - intros [(w & -> & Hw)|[Hhost Hb]].
    + rewrite valid_host_inner. by apply valid_ipv6_text.
    + unfold valid_host. by rewrite Hb, andb_false_r.
Qed.

Lemma socket_addr_complete host port :
  valid_host host = true → port_read port →
  ∃ address, SocketAddr_from_str (host ++ colon :: port) = Some address ∧
    bracketed host = is_ipv6 address.
Proof.
  intros Hhost (Hrun & Hne & Hle). unfold SocketAddr_from_str.
  assert (read_port (colon :: port) = Some (int_of_string port, [])) as Hport.
  { apply read_port_Some. by exists port. }
  apply valid_host_cases in Hhost as [(w & -> & Hw)|[Hhost Hb]].
  - destruct (read_ipv6_complete w (colon :: port) Hw) as [ip Hip].
    exists (V6 ip 0 (int_of_string port)). split; [|apply bracketed_inner].
    unfold read_socket_addr_v4. rewrite ipv4_not_number by (by intros ? [= <-]).
    cbn [mbind option_bind]. unfold read_socket_addr_v6. cbn [app]. rewrite read_given_char_eq.
    cbn [mbind option_bind]. rewrite <-app_assoc. cbn [app]. rewrite Hip. cbn [mbind option_bind].
    replace (read_scope_id _) with (@None (N * Bytes)) by done. cbn [default].
    rewrite read_given_char_eq. cbn [mbind option_bind]. rewrite Hport. cbn [mbind option_bind].
    by rewrite bool_decide_true.
  - destruct (read_ipv4_complete host (colon :: port) Hhost) as [os Hos]; [by intros ? [= <-]|].
    exists (V4 os (int_of_string port)). split; [|done].
    unfold read_socket_addr_v4. rewrite Hos. cbn [mbind option_bind]. rewrite Hport. cbn [mbind option_bind].
    by rewrite bool_decide_true.
Qed.

Lemma valid_host_percent host : valid_host host = true → percent ∉ host.
Proof.
  assert (∀ hexes quad, fragment hexes quad → percent ∉ join colon (tokens hexes quad)) as Hclean.
  { intros hexes quad Hfrag. apply join_clean; [done|].
    eapply Forall_impl; [by apply (fragment_clean hexes quad percent)|]. naive_solver. }
  intros [(w & -> & Hw)|[Hhost _]]%valid_host_cases; [|by apply ipv4_clean in Hhost as [Hhost _]; apply Hhost].
  enough (percent ∉ w) by set_solver. destruct Hw as [hexes quad Hfrag _|front hexes quad Hfront Hfrag _].
  - by apply Hclean.
  - apply Hclean in Hfront, Hfrag. rewrite tokens_None in Hfront. set_solver.
Qed.

(** Whether the bridge takes a text as the address of an endpoint. *)
Definition bind_address_accepted (text : Bytes) : bool :=
  (length text <=? max_bind_address_bytes)%nat && bool_decide (is_Some (parse_bind_address text)).

Lemma parse_bind_address_Some text :
  is_Some (parse_bind_address text) ↔
  ∃ host port, rsplit_once colon text = Some (host, port) ∧ valid_host host = true ∧ valid_port port = true.
Proof.
  unfold parse_bind_address. split.
  - intros [address ([host port] & Hsplit & Hparse)%bind_Some]. exists host, port. split; [done|].
    destruct (negb _ || _) eqn:Hguard; [done|].
    apply orb_false_iff in Hguard as [Hport%negb_false_iff Hpercent%bool_decide_eq_false].
    apply bind_Some in Hparse as (address' & Hfrom & Hkind).
    destruct (Bool.eqb _ _) eqn:Heq; [|done]. apply eqb_prop in Heq. clear Hkind.
    apply rsplit_once_Some in Hsplit as [-> Hcolon]. unfold valid_port.
    apply bind_Some in Hfrom as ([a rest] & Hread & Hrest).
    case_bool_decide; [|done]. injection Hrest as ->. subst rest.
    destruct (read_socket_addr_v4 _) as [r|] eqn:Hv4.
    + injection Hread as ->. apply socket_addr_v4_sound in Hv4 as (Hv6 & Hhost & _ & _ & Hle); [|done].
      split; [apply valid_host_cases; right; split; [done|congruence]|].
      by rewrite andb_true_iff, N.leb_le.
    + apply socket_addr_v6_sound in Hread as (_ & (_ & _ & Hle) & w & -> & Hw); [|done..].
      split; [apply valid_host_cases; by eauto|]. by rewrite andb_true_iff, N.leb_le.
  - intros (host & port & Hsplit & Hhost & Hport). rewrite Hsplit. cbn [mbind option_bind].
    pose proof Hport as [Hcanon Hle%N.leb_le]%andb_true_iff. pose proof (canonical_run _ _ Hcanon) as (Hrun & Hne & _).
    unfold canonical_port. rewrite Hcanon, bool_decide_false by by apply valid_host_percent. cbn [negb orb].
    destruct (socket_addr_complete host port Hhost) as (address & Hfrom & Hkind); [done|].
    apply rsplit_once_Some in Hsplit as [-> _]. rewrite Hfrom. cbn [mbind option_bind].
    rewrite Hkind, eqb_reflx. by eexists.
Qed.

(** The library and the bridge accept exactly the same bind addresses: what the
    OCaml constructor lets through is never refused when the runtime is created, and
    the bridge lets nothing through that the constructor refuses. *)
Lemma bind_address_agrees text : bind_address_accepted text = validate_bind_address text.
Proof.
  apply eq_true_iff_eq. unfold bind_address_accepted, validate_bind_address.
  rewrite andb_true_iff, Nat.leb_le, bool_decide_eq_true, parse_bind_address_Some. split.
  - intros [Hlen (host & port & Hsplit & Hhost & Hport)]. rewrite Hsplit, Hhost, Hport.
    rewrite bool_decide_false by (by intros ->). by rewrite (proj2 (Nat.ltb_ge _ _) Hlen).
  - destruct (_ || _) eqn:Hguard; [done|]. intros H.
    apply orb_false_iff in Hguard as [_ Hlen%Nat.ltb_ge]. split; [done|].
    destruct (rsplit_once colon text) as [[host port]|]; [|done].
    apply andb_true_iff in H as [Hhost Hport]. by exists host, port.
Qed.
