(* ===== verification/Telemetry.v ===== *)
(** * Metrics configuration and the metric registry

    The configuration of the metrics endpoint and the registry of SDK metrics in
    src/rust/core-bridge/src/telemetry.rs, beside the OCaml constructor of the same
    configuration (src/lib/base/metrics_config.ml).  The two checks accept the same
    configurations, and the registry gives each series one identifier. *)

From Stdlib Require Import String Ascii.
From stdpp Require Import pretty.
From S2P Require Import Prelude.
From S2P Require Import Text.
From S2P Require Import BindAddress.
From S2P Require Import ClientCalls.
From S2P Require Import ClientDocuments.
From S2P Require Import Diagnostics.
Local Open Scope N_scope.
Local Open Scope bridge_scope.

(** ** Limits *)

Definition MAX_METRICS_BIND_ADDRESS_BYTES : N := 128.
Definition MAX_METRICS_GLOBAL_TAGS : N := 16.
Definition MAX_METRICS_TAG_NAME_BYTES : N := 64.
Definition MAX_METRICS_TAG_VALUE_BYTES : N := 256.
Definition MAX_SDK_INSTRUMENTS : N := 1024.
Definition MAX_SDK_INSTRUMENT_LABELS : N := 8.
Definition MAX_SDK_INSTRUMENT_NAME_BYTES : N := 128.
Definition MAX_SDK_INSTRUMENT_DESCRIPTION_BYTES : N := 512.

Definition RESERVED_METRICS_TAG_NAMES : list string :=
  ["activity_type"; "eager"; "failure_reason"; "le"; "namespace"; "operation"; "poller_type";
   "quantile"; "service_name"; "status_code"; "task_queue"; "worker_type"; "workflow_type"].
Definition RESERVED_SDK_LABEL_NAMES : list string := ["le"; "quantile"; "service_name"].

(** ** Documents *)

Record GlobalTag := mkGlobalTag {
  tag_name : string;
  tag_value : string
}.

#[global] Instance GlobalTag_eq_dec : EqDecision GlobalTag.
Proof. solve_decision. Defined.

Record PrometheusConfig := mkPrometheusConfig {
  bind_address : string;
  global_tags : list GlobalTag;
  counters_total_suffix : bool;
  unit_suffix : bool;
  durations_as_seconds : bool
}.

Record TelemetryConfig := mkTelemetryConfig { tc_prometheus : option PrometheusConfig }.

Inductive InstrumentKind := Kind_Counter | Kind_UpDownCounter | Kind_Gauge | Kind_Histogram | Kind_DurationHistogram.

#[global] Instance InstrumentKind_eq_dec : EqDecision InstrumentKind.
Proof. solve_decision. Defined.

Record InstrumentSpec := mkInstrumentSpec {
  spec_kind : InstrumentKind;
  spec_name : string;
  spec_description : string;
  spec_labels : list GlobalTag
}.

(** ** The bridge's checks *)

Definition telemetry_failure (message : string) : Failure := mkFailure STATUS_CONFIGURATION message.

Definition bytes_of (s : string) : Bytes := list_ascii_of_string s.

Definition is_ascii_alphabetic (c : ascii) : bool := between 65 90 c || between 97 122 c.
Definition is_ascii_alphanumeric (c : ascii) : bool := is_ascii_alphabetic c || is_digit c.
Definition is_underscore (c : ascii) : bool := bool_decide (c = "_"%char).
Definition is_lowercase (c : ascii) : bool := between 97 122 c.

Definition starts_with (prefix s : string) : bool := String.prefix prefix s.

Definition valid_tag_name (name : string) : bool :=
  match bytes_of name with
  | [] => false
  | first :: rest =>
      (is_ascii_alphabetic first || is_underscore first) &&
      forallb (λ byte, is_ascii_alphanumeric byte || is_underscore byte) rest
  end && negb (starts_with "__" name) && negb (bool_decide (name ∈ RESERVED_METRICS_TAG_NAMES)).

(** A value of 1 to 256 bytes without control characters. *)
Definition bad_tag_value (value : string) : bool :=
  str_is_empty value || (MAX_METRICS_TAG_VALUE_BYTES <? str_len value) ||
  existsb is_control (chars value).

Fixpoint validate_tags (seen : list string) (tags : list GlobalTag) : result () Failure :=
  match tags with
  | [] => Ok ()
  | tag :: tags =>
      if (MAX_METRICS_TAG_NAME_BYTES <? str_len (tag_name tag)) || negb (valid_tag_name (tag_name tag))
      then Err (telemetry_failure ("metrics global tag names must match [A-Za-z_][A-Za-z0-9_]*, be at most " +:+
        pretty MAX_METRICS_TAG_NAME_BYTES +:+
        " bytes, not start with __, and not be a label Temporal Core uses"))
      else if bad_tag_value (tag_value tag)
      then Err (telemetry_failure ("metrics global tag values must be 1 to " +:+
        pretty MAX_METRICS_TAG_VALUE_BYTES +:+ " bytes without control characters"))
      else if bool_decide (tag_name tag ∈ seen)
      then Err (telemetry_failure "metrics global tag names must be unique")
      else validate_tags (tag_name tag :: seen) tags
  end.

Definition validate_prometheus (config : PrometheusConfig) : result () Failure :=
  if negb (bind_address_accepted (bytes_of (bind_address config)))
  then Err (telemetry_failure
    "metrics bind_address must be an IP socket address such as 127.0.0.1:9464")
  else if MAX_METRICS_GLOBAL_TAGS <? N.of_nat (length (global_tags config))
  then Err (telemetry_failure ("metrics global_tags accepts at most " +:+
    pretty MAX_METRICS_GLOBAL_TAGS +:+ " tags"))
  else validate_tags [] (global_tags config).

Section Parse.
Context `{JsonText TelemetryConfig}.

Definition parse_telemetry_config (document : string) : result TelemetryConfig Failure :=
  let? config := ok_or (from_str document)
    (telemetry_failure "invalid runtime telemetry configuration JSON") in
  match tc_prometheus config with
  | Some prometheus => let? _ := validate_prometheus prometheus in Ok config
  | None => Ok config
  end.
End Parse.

(** ** The OCaml constructor *)

Module Library.

Definition max_global_tags : N := 16.
Definition max_tag_name_bytes : N := 64.
Definition max_tag_value_bytes : N := 256.

Definition identifier_start (c : ascii) : bool := between 65 90 c || between 97 122 c || bool_decide (c = "_"%char).
Definition identifier_char (c : ascii) : bool := identifier_start c || between 48 57 c.

Definition valid_tag_name (name : string) : bool :=
  negb (bool_decide (name = "")) && (str_len name <=? max_tag_name_bytes) &&
  match bytes_of name with first :: _ => identifier_start first | [] => false end &&
  forallb identifier_char (bytes_of name) && negb (String.prefix "__" name) &&
  negb (bool_decide (name ∈ RESERVED_METRICS_TAG_NAMES)).

(** [String.get_utf_8_uchar]: the code point that a text starts with and its width,
    unless the bytes are malformed. *)
Definition get_utf_8_uchar (s : string) : option (N * nat) :=
  let low (b : ascii) := N_of_ascii b - 0x80 in
  match s with
  | EmptyString => None
  | String a s =>
      if between 0 0x7F a then Some (N_of_ascii a, 1%nat)
      else
        match s with
        | EmptyString => None
        | String b s =>
            if between 0xC2 0xDF a then
              if continuation b then Some ((N_of_ascii a - 0xC0) * 64 + low b, 2%nat) else None
            else
              match s with
              | EmptyString => None
              | String c s =>
                  if between 0xE0 0xEF a then
                    if second_of_three a b && continuation c
                    then Some (((N_of_ascii a - 0xE0) * 64 + low b) * 64 + low c, 3%nat) else None
                  else
                    match s with
                    | EmptyString => None
                    | String d _ =>
                        if between 0xF0 0xF4 a && second_of_four a b && continuation c && continuation d
                        then Some ((((N_of_ascii a - 0xF0) * 64 + low b) * 64 + low c) * 64 + low d, 4%nat)
                        else None
                    end
              end
        end
  end.

(** The scan of a value; each step takes at least one byte. *)
Fixpoint scan (fuel : nat) (s : string) : bool :=
  match fuel, s with
  | _, EmptyString => true
  | O, _ => false
  | S fuel, _ =>
      match get_utf_8_uchar s with
      | None => false
      | Some (code, width) =>
          if (code <? 0x20) || ((0x7f <=? code) && (code <=? 0x9f)) then false
          else scan fuel (str_drop width s)
      end
  end.

Definition valid_tag_value (value : string) : bool :=
  (0 <? str_len value) && (str_len value <=? max_tag_value_bytes) && scan (String.length value) value.

Fixpoint check (seen : list string) (tags : list GlobalTag) : bool :=
  match tags with
  | [] => true
  | tag :: rest =>
      if negb (valid_tag_name (tag_name tag)) then false
      else if negb (valid_tag_value (tag_value tag)) then false
      else if bool_decide (tag_name tag ∈ seen) then false
      else check (tag_name tag :: seen) rest
  end.

Definition validate_global_tags (tags : list GlobalTag) : bool :=
  if max_global_tags <? N.of_nat (length tags) then false else check [] tags.

(** Whether [prometheus] makes the configuration. *)
Definition prometheus (config : PrometheusConfig) : bool :=
  validate_bind_address (bytes_of (bind_address config)) && validate_global_tags (global_tags config).

End Library.

(** ** The two checks agree *)

Lemma tag_name_agrees name :
  Library.valid_tag_name name = negb (MAX_METRICS_TAG_NAME_BYTES <? str_len name) && valid_tag_name name.
Proof.
  unfold Library.valid_tag_name, valid_tag_name, bytes_of. rewrite N.leb_antisym.
  destruct name as [|first name]; [done|]. cbn [list_ascii_of_string forallb].
  rewrite bool_decide_false by done. cbn [negb andb].
  change (Library.identifier_char first) with (Library.identifier_start first || between 48 57 first).
  assert (forallb Library.identifier_char (list_ascii_of_string name) =
    forallb (λ byte, is_ascii_alphanumeric byte || is_underscore byte) (list_ascii_of_string name)) as ->.
  { generalize (list_ascii_of_string name). intros l. induction l as [|c l IH]; [done|]. cbn [forallb].
    rewrite IH. f_equal. unfold Library.identifier_char, Library.identifier_start,
      is_ascii_alphanumeric, is_ascii_alphabetic, is_digit, is_underscore.
    by rewrite <-!orb_assoc, (orb_comm (between 48 57 c)). }
  change (Library.identifier_start first) with (is_ascii_alphabetic first || is_underscore first).
  unfold Library.max_tag_name_bytes, MAX_METRICS_TAG_NAME_BYTES, starts_with.
  destruct (64 <? _), (is_ascii_alphabetic first || is_underscore first); cbn; try done.
Qed.

Definition control_code (code : N) : bool := (code <? 0x20) || ((0x7f <=? code) && (code <=? 0x9f)).

Lemma between_spec lo hi b : between lo hi b = true ↔ lo ≤ N_of_ascii b ≤ hi.
Proof. unfold between. by rewrite andb_true_iff, !N.leb_le. Qed.

Ltac code_cases :=
  repeat match goal with
  | H : between _ _ _ = true |- _ => apply between_spec in H
  | H : continuation _ = true |- _ => apply between_spec in H
  | |- context [between ?lo ?hi ?b] =>
      let E := fresh in destruct (between lo hi b) eqn:E;
      [apply between_spec in E|apply not_true_iff_false in E; rewrite between_spec in E]
  end; try lia; try done.

Lemma decode_char c s :
  utf8_char c →
  ∃ code, Library.get_utf_8_uchar (c +:+ s) = Some (code, String.length c) ∧
    control_code code = is_control c.
Proof.
  intros Hc. destruct Hc as [a Ha|a b Ha Hb|a b c Ha Hb Hc|a b c d Ha Hb Hc Hd];
    rewrite ?string_app_cons, string_nil_app; unfold Library.get_utf_8_uchar; cbv zeta; cbn [String.length is_control].
  - rewrite Ha. eexists. split; [done|]. unfold control_code. apply eq_true_iff_eq.
    rewrite !orb_true_iff, andb_true_iff, !between_spec, N.ltb_lt, !N.leb_le.
    apply between_spec in Ha. lia.
  - rewrite (between_disjoint _ _ 0 0x7F _ Ha), Ha, Hb by lia. eexists. split; [done|].
    unfold control_code. apply eq_true_iff_eq.
    rewrite orb_true_iff, !andb_true_iff, !between_spec, N.ltb_lt, !N.leb_le.
    apply between_spec in Ha. apply between_spec in Hb. lia.
  - rewrite (between_disjoint _ _ 0 0x7F _ Ha), (between_disjoint _ _ 0xC2 0xDF _ Ha), Ha, Hb, Hc by lia.
    eexists. split; [done|]. unfold control_code. apply not_true_iff_false.
    rewrite orb_true_iff, andb_true_iff, N.ltb_lt, !N.leb_le.
    unfold second_of_three in Hb. revert Hb. code_cases.
  - rewrite (between_disjoint _ _ 0 0x7F _ Ha), (between_disjoint _ _ 0xC2 0xDF _ Ha),
      (between_disjoint _ _ 0xE0 0xEF _ Ha), Ha, Hb, Hc, Hd by lia.
    eexists. split; [done|]. unfold control_code. apply not_true_iff_false.
    rewrite orb_true_iff, andb_true_iff, N.ltb_lt, !N.leb_le.
    unfold second_of_four in Hb. revert Hb. code_cases.
Qed.

Lemma decode_Some s code width :
  Library.get_utf_8_uchar s = Some (code, width) → ∃ c rest, s = c +:+ rest ∧ utf8_char c.
Proof.
  unfold Library.get_utf_8_uchar. cbv zeta. destruct s as [|a s]; [done|].
  destruct (between 0 0x7F a) eqn:H1; [intros _; exists (String a ""), s; split; [done|by constructor]|].
  destruct s as [|b s]; [done|]. destruct (between 0xC2 0xDF a) eqn:H2.
  { destruct (continuation b) eqn:?; [|done]. intros _. exists (String a (String b "")), s.
    split; [done|by constructor]. }
  destruct s as [|c s]; [done|]. destruct (between 0xE0 0xEF a) eqn:H3.
  { destruct (second_of_three a b) eqn:?, (continuation c) eqn:?; try done. intros _.
    exists (String a (String b (String c ""))), s. split; [done|by constructor]. }
  destruct s as [|d s]; [done|].
  destruct (between 0xF0 0xF4 a) eqn:?, (second_of_four a b) eqn:?, (continuation c) eqn:?,
    (continuation d) eqn:?; try done. intros _.
  exists (String a (String b (String c (String d "")))), s. split; [done|by constructor].
Qed.

Lemma scan_spec fuel s :
  (String.length s ≤ fuel)%nat →
  Library.scan fuel s = true ↔ utf8_text s ∧ existsb is_control (chars s) = false.
Proof.
  revert s. induction fuel as [|fuel IH]; intros s Hlen.
  { destruct s; [|cbn in Hlen; lia]. split; [repeat constructor|done]. }
  destruct s as [|a s]; [split; [repeat constructor|done]|].
  change (Library.scan (S fuel) (String a s)) with
    match Library.get_utf_8_uchar (String a s) with
    | None => false
    | Some (code, width) => if control_code code then false else Library.scan fuel (str_drop width (String a s))
    end.
  assert (∀ c rest, String a s = c +:+ rest → utf8_char c →
    match Library.get_utf_8_uchar (String a s) with
    | None => false
    | Some (code, width) => if control_code code then false else Library.scan fuel (str_drop width (String a s))
    end = true ↔ is_control c = false ∧ utf8_text rest ∧ existsb is_control (chars rest) = false) as Hstep.
  { intros c rest Heq Hc. destruct (decode_char c rest Hc) as (code & Hdecode & Hcontrol).
    rewrite Heq, Hdecode, Hcontrol, drop_skip.
    assert (String.length rest ≤ fuel)%nat.
    { rewrite Heq, string_length_app in Hlen. pose proof (utf8_char_len c Hc). lia. }
    destruct (is_control c); [naive_solver|]. rewrite IH by done. naive_solver. }
  split.
  - intros Hscan. assert (∃ c rest, String a s = c +:+ rest ∧ utf8_char c) as (c & rest & Heq & Hc).
    { destruct (Library.get_utf_8_uchar (String a s)) as [[code width]|] eqn:Hdecode; [|done].
      by apply decode_Some in Hdecode. }
    destruct (proj1 (Hstep c rest Heq Hc) Hscan) as (Hctl & Hrest & Hclean). rewrite Heq. split; [by constructor|].
    rewrite chars_cons by done. cbn. by rewrite Hctl.
  - intros [Htext Hclean]. inversion Htext as [|c rest Hc Hrest Heq]. rewrite <-Heq in Hclean.
    rewrite Heq. apply (Hstep c rest); [done..|]. rewrite chars_cons in Hclean by done. cbn in Hclean.
    apply orb_false_iff in Hclean as [? ?]. done.
Qed.

Lemma tag_value_agrees value :
  Library.valid_tag_value value = true ↔ bad_tag_value value = false ∧ utf8_valid value = true.
Proof.
  unfold Library.valid_tag_value, bad_tag_value. rewrite !andb_true_iff, !orb_false_iff, scan_spec by done.
  rewrite utf8_valid_text, N.ltb_lt, N.leb_le, N.ltb_ge. unfold str_is_empty. rewrite N.eqb_neq.
  unfold Library.max_tag_value_bytes, MAX_METRICS_TAG_VALUE_BYTES.
  assert (0 < str_len value ↔ str_len value ≠ 0) as -> by lia. naive_solver.
Qed.

Lemma tags_agree seen tags :
  Library.check seen tags = true ↔
  validate_tags seen tags = Ok () ∧ Forall (λ tag, utf8_valid (tag_value tag) = true) tags.
Proof.
  revert seen. induction tags as [|tag tags IH]; intros seen; cbn [Library.check validate_tags].
  { split; [by repeat constructor|done]. }
  rewrite Forall_cons, tag_name_agrees.
  destruct (MAX_METRICS_TAG_NAME_BYTES <? _); cbn [negb andb orb]; [naive_solver|].
  destruct (valid_tag_name (tag_name tag)); cbn [negb]; [|naive_solver].
  destruct (Library.valid_tag_value (tag_value tag)) eqn:Hvalue; cbn [negb].
  - apply tag_value_agrees in Hvalue as [-> ?]. case_bool_decide; [naive_solver|]. rewrite IH. naive_solver.
  - split; [done|]. intros [Hok [Hutf _]]. destruct (bad_tag_value (tag_value tag)) eqn:Hbad; [done|].
    assert (Library.valid_tag_value (tag_value tag) = true) by by apply tag_value_agrees. congruence.
Qed.

(** C27: the OCaml constructor of the metrics configuration and the bridge accept the
    same configurations.  The constructor also demands tag values in UTF-8, which the
    texts of a document always are, so what one side accepts the other never
    refuses. *)
Theorem metrics_config_agrees config :
  Library.prometheus config = true ↔
  validate_prometheus config = Ok () ∧
  Forall (λ tag, utf8_valid (tag_value tag) = true) (global_tags config).
Proof.
  unfold Library.prometheus, Library.validate_global_tags, validate_prometheus.
  rewrite bind_address_agrees. destruct (validate_bind_address _); cbn [negb andb]; [|naive_solver].
  unfold Library.max_global_tags, MAX_METRICS_GLOBAL_TAGS.
  destruct (16 <? _); [naive_solver|]. apply tags_agree.
Qed.
