(* ===== verification/MetricMeter.v ===== *)
(** * The registry of SDK metrics

    [MetricMeter] of src/rust/core-bridge/src/telemetry.rs: a series is registered
    once, under a key of its kind, name and labels, and recorded into by the
    identifier it was given.  The instrument that Core binds is known by the
    specification that it is bound from. *)

From Stdlib Require Import String Ascii.
From stdpp Require Import pretty.
From S2P Require Import Prelude.
From S2P Require Import Text.
From S2P Require Import BindAddress.
From S2P Require Import ClientCalls.
From S2P Require Import ClientDocuments.
From S2P Require Import Diagnostics.
From S2P Require Import Telemetry.
Local Open Scope N_scope.
Local Open Scope bridge_scope.

Definition STATUS_OK : N := 0.
Definition STATUS_INVALID_ARGUMENT : N := 1.

(** ** Checks *)

Definition valid_sdk_identifier (name : string) : bool :=
  match bytes_of name with
  | [] => false
  | first :: rest =>
      (is_lowercase first || is_underscore first) &&
      forallb (λ byte, is_lowercase byte || is_digit byte || is_underscore byte) rest
  end && negb (starts_with "__" name).

Fixpoint validate_labels (global_tag_names seen : list string) (labels : list GlobalTag) :
    result () Failure :=
  match labels with
  | [] => Ok ()
  | label :: labels =>
      if (MAX_METRICS_TAG_NAME_BYTES <? str_len (tag_name label)) ||
         negb (valid_sdk_identifier (tag_name label)) ||
         bool_decide (tag_name label ∈ RESERVED_SDK_LABEL_NAMES) ||
         bool_decide (tag_name label ∈ global_tag_names) ||
         bool_decide (tag_name label ∈ seen)
      then Err (telemetry_failure ("SDK metric label names must match [a-z_][a-z0-9_]*, be at most " +:+
        pretty MAX_METRICS_TAG_NAME_BYTES +:+
        " bytes, be unique, and not repeat a reserved label or a global tag"))
      else if bad_tag_value (tag_value label)
      then Err (telemetry_failure ("SDK metric label values must be 1 to " +:+
        pretty MAX_METRICS_TAG_VALUE_BYTES +:+ " bytes without control characters"))
      else validate_labels global_tag_names (tag_name label :: seen) labels
  end.

Definition validate (global_tag_names : list string) (spec : InstrumentSpec) : result () Failure :=
  if (MAX_SDK_INSTRUMENT_NAME_BYTES <? str_len (spec_name spec)) ||
     negb (valid_sdk_identifier (spec_name spec)) || starts_with "temporal_" (spec_name spec)
  then Err (telemetry_failure ("SDK metric names must match [a-z_][a-z0-9_]*, be at most " +:+
    pretty MAX_SDK_INSTRUMENT_NAME_BYTES +:+ " bytes, and omit the temporal_ prefix"))
  else if (MAX_SDK_INSTRUMENT_DESCRIPTION_BYTES <? str_len (spec_description spec)) ||
          existsb is_control (chars (spec_description spec))
  then Err (telemetry_failure ("SDK metric descriptions must be at most " +:+
    pretty MAX_SDK_INSTRUMENT_DESCRIPTION_BYTES +:+ " bytes without control characters"))
  else if MAX_SDK_INSTRUMENT_LABELS <? N.of_nat (length (spec_labels spec))
  then Err (telemetry_failure ("an SDK metric series accepts at most " +:+
    pretty MAX_SDK_INSTRUMENT_LABELS +:+ " labels"))
  else validate_labels global_tag_names [] (spec_labels spec).

(** ** The key of a series *)

Definition kind_debug (kind : InstrumentKind) : string :=
  match kind with
  | Kind_Counter => "Counter"
  | Kind_UpDownCounter => "UpDownCounter"
  | Kind_Gauge => "Gauge"
  | Kind_Histogram => "Histogram"
  | Kind_DurationHistogram => "DurationHistogram"
  end.

Definition U1 : ascii := ascii_of_N 1.
Definition U2 : ascii := ascii_of_N 2.

Fixpoint label_keys (labels : list GlobalTag) : string :=
  match labels with
  | [] => ""
  | label :: labels =>
      String U1 (tag_name label +:+ String U2 (tag_value label +:+ label_keys labels))
  end.

Definition series_key (spec : InstrumentSpec) : string :=
  kind_debug (spec_kind spec) +:+ String U1 (spec_name spec +:+ label_keys (spec_labels spec)).

(** ** Registration *)

Record InstrumentRegistry := mkInstrumentRegistry {
  instruments : list InstrumentSpec;
  ids : gmap string N;
  families : gmap string (InstrumentKind * string)
}.

Definition InstrumentRegistry_default : InstrumentRegistry := mkInstrumentRegistry [] ∅ ∅.

(** Whether a name was registered with another kind or description. *)
Definition family_conflicts (spec : InstrumentSpec) (r : InstrumentRegistry) : bool :=
  match families r !! spec_name spec with
  | Some (kind, description) =>
      negb (bool_decide (kind = spec_kind spec)) || negb (bool_decide (description = spec_description spec))
  | None => false
  end.

(** The section of [register] under the write lock. *)
Definition register_spec (spec : InstrumentSpec) (r : InstrumentRegistry) :
    result N Failure * InstrumentRegistry :=
  let key := series_key spec in
  if family_conflicts spec r
  then (Err (telemetry_failure "an SDK metric name must keep one kind and one description"), r)
  else
    match ids r !! key with
    | Some id => (Ok id, r)
    | None =>
        let id := N.of_nat (length (instruments r)) in
        if MAX_SDK_INSTRUMENTS <=? id
        then (Err (telemetry_failure ("at most " +:+ pretty MAX_SDK_INSTRUMENTS +:+
          " SDK metric series may be registered")), r)
        else if 2 ^ 32 <=? id
        then (Err (telemetry_failure "SDK metric identifier overflow"), r)
        else
          (Ok id, mkInstrumentRegistry (instruments r ++ [spec]) (<[key := id]> (ids r))
             (<[spec_name spec := (spec_kind spec, spec_description spec)]> (families r)))
    end.

Section Meter.
Context `{JsonText InstrumentSpec}.
Context (global_tag_names : list string).

Definition register (document : string) (r : InstrumentRegistry) :
    result N Failure * InstrumentRegistry :=
  match from_str document with
  | None => (Err (telemetry_failure "invalid SDK metric registration JSON"), r)
  | Some spec =>
      match validate global_tag_names spec with
      | Err failure => (Err failure, r)
      | Ok _ => register_spec spec r
      end
  end.

Fixpoint register_all (documents : list string) (r : InstrumentRegistry) : InstrumentRegistry :=
  match documents with
  | [] => r
  | document :: documents => register_all documents (register document r).2
  end.
End Meter.

(** ** Recording *)

(** What reaches Core's instrument: a number, or a duration in nanoseconds. *)
Inductive Recorded :=
| Adds (value : Z)
| Sets (value : Z)
| Observes (value : Z)
| ObservesDuration (nanoseconds : Z).

(** [record]: the status, and what is recorded into which series. *)
Definition record (id : N) (value : Z) (r : InstrumentRegistry) : N * option (InstrumentSpec * Recorded) :=
  match instruments r !! N.to_nat id with
  | None => (STATUS_INVALID_ARGUMENT, None)
  | Some instrument =>
      match spec_kind instrument with
      | Kind_UpDownCounter => (STATUS_OK, Some (instrument, Adds value))
      | kind =>
          if (value <? 0)%Z then (STATUS_INVALID_ARGUMENT, None)
          else
            (STATUS_OK, Some (instrument,
              match kind with
              | Kind_Counter | Kind_UpDownCounter => Adds value
              | Kind_Gauge => Sets value
              | Kind_Histogram => Observes value
              | Kind_DurationHistogram => ObservesDuration (value * 1000)
              end))
      end
  end.

(** ** The key is unambiguous *)

Definition no_byte (x : ascii) (s : string) : Prop := contains_byte x s = false.

Lemma no_byte_app x a b : no_byte x (a +:+ b) ↔ no_byte x a ∧ no_byte x b.
Proof. unfold no_byte. by rewrite contains_byte_app, orb_false_iff. Qed.

(** What follows a separator decides nothing before it. *)
Lemma split_at_separator x a b r r' :
  no_byte x a → no_byte x b → a +:+ String x r = b +:+ String x r' → a = b ∧ r = r'.
Proof.
  unfold no_byte. revert b. induction a as [|y a IH]; intros b Ha Hb Heq.
  - destruct b as [|y b]; [by injection Heq as ->|]. injection Heq as <- _. cbn in Hb.
    by rewrite Ascii.eqb_refl in Hb.
  - destruct b as [|z b].
    + injection Heq as -> _. cbn in Ha. by rewrite Ascii.eqb_refl in Ha.
    + rewrite !string_app_cons in Heq. injection Heq as -> Heq. cbn in Ha, Hb.
      apply orb_false_iff in Ha as [_ Ha], Hb as [_ Hb]. by destruct (IH b Ha Hb Heq) as [-> ->].
Qed.

(** A text without the separator before nothing or a separator. *)
Definition separated (x : ascii) (r : string) : Prop := r = "" ∨ ∃ r', r = String x r'.

Lemma split_before_separator x a b r r' :
  no_byte x a → no_byte x b → separated x r → separated x r' → a +:+ r = b +:+ r' → a = b ∧ r = r'.
Proof.
  intros Ha Hb [->|[s ->]] [->|[s' ->]] Heq.
  - by rewrite !string_app_nil in Heq.
  - exfalso. rewrite string_app_nil in Heq. subst a. apply no_byte_app in Ha as [_ Ha].
    unfold no_byte in Ha. cbn in Ha. by rewrite Ascii.eqb_refl in Ha.
  - exfalso. rewrite string_app_nil in Heq. subst b. apply no_byte_app in Hb as [_ Hb].
    unfold no_byte in Hb. cbn in Hb. by rewrite Ascii.eqb_refl in Hb.
  - by destruct (split_at_separator x a b s s' Ha Hb Heq) as [-> ->].
Qed.

Lemma no_byte_bytes x s : no_byte x s ↔ x ∉ bytes_of s.
Proof.
  unfold no_byte, bytes_of. induction s as [|y s IH]; cbn; [split; [set_solver|done]|].
  rewrite orb_false_iff, IH, not_elem_of_cons, Ascii.eqb_neq. naive_solver.
Qed.

Lemma identifier_no_byte x s :
  valid_sdk_identifier s = true → is_lowercase x || is_digit x || is_underscore x = false → no_byte x s.
Proof.
  unfold valid_sdk_identifier. rewrite andb_true_iff, no_byte_bytes. intros [Hs _] Hx.
  destruct (bytes_of s) as [|c l]; [done|]. apply andb_true_iff in Hs as [Hc Hl]. apply not_elem_of_cons. split.
  - intros ->. apply orb_true_iff in Hc. apply orb_false_iff in Hx as [[? ?]%orb_false_iff ?]. destruct Hc; congruence.
  - by eapply forallb_not_in.
Qed.

Lemma value_no_byte x v :
  utf8_text v → existsb is_control (chars v) = false → is_control (String x "") = true → no_byte x v.
Proof.
  intros Hv Hclean Hx. induction Hv as [|c s Hc Hs IH]; [done|].
  rewrite chars_cons in Hclean by done. cbn in Hclean. apply orb_false_iff in Hclean as [Hctl Hclean].
  apply no_byte_app. split; [|by apply IH]. clear IH.
  assert (N_of_ascii x ≤ 0x7F) as Hlow.
  { cbn in Hx. apply orb_true_iff in Hx as [Hx|Hx]; apply between_spec in Hx; lia. }
  assert (∀ b, 0x80 ≤ N_of_ascii b → Ascii.eqb b x = false) as Hne.
  { intros b Hb. apply Ascii.eqb_neq. intros ->. lia. }
  unfold no_byte. destruct Hc as [a Ha|a b Ha Hb|a b c Ha Hb Hc|a b c d Ha Hb Hc Hd]; cbn.
  - rewrite orb_false_r. apply Ascii.eqb_neq. intros ->. congruence.
  - apply between_spec in Ha, Hb. by rewrite !Hne by lia.
  - apply second_of_three_continuation in Hb. apply between_spec in Ha, Hb, Hc. by rewrite !Hne by lia.
  - apply second_of_four_continuation in Hb. apply between_spec in Ha, Hb, Hc, Hd. by rewrite !Hne by lia.
Qed.

(** A label whose text does not hold a separator. *)
Definition plain_label (label : GlobalTag) : Prop :=
  no_byte U2 (tag_name label) ∧ no_byte U1 (tag_value label).

Lemma label_keys_separated labels : separated U1 (label_keys labels).
Proof. destruct labels; [by left|right; by eexists]. Qed.

Lemma label_keys_inj labels labels' :
  Forall plain_label labels → Forall plain_label labels' → label_keys labels = label_keys labels' →
  labels = labels'.
Proof.
  intros Hl. revert labels'. induction Hl as [|[n v] labels [Hn Hv] _ IH]; intros labels' Hl' Heq.
  { by destruct labels'. }
  destruct Hl' as [|[n' v'] labels' [Hn' Hv'] Hl']; [done|]. cbn in Heq. injection Heq as Heq.
  apply split_at_separator in Heq as [-> Heq]; [|done..].
  apply (split_before_separator U1) in Heq as [-> Heq]; [|done|done|apply label_keys_separated..].
  f_equal. by apply IH.
Qed.

(** A specification that passed its check, with labels that are text. *)
Record checked (global_tag_names : list string) (spec : InstrumentSpec) : Prop := {
  ck_valid : validate global_tag_names spec = Ok ();
  ck_text : Forall (λ label, utf8_text (tag_value label)) (spec_labels spec)
}.

Lemma validate_labels_plain names seen labels :
  validate_labels names seen labels = Ok () → Forall (λ label, utf8_text (tag_value label)) labels →
  Forall plain_label labels.
Proof.
  revert seen. induction labels as [|label labels IH]; intros seen Hv Ht; [constructor|].
  apply Forall_cons in Ht as [Ht Hts]. cbn in Hv. apply guard_Ok in Hv as [Hname Hv].
  apply guard_Ok in Hv as [Hvalue Hv]. constructor; [|by eapply IH].
  rewrite !orb_false_iff in Hname. destruct Hname as [[[[_ Hid%negb_false_iff] _] _] _].
  unfold bad_tag_value in Hvalue. rewrite !orb_false_iff in Hvalue. destruct Hvalue as [_ Hclean].
  split; [by eapply identifier_no_byte|by apply value_no_byte].
Qed.

Lemma checked_plain names spec :
  checked names spec →
  no_byte U1 (spec_name spec) ∧ Forall plain_label (spec_labels spec).
Proof.
  intros [Hv Ht]. unfold validate in Hv. apply guard_Ok in Hv as [Hname Hv].
  apply guard_Ok in Hv as [_ Hv]. apply guard_Ok in Hv as [_ Hv].
  rewrite !orb_false_iff in Hname. destruct Hname as [[_ Hid%negb_false_iff] _].
  split; [by eapply identifier_no_byte|by eapply validate_labels_plain].
Qed.

Definition same_series (a b : InstrumentSpec) : Prop :=
  spec_kind a = spec_kind b ∧ spec_name a = spec_name b ∧ spec_labels a = spec_labels b.

Lemma series_key_inj names a b :
  checked names a → checked names b → series_key a = series_key b ↔ same_series a b.
Proof.
  intros [Ha Hla]%checked_plain [Hb Hlb]%checked_plain. unfold series_key. split.
  - intros Heq. apply split_at_separator in Heq as [Hkind Heq];
      [|by destruct (spec_kind a)|by destruct (spec_kind b)].
    apply (split_before_separator U1) in Heq as [Hname Heq]; [|done|done|apply label_keys_separated..].
    split_and!; [by destruct (spec_kind a), (spec_kind b)|done|by apply label_keys_inj].
  - by intros (-> & -> & ->).
Qed.

(** ** The registry *)

Record registry_ok (names : list string) (r : InstrumentRegistry) : Prop := {
  ro_ids key id : ids r !! key = Some id ↔
    ∃ spec, instruments r !! N.to_nat id = Some spec ∧ series_key spec = key;
  ro_families spec : spec ∈ instruments r →
    families r !! spec_name spec = Some (spec_kind spec, spec_description spec);
  ro_checked : Forall (checked names) (instruments r);
  ro_length : N.of_nat (length (instruments r)) ≤ MAX_SDK_INSTRUMENTS
}.

Lemma meter_ok_default names : registry_ok names InstrumentRegistry_default.
Proof.
  split; cbn; try done; [|set_solver]. intros key id. rewrite lookup_empty. split; [done|].
  by intros (? & ? & ?).
Qed.

Lemma register_spec_ok names spec r :
  checked names spec → registry_ok names r → registry_ok names (register_spec spec r).2.
Proof.
  intros Hspec [Hids Hfam Hck Hlen]. unfold register_spec.
  destruct (family_conflicts spec r) eqn:Hconf; [done|].
  destruct (ids r !! series_key spec) as [id|] eqn:Hkey; [done|].
  destruct (N.leb_spec MAX_SDK_INSTRUMENTS (N.of_nat (length (instruments r)))); [done|].
  destruct (2 ^ 32 <=? _); [done|]. cbn. split; cbn.
  - intros key id. destruct (decide (key = series_key spec)) as [->|Hne].
    + rewrite lookup_insert_eq. split.
      * intros [= <-]. exists spec. rewrite Nat2N.id. by rewrite lookup_app_r, Nat.sub_diag.
      * intros (spec' & Hin & Hk). f_equal.
        apply lookup_app_Some in Hin as [Hin|[Hge Hin]].
        { assert (ids r !! series_key spec = Some id) by (apply Hids; eauto). congruence. }
        apply list_lookup_singleton_Some in Hin as [Hz _]. lia.
    + rewrite lookup_insert_ne by done. rewrite Hids. split.
      * intros (spec' & Hin & Hk). exists spec'. split; [|done]. by apply lookup_app_l_Some.
      * intros (spec' & Hin & Hk). exists spec'. split; [|done].
        apply lookup_app_Some in Hin as [Hin|[_ Hin]]; [done|].
        apply list_lookup_singleton_Some in Hin as [_ <-]. done.
  - intros spec' [Hin|Hin%list_elem_of_singleton]%elem_of_app.
    + pose proof (Hfam spec' Hin) as Hf. destruct (decide (spec_name spec' = spec_name spec)) as [Hn|Hn].
      * rewrite Hn, lookup_insert_eq. unfold family_conflicts in Hconf. rewrite <-Hn, Hf in Hconf.
        apply orb_false_iff in Hconf as [H1%negb_false_iff%bool_decide_eq_true H2%negb_false_iff%bool_decide_eq_true].
        by rewrite H1, H2.
      * by rewrite lookup_insert_ne.
    + subst. by rewrite lookup_insert_eq.
  - apply Forall_app. split; [done|]. by apply Forall_singleton.
  - rewrite length_app. cbn [length]. lia.
Qed.

Section Theorems.
Context `{JsonText InstrumentSpec}.
Context (names : list string).

(** Every text of a document is UTF-8. *)
Definition texts_utf8 : Prop :=
  ∀ document spec, from_str document = Some spec →
    Forall (λ label, utf8_valid (tag_value label) = true) (spec_labels spec).

Lemma register_ok document r :
  texts_utf8 → registry_ok names r → registry_ok names (register names document r).2.
Proof.
  intros Htext Hr. unfold register. destruct (from_str document) as [spec|] eqn:Hspec; [|done].
  destruct (validate names spec) as [[]|] eqn:Hv; [|done]. apply register_spec_ok; [|done].
  split; [done|]. eapply Forall_impl; [by eapply Htext|]. intros label. by rewrite utf8_valid_text.
Qed.

Lemma register_all_ok documents r :
  texts_utf8 → registry_ok names r → registry_ok names (register_all names documents r).
Proof.
  intros Htext. revert r. induction documents as [|document documents IH]; intros r Hr; [done|].
  cbn. by apply IH, register_ok.
Qed.

(** What a registration that succeeded means: the identifier is of that very
    series, no other identifier is, and the series registered before keep theirs. *)
Record registered (spec : InstrumentSpec) (id : N) (r r' : InstrumentRegistry) : Prop := {
  rg_bound : ∃ first, instruments r' !! N.to_nat id = Some first ∧
    same_series first spec ∧ spec_description first = spec_description spec;
  rg_unique other first : instruments r' !! N.to_nat other = Some first →
    same_series first spec → other = id;
  rg_stable : instruments r `prefix_of` instruments r';
  rg_bounded : id < MAX_SDK_INSTRUMENTS
}.

Lemma register_spec_registered spec id r :
  checked names spec → registry_ok names r → (register_spec spec r).1 = Ok id →
  registered spec id r (register_spec spec r).2.
Proof.
  intros Hspec Hr Hok. pose proof (register_spec_ok names spec r Hspec Hr) as Hr'.
  assert (∃ first, instruments (register_spec spec r).2 !! N.to_nat id = Some first ∧
    same_series first spec ∧ spec_description first = spec_description spec) as Hbound.
  { revert Hok. unfold register_spec. destruct (family_conflicts spec r) eqn:Hconf; [done|].
    destruct (ids r !! series_key spec) as [id'|] eqn:Hkey.
    - intros [= ->]. apply (ro_ids _ _ Hr) in Hkey as (first & Hin & Hkey). exists first. split; [done|].
      assert (checked names first) as Hfirst.
      { eapply Forall_lookup_1; [apply (ro_checked _ _ Hr)|done]. }
      apply (series_key_inj names) in Hkey as (Hk & Hn & Hl); [|done..]. split; [done|].
      pose proof (ro_families _ _ Hr first (list_elem_of_lookup_2 _ _ _ Hin)) as Hf.
      unfold family_conflicts in Hconf. rewrite <-Hn, Hf in Hconf.
      by apply orb_false_iff in Hconf as [_ ?%negb_false_iff%bool_decide_eq_true].
    - destruct (_ <=? _); [done|]. destruct (2 ^ 32 <=? _); [done|]. intros [= <-]. exists spec. cbn.
      rewrite Nat2N.id, lookup_app_r, Nat.sub_diag by done. done. }
  split; [done| | |].
  - intros other first Hin Hsame. destruct Hbound as (first' & Hin' & Hsame' & _).
    assert (∀ i f, instruments (register_spec spec r).2 !! N.to_nat i = Some f → same_series f spec →
      ids (register_spec spec r).2 !! series_key spec = Some i) as Hid.
    { intros i f Hf Hs. apply (ro_ids _ _ Hr'). exists f. split; [done|]. apply (series_key_inj names); [|done..].
      eapply Forall_lookup_1; [apply (ro_checked _ _ Hr')|done]. }
    pose proof (Hid other first Hin Hsame). pose proof (Hid id first' Hin' Hsame'). congruence.
  - unfold register_spec. destruct (family_conflicts spec r); [done|].
    destruct (ids r !! _); [done|]. repeat (destruct (_ <=? _); [done|]). cbn. by apply prefix_app_r.
  - destruct Hbound as (first & Hin%lookup_lt_Some & _). pose proof (ro_length _ _ Hr'). lia.
Qed.

(** A metric series is registered once.  After any documents, a registration that
    succeeds returns an identifier below 1024 of exactly its kind, name, labels and
    description, no other identifier is of that series, so asking twice gives the
    same one and different series never share one, and those given out before stay. *)
Theorem series_registered_once documents document id spec :
  texts_utf8 →
  let r := register_all names documents InstrumentRegistry_default in
  from_str document = Some spec → (register names document r).1 = Ok id →
  registered spec id r (register names document r).2.
Proof.
  intros Htext r Hspec. unfold register. rewrite Hspec.
  destruct (validate names spec) as [[]|] eqn:Hv; [|done]. apply register_spec_registered.
  - split; [done|]. eapply Forall_impl; [by eapply Htext|]. intros label. by rewrite utf8_valid_text.
  - apply register_all_ok; [done|apply meter_ok_default].
Qed.

End Theorems.

(** ** Recording *)

(** A value is recorded exactly for a registered series, and a negative one only
    for an up-down counter. *)
Lemma record_accepts id value r :
  (record id value r).1 = STATUS_OK ↔
  ∃ spec, instruments r !! N.to_nat id = Some spec ∧
    (spec_kind spec = Kind_UpDownCounter ∨ (0 ≤ value)%Z).
Proof.
  unfold record. destruct (instruments r !! N.to_nat id) as [spec|]; [|split; [done|naive_solver]].
  destruct (Z.ltb_spec value 0), (spec_kind spec) eqn:Hk; cbn;
    (split; [intros Hok; try done; by eauto|]); intros (spec' & [= <-] & [?|?]); try done; try congruence; lia.
Qed.

(** A reader whose documents are the names of counters without labels. *)
Definition counter_named (name : string) : InstrumentSpec := mkInstrumentSpec Kind_Counter name "" [].

Definition counter_reader : JsonText InstrumentSpec :=
  {| from_str := λ document, Some (counter_named document); to_string := λ spec, Some (spec_name spec) |}.

Lemma series_registered_once_witness :
  let r := register_all (H := counter_reader) [] ["tasks"; "polls"; "tasks"] InstrumentRegistry_default in
  length (instruments r) = 2%nat ∧
  registered (counter_named "retries") 2 r (register (H := counter_reader) [] "retries" r).2.
Proof.
  split; [reflexivity|].
  apply (series_registered_once (H := counter_reader) [] ["tasks"; "polls"; "tasks"] "retries" 2);
    [|reflexivity|reflexivity].
  intros document spec [= <-]. constructor.
Defined.
