(* ===== verification/Scrapes.v ===== *)
(** * The scrape endpoint

    The accept loop, the relays and the over-cap rejections of
    src/rust/core-bridge/src/telemetry.rs.  The endpoint is one state; what the
    sockets, the clock, the descriptor table and Core's own server do are the
    events of its step function.  Each event runs one task from an await to the
    next, so that every interleaving of the tasks is a sequence of events.  The
    model is the Unix build, where the reserve holds descriptors. *)

From S2P Require Import Prelude.
From stdpp Require Import gmap list strings.
Local Open Scope N_scope.

(** ** Limits, in milliseconds and bytes *)

Definition ACCEPT_RETRY_MIN : N := 10.
Definition ACCEPT_RETRY_MAX : N := 1000.
Definition REQUEST_HEAD_TIMEOUT : N := 5000.
Definition REQUEST_HEAD_MAX_BYTES : nat := 8 * 1024.
Definition FIRST_RESPONSE_TIMEOUT : N := 5000.
Definition MAX_CONCURRENT_SCRAPES : nat := 8.
Definition MAX_PENDING_REJECTIONS : nat := 16.
Definition REJECTION_TIMEOUT : N := 1000.
Definition RELAY_IDLE_TIMEOUT : N := 10000.
Definition RELAY_MAX_LIFETIME : N := 60000.
Definition RESERVED_DESCRIPTORS : nat := 3.

(** The body of an answer; each ends with a newline in the code. *)
Inductive Answer := INCOMPLETE_BODY | STOPPED_BODY | STARVED_BODY | BUSY_BODY.

Definition Bytes : Type := list byte.

(** ** Request heads *)

Definition CRLFCRLF : Bytes := [x0d; x0a; x0d; x0a].

(** [windows(4).any(|window| window == CRLFCRLF)]. *)
Fixpoint has_blank_line (s : Bytes) : bool :=
  bool_decide (take 4 s = CRLFCRLF)
  || match s with [] => false | _ :: s => has_blank_line s end.

Inductive RequestHead := Head_Complete (head : Bytes) | Head_Incomplete | Head_Empty.

(** The condition of the loop of [read_request_head]. *)
Definition reads_on (head : Bytes) : bool :=
  (length head <? REQUEST_HEAD_MAX_BYTES)%nat && negb (has_blank_line head).

(** What [read_request_head] makes of the bytes it has when the loop or its timeout ends. *)
Definition classify_head (head : Bytes) : RequestHead :=
  if bool_decide (head = []) then Head_Empty
  else if has_blank_line head then Head_Complete head
  else Head_Incomplete.

(** ** State *)

Inductive ErrorKind := ConnectionAborted | ConnectionReset | Interrupted | OtherKind.

Definition connection_scoped (kind : ErrorKind) : bool :=
  match kind with
  | ConnectionAborted | ConnectionReset | Interrupted => true
  | OtherKind => false
  end.

Inductive AcceptPoint := Accepting | Sleeping (until : N) | Aborted.
#[export] Instance AcceptPoint_eq_dec : EqDecision AcceptPoint.
Proof. solve_decision. Defined.

Record RelayShared := mkShared {
  core_finished : bool;
  stop_reported : bool;
  held : nat;
  holder : option N;
  relay_slots : nat;
  rejection_slots : nat;
  busy_reported : bool
}.

(** The awaits of [relay_scrape]. *)
Inductive RelayPoint :=
| R_Spawned
| R_Head (started : N)
| R_Lock
| R_Connect
| R_Send
| R_First (started : N)
| R_Deliver (first : Bytes)
| R_Copy (client_open core_open : bool) (step_started : N)
| R_Answer (answer : Answer).

(** A relay, with the bytes read from and written to each side. *)
Record Relay := mkRelay {
  point : RelayPoint;
  deadline : N;
  from_client : Bytes;
  to_core : Bytes;
  from_core : Bytes;
  to_client : Bytes
}.

(** The awaits of [reject_busy]. *)
Inductive RejectionPoint := J_Spawned | J_Head (started : N) (head : Bytes) | J_Answer (started : N).

Inductive LogRecord :=
| Log_Busy (warning : bool) | Log_Skipped | Log_AcceptFailed (retry_ms : N)
| Log_Stopped | Log_Starved | Log_Unreachable.

(** [connects], [ended] and [log] are history: the connects to Core with the spares
    held just before, the relays that ended, the records written. *)
Record Endpoint := mkEndpoint {
  now : N;
  retry : N;
  accept_point : AcceptPoint;
  shared : RelayShared;
  relays : gmap N Relay;
  rejections : gmap N RejectionPoint;
  next_task : N;
  connects : list (N * nat);
  ended : list Relay;
  log : list LogRecord
}.

(** What [start_metrics] spawns, with the reserve its first [refill] filled. *)
Definition endpoint_start (spares : nat) : Endpoint := {|
  now := 0; retry := ACCEPT_RETRY_MIN; accept_point := Accepting;
  shared := {| core_finished := false; stop_reported := false; held := spares; holder := None;
               relay_slots := MAX_CONCURRENT_SCRAPES; rejection_slots := MAX_PENDING_REJECTIONS;
               busy_reported := false |};
  relays := ∅; rejections := ∅; next_task := 0; connects := []; ended := []; log := []
|}.

Definition set_shared (s : RelayShared) (e : Endpoint) : Endpoint :=
  mkEndpoint (now e) (retry e) (accept_point e) s (relays e) (rejections e) (next_task e)
    (connects e) (ended e) (log e).
Definition set_relays (rs : gmap N Relay) (e : Endpoint) : Endpoint :=
  mkEndpoint (now e) (retry e) (accept_point e) (shared e) rs (rejections e) (next_task e)
    (connects e) (ended e) (log e).
Definition set_rejections (js : gmap N RejectionPoint) (e : Endpoint) : Endpoint :=
  mkEndpoint (now e) (retry e) (accept_point e) (shared e) (relays e) js (next_task e)
    (connects e) (ended e) (log e).
Definition set_accept (ms : N) (p : AcceptPoint) (e : Endpoint) : Endpoint :=
  mkEndpoint (now e) ms p (shared e) (relays e) (rejections e) (next_task e) (connects e) (ended e) (log e).
Definition take_task (e : Endpoint) : Endpoint :=
  mkEndpoint (now e) (retry e) (accept_point e) (shared e) (relays e) (rejections e)
    (next_task e + 1) (connects e) (ended e) (log e).
Definition add_connect (id : N) (spares : nat) (e : Endpoint) : Endpoint :=
  mkEndpoint (now e) (retry e) (accept_point e) (shared e) (relays e) (rejections e) (next_task e)
    (connects e ++ [(id, spares)]) (ended e) (log e).
Definition add_ended (r : Relay) (e : Endpoint) : Endpoint :=
  mkEndpoint (now e) (retry e) (accept_point e) (shared e) (relays e) (rejections e) (next_task e)
    (connects e) (ended e ++ [r]) (log e).
Definition add_log (record : LogRecord) (e : Endpoint) : Endpoint :=
  mkEndpoint (now e) (retry e) (accept_point e) (shared e) (relays e) (rejections e) (next_task e)
    (connects e) (ended e) (log e ++ [record]).
Definition elapse (ms : N) (e : Endpoint) : Endpoint :=
  mkEndpoint (now e + ms) (retry e) (accept_point e) (shared e) (relays e) (rejections e)
    (next_task e) (connects e) (ended e) (log e).

Definition set_reserve (n : nat) (h : option N) (s : RelayShared) : RelayShared :=
  mkShared (core_finished s) (stop_reported s) n h (relay_slots s) (rejection_slots s)
    (busy_reported s).
Definition set_slots (relay rejection : nat) (s : RelayShared) : RelayShared :=
  mkShared (core_finished s) (stop_reported s) (held s) (holder s) relay rejection
    (busy_reported s).
Definition set_reported (stop busy : bool) (s : RelayShared) : RelayShared :=
  mkShared (core_finished s) stop (held s) (holder s) (relay_slots s) (rejection_slots s) busy.
Definition finish_core (s : RelayShared) : RelayShared :=
  mkShared true (stop_reported s) (held s) (holder s) (relay_slots s) (rejection_slots s)
    (busy_reported s).

Definition at_point (p : RelayPoint) (r : Relay) : Relay :=
  mkRelay p (deadline r) (from_client r) (to_core r) (from_core r) (to_client r).
Definition put (id : N) (r : Relay) (e : Endpoint) : Endpoint := set_relays (<[id := r]> (relays e)) e.

(** ** The accept loop *)

Definition report_busy (e : Endpoint) : Endpoint :=
  let s := shared e in
  set_shared (set_reported (stop_reported s) true s) (add_log (Log_Busy (negb (busy_reported s))) e).

Definition spawn_relay (e : Endpoint) : Endpoint :=
  let s := shared e in
  take_task (put (next_task e) (mkRelay R_Spawned 0 [] [] [] [])
    (set_shared (set_slots (relay_slots s - 1) (rejection_slots s) s) e)).

Definition spawn_rejection (e : Endpoint) : Endpoint :=
  let s := shared e in
  take_task (set_rejections (<[next_task e := J_Spawned]> (rejections e))
    (set_shared (set_slots (relay_slots s) (rejection_slots s - 1) s) e)).

(** [serve_scrapes]: what follows an accepted connection. *)
Definition accept_ok (e : Endpoint) : Endpoint :=
  let e := set_accept ACCEPT_RETRY_MIN Accepting e in
  if (0 <? relay_slots (shared e))%nat then spawn_relay e
  else
    let e := report_busy e in
    if (0 <? rejection_slots (shared e))%nat then spawn_rejection e else e.

(** [serve_scrapes]: what follows an accept error. *)
Definition accept_err (kind : ErrorKind) (e : Endpoint) : Endpoint :=
  if connection_scoped kind then add_log Log_Skipped e
  else set_accept (retry e) (Sleeping (now e + retry e)) (add_log (Log_AcceptFailed (retry e)) e).

(** [serve_scrapes]: the sleep is over. *)
Definition accept_retry (e : Endpoint) : Endpoint :=
  set_accept (N.min (retry e * 2) ACCEPT_RETRY_MAX) Accepting e.

(** The drop of [MetricsExporter] aborts the accept loop and Core's server; a relay
    that runs keeps running. *)
Definition drop_exporter (e : Endpoint) : Endpoint :=
  set_shared (finish_core (shared e)) (set_accept (retry e) Aborted e).

(** ** The descriptor reserve *)

(** [DescriptorReserve::refill] when [opens] more descriptors can be opened: what it
    holds then. *)
Definition refill (opens spares : nat) : nat :=
  (spares + Nat.min opens (RESERVED_DESCRIPTORS - spares))%nat.

Definition full (spares : nat) : bool := (RESERVED_DESCRIPTORS <=? spares)%nat.

(** [reserve.refill(); drop(reserve)]. *)
Definition refill_and_unlock (opens : nat) (e : Endpoint) : Endpoint :=
  set_shared (set_reserve (refill opens (held (shared e))) None (shared e)) e.

Definition report_stopped (e : Endpoint) : Endpoint :=
  let s := shared e in
  set_shared (set_reported true (busy_reported s) s)
    (if stop_reported s then e else add_log Log_Stopped e).

(** ** One relay *)

(** The end of the task, which drops the permit. *)
Definition end_relay (id : N) (r : Relay) (e : Endpoint) : Endpoint :=
  let s := shared e in
  add_ended r (set_relays (delete id (relays e))
    (set_shared (set_slots (relay_slots s + 1) (rejection_slots s) s) e)).

Definition head_done (id : N) (r : Relay) (e : Endpoint) : Endpoint :=
  match classify_head (from_client r) with
  | Head_Complete _ => put id (at_point R_Lock r) e
  | Head_Empty => end_relay id r e
  | Head_Incomplete => put id (at_point (R_Answer INCOMPLETE_BODY) r) e
  end.

(** From the lock of the reserve to the connect. *)
Definition reserve_locked (id : N) (opens : nat) (r : Relay) (e : Endpoint) : Endpoint :=
  let s := shared e in
  if core_finished s then put id (at_point (R_Answer STOPPED_BODY) r) (report_stopped e)
  else
    let spares := refill opens (held s) in
    if full spares then
      put id (at_point R_Connect r) (add_connect id spares (set_shared (set_reserve 0 (Some id) s) e))
    else
      put id (at_point (R_Answer STARVED_BODY) r)
        (add_log Log_Starved (set_shared (set_reserve spares None s) e)).

Definition connect_failed (id : N) (opens : nat) (r : Relay) (e : Endpoint) : Endpoint :=
  let e := refill_and_unlock opens e in
  if core_finished (shared e) then put id (at_point (R_Answer STOPPED_BODY) r) (report_stopped e)
  else put id (at_point (R_Answer STARVED_BODY) r) (add_log Log_Unreachable e).

(** [first_read]: [None] for the elapsed timeout, [Some []] for a closed or failed stream. *)
Definition first_done (id : N) (opens : nat) (first_read : option Bytes) (r : Relay) (e : Endpoint) : Endpoint :=
  let e := refill_and_unlock opens e in
  match first_read with
  | Some [] => end_relay id r e
  | Some first =>
      put id (mkRelay (R_Deliver first) (deadline r) (from_client r) (to_core r)
                (from_core r ++ first) (to_client r)) e
  | None => put id (at_point (R_Copy true true (now e)) r) e
  end.

(** One side's bytes forwarded to the other, and what the step of [relay_until_idle]
    leaves: [None] when the relay ends. *)
Definition copied (chunk : Bytes) (sent : nat) (client_open core_open : bool) (e : Endpoint) : option RelayPoint :=
  if (length chunk <=? sent)%nat && (client_open || core_open)
  then Some (R_Copy client_open core_open (now e)) else None.

Definition settle (id : N) (p : option RelayPoint) (r : Relay) (e : Endpoint) : Endpoint :=
  match p with Some p => put id (at_point p r) e | None => end_relay id r e end.

(** An abort drops the task's locals, the guard of the reserve among them. *)
Definition abort_relay (id : N) (r : Relay) (e : Endpoint) : Endpoint :=
  let s := shared e in
  end_relay id r
    (if bool_decide (holder s = Some id) then set_shared (set_reserve (held s) None s) e else e).

(** What the world does to a relay at its await.  [X_Read] with no bytes is the end of
    the stream or an error; a write names how many of its bytes were taken. *)
Inductive RelayEvent :=
| X_Poll
| X_Read (chunk : Bytes)
| X_Timer (opens : nat)
| X_Locked (opens : nat)
| X_Connected
| X_ConnectFailed (opens : nat)
| X_Sent (sent : nat) (opens : nat)
| X_First (first : Bytes) (opens : nat)
| X_Delivered (sent : nat)
| X_FromClient (chunk : Bytes) (sent : nat)
| X_FromCore (chunk : Bytes) (sent : nat)
| X_CopyFailed
| X_Answered
| X_Abort.

Definition head_chunk : nat := 1024.
Definition RELAY_BUFFER_BYTES : nat := 8 * 1024.

(** [relay_scrape], one await at a time. *)
Definition relay_scrape (id : N) (r : Relay) (x : RelayEvent) (e : Endpoint) : option Endpoint :=
  match x, point r with
  | X_Poll, R_Spawned =>
      Some (put id (mkRelay (R_Head (now e)) (now e + RELAY_MAX_LIFETIME) [] [] [] []) e)
  | X_Read chunk, R_Head started =>
      guard (length chunk <= head_chunk)%nat;;
      let r := mkRelay (point r) (deadline r) (from_client r ++ chunk) (to_core r) (from_core r) (to_client r) in
      if bool_decide (chunk ≠ []) && reads_on (from_client r) then Some (put id r e)
      else Some (head_done id r e)
  | X_Timer _, R_Head started =>
      guard (started + REQUEST_HEAD_TIMEOUT <= now e);; Some (head_done id r e)
  | X_Locked opens, R_Lock => guard (holder (shared e) = None);; Some (reserve_locked id opens r e)
  | X_Connected, R_Connect => Some (put id (at_point R_Send r) e)
  | X_ConnectFailed opens, R_Connect => Some (connect_failed id opens r e)
  | X_Sent sent opens, R_Send =>
      let r := mkRelay (point r) (deadline r) (from_client r) (take sent (from_client r)) (from_core r) (to_client r) in
      if (length (from_client r) <=? sent)%nat then Some (put id (at_point (R_First (now e)) r) e)
      else Some (first_done id opens (Some []) r e)
  | X_First first opens, R_First _ =>
      guard (length first <= RELAY_BUFFER_BYTES)%nat;; Some (first_done id opens (Some first) r e)
  | X_Timer opens, R_First started =>
      guard (started + FIRST_RESPONSE_TIMEOUT <= now e);; Some (first_done id opens None r e)
  | X_Delivered sent, R_Deliver first =>
      let r := mkRelay (point r) (deadline r) (from_client r) (to_core r) (from_core r) (to_client r ++ take sent first) in
      Some (settle id (copied first sent true true e) r e)
  | X_FromClient chunk sent, R_Copy true core_open _ =>
      guard (length chunk <= RELAY_BUFFER_BYTES)%nat;;
      let r := mkRelay (point r) (deadline r) (from_client r ++ chunk) (to_core r ++ take sent chunk) (from_core r) (to_client r) in
      Some (settle id (copied chunk sent (bool_decide (chunk ≠ [])) core_open e) r e)
  | X_FromCore chunk sent, R_Copy client_open true _ =>
      guard (length chunk <= RELAY_BUFFER_BYTES)%nat;;
      let r := mkRelay (point r) (deadline r) (from_client r) (to_core r) (from_core r ++ chunk) (to_client r ++ take sent chunk) in
      Some (settle id (copied chunk sent client_open (bool_decide (chunk ≠ [])) e) r e)
  | X_CopyFailed, R_Copy _ _ _ => Some (end_relay id r e)
  | X_Timer _, R_Copy _ _ step_started =>
      guard (step_started + RELAY_IDLE_TIMEOUT <= now e \/ deadline r <= now e);;
      Some (end_relay id r e)
  | X_Answered, R_Answer _ => Some (end_relay id r e)
  | X_Abort, _ => Some (abort_relay id r e)
  | _, _ => None
  end.

(** The end of a rejection's task, which drops its permit. *)
Definition end_rejection (id : N) (e : Endpoint) : Endpoint :=
  let s := shared e in
  set_rejections (delete id (rejections e))
    (set_shared (set_slots (relay_slots s) (rejection_slots s + 1) s) e).

Definition put_rejection (id : N) (p : RejectionPoint) (e : Endpoint) : Endpoint :=
  set_rejections (<[id := p]> (rejections e)) e.

Definition rejection_head_done (id started : N) (head : Bytes) (e : Endpoint) : Endpoint :=
  match classify_head head with
  | Head_Empty => end_rejection id e
  | _ => put_rejection id (J_Answer started) e
  end.

Inductive RejectionEvent :=
| Y_Poll | Y_Read (chunk : Bytes) | Y_HeadTimer | Y_Timer | Y_Answered | Y_Abort.

(** [reject_busy], one await at a time. *)
Definition reject_busy (id : N) (p : RejectionPoint) (y : RejectionEvent) (e : Endpoint) : option Endpoint :=
  match y, p with
  | Y_Poll, J_Spawned => Some (put_rejection id (J_Head (now e) []) e)
  | Y_Read chunk, J_Head started head =>
      guard (length chunk <= head_chunk)%nat;;
      let head := head ++ chunk in
      if bool_decide (chunk ≠ []) && reads_on head then Some (put_rejection id (J_Head started head) e)
      else Some (rejection_head_done id started head e)
  | Y_HeadTimer, J_Head started head =>
      guard (started + REQUEST_HEAD_TIMEOUT <= now e);; Some (rejection_head_done id started head e)
  | Y_Timer, J_Head started _ | Y_Timer, J_Answer started =>
      guard (started + REJECTION_TIMEOUT <= now e);; Some (end_rejection id e)
  | Y_Answered, J_Answer _ => Some (end_rejection id e)
  | Y_Abort, _ => Some (end_rejection id e)
  | _, _ => None
  end.

Inductive Event :=
| Ev_Elapse (ms : N)
| Ev_Accept
| Ev_AcceptErr (kind : ErrorKind)
| Ev_Retry
| Ev_CoreStops
| Ev_DropExporter
| Ev_Relay (id : N) (x : RelayEvent)
| Ev_Rejection (id : N) (y : RejectionEvent).

Definition endpoint_step (e : Endpoint) (ev : Event) : option Endpoint :=
  match ev with
  | Ev_Elapse ms => Some (elapse ms e)
  | Ev_Accept => guard (accept_point e = Accepting);; Some (accept_ok e)
  | Ev_AcceptErr kind => guard (accept_point e = Accepting);; Some (accept_err kind e)
  | Ev_Retry =>
      match accept_point e with
      | Sleeping until => guard (until <= now e);; Some (accept_retry e)
      | _ => None
      end
  | Ev_CoreStops => Some (set_shared (finish_core (shared e)) e)
  | Ev_DropExporter => Some (drop_exporter e)
  | Ev_Relay id x => r ← relays e !! id; relay_scrape id r x e
  | Ev_Rejection id y => p ← rejections e !! id; reject_busy id p y e
  end.

Fixpoint run (e : Endpoint) (evs : list Event) : option Endpoint :=
  match evs with
  | [] => Some e
  | ev :: evs => e ← endpoint_step e ev; run e evs
  end.

(** ** The invariant *)

(** Between the release of the reserve and its refill. *)
Definition in_window (p : RelayPoint) : bool :=
  match p with R_Connect | R_Send | R_First _ => true | _ => false end.

Definition head_ok (head : Bytes) : Prop :=
  has_blank_line head = true /\ (length head < REQUEST_HEAD_MAX_BYTES + head_chunk)%nat.

(** The bytes of a relay at each await. *)
Definition relay_ok (r : Relay) : Prop :=
  match point r with
  | R_Spawned => from_client r = [] /\ to_core r = [] /\ from_core r = [] /\ to_client r = []
  | R_Head _ =>
      reads_on (from_client r) = true /\ to_core r = [] /\ from_core r = [] /\ to_client r = []
  | R_Lock | R_Connect | R_Send =>
      head_ok (from_client r) /\ to_core r = [] /\ from_core r = [] /\ to_client r = []
  | R_First _ =>
      head_ok (from_client r) /\ to_core r = from_client r /\ from_core r = [] /\ to_client r = []
  | R_Deliver first =>
      head_ok (from_client r) /\ to_core r = from_client r /\ from_core r = first /\ to_client r = []
  | R_Copy _ _ _ =>
      has_blank_line (from_client r) = true
      /\ to_core r = from_client r /\ to_client r = from_core r
  | R_Answer _ => to_core r = [] /\ to_client r = []
  end.

(** What holds of the bytes of every relay, also of one that ended. *)
Definition faithful (r : Relay) : Prop :=
  to_core r `prefix_of` from_client r /\ to_client r `prefix_of` from_core r
  /\ (to_core r ≠ [] -> has_blank_line (from_client r) = true).

Definition window_ok (e : Endpoint) : Prop :=
  match holder (shared e) with
  | None => forall id r, relays e !! id = Some r -> in_window (point r) = false
  | Some h =>
      held (shared e) = 0%nat
      /\ (exists r, relays e !! h = Some r /\ in_window (point r) = true)
      /\ forall id r, relays e !! id = Some r -> in_window (point r) = true -> id = h
  end.

Record endpoint_ok (e : Endpoint) : Prop := {
  ok_relay_slots : (relay_slots (shared e) + size (relays e) = MAX_CONCURRENT_SCRAPES)%nat;
  ok_rejection_slots :
    (rejection_slots (shared e) + size (rejections e) = MAX_PENDING_REJECTIONS)%nat;
  ok_held : (held (shared e) <= RESERVED_DESCRIPTORS)%nat;
  ok_retry : ACCEPT_RETRY_MIN <= retry e <= ACCEPT_RETRY_MAX;
  ok_sleep : forall until, accept_point e = Sleeping until -> until <= now e + ACCEPT_RETRY_MAX;
  ok_fresh_relay : forall id, next_task e <= id -> relays e !! id = None;
  ok_fresh_rejection : forall id, next_task e <= id -> rejections e !! id = None;
  ok_window : window_ok e;
  ok_connects : Forall (fun c => c.2 = RESERVED_DESCRIPTORS) (connects e);
  ok_relays : map_Forall (fun _ r => relay_ok r) (relays e);
  ok_ended : Forall faithful (ended e)
}.

Lemma start_ok spares :
  (spares <= RESERVED_DESCRIPTORS)%nat -> endpoint_ok (endpoint_start spares).
Proof.
  intros. split; cbn; try done; try (intros; apply lookup_empty).
Qed.

Lemma blank_line_app s t : has_blank_line s = true -> has_blank_line (s ++ t) = true.
Proof.
  induction s as [|b s IH]; [done|]. cbn [has_blank_line].
  intros [H%bool_decide_eq_true|H]%orb_true_iff.
  - apply orb_true_iff. left. apply bool_decide_eq_true. rewrite <- H.
    assert (4 <= length (b :: s))%nat by (apply (f_equal length) in H; rewrite length_take in H;
        change (length CRLFCRLF) with 4%nat in H; lia).
    change (take 4 ((b :: s) ++ t) = take 4 (b :: s)). by apply take_app_le.
  - cbn [app has_blank_line]. apply orb_true_iff. right. auto.
Qed.

Lemma relay_ok_faithful r : relay_ok r -> faithful r.
Proof.
  unfold relay_ok, faithful. destruct (point r); intros H; destruct_and?; simplify_eq;
    repeat match goal with E : ?f r = _ |- _ => rewrite E end;
    repeat split; auto using prefix_nil; try done; try (unfold head_ok in *; naive_solver).
Qed.

(** ** Preservation *)

#[local] Ltac keep H := destruct H; split; cbn in *; try done.

#[local] Ltac at_put := intros ? ? [[<- <-]|[? ?]]%lookup_insert_Some; [|eauto].
#[local] Ltac at_end := intros ? ? [? ?]%lookup_delete_Some; eauto.

Lemma size_put {A} (m : gmap N A) id x y : m !! id = Some x -> size (<[id := y]> m) = size m.
Proof. intros H. by rewrite map_size_insert_Some by eauto. Qed.

Lemma size_end {A} (m : gmap N A) id x n k :
  m !! id = Some x -> (n + size m = k)%nat -> (n + 1 + size (delete id m) = k)%nat.
Proof.
  intros H Hk. rewrite map_size_delete_Some by eauto.
  assert (size m ≠ 0%nat) by (intros ->%map_size_empty_inv; by rewrite lookup_empty in H). lia.
Qed.

Lemma refill_bounded opens spares :
  (spares <= RESERVED_DESCRIPTORS)%nat -> (refill opens spares <= RESERVED_DESCRIPTORS)%nat.
Proof. unfold refill. lia. Qed.

Lemma fresh_put {A} (m : gmap N A) id x y k :
  m !! id = Some x -> (forall i, k <= i -> m !! i = None) ->
  forall i, k <= i -> <[id := y]> m !! i = None.
Proof. intros H Hf i Hi. apply lookup_insert_None. split; [auto|]. intros ->. rewrite Hf in H; done. Qed.

Lemma fresh_end {A} (m : gmap N A) id k :
  (forall i, k <= i -> m !! i = None) -> forall i, k <= i -> delete id m !! i = None.
Proof. intros Hf i Hi. apply lookup_delete_None. auto. Qed.

(** The window when relay [id] moves, within it or outside it. *)
Lemma window_put e id r r' :
  window_ok e -> relays e !! id = Some r -> in_window (point r') = in_window (point r) ->
  window_ok (put id r' e).
Proof.
  unfold window_ok. cbn. intros Hw Hr Hp. destruct (holder (shared e)) as [h|].
  - destruct Hw as (H0 & (x & Hx & Hxw) & Hu). split_and!; [done| |].
    + destruct (decide (h = id)) as [->|]; [exists r'|exists x].
      * rewrite lookup_insert_eq. split; [done|]. congruence.
      * by rewrite lookup_insert_ne.
    + at_put. rewrite Hp. eauto.
  - at_put. rewrite Hp. eauto.
Qed.

Lemma window_end e id r r' :
  window_ok e -> relays e !! id = Some r -> in_window (point r) = false ->
  window_ok (end_relay id r' e).
Proof.
  unfold window_ok. cbn. intros Hw Hr Hp. destruct (holder (shared e)) as [h|].
  - destruct Hw as (H0 & (x & Hx & Hxw) & Hu). split_and!; [done| |].
    + exists x. split; [|done]. apply lookup_delete_Some. split; [|done]. intros ->. congruence.
    + at_end.
  - at_end.
Qed.

(** The relay in the window is the holder, and the others are outside. *)
Lemma window_others e id r :
  window_ok e -> relays e !! id = Some r -> in_window (point r) = true ->
  holder (shared e) = Some id
  /\ forall i x, i ≠ id -> relays e !! i = Some x -> in_window (point x) = false.
Proof.
  unfold window_ok. intros Hw Hr Hp. destruct (holder (shared e)) as [h|]; [|by rewrite (Hw _ _ Hr) in Hp].
  destruct Hw as (_ & _ & Hu). assert (id = h) as -> by eauto. split; [done|].
  intros i x Hi Hx. destruct (in_window (point x)) eqn:E; [|done]. by destruct (Hi (Hu _ _ Hx E)).
Qed.

Lemma put_ok e id r r' :
  endpoint_ok e -> relays e !! id = Some r -> relay_ok r' ->
  in_window (point r') = in_window (point r) -> endpoint_ok (put id r' e).
Proof.
  intros H Hr Hr' Hp. pose proof (window_put _ _ _ r' (ok_window _ H) Hr Hp). keep H.
  - by erewrite size_put.
  - by eapply fresh_put.
  - by apply map_Forall_insert_2.
Qed.

Lemma end_ok e id r r' :
  endpoint_ok e -> relays e !! id = Some r -> in_window (point r) = false -> faithful r' ->
  endpoint_ok (end_relay id r' e).
Proof.
  intros H Hr Hp Hf. pose proof (window_end _ _ _ r' (ok_window _ H) Hr Hp). keep H.
  - by eapply size_end.
  - by apply fresh_end.
  - by apply map_Forall_delete.
  - apply Forall_app. by split; [|constructor].
Qed.

Lemma unlock_put_ok e id opens r r' :
  endpoint_ok e -> relays e !! id = Some r -> in_window (point r) = true -> relay_ok r' ->
  in_window (point r') = false -> endpoint_ok (put id r' (refill_and_unlock opens e)).
Proof.
  intros H Hr Hp Hr' Hp'. destruct (window_others _ _ _ (ok_window _ H) Hr Hp) as [_ Ho]. keep H.
  - by erewrite size_put.
  - by apply refill_bounded.
  - by eapply fresh_put.
  - unfold window_ok. cbn. by at_put.
  - by apply map_Forall_insert_2.
Qed.

Lemma unlock_end_ok e id n r r' :
  endpoint_ok e -> relays e !! id = Some r -> in_window (point r) = true -> faithful r' ->
  (n <= RESERVED_DESCRIPTORS)%nat ->
  endpoint_ok (end_relay id r' (set_shared (set_reserve n None (shared e)) e)).
Proof.
  intros H Hr Hp Hf Hn. destruct (window_others _ _ _ (ok_window _ H) Hr Hp) as [_ Ho]. keep H.
  - by eapply size_end.
  - by apply fresh_end.
  - unfold window_ok. cbn. by at_end.
  - by apply map_Forall_delete.
  - apply Forall_app. by split; [|constructor].
Qed.

Lemma add_log_ok e record : endpoint_ok e -> endpoint_ok (add_log record e).
Proof. intros H. keep H. Qed.

Lemma reported_ok e stop busy :
  endpoint_ok e -> endpoint_ok (set_shared (set_reported stop busy (shared e)) e).
Proof. intros H. keep H. Qed.

Lemma report_stopped_ok e : endpoint_ok e -> endpoint_ok (report_stopped e).
Proof. intros H. unfold report_stopped. destruct (stop_reported (shared e)); keep H. Qed.

Lemma abort_ok e id r :
  endpoint_ok e -> relays e !! id = Some r -> endpoint_ok (abort_relay id r e).
Proof.
  intros H Hr. pose proof (relay_ok_faithful _ (ok_relays _ H _ _ Hr)) as Hf.
  unfold abort_relay. case_bool_decide as Hh.
  - eapply unlock_end_ok; eauto; [|apply (ok_held _ H)].
    pose proof (ok_window _ H) as Hw. unfold window_ok in Hw. rewrite Hh in Hw.
    destruct Hw as (_ & (x & Hx & ?) & _). by simplify_eq.
  - eapply end_ok; eauto. destruct (in_window (point r)) eqn:E; [|done].
    by destruct (window_others _ _ _ (ok_window _ H) Hr E).
Qed.

(** [relay_ok] of a head that was read. *)
Lemma head_done_ok e id r r' :
  endpoint_ok e -> relays e !! id = Some r -> in_window (point r) = false ->
  (length (from_client r') < REQUEST_HEAD_MAX_BYTES + head_chunk)%nat ->
  to_core r' = [] -> from_core r' = [] -> to_client r' = [] ->
  endpoint_ok (head_done id r' e).
Proof.
  intros H Hr Hp Hl Hc Hf Ht. unfold head_done, classify_head.
  case_bool_decide; [|destruct (has_blank_line (from_client r')) eqn:Hb].
  - eapply end_ok; eauto. unfold faithful. rewrite Hc, Ht. auto using prefix_nil.
  - eapply put_ok; eauto. unfold relay_ok, head_ok; cbn. auto.
  - eapply put_ok; eauto. by unfold relay_ok; cbn.
Qed.

Lemma reserve_locked_ok e id opens r :
  endpoint_ok e -> relays e !! id = Some r -> point r = R_Lock ->
  holder (shared e) = None -> endpoint_ok (reserve_locked id opens r e).
Proof.
  intros H Hr Hp Hh. pose proof (ok_relays _ H _ _ Hr) as Hok. unfold relay_ok in Hok.
  rewrite Hp in Hok. pose proof (refill_bounded opens _ (ok_held _ H)).
  unfold reserve_locked. destruct (core_finished (shared e)).
  { eapply (put_ok _ _ r); [by apply report_stopped_ok| | |by rewrite Hp].
    - unfold report_stopped. by destruct (stop_reported (shared e)).
    - unfold relay_ok; cbn. tauto. }
  pose proof (ok_window _ H) as Hw. unfold window_ok in Hw. rewrite Hh in Hw.
  destruct (full (refill opens (held (shared e)))) eqn:Hfull.
  - apply Nat.leb_le in Hfull. keep H.
    + by erewrite size_put.
    + lia.
    + by eapply fresh_put.
    + split_and!; [done|by exists (at_point R_Connect r); rewrite lookup_insert_eq|].
      intros i x [[<- <-]|[? Hx]]%lookup_insert_Some; [done|]. by rewrite (Hw _ _ Hx).
    + apply Forall_app. split; [done|]. constructor; [cbn; lia|done].
    + apply map_Forall_insert_2; [|done]. by unfold relay_ok; cbn.
  - eapply (put_ok _ _ r); [|done|unfold relay_ok; cbn; tauto|by rewrite Hp].
    apply add_log_ok. keep H.
Qed.

Lemma first_done_ok e id opens first r r' :
  endpoint_ok e -> relays e !! id = Some r -> in_window (point r) = true -> faithful r' ->
  head_ok (from_client r') -> from_core r' = [] -> to_client r' = [] ->
  (first ≠ Some [] -> to_core r' = from_client r') ->
  endpoint_ok (first_done id opens first r' e).
Proof.
  intros H Hr Hp Hf Hh Hc Ht Hto. unfold first_done. destruct first as [[|b first]|].
  - unfold refill_and_unlock. eapply unlock_end_ok; eauto. apply refill_bounded, H.
  - eapply unlock_put_ok; eauto. unfold relay_ok; cbn. rewrite Hc. auto.
  - eapply unlock_put_ok; eauto. unfold relay_ok; cbn. rewrite Hc, Ht.
    destruct Hh. auto.
Qed.

Lemma connect_failed_ok e id opens r :
  endpoint_ok e -> relays e !! id = Some r -> point r = R_Connect ->
  endpoint_ok (connect_failed id opens r e).
Proof.
  intros H Hr Hp. pose proof (ok_relays _ H _ _ Hr) as Hok. unfold relay_ok in Hok.
  rewrite Hp in Hok.
  assert (forall a, endpoint_ok (put id (at_point (R_Answer a) r) (refill_and_unlock opens e))) as Hput.
  { intros a. eapply unlock_put_ok; eauto; [by rewrite Hp|]. unfold relay_ok; cbn. tauto. }
  unfold connect_failed. destruct (core_finished _).
  - specialize (Hput STOPPED_BODY). unfold report_stopped. cbn.
    destruct (stop_reported (shared e)); keep Hput.
  - specialize (Hput STARVED_BODY). keep Hput.
Qed.

(** A copied chunk keeps both directions equal, or ends the relay with a prefix. *)
Lemma settle_ok e id r r' chunk sent co uo :
  endpoint_ok e -> relays e !! id = Some r -> in_window (point r) = false -> faithful r' ->
  ((length chunk <= sent)%nat -> to_core r' = from_client r' /\ to_client r' = from_core r') ->
  has_blank_line (from_client r') = true ->
  endpoint_ok (settle id (copied chunk sent co uo e) r' e).
Proof.
  intros H Hr Hp Hf Heq Hb. unfold settle, copied.
  destruct (Nat.leb_spec (length chunk) sent); cbn; [|by eapply end_ok].
  destruct (co || uo); [|by eapply end_ok]. eapply put_ok; eauto. unfold relay_ok; cbn. split; auto.
Qed.

Lemma reads_on_short head : reads_on head = true -> (length head < REQUEST_HEAD_MAX_BYTES)%nat.
Proof. unfold reads_on. intros [?%Nat.ltb_lt _]%andb_true_iff. done. Qed.

Lemma prefix_take {A} (n : nat) (l : list A) : take n l `prefix_of` l.
Proof. exists (drop n l). by rewrite take_drop. Qed.

(** A chunk read from one side and written, in full or in part, to the other. *)
Lemma copied_ok e id r chunk sent c u c' u' t :
  endpoint_ok e -> relays e !! id = Some r -> point r = R_Copy c u t ->
  endpoint_ok (settle id (copied chunk sent c' u' e)
    (mkRelay (point r) (deadline r) (from_client r ++ chunk) (to_core r ++ take sent chunk)
       (from_core r) (to_client r)) e)
  /\ endpoint_ok (settle id (copied chunk sent c' u' e)
    (mkRelay (point r) (deadline r) (from_client r) (to_core r) (from_core r ++ chunk)
       (to_client r ++ take sent chunk)) e).
Proof.
  intros H Hr Hp. pose proof (ok_relays _ H _ _ Hr) as Hok. unfold relay_ok in Hok.
  rewrite Hp in Hok. destruct Hok as (Hb & H1 & H2).
  split; (eapply settle_ok; eauto; try (by rewrite Hp)); unfold faithful; cbn; rewrite ?H1, ?H2;
    try (intros ?; by rewrite take_ge);
    split_and?; auto using prefix_app, prefix_take, blank_line_app.
Qed.

Lemma head_read_ok e id r chunk started :
  endpoint_ok e -> relays e !! id = Some r -> point r = R_Head started ->
  (length chunk <= head_chunk)%nat ->
  let r' := mkRelay (point r) (deadline r) (from_client r ++ chunk) (to_core r) (from_core r) (to_client r) in
  endpoint_ok (if bool_decide (chunk ≠ []) && reads_on (from_client r') then put id r' e
               else head_done id r' e).
Proof.
  intros H Hr Hp Hl r'. pose proof (ok_relays _ H _ _ Hr) as Hok. unfold relay_ok in Hok.
  rewrite Hp in Hok. destruct Hok as (Hon & H1 & H2 & H3).
  destruct (_ && _) eqn:Hc.
  - apply andb_true_iff in Hc as [_ Hc]. eapply put_ok; eauto. unfold relay_ok. cbn. by rewrite Hp.
  - eapply head_done_ok; eauto; [by rewrite Hp|].
    change (from_client r') with (from_client r ++ chunk). rewrite length_app.
    apply reads_on_short in Hon. lia.
Qed.

Lemma sent_ok e id r sent opens :
  endpoint_ok e -> relays e !! id = Some r -> point r = R_Send ->
  let r' := mkRelay (point r) (deadline r) (from_client r) (take sent (from_client r)) (from_core r) (to_client r) in
  endpoint_ok (if (length (from_client r') <=? sent)%nat
               then put id (at_point (R_First (now e)) r') e
               else first_done id opens (Some []) r' e).
Proof.
  intros H Hr Hp r'. pose proof (ok_relays _ H _ _ Hr) as Hok. unfold relay_ok in Hok.
  rewrite Hp in Hok. destruct Hok as ([Hb Hl] & H1 & H2 & H3).
  change (from_client r') with (from_client r).
  destruct (Nat.leb_spec (length (from_client r)) sent).
  - eapply put_ok; eauto; [|by rewrite Hp]. unfold relay_ok, head_ok. cbn. by rewrite take_ge.
  - eapply first_done_ok; eauto; [by rewrite Hp| |by split|done].
    unfold faithful. cbn. rewrite H2, H3. auto using prefix_take, prefix_nil.
Qed.

Lemma delivered_ok e id r first sent :
  endpoint_ok e -> relays e !! id = Some r -> point r = R_Deliver first ->
  let r' := mkRelay (point r) (deadline r) (from_client r) (to_core r) (from_core r) (to_client r ++ take sent first) in
  endpoint_ok (settle id (copied first sent true true e) r' e).
Proof.
  intros H Hr Hp r'. pose proof (ok_relays _ H _ _ Hr) as Hok. unfold relay_ok in Hok.
  rewrite Hp in Hok. destruct Hok as ([Hb Hl] & H1 & H2 & H3).
  eapply settle_ok; eauto; [by rewrite Hp| |].
  - unfold faithful. cbn. rewrite H1, H2, H3.
    split_and!; [done|apply prefix_take|done].
  - intros ?. cbn. rewrite H1, H2, H3. by rewrite take_ge.
Qed.

Lemma some_if {A} (b : bool) (x y z : A) :
  (if b then Some x else Some y) = Some z -> z = if b then x else y.
Proof. by destruct b; intros [= ->]. Qed.

Lemma relay_scrape_ok e id r x e' :
  endpoint_ok e -> relays e !! id = Some r -> relay_scrape id r x e = Some e' -> endpoint_ok e'.
Proof.
  intros H Hr Hs. pose proof (ok_relays _ H _ _ Hr) as Hok.
  pose proof (relay_ok_faithful _ Hok) as Hf. pose proof Hok as Hb. unfold relay_ok in Hb.
  unfold relay_scrape in Hs.
  destruct x, (point r) as [|t| | | |t|bs|[] [] t|] eqn:Hp;
    try discriminate Hs; repeat (apply bind_Some in Hs as (? & _ & Hs));
    try (injection Hs as <-); rewrite <- ?Hp;
    eauto using abort_ok, connect_failed_ok, reserve_locked_ok, delivered_ok;
    try (by eapply copied_ok); try (by eapply end_ok; rewrite ?Hp).
  - eapply put_ok; eauto; [done|by rewrite Hp].
  - apply some_if in Hs as ->. rewrite <- Hp. by eapply head_read_ok.
  - destruct Hb as (Hon%reads_on_short & ? & ? & ?). eapply head_done_ok; eauto; [by rewrite Hp|lia].
  - destruct Hb as (? & ? & ? & ?).
    eapply (first_done_ok _ _ _ None); eauto. by rewrite Hp.
  - eapply put_ok; eauto. by rewrite Hp.
  - apply some_if in Hs as ->. rewrite <- Hp. by eapply sent_ok.
  - destruct Hb as (? & ? & ? & ?).
    eapply (first_done_ok _ _ _ (Some first)); eauto. by rewrite Hp.
Qed.

Lemma rejection_ok e id p y e' :
  endpoint_ok e -> rejections e !! id = Some p -> reject_busy id p y e = Some e' -> endpoint_ok e'.
Proof.
  intros H Hp Hs.
  assert (forall p', endpoint_ok (put_rejection id p' e)) as Hput.
  { intros p'. keep H; [by erewrite size_put|by eapply fresh_put]. }
  assert (endpoint_ok (end_rejection id e)) as Hend.
  { keep H; [by eapply size_end|by apply fresh_end]. }
  assert (forall t head, endpoint_ok (rejection_head_done id t head e)) as Hhead.
  { intros t head. unfold rejection_head_done. by destruct (classify_head head). }
  unfold reject_busy in Hs.
  destruct y, p; try discriminate Hs; repeat (apply bind_Some in Hs as (? & _ & Hs));
    try (apply some_if in Hs as ->; by destruct (_ && _)); by injection Hs as <-.
Qed.

Lemma accept_ok_ok e : endpoint_ok e -> endpoint_ok (accept_ok e).
Proof.
  intros H. unfold accept_ok.
  assert (endpoint_ok (set_accept ACCEPT_RETRY_MIN Accepting e)) as H1 by keep H.
  revert H1. generalize (set_accept ACCEPT_RETRY_MIN Accepting e). clear. intros e H.
  destruct (Nat.ltb_spec 0 (relay_slots (shared e))) as [Hs|_].
  - pose proof (ok_fresh_relay _ H _ (N.le_refl _)) as Hn. pose proof (ok_window _ H) as Hw.
    keep H.
    + rewrite map_size_insert_None by done. lia.
    + intros id ?. apply lookup_insert_None. split; [apply ok_fresh_relay0|]; lia.
    + intros id ?. apply ok_fresh_rejection0. lia.
    + unfold window_ok in *. cbn. destruct (holder (shared e)).
      * destruct Hw as (? & (x & Hx & ?) & ?). split_and!; [done| |].
        { exists x. rewrite lookup_insert_ne by congruence. done. }
        at_put. done.
      * at_put. done.
    + by apply map_Forall_insert_2.
  - assert (endpoint_ok (report_busy e)) as H1 by keep H. revert H1.
    generalize (report_busy e). clear. intros e H.
    destruct (Nat.ltb_spec 0 (rejection_slots (shared e))) as [Hs|_]; [|done].
    pose proof (ok_fresh_rejection _ H _ (N.le_refl _)) as Hn. keep H.
    + rewrite map_size_insert_None by done. lia.
    + intros id ?. apply ok_fresh_relay0. lia.
    + intros id ?. apply lookup_insert_None. split; [apply ok_fresh_rejection0|]; lia.
Qed.

Lemma step_ok e ev e' : endpoint_ok e -> endpoint_step e ev = Some e' -> endpoint_ok e'.
Proof.
  intros H Hs. destruct ev; cbn [endpoint_step] in Hs.
  - injection Hs as <-. keep H. intros u Hu. pose proof (ok_sleep0 _ Hu). lia.
  - apply bind_Some in Hs as (_ & _ & [= <-]). by apply accept_ok_ok.
  - apply bind_Some in Hs as (_ & _ & [= <-]). unfold accept_err.
    destruct (connection_scoped kind); keep H. intros u [= <-]. lia.
  - destruct (accept_point e); try done. apply bind_Some in Hs as (_ & _ & [= <-]).
    unfold accept_retry. keep H. unfold ACCEPT_RETRY_MIN, ACCEPT_RETRY_MAX in *. lia.
  - injection Hs as <-. keep H.
  - injection Hs as <-. keep H.
  - apply bind_Some in Hs as (r & Hr & Hs). by eapply relay_scrape_ok.
  - apply bind_Some in Hs as (p & Hp & Hs). by eapply rejection_ok.
Qed.

Lemma run_ok e evs e' : endpoint_ok e -> run e evs = Some e' -> endpoint_ok e'.
Proof.
  revert e. induction evs as [|ev evs IH]; intros e H Hr; cbn in Hr; [by simplify_eq|].
  apply bind_Some in Hr as (e1 & Hs & Hr). eauto using step_ok.
Qed.

(** ** What the endpoint promises *)

(** C25: Core's accept headroom.  In every interleaving of scrapes, timeouts, aborts and
    descriptor shortages, each connect to Core is made right after the whole reserve
    was held and released; at most one relay is between that release and the refill,
    it holds the lock of the reserve, and the request it carries is a complete head of
    bounded size. *)
Theorem core_connects_with_headroom spares evs e :
  (spares <= RESERVED_DESCRIPTORS)%nat -> run (endpoint_start spares) evs = Some e ->
  Forall (fun c => c.2 = RESERVED_DESCRIPTORS) (connects e)
  /\ forall id r, relays e !! id = Some r -> in_window (point r) = true ->
       holder (shared e) = Some id /\ held (shared e) = 0%nat /\ head_ok (from_client r)
       /\ forall id' r', relays e !! id' = Some r' -> in_window (point r') = true -> id' = id.
Proof.
  intros Hs Hr. pose proof (run_ok _ _ _ (start_ok _ Hs) Hr) as H.
  split; [apply H|]. intros id r Hid Hp.
  pose proof (ok_relays _ H _ _ Hid) as Hok. pose proof (ok_window _ H) as Hw.
  destruct (window_others _ _ _ Hw Hid Hp) as [Hh _].
  unfold window_ok in Hw. rewrite Hh in Hw. destruct Hw as (H0 & _ & Hu).
  split_and!; [done|done| |done].
  unfold relay_ok in Hok. destruct (point r); try done; apply Hok.
Qed.

(** C26: relays are byte-faithful.  Whatever happens to a relay, also when it is cut off by
    a timeout, a failed write or an abort, the bytes Core received are a prefix of the
    bytes the scraper sent, the bytes the scraper received from Core are a prefix of
    those Core sent, and Core receives nothing before a complete request head. *)
Theorem relays_byte_faithful spares evs e r :
  (spares <= RESERVED_DESCRIPTORS)%nat -> run (endpoint_start spares) evs = Some e ->
  ((exists id, relays e !! id = Some r) \/ r ∈ ended e) -> faithful r.
Proof.
  intros Hs Hr Hin. pose proof (run_ok _ _ _ (start_ok _ Hs) Hr) as H.
  destruct Hin as [[id Hid]|Hin].
  - apply relay_ok_faithful. by apply (ok_relays _ H id).
  - pose proof (ok_ended _ H) as Hf. rewrite Forall_forall in Hf. auto.
Qed.

(** The endpoint is bounded.  At most eight relays and sixteen rejections run at any
    time, each permit is either free or held by one running task, and a failed accept is
    retried within a second. *)
Theorem endpoint_bounded spares evs e :
  (spares <= RESERVED_DESCRIPTORS)%nat -> run (endpoint_start spares) evs = Some e ->
  (relay_slots (shared e) + size (relays e) = MAX_CONCURRENT_SCRAPES)%nat
  /\ (rejection_slots (shared e) + size (rejections e) = MAX_PENDING_REJECTIONS)%nat
  /\ (held (shared e) <= RESERVED_DESCRIPTORS)%nat
  /\ forall until, accept_point e = Sleeping until ->
       exists e', run e [Ev_Elapse ACCEPT_RETRY_MAX; Ev_Retry] = Some e'
                  /\ accept_point e' = Accepting /\ retry e' <= ACCEPT_RETRY_MAX.
Proof.
  intros Hs Hr. pose proof (run_ok _ _ _ (start_ok _ Hs) Hr) as H.
  split_and!; [apply H..|]. intros u Hp. pose proof (ok_sleep _ H _ Hp) as Hu.
  exists (accept_retry (elapse ACCEPT_RETRY_MAX e)). split_and!; [|done|apply N.le_min_r].
  cbn [run endpoint_step mbind option_bind]. cbn [accept_point elapse]. rewrite Hp.
  by rewrite option_guard_True.
Qed.

(** A scrape up to its forwarded head, and then cut off after part of a response. *)
Definition a_scrape : list Event :=
  [Ev_Accept; Ev_Relay 0 X_Poll; Ev_Relay 0 (X_Read [x47]); Ev_Relay 0 (X_Read CRLFCRLF);
   Ev_Relay 0 (X_Locked 0); Ev_Relay 0 X_Connected].

Definition a_cut_scrape : list Event :=
  a_scrape ++ [Ev_Relay 0 (X_Sent 5 3); Ev_Relay 0 (X_First [x4f; x4b] 3);
    Ev_Relay 0 (X_Delivered 2); Ev_Relay 0 (X_FromCore [x41; x42] 1)].

Definition after (evs : list Event) : Endpoint :=
  default (endpoint_start 0) (run (endpoint_start 3) evs).

Lemma core_connects_with_headroom_witness :
  exists r, relays (after a_scrape) !! 0 = Some r /\ in_window (point r) = true
    /\ connects (after a_scrape) = [(0, 3%nat)] /\ holder (shared (after a_scrape)) = Some 0
    /\ head_ok (from_client r).
Proof.
  eexists. split; [vm_compute; reflexivity|]. do 2 (split; [vm_compute; reflexivity|]).
  destruct (core_connects_with_headroom 3 a_scrape (after a_scrape)) as [_ H];
    [apply le_n|vm_compute; reflexivity|].
  edestruct (H 0) as (Hh & _ & Hk & _); [vm_compute; reflexivity..|]. split; assumption.
Defined.

Lemma relays_byte_faithful_witness :
  exists r, r ∈ ended (after a_cut_scrape) /\ to_client r = [x4f; x4b; x41] /\ faithful r.
Proof.
  eexists. split; [vm_compute; left|]. split; [reflexivity|].
  apply (relays_byte_faithful 3 a_cut_scrape (after a_cut_scrape));
    [apply le_n|vm_compute; reflexivity|]. right. vm_compute. left.
Defined.

(** Twenty-six connections at once, then an error that is not connection-scoped. *)
Definition a_flood : list Event := repeat Ev_Accept 26 ++ [Ev_AcceptErr OtherKind].

Lemma endpoint_bounded_witness :
  size (relays (after a_flood)) = 8%nat /\ size (rejections (after a_flood)) = 16%nat
  /\ exists e, run (after a_flood) [Ev_Elapse ACCEPT_RETRY_MAX; Ev_Retry] = Some e
               /\ accept_point e = Accepting.
Proof.
  do 2 (split; [vm_compute; reflexivity|]).
  destruct (endpoint_bounded 3 a_flood (after a_flood)) as (_ & _ & _ & H);
    [apply le_n|vm_compute; reflexivity|].
  destruct (H 10) as (e & He & Ha & _); [vm_compute; reflexivity|]. exists e. split; assumption.
Defined.
