(* ===== verification/Sigpipe.v ===== *)
(** * SIGPIPE containment

    src/rust/core-bridge/src/sigpipe.rs on Linux.  The signal calls of the C library
    are an interface: what a thread can observe of its signals, the calls the code
    makes, and the documented effect of each as laws.  [Thread] at the end is a
    reference implementation of the interface. *)

From S2P Require Import Prelude.
From stdpp Require Import gmap.
Local Open Scope N_scope.

Definition SIGPIPE : N := 13.

(** Where a SIGPIPE is directed: a failed write raises it for the writing thread,
    [kill -PIPE] for the process. *)
Inductive Target := ThisThread | WholeProcess.
#[export] Instance Target_eq_dec : EqDecision Target.
Proof. solve_decision. Defined.

Class Signals (K : Type) := {
  (* observations of the calling thread *)
  sig_mask : K -> gset N;
  sig_pending : Target -> K -> bool;
  sig_delivered : K -> nat;
  (* calls *)
  sigmask_block : gset N -> K -> option (gset N) * K;
  sigmask_set : gset N -> K -> K;
  sigtimedwait_now : gset N -> K -> K;
  (* the kernel *)
  raise : Target -> K -> K
}.

Definition count (b : bool) : nat := if b then 1 else 0.

(** The documented effects.  A standard signal does not queue; a blocked one stays
    pending; unblocking delivers what is pending. *)
Class SignalLaws (K : Type) `{Signals K} := {
  block_ok : forall s k old k', sigmask_block s k = (Some old, k') ->
    old = sig_mask k /\ sig_mask k' = sig_mask k ∪ s
    /\ (forall t, sig_pending t k' = sig_pending t k) /\ sig_delivered k' = sig_delivered k;
  block_failed : forall s k k', sigmask_block s k = (None, k') -> k' = k;
  set_mask : forall m k, sig_mask (sigmask_set m k) = m;
  set_blocked : forall m k, SIGPIPE ∈ m ->
    (forall t, sig_pending t (sigmask_set m k) = sig_pending t k)
    /\ sig_delivered (sigmask_set m k) = sig_delivered k;
  set_unblocked : forall m k, SIGPIPE ∉ m ->
    (forall t, sig_pending t (sigmask_set m k) = false)
    /\ sig_delivered (sigmask_set m k)
       = (sig_delivered k + count (sig_pending ThisThread k) + count (sig_pending WholeProcess k))%nat;
  wait_keeps : forall k, sig_mask (sigtimedwait_now {[SIGPIPE]} k) = sig_mask k
    /\ sig_delivered (sigtimedwait_now {[SIGPIPE]} k) = sig_delivered k;
  wait_thread : forall k, sig_pending ThisThread (sigtimedwait_now {[SIGPIPE]} k) = false;
  wait_process : forall k, sig_pending WholeProcess (sigtimedwait_now {[SIGPIPE]} k)
    = sig_pending ThisThread k && sig_pending WholeProcess k;
  raise_mask : forall t k, sig_mask (raise t k) = sig_mask k;
  raise_blocked : forall t k, SIGPIPE ∈ sig_mask k ->
    sig_pending t (raise t k) = true
    /\ (forall t', t' ≠ t -> sig_pending t' (raise t k) = sig_pending t' k)
    /\ sig_delivered (raise t k) = sig_delivered k
}.

Section Guard.
Context {K : Type} `{SignalLaws K}.

Definition sigpipe_set : gset N := {[SIGPIPE]}.

Definition block_current_thread (k : K) : K := (sigmask_block sigpipe_set k).2.

Definition blocked_in_current_thread (k : K) : bool :=
  match sigmask_block ∅ k with
  | (Some current, _) => bool_decide (SIGPIPE ∈ current)
  | (None, _) => false
  end.

Definition pending (k : K) : bool := sig_pending ThisThread k || sig_pending WholeProcess k.

Definition consume_pending (k : K) : K := sigtimedwait_now sigpipe_set k.

Record CallerGuard := { previous : option (gset N); was_pending : bool }.

(** The signals that arrive between two calls of the guard are arguments. *)
Fixpoint arrive (ts : list Target) (k : K) : K :=
  match ts with [] => k | t :: ts => arrive ts (raise t k) end.

Definition enter (late : list Target) (k : K) : CallerGuard * K :=
  let '(old, k) := sigmask_block sigpipe_set k in
  let k := arrive late k in
  let saved := match old with
    | Some old => if bool_decide (SIGPIPE ∈ old) then None else Some old
    | None => None
    end in
  ({| previous := saved; was_pending := bool_decide (is_Some saved) && pending k |}, k).

Definition drop_guard (guard : CallerGuard) (late : list Target) (k : K) : K :=
  match previous guard with
  | Some old =>
      let k := if negb (was_pending guard) && pending k then consume_pending k else k in
      sigmask_set old (arrive late k)
  | None => k
  end.

(** [contain]: the operation is the signals it raises and those that arrive meanwhile. *)
Definition contain (entering operation leaving : list Target) (k : K) : K :=
  let '(guard, k) := enter entering k in drop_guard guard leaving (arrive operation k).

(** ** Lemmas *)

Lemma arrive_mask ts k : sig_mask (arrive ts k) = sig_mask k.
Proof. revert k. induction ts as [|t ts IH]; intros k; cbn; [done|]. by rewrite IH, raise_mask. Qed.

Lemma arrive_blocked ts k :
  SIGPIPE ∈ sig_mask k ->
  sig_delivered (arrive ts k) = sig_delivered k
  /\ forall t, sig_pending t (arrive ts k) = sig_pending t k || bool_decide (t ∈ ts).
Proof.
  revert k. induction ts as [|t ts IH]; intros k Hk; cbn.
  { split; [done|]. intros t. by rewrite bool_decide_eq_false_2, orb_false_r by set_solver. }
  destruct (raise_blocked t k Hk) as (Hr & Ho & Hd).
  destruct (IH (raise t k)) as [Hd' Hp]; [by rewrite raise_mask|]. split; [congruence|].
  intros t'. rewrite Hp. destruct (decide (t' = t)) as [->|Hne].
  - rewrite Hr. rewrite (bool_decide_eq_true_2 (t ∈ t :: ts)) by left. by rewrite orb_true_r.
  - rewrite Ho by done. f_equal. apply bool_decide_ext. rewrite elem_of_cons. naive_solver.
Qed.

Lemma contain_unblocked entering operation leaving k old k1 :
  sigmask_block sigpipe_set k = (Some old, k1) -> SIGPIPE ∉ old ->
  contain entering operation leaving k
  = drop_guard {| previous := Some old; was_pending := pending (arrive entering k1) |} leaving
      (arrive operation (arrive entering k1)).
Proof.
  intros Hb Ho. unfold contain, enter. rewrite Hb. rewrite bool_decide_eq_false_2 by done.
  reflexivity.
Qed.

Lemma contain_mask entering operation leaving k :
  sig_mask (contain entering operation leaving k) = sig_mask k.
Proof.
  destruct (sigmask_block sigpipe_set k) as [[old|] k1] eqn:Hb.
  - destruct (block_ok _ _ _ _ Hb) as (-> & Hm & _). destruct (decide (SIGPIPE ∈ sig_mask k)).
    + unfold contain, enter. rewrite Hb, bool_decide_eq_true_2 by done. cbn.
      rewrite !arrive_mask, Hm. unfold sigpipe_set. set_solver.
    + rewrite (contain_unblocked _ _ _ _ _ _ Hb) by done. apply set_mask.
  - unfold contain, enter. rewrite Hb. cbn. rewrite !arrive_mask. by rewrite (block_failed _ _ _ Hb).
Qed.

(** A caller that blocks SIGPIPE keeps every signal pending. *)
Lemma contain_blocked entering operation leaving k old k1 :
  sigmask_block sigpipe_set k = (Some old, k1) -> SIGPIPE ∈ sig_mask k ->
  let k' := contain entering operation leaving k in
  sig_delivered k' = sig_delivered k
  /\ forall t, sig_pending t k' = sig_pending t k || bool_decide (t ∈ entering ++ operation).
Proof.
  intros Hb Hk. destruct (block_ok _ _ _ _ Hb) as (-> & Hm & Hp & Hd).
  unfold contain, enter. rewrite Hb, bool_decide_eq_true_2 by done. cbn.
  assert (SIGPIPE ∈ sig_mask k1) as Hk1 by (rewrite Hm; set_solver).
  destruct (arrive_blocked entering k1 Hk1) as [Hd1 Hp1].
  destruct (arrive_blocked operation (arrive entering k1)) as [Hd2 Hp2]; [by rewrite arrive_mask|].
  split; [congruence|]. intros t. rewrite Hp2, Hp1, Hp, <- orb_assoc. f_equal.
  apply eq_true_iff_eq. rewrite orb_true_iff, !bool_decide_eq_true. symmetry. apply elem_of_app.
Qed.

(** An unblocked caller sees at most the signal that is not the guard's. *)
Lemma contain_consumes operation k old k1 :
  sigmask_block sigpipe_set k = (Some old, k1) -> SIGPIPE ∉ sig_mask k -> pending k = false ->
  let k' := contain [] operation [] k in
  sig_delivered k'
  = (sig_delivered k + count (bool_decide (ThisThread ∈ operation /\ WholeProcess ∈ operation)))%nat
  /\ forall t, sig_pending t k' = false.
Proof.
  intros Hb Hk [Ht Hw]%orb_false_iff. destruct (block_ok _ _ _ _ Hb) as (-> & Hm & Hp & Hd).
  cbn. rewrite (contain_unblocked _ _ _ _ _ _ Hb) by done. unfold drop_guard, pending. cbn [arrive previous was_pending].
  assert (SIGPIPE ∈ sig_mask k1) as Hk1 by (rewrite Hm; unfold sigpipe_set; set_solver).
  destruct (arrive_blocked operation k1 Hk1) as [Hd2 Hp2].
  rewrite !Hp2, !Hp, Ht, Hw. cbn [orb negb andb].
  destruct (bool_decide (ThisThread ∈ operation) || bool_decide (WholeProcess ∈ operation)) eqn:Ho.
  - destruct (set_unblocked _ (consume_pending (arrive operation k1)) Hk) as [Hp3 Hd3].
    split; [|done]. rewrite Hd3. unfold consume_pending, sigpipe_set.
    destruct (wait_keeps (arrive operation k1)) as [_ ->]. rewrite wait_thread, wait_process.
    rewrite !Hp2, !Hp, Ht, Hw, bool_decide_and. cbn. lia.
  - destruct (set_unblocked _ (arrive operation k1) Hk) as [Hp3 Hd3]. split; [|done].
    apply orb_false_iff in Ho as [H1 H2]. rewrite Hd3, !Hp2, !Hp, Ht, Hw, bool_decide_and, H1, H2.
    cbn. lia.
Qed.

End Guard.

(** ** A reference implementation of the interface *)

Record Thread := mkThread {
  t_mask : gset N;
  t_thread : bool;
  t_process : bool;
  t_delivered : nat
}.

Definition thread_set (m : gset N) (k : Thread) : Thread :=
  if bool_decide (SIGPIPE ∈ m) then mkThread m (t_thread k) (t_process k) (t_delivered k)
  else mkThread m false false (t_delivered k + count (t_thread k) + count (t_process k)).

Definition thread_raise (t : Target) (k : Thread) : Thread :=
  if bool_decide (SIGPIPE ∈ t_mask k) then
    match t with
    | ThisThread => mkThread (t_mask k) true (t_process k) (t_delivered k)
    | WholeProcess => mkThread (t_mask k) (t_thread k) true (t_delivered k)
    end
  else mkThread (t_mask k) (t_thread k) (t_process k) (t_delivered k + 1).

#[export] Instance Thread_signals : Signals Thread := {|
  sig_mask := t_mask;
  sig_pending t k := match t with ThisThread => t_thread k | WholeProcess => t_process k end;
  sig_delivered := t_delivered;
  sigmask_block s k :=
    (Some (t_mask k), mkThread (t_mask k ∪ s) (t_thread k) (t_process k) (t_delivered k));
  sigmask_set := thread_set;
  sigtimedwait_now s k :=
    mkThread (t_mask k) false (t_thread k && t_process k) (t_delivered k);
  raise := thread_raise
|}.

#[export] Instance Thread_laws : SignalLaws Thread.
Proof.
  split; cbn; unfold thread_set, thread_raise; intros; simplify_eq; cbn;
    repeat case_bool_decide; repeat match goal with t : Target |- _ => destruct t end;
    try done; split_and?; try done; by intros [].
Qed.

(** A write that fails with EPIPE, and a [kill -PIPE] meanwhile. *)
Definition a_caller : Thread := mkThread ∅ false false 0.

