(* ===== verification/Failures.v ===== *)
(** * Statuses and failures of the ABI

    The status codes of src/rust/core-bridge/src/abi.rs, the failures its operations
    share, and the mapping of the errors of each component to a failure. *)

From S2P Require Import Prelude.
From S2P Require Import Text.
From S2P Require Import Readiness.
From S2P Require Import PollLanes.
From S2P Require Import Protocol.
From S2P Require Import CoreConversion.
From S2P Require Import ClientTypes.
From S2P Require Import ClientDocuments.
From S2P Require Import Replay.
From S2P Require Import ReplayWorker.
From S2P Require Import ClientCalls.
From Stdlib Require Import String.
From stdpp Require Import strings.
Local Open Scope N_scope.

Definition STATUS_OK : N := 0.
Definition STATUS_INVALID_ARGUMENT : N := 1.
Definition STATUS_ABI_MISMATCH : N := 2.
Definition STATUS_CONNECTION : N := 7.
Definition STATUS_WORKER : N := 8.
Definition STATUS_OUTSTANDING_TASKS : N := 9.
Definition STATUS_PROTOCOL : N := 11.
Definition STATUS_ALREADY_STARTED : N := 12.
Definition STATUS_RETRYABLE : N := 13.
Definition STATUS_ASYNC_HEARTBEAT_REJECTED : N := 14.
Definition STATUS_RESOURCE_EXHAUSTED : N := 15.

(** ** Failures of the runtime graph *)

Definition runtime_closed : Failure :=
  mkFailure STATUS_INVALID_STATE "Temporal runtime is already closed".
Definition client_not_connected : Failure :=
  mkFailure STATUS_INVALID_STATE "Temporal client is not connected".
Definition worker_not_running : Failure :=
  mkFailure STATUS_INVALID_STATE "Temporal worker is not running".
Definition missing_worker_namespace : Failure :=
  mkFailure STATUS_INVALID_STATE "Temporal worker namespace is not available".
Definition not_ready : Failure := mkFailure STATUS_NOT_READY "no Temporal task is ready".
Definition client_wait_not_ready : Failure :=
  mkFailure STATUS_NOT_READY "Temporal workflow has not reached a close event; retry".

(** ** Errors of the components *)

Definition protocol_failure (_ : ProtocolError) : Failure :=
  mkFailure STATUS_PROTOCOL "Temporal semantic JSON failed validation".

Definition core_conversion_failure (error : CoreConversionError) : Failure :=
  mkFailure STATUS_PROTOCOL
    ("Temporal Core task cannot be represented safely: " +:+ ce_message error).

Definition worker_bridge_failure (error : WorkerBridgeError) : Failure :=
  mkFailure
    (match error with
     | OutstandingTasks _ => STATUS_OUTSTANDING_TASKS
     | RetryableActivityCompletion => STATUS_RETRYABLE
     | _ => STATUS_WORKER
     end)
    (public_worker_error_message error).

Definition poll_lane_failure (error : PollLaneError) : Failure :=
  mkFailure STATUS_WORKER (public_poll_lane_error_message error).

Definition shutdown_drain_failure (error : ShutdownDrainError) : Failure :=
  match error with
  | DrainLane error => poll_lane_failure error
  | DrainTimedOut =>
      mkFailure STATUS_WORKER "Temporal worker poll lanes did not stop within the shutdown bound"
  end.

Definition replay_worker_failure (error : ReplayWorkerError) : Failure :=
  match error with
  | FeederClosed => mkFailure STATUS_INVALID_STATE "Temporal replay history feeder is closed"
  | ReplayNotDrained _ _ _ =>
      mkFailure STATUS_OUTSTANDING_TASKS "Temporal replay worker has not drained all input"
  | InvalidReplayHistory input => mkFailure STATUS_PROTOCOL (abi_message input)
  | CoreInitialization => mkFailure STATUS_WORKER "Temporal replay worker construction failed"
  | ReplayPollLane _ => mkFailure STATUS_WORKER "Temporal replay poll lane failed"
  | ReplayFinalization _ => mkFailure STATUS_WORKER "Temporal replay worker finalization failed"
  | ReplayTimedOut _ =>
      mkFailure STATUS_WORKER "Temporal replay worker did not respond within its bound"
  end.

Definition client_operation_failure `{JsonText ClientErrorDocument} (error : ClientOperationError) :
    Failure :=
  mkFailure
    (match error with
     | Error_AlreadyStarted _ _ => STATUS_ALREADY_STARTED
     | Error_Rpc _ | Error_QueryFailed _ => STATUS_CONNECTION
     | Error_Core _ => STATUS_PROTOCOL
     end)
    (to_json error).

(** ** Documents *)

(** [String::into_bytes]. *)
Definition into_bytes (text : string) : list byte := list_byte_of_string text.

Definition decode_semantic_input (input : list byte) : result string Failure :=
  if MAX_DOCUMENT_BYTES <? bytes_len input
  then Err (mkFailure STATUS_PROTOCOL "Temporal semantic JSON exceeds the document limit")
  else
    let text := string_of_list_byte input in
    if utf8_valid text then Ok text
    else Err (mkFailure STATUS_PROTOCOL "Temporal semantic JSON is not UTF-8").

Definition encode_bytes (encoded : result string ProtocolError) : Operation :=
  match encoded with
  | Ok encoded => Ok (into_bytes encoded)
  | Err error => Err (protocol_failure error)
  end.
