(* ===== verification/AsyncActivity.v ===== *)
(** * Activities completed asynchronously

    The requests of src/rust/core-bridge/src/abi.rs for an activity that was handed
    off with WillCompleteAsync: their decoding, the one call each makes to the
    service, the classification of its failures, and the eviction of the token from
    the heartbeat throttle before a terminal request.  The service is a function from
    the message sent to its answer; what was sent is returned with the outcome. *)

From S2P Require Import Prelude.
From S2P Require Import Text.
From S2P Require Import Protocol.
From S2P Require Import ProtocolCodec.
From S2P Require Import WorkflowTypes.
From S2P Require Import CoreMessages.
From S2P Require Import WorkflowChecks.
From S2P Require Import Documents.
From S2P Require Import CoreConversion.
From S2P Require Import FailureConversion.
From S2P Require Import ActivityProtocol.
From S2P Require Import ActivityDocuments.
From S2P Require Import ClientTypes.
From S2P Require Import ClientStatus.
From S2P Require Import HeartbeatThrottle.
From S2P Require Import ClientCalls.
From S2P Require Import Failures.
Local Open Scope N_scope.
Local Open Scope bridge_scope.

Definition Payloads : Type := list Core.Payload.

(** ** Requests *)

Inductive AsyncActivityRequest :=
| Async_Completed (task_token : list byte) (result : option Payloads)
| Async_Failed (task_token : list byte) (failure : Core.Failure)
    (last_heartbeat_details : option Payloads)
| Async_Cancelled (task_token : list byte) (details : option Payloads)
| Async_Heartbeat (task_token : list byte) (details : option Payloads).

Definition task_token (request : AsyncActivityRequest) : list byte :=
  match request with
  | Async_Completed token _ | Async_Failed token _ _
  | Async_Cancelled token _ | Async_Heartbeat token _ => token
  end.

(** The timeout is its number of nanoseconds. *)
Record ThrottledHeartbeat := mkThrottledHeartbeat {
  th_task_token : list byte;
  th_details : option Payloads;
  th_heartbeat_timeout : option Z
}.

Definition async_payloads (values : list Payload) : result (option Payloads) ClientCalls.Failure :=
  match values with
  | [] => Ok None
  | _ =>
      let? payloads := map_err core_conversion_failure (try_map payload_to_core values) in
      Ok (Some payloads)
  end.

(** A [Duration] holds at most [u64::MAX] seconds and less than a second more. *)
Definition max_std_duration : Z := (2 ^ 64 * NANOS_PER_SEC - 1)%Z.

Definition std_duration (value : Duration) : result Z ClientCalls.Failure :=
  if (du_seconds value <? 0)%Z
  then Err (ClientCalls.mkFailure STATUS_PROTOCOL "duration must not be negative")
  else if (du_nanoseconds value <? 0)%Z
  then Err (ClientCalls.mkFailure STATUS_PROTOCOL
              "duration nanoseconds are outside protobuf range")
  else
    Ok (Z.min (du_seconds value * NANOS_PER_SEC + du_nanoseconds value)
          max_std_duration).

Section Decode.
Context `{SerdeJson} `{Base64} `{CoreEnums}.
Context `{Serde ActivityCompletion, Serde ActivityHeartbeat, Serde AsyncActivityHeartbeat}.

Definition decode_async_completion (text : string) : result AsyncActivityRequest ClientCalls.Failure :=
  let? semantic := map_err protocol_failure (ActivityDocuments.decode_completion text) in
  let? token := map_err protocol_failure (decode_token (cm_task_token semantic)) in
  match cm_result semantic with
  | Result_Completed payload =>
      let? payloads := async_payloads [payload] in Ok (Async_Completed token payloads)
  | Result_Failed failure =>
      let? failure := map_err core_conversion_failure (failure_to_core failure) in
      Ok (Async_Failed token failure None)
  | Result_Cancelled failure =>
      match f_info failure with
      | Info_Canceled details _ =>
          let? details := async_payloads details in Ok (Async_Cancelled token details)
      | _ =>
          Err (ClientCalls.mkFailure STATUS_PROTOCOL
                 "asynchronous activity cancellation must use a canceled failure")
      end
  | Result_WillCompleteAsync =>
      Err (ClientCalls.mkFailure STATUS_PROTOCOL
             "asynchronous activity completion cannot defer again")
  end.

Definition decode_async_heartbeat_request (text : string) :
    result AsyncActivityRequest ClientCalls.Failure :=
  let? semantic := map_err protocol_failure (decode_heartbeat text) in
  let? token := map_err protocol_failure (decode_token (hb_task_token semantic)) in
  let? details := async_payloads (hb_details semantic) in
  Ok (Async_Heartbeat token details).

Definition decode_throttled_heartbeat (text : string) :
    result ThrottledHeartbeat ClientCalls.Failure :=
  let? semantic := map_err protocol_failure (decode_async_heartbeat text) in
  let? token := map_err protocol_failure (decode_token (ah_task_token semantic)) in
  let? timeout := try_option std_duration (ah_heartbeat_timeout semantic) in
  let? details := async_payloads (ah_details semantic) in
  Ok (mkThrottledHeartbeat token details timeout).
End Decode.

(** ** The service *)

(** What is sent, with the identity and the namespace of the client. *)
Inductive ActivityRpc :=
| RespondCompleted (token : list byte) (result : option Payloads) (identity namespace : string)
| RespondFailed (token : list byte) (failure : Core.Failure)
    (last_heartbeat_details : option Payloads) (identity namespace : string)
| RespondCanceled (token : list byte) (details : option Payloads) (identity namespace : string)
| RecordHeartbeat (token : list byte) (details : option Payloads) (identity namespace : string).

(** The flags of a heartbeat's answer; a terminal response has none that is read. *)
Definition ActivityService : Type := ActivityRpc → result HeartbeatFlags Status.

Inductive AsyncActivityOperation := Op_Completion | Op_Heartbeat.

Definition label (operation : AsyncActivityOperation) : string :=
  match operation with Op_Completion => "completion" | Op_Heartbeat => "heartbeat" end.

Definition async_rpc_rejected (code : Code) : bool :=
  match code with
  | Code_InvalidArgument | Code_PermissionDenied | Code_FailedPrecondition | Code_OutOfRange
  | Code_Unimplemented | Code_Unauthenticated => true
  | _ => false
  end.

(** The client's error type has other variants, which the classification below does
    not make. *)
Inductive AsyncActivityError :=
| Async_NotFound (status : Status)
| Async_Rpc (status : Status)
| Async_Other.

Definition async_activity_rpc_error (status : Status) : AsyncActivityError :=
  match st_code status with Code_NotFound => Async_NotFound status | _ => Async_Rpc status end.

Definition async_activity_failure (operation : AsyncActivityOperation) (error : AsyncActivityError) :
    ClientCalls.Failure :=
  let prefix := "Temporal asynchronous activity " +:+ label operation in
  match error with
  | Async_NotFound _ => ClientCalls.mkFailure STATUS_INVALID_STATE (prefix +:+ " is no longer active")
  | Async_Rpc status =>
      if async_rpc_rejected (st_code status)
      then ClientCalls.mkFailure STATUS_ASYNC_HEARTBEAT_REJECTED (prefix +:+ " request was rejected")
      else ClientCalls.mkFailure STATUS_CONNECTION (prefix +:+ " failed")
  | Async_Other => ClientCalls.mkFailure STATUS_CONNECTION (prefix +:+ " failed")
  end.

Section Send.
Context (service : ActivityService) (identity namespace : string).

(** An outcome and what was sent for it, in order. *)
Definition Sends (A : Type) : Type := result A ClientCalls.Failure * list ActivityRpc.

Definition send_rpc (operation : AsyncActivityOperation) (rpc : ActivityRpc) : Sends HeartbeatFlags :=
  (map_err (λ status, async_activity_failure operation (async_activity_rpc_error status))
     (service rpc), [rpc]).

Definition discard {A} (sent : Sends A) : Sends () :=
  (match sent.1 with Ok _ => Ok () | Err failure => Err failure end, sent.2).

Definition send_async_heartbeat (token : list byte) (details : option Payloads) : Sends HeartbeatFlags :=
  send_rpc Op_Heartbeat (RecordHeartbeat token details identity namespace).

Definition send (request : AsyncActivityRequest) : Sends () :=
  match request with
  | Async_Completed token result =>
      discard (send_rpc Op_Completion (RespondCompleted token result identity namespace))
  | Async_Failed token failure details =>
      discard (send_rpc Op_Completion (RespondFailed token failure details identity namespace))
  | Async_Cancelled token details =>
      discard (send_rpc Op_Completion (RespondCanceled token details identity namespace))
  | Async_Heartbeat token details => discard (send_async_heartbeat token details)
  end.

(** The details [evict] returns: those of a token with a pending trailing heartbeat. *)
Definition evicted_details (token : list byte) (throttle : @ThrottleState Payloads) :
    option (option Payloads) :=
  match (evict token throttle).1 with
  | Some (pending, _) => pending
  | None => None
  end.

Definition send_evicting (request : AsyncActivityRequest)
    (throttle : @ThrottleState Payloads) : Sends () * @ThrottleState Payloads :=
  match request with
  | Async_Heartbeat _ _ => (send request, throttle)
  | _ =>
      let throttle' := (evict (task_token request) throttle).2 in
      match evicted_details (task_token request) throttle, request with
      | Some pending, Async_Failed token failure _ =>
          (send (Async_Failed token failure pending), throttle')
      | Some pending, Async_Cancelled token _ =>
          let flushed := send_async_heartbeat token pending in
          let sent := send request in
          ((sent.1, flushed.2 ++ sent.2), throttle')
      | _, _ => (send request, throttle')
      end
  end.
End Send.

(** ** Submitted calls *)

Definition ASYNC_ACTIVITY_NOT_FOUND_OUTCOME : list byte := into_bytes "not_found".

Definition submitted_async_activity_outcome (outcome : Operation) : Operation :=
  match outcome with
  | Ok body => Ok body
  | Err failure =>
      if ClientCalls.f_status failure =? STATUS_INVALID_STATE
      then Ok ASYNC_ACTIVITY_NOT_FOUND_OUTCOME
      else Err failure
  end.

Definition unbound_async_activity : ClientCalls.Failure :=
  ClientCalls.mkFailure STATUS_INTERNAL "asynchronous activity request has no worker binding".

Definition unknown_outcome : ClientCalls.Failure :=
  ClientCalls.mkFailure STATUS_CONNECTION "Temporal asynchronous activity heartbeat outcome is unknown".

Definition client_not_created : ClientCalls.Failure :=
  ClientCalls.mkFailure STATUS_CONNECTION "Temporal asynchronous activity client could not be created".

(** ** Theorems *)

(** The status of a failed request says what is known of the token: gone, live after a
    definite refusal, or unknown. *)
Lemma async_failure_status operation status :
  let failure := async_activity_failure operation (async_activity_rpc_error status) in
  (ClientCalls.f_status failure = STATUS_INVALID_STATE ↔ st_code status = Code_NotFound)
  ∧ (ClientCalls.f_status failure = STATUS_ASYNC_HEARTBEAT_REJECTED
     ↔ async_rpc_rejected (st_code status) = true).
Proof.
  unfold async_activity_failure, async_activity_rpc_error.
  destruct (st_code status) eqn:E; cbn; rewrite ?E; cbn; split; split; intros H; try done.
Qed.

Lemma evict_tokens token (throttle : @ThrottleState Payloads) :
  tokens (evict token throttle).2 = delete token (tokens throttle).
Proof. unfold evict. destruct (tokens throttle !! token) eqn:E; cbn; [done|by rewrite delete_id]. Qed.

(** A terminal request ends the throttling of its token and loses no details.  It sends
    exactly one terminal message for the token, as the last message; details that wait
    for a trailing heartbeat travel with a failure, are sent as a heartbeat before a
    cancellation and are dropped by a completion only; the token is no longer throttled,
    and no other token is touched. *)
Theorem terminal_request_keeps_details service identity namespace request throttle :
  let '((_, sent), throttle') := send_evicting service identity namespace request throttle in
  let token := task_token request in
  let pending := token_state ← tokens throttle !! token; ts_pending token_state in
  match request with
  | Async_Heartbeat _ details =>
      sent = [RecordHeartbeat token details identity namespace] ∧ throttle' = throttle
  | _ =>
      tokens throttle' = delete token (tokens throttle)
      ∧ sent =
        match request, pending with
        | Async_Completed _ result, _ => [RespondCompleted token result identity namespace]
        | Async_Failed _ failure _, Some details =>
            [RespondFailed token failure details identity namespace]
        | Async_Failed _ failure last, None =>
            [RespondFailed token failure last identity namespace]
        | Async_Cancelled _ details, Some unsent =>
            [RecordHeartbeat token unsent identity namespace;
             RespondCanceled token details identity namespace]
        | Async_Cancelled _ details, None => [RespondCanceled token details identity namespace]
        | Async_Heartbeat _ _, _ => []
        end
  end.
Proof.
  unfold send_evicting, evicted_details.
  pose proof (evict_tokens (task_token request) throttle) as He.
  destruct request as [token result|token failure last|token details|token details]; [..|done];
    cbn [task_token] in *; unfold evict in *; destruct (tokens throttle !! token) as [t|] eqn:Ht; cbn in *;
    try (destruct (ts_pending t) as [d|]); cbn; auto.
Qed.
