(* ===== verification/ClientRpc.v ===== *)
(** * Client calls by kind

    The closed selector of a submitted client operation in
    src/rust/core-bridge/src/abi.rs, the decoding of its request, the binding of an
    asynchronous activity request to its worker, and the outcome of its future.  The
    workflow service is a record of functions; the loops take the answers they get in
    order, and have no outcome while one is missing. *)

From S2P Require Import Prelude.
From S2P Require Import Text.
From S2P Require Import Protocol.
From S2P Require Import ProtocolCodec.
From S2P Require Import WorkflowTypes.
From S2P Require Import CoreMessages.
From S2P Require Import WorkflowChecks.
From S2P Require Import Documents.
From S2P Require Import CoreConversion.
From S2P Require Import FailureConversion.
From S2P Require Import ActivityProtocol.
From S2P Require Import ActivityDocuments.
From S2P Require Import ClientTypes.
From S2P Require Import ClientChecks.
From S2P Require Import ClientStatus.
From S2P Require Import ClientMessages.
From S2P Require Import ClientOperations.
From S2P Require Import ClientLoops.
From S2P Require Import ClientDocuments.
From S2P Require Import HeartbeatThrottle.
From S2P Require Import ClientCalls.
From S2P Require Import Failures.
From S2P Require Import AsyncActivity.
Local Open Scope N_scope.
Local Open Scope bridge_scope.

Inductive ClientCallKind :=
| Kind_Start | Kind_Wait | Kind_Cancel | Kind_Terminate | Kind_Reset | Kind_Signal | Kind_Query
| Kind_Update | Kind_PollUpdate | Kind_Visibility | Kind_AsyncActivityCompletion
| Kind_AsyncActivityHeartbeat | Kind_History.

Definition ClientCallKind_try_from (value : N) : result ClientCallKind Failure :=
  match value with
  | 1 => Ok Kind_Start
  | 2 => Ok Kind_Wait
  | 3 => Ok Kind_Cancel
  | 4 => Ok Kind_Terminate
  | 5 => Ok Kind_Reset
  | 6 => Ok Kind_Signal
  | 7 => Ok Kind_Query
  | 8 => Ok Kind_Update
  | 9 => Ok Kind_PollUpdate
  | 10 => Ok Kind_Visibility
  | 11 => Ok Kind_AsyncActivityCompletion
  | 12 => Ok Kind_AsyncActivityHeartbeat
  | 13 => Ok Kind_History
  | _ => Err (ClientCalls.mkFailure STATUS_INVALID_ARGUMENT "unknown Temporal client call kind")
  end.

(** The throttle of a binding is the runtime's, shared; it is passed as state. *)
Record AsyncActivityBinding := mkAsyncActivityBinding {
  ab_namespace : string;
  ab_intervals : HeartbeatIntervals;
  ab_max_throttled_tokens : nat
}.

Inductive ClientRpc :=
| Rpc_Start (request : StartWorkflowRequest)
| Rpc_Wait (request : WaitWorkflowRequest)
| Rpc_Cancel (request : CancelWorkflowRequest)
| Rpc_Terminate (request : TerminateWorkflowRequest)
| Rpc_Reset (request : ResetWorkflowRequest)
| Rpc_Signal (request : SignalWorkflowRequest)
| Rpc_Query (request : QueryWorkflowRequest)
| Rpc_Update (request : UpdateWorkflowRequest)
| Rpc_PollUpdate (request : PollWorkflowUpdateRequest)
| Rpc_Visibility (request : VisibilityRequest)
| Rpc_History (request : HistoryRequest)
| Rpc_AsyncActivity (request : AsyncActivityRequest) (binding : option AsyncActivityBinding)
| Rpc_AsyncHeartbeat (heartbeat : ThrottledHeartbeat) (binding : option AsyncActivityBinding).

Section Decode.
Context `{SerdeJson} `{Base64} `{CoreEnums}.
Context `{JsonText StartWorkflowRequest, JsonText WaitWorkflowRequest}.
Context `{JsonText CancelWorkflowRequest, JsonText TerminateWorkflowRequest}.
Context `{JsonText ResetWorkflowRequest, JsonText SignalWorkflowRequest}.
Context `{JsonText QueryWorkflowRequest, JsonText UpdateWorkflowRequest}.
Context `{JsonText PollWorkflowUpdateRequest, JsonText VisibilityRequest, JsonText HistoryRequest}.
Context `{Serde ActivityCompletion, Serde AsyncActivityHeartbeat}.

(** A decoded request, or the failure of its reader. *)
Definition decoded {A} (wrap : A → ClientRpc) (r : result A ProtocolError) : result ClientRpc Failure :=
  let? request := map_err protocol_failure r in Ok (wrap request).

Definition ClientRpc_decode (kind : ClientCallKind) (text : string) : result ClientRpc Failure :=
  match kind with
  | Kind_Start => decoded Rpc_Start (decode_start_request text)
  | Kind_Wait => decoded Rpc_Wait (decode_wait_request text)
  | Kind_Cancel => decoded Rpc_Cancel (decode_cancel_request text)
  | Kind_Terminate => decoded Rpc_Terminate (decode_terminate_request text)
  | Kind_Reset => decoded Rpc_Reset (decode_reset_request text)
  | Kind_Signal => decoded Rpc_Signal (decode_signal_request text)
  | Kind_Query => decoded Rpc_Query (decode_query_request text)
  | Kind_Update => decoded Rpc_Update (decode_update_request text)
  | Kind_PollUpdate => decoded Rpc_PollUpdate (decode_poll_update_request text)
  | Kind_Visibility => decoded Rpc_Visibility (decode_visibility_request text)
  | Kind_History => decoded Rpc_History (decode_history_request text)
  | Kind_AsyncActivityCompletion =>
      let? request := decode_async_completion text in Ok (Rpc_AsyncActivity request None)
  | Kind_AsyncActivityHeartbeat =>
      let? heartbeat := decode_throttled_heartbeat text in Ok (Rpc_AsyncHeartbeat heartbeat None)
  end.
End Decode.

Definition bind_async_activity (rpc : ClientRpc) (binding : result AsyncActivityBinding Failure) :
    result ClientRpc Failure :=
  match rpc with
  | Rpc_AsyncActivity request _ =>
      let? binding := binding in Ok (Rpc_AsyncActivity request (Some binding))
  | Rpc_AsyncHeartbeat heartbeat _ =>
      let? binding := binding in Ok (Rpc_AsyncHeartbeat heartbeat (Some binding))
  | other => Ok other
  end.

(** ** The future of a call *)

(** What a future has done: it waits, its task panicked, or it has its outcome. *)
Inductive Future := Waiting | Panicked | Finished (outcome : Operation).

(** The service as one call meets it.  [sv_first_reply] is the reply of the driver that
    sends the first heartbeat of a token, [None] when it was dropped. *)
Record Services (Event : Type) := mkServices {
  sv_start : CallRequest Service.StartRequest → Reply Service.StartResponse;
  sv_cancel : CallRequest Service.CancelRequest → Reply ();
  sv_terminate : CallRequest Service.TerminateRequest → Reply ();
  sv_reset : CallRequest Service.ResetRequest → Reply string;
  sv_signal : CallRequest Service.SignalRequest → Reply ();
  sv_query : CallRequest Service.QueryRequest → Reply Service.QueryResponse;
  sv_poll_update : CallRequest Service.PollUpdateRequest → Reply (option (option Service.OutcomeValue));
  sv_list : CallRequest Service.ListRequest → Reply Service.ListResponse;
  sv_update : list Attempt;
  sv_wait : list (result (Service.HistoryResponse Service.HistoryEvent) Status);
  sv_history : list (Reply (Service.HistoryResponse Event));
  sv_activity : ActivityService;
  sv_client_created : bool;
  sv_finished : N → bool;
  sv_first_reply : option (result HeartbeatFlags Failure)
}.
Arguments sv_start {Event}. Arguments sv_cancel {Event}. Arguments sv_terminate {Event}.
Arguments sv_reset {Event}. Arguments sv_signal {Event}. Arguments sv_query {Event}.
Arguments sv_poll_update {Event}. Arguments sv_list {Event}. Arguments sv_update {Event}.
Arguments sv_wait {Event}. Arguments sv_history {Event}. Arguments sv_activity {Event}.
Arguments sv_client_created {Event}. Arguments sv_finished {Event}. Arguments sv_first_reply {Event}.

Section Futures.
Context `{SerdeJson} `{Base64} `{CoreEnums, ClientEnums, StatusDetails}.
Context `{JsonText StartWorkflowResponse, JsonText CancelWorkflowResponse}.
Context `{JsonText TerminateWorkflowResponse, JsonText ResetWorkflowResponse}.
Context `{JsonText SignalWorkflowResponse, JsonText QueryWorkflowResponse}.
Context `{JsonText UpdateWorkflowResponse, JsonText PollWorkflowUpdateResponse}.
Context `{JsonText VisibilityPage, JsonText WaitWorkflowResponse}.
Context `{JsonText StartWorkflowOutcomeDocument, JsonText ClientErrorDocument}.
Context {Event : Type} (encode_to_vec : list Event → list byte).
Context (identity : string) (service : Services Event).

(** The response of an operation as the bytes of its document. *)
Definition respond {A} (encode : A → result string ProtocolError)
    (response : result A ClientOperationError) : Operation :=
  match response with
  | Ok response => encode_bytes (encode response)
  | Err error => Err (client_operation_failure error)
  end.

Definition looped {A} (respond : result A ClientOperationError → Operation)
    (response : option (result A ClientOperationError)) : Future :=
  match response with Some response => Finished (respond response) | None => Waiting end.

(** The future of a throttled heartbeat, which changes the throttle. *)
Definition heartbeat_future (heartbeat : ThrottledHeartbeat) (binding : AsyncActivityBinding)
    (throttle : @ThrottleState Payloads) : Future * @ThrottleState Payloads :=
  let token := th_task_token heartbeat in
  match interval (ab_intervals binding) (th_heartbeat_timeout heartbeat) with
  | None => (Panicked, throttle)
  | Some _ =>
      let '(admission, throttle) :=
        HeartbeatThrottle.record (sv_finished service) token (th_details heartbeat)
          (ab_max_throttled_tokens binding) throttle in
      let outcome :=
        match admission with
        | Sent _ => default (Err unknown_outcome) (sv_first_reply service)
        | Coalesced flags => Ok flags
        | Unthrottled details =>
            (send_async_heartbeat (sv_activity service) identity (ab_namespace binding) token details).1
        end in
      let outcome := match outcome with
        | Ok flags => Ok (into_bytes (outcome_body flags))
        | Err failure => Err failure
        end in
      (Finished (submitted_async_activity_outcome outcome), throttle)
  end.

(** The future of a bound asynchronous activity request. *)
Definition activity_future (request : AsyncActivityRequest) (binding : AsyncActivityBinding)
    (throttle : @ThrottleState Payloads) : Future * @ThrottleState Payloads :=
  let '((outcome, _), throttle) :=
    send_evicting (sv_activity service) identity (ab_namespace binding) request throttle in
  (Finished (submitted_async_activity_outcome
     match outcome with Ok () => Ok [] | Err failure => Err failure end), throttle).

(** The binding and the client an asynchronous request needs before its call. *)
Definition with_binding (binding : option AsyncActivityBinding)
    (future : AsyncActivityBinding → Future * @ThrottleState Payloads)
    (throttle : @ThrottleState Payloads) : Future * @ThrottleState Payloads :=
  match binding with
  | None => (Finished (Err unbound_async_activity), throttle)
  | Some binding =>
      if sv_client_created service then future binding
      else (Finished (Err client_not_created), throttle)
  end.

Definition into_future (rpc : ClientRpc) (throttle : @ThrottleState Payloads) :
    Future * @ThrottleState Payloads :=
  match rpc with
  | Rpc_Start request =>
      (Finished (encode_bytes (start_outcome_bytes request
         (Some (start_workflow identity (sv_start service) request)))), throttle)
  | Rpc_Wait request =>
      (looped (respond encode_wait_response) (wait_workflow request (sv_wait service)).1, throttle)
  | Rpc_Cancel request =>
      (Finished (respond encode_cancel_response
         (cancel_workflow identity (sv_cancel service) request)), throttle)
  | Rpc_Terminate request =>
      (Finished (respond encode_terminate_response
         (terminate_workflow identity (sv_terminate service) request)), throttle)
  | Rpc_Reset request =>
      (Finished (respond encode_reset_response
         (reset_workflow identity (sv_reset service) request)), throttle)
  | Rpc_Signal request =>
      (Finished (respond encode_signal_response
         (signal_workflow identity (sv_signal service) request)), throttle)
  | Rpc_Query request =>
      (Finished (respond encode_query_response (query_workflow (sv_query service) request)), throttle)
  | Rpc_Update request =>
      (looped (respond encode_update_response)
         (update_workflow identity request (sv_update service)).1, throttle)
  | Rpc_PollUpdate request =>
      (Finished (respond encode_poll_update_response
         (poll_workflow_update identity (sv_poll_update service) request)), throttle)
  | Rpc_Visibility request =>
      (Finished (respond encode_visibility_response
         (list_visibility (sv_list service) request)), throttle)
  | Rpc_History request =>
      (looped (map_err client_operation_failure)
         (fetch_history encode_to_vec request (sv_history service)).1, throttle)
  | Rpc_AsyncActivity request binding =>
      with_binding binding (λ binding, activity_future request binding throttle) throttle
  | Rpc_AsyncHeartbeat heartbeat binding =>
      with_binding binding (λ binding, heartbeat_future heartbeat binding throttle) throttle
  end.

(** ** Theorems *)

(** The statuses a task may publish: none is that of a closed call. *)
Definition not_closed (outcome : Operation) : Prop :=
  match outcome with Ok _ => True | Err failure => ClientCalls.f_status failure ≠ STATUS_INVALID_STATE end.

Lemma encode_bytes_not_closed r : not_closed (encode_bytes r).
Proof. by destruct r. Qed.

Lemma client_operation_not_closed error :
  ClientCalls.f_status (client_operation_failure error) ≠ STATUS_INVALID_STATE.
Proof. by destruct error. Qed.

Lemma respond_not_closed {A} (encode : A → _) response : not_closed (respond encode response).
Proof. destruct response; [apply encode_bytes_not_closed|apply client_operation_not_closed]. Qed.

Lemma submitted_not_closed outcome : not_closed (submitted_async_activity_outcome outcome).
Proof.
  destruct outcome as [|failure]; [done|]. cbn.
  by destruct (N.eqb_spec (ClientCalls.f_status failure) STATUS_INVALID_STATE).
Qed.

Lemma looped_not_closed {A} (f : result A ClientOperationError → Operation) response outcome :
  (∀ r, not_closed (f r)) → looped f response = Finished outcome → not_closed outcome.
Proof. intros Hf. destruct response; [intros [= <-]; apply Hf|done]. Qed.

Lemma with_binding_not_closed binding future throttle outcome :
  (∀ b, (future b).1 = Finished outcome → not_closed outcome) →
  (with_binding binding future throttle).1 = Finished outcome → not_closed outcome.
Proof.
  intros Hf. unfold with_binding. destruct binding as [b|]; [|by intros [= <-]].
  destruct (sv_client_created service); [apply Hf|by intros [= <-]].
Qed.

(** C33: the status of a closed call is never an operation's own.  Whatever the kind of the
    call, its request, the answers of the service and the state of the throttle, the
    outcome its task publishes does not carry the status that an await reserves for a
    call its runtime closed; a token the service no longer knows is reported by its own
    body. *)
Theorem outcome_never_closed rpc throttle outcome :
  (into_future rpc throttle).1 = Finished outcome → not_closed outcome.
Proof.
  destruct rpc; cbn [into_future fst];
    try (intros [= <-]; first [apply encode_bytes_not_closed|apply respond_not_closed]);
    try (apply looped_not_closed; intros [|error];
         first [apply respond_not_closed|done|apply client_operation_not_closed]);
    apply with_binding_not_closed; intros b.
  - unfold activity_future. destruct (send_evicting _ _ _ _ _) as [[o ?] ?]. intros [= <-].
    apply submitted_not_closed.
  - unfold heartbeat_future. destruct (interval _ _); [|done].
    destruct (HeartbeatThrottle.record _ _ _ _ _). intros [= <-]. apply submitted_not_closed.
Qed.
End Futures.
