(* ===== verification/RuntimeCalls.v ===== *)
(** * The client side of a runtime graph

    The client of [Runtime] in src/rust/core-bridge/src/abi.rs: connecting, submitted
    calls, start tickets, retained waits, disconnect and close.  A Tokio task is its
    name; [running] are the tasks that have not ended, [aborted] those that were told
    to.  Awaiting a join handle ends when the task has ended.  What other threads and
    tasks do while the owner is inside an operation is an argument of the operation,
    one list for each place where it can matter. *)

From S2P Require Import Prelude.
From S2P Require Import Text.
From S2P Require Import Protocol.
From S2P Require Import ProtocolCodec.
From S2P Require Import WorkflowTypes.
From S2P Require Import CoreMessages.
From S2P Require Import WorkflowChecks.
From S2P Require Import Documents.
From S2P Require Import CoreConversion.
From S2P Require Import ActivityProtocol.
From S2P Require Import ActivityDocuments.
From S2P Require Import ClientTypes.
From S2P Require Import ClientChecks.
From S2P Require Import ClientStatus.
From S2P Require Import ClientDocuments.
From S2P Require Import Diagnostics.
From S2P Require Import HeartbeatThrottle.
From S2P Require Import ClientCalls.
From S2P Require Import WorkerConfig.
From S2P Require Import Failures.
From S2P Require Import AsyncActivity.
From S2P Require Import ClientRpc.
From stdpp Require Import pretty.
Local Open Scope N_scope.
Local Open Scope bridge_scope.

#[export] Instance WaitWorkflowRequest_eq_dec : EqDecision WaitWorkflowRequest.
Proof. solve_decision. Defined.

(** ** State *)

Inductive CallScope :=
| Scope_Start (request : StartWorkflowRequest)
| Scope_Wait (request : WaitWorkflowRequest)
| Scope_Bounded
| Scope_Released.

(** A call and a start spawn tasks of generation 0; the drivers of a throttle are of the
    generation of the throttle. *)
Definition TaskName : Type := N * N.

Record PendingCall := mkPendingCall { pc_scope : CallScope; pc_task : TaskName }.

Definition StartResult : Type := result StartWorkflowResponse ClientOperationError.

Record PendingStart := mkPendingStart {
  ps_request : StartWorkflowRequest;
  ps_task : TaskName
}.

(** Why a join could not block on the network: the task was aborted, or it had sent its
    result or ended. *)
Inductive Join := Join_Aborted | Join_Settled | Join_Blocking.

(** The process as the graph meets it: the registry of submitted calls and the tasks.
    [joins] is history. *)
Record World := mkWorld {
  registry : Registry;
  next_call : N;
  next_task : N;
  running : gset TaskName;
  aborted : gset TaskName;
  sent : gmap TaskName StartResult;
  joins : list (TaskName * Join)
}.

Record Graph := mkGraph {
  core_open : bool;
  connected : bool;
  worker_running : bool;
  worker_namespace : option string;
  intervals : HeartbeatIntervals;
  limits : ClientLimits;
  call_owner : N;
  starts : gmap string PendingStart;
  waits : list WaitWorkflowRequest;
  pending : gmap N PendingCall;
  throttle : @ThrottleState Payloads;
  generation : N;
  cleanup : list TaskName;
  world : World
}.

Definition empty_throttle : @ThrottleState Payloads := mkThrottleState ∅ ∅ 0 false.

(** [Runtime::new]. *)
Definition Runtime_new (owner : N) (defaults : HeartbeatIntervals) (w : World) : Graph :=
  mkGraph true false false None defaults ClientLimits_default owner ∅ [] ∅ empty_throttle 1 [] w.

Definition set_client (c : bool) (l : ClientLimits) g : Graph :=
  mkGraph (core_open g) c (worker_running g) (worker_namespace g) (intervals g) l (call_owner g)
    (starts g) (waits g) (pending g) (throttle g) (generation g) (cleanup g) (world g).
Definition set_starts s w g : Graph :=
  mkGraph (core_open g) (connected g) (worker_running g) (worker_namespace g) (intervals g) (limits g)
    (call_owner g) s (waits g) (pending g) (throttle g) (generation g) (cleanup g) w.
Definition set_waits ws g : Graph :=
  mkGraph (core_open g) (connected g) (worker_running g) (worker_namespace g) (intervals g) (limits g)
    (call_owner g) (starts g) ws (pending g) (throttle g) (generation g) (cleanup g) (world g).
Definition set_pending p w g : Graph :=
  mkGraph (core_open g) (connected g) (worker_running g) (worker_namespace g) (intervals g) (limits g)
    (call_owner g) (starts g) (waits g) p (throttle g) (generation g) (cleanup g) w.
Definition set_throttle t n w g : Graph :=
  mkGraph (core_open g) (connected g) (worker_running g) (worker_namespace g) (intervals g) (limits g)
    (call_owner g) (starts g) (waits g) (pending g) t n (cleanup g) w.
Definition set_closed c g : Graph :=
  mkGraph false false false (worker_namespace g) (intervals g) (limits g) (call_owner g)
    (starts g) (waits g) (pending g) (throttle g) (generation g) c (world g).

(** ** Tasks *)

Definition set_registry r n w : World :=
  mkWorld r n (next_task w) (running w) (aborted w) (sent w) (joins w).

Definition spawn_task (w : World) : TaskName * World :=
  let task := (0, next_task w) in
  (task, mkWorld (registry w) (next_call w) (next_task w + 1) ({[task]} ∪ running w) (aborted w)
           (sent w) (joins w)).

Definition abort_task (task : TaskName) (w : World) : World :=
  mkWorld (registry w) (next_call w) (next_task w) (running w) ({[task]} ∪ aborted w) (sent w) (joins w).

Definition end_task (task : TaskName) (w : World) : World :=
  mkWorld (registry w) (next_call w) (next_task w) (running w ∖ {[task]}) (aborted w) (sent w) (joins w).

Definition join_reason (task : TaskName) (w : World) : Join :=
  if bool_decide (task ∈ aborted w) then Join_Aborted
  else if bool_decide (is_Some (sent w !! task)) || bool_decide (task ∉ running w) then Join_Settled
  else Join_Blocking.

(** [task.await]. *)
Definition join_task (w : World) (task : TaskName) : World :=
  mkWorld (registry w) (next_call w) (next_task w) (running w ∖ {[task]}) (aborted w) (sent w)
    (joins w ++ [(task, join_reason task w)]).

Fixpoint abort_all (tasks : list TaskName) (w : World) : World :=
  match tasks with [] => w | task :: tasks => abort_all tasks (abort_task task w) end.
Fixpoint join_all (tasks : list TaskName) (w : World) : World :=
  match tasks with [] => w | task :: tasks => join_all tasks (join_task w task) end.

(** What other threads and tasks do: a terminal read, a release, another runtime's
    registration, a task that ends, and a start that sends its result. *)
Inductive Other :=
| O_Read (owner call : N)
| O_Release (owner call : N)
| O_Register (owner : N)
| O_Ends (task : TaskName)
| O_Sends (task : TaskName) (r : StartResult).

Definition apply_other (mine : N) (w : World) (o : Other) : World :=
  match o with
  | O_Read owner call =>
      set_registry (Registry_remove call (Some owner) (registry w)).2 (next_call w) w
  | O_Release owner call =>
      let '(released, r) := Registry_remove call (Some owner) (registry w) in
      let w := set_registry r (next_call w) w in
      match released with
      | Some c => match rc_task c with Some n => abort_task (0, n) w | None => w end
      | None => w
      end
  | O_Register owner =>
      if bool_decide (owner ≠ mine) && (next_call w <? MAX_CALL_ID)
      then set_registry (Registry_insert owner (next_call w) (registry w)) (next_call w + 1) w
      else w
  | O_Ends task => end_task task w
  | O_Sends task r =>
      if bool_decide (task ∈ running w) && bool_decide (sent w !! task = None)
      then mkWorld (registry w) (next_call w) (next_task w) (running w) (aborted w)
             (<[task := r]> (sent w)) (joins w)
      else w
  end.

Definition others (os : list Other) (g : Graph) : Graph :=
  mkGraph (core_open g) (connected g) (worker_running g) (worker_namespace g) (intervals g) (limits g)
    (call_owner g) (starts g) (waits g) (pending g) (throttle g) (generation g) (cleanup g)
    (foldl (apply_other (call_owner g)) (world g) os).

(** ** Submitted calls *)

Definition exhausted (what : string) (limit : N) : Failure :=
  ClientCalls.mkFailure STATUS_RESOURCE_EXHAUSTED
    ("too many Temporal " +:+ what +:+ " are pending (limit " +:+ pretty limit +:+ ")").

Definition different_request : Failure :=
  ClientCalls.mkFailure STATUS_PROTOCOL "start request_id is already pending for a different request".

Definition client_and_handle (g : Graph) : result () Failure :=
  if negb (connected g) then Err client_not_connected
  else if negb (core_open g) then Err runtime_closed
  else Ok ().

Definition async_activity_binding (g : Graph) : result AsyncActivityBinding Failure :=
  let? namespace := ok_or (worker_namespace g) missing_worker_namespace in
  Ok (mkAsyncActivityBinding namespace (intervals g) (N.to_nat (in_flight_calls (limits g)))).

Definition is_released (c : PendingCall) : bool :=
  match pc_scope c with Scope_Released => true | _ => false end.

(** [retain(|_, call| !call.task.is_finished())]. *)
Definition prune_finished (g : Graph) : Graph :=
  set_pending (filter (λ entry, pc_task entry.2 ∈ running (world g)) (pending g)) (world g) g.

Definition live_ids (g : Graph) : list N :=
  (filter (λ entry, is_released entry.2 = false) (map_to_list (pending g))).*1.

(** The calls that left the registry are aborted and no longer counted. *)
Definition mark_released (g : Graph) (id : N) : Graph :=
  match pending g !! id with
  | Some call =>
      set_pending (<[id := mkPendingCall Scope_Released (pc_task call)]> (pending g))
        (abort_task (pc_task call) (world g)) g
  | None => g
  end.

Definition release_unregistered (g : Graph) : Graph :=
  foldl mark_released g (unregistered_calls (call_owner g) (live_ids g) (registry (world g))).

Definition pending_scopes (g : Graph) : list CallScope := pc_scope <$> (map_to_list (pending g)).*2.

Definition scope_start (s : CallScope) : option StartWorkflowRequest :=
  match s with Scope_Start request => Some request | _ => None end.
Definition scope_wait (s : CallScope) : option WaitWorkflowRequest :=
  match s with Scope_Wait request => Some request | _ => None end.

Definition start_ids (g : Graph) : list string := sr_request_id <$> omap scope_start (pending_scopes g).
Definition wait_keys (g : Graph) : list WaitWorkflowRequest := omap scope_wait (pending_scopes g).

(** [HashSet::len] of the collected values. *)
Definition distinct {A} `{EqDecision A} (l : list A) : N := N.of_nat (length (remove_dups l)).

Definition call_scope (rpc : ClientRpc) (g : Graph) : result CallScope Failure :=
  match rpc with
  | Rpc_Start request =>
      if existsb (λ other, bool_decide (sr_request_id other = sr_request_id request)
                           && negb (same_start_request other request))
           (omap scope_start (pending_scopes g))
      then Err different_request
      else if (pending_starts (limits g) <=? distinct (start_ids g))
              && bool_decide (sr_request_id request ∉ start_ids g)
      then Err (exhausted "workflow starts" (pending_starts (limits g)))
      else Ok (Scope_Start request)
  | Rpc_Wait request =>
      if (pending_waits (limits g) <=? distinct (wait_keys g))
         && bool_decide (request ∉ wait_keys g)
      then Err (exhausted "workflow waits" (pending_waits (limits g)))
      else Ok (Scope_Wait request)
  | _ => Ok Scope_Bounded
  end.

Definition released_tasks (g : Graph) : list TaskName :=
  pc_task <$> (map_to_list (filter (λ entry, is_released entry.2 = true) (pending g))).*2.

Definition reap_released_calls (g : Graph) : Graph :=
  set_pending (filter (λ entry, is_released entry.2 = false) (pending g))
    (join_all (released_tasks g) (world g)) g.

Definition in_flight (g : Graph) : N :=
  N.of_nat (size (filter (λ entry, is_released entry.2 = false) (pending g))).

Definition reserve_failure : Failure :=
  ClientCalls.mkFailure STATUS_INTERNAL "could not reserve a Temporal client call slot".

(** From the registration of the call to its handle. *)
Definition register_call (scope : CallScope) (reserved : bool) (g : Graph) : Operation * Graph :=
  let w := world g in
  let call := next_call w in
  let drawn := set_registry (registry w) (u64_wrapping_add call 1) w in
  if MAX_CALL_ID <=? call then (Err exhausted_failure, set_pending (pending g) drawn g)
  else if negb reserved then (Err reserve_failure, set_pending (pending g) drawn g)
  else
    let w := set_registry (Registry_insert (call_owner g) call (registry drawn)) (next_call drawn) drawn in
    let '(task, w) := spawn_task w in
    let '(orphan, r) := Registry_attach (call_owner g) call task.2 (registry w) in
    let w := set_registry r (next_call w) w in
    let w := match orphan with Some _ => abort_task task w | None => w end in
    (Ok (into_bytes (pretty (call_owner g) +:+ "." +:+ pretty call)),
     set_pending (<[call := mkPendingCall scope task]> (pending g)) w g).

(** The admission of a decoded request; [between] happens before the ceiling is read,
    and [reserved] is whether the entries of the two maps could be reserved. *)
Definition admit_call (rpc : ClientRpc) (between : list Other) (reserved : bool * bool) (g : Graph)
    : Operation * Graph :=
  let g := release_unregistered (prune_finished g) in
  match call_scope rpc g with
  | Err failure => (Err failure, g)
  | Ok scope =>
      let ceiling := in_flight_calls (limits g) in
      let g :=
        if ceiling <=? N.of_nat (size (pending g)) then reap_released_calls g else g in
      let g := others between g in
      if (ceiling <=? in_flight g)
         || (ceiling <=? N.of_nat (registered_calls (call_owner g) (registry (world g))))
      then (Err (exhausted "client calls" ceiling), g)
      else if negb reserved.1 then (Err reserve_failure, g)
      else register_call scope reserved.2 g
  end.

Section Submit.
Context `{SerdeJson} `{Base64} `{CoreEnums}.
Context `{JsonText StartWorkflowRequest, JsonText WaitWorkflowRequest}.
Context `{JsonText CancelWorkflowRequest, JsonText TerminateWorkflowRequest}.
Context `{JsonText ResetWorkflowRequest, JsonText SignalWorkflowRequest}.
Context `{JsonText QueryWorkflowRequest, JsonText UpdateWorkflowRequest}.
Context `{JsonText PollWorkflowUpdateRequest, JsonText VisibilityRequest, JsonText HistoryRequest}.
Context `{Serde ActivityCompletion, Serde AsyncActivityHeartbeat}.

Definition submit_client_call (kind : N) (input : list byte) (between : list Other)
    (reserved : bool * bool) (g : Graph) : Operation * Graph :=
  let checked :=
    let? kind := ClientCallKind_try_from kind in
    let? text := decode_semantic_input input in
    let? rpc := ClientRpc_decode kind text in
    let? rpc := bind_async_activity rpc (async_activity_binding g) in
    let? _ := client_and_handle g in
    Ok rpc in
  match checked with
  | Err failure => (Err failure, g)
  | Ok rpc => admit_call rpc between reserved g
  end.
End Submit.

(** ** Start tickets *)

Definition unknown_ticket : Failure :=
  ClientCalls.mkFailure STATUS_PROTOCOL "unknown Temporal workflow start ticket".

Definition find_start (request_id : string) (g : Graph) : option (string * PendingStart) :=
  snd <$> list_find (λ entry, sr_request_id (ps_request entry.2) = request_id)
            (map_to_list (starts g)).

(** The loop over random identifiers; [None] while every one so far is taken. *)
Fixpoint fresh_ticket (draws : list string) (g : Graph) : option string :=
  match draws with
  | [] => None
  | candidate :: draws =>
      if bool_decide (is_Some (starts g !! candidate)) then fresh_ticket draws g else Some candidate
  end.

Inductive StartRead := Start_Ready (r : StartResult) | Start_NotReady | Start_Disconnected.

(** The channel of a ticket: the result if it was sent, empty while the task runs, and
    disconnected once the task has ended without sending. *)
Definition receive (task : TaskName) (w : World) : StartRead :=
  match sent w !! task with
  | Some r => Start_Ready r
  | None => if bool_decide (task ∈ running w) then Start_NotReady else Start_Disconnected
  end.

Section Starts.
Context `{SerdeJson} `{Base64}.
Context `{JsonText StartWorkflowRequest, JsonText StartTicketDocument}.
Context `{JsonText StartWorkflowOutcomeDocument}.

(** A new ticket: [None] when the draws are used up. *)
Definition issue_ticket (request : StartWorkflowRequest) (draws : list string) (g : Graph)
    : option (Operation * Graph) :=
  ticket ← fresh_ticket draws g;
  Some match encode_start_ticket ticket with
       | Err error => (Err (protocol_failure error), g)
       | Ok encoded =>
           let '(task, w) := spawn_task (world g) in
           (Ok (into_bytes encoded),
            set_starts (<[ticket := mkPendingStart request task]> (starts g)) w g)
       end.

Definition begin_start_workflow_json (input : list byte) (reserved : option string)
    (draws : list string) (g : Graph) : option (Operation * Graph) :=
  let checked :=
    let? text := decode_semantic_input input in
    let? request := map_err protocol_failure (decode_start_request text) in
    let? _ := client_and_handle g in
    Ok request in
  match checked with
  | Err failure => Some (Err failure, g)
  | Ok request =>
      match find_start (sr_request_id request) g with
      | Some (ticket, other) =>
          if negb (same_start_request (ps_request other) request) then Some (Err different_request, g)
          else Some (encode_bytes (encode_start_ticket ticket), g)
      | None =>
          if pending_starts (limits g) <=? N.of_nat (size (starts g))
          then Some (Err (exhausted "workflow starts" (pending_starts (limits g))), g)
          else
            match reserved with
            | Some error =>
                Some (Err (ClientCalls.mkFailure STATUS_INTERNAL
                  ("could not reserve Temporal workflow start slots: " +:+ error)), g)
            | None => issue_ticket request draws g
            end
      end
  end.

Definition finish_start (ticket : string) (r : option StartResult) (g : Graph) : Operation * Graph :=
  match starts g !! ticket with
  | None => (Err unknown_ticket, g)
  | Some start =>
      let w :=
        if core_open g then join_task (world g) (ps_task start)
        else abort_task (ps_task start) (world g) in
      (encode_bytes (start_outcome_bytes (ps_request start) r),
       set_starts (delete ticket (starts g)) w g)
  end.

(** A read that waits lets [meanwhile] happen first. *)
Definition read_start_workflow_json (input : list byte) (meanwhile : list Other) (g : Graph)
    : Operation * Graph :=
  let checked :=
    let? text := decode_semantic_input input in
    let? ticket := map_err protocol_failure (decode_start_ticket text) in
    let? _ := if connected g then Ok () else Err client_not_connected in
    let? start := ok_or (starts g !! ticket) unknown_ticket in
    Ok (ticket, start) in
  match checked with
  | Err failure => (Err failure, g)
  | Ok (ticket, start) =>
      let g := others meanwhile g in
      match receive (ps_task start) (world g) with
      | Start_NotReady => (Err not_ready, g)
      | Start_Ready r => finish_start ticket (Some r) g
      | Start_Disconnected => finish_start ticket None g
      end
  end.

(** The start that waits for its answer refuses a request that has a ticket. *)
Definition start_workflow_json (input : list byte) (answer : StartWorkflowRequest → StartResult)
    `{JsonText StartWorkflowResponse, JsonText ClientErrorDocument} (g : Graph) : Operation :=
  let? text := decode_semantic_input input in
  let? request := map_err protocol_failure (decode_start_request text) in
  match find_start (sr_request_id request) g with
  | Some (_, other) =>
      if negb (same_start_request (ps_request other) request) then Err different_request
      else Err (ClientCalls.mkFailure STATUS_INVALID_STATE
        "Temporal workflow start is already pending for this request_id; poll or wait the async ticket")
  | None =>
      let? _ := client_and_handle g in
      let? response := map_err client_operation_failure (answer request) in
      match encode_start_response response with
      | Ok encoded => Ok (into_bytes encoded)
      | Err _ =>
          encode_bytes (encode_start_outcome
            (Start_Unknown (sr_request_id request) (sr_workflow_id request)))
      end
  end.
End Starts.

(** ** Retained waits *)

(** [polled] is what the retained observation gave within the interval. *)
Definition wait_workflow_json `{SerdeJson} `{Base64} `{JsonText WaitWorkflowRequest}
    `{JsonText WaitWorkflowResponse, JsonText ClientErrorDocument}
    (input : list byte) (reserved : bool)
    (polled : option (result WaitWorkflowResponse ClientOperationError)) (g : Graph)
    : Operation * Graph :=
  let checked :=
    let? text := decode_semantic_input input in
    let? request := map_err protocol_failure (decode_wait_request text) in
    let? _ := client_and_handle g in
    if bool_decide (request ∈ waits g) then Ok (request, waits g)
    else if pending_waits (limits g) <=? N.of_nat (length (waits g))
    then Err (exhausted "workflow waits" (pending_waits (limits g)))
    else if negb reserved
    then Err (ClientCalls.mkFailure STATUS_INTERNAL "could not reserve a Temporal workflow wait slot")
    else Ok (request, request :: waits g) in
  match checked with
  | Err failure => (Err failure, g)
  | Ok (request, retained) =>
      match polled with
      | None => (Err client_wait_not_ready, set_waits retained g)
      | Some response =>
          (match response with
           | Ok response => encode_bytes (encode_wait_response response)
           | Err error => Err (client_operation_failure error)
           end, set_waits (filter (λ key, key ≠ request) retained) g)
      end
  end.

(** ** Connecting *)

Record ClientConfig := mkClientConfig {
  cc_target_url : string;
  cc_identity : string;
  cc_max_pending_waits : option N;
  cc_max_pending_starts : option N;
  cc_max_in_flight_calls : option N
}.

Definition CLIENT_CONNECT_TIMEOUT_DETAIL : string :=
  "connection handshake did not complete within 10 s".

(** What connecting within the bound gave. *)
Inductive Handshake := Handshake_Elapsed | Handshake_Failed (error : ClientConnectError) | Handshake_Done.

Definition handshake_result (h : Handshake) : result () Failure :=
  match h with
  | Handshake_Elapsed =>
      Err (ClientCalls.mkFailure STATUS_CONNECTION
        (connection_failure_message Cause_Timeout CLIENT_CONNECT_TIMEOUT_DETAIL))
  | Handshake_Failed error =>
      match describe_connect_error error with
      | Failure_Configuration =>
          Err (ClientCalls.mkFailure STATUS_CONFIGURATION
            "Temporal Core rejected the client connection options")
      | Failure_Connection cause detail =>
          Err (ClientCalls.mkFailure STATUS_CONNECTION (connection_failure_message cause detail))
      end
  | Handshake_Done => Ok ()
  end.

(** [parse_url] is the URL parser: the scheme and whether there is a host, or the text
    of its error. *)
Definition connect_client (parse_url : string → result (string * bool) string) (config : ClientConfig)
    (handshake : Handshake) (g : Graph) : Operation * Graph :=
  let checked :=
    let? _ := if connected g
              then Err (ClientCalls.mkFailure STATUS_INVALID_STATE "Temporal client is already connected")
              else Ok () in
    let? _ := if core_open g then Ok () else Err runtime_closed in
    let? target := map_err (λ error, ClientCalls.mkFailure STATUS_CONFIGURATION
                     ("client target_url is invalid: " +:+ error)) (parse_url (cc_target_url config)) in
    let? _ :=
      if negb (bool_decide (target.1 ∈ ["http"; "https"])) || negb target.2
      then Err (ClientCalls.mkFailure STATUS_CONFIGURATION
                  "client target_url must be an absolute http or https URL")
      else Ok () in
    let? _ := validate_transport_identifier "identity" (cc_identity config) in
    let? l := from_config (cc_max_pending_waits config) (cc_max_pending_starts config)
                (cc_max_in_flight_calls config) in
    let? _ := handshake_result handshake in
    Ok l in
  match checked with
  | Err failure => (Err failure, g)
  | Ok l => (Ok [], set_client true l g)
  end.

(** ** Heartbeat drivers *)

(** A heartbeat admitted to the throttle, with the driver it may spawn. *)
Definition record_heartbeat (token : list byte) (details : option Payloads) (g : Graph) : Graph :=
  let w := world g in
  let name id := (generation g, id) : TaskName in
  let '(admission, t) :=
    HeartbeatThrottle.record (λ id, bool_decide (name id ∉ running w)) token details
      (N.to_nat (in_flight_calls (limits g))) (throttle g) in
  let w :=
    match admission with
    | Sent id => mkWorld (registry w) (next_call w) (next_task w) ({[name id]} ∪ running w)
                   (aborted w) (sent w) (joins w)
    | _ => w
    end in
  set_throttle t (generation g) w g.

(** The handles still to join: none when the owner joined them. *)
Definition join_or_return (wait : bool) (tasks : list TaskName) (g : Graph) (w : World)
    : list TaskName * World :=
  if wait && core_open g then ([], join_all tasks w) else (tasks, w).

Definition driver_names (g : Graph) : list TaskName :=
  pair (generation g) <$> elements (shutdown (throttle g)).1.

Definition abort_heartbeat_drivers (wait : bool) (g : Graph) : list TaskName * Graph :=
  let tasks := driver_names g in
  let '(rest, w) := join_or_return wait tasks g (abort_all tasks (world g)) in
  (rest, set_throttle empty_throttle (generation g + 1) w g).

(** ** Disconnect and close *)

Definition call_tasks (g : Graph) : list TaskName := pc_task <$> (map_to_list (pending g)).*2.
Definition start_tasks (g : Graph) : list TaskName := ps_task <$> (map_to_list (starts g)).*2.

Definition abort_pending_calls (wait : bool) (g : Graph) : list TaskName * Graph :=
  let w := world g in
  let w := set_registry (Registry_release_owner (call_owner g) (registry w)).2 (next_call w) w in
  let tasks := call_tasks g in
  let '(rest, w) := join_or_return wait tasks g (abort_all tasks w) in
  (rest, set_pending ∅ w g).

(** A waiting abort without Core would drop the handles; [close] is the only one to take
    Core, and it runs once. *)
Definition abort_pending_starts (wait : bool) (g : Graph) : list TaskName * Graph :=
  let tasks := start_tasks g in
  let w := abort_all tasks (world g) in
  let '(rest, w) :=
    if wait then ([], if core_open g then join_all tasks w else w) else (tasks, w) in
  (rest, set_starts ∅ w g).

Definition disconnect_client (g : Graph) : Operation * Graph :=
  if worker_running g
  then (Err (ClientCalls.mkFailure STATUS_INVALID_STATE
         "Temporal client cannot disconnect while its worker is running"), g)
  else
    let g := set_waits [] g in
    let g := (abort_pending_starts true g).2 in
    let g := (abort_pending_calls true g).2 in
    let g := (abort_heartbeat_drivers true g).2 in
    (Ok [], set_client false ClientLimits_default g).

(** The handles that are left go to the cleanup thread. *)
Definition close (wait : bool) (g : Graph) : Graph :=
  let g := set_waits [] g in
  let '(a, g) := abort_pending_starts wait g in
  let '(b, g) := abort_pending_calls wait g in
  let '(c, g) := abort_heartbeat_drivers wait g in
  if core_open g then set_closed (a ++ b ++ c) g else g.

(** [drop_runtime_graph] awaits them before anything else. *)
Definition join_cleanup (g : Graph) : Graph :=
  mkGraph (core_open g) (connected g) (worker_running g) (worker_namespace g) (intervals g) (limits g)
    (call_owner g) (starts g) (waits g) (pending g) (throttle g) (generation g) []
    (join_all (cleanup g) (world g)).
