(* ===== verification/RuntimeSafety.v ===== *)
(** * Safety of the client side of a runtime graph

    The operations of RuntimeCalls.v as the steps of one graph, in any order and with
    anything other threads and tasks do in between, and the invariant of its runs: the
    limits of a connection hold, every task that runs is held by a join handle, and the
    owner never waits for a task that could wait for the network. *)

From S2P Require Import Prelude.
From S2P Require Import Protocol.
From S2P Require Import ProtocolCodec.
From S2P Require Import CoreMessages.
From S2P Require Import Documents.
From S2P Require Import ActivityProtocol.
From S2P Require Import ClientTypes.
From S2P Require Import ClientDocuments.
From S2P Require Import HeartbeatThrottle.
From S2P Require Import ClientCalls.
From S2P Require Import Failures.
From S2P Require Import AsyncActivity.
From S2P Require Import ClientRpc.
From S2P Require Import RuntimeCalls.
Local Open Scope N_scope.

(** ** Distinct values *)

Section Distinct.
Context {A} `{EqDecision A}.
Implicit Types l : list A.

Lemma distinct_le l l' : (∀ x, x ∈ l → x ∈ l') → distinct l ≤ distinct l'.
Proof.
  intros Hin. unfold distinct. enough (length (remove_dups l) ≤ length (remove_dups l'))%nat by lia.
  apply submseteq_length, NoDup_submseteq; [apply NoDup_remove_dups|].
  intros x. rewrite !elem_of_remove_dups. apply Hin.
Qed.

Lemma distinct_add l l' a : (∀ x, x ∈ l' → x = a ∨ x ∈ l) → distinct l' ≤ distinct l + 1.
Proof.
  intros Hin. unfold distinct.
  enough (length (remove_dups l') ≤ length (a :: remove_dups l))%nat by (cbn in *; lia).
  apply submseteq_length, NoDup_submseteq; [apply NoDup_remove_dups|].
  intros x. rewrite elem_of_cons, !elem_of_remove_dups. apply Hin.
Qed.

Lemma distinct_nil : distinct (@nil A) = 0.
Proof. done. Qed.
End Distinct.

(** ** What the pending calls hold *)

Lemma elem_of_pending_scopes s g : s ∈ pending_scopes g ↔ ∃ c call, pending g !! c = Some call ∧ pc_scope call = s.
Proof.
  unfold pending_scopes. rewrite list_elem_of_fmap. split.
  - intros (call & -> & ([c call'] & -> & Hin)%list_elem_of_fmap).
    apply elem_of_map_to_list in Hin. eauto.
  - intros (c & call & Hc & <-). exists call. split; [done|]. apply list_elem_of_fmap.
    exists (c, call). split; [done|]. by apply elem_of_map_to_list.
Qed.

Lemma elem_of_start_ids x g :
  x ∈ start_ids g ↔ ∃ c call r, pending g !! c = Some call ∧ pc_scope call = Scope_Start r ∧ x = sr_request_id r.
Proof.
  unfold start_ids. rewrite list_elem_of_fmap. setoid_rewrite list_elem_of_omap.
  setoid_rewrite elem_of_pending_scopes. split.
  - intros (r & -> & s & (c & call & Hc & Hs) & Hr). exists c, call, r. destruct s; naive_solver.
  - intros (c & call & r & Hc & Hs & ->). exists r. split; [done|]. exists (Scope_Start r). eauto.
Qed.

Lemma elem_of_wait_keys x g :
  x ∈ wait_keys g ↔ ∃ c call, pending g !! c = Some call ∧ pc_scope call = Scope_Wait x.
Proof.
  unfold wait_keys. rewrite list_elem_of_omap. setoid_rewrite elem_of_pending_scopes. split.
  - intros (s & (c & call & Hc & Hs) & Hr). exists c, call. destruct s; naive_solver.
  - intros (c & call & Hc & Hs). exists (Scope_Wait x). eauto.
Qed.

Lemma elem_of_tasks `{Countable K} {A} (f : A → TaskName) (m : gmap K A) t :
  t ∈ f <$> (map_to_list m).*2 ↔ ∃ c a, m !! c = Some a ∧ f a = t.
Proof.
  rewrite list_elem_of_fmap. split.
  - intros (a & -> & ([c a'] & -> & Hin)%list_elem_of_fmap). apply elem_of_map_to_list in Hin. eauto.
  - intros (c & a & Hc & <-). exists a. split; [done|]. apply list_elem_of_fmap.
    exists (c, a). split; [done|]. by apply elem_of_map_to_list.
Qed.

Lemma elem_of_driver_names t g : t ∈ driver_names g ↔ t.1 = generation g ∧ t.2 ∈ drivers (throttle g).
Proof.
  unfold driver_names. rewrite list_elem_of_fmap. destruct t as [n d]. cbn.
  setoid_rewrite elem_of_elements. naive_solver.
Qed.

(** ** The invariant *)

Definition fresh_calls (w : World) : Prop := ∀ c, next_call w ≤ c → calls (registry w) !! c = None.

(** The tasks whose join handles the graph, or its cleanup thread, has. *)
Definition held (g : Graph) (t : TaskName) : Prop :=
  t ∈ call_tasks g ∨ t ∈ start_tasks g ∨ t ∈ driver_names g ∨ t ∈ cleanup g.

Definition registered (g : Graph) : N := N.of_nat (registered_calls (call_owner g) (registry (world g))).

(** After [k] submissions. *)
Record graph_ok (k : N) (g : Graph) : Prop := {
  ok_registry : registry_ok (registry (world g));
  ok_next_call : next_call (world g) ≤ MAX_CALL_ID + k;
  ok_fresh : fresh_calls (world g);
  ok_pending_fresh : ∀ c, next_call (world g) ≤ c → pending g !! c = None;
  ok_pending : N.of_nat (size (pending g)) ≤ in_flight_calls (limits g);
  ok_registered : registered g ≤ in_flight_calls (limits g);
  ok_start_ids : distinct (start_ids g) ≤ pending_starts (limits g);
  ok_wait_keys : distinct (wait_keys g) ≤ pending_waits (limits g);
  ok_tickets : N.of_nat (size (starts g)) ≤ pending_starts (limits g);
  ok_request_ids : ∀ t t' s s', starts g !! t = Some s → starts g !! t' = Some s' →
    sr_request_id (ps_request s) = sr_request_id (ps_request s') → t = t';
  ok_waits : N.of_nat (length (waits g)) ≤ pending_waits (limits g);
  ok_held : ∀ t, t ∈ running (world g) → held g t;
  ok_released : ∀ c call, pending g !! c = Some call → is_released call = true →
    pc_task call ∈ aborted (world g);
  ok_cleanup_aborted : ∀ t, t ∈ cleanup g → t ∈ aborted (world g);
  ok_joins : Forall (λ j, j.2 ≠ Join_Blocking) (joins (world g));
  ok_open : connected g = true → core_open g = true;
  ok_core : core_open g = true → cleanup g = [];
  ok_idle : connected g = false →
    pending g = ∅ ∧ starts g = ∅ ∧ waits g = [] ∧ drivers (throttle g) = ∅ ∧ registered g = 0
}.

(** *** What other threads and tasks may change *)

Record evolves (mine : N) (w w' : World) : Prop := {
  ev_registry : registry_ok (registry w');
  ev_next_le : next_call w ≤ next_call w';
  ev_next_call : next_call w' ≤ N.max (next_call w) MAX_CALL_ID;
  ev_fresh : fresh_calls w';
  ev_registered : (registered_calls mine (registry w') ≤ registered_calls mine (registry w))%nat;
  ev_running : running w' ⊆ running w;
  ev_aborted : aborted w ⊆ aborted w';
  ev_joins : joins w' = joins w
}.

Lemma registered_remove mine c owner r :
  registry_ok r →
  (registered_calls mine (Registry_remove c (Some owner) r).2 ≤ registered_calls mine r)%nat.
Proof.
  intros Hr. rewrite !registered_calls_ok by auto using registry_ok_remove.
  unfold Registry_remove. destruct (calls r !! c) as [rc|] eqn:Hc; [|done].
  case_bool_decide; [|done]. cbn.
  rewrite (owner_count_delete c rc r (decrement_owner (rc_owner rc) (per_owner r)) mine Hc). lia.
Qed.

Lemma remove_fresh w c owner :
  fresh_calls w → fresh_calls (set_registry (Registry_remove c (Some owner) (registry w)).2 (next_call w) w).
Proof.
  intros Hf x Hx. cbn in *. rewrite Registry_remove_lookup. case_decide; auto.
Qed.

Lemma evolves_remove mine w c owner :
  registry_ok (registry w) → fresh_calls w →
  evolves mine w (set_registry (Registry_remove c (Some owner) (registry w)).2 (next_call w) w).
Proof.
  intros Hr Hf. split; cbn; try done; try lia.
  - by apply registry_ok_remove.
  - by apply remove_fresh.
  - by apply registered_remove.
Qed.

Lemma evolves_register mine w owner :
  registry_ok (registry w) → fresh_calls w → owner ≠ mine → next_call w < MAX_CALL_ID →
  evolves mine w (set_registry (Registry_insert owner (next_call w) (registry w)) (next_call w + 1) w).
Proof.
  intros Hr Hf Ho Hn. assert (calls (registry w) !! next_call w = None) as Hc by (apply Hf; lia).
  assert (registry_ok (Registry_insert owner (next_call w) (registry w))) as Hr'
    by by apply registry_ok_insert.
  split; cbn; try done; try lia.
  - intros x Hx. cbn in *. apply lookup_insert_None. split; [apply Hf|]; lia.
  - rewrite !registered_calls_ok by done. unfold Registry_insert.
    rewrite owner_count_insert by done. cbn. rewrite decide_False by done. lia.
Qed.

Lemma evolves_other mine w o :
  registry_ok (registry w) → fresh_calls w → evolves mine w (apply_other mine w o).
Proof.
  intros Hr Hf. destruct o as [owner call|owner call|owner|task|task r]; cbn.
  - by apply evolves_remove.
  - pose proof (evolves_remove mine w call owner Hr Hf) as He.
    destruct (Registry_remove call (Some owner) (registry w)) as [[c|] r']; cbn in *; [|done].
    destruct (rc_task c); [|done]. destruct He. split; cbn in *; try done. set_solver.
  - destruct (_ && _) eqn:Hg; [|by split; cbn; try done; lia].
    apply andb_true_iff in Hg as [Ho%bool_decide_eq_true Hn%N.ltb_lt]. by apply evolves_register.
  - split; cbn; try done; try lia. set_solver.
  - destruct (_ && _); split; cbn; try done; lia.
Qed.

Lemma evolves_others mine os w :
  registry_ok (registry w) → fresh_calls w → evolves mine w (foldl (apply_other mine) w os).
Proof.
  revert w. induction os as [|o os IH]; intros w Hr Hf; cbn; [by split; try done; lia|].
  pose proof (evolves_other mine w o Hr Hf) as H1. pose proof H1 as [Hr1 _ _ Hf1 _ _ _ _].
  pose proof (IH _ Hr1 Hf1) as H2. destruct H1, H2. split; try done; try lia; [set_solver..|congruence].
Qed.

#[local] Ltac keep H := destruct H; split; cbn in *; try done.

Lemma others_ok k os g : graph_ok k g → graph_ok k (others os g).
Proof.
  intros H. destruct (evolves_others (call_owner g) os (world g) (ok_registry _ _ H) (ok_fresh _ _ H)).
  assert (registered (others os g) ≤ registered g) as Hreg by (unfold registered; cbn; lia).
  keep H.
  - lia.
  - intros c Hc. apply ok_pending_fresh0. lia.
  - by etrans.
  - intros t Ht. apply ok_held0. set_solver.
  - intros c call Hc Hc'. specialize (ok_released0 c call Hc Hc'). set_solver.
  - intros t Ht. specialize (ok_cleanup_aborted0 t Ht). set_solver.
  - by rewrite ev_joins0.
  - intros Hcon. destruct (ok_idle0 Hcon) as (?&?&?&?&Hz). split_and!; try done. lia.
Qed.

(** *** Submissions *)

(** A change of the pending calls and of what is aborted. *)
Lemma pending_ok k g p w :
  graph_ok k g → (size p ≤ size (pending g))%nat →
  (∀ c call, p !! c = Some call →
     ∃ call', pending g !! c = Some call' ∧ pc_task call = pc_task call'
       ∧ (pc_scope call = pc_scope call' ∨ is_released call = true)
       ∧ (is_released call = true → pc_task call ∈ aborted w)) →
  registry w = registry (world g) → next_call w = next_call (world g) →
  (∀ t, t ∈ running w → t ∈ running (world g) ∧ (t ∈ call_tasks g → t ∈ call_tasks (set_pending p w g))) →
  aborted (world g) ⊆ aborted w →
  Forall (λ j, j.2 ≠ Join_Blocking) (joins w) →
  graph_ok k (set_pending p w g).
Proof.
  intros H Hsize Hp Hreg Hcall Hrun Hab Hjoin.
  assert (∀ x, x ∈ start_ids (set_pending p w g) → x ∈ start_ids g) as Hstarts.
  { intros x (c & call & r & Hc & Hs & ->)%elem_of_start_ids. cbn in Hc.
    destruct (Hp _ _ Hc) as (call' & ? & _ & [Hsc|Hrel] & _); apply elem_of_start_ids;
      [exists c, call', r; split_and!; congruence|].
    unfold is_released in Hrel. by rewrite Hs in Hrel. }
  assert (∀ x, x ∈ wait_keys (set_pending p w g) → x ∈ wait_keys g) as Hwaits.
  { intros x (c & call & Hc & Hs)%elem_of_wait_keys. cbn in Hc.
    destruct (Hp _ _ Hc) as (call' & ? & _ & [Hsc|Hrel] & _); apply elem_of_wait_keys;
      [exists c, call'; split_and!; congruence|].
    unfold is_released in Hrel. by rewrite Hs in Hrel. }
  assert (registered (set_pending p w g) = registered g) as Hr by (unfold registered; cbn; by rewrite Hreg).
  destruct H. split; cbn in *; rewrite ?Hr, ?Hreg, ?Hcall; try done; try lia.
  - intros x. cbn. rewrite Hreg, Hcall. apply ok_fresh0.
  - intros c Hc. apply eq_None_not_Some. intros [call Hcl]. destruct (Hp _ _ Hcl) as (call' & Hc' & _).
    by rewrite ok_pending_fresh0 in Hc'.
  - etrans; [by apply distinct_le|done].
  - etrans; [by apply distinct_le|done].
  - intros t Ht. destruct (Hrun t Ht) as [Ht' Hc]. destruct (ok_held0 t Ht') as [?|?]; [left|right]; auto.
  - intros c call Hc Hrel. destruct (Hp _ _ Hc) as (call' & ? & _ & _ & Hab'). auto.
  - intros t Ht. set_solver.
  - intros Hcon. destruct (ok_idle0 Hcon) as (Hpe & ?&?&?&?). split_and!; try done.
    apply map_size_empty_inv. rewrite Hpe, map_size_empty in Hsize. lia.
Qed.

Lemma prune_ok k g : graph_ok k g → graph_ok k (prune_finished g).
Proof.
  intros H. apply pending_ok; try done; [| | |apply H].
  - apply map_subseteq_size, map_filter_subseteq.
  - intros c call [Hc Ht]%map_lookup_filter_Some. exists call. split_and!; auto.
    intros Hrel. by apply (ok_released _ _ H c).
  - intros t Ht. split; [done|]. unfold call_tasks. rewrite !elem_of_tasks. intros (c & a & Hc & <-).
    exists c, a. split; [|done]. by apply map_lookup_filter_Some.
Qed.

Lemma mark_ok k g id : graph_ok k g → graph_ok k (mark_released g id).
Proof.
  intros H. unfold mark_released. destruct (pending g !! id) as [call|] eqn:Hid; [|done].
  apply pending_ok; try done; [| | | |apply H].
  - by rewrite map_size_insert_Some by eauto.
  - intros c x [[<- <-]|[? Hx]]%lookup_insert_Some; cbn.
    + exists call. split_and!; auto. set_solver.
    + exists x. split_and!; auto. intros Hrel. pose proof (ok_released _ _ H c x Hx Hrel). set_solver.
  - intros t Ht. split; [done|]. unfold call_tasks. rewrite !elem_of_tasks. intros (c & a & Hc & <-).
    destruct (decide (c = id)) as [->|Hne]; simplify_eq.
    + exists id, (mkPendingCall Scope_Released (pc_task call)). cbn. by rewrite lookup_insert_eq.
    + exists c, a. cbn. by rewrite lookup_insert_ne.
  - cbn. set_solver.
Qed.

Lemma release_unregistered_ok k g : graph_ok k g → graph_ok k (release_unregistered g).
Proof.
  intros H. unfold release_unregistered. generalize (unregistered_calls (call_owner g) (live_ids g) (registry (world g))).
  intros ids. revert g H. induction ids as [|id ids IH]; intros g H; cbn; [done|]. apply IH, mark_ok, H.
Qed.

(** Joining aborted tasks. *)
Lemma join_all_spec tasks w :
  let w' := join_all tasks w in
  registry w' = registry w ∧ next_call w' = next_call w ∧ aborted w' = aborted w
  ∧ (∀ t, t ∈ running w' ↔ t ∈ running w ∧ t ∉ tasks)
  ∧ ((∀ t, t ∈ tasks → t ∈ aborted w) → Forall (λ j, j.2 ≠ Join_Blocking) (joins w) →
     Forall (λ j, j.2 ≠ Join_Blocking) (joins w')).
Proof.
  cbn. revert w. induction tasks as [|t tasks IH]; intros w; cbn.
  { split_and!; try done. intros t. set_solver. }
  destruct (IH (join_task w t)) as (-> & -> & -> & Hrun & Hj). split_and!; try done.
  - intros x. rewrite Hrun. cbn. set_solver.
  - intros Hab Hok. apply Hj; cbn; [set_solver|]. apply Forall_app. split; [done|].
    constructor; [|done]. cbn. unfold join_reason. by rewrite bool_decide_eq_true_2 by set_solver.
Qed.

Lemma abort_all_spec tasks w :
  let w' := abort_all tasks w in
  registry w' = registry w ∧ next_call w' = next_call w ∧ running w' = running w ∧ joins w' = joins w
  ∧ aborted w' = aborted w ∪ list_to_set tasks.
Proof.
  cbn. revert w. induction tasks as [|t tasks IH]; intros w; cbn.
  { split_and!; try done. set_solver. }
  destruct (IH (abort_task t w)) as (-> & -> & -> & -> & ->). split_and!; try done. cbn. set_solver.
Qed.

Lemma reap_ok k g : graph_ok k g → graph_ok k (reap_released_calls g).
Proof.
  intros H. unfold reap_released_calls.
  destruct (join_all_spec (released_tasks g) (world g)) as (Hr & Hn & Ha & Hrun & Hj).
  apply pending_ok; try done.
  - apply map_subseteq_size, map_filter_subseteq.
  - intros c call [Hc Hs]%map_lookup_filter_Some. exists call. cbn in Hs. rewrite Ha. split_and!; auto; congruence.
  - intros t [Ht Hnot]%Hrun. split; [done|]. unfold call_tasks. rewrite !elem_of_tasks.
    intros (c & a & Hc & <-). exists c, a. split; [|done]. cbn. apply map_lookup_filter_Some. split; [done|].
    cbn. destruct (is_released a) eqn:E; [|done]. destruct Hnot. unfold released_tasks.
    apply elem_of_tasks. exists c, a. split; [|done]. by apply map_lookup_filter_Some.
  - by rewrite Ha.
  - apply Hj; [|apply H]. intros t. unfold released_tasks. rewrite elem_of_tasks.
    intros (c & a & [Hc Hs]%map_lookup_filter_Some & <-). by apply (ok_released _ _ H c).
Qed.

(** A scope that stays within its limit when it is added. *)
Definition fits (scope : CallScope) (g : Graph) : Prop :=
  match scope with
  | Scope_Start r => distinct (sr_request_id r :: start_ids g) ≤ pending_starts (limits g)
  | Scope_Wait r => distinct (r :: wait_keys g) ≤ pending_waits (limits g)
  | Scope_Bounded => True
  | Scope_Released => False
  end.

Lemma distinct_within `{EqDecision A} (x : A) (l : list A) limit :
  distinct l ≤ limit → (limit <=? distinct l) && bool_decide (x ∉ l) = false → distinct (x :: l) ≤ limit.
Proof.
  intros Hl [Hlt%N.leb_gt|Hin%bool_decide_eq_false]%andb_false_iff.
  - pose proof (distinct_add l (x :: l) x) as Hd. etrans; [apply Hd; set_solver|]. lia.
  - etrans; [|exact Hl]. apply distinct_le. intros y [->|?]%elem_of_cons; [|done]. by apply dec_stable.
Qed.

Lemma call_scope_fits k rpc g scope : graph_ok k g → call_scope rpc g = Ok scope → fits scope g.
Proof.
  intros H. unfold call_scope. destruct rpc; try (by intros [= <-]).
  - destruct (existsb _ _); [done|]. destruct (_ && _) eqn:E; [done|]. intros [= <-].
    apply distinct_within; [apply H|done].
  - destruct (_ && _) eqn:E; [done|]. intros [= <-]. apply distinct_within; [apply H|done].
Qed.

Lemma fits_mono scope g g' :
  limits g' = limits g → (∀ c call, pending g' !! c = Some call → pending g !! c = Some call) →
  fits scope g → fits scope g'.
Proof.
  intros Hl Hp. destruct scope; cbn; rewrite ?Hl; try done; (etrans; [apply distinct_le|done]);
    intros x [->|Hx]%elem_of_cons; try left; right.
  - apply elem_of_start_ids in Hx as (c & call & r & Hc & ?). apply elem_of_start_ids. eauto 6.
  - apply elem_of_wait_keys in Hx as (c & call & Hc & ?). apply elem_of_wait_keys. eauto 6.
Qed.

(** The world after a registration. *)
Lemma attach_inserted owner call task r :
  (Registry_attach owner call task (Registry_insert owner call r)).1 = None.
Proof. unfold Registry_attach. cbn. rewrite lookup_insert_eq. cbn. by rewrite bool_decide_eq_true_2. Qed.

Lemma attach_calls owner call task r c :
  is_Some (calls (Registry_attach owner call task r).2 !! c) ↔ is_Some (calls r !! c).
Proof.
  unfold Registry_attach. destruct (calls r !! call) as [rc|] eqn:Hc; [|done]. case_bool_decide; [|done].
  cbn. destruct (decide (c = call)) as [->|]; [rewrite lookup_insert_eq, Hc|rewrite lookup_insert_ne by done]; done.
Qed.

Lemma attach_registered owner call task r mine :
  registry_ok r →
  registered_calls mine (Registry_attach owner call task r).2 = registered_calls mine r.
Proof.
  intros _. unfold registered_calls, Registry_attach.
  destruct (calls r !! call); [|done]. by case_bool_decide.
Qed.

Definition registered_world (g : Graph) : World :=
  let w := world g in
  let call := next_call w in
  let '(task, w') := spawn_task (set_registry (Registry_insert (call_owner g) call (registry w)) (call + 1) w) in
  set_registry (Registry_attach (call_owner g) call task.2 (registry w')).2 (next_call w') w'.

Lemma registered_world_ok g :
  registry_ok (registry (world g)) → fresh_calls (world g) →
  registry_ok (registry (registered_world g)) ∧ fresh_calls (registered_world g)
  ∧ registered_calls (call_owner g) (registry (registered_world g))
    = S (registered_calls (call_owner g) (registry (world g))).
Proof.
  intros Hr Hf. assert (calls (registry (world g)) !! next_call (world g) = None) as Hc by (apply Hf; lia).
  pose proof (registry_ok_insert (call_owner g) (next_call (world g)) _ Hr Hc) as Hr'.
  split_and!; cbn.
  - by apply registry_ok_attach.
  - intros c Hle. cbn in *. apply eq_None_not_Some. rewrite attach_calls. apply eq_None_not_Some. cbn.
    apply lookup_insert_None. split; [apply Hf|]; lia.
  - rewrite attach_registered by done. rewrite !registered_calls_ok by done.
    unfold Registry_insert. rewrite owner_count_insert by done. cbn. rewrite decide_True by done. lia.
Qed.

Lemma register_call_registers scope g :
  next_call (world g) + 1 < 2 ^ 64 → next_call (world g) < MAX_CALL_ID →
  (register_call scope true g).2
  = set_pending (<[next_call (world g) := mkPendingCall scope (0, next_task (world g))]> (pending g))
      (registered_world g) g.
Proof.
  intros Hn Hc. unfold register_call, registered_world. rewrite (proj2 (N.leb_gt _ _)) by done. cbn [negb].
  unfold u64_wrapping_add. rewrite N.mod_small by done. cbn [spawn_task].
  pose proof (attach_inserted (call_owner g) (next_call (world g)) (next_task (world g)) (registry (world g))) as Ha.
  cbn [set_registry registry next_call next_task snd fst] in *.
  destruct (Registry_attach _ _ _ _) as [[orphan|] r]; [done|]. reflexivity.
Qed.

Lemma pending_insert_scopes g c call w :
  let g' := set_pending (<[c := call]> (pending g)) w g in
  (∀ x, x ∈ start_ids g' → (∃ r, pc_scope call = Scope_Start r ∧ x = sr_request_id r) ∨ x ∈ start_ids g)
  ∧ (∀ x, x ∈ wait_keys g' → pc_scope call = Scope_Wait x ∨ x ∈ wait_keys g).
Proof.
  split; intros x.
  - intros (i & y & r & Hy & Hs & ->)%elem_of_start_ids. cbn in Hy.
    apply lookup_insert_Some in Hy as [[<- <-]|[? Hy]]; [eauto|].
    right. apply elem_of_start_ids. eauto 6.
  - intros (i & y & Hy & Hs)%elem_of_wait_keys. cbn in Hy.
    apply lookup_insert_Some in Hy as [[<- <-]|[? Hy]]; [eauto|].
    right. apply elem_of_wait_keys. eauto 6.
Qed.

Lemma registry_inserted_ok k g scope :
  graph_ok k g → connected g = true → fits scope g →
  N.of_nat (size (pending g)) < in_flight_calls (limits g) →
  registered g < in_flight_calls (limits g) →
  next_call (world g) < MAX_CALL_ID →
  graph_ok (k + 1)
    (set_pending (<[next_call (world g) := mkPendingCall scope (0, next_task (world g))]> (pending g))
       (registered_world g) g).
Proof.
  intros H Hcon Hfit Hsize Hreg Hn.
  destruct (registered_world_ok g (ok_registry _ _ H) (ok_fresh _ _ H)) as (Hr & Hf & Hcount).
  pose proof (ok_pending_fresh _ _ H _ (N.le_refl _)) as Hnone.
  set (call := mkPendingCall scope (0, next_task (world g))).
  destruct (pending_insert_scopes g (next_call (world g)) call (registered_world g)) as [Hs Hw].
  set (g' := set_pending _ _ _) in *.
  assert (registered g' = registered g + 1) as Hreg' by (unfold registered; cbn [g' world call_owner set_pending]; rewrite Hcount; lia).
  destruct H; split; try done.
  - change (next_call (world g) + 1 ≤ MAX_CALL_ID + (k + 1)). lia.
  - change (∀ c, next_call (world g) + 1 ≤ c → <[next_call (world g) := call]> (pending g) !! c = None).
    intros c Hc. apply lookup_insert_None. split; [apply ok_pending_fresh0|]; lia.
  - change (N.of_nat (size (<[next_call (world g) := call]> (pending g))) ≤ in_flight_calls (limits g)).
    rewrite map_size_insert_None by done. lia.
  - rewrite Hreg'. change (limits g') with (limits g). lia.
  - destruct scope; cbn [fits] in Hfit; (etrans; [apply distinct_le|eassumption]); cbn in Hs |- *;
      intros x Hx; destruct (Hs x Hx) as [(r & [=] & ->)|?]; subst; set_solver.
  - destruct scope; cbn [fits] in Hfit; (etrans; [apply distinct_le|eassumption]); cbn in Hw |- *;
      intros x Hx; destruct (Hw x Hx) as [[=]|?]; subst; set_solver.
  - intros t Ht. cbn in Ht. assert (t = (0, next_task (world g)) ∨ t ∈ running (world g)) as [->|Ht'] by set_solver.
    + left. apply elem_of_tasks. exists (next_call (world g)), call. cbn. by rewrite lookup_insert_eq.
    + destruct (ok_held0 t Ht') as [Hc|?]; [left|by right]. apply elem_of_tasks in Hc as (c & a & Hc & <-).
      apply elem_of_tasks. exists c, a. split; [|done]. cbn. rewrite lookup_insert_ne; [done|congruence].
  - intros c x. cbn. intros [[<- <-]|[? Hx]]%lookup_insert_Some; [|eauto].
    intros Hrel. by destruct scope.
  - intros Hcon'. cbn in Hcon'. congruence.
Qed.

Lemma graph_ok_weaken k g : graph_ok k g → graph_ok (k + 1) g.
Proof. intros H. keep H. lia. Qed.

(** A registration that fails draws an identifier and changes nothing else. *)
Lemma drawn_ok k g :
  graph_ok k g → next_call (world g) + 1 < 2 ^ 64 →
  graph_ok (k + 1)
    (set_pending (pending g) (set_registry (registry (world g)) (u64_wrapping_add (next_call (world g)) 1)
       (world g)) g).
Proof.
  intros H Hn. unfold u64_wrapping_add. rewrite N.mod_small by done. keep H.
  - lia.
  - intros c Hc. cbn in *. apply ok_fresh0. lia.
  - intros c Hc. apply ok_pending_fresh0. lia.
Qed.

Lemma register_call_ok k scope reserved g :
  graph_ok k g → k < 2 ^ 63 → connected g = true → fits scope g →
  N.of_nat (size (pending g)) < in_flight_calls (limits g) →
  registered g < in_flight_calls (limits g) →
  graph_ok (k + 1) (register_call scope reserved g).2.
Proof.
  intros H Hk Hcon Hfit Hsize Hreg. pose proof (ok_next_call _ _ H) as Hle.
  assert (next_call (world g) + 1 < 2 ^ 64) as Hn by (unfold MAX_CALL_ID in Hle; lia).
  destruct (N.leb_spec MAX_CALL_ID (next_call (world g))) as [Hmax|Hmax].
  - unfold register_call. rewrite (proj2 (N.leb_le _ _)) by done. by apply drawn_ok.
  - destruct reserved; [rewrite register_call_registers by done; by apply registry_inserted_ok|].
    unfold register_call. rewrite (proj2 (N.leb_gt _ _)) by done. by apply drawn_ok.
Qed.

(** After the released calls were joined, those left are in flight. *)
Lemma reaped_size g :
  N.of_nat (size (pending (reap_released_calls g))) = in_flight (reap_released_calls g).
Proof.
  unfold in_flight. cbn. f_equal. f_equal. symmetry.
  apply map_filter_id. by intros c call [_ Hc]%map_lookup_filter_Some.
Qed.

Lemma admit_call_ok k rpc between reserved g :
  graph_ok k g → k < 2 ^ 63 → connected g = true →
  graph_ok (k + 1) (admit_call rpc between reserved g).2.
Proof.
  intros H Hk Hcon. unfold admit_call.
  pose proof (release_unregistered_ok _ _ (prune_ok _ _ H)) as H1.
  set (g1 := release_unregistered (prune_finished g)) in *.
  assert (connected g1 = true) as Hcon1.
  { unfold g1, release_unregistered. generalize (unregistered_calls (call_owner (prune_finished g))
      (live_ids (prune_finished g)) (registry (world (prune_finished g)))).
    assert (connected (prune_finished g) = true) as Hp by done. revert Hp. generalize (prune_finished g). clear.
    intros g Hg ids. revert g Hg. induction ids as [|id ids IH]; intros g Hg; cbn; [done|]. apply IH.
    unfold mark_released. by destruct (pending g !! id). }
  destruct (call_scope rpc g1) as [scope|] eqn:Hsc; [|by apply graph_ok_weaken].
  pose proof (call_scope_fits _ _ _ _ H1 Hsc) as Hfit.
  set (g2 := if in_flight_calls (limits g1) <=? N.of_nat (size (pending g1)) then reap_released_calls g1 else g1).
  assert (graph_ok k g2 ∧ limits g2 = limits g1 ∧ connected g2 = true ∧ fits scope g2
          ∧ (in_flight g2 < in_flight_calls (limits g1) → N.of_nat (size (pending g2)) < in_flight_calls (limits g1)))
    as (H2 & Hl2 & Hcon2 & Hfit2 & Hsize2).
  { unfold g2. destruct (N.leb_spec (in_flight_calls (limits g1)) (N.of_nat (size (pending g1)))).
    - split_and!; [by apply reap_ok|done|done| |by rewrite reaped_size].
      eapply fits_mono; [..|exact Hfit]; [done|]. cbn. by intros c call [? _]%map_lookup_filter_Some.
    - by split_and!. }
  pose proof (others_ok _ between _ H2) as H3. cbn zeta.
  assert (limits (others between g2) = limits g1) as Hl3 by done.
  destruct (_ || _) eqn:Hce; [by apply graph_ok_weaken|].
  apply orb_false_iff in Hce as [Hin%N.leb_gt Hre%N.leb_gt].
  destruct reserved as [[] reserved]; [|by apply graph_ok_weaken]. cbn.
  apply register_call_ok; auto; rewrite Hl3; [|done]. apply Hsize2, Hin.
Qed.

(** *** Start tickets *)

Lemma fresh_ticket_None draws g ticket : fresh_ticket draws g = Some ticket → starts g !! ticket = None.
Proof.
  induction draws as [|c draws IH]; cbn; [done|]. case_bool_decide as Hc; [done|].
  intros [= <-]. by apply eq_None_not_Some.
Qed.

Lemma find_start_None request_id g :
  find_start request_id g = None →
  ∀ t s, starts g !! t = Some s → sr_request_id (ps_request s) ≠ request_id.
Proof.
  unfold find_start. rewrite fmap_None, list_find_None, Forall_forall.
  intros Hf t s Hs. apply (Hf (t, s)). by apply elem_of_map_to_list.
Qed.

Lemma find_start_Some request_id g t s :
  find_start request_id g = Some (t, s) →
  starts g !! t = Some s ∧ sr_request_id (ps_request s) = request_id.
Proof.
  unfold find_start. intros ([i [t' s']] & Hf & [= -> ->])%fmap_Some.
  apply list_find_Some in Hf as (Hl & Hid & _). split; [|done].
  apply elem_of_map_to_list. by eapply list_elem_of_lookup_2.
Qed.

(** A ticket whose channel is not empty has a task that cannot wait for the network. *)
Lemma join_settled t w : receive t w ≠ Start_NotReady → join_reason t w ≠ Join_Blocking.
Proof.
  unfold join_reason, receive. intros Hr. destruct (bool_decide (t ∈ aborted w)); [done|].
  destruct (sent w !! t); [done|]. destruct (decide (t ∈ running w)) as [Ht|Ht].
  - by rewrite bool_decide_eq_true_2 in Hr.
  - by rewrite (bool_decide_eq_true_2 (t ∉ running w)), orb_true_r.
Qed.

Section Tickets.
Context `{SerdeJson} `{Base64}.
Context `{JsonText StartTicketDocument, JsonText StartWorkflowOutcomeDocument}.

Lemma issue_ticket_ok k request draws g r :
  graph_ok k g → connected g = true → N.of_nat (size (starts g)) < pending_starts (limits g) →
  find_start (sr_request_id request) g = None →
  issue_ticket request draws g = Some r → graph_ok k r.2.
Proof.
  intros Hg Hcon Hsize Hfind. unfold issue_ticket.
  intros (ticket & Ht%fresh_ticket_None & Hr)%bind_Some.
  destruct (encode_start_ticket ticket); injection Hr as <-; [|done]. cbn.
  pose proof (find_start_None _ _ Hfind) as Hids. keep Hg.
  - rewrite map_size_insert_None by done. lia.
  - intros t t' s s' [[<- <-]|[Hne Hs]]%lookup_insert_Some [[<- <-]|[Hne' Hs']]%lookup_insert_Some; cbn; eauto.
    + intros Hid. by destruct (Hids _ _ Hs').
    + intros Hid. by destruct (Hids _ _ Hs).
  - intros t [Hn|Ht']%elem_of_union.
    + right. left. apply elem_of_tasks. exists ticket, (mkPendingStart request (0, next_task (world g))). cbn.
      rewrite lookup_insert_eq. set_solver.
    + destruct (ok_held0 t Ht') as [?|[Hs|?]]; [by left| |by right; right]. right; left.
      apply elem_of_tasks in Hs as (c & start & Hc & <-). apply elem_of_tasks. exists c, start. cbn.
      split; [|done]. rewrite lookup_insert_ne; [done|congruence].
  - congruence.
Qed.

Lemma finish_start_ok k ticket r g :
  graph_ok k g → core_open g = true →
  (∀ s, starts g !! ticket = Some s → receive (ps_task s) (world g) ≠ Start_NotReady) →
  graph_ok k (finish_start ticket r g).2.
Proof.
  intros Hg Hopen Hread. unfold finish_start. destruct (starts g !! ticket) as [s|] eqn:Hs; [|done].
  rewrite Hopen. specialize (Hread s eq_refl). cbn. keep Hg.
  - pose proof (map_subseteq_size _ _ (delete_subseteq (starts g) ticket)). lia.
  - intros t t' x x' [_ ?]%lookup_delete_Some [_ ?]%lookup_delete_Some. eauto.
  - intros t [Ht Hne]%elem_of_difference.
    destruct (ok_held0 t Ht) as [?|[Hx|?]]; [by left| |by right; right]. right; left.
    apply elem_of_tasks in Hx as (c & start & Hc & <-). apply elem_of_tasks. exists c, start. cbn. split; [|done].
    apply lookup_delete_Some. split; [|done]. intros ->. simplify_eq. set_solver.
  - apply Forall_app. split; [done|]. constructor; [|done]. by apply join_settled.
  - intros Hcon. destruct (ok_idle0 Hcon) as (?&->&?&?&?). by split_and!.
Qed.
End Tickets.

(** *** Waits, connecting and heartbeats *)

Lemma retained_wait_ok k ws g :
  graph_ok k g → connected g = true → N.of_nat (length ws) ≤ pending_waits (limits g) →
  graph_ok k (set_waits ws g).
Proof. intros Hg Hcon Hw. keep Hg. congruence. Qed.

Lemma client_and_handle_Ok g u : client_and_handle g = Ok u → connected g = true ∧ core_open g = true.
Proof. unfold client_and_handle. by destruct (connected g), (core_open g). Qed.

Lemma record_heartbeat_ok k token details g :
  graph_ok k g → connected g = true → graph_ok k (record_heartbeat token details g).
Proof.
  intros Hg Hcon. unfold record_heartbeat, HeartbeatThrottle.record.
  destruct (tokens (throttle g) !! token) as [ts|]; [|destruct (_ || _)]; keep Hg; try congruence.
  intros t [Ht|Ht]%elem_of_union.
  - apply elem_of_singleton in Ht as ->. do 2 right. left. apply elem_of_driver_names. cbn. set_solver.
  - destruct (ok_held0 t Ht) as [?|[?|[Hd|?]]]; [by left|by right; left| |by do 3 right].
    do 2 right. left. apply elem_of_driver_names in Hd as [H1 H2]. apply elem_of_driver_names. cbn.
    split; [done|]. apply elem_of_union_r, elem_of_filter. split; [|done].
    apply bool_decide_eq_false. intros Hn. apply Hn. by rewrite <- H1, <- surjective_pairing.
Qed.

Lemma connected_ok k l g :
  graph_ok k g → connected g = false → core_open g = true → graph_ok k (set_client true l g).
Proof.
  intros Hg Hcon Hopen. destruct (ok_idle _ _ Hg Hcon) as (Hp & Hs & Hw & Hd & Hr).
  destruct Hg; split; cbn in *; try done; unfold registered in *; cbn in *;
    rewrite ?Hp, ?Hs, ?Hw, ?Hr, ?map_size_empty; cbn; try lia; try done.
  all: unfold start_ids, wait_keys, pending_scopes; cbn; rewrite Hp, map_to_list_empty; cbn;
    rewrite distinct_nil; lia.
Qed.

(** *** Tearing the client down *)

(** From [w] to [w'] every one of [tasks] was aborted, and joined unless it is in [rest]. *)
Record quieted (tasks rest : list TaskName) (w w' : World) : Prop := {
  q_next : next_call w' = next_call w;
  q_running : running w' ⊆ running w;
  q_tasks : ∀ t, t ∈ tasks → t ∈ running w' → t ∈ rest;
  q_rest : ∀ t, t ∈ rest → t ∈ aborted w';
  q_aborted : aborted w ⊆ aborted w';
  q_joins : Forall (λ j, j.2 ≠ Join_Blocking) (joins w) → Forall (λ j, j.2 ≠ Join_Blocking) (joins w')
}.

Lemma quieted_trans l l' r r' w w' w'' :
  quieted l r w w' → quieted l' r' w' w'' → quieted (l ++ l') (r ++ r') w w''.
Proof.
  intros [Hn Hr Ht Hre Ha Hj] [Hn' Hr' Ht' Hre' Ha' Hj']. split; [congruence|by etrans| | |by etrans|auto].
  - intros t [Hl|Hl]%elem_of_app Hrun; apply elem_of_app; [left|right]; auto.
  - intros t [Hl|Hl]%elem_of_app; auto.
Qed.

Lemma quieted_joined tasks w : quieted tasks [] w (join_all tasks (abort_all tasks w)).
Proof.
  destruct (abort_all_spec tasks w) as (Hr & Hn & Hrun & Hj & Ha).
  destruct (join_all_spec tasks (abort_all tasks w)) as (Hr' & Hn' & Ha' & Hrun' & Hj').
  split; [congruence|..].
  - intros t [Ht _]%Hrun'. by rewrite <- Hrun.
  - intros t Ht [_ Hn2]%Hrun'. by destruct Hn2.
  - by intros t ?%not_elem_of_nil.
  - rewrite Ha', Ha. apply union_subseteq_l.
  - intros Hf. apply Hj'; [|by rewrite Hj]. intros t Ht. rewrite Ha. set_solver +Ht.
Qed.

Lemma quieted_aborted tasks w : quieted tasks tasks w (abort_all tasks w).
Proof.
  destruct (abort_all_spec tasks w) as (Hr & Hn & Hrun & Hj & Ha).
  split; [done|by rewrite Hrun|done| | |by rewrite Hj]; rewrite Ha; [|apply union_subseteq_l].
  intros t Ht. set_solver +Ht.
Qed.

Lemma join_or_return_quieted wait tasks g w :
  quieted tasks (join_or_return wait tasks g (abort_all tasks w)).1 w
    (join_or_return wait tasks g (abort_all tasks w)).2.
Proof.
  unfold join_or_return. destruct (wait && core_open g); [apply quieted_joined|apply quieted_aborted].
Qed.

Lemma abort_starts_quieted wait g :
  core_open g = true ∨ starts g = ∅ →
  quieted (start_tasks g) (abort_pending_starts wait g).1 (world g) (world (abort_pending_starts wait g).2).
Proof.
  intros Hor. unfold abort_pending_starts. destruct wait; cbn; [|apply quieted_aborted].
  destruct (core_open g) eqn:Ho; [apply quieted_joined|]. destruct Hor as [|He]; [done|].
  unfold start_tasks. rewrite He, map_to_list_empty. apply quieted_aborted.
Qed.

Lemma join_or_return_registry wait tasks g w :
  registry (join_or_return wait tasks g (abort_all tasks w)).2 = registry w.
Proof.
  unfold join_or_return. destruct (abort_all_spec tasks w) as (Hr & _).
  destruct (wait && core_open g); cbn; [|done].
  by destruct (join_all_spec tasks (abort_all tasks w)) as (-> & _).
Qed.

Lemma abort_starts_shape wait g :
  (abort_pending_starts wait g).2 = set_starts ∅ (world (abort_pending_starts wait g).2) g
  ∧ registry (world (abort_pending_starts wait g).2) = registry (world g).
Proof.
  unfold abort_pending_starts. destruct (abort_all_spec (start_tasks g) (world g)) as (Hr & _).
  destruct wait, (core_open g); cbn; split; try done.
  by destruct (join_all_spec (start_tasks g) (abort_all (start_tasks g) (world g))) as (-> & _).
Qed.

Lemma abort_calls_shape wait g :
  let r := abort_pending_calls wait g in
  r.2 = set_pending ∅ (world r.2) g
  ∧ registry (world r.2) = (Registry_release_owner (call_owner g) (registry (world g))).2
  ∧ quieted (call_tasks g) r.1 (world g) (world r.2).
Proof.
  unfold abort_pending_calls. cbn zeta.
  set (w := set_registry _ _ _).
  pose proof (join_or_return_quieted wait (call_tasks g) g w) as Hq.
  pose proof (join_or_return_registry wait (call_tasks g) g w) as Hr.
  destruct (join_or_return _ _ _ _) as [rest w']. cbn in *. split_and!; try done.
  destruct Hq. by split.
Qed.

Lemma abort_drivers_shape wait g :
  let r := abort_heartbeat_drivers wait g in
  r.2 = set_throttle empty_throttle (generation g + 1) (world r.2) g
  ∧ registry (world r.2) = registry (world g)
  ∧ quieted (driver_names g) r.1 (world g) (world r.2).
Proof.
  unfold abort_heartbeat_drivers. cbn zeta.
  pose proof (join_or_return_quieted wait (driver_names g) g (world g)) as Hq.
  pose proof (join_or_return_registry wait (driver_names g) g (world g)) as Hr.
  by destruct (join_or_return _ _ _ _) as [rest w'].
Qed.

(** The three aborts one after the other. *)
Definition abort_client (wait : bool) (g : Graph) : list TaskName * Graph :=
  let '(a, g) := abort_pending_starts wait (set_waits [] g) in
  let '(b, g) := abort_pending_calls wait g in
  let '(c, g) := abort_heartbeat_drivers wait g in
  (a ++ b ++ c, g).
#[local] Arguments abort_client : simpl never.

Lemma abort_client_spec wait g :
  core_open g = true ∨ starts g = ∅ →
  let r := abort_client wait g in
  r.2 = mkGraph (core_open g) (connected g) (worker_running g) (worker_namespace g) (intervals g) (limits g)
          (call_owner g) ∅ [] ∅ empty_throttle (generation g + 1) (cleanup g) (world r.2)
  ∧ registry (world r.2) = (Registry_release_owner (call_owner g) (registry (world g))).2
  ∧ quieted (start_tasks g ++ call_tasks g ++ driver_names g) r.1 (world g) (world r.2).
Proof.
  intros Ho. unfold abort_client.
  pose proof (abort_starts_shape wait (set_waits [] g)) as (H1 & R1).
  pose proof (abort_starts_quieted wait (set_waits [] g) Ho) as Q1.
  destruct (abort_pending_starts wait (set_waits [] g)) as [a g1]. cbn [fst snd] in *.
  pose proof (abort_calls_shape wait g1) as (H2 & R2 & Q2).
  destruct (abort_pending_calls wait g1) as [b g2]. cbn [fst snd] in *.
  pose proof (abort_drivers_shape wait g2) as (H3 & R3 & Q3).
  destruct (abort_heartbeat_drivers wait g2) as [c g3]. cbn [fst snd] in *.
  assert (call_tasks g1 = call_tasks g) as E1 by by rewrite H1.
  assert (driver_names g2 = driver_names g) as E2 by by rewrite H2, H1.
  rewrite E1 in Q2. rewrite E2 in Q3. split_and!.
  - rewrite H3. cbn. rewrite H2, H1. reflexivity.
  - rewrite R3, R2, R1. by rewrite H1.
  - eapply quieted_trans; [exact Q1|]. by eapply quieted_trans.
Qed.

Lemma released_owner k g :
  graph_ok k g →
  let r := (Registry_release_owner (call_owner g) (registry (world g))).2 in
  registry_ok r ∧ registered_calls (call_owner g) r = 0%nat
  ∧ (∀ c, calls (registry (world g)) !! c = None → calls r !! c = None).
Proof.
  intros Hg. pose proof (Registry_release_owner_spec (call_owner g) _ (ok_registry _ _ Hg)) as Hs.
  destruct (Registry_release_owner _ _) as [released r]. destruct Hs as (Hr & Hl & _). cbn. split_and!; [done| |].
  - rewrite registered_calls_ok by done. unfold owner_count. apply map_size_empty_iff, map_empty.
    intros c. apply eq_None_not_Some. intros [rc [Hc Heq]%map_lookup_filter_Some].
    rewrite Hl in Hc. case_decide as Ho; [done|]. apply Ho.
    unfold owns_call. rewrite Hc. cbn. by apply bool_decide_eq_true.
  - intros c Hc. rewrite Hl. by case_decide.
Qed.

Lemma torn_down_ok k g g' rest :
  graph_ok k g →
  quieted (start_tasks g ++ call_tasks g ++ driver_names g) rest (world g) (world g') →
  registry (world g') = (Registry_release_owner (call_owner g) (registry (world g))).2 →
  call_owner g' = call_owner g → starts g' = ∅ → pending g' = ∅ → waits g' = [] →
  drivers (throttle g') = ∅ → connected g' = false → (core_open g' = true → cleanup g' = []) →
  (∀ t, t ∈ cleanup g' ↔ t ∈ cleanup g ∨ t ∈ rest) →
  graph_ok k g'.
Proof.
  intros Hg [Hn Hrun Ht Hre Ha Hj] Hr Ho Hs Hp Hw Hd Hc Hcl Hin.
  destruct (released_owner k g Hg) as (Hr1 & Hr2 & Hr3). rewrite <- Hr in Hr1, Hr2, Hr3.
  assert (registered g' = 0) as Hz by (unfold registered; rewrite Ho, Hr2; done).
  assert (start_ids g' = [] ∧ wait_keys g' = []) as [Hsi Hwk]
    by (unfold start_ids, wait_keys, pending_scopes; by rewrite Hp, map_to_list_empty).
  destruct Hg. split; rewrite ?Hz, ?Hn, ?Hp, ?Hs, ?Hw, ?Hsi, ?Hwk, ?map_size_empty, ?distinct_nil; cbn;
    try done; try lia.
  - intros c Hle. apply Hr3, ok_fresh0. by rewrite <- Hn.
  - intros t Htr. do 3 right. apply Hin.
    assert (t ∈ cleanup g ∨ t ∈ start_tasks g ++ call_tasks g ++ driver_names g) as [?|?]; [|by left|right; auto].
    rewrite !elem_of_app. destruct (ok_held0 t (Hrun _ Htr)) as [?|[?|[?|?]]]; auto.
  - intros t [?|?]%Hin; auto.
  - auto.
  - congruence.
Qed.

Lemma not_open_idle k g : graph_ok k g → core_open g = true ∨ starts g = ∅.
Proof.
  intros Hg. destruct (core_open g) eqn:Ho; [by left|right].
  apply (ok_idle _ _ Hg). destruct (connected g) eqn:Hc; [|done].
  by rewrite (ok_open _ _ Hg Hc) in Ho.
Qed.

Lemma join_or_return_rest wait tasks g w :
  (wait = true ∧ core_open g = true) ∨ tasks = [] → (join_or_return wait tasks g w).1 = [].
Proof. unfold join_or_return. intros [[-> ->]| ->]; [done|]. by destruct (wait && core_open g). Qed.

Lemma abort_starts_rest wait g :
  (wait = true ∧ core_open g = true) ∨ start_tasks g = [] → (abort_pending_starts wait g).1 = [].
Proof. unfold abort_pending_starts. intros [[-> _]| ->]; [done|]. by destruct wait. Qed.

Lemma abort_calls_rest wait g :
  (wait = true ∧ core_open g = true) ∨ call_tasks g = [] → (abort_pending_calls wait g).1 = [].
Proof.
  intros Hor. unfold abort_pending_calls. set (w := abort_all _ _).
  pose proof (join_or_return_rest wait (call_tasks g) g w Hor) as Hr. by destruct (join_or_return _ _ _ _).
Qed.

Lemma abort_drivers_rest wait g :
  (wait = true ∧ core_open g = true) ∨ driver_names g = [] → (abort_heartbeat_drivers wait g).1 = [].
Proof.
  intros Hor. unfold abort_heartbeat_drivers. set (w := abort_all _ _).
  pose proof (join_or_return_rest wait (driver_names g) g w Hor) as Hr. by destruct (join_or_return _ _ _ _).
Qed.

(** Nothing is left to join after a waiting abort, or when there was nothing to abort. *)
Lemma abort_client_rest k wait g :
  graph_ok k g → (wait = true ∧ core_open g = true) ∨ core_open g = false → (abort_client wait g).1 = [].
Proof.
  intros Hg Hor.
  assert (core_open g = false → start_tasks g = [] ∧ call_tasks g = [] ∧ driver_names g = []) as Hempty.
  { intros Ho. assert (connected g = false) as Hc.
    { destruct (connected g) eqn:Hc; [|done]. by rewrite (ok_open _ _ Hg Hc) in Ho. }
    destruct (ok_idle _ _ Hg Hc) as (Hp & Hs & _ & Hd & _).
    unfold start_tasks, call_tasks, driver_names. cbn. by rewrite Hp, Hs, Hd, !map_to_list_empty, elements_empty. }
  unfold abort_client.
  pose proof (abort_starts_shape wait (set_waits [] g)) as [H1 _].
  pose proof (abort_starts_rest wait (set_waits [] g)) as R1.
  destruct (abort_pending_starts wait (set_waits [] g)) as [a g1]. cbn [fst snd] in *.
  pose proof (abort_calls_shape wait g1) as [H2 _]. pose proof (abort_calls_rest wait g1) as R2.
  destruct (abort_pending_calls wait g1) as [b g2]. cbn [fst snd] in *.
  pose proof (abort_drivers_rest wait g2) as R3.
  destruct (abort_heartbeat_drivers wait g2) as [c g3]. cbn [fst snd] in *.
  assert (core_open g1 = core_open g ∧ core_open g2 = core_open g ∧ call_tasks g1 = call_tasks g
          ∧ driver_names g2 = driver_names g) as (O1 & O2 & C1 & D2) by by rewrite H2, H1.
  rewrite O1, C1 in R2. rewrite O2, D2 in R3. change (start_tasks (set_waits [] g)) with (start_tasks g) in R1.
  change (core_open (set_waits [] g)) with (core_open g) in R1.
  destruct Hor as [[-> Ho]|Ho]; [rewrite R1, R2, R3 by auto; done|].
  destruct (Hempty Ho) as (?&?&?). rewrite R1, R2, R3 by auto. done.
Qed.

Lemma disconnect_shape g :
  worker_running g = false →
  disconnect_client g = (Ok [], set_client false ClientLimits_default (abort_client true g).2).
Proof.
  intros Hw. unfold disconnect_client, abort_client. rewrite Hw.
  destruct (abort_pending_starts true (set_waits [] g)) as [a g1]. cbn [snd].
  destruct (abort_pending_calls true g1) as [b g2]. cbn [snd].
  by destruct (abort_heartbeat_drivers true g2) as [c g3].
Qed.

Lemma close_shape wait g :
  close wait g = if core_open g then set_closed (abort_client wait g).1 (abort_client wait g).2
                 else (abort_client wait g).2.
Proof.
  unfold close, abort_client.
  destruct (abort_pending_starts wait (set_waits [] g)) as [a g1] eqn:E1.
  destruct (abort_pending_calls wait g1) as [b g2] eqn:E2.
  destruct (abort_heartbeat_drivers wait g2) as [c g3] eqn:E3. cbn [fst snd].
  pose proof (abort_starts_shape wait (set_waits [] g)) as [H1 _]. rewrite E1 in H1. cbn in H1.
  pose proof (abort_calls_shape wait g1) as [H2 _]. rewrite E2 in H2. cbn in H2.
  pose proof (abort_drivers_shape wait g2) as [H3 _]. rewrite E3 in H3. cbn in H3.
  by replace (core_open g3) with (core_open g) by by rewrite H3, H2, H1.
Qed.

Lemma aborted_client_ok k wait g g' :
  graph_ok k g → world g' = world (abort_client wait g).2 →
  call_owner g' = call_owner g → starts g' = ∅ → pending g' = ∅ → waits g' = [] →
  drivers (throttle g') = ∅ → connected g' = false → (core_open g' = true → cleanup g' = []) →
  (∀ t, t ∈ cleanup g' ↔ t ∈ cleanup g ∨ t ∈ (abort_client wait g).1) →
  graph_ok k g'.
Proof.
  intros Hg Hw. destruct (abort_client_spec wait g (not_open_idle k g Hg)) as (_ & Hr & Hq).
  rewrite <- Hw in Hr, Hq. intros. by eapply torn_down_ok.
Qed.

Lemma disconnect_ok k g : graph_ok k g → graph_ok k (disconnect_client g).2.
Proof.
  intros Hg. destruct (worker_running g) eqn:Hw; [unfold disconnect_client; by rewrite Hw|].
  rewrite disconnect_shape by done. cbn [snd].
  destruct (abort_client_spec true g (not_open_idle k g Hg)) as (Hs & _).
  assert ((abort_client true g).1 = []) as Hrest.
  { apply (abort_client_rest k); [done|]. destruct (core_open g); auto. }
  apply (aborted_client_ok k true g); try done; rewrite Hs; try done; [apply (ok_core _ _ Hg)|].
  intros t. cbn. rewrite Hrest. set_solver +.
Qed.

Lemma close_ok k wait g : graph_ok k g → graph_ok k (close wait g).
Proof.
  intros Hg. rewrite close_shape.
  destruct (abort_client_spec wait g (not_open_idle k g Hg)) as (Hs & _).
  destruct (core_open g) eqn:Ho; (apply (aborted_client_ok k wait g); try done; rewrite Hs; cbn); try done.
  - intros t. rewrite (ok_core _ _ Hg Ho). set_solver +.
  - destruct (connected g) eqn:Hc; [|done]. by rewrite (ok_open _ _ Hg Hc) in Ho.
  - intros t. rewrite (abort_client_rest k) by auto. set_solver +.
Qed.

Lemma join_cleanup_ok k g : graph_ok k g → graph_ok k (join_cleanup g).
Proof.
  intros Hg. destruct (join_all_spec (cleanup g) (world g)) as (Hr & Hn & Ha & Hrun & Hj).
  assert (registered (join_cleanup g) = registered g) as Hreg by (unfold registered; cbn; by rewrite Hr).
  destruct Hg. split; rewrite ?Hreg; cbn; rewrite ?Hr, ?Hn, ?Ha; try done; auto.
  - intros c. cbn. rewrite Hr, Hn. apply ok_fresh0.
  - intros t [Ht Hnot]%Hrun. destruct (ok_held0 t Ht) as [?|[?|[?|?]]]; [by left|by right; left|by do 2 right; left|done].
  - by intros t ?%not_elem_of_nil.
Qed.

(** ** Runs *)

(** What is done with one graph.  [I_Worker] is a worker that starts, or is released;
    [I_Tokens] is what the heartbeat drivers and the evictions do to the states of the
    tokens, with the drivers that an eviction stops. *)
Inductive Input :=
| I_Connect (config : ClientConfig) (handshake : Handshake)
| I_Submit (kind : N) (input : list byte) (between : list Other) (reserved : bool * bool)
| I_BeginStart (input : list byte) (reserved : option string) (draws : list string)
| I_ReadStart (input : list byte) (meanwhile : list Other)
| I_Wait (input : list byte) (reserved : bool)
    (polled : option (result WaitWorkflowResponse ClientOperationError))
| I_Heartbeat (token : list byte) (details : option Payloads)
| I_Tokens (states : gmap (list byte) (@TokenState Payloads)) (stopped : list N)
| I_Worker (running : bool) (namespace : option string) (i : HeartbeatIntervals)
| I_Disconnect
| I_Close (wait : bool)
| I_Cleanup
| I_Others (os : list Other).

Definition set_worker (running : bool) (namespace : option string) (i : HeartbeatIntervals) g : Graph :=
  mkGraph (core_open g) (connected g) running namespace i (limits g) (call_owner g)
    (starts g) (waits g) (pending g) (throttle g) (generation g) (cleanup g) (world g).

Definition set_tokens (states : gmap (list byte) (@TokenState Payloads)) (stopped : list N) g : Graph :=
  let t := throttle g in
  set_throttle (mkThrottleState states (drivers t) (next_id t) (closed t)) (generation g)
    (abort_all (pair (generation g) <$> stopped) (world g)) g.

Section Runs.
Context `{SerdeJson} `{Base64} `{CoreEnums}.
Context `{JsonText StartWorkflowRequest, JsonText WaitWorkflowRequest}.
Context `{JsonText CancelWorkflowRequest, JsonText TerminateWorkflowRequest}.
Context `{JsonText ResetWorkflowRequest, JsonText SignalWorkflowRequest}.
Context `{JsonText QueryWorkflowRequest, JsonText UpdateWorkflowRequest}.
Context `{JsonText PollWorkflowUpdateRequest, JsonText VisibilityRequest, JsonText HistoryRequest}.
Context `{Serde ActivityCompletion, Serde AsyncActivityHeartbeat}.
Context `{JsonText StartTicketDocument, JsonText StartWorkflowOutcomeDocument}.
Context `{JsonText WaitWorkflowResponse, JsonText ClientErrorDocument}.
Variable parse_url : string → result (string * bool) string.

(** [None] when a start runs out of identifiers to draw. *)
Definition graph_step (g : Graph) (i : Input) : option Graph :=
  match i with
  | I_Connect config handshake => Some (connect_client parse_url config handshake g).2
  | I_Submit kind input between reserved => Some (submit_client_call kind input between reserved g).2
  | I_BeginStart input reserved draws => snd <$> begin_start_workflow_json input reserved draws g
  | I_ReadStart input meanwhile => Some (read_start_workflow_json input meanwhile g).2
  | I_Wait input reserved polled => Some (wait_workflow_json input reserved polled g).2
  | I_Heartbeat token details => Some (if connected g then record_heartbeat token details g else g)
  | I_Tokens states stopped => Some (set_tokens states stopped g)
  | I_Worker running namespace i => Some (set_worker running namespace i g)
  | I_Disconnect => Some (disconnect_client g).2
  | I_Close wait => Some (close wait g)
  | I_Cleanup => Some (join_cleanup g)
  | I_Others os => Some (others os g)
  end.

Fixpoint graph_run (g : Graph) (inputs : list Input) : option Graph :=
  match inputs with
  | [] => Some g
  | i :: inputs => g' ← graph_step g i; graph_run g' inputs
  end.

#[local] Ltac checked Hc :=
  match goal with |- graph_ok _ (match ?c with _ => _ end).2 => destruct c as [?|?] eqn:Hc end.

Lemma submit_ok k kind input between reserved g :
  graph_ok k g → k < 2 ^ 63 → graph_ok (k + 1) (submit_client_call kind input between reserved g).2.
Proof.
  intros Hg Hk. unfold submit_client_call. cbn zeta. checked Hc; [|by apply graph_ok_weaken].
  apply admit_call_ok; [done..|].
  do 4 (apply bind_Ok in Hc as (? & _ & Hc)). apply bind_Ok in Hc as (? & Hc & _).
  by apply client_and_handle_Ok in Hc as [? _].
Qed.

Lemma begin_ok k input reserved draws g r :
  graph_ok k g → begin_start_workflow_json input reserved draws g = Some r → graph_ok k r.2.
Proof.
  intros Hg. unfold begin_start_workflow_json. cbn zeta.
  match goal with |- match ?c with _ => _ end = _ → _ => destruct c as [request|f] eqn:Hc end;
    [|by intros [= <-]].
  do 2 (apply bind_Ok in Hc as (? & _ & Hc)). apply bind_Ok in Hc as (? & Hc & [= ->]).
  apply client_and_handle_Ok in Hc as [Hcon _].
  destruct (find_start _ g) as [[ticket other]|] eqn:Hf.
  { destruct (negb _); by intros [= <-]. }
  destruct (N.leb_spec (pending_starts (limits g)) (N.of_nat (size (starts g)))); [by intros [= <-]|].
  destruct reserved; [by intros [= <-]|]. by apply issue_ticket_ok.
Qed.

Lemma read_ok k input meanwhile g : graph_ok k g → graph_ok k (read_start_workflow_json input meanwhile g).2.
Proof.
  intros Hg. unfold read_start_workflow_json. cbn zeta. checked Hc; [|done].
  do 2 (apply bind_Ok in Hc as (? & _ & Hc)). apply bind_Ok in Hc as (? & Hcon & Hc).
  apply bind_Ok in Hc as (start & Hstart%ok_or_Ok & [= <-]).
  assert (core_open g = true) as Hopen by (apply (ok_open _ _ Hg); by destruct (connected g)).
  pose proof (others_ok _ meanwhile _ Hg) as Ho.
  assert (∀ s, starts (others meanwhile g) !! x0 = Some s → s = start) as Hs
    by (cbn; intros s Hs; congruence).
  destruct (receive _ _) eqn:Hr; [|done|]; apply finish_start_ok; try done; intros s ->%Hs; by rewrite Hr.
Qed.

Lemma wait_ok k input reserved polled g :
  graph_ok k g → graph_ok k (wait_workflow_json input reserved polled g).2.
Proof.
  intros Hg. unfold wait_workflow_json. cbn zeta. checked Hc; [|done]. destruct a as [request retained].
  do 2 (apply bind_Ok in Hc as (? & _ & Hc)). apply bind_Ok in Hc as (? & [Hcon _]%client_and_handle_Ok & Hc).
  assert (N.of_nat (length retained) ≤ pending_waits (limits g)) as Hlen.
  { case_bool_decide; [simplify_eq; apply Hg|].
    destruct (N.leb_spec (pending_waits (limits g)) (N.of_nat (length (waits g)))) as [|Hlt]; [done|].
    destruct reserved; [|done]. cbn in Hc. injection Hc as <- <-. cbn [length]. lia. }
  destruct polled as [[|]|]; apply retained_wait_ok; try done;
    (etrans; [|exact Hlen]); pose proof (length_filter (λ key, key ≠ request) retained); lia.
Qed.

Lemma connect_ok k config handshake g : graph_ok k g → graph_ok k (connect_client parse_url config handshake g).2.
Proof.
  intros Hg. unfold connect_client. cbn zeta. checked Hc; [|done].
  destruct (connected g) eqn:Hcon; [done|]. apply bind_Ok in Hc as (? & Hopen & _).
  apply connected_ok; try done. by destruct (core_open g).
Qed.

Lemma set_worker_ok k running namespace i g : graph_ok k g → graph_ok k (set_worker running namespace i g).
Proof. intros Hg. by destruct Hg. Qed.

Lemma set_tokens_ok k states stopped g : graph_ok k g → graph_ok k (set_tokens states stopped g).
Proof.
  intros Hg. unfold set_tokens. cbn zeta. set (tasks := pair (generation g) <$> stopped). clearbody tasks.
  assert (∀ t w, let w' := abort_all t w in registry w' = registry w ∧ next_call w' = next_call w
    ∧ running w' = running w ∧ joins w' = joins w ∧ aborted w ⊆ aborted w') as Habort.
  { intros t. induction t as [|x t IH]; intros w; cbn; [done|].
    destruct (IH (abort_task x w)) as (-> & -> & -> & -> & Ha). cbn in *. split_and!; [done..|]. set_solver. }
  destruct (Habort tasks (world g)) as (Hr & Hn & Hrun & Hj & Ha).
  destruct Hg; split; unfold registered, fresh_calls in *; cbn in *; rewrite ?Hr, ?Hn, ?Hrun, ?Hj; try done.
  - intros c call Hc Hrel. by apply Ha, (ok_released0 c).
  - intros t Ht. by apply Ha, ok_cleanup_aborted0.
Qed.

Lemma graph_step_ok k i g g' : graph_ok k g → k < 2 ^ 63 → graph_step g i = Some g' → graph_ok (k + 1) g'.
Proof.
  intros Hg Hk. destruct i; cbn [graph_step]; intros Hs;
    try (apply fmap_Some in Hs as (r & Hs & ->); by eapply graph_ok_weaken, begin_ok);
    injection Hs as <-; try (by apply submit_ok); apply graph_ok_weaken;
    auto using connect_ok, read_ok, wait_ok, disconnect_ok, close_ok, join_cleanup_ok, others_ok,
      set_worker_ok, set_tokens_ok.
  destruct (connected g) eqn:Hc; [by apply record_heartbeat_ok|done].
Qed.

Lemma graph_run_ok k inputs g g' :
  graph_ok k g → k + N.of_nat (length inputs) ≤ 2 ^ 63 → graph_run g inputs = Some g' →
  graph_ok (k + N.of_nat (length inputs)) g'.
Proof.
  revert k g. induction inputs as [|i inputs IH]; intros k g Hg Hk.
  { cbn. intros [= <-]. by rewrite N.add_0_r. }
  intros (g1 & Hs & Hr)%bind_Some. cbn [length] in *.
  replace (k + N.of_nat (S (length inputs))) with (k + 1 + N.of_nat (length inputs)) by lia.
  eapply IH; [eapply graph_step_ok; [done| |done]; lia|lia|done].
Qed.

(** A process before its runtime graph: the registry counts its calls, and the graph's
    owner has none. *)
Record process_ok (owner : N) (w : World) : Prop := {
  po_registry : registry_ok (registry w);
  po_next_call : next_call w ≤ MAX_CALL_ID;
  po_fresh : fresh_calls w;
  po_owner : registered_calls owner (registry w) = 0%nat;
  po_running : running w = ∅;
  po_joins : joins w = []
}.

Lemma Runtime_new_ok owner defaults w : process_ok owner w → graph_ok 0 (Runtime_new owner defaults w).
Proof.
  intros [Hr Hn Hf Ho Hrun Hj].
  assert (registered (Runtime_new owner defaults w) = 0) as Hz by (unfold registered; cbn; by rewrite Ho).
  split; rewrite ?Hz; try (cbn -[MAX_CALL_ID]; done).
  - intros t. cbn. by rewrite Hrun.
  - by intros t ?%not_elem_of_nil.
  - cbn. by rewrite Hj.
Qed.

Lemma graph_reached_ok owner defaults w inputs g :
  process_ok owner w → N.of_nat (length inputs) ≤ 2 ^ 63 →
  graph_run (Runtime_new owner defaults w) inputs = Some g →
  graph_ok (N.of_nat (length inputs)) g.
Proof. intros Hp Hl Hr. apply (graph_run_ok 0 _ _ _ (Runtime_new_ok owner defaults w Hp) Hl Hr). Qed.

(** C32: Whatever is done with a runtime graph, and whatever other threads do meanwhile, it
    holds no more than its connection's limits allow: task handles and registered calls
    within the in-flight ceiling, distinct submitted starts and start tickets within the
    start limit, distinct submitted waits and retained waits within the wait limit. *)
Theorem client_calls_bounded owner defaults w inputs g :
  process_ok owner w → N.of_nat (length inputs) ≤ 2 ^ 63 →
  graph_run (Runtime_new owner defaults w) inputs = Some g →
  N.of_nat (size (pending g)) ≤ in_flight_calls (limits g)
  ∧ N.of_nat (registered_calls (call_owner g) (registry (world g))) ≤ in_flight_calls (limits g)
  ∧ distinct (start_ids g) ≤ pending_starts (limits g)
  ∧ N.of_nat (size (starts g)) ≤ pending_starts (limits g)
  ∧ distinct (wait_keys g) ≤ pending_waits (limits g)
  ∧ N.of_nat (length (waits g)) ≤ pending_waits (limits g).
Proof. intros Hp Hl Hr. destruct (graph_reached_ok _ _ _ _ _ Hp Hl Hr). by split_and!. Qed.

Lemma idle_cleanup k g t : graph_ok k g → connected g = false → t ∈ running (world g) → t ∈ cleanup g.
Proof.
  intros Hg Hc Ht. destruct (ok_idle _ _ Hg Hc) as (Hp & Hs & _ & Hd & _).
  destruct (ok_held _ _ Hg t Ht) as [Hx|[Hx|[Hx|?]]]; [..|done].
  - unfold call_tasks in Hx. rewrite Hp, map_to_list_empty in Hx. by apply not_elem_of_nil in Hx.
  - unfold start_tasks in Hx. rewrite Hs, map_to_list_empty in Hx. by apply not_elem_of_nil in Hx.
  - apply elem_of_driver_names in Hx as [_ Hx]. rewrite Hd in Hx. by apply not_elem_of_empty in Hx.
Qed.

(** C31: No task outlives the graph's handle on it.  Every task that runs is the task of a
    pending call, of a start ticket, of a heartbeat driver or of the cleanup list; without
    a connection an open graph runs none, and a closed one runs only aborted tasks that
    its cleanup thread joins.  The owner never waited for a task that could still wait for
    the network: each one it joined had been aborted, had sent its result or had ended. *)
Theorem no_task_detached owner defaults w inputs g :
  process_ok owner w → N.of_nat (length inputs) ≤ 2 ^ 63 →
  graph_run (Runtime_new owner defaults w) inputs = Some g →
  (∀ t, t ∈ running (world g) → t ∈ call_tasks g ++ start_tasks g ++ driver_names g ++ cleanup g)
  ∧ (connected g = false → core_open g = true → running (world g) = ∅)
  ∧ (core_open g = false → ∀ t, t ∈ running (world g) → t ∈ cleanup g ∧ t ∈ aborted (world g))
  ∧ Forall (λ j, j.2 ≠ Join_Blocking) (joins (world g)).
Proof.
  intros Hp Hl Hr. pose proof (graph_reached_ok _ _ _ _ _ Hp Hl Hr) as Hg. split_and!.
  - intros t Ht. rewrite !elem_of_app. by destruct (ok_held _ _ Hg t Ht) as [?|[?|[?|?]]]; auto.
  - intros Hc Ho. apply set_eq. intros t. split; [|done].
    intros Ht%(idle_cleanup _ _ _ Hg Hc). rewrite (ok_core _ _ Hg Ho) in Ht. by apply not_elem_of_nil in Ht.
  - intros Ho t Ht. assert (t ∈ cleanup g) as Hcl.
    { apply (idle_cleanup _ _ _ Hg); [|done]. destruct (connected g) eqn:Hc; [|done].
      by rewrite (ok_open _ _ Hg Hc) in Ho. }
    split; [done|]. by apply (ok_cleanup_aborted _ _ Hg).
  - apply Hg.
Qed.

(** *** Tickets *)

Lemma find_start_issued request ticket task g w :
  find_start (sr_request_id request) g = None → starts g !! ticket = None →
  find_start (sr_request_id request) (set_starts (<[ticket := mkPendingStart request task]> (starts g)) w g)
  = Some (ticket, mkPendingStart request task).
Proof.
  intros Hf Ht. set (g' := set_starts _ _ _).
  destruct (find_start (sr_request_id request) g') as [[t s]|] eqn:Hf'.
  - apply find_start_Some in Hf' as [Hs Hid]. cbn in Hs.
    apply lookup_insert_Some in Hs as [[<- <-]|[_ Hs]]; [done|].
    by destruct (find_start_None _ _ Hf _ _ Hs).
  - pose proof (find_start_None _ _ Hf' ticket (mkPendingStart request task)) as Hne. cbn in Hne.
    rewrite lookup_insert_eq in Hne. by destruct Hne.
Qed.

(** Submitting a start is idempotent: once a start has its ticket, the same request gets
    the same ticket and starts nothing, whatever identifiers the bridge would draw. *)
Theorem begin_start_idempotent input reserved draws g bytes g' reserved' draws' :
  begin_start_workflow_json input reserved draws g = Some (Ok bytes, g') →
  begin_start_workflow_json input reserved' draws' g' = Some (Ok bytes, g').
Proof.
  unfold begin_start_workflow_json. cbn zeta.
  destruct (decode_semantic_input input) as [text|]; [|done].
  destruct (map_err protocol_failure (decode_start_request text)) as [request|]; [|done].
  destruct (client_and_handle g) as [[]|] eqn:Hc; [|done].
  destruct (find_start (sr_request_id request) g) as [[ticket other]|] eqn:Hf.
  { destruct (negb (same_start_request (ps_request other) request)) eqn:Hsame; [done|].
    intros [= Hb <-]. by rewrite Hc, Hf, Hsame, Hb. }
  destruct (_ <=? _); [done|]. destruct reserved; [done|]. unfold issue_ticket.
  intros (ticket & Ht%fresh_ticket_None & Hb)%bind_Some.
  destruct (encode_start_ticket ticket) as [encoded|] eqn:He; [|done].
  injection Hb as <- <-. change (client_and_handle (set_starts _ _ g)) with (client_and_handle g).
  rewrite Hc, find_start_issued by done. cbn [ps_request].
  rewrite (proj2 (same_start_request_spec request request)) by by destruct request. cbn [negb]. by rewrite He.
Qed.

(** A start's result is read once: after a read that gave the outcome the ticket is
    unknown, to a poll and to a wait. *)
Theorem start_ticket_read_once input meanwhile later g bytes g' :
  read_start_workflow_json input meanwhile g = (Ok bytes, g') →
  read_start_workflow_json input later g' = (Err unknown_ticket, g').
Proof.
  unfold read_start_workflow_json. cbn zeta.
  destruct (decode_semantic_input input) as [text|]; [|done].
  destruct (map_err protocol_failure (decode_start_ticket text)) as [ticket|]; [|done].
  destruct (connected g) eqn:Hc; [|done].
  destruct (starts g !! ticket) as [start|] eqn:Hs; [|done]. cbn [ok_or].
  assert (∀ r, finish_start ticket r (others meanwhile g) = (Ok bytes, g') →
    connected g' = true ∧ starts g' !! ticket = None) as Hfin.
  { intros r. unfold finish_start. change (starts (others meanwhile g)) with (starts g). rewrite Hs.
    intros [= _ <-]. cbn. by rewrite lookup_delete_eq. }
  intros Hr. assert (connected g' = true ∧ starts g' !! ticket = None) as [-> ->]; [|done].
  destruct (receive _ _); [by eapply Hfin|done|by eapply Hfin].
Qed.
End Runs.
