(* ===== verification/Handoffs.v ===== *)
(** * The worker side of a runtime graph

    The live and the replay worker of [Runtime] in src/rust/core-bridge/src/abi.rs:
    starting and releasing them, and the tasks they hand to OCaml.  A worker is its
    task ledger (TaskLedger.v); a call to it is the ledger operations its lanes make,
    in their order, with Core's answer and what the poll lanes do meanwhile as
    arguments.  Every task handed to OCaml is kept as the document it was handed as,
    under its run or its token, until it is completed or rejected. *)

From S2P Require Import Prelude.
From S2P Require Import Text.
From S2P Require Import TaskLedger.
From S2P Require Import Readiness.
From S2P Require Import PollLanes.
From S2P Require Import Replay.
From S2P Require Import ReplayWorker.
From S2P Require Import Protocol.
From S2P Require Import ProtocolCodec.
From S2P Require Import WorkflowTypes.
From S2P Require Import CoreMessages.
From S2P Require Import WorkflowChecks.
From S2P Require Import CoreConversion.
From S2P Require Import ActivationConversion.
From S2P Require Import CompletionConversion.
From S2P Require Import ActivityProtocol.
From S2P Require Import Documents.
From S2P Require Import ActivityDocuments.
From S2P Require Import ClientDocuments.
From S2P Require Import HeartbeatThrottle.
From S2P Require Import ClientCalls.
From S2P Require Import WorkerConfig.
From S2P Require Import Failures.
Local Open Scope N_scope.
Local Open Scope bridge_scope.

(** ** Equality of documents *)

#[export] Instance Timestamp_eq_dec : EqDecision Timestamp.
Proof. solve_decision. Defined.
#[export] Instance WorkflowExecution_eq_dec : EqDecision WorkflowExecution.
Proof. solve_decision. Defined.
#[export] Instance NamespacedWorkflowExecution_eq_dec : EqDecision NamespacedWorkflowExecution.
Proof. solve_decision. Defined.
#[export] Instance WorkflowPriority_eq_dec : EqDecision WorkflowPriority.
Proof. solve_decision. Defined.
#[export] Instance UpdateMeta_eq_dec : EqDecision UpdateMeta.
Proof. solve_decision. Defined.
#[export] Instance ContinueAsNewInitiator_eq_dec : EqDecision ContinueAsNewInitiator.
Proof. solve_decision. Defined.
#[export] Instance WorkerDeploymentVersion_eq_dec : EqDecision WorkflowTypes.WorkerDeploymentVersion.
Proof. solve_decision. Defined.
#[export] Instance SuggestReason_eq_dec : EqDecision SuggestContinueAsNewReason.
Proof. solve_decision. Defined.
#[export] Instance ActivationMetadata_eq_dec : EqDecision ActivationMetadata.
Proof. solve_decision. Defined.
#[export] Instance Continuation_eq_dec : EqDecision Continuation.
Proof. solve_decision. Defined.
#[export] Instance InitializeContext_eq_dec : EqDecision InitializeContext.
Proof. solve_decision. Defined.
#[export] Instance ActivityResolution_eq_dec : EqDecision ActivityResolution.
Proof. solve_decision. Defined.
#[export] Instance ChildStartCause_eq_dec : EqDecision ChildWorkflowStartFailureCause.
Proof. solve_decision. Defined.
#[export] Instance ChildStartResolution_eq_dec : EqDecision ChildWorkflowStartResolution.
Proof. solve_decision. Defined.
#[export] Instance ChildResolution_eq_dec : EqDecision ChildWorkflowResolution.
Proof. solve_decision. Defined.
#[export] Instance ExternalResolution_eq_dec : EqDecision ExternalWorkflowResolution.
Proof. solve_decision. Defined.
#[export] Instance EvictionReason_eq_dec : EqDecision EvictionReason.
Proof. solve_decision. Defined.
#[export] Instance ActivationJob_eq_dec : EqDecision ActivationJob.
Proof. solve_decision. Defined.
#[export] Instance Activation_eq_dec : EqDecision Activation.
Proof. solve_decision. Defined.

#[export] Instance ActivityRetryPolicy_eq_dec : EqDecision ActivityProtocol.RetryPolicy.
Proof. solve_decision. Defined.
#[export] Instance ActivityStart_eq_dec : EqDecision ActivityProtocol.ActivityStart.
Proof. solve_decision. Defined.
#[export] Instance ActivityCancelReason_eq_dec : EqDecision ActivityProtocol.ActivityCancelReason.
Proof. solve_decision. Defined.
#[export] Instance CancellationDetails_eq_dec : EqDecision ActivityProtocol.ActivityCancellationDetails.
Proof. solve_decision. Defined.
#[export] Instance ActivityCancel_eq_dec : EqDecision ActivityProtocol.ActivityCancel.
Proof. solve_decision. Defined.
#[export] Instance ActivityVariant_eq_dec : EqDecision ActivityProtocol.ActivityTaskVariant.
Proof. solve_decision. Defined.
#[export] Instance ActivityTask_eq_dec : EqDecision ActivityProtocol.ActivityTask.
Proof. solve_decision. Defined.

(** ** State *)

(** What goes to Core, and the lines written to the standard error stream. *)
Inductive Effect :=
| Sent_Completion (completion : Core.WorkflowActivationCompletion)
| Sent_WorkflowRejection (run_id reason : string)
| Sent_ActivityCompletion (completion : Core.ActivityTaskCompletion)
| Sent_ActivityRejection (task_token : list byte) (reason : string)
| Sent_Heartbeat (task_token : list byte) (details : list Core.Payload)
| Wrote (line : string).

Record Workers := mkWorkers {
  wk_core : bool;
  wk_client : bool;
  wk_live : option TaskLedger;
  wk_replay : option TaskLedger;
  wk_namespace : option string;
  wk_intervals : N * N;
  wk_activations : gmap string Activation;
  wk_tasks : gmap (list byte) (list ActivityProtocol.ActivityTask);
  wk_effects : list Effect
}.

Definition set_live l g : Workers :=
  mkWorkers (wk_core g) (wk_client g) l (wk_replay g) (wk_namespace g) (wk_intervals g)
    (wk_activations g) (wk_tasks g) (wk_effects g).
Definition set_replay l g : Workers :=
  mkWorkers (wk_core g) (wk_client g) (wk_live g) l (wk_namespace g) (wk_intervals g)
    (wk_activations g) (wk_tasks g) (wk_effects g).
Definition set_activations a g : Workers :=
  mkWorkers (wk_core g) (wk_client g) (wk_live g) (wk_replay g) (wk_namespace g) (wk_intervals g)
    a (wk_tasks g) (wk_effects g).
Definition set_tasks t g : Workers :=
  mkWorkers (wk_core g) (wk_client g) (wk_live g) (wk_replay g) (wk_namespace g) (wk_intervals g)
    (wk_activations g) t (wk_effects g).
Definition set_namespace n g : Workers :=
  mkWorkers (wk_core g) (wk_client g) (wk_live g) (wk_replay g) n (wk_intervals g)
    (wk_activations g) (wk_tasks g) (wk_effects g).
Definition set_intervals i g : Workers :=
  mkWorkers (wk_core g) (wk_client g) (wk_live g) (wk_replay g) (wk_namespace g) i
    (wk_activations g) (wk_tasks g) (wk_effects g).
Definition emit (effect : Effect) g : Workers :=
  mkWorkers (wk_core g) (wk_client g) (wk_live g) (wk_replay g) (wk_namespace g) (wk_intervals g)
    (wk_activations g) (wk_tasks g) (wk_effects g ++ [effect]).
Definition emit_if (sent : bool) (effect : Effect) g : Workers := if sent then emit effect g else g.

Notation Tasks := (gmap (list byte) (list ActivityProtocol.ActivityTask)).

(** [None] is a panic of an [expect]. *)
Notation Outcome A := (option (A * Workers)).

(** ** Calls to a worker *)

(** What the poll lanes do to the ledger while the owner waits for Core. *)
Definition lane_op (op : LedgerOp) : bool :=
  match op with
  | OpAdmitPolledActivation _ _ | OpAdmitPolledActivity _ _
  | OpAbandonWorkflow _ | OpAbandonActivity _ | OpMarkLost => true
  | _ => false
  end.

(** What a drain, a finalizer or a disposal does to it besides. *)
Definition release_op (op : LedgerOp) : bool :=
  lane_op op ||
  match op with
  | OpBeginDraining | OpForceRemoveWorkflow _ | OpForceRemoveActivity _ | OpRetireWorkflow _
  | OpRetireActivity _ | OpClearRetired | OpTakeAll | OpTakeAllForReplay | OpTakeLeased => true
  | _ => false
  end.

Definition only (allowed : LedgerOp → bool) (ops : list LedgerOp) (l : TaskLedger) : TaskLedger :=
  run_ops (List.filter allowed ops) l.

(** The wait for Core's answer to a completion: of a live worker without a bound, of a
    replay worker bounded. *)
Inductive CoreReply := Reply_Live (reply : result unit string) | Reply_Replay (reply : GuardedCompletion).

Definition awaited (is_empty : bool) (reply : CoreReply)
    : result (result unit string) (result unit WorkerBridgeError) :=
  match reply with
  | Reply_Live reply => Ok reply
  | Reply_Replay (Readiness.Finished reply) => Ok reply
  | Reply_Replay Stranded => Err (if is_empty then Ok tt else Err CompletionStranded)
  | Reply_Replay GuardTimedOut => Err (Err CoreWaitTimedOut)
  end.

(** The result of a call, whether something was sent to Core, and the ledger. *)
Definition Called : Type := result unit WorkerBridgeError * bool * TaskLedger.

Definition complete_workflow_call (run_id : string) (is_empty : bool) (meanwhile : list LedgerOp)
    (reply : CoreReply) (l : TaskLedger) : Called :=
  match TaskLedger.complete_workflow run_id l with
  | (Err error, _) => (Err (PollLanes.Completion error), false, l)
  | (Ok _, t) =>
      let was_eviction := is_eviction_lease run_id l in
      let t := only lane_op meanwhile t in
      match awaited is_empty reply with
      | Err early => (early, true, t)
      | Ok (Ok _) => (Ok tt, true, t)
      | Ok (Err error) =>
          let '(restored, t) := restore_rejected_workflow_completion run_id t in
          let t := if restored && was_eviction then restore_eviction_lease run_id t else t in
          (Err (CoreWorkflow error), true, t)
      end
  end.

Definition reject_workflow_call (run_id : string) (meanwhile : list LedgerOp) (reply : CoreReply)
    (l : TaskLedger) : Called :=
  match retire_rejected_workflow run_id l with
  | (Err error, _) => (Err (PollLanes.Completion error), false, l)
  | (Ok _, t) =>
      let eviction_only := is_eviction_lease run_id l in
      (match awaited eviction_only reply with
       | Err early => early
       | Ok core_result => map_err CoreWorkflow core_result
       end, true, only lane_op meanwhile t)
  end.

Definition complete_activity_call (task_token : list byte) (meanwhile : list LedgerOp)
    (reply : result unit string) (l : TaskLedger) : Called :=
  match ensure_activity_leased task_token l with
  | Err error => (Err (PollLanes.Completion error), false, l)
  | Ok _ =>
      let l := only lane_op meanwhile l in
      match reply with
      | Err error => (Err (CoreActivity error), true, l)
      | Ok _ =>
          let '(retired, l) := TaskLedger.complete_activity task_token l in
          (map_err PollLanes.Completion retired, true, l)
      end
  end.

Definition reject_activity_call (task_token : list byte) (meanwhile : list LedgerOp)
    (reply : result unit string) (l : TaskLedger) : Called :=
  match ensure_activity_leased task_token l with
  | Err error => (Err (PollLanes.Completion error), false, l)
  | Ok _ =>
      let '(retired, l) := retire_rejected_activity task_token (only lane_op meanwhile l) in
      (match reply with
       | Ok _ => map_err PollLanes.Completion retired
       | Err error => Err (CoreActivity error)
       end, true, l)
  end.

Section Runtime.
Context `{SerdeJson} `{Base64} `{CoreEnums, !CompletionFail}.
Context `{Serde Activation, Serde WorkflowTypes.Completion}.
Context `{Serde ActivityProtocol.ActivityTask, Serde ActivityCompletion}.
Context `{Serde ActivityHeartbeat, Serde AsyncActivityHeartbeat}.
(** [is_only_eviction] of an activation and [is_empty] of a completion, of Core. *)
Context (is_only_eviction : Core.WorkflowActivation → bool).
Context (is_empty : Core.WorkflowActivationCompletion → bool).
(** The error of Core's builder of a worker configuration. *)
Context (core_rejects : CoreWorkerConfig → option string).

(** [queued] is what the queue of the lane gave. *)
Definition take_workflow (queued : option (ReadyTask Core.WorkflowActivation)) (l : TaskLedger)
    : option (ReadyTask Core.WorkflowActivation) * TaskLedger :=
  match queued with
  | Some (Ok activation) =>
      let run_id := Core.wa_run_id activation in
      let '(lease, l) := lease_workflow_activation run_id (is_only_eviction activation) l in
      match lease with
      | Ok _ => (Some (Ok activation), l)
      | Err AlreadyLeased => (Some (Err DuplicateIdentity), l)
      | Err _ => (Some (Err (LaneAdmission InvalidIdentity)), abandon_workflow_admission run_id l)
      end
  | other => (other, l)
  end.

Definition is_cancel (task : Core.ActivityTask) : bool :=
  match Core.at_variant task with Some (Core.Variant_Cancel _ _) => true | _ => false end.

(** A cancellation of an activity that has ended is dropped, and the queue read again. *)
Fixpoint take_activity (queued : list (ReadyTask Core.ActivityTask)) (l : TaskLedger)
    : option (ReadyTask Core.ActivityTask) * TaskLedger :=
  match queued with
  | [] => (None, l)
  | Err error :: _ => (Some (Err error), l)
  | Ok task :: queued =>
      let token := Core.at_task_token task in
      let '(lease, l) := handoff_activity token (if is_cancel task then Cancel else Start) l in
      match lease with
      | Ok _ => (Some (Ok task), l)
      | Err error =>
          if is_cancel task && bool_decide (error = UnknownActivity) then take_activity queued l
          else
            match error with
            | AlreadyLeased => (Some (Err DuplicateIdentity), l)
            | _ => (Some (Err (LaneAdmission InvalidIdentity)), abandon_activity_admission token l)
            end
      end
  end.

(** ** Documents handed to OCaml *)

Definition duplicated_lease : Failure :=
  ClientCalls.mkFailure STATUS_INTERNAL "workflow activation lease was duplicated".

Definition retain_workflow_activation (pending : gmap string Activation) (activation : Activation)
    : result (gmap string Activation) Failure :=
  match pending !! ac_run_id activation with
  | None => Ok (<[ac_run_id activation := activation]> pending)
  | Some _ => Err duplicated_lease
  end.

Definition workflow_rejection_run_id (pending : gmap string Activation) (input : list byte)
    : result string Failure :=
  let? text := decode_semantic_input input in
  let? semantic := map_err protocol_failure (decode_activation text) in
  match pending !! ac_run_id semantic with
  | Some leased =>
      if bool_decide (leased = semantic) then Ok (ac_run_id semantic)
      else Err (ClientCalls.mkFailure STATUS_PROTOCOL
             "workflow rejection does not match the leased activation")
  | None => Err (ClientCalls.mkFailure STATUS_PROTOCOL
             "workflow rejection does not match a leased activation")
  end.

Definition retain_activity_task (pending : Tasks) (task_token : list byte)
    (task : ActivityProtocol.ActivityTask) : Tasks :=
  <[task_token := default [] (pending !! task_token) ++ [task]]> pending.

Definition retire_activity_semantics (pending : Tasks) (task_token : list byte) : Tasks :=
  delete task_token pending.

(** [tasks.remove(position)], of the first equal document. *)
Fixpoint remove_first (task : ActivityProtocol.ActivityTask) (tasks : list ActivityProtocol.ActivityTask)
    : list ActivityProtocol.ActivityTask :=
  match tasks with
  | [] => []
  | candidate :: tasks =>
      if bool_decide (candidate = task) then tasks else candidate :: remove_first task tasks
  end.

Definition retire_activity_semantic (pending : Tasks) (task_token : list byte)
    (task : ActivityProtocol.ActivityTask) : Tasks :=
  match pending !! task_token with
  | Some tasks =>
      match remove_first task tasks with
      | [] => delete task_token pending
      | tasks => <[task_token := tasks]> pending
      end
  | None => pending
  end.

Definition activity_rejection_task (pending : Tasks) (input : list byte)
    : result (list byte * ActivityProtocol.ActivityTask) Failure :=
  let? text := decode_semantic_input input in
  let? semantic := map_err protocol_failure (decode_task text) in
  let? task_token := map_err protocol_failure (decode_token (tk_task_token semantic)) in
  match pending !! task_token with
  | Some tasks =>
      if bool_decide (semantic ∈ tasks) then Ok (task_token, semantic)
      else Err (ClientCalls.mkFailure STATUS_PROTOCOL "activity rejection does not match a leased task")
  | None => Err (ClientCalls.mkFailure STATUS_PROTOCOL
             "activity rejection does not match a leased task token")
  end.

(** ** Starting and releasing a worker *)

Definition invalid_state (message : string) : Failure := ClientCalls.mkFailure STATUS_INVALID_STATE message.
Definition no_replay : Failure := invalid_state "Temporal replay worker is not running".
Definition worker_failure (message : string) : Failure := ClientCalls.mkFailure STATUS_WORKER message.

Definition no_worker (g : Workers) : result () Failure :=
  if wk_live g then Err (invalid_state "Temporal workflow worker is already running")
  else if wk_replay g then Err (invalid_state "Temporal replay worker is already running")
  else Ok ().

(** [constructed] and [validated_ok] are what Core answered. *)
Definition start_worker (config : WorkerConfigInput) (constructed validated_ok : bool) (g : Workers)
    : Operation * Workers :=
  let checked :=
    let? _ := no_worker g in
    let? _ := if wk_client g then Ok () else Err client_not_connected in
    let? intervals := heartbeat_intervals (in_tuning config) in
    let? _ := into_core core_rejects config in
    let? _ := if wk_core g then Ok () else Err runtime_closed in
    let? _ := if constructed then Ok ()
              else Err (worker_failure "Temporal workflow worker construction failed") in
    let? _ := if validated_ok then Ok ()
              else Err (worker_failure "Temporal workflow worker validation failed") in
    Ok intervals in
  match checked with
  | Err failure => (Err failure, g)
  | Ok intervals =>
      (Ok [], set_intervals intervals
         (set_namespace (Some (in_namespace config)) (set_live (Some TaskLedger_new) g)))
  end.

Definition start_replay_worker (config : WorkerConfigInput) (started : result () ReplayWorkerError)
    (g : Workers) : Operation * Workers :=
  let checked :=
    let? _ := no_worker g in
    let? _ := into_core core_rejects config in
    let? _ := if wk_core g then Ok () else Err runtime_closed in
    map_err replay_worker_failure started in
  match checked with
  | Err failure => (Err failure, g)
  | Ok _ => (Ok [], set_namespace (Some (in_namespace config)) (set_replay (Some TaskLedger_new) g))
  end.

Definition initiate_worker_shutdown (g : Workers) : Outcome Operation :=
  match wk_live g with
  | None => Some (Ok [], g)
  | Some l => if wk_core g then Some (Ok [], set_live (Some (begin_draining l)) g) else None
  end.

(** The documents go with the worker that handed them out. *)
Definition forget_handoffs (g : Workers) : Workers :=
  set_tasks ∅ (set_activations ∅ (set_namespace None g)).

(** [retired] is what the drain does to the ledger. *)
Definition shutdown_worker (retired : list LedgerOp) (drained : result ShutdownRetirement ShutdownDrainError)
    (finalized : BoundedFinalize) (g : Workers) : Outcome Operation :=
  match wk_live g with
  | None => Some (Ok [], g)
  | Some l =>
      if negb (wk_core g) then None
      else
        let l := only release_op retired (begin_draining l) in
        match drained with
        | Err error => Some (Err (shutdown_drain_failure error), set_live (Some l) g)
        | Ok retirement =>
            match finalized with
            | Refused error => Some (Err (worker_bridge_failure error), set_live (Some l) g)
            | other =>
                Some (match other with
                      | Finalized =>
                          if (abandoned_leases retirement =? 0)%nat then Ok []
                          else Err (ClientCalls.mkFailure STATUS_OUTSTANDING_TASKS
                            "Temporal worker shutdown force-completed tasks that were never completed by the worker")
                      | PollLanes.Panicked => Err (worker_failure "Temporal worker finalization failed")
                      | _ => Err (worker_failure
                            "Temporal worker finalization did not finish within the shutdown bound")
                      end, forget_handoffs (set_live None g))
            end
        end
  end.

Definition finalize_replay (retired : list LedgerOp) (finalized : result () ReplayWorkerError)
    (g : Workers) : Operation * Workers :=
  let checked :=
    let? _ := if wk_core g then Ok () else Err runtime_closed in
    ok_or (wk_replay g) no_replay in
  match checked with
  | Err failure => (Err failure, g)
  | Ok l =>
      match finalized with
      | Ok _ => (Ok [], forget_handoffs (set_replay None g))
      | Err error => (Err (replay_worker_failure error), set_replay (Some (only release_op retired l)) g)
      end
  end.

Definition dispose_replay (retired : list LedgerOp) (disposed : result () ReplayWorkerError)
    (g : Workers) : Operation * Workers :=
  match wk_replay g with
  | None => (Ok [], g)
  | Some l =>
      if negb (wk_core g) then (Err runtime_closed, g)
      else
        match disposed with
        | Ok _ => (Ok [], forget_handoffs (set_replay None g))
        | Err error => (Err (replay_worker_failure error), set_replay (Some (only release_op retired l)) g)
        end
  end.

(** ** Waiting *)

Definition readiness (what : string) (shut : Operation) (outcome : ReadinessWait) : Operation :=
  match outcome with
  | WaitReady => Ok []
  | WaitTimedOut => Err (ClientCalls.mkFailure STATUS_NOT_READY
      ("Temporal " +:+ what +:+ " readiness wait timed out; retry"))
  | WaitShutdown => shut
  | WaitError error => Err (poll_lane_failure error)
  end.

Definition ended (what : string) : Operation :=
  Err (invalid_state ("Temporal " +:+ what +:+ " readiness wait ended during worker shutdown")).

Definition wait_lane (what : string) (outcome : ReadinessWait) (g : Workers) : Operation :=
  if wk_live g then readiness what (ended what) outcome else Err worker_not_running.

Definition wait_workflow := wait_lane "workflow".
Definition wait_activity := wait_lane "activity".
Definition wait_any := wait_lane "worker".

Definition wait_replay_workflow (outcome : ReadinessWait) (g : Workers) : Operation :=
  if wk_replay g then readiness "replay" (Ok []) outcome else Err no_replay.

Definition wait_activity_completion_retry_backoff (g : Workers) : Operation :=
  if wk_live g then Ok [] else Err worker_not_running.

(** [fed] is what the feeder of the replay worker answered. *)
Definition feed_replay_history_json (input : list byte) (fed : string → result () ReplayWorkerError)
    (g : Workers) : Operation :=
  let? text := decode_semantic_input input in
  let? _ := if wk_core g then Ok () else Err runtime_closed in
  let? _ := ok_or (wk_replay g) no_replay in
  let? _ := map_err replay_worker_failure (fed text) in
  Ok [].

(** ** Rejections *)

Definition workflow_diagnostic (reason : string) : Effect :=
  Wrote ("ocaml-temporal: rejected workflow delivery: " +:+ reason).
Definition activity_diagnostic (reason : string) : Effect :=
  Wrote ("ocaml-temporal: rejected activity task: " +:+ reason).

Definition reject_workflow_delivery_with_reason (run_id reason : string) (meanwhile : list LedgerOp)
    (reply : result unit string) (g : Workers) : Outcome (result () Failure) :=
  match wk_live g with
  | None => Some (Err worker_not_running, g)
  | Some l =>
      if negb (wk_core g) then None
      else
        let '(r, sent, l) := reject_workflow_call run_id meanwhile (Reply_Live reply) l in
        Some (map_err worker_bridge_failure r,
              emit_if sent (Sent_WorkflowRejection run_id reason) (set_live (Some l) g))
  end.

(** Both end with the backoff of the worker, which is awaited last. *)
Definition after_rejection (rejection : result () Failure) (reason : string) (answer : Operation)
    (g : Workers) : Outcome Operation :=
  match rejection with
  | Err failure => Some (Err failure, g)
  | Ok _ =>
      let g := emit (workflow_diagnostic reason) g in
      if wk_live g then Some (answer, g) else None
  end.

Definition reject_unrepresentable_workflow_delivery (run_id reason : string)
    (meanwhile : list LedgerOp) (reply : result unit string) (g : Workers) : Outcome Operation :=
  '(rejection, g) ← reject_workflow_delivery_with_reason run_id reason meanwhile reply g;
  after_rejection rejection reason (Err not_ready) g.

Definition reject_activity_delivery (task_token : list byte) (reason : string)
    (meanwhile : list LedgerOp) (reply : result unit string) (g : Workers)
    : Outcome (result () Failure) :=
  match wk_live g with
  | None => Some (Err worker_not_running, g)
  | Some l =>
      if negb (wk_core g) then None
      else
        let '(r, sent, l) := reject_activity_call task_token meanwhile reply l in
        Some (map_err worker_bridge_failure r,
              emit_if sent (Sent_ActivityRejection task_token reason) (set_live (Some l) g))
  end.

Definition activity_task_owns_completion_debt (task : Core.ActivityTask) : bool :=
  negb (is_cancel task).

Definition reject_unrepresentable_activity (task : Core.ActivityTask) (reason : string)
    (meanwhile : list LedgerOp) (reply : result unit string) (g : Workers) : Outcome Operation :=
  '(rejection, g) ←
    (if activity_task_owns_completion_debt task
     then reject_activity_delivery (Core.at_task_token task) reason meanwhile reply g
     else Some (Ok (), g));
  match rejection with
  | Err failure => Some (Err failure, g)
  | Ok _ => Some (Err not_ready, emit (activity_diagnostic reason) g)
  end.

Definition reject_replay_workflow_delivery (run_id reason : string) (meanwhile : list LedgerOp)
    (reply : GuardedCompletion) (g : Workers) : result () Failure * Workers :=
  if negb (wk_core g) then (Err runtime_closed, g)
  else
    match wk_replay g with
    | None => (Err no_replay, g)
    | Some l =>
        let '(r, sent, l) := reject_workflow_call run_id meanwhile (Reply_Replay reply) l in
        (map_err (λ error, replay_worker_failure (ReplayFinalization error)) r,
         emit_if sent (Sent_WorkflowRejection run_id reason) (set_replay (Some l) g))
    end.

(** ** Polls *)

Definition try_poll_workflow (queued : option (ReadyTask Core.WorkflowActivation))
    (meanwhile : list LedgerOp) (reply : result unit string) (g : Workers) : Outcome Operation :=
  if negb (wk_core g) then Some (Err runtime_closed, g)
  else
    match wk_live g with
    | None => Some (Err worker_not_running, g)
    | Some l =>
        let '(taken, l) := take_workflow queued l in
        let g := set_live (Some l) g in
        match taken with
        | None => Some (Err not_ready, g)
        | Some (Err error) => Some (Err (poll_lane_failure error), g)
        | Some (Ok activation) =>
            let run_id := Core.wa_run_id activation in
            match activation_from_core activation with
            | Err error =>
                reject_unrepresentable_workflow_delivery run_id (ce_message error) meanwhile reply g
            | Ok semantic =>
                match encode_activation semantic with
                | Err _ =>
                    reject_unrepresentable_workflow_delivery run_id
                      "semantic activation JSON encoding failed" meanwhile reply g
                | Ok encoded =>
                    match retain_workflow_activation (wk_activations g) semantic with
                    | Ok retained => Some (Ok (into_bytes encoded), set_activations retained g)
                    | Err failure =>
                        '(rejection, g) ←
                          reject_workflow_delivery_with_reason run_id
                            "workflow activation lease was duplicated" meanwhile reply g;
                        Some (match rejection with Err other => Err other | Ok _ => Err failure end, g)
                    end
                end
            end
        end
    end.

Definition try_poll_replay_workflow (queued : option (ReadyTask Core.WorkflowActivation))
    (meanwhile : list LedgerOp) (reply : GuardedCompletion) (g : Workers) : Operation * Workers :=
  let rejected run_id reason failure g :=
    let '(rejection, g) := reject_replay_workflow_delivery run_id reason meanwhile reply g in
    (match rejection with Err other => Err other | Ok _ => Err failure end, g) in
  if negb (wk_core g) then (Err runtime_closed, g)
  else
    match wk_replay g with
    | None => (Err no_replay, g)
    | Some l =>
        let '(taken, l) := take_workflow queued l in
        let g := set_replay (Some l) g in
        match taken with
        | None => (Err not_ready, g)
        | Some (Err error) => (Err (poll_lane_failure error), g)
        | Some (Ok activation) =>
            let run_id := Core.wa_run_id activation in
            match activation_from_core activation with
            | Err error =>
                rejected run_id "semantic replay activation conversion failed"
                  (core_conversion_failure error) g
            | Ok semantic =>
                match encode_activation semantic with
                | Err error =>
                    rejected run_id "semantic replay activation JSON encoding failed"
                      (protocol_failure error) g
                | Ok encoded =>
                    match retain_workflow_activation (wk_activations g) semantic with
                    | Ok retained => (Ok (into_bytes encoded), set_activations retained g)
                    | Err failure =>
                        rejected run_id "replay workflow activation lease was duplicated" failure g
                    end
                end
            end
        end
    end.

Definition try_poll_activity (queued : list (ReadyTask Core.ActivityTask))
    (meanwhile : list LedgerOp) (reply : result unit string) (g : Workers) : Outcome Operation :=
  if negb (wk_core g) then Some (Err runtime_closed, g)
  else
    match wk_live g with
    | None => Some (Err worker_not_running, g)
    | Some l =>
        let '(taken, l) := take_activity queued l in
        let g := set_live (Some l) g in
        match taken with
        | None => Some (Err not_ready, g)
        | Some (Err error) => Some (Err (poll_lane_failure error), g)
        | Some (Ok task) =>
            match task_from_core task with
            | Err error => reject_unrepresentable_activity task (ce_message error) meanwhile reply g
            | Ok semantic =>
                match encode_task semantic with
                | Ok encoded =>
                    Some (Ok (into_bytes encoded),
                      set_tasks (retain_activity_task (wk_tasks g) (Core.at_task_token task) semantic) g)
                | Err _ =>
                    reject_unrepresentable_activity task "semantic activity task JSON encoding failed"
                      meanwhile reply g
                end
            end
        end
    end.

(** ** Completions *)

(** The completion of a leased run, converted for the document it was handed out as. *)
Definition leased_completion (what who : string) (input : list byte) (g : Workers)
    : result (WorkflowTypes.Completion * Core.WorkflowActivationCompletion) Failure :=
  let? text := decode_semantic_input input in
  let? semantic := map_err protocol_failure (Documents.decode_completion text) in
  let? activation :=
    ok_or (wk_activations g !! cp_run_id semantic)
      (ClientCalls.mkFailure STATUS_PROTOCOL
        (what +:+ " completion does not match a leased activation")) in
  let? namespace :=
    ok_or (wk_namespace g)
      (invalid_state ("Temporal " +:+ who +:+ " worker namespace is not available")) in
  let? completion :=
    map_err core_conversion_failure
      (completion_to_core_for_activation_with_namespace activation semantic namespace) in
  Ok (semantic, completion).

Definition complete_workflow (input : list byte) (meanwhile : list LedgerOp)
    (reply : result unit string) (g : Workers) : Outcome Operation :=
  let checked :=
    let? completion := leased_completion "workflow" "workflow" input g in
    let? l := ok_or (wk_live g) worker_not_running in
    Ok (completion, l) in
  match checked with
  | Err failure => Some (Err failure, g)
  | Ok ((semantic, completion), l) =>
      if negb (wk_core g) then None
      else
        let '(r, sent, l) :=
          complete_workflow_call (Core.wac_run_id completion) (is_empty completion) meanwhile
            (Reply_Live reply) l in
        let g := emit_if sent (Sent_Completion completion) (set_live (Some l) g) in
        match r with
        | Err error => Some (Err (worker_bridge_failure error), g)
        | Ok _ => Some (Ok [], set_activations (delete (cp_run_id semantic) (wk_activations g)) g)
        end
  end.

Definition complete_replay_workflow (input : list byte) (meanwhile : list LedgerOp)
    (reply : GuardedCompletion) (g : Workers) : Operation * Workers :=
  let checked :=
    let? completion := leased_completion "replay workflow" "replay" input g in
    let? _ := if wk_core g then Ok () else Err runtime_closed in
    let? l := ok_or (wk_replay g) no_replay in
    Ok (completion, l) in
  match checked with
  | Err failure => (Err failure, g)
  | Ok ((semantic, completion), l) =>
      let '(r, sent, l) :=
        complete_workflow_call (Core.wac_run_id completion) (is_empty completion) meanwhile
          (Reply_Replay reply) l in
      let g := emit_if sent (Sent_Completion completion) (set_replay (Some l) g) in
      match r with
      | Err error => (Err (replay_worker_failure (ReplayFinalization error)), g)
      | Ok _ => (Ok [], set_activations (delete (cp_run_id semantic) (wk_activations g)) g)
      end
  end.

Definition reject_polled_workflow (input : list byte) (meanwhile : list LedgerOp)
    (reply : result unit string) (g : Workers) : Outcome Operation :=
  let reason := "OCaml semantic workflow activation decoding failed"%string in
  match workflow_rejection_run_id (wk_activations g) input with
  | Err failure => Some (Err failure, g)
  | Ok run_id =>
      '(rejection, g) ← reject_workflow_delivery_with_reason run_id reason meanwhile reply g;
      after_rejection rejection reason (Ok []) (set_activations (delete run_id (wk_activations g)) g)
  end.

Definition reject_replay_workflow (input : list byte) (meanwhile : list LedgerOp)
    (reply : GuardedCompletion) (g : Workers) : Operation * Workers :=
  match workflow_rejection_run_id (wk_activations g) input with
  | Err failure => (Err failure, g)
  | Ok run_id =>
      let '(rejection, g) :=
        reject_replay_workflow_delivery run_id "semantic replay activation conversion failed"
          meanwhile reply g in
      (match rejection with Err failure => Err failure | Ok _ => Ok [] end,
       set_activations (delete run_id (wk_activations g)) g)
  end.

Definition complete_activity (input : list byte) (meanwhile : list LedgerOp)
    (reply : result unit string) (g : Workers) : Outcome Operation :=
  let checked :=
    let? text := decode_semantic_input input in
    let? semantic := map_err protocol_failure (ActivityDocuments.decode_completion text) in
    let? task_token := map_err protocol_failure (decode_token (cm_task_token semantic)) in
    let? completion :=
      map_err core_conversion_failure (ActivityProtocol.completion_to_core semantic) in
    let? l := ok_or (wk_live g) worker_not_running in
    Ok (task_token, completion, l) in
  match checked with
  | Err failure => Some (Err failure, g)
  | Ok (task_token, completion, l) =>
      if negb (wk_core g) then None
      else
        let '(r, sent, l) :=
          complete_activity_call (Core.atc_task_token completion) meanwhile reply l in
        let g := emit_if sent (Sent_ActivityCompletion completion) (set_live (Some l) g) in
        match r with
        | Err error => Some (Err (worker_bridge_failure error), g)
        | Ok _ => Some (Ok [], set_tasks (retire_activity_semantics (wk_tasks g) task_token) g)
        end
  end.

Definition record_activity_heartbeat (input : list byte) (g : Workers) : Operation * Workers :=
  let checked :=
    let? text := decode_semantic_input input in
    let? semantic := map_err protocol_failure (decode_heartbeat text) in
    let? task_token := map_err protocol_failure (decode_token (hb_task_token semantic)) in
    let? details := map_err core_conversion_failure (try_map payload_to_core (hb_details semantic)) in
    let? l := ok_or (wk_live g) worker_not_running in
    let? _ := map_err (λ error, worker_bridge_failure (PollLanes.Completion error))
                (ensure_activity_leased task_token l) in
    Ok (task_token, details) in
  match checked with
  | Err failure => (Err failure, g)
  | Ok (task_token, details) => (Ok [], emit (Sent_Heartbeat task_token details) g)
  end.

Definition is_start (task : ActivityProtocol.ActivityTask) : bool :=
  match tk_variant task with ActivityProtocol.Variant_Start _ => true | _ => false end.

Definition reject_polled_activity (input : list byte) (meanwhile : list LedgerOp)
    (reply : result unit string) (g : Workers) : Outcome Operation :=
  let reason := "OCaml semantic activity task decoding failed"%string in
  match activity_rejection_task (wk_tasks g) input with
  | Err failure => Some (Err failure, g)
  | Ok (task_token, task) =>
      '(rejection, g) ←
        (if is_start task then reject_activity_delivery task_token reason meanwhile reply g
         else Some (Ok (), g));
      let g := set_tasks (retire_activity_semantic (wk_tasks g) task_token task) g in
      match rejection with
      | Err failure => Some (Err failure, g)
      | Ok _ => Some (Ok [], emit (activity_diagnostic reason) g)
      end
  end.
End Runtime.
