(* ===== verification/HandoffSafety.v ===== *)
(** * Safety of the worker side of a runtime graph

    The operations of Handoffs.v as the steps of one graph, with anything Core answers
    and the poll lanes do: no [expect] panics, the two kinds of worker exclude each
    other, and every task the ledger has leased to OCaml is kept as a document. *)

From S2P Require Import Prelude.
From S2P Require Import Text.
From S2P Require Import TaskLedger.
From S2P Require Import Readiness.
From S2P Require Import PollLanes.
From S2P Require Import Replay.
From S2P Require Import ReplayWorker.
From S2P Require Import Protocol.
From S2P Require Import ProtocolCodec.
From S2P Require Import WorkflowTypes.
From S2P Require Import CoreMessages.
From S2P Require Import WorkflowChecks.
From S2P Require Import CoreConversion.
From S2P Require Import ActivationConversion.
From S2P Require Import CompletionConversion.
From S2P Require Import ActivityProtocol.
From S2P Require Import Documents.
From S2P Require Import ActivityDocuments.
From S2P Require Import ClientDocuments.
From S2P Require Import HeartbeatThrottle.
From S2P Require Import ClientCalls.
From S2P Require Import WorkerConfig.
From S2P Require Import Failures.
From S2P Require Import Handoffs.
Local Open Scope N_scope.

(** ** Leases of the ledger *)

Definition leased_run (l : TaskLedger) (r : string) : Prop := workflows l !! r = Some true.
Definition leased_token (l : TaskLedger) (t : list byte) : Prop :=
  ∃ s, activities l !! t = Some s ∧ leased s = true.

(** From [l] to [l'] no lease was added; [r] and [t] may have lost theirs. *)
Definition same_leases (l l' : TaskLedger) : Prop :=
  (∀ r, leased_run l' r ↔ leased_run l r) ∧ (∀ t, leased_token l' t ↔ leased_token l t).
Definition fewer_leases (l l' : TaskLedger) : Prop :=
  (∀ r, leased_run l' r → leased_run l r) ∧ (∀ t, leased_token l' t → leased_token l t).

Lemma same_leases_refl l : same_leases l l.
Proof. done. Qed.
Lemma same_leases_trans l l' l'' : same_leases l l' → same_leases l' l'' → same_leases l l''.
Proof. intros [H1 H2] [H3 H4]. split; intros ?; by rewrite ?H3, ?H4. Qed.
Lemma fewer_leases_trans l l' l'' : fewer_leases l l' → fewer_leases l' l'' → fewer_leases l l''.
Proof. intros [H1 H2] [H3 H4]. split; auto. Qed.
Lemma same_fewer l l' : same_leases l l' → fewer_leases l l'.
Proof. intros [H1 H2]. split; intros ?; by rewrite ?H1, ?H2. Qed.

(** A change of one workflow that leaves its lease as it was. *)
Lemma same_run l l' r :
  activities l' = activities l → (∀ x, x ≠ r → workflows l' !! x = workflows l !! x) →
  (workflows l' !! r = Some true ↔ workflows l !! r = Some true) → same_leases l l'.
Proof.
  intros Ha Hx Hr. split; intros x; [|unfold leased_token; by rewrite Ha].
  unfold leased_run. destruct (decide (x = r)) as [->|Hne]; [done|by rewrite Hx].
Qed.

Lemma same_token l l' t :
  workflows l' = workflows l → (∀ x, x ≠ t → activities l' !! x = activities l !! x) →
  (leased_token l' t ↔ leased_token l t) → same_leases l l'.
Proof.
  intros Hw Hx Ht. split; intros x; [unfold leased_run; by rewrite Hw|].
  destruct (decide (x = t)) as [->|Hne]; [done|]. unfold leased_token. by rewrite Hx.
Qed.

Lemma mark_eviction_maps r e l :
  workflows (mark_eviction r e l) = workflows l ∧ activities (mark_eviction r e l) = activities l.
Proof. unfold mark_eviction. by destruct e. Qed.

Lemma record_workflow_leases r e l : same_leases l (record_workflow r e l).2.
Proof.
  unfold record_workflow. destruct (_ || _); [done|]. case_bool_decide; [done|].
  destruct (workflows l !! r) eqn:Hr; [done|]. cbn.
  destruct (mark_eviction_maps r e (set_workflows (<[r := false]> (workflows l)) l)) as [Hw Ha].
  apply (same_run _ _ r); [done|rewrite Hw; cbn..].
  - intros x Hx. by rewrite lookup_insert_ne.
  - by rewrite lookup_insert_eq, Hr.
Qed.

Lemma record_activity_leases t k l : same_leases l (record_activity t k l).2.
Proof.
  unfold record_activity. destruct (_ || _); [done|]. case_bool_decide; [done|].
  destruct k, (activities l !! t) as [s|] eqn:Hs; try done.
  - apply (same_token _ _ t); [done| |].
    + intros x Hx. cbn. by rewrite lookup_insert_ne.
    + unfold leased_token. cbn. rewrite lookup_insert_eq, Hs. naive_solver.
  - destruct (cancelled s); [done|]. apply (same_token _ _ t); [done| |].
    + intros x Hx. cbn. by rewrite lookup_insert_ne.
    + unfold leased_token. cbn. rewrite lookup_insert_eq, Hs. naive_solver.
Qed.

Lemma abandon_workflow_leases r l : same_leases l (abandon_workflow_admission r l).
Proof.
  unfold abandon_workflow_admission. destruct (workflows l !! r) as [[]|] eqn:Hr; try done.
  apply (same_run _ _ r); [done| |].
  - intros x Hx. cbn. by rewrite lookup_delete_ne.
  - cbn. by rewrite lookup_delete_eq, Hr.
Qed.

Lemma abandon_activity_leases t l : same_leases l (abandon_activity_admission t l).
Proof.
  unfold abandon_activity_admission. destruct (activities l !! t) as [s|] eqn:Hs; [|done].
  destruct (leased s) eqn:Hl; [done|]. apply (same_token _ _ t); [done| |].
  - intros x Hx. cbn. by rewrite lookup_delete_ne.
  - unfold leased_token. cbn. rewrite lookup_delete_eq, Hs. split; intros (x & ? & ?); simplify_eq; congruence.
Qed.

Lemma lane_op_leases op l : lane_op op = true → same_leases l (apply_op op l).
Proof.
  destruct op; cbn; try done; intros _;
    auto using record_workflow_leases, record_activity_leases, abandon_workflow_leases, abandon_activity_leases.
Qed.

Lemma lanes_leases ops l : same_leases l (only lane_op ops l).
Proof.
  unfold only, run_ops. revert l. induction ops as [|op ops IH]; intros l; cbn; [done|].
  destruct (lane_op op) eqn:Hop; [|done]. cbn.
  eapply same_leases_trans; [by apply lane_op_leases|apply IH].
Qed.

Lemma force_remove_workflow_fewer r l : fewer_leases l (force_remove_workflow r l).
Proof.
  split; intros x; [|done]. unfold leased_run. cbn. intros [_ ?]%lookup_delete_Some. done.
Qed.

Lemma force_remove_activity_fewer t l : fewer_leases l (force_remove_activity t l).
Proof.
  split; intros x; [done|]. intros (s & Hs & ?). cbn in Hs. apply lookup_delete_Some in Hs as [_ Hs]. by exists s.
Qed.

Lemma no_leases l l' : workflows l' = ∅ → activities l' = ∅ → fewer_leases l l'.
Proof.
  intros Hw Ha. split; intros x; unfold leased_run, leased_token; rewrite ?Hw, ?Ha; [by rewrite lookup_empty|].
  intros (s & Hs & _). by rewrite lookup_empty in Hs.
Qed.

Lemma take_leased_workflows_fewer ids l : fewer_leases l (take_leased_workflows ids l).2.
Proof.
  revert l. induction ids as [|r ids IH]; intros l; cbn; [by apply same_fewer|].
  specialize (IH (force_remove_workflow r l)).
  destruct (take_leased_workflows ids (force_remove_workflow r l)) as [taken l']. cbn in *.
  eapply fewer_leases_trans; [apply force_remove_workflow_fewer|exact IH].
Qed.

Lemma foldl_force_remove_fewer ts l : fewer_leases l (foldl (λ l t, force_remove_activity t l) l ts).
Proof.
  revert l. induction ts as [|t ts IH]; intros l; cbn; [by apply same_fewer|].
  eapply fewer_leases_trans; [apply force_remove_activity_fewer|apply IH].
Qed.

Lemma release_op_fewer op l : release_op op = true → fewer_leases l (apply_op op l).
Proof.
  unfold release_op. destruct (lane_op op) eqn:Hop; [intros _; by apply same_fewer, lane_op_leases|].
  destruct op; cbn in Hop |- *; try done; intros _;
    try (by apply same_fewer); try (by apply no_leases).
  - apply force_remove_workflow_fewer.
  - apply force_remove_activity_fewer.
  - apply (force_remove_workflow_fewer run_id).
  - apply (force_remove_activity_fewer token).
  - unfold take_leased_for_shutdown. pose proof (take_leased_workflows_fewer (leased_run_ids l) l) as Hf.
    destruct (take_leased_workflows (leased_run_ids l) l) as [taken l']. cbn in *.
    eapply fewer_leases_trans; [exact Hf|apply foldl_force_remove_fewer].
Qed.

Lemma released_fewer ops l : fewer_leases l (only release_op ops l).
Proof.
  unfold only, run_ops. revert l. induction ops as [|op ops IH]; intros l; cbn; [by apply same_fewer|].
  destruct (release_op op) eqn:Hop; [|done]. cbn.
  eapply fewer_leases_trans; [by apply release_op_fewer|apply IH].
Qed.

(** ** What a call does to the leases *)

Lemma complete_workflow_removes r l u l' :
  TaskLedger.complete_workflow r l = (Ok u, l') →
  leased_run l r ∧ ¬ leased_run l' r ∧ workflows l' !! r = None
  ∧ (∀ x, x ≠ r → leased_run l' x ↔ leased_run l x) ∧ (∀ t, leased_token l' t ↔ leased_token l t).
Proof.
  unfold TaskLedger.complete_workflow. destruct (workflows l !! r) as [[]|] eqn:Hr; try done.
  intros [= <- <-]. unfold leased_run. cbn. rewrite lookup_delete_eq. split_and!; try done.
  intros x Hx. by rewrite lookup_delete_ne.
Qed.

(** A completion that Core refused: its lease comes back unless the run was handed out
    again. *)
Lemma restored_leases r evicted l :
  let '(restored, l') := restore_rejected_workflow_completion r l in
  let l' := if restored && evicted then restore_eviction_lease r l' else l' in
  (∀ x, x ≠ r → leased_run l' x ↔ leased_run l x) ∧ (∀ t, leased_token l' t ↔ leased_token l t)
  ∧ (workflows l !! r = None → leased_run l' r).
Proof.
  unfold restore_rejected_workflow_completion. destruct (workflows l !! r) eqn:Hw; [done|].
  assert (∀ x, workflows (if evicted then restore_eviction_lease r (set_workflows (<[r := true]> (workflows l)) l)
    else set_workflows (<[r := true]> (workflows l)) l) !! x = <[r := true]> (workflows l) !! x) as Hwf
    by by destruct evicted.
  cbn [andb]. split_and!; unfold leased_run.
  - intros x Hne. by rewrite Hwf, lookup_insert_ne.
  - by destruct evicted.
  - intros _. by rewrite Hwf, lookup_insert_eq.
Qed.

(** An answer of Core after which a lease is as exact as before: Core accepted, or it
    refused and did not hand anything out meanwhile. *)
Definition clean_reply (reply : CoreReply) (meanwhile : list LedgerOp) : Prop :=
  match reply with
  | Reply_Live answer | Reply_Replay (Readiness.Finished answer) => answer = Ok tt ∨ meanwhile = []
  | _ => False
  end.

Lemma complete_call_leases r e ops reply l res sent l' :
  complete_workflow_call r e ops reply l = (res, sent, l') →
  (∀ x, x ≠ r → leased_run l' x ↔ leased_run l x) ∧ (leased_run l' r → leased_run l r)
  ∧ (res = Ok tt → ¬ leased_run l' r) ∧ (sent = true → leased_run l r)
  ∧ (∀ t, leased_token l' t ↔ leased_token l t)
  ∧ (clean_reply reply ops → res ≠ Ok tt → leased_run l r → leased_run l' r).
Proof.
  unfold complete_workflow_call. destruct (TaskLedger.complete_workflow r l) as [[u|error] t] eqn:Hc;
    [|intros [= <- <- <-]; split_and!; done].
  destruct (complete_workflow_removes _ _ _ _ Hc) as (Hl & Hn & Hnone & Hx & Ht).
  destruct (lanes_leases ops t) as [Hr1 Ht1].
  destruct (awaited e reply) as [[v|error]|early] eqn:Ha.
  - intros [= <- <- <-]. split_and!; try done.
    + intros x Hne. by rewrite Hr1, Hx.
    + intros ?. by rewrite Hr1.
    + intros y. by rewrite Ht1, Ht.
  - pose proof (restored_leases r (is_eviction_lease r l) (only lane_op ops t)) as Hrest.
    destruct (restore_rejected_workflow_completion r (only lane_op ops t)) as [restored t'].
    destruct Hrest as (Hx' & Ht' & He). intros [= <- <- <-]. split_and!; try done.
    + intros x Hne. by rewrite Hx', Hr1, Hx.
    + intros y. by rewrite Ht', Ht1, Ht.
    + intros Hclean _ _. assert (ops = []) as ->; [|by apply He].
      destruct reply as [a|[a| |]]; cbn in *; destruct Hclean; naive_solver.
  - intros [= <- <- <-]. split_and!; try done.
    + intros x Hne. by rewrite Hr1, Hx.
    + intros _. by rewrite Hr1.
    + intros y. by rewrite Ht1, Ht.
    + by destruct reply as [a|[a| |]].
Qed.

Lemma reject_call_leases r ops reply l res sent l' :
  reject_workflow_call r ops reply l = (res, sent, l') →
  ¬ leased_run l' r ∧ (∀ x, x ≠ r → leased_run l' x ↔ leased_run l x)
  ∧ (∀ t, leased_token l' t ↔ leased_token l t).
Proof.
  unfold reject_workflow_call, retire_rejected_workflow.
  destruct (TaskLedger.complete_workflow r l) as [[u|error] t] eqn:Hc; intros [= <- <- <-].
  - destruct (complete_workflow_removes _ _ _ _ Hc) as (Hl & Hn & _ & Hx & Ht).
    destruct (lanes_leases ops t) as [Hr1 Ht1]. split_and!.
    + by rewrite Hr1.
    + intros x Hne. by rewrite Hr1, Hx.
    + intros y. by rewrite Ht1, Ht.
  - split_and!; try done. intros Hl. unfold TaskLedger.complete_workflow in Hc.
    by rewrite Hl in Hc.
Qed.

Lemma complete_activity_leases t l res l' :
  TaskLedger.complete_activity t l = (res, l') →
  ¬ leased_token l' t ∧ (∀ x, x ≠ t → leased_token l' x ↔ leased_token l x)
  ∧ (∀ r, leased_run l' r ↔ leased_run l r).
Proof.
  unfold TaskLedger.complete_activity, leased_token. destruct (activities l !! t) as [s|] eqn:Hs; [destruct (leased s) eqn:Hl|];
    intros [= <- <-]; split_and!; try done; cbn; rewrite ?lookup_delete_eq, ?Hs; try (intros (x & ? & ?); simplify_eq; congruence).
  intros x Hx. by rewrite lookup_delete_ne.
Qed.

Lemma complete_activity_call_leases t ops reply l res sent l' :
  complete_activity_call t ops reply l = (res, sent, l') →
  (res = Ok tt → ¬ leased_token l' t) ∧ (∀ x, leased_token l' x → leased_token l x)
  ∧ (∀ x, x ≠ t → leased_token l' x ↔ leased_token l x) ∧ (∀ r, leased_run l' r ↔ leased_run l r).
Proof.
  unfold complete_activity_call. destruct (ensure_activity_leased t l) as [u|error] eqn:He;
    [|by intros [= <- <- <-]].
  destruct (lanes_leases ops l) as [Hr1 Ht1]. destruct reply as [v|error].
  - destruct (TaskLedger.complete_activity t (only lane_op ops l)) as [retired l1] eqn:Hc.
    destruct (complete_activity_leases _ _ _ _ Hc) as (Hn & Hx & Hr). intros [= <- <- <-]. split_and!; try done.
    + intros x Hl. destruct (decide (x = t)) as [->|Hne]; [done|]. by rewrite <- Ht1, <- Hx.
    + intros x Hne. by rewrite Hx, Ht1.
    + intros r. by rewrite Hr, Hr1.
  - intros [= <- <- <-]. split_and!; try done.
    intros x. by rewrite Ht1.
Qed.

Lemma reject_activity_call_leases t ops reply l res sent l' :
  reject_activity_call t ops reply l = (res, sent, l') →
  ¬ leased_token l' t ∧ (∀ x, x ≠ t → leased_token l' x ↔ leased_token l x)
  ∧ (∀ r, leased_run l' r ↔ leased_run l r).
Proof.
  unfold reject_activity_call. destruct (ensure_activity_leased t l) as [u|error] eqn:He.
  - destruct (lanes_leases ops l) as [Hr1 Ht1]. unfold retire_rejected_activity.
    destruct (TaskLedger.complete_activity t (only lane_op ops l)) as [retired l1] eqn:Hc.
    destruct (complete_activity_leases _ _ _ _ Hc) as (Hn & Hx & Hr). intros [= <- <- <-]. split_and!; try done.
    + intros x Hne. by rewrite Hx, Ht1.
    + intros r. by rewrite Hr, Hr1.
  - intros [= <- <- <-]. split_and!; try done. intros (s & Hs & Hl).
    unfold ensure_activity_leased in He. by rewrite Hs, Hl in He.
Qed.

Section Takes.
Context (is_only_eviction : Core.WorkflowActivation → bool).

Lemma take_workflow_leases queued l taken l' :
  take_workflow is_only_eviction queued l = (taken, l') →
  (∀ t, leased_token l' t ↔ leased_token l t)
  ∧ match taken with
    | Some (Ok activation) =>
        ¬ leased_run l (Core.wa_run_id activation)
        ∧ ∀ r, leased_run l' r ↔ leased_run l r ∨ r = Core.wa_run_id activation
    | _ => ∀ r, leased_run l' r ↔ leased_run l r
    end.
Proof.
  unfold take_workflow. destruct queued as [[activation|error]|]; [|by intros [= <- <-]..].
  unfold lease_workflow_activation, lease_workflow.
  set (run := Core.wa_run_id activation).
  destruct (workflows l !! run) as [[]|] eqn:Hr; cbn.
  - by intros [= <- <-].
  - intros [= <- <-]. unfold leased_run, leased_token. fold run.
    destruct (mark_eviction_maps run (is_only_eviction activation)
      (set_workflows (<[run := true]> (workflows l)) l)) as [-> ->]. cbn.
    split; [done|]. split; [by rewrite Hr|]. intros r. destruct (decide (r = run)) as [->|Hne].
    + rewrite lookup_insert_eq. naive_solver.
    + rewrite lookup_insert_ne by done. naive_solver.
  - intros [= <- <-]. destruct (abandon_workflow_leases run l) as [H1 H2]. done.
Qed.

Lemma handoff_activity_leases t kind l res l' :
  handoff_activity t kind l = (res, l') →
  (∀ r, leased_run l' r ↔ leased_run l r)
  ∧ (∀ x, leased_token l' x ↔ leased_token l x ∨ (res = Ok tt ∧ kind = Start ∧ x = t)).
Proof.
  unfold handoff_activity, lease_activity. destruct kind; [|intros [= <- <-]; naive_solver].
  destruct (activities l !! t) as [s|] eqn:Hs; [destruct (leased s) eqn:Hl|]; intros [= <- <-];
    (split; [done|]); try naive_solver.
  intros x. unfold leased_token. cbn. destruct (decide (x = t)) as [->|Hne].
  - rewrite lookup_insert_eq. naive_solver.
  - rewrite lookup_insert_ne by done. naive_solver.
Qed.

Lemma take_activity_leases queued l taken l' :
  take_activity queued l = (taken, l') →
  (∀ r, leased_run l' r ↔ leased_run l r)
  ∧ match taken with
    | Some (Ok task) =>
        ∀ t, leased_token l' t ↔ leased_token l t ∨ (is_cancel task = false ∧ t = Core.at_task_token task)
    | _ => ∀ t, leased_token l' t ↔ leased_token l t
    end.
Proof.
  revert l. induction queued as [|[task|error] queued IH]; intros l; cbn; [by intros [= <- <-]| |by intros [= <- <-]].
  set (token := Core.at_task_token task).
  destruct (handoff_activity token (if is_cancel task then Cancel else Start) l) as [lease l1] eqn:Hh.
  destruct (handoff_activity_leases _ _ _ _ _ Hh) as [Hr Ht]. destruct lease as [[]|error].
  - intros [= <- <-]. split; [done|]. intros t. rewrite Ht. destruct (is_cancel task); naive_solver.
  - assert (same_leases l l1) as [Hr1 Ht1] by (split; [done|]; intros t; rewrite Ht; naive_solver).
    destruct (is_cancel task && bool_decide (error = UnknownActivity)).
    + intros Htake. destruct (IH _ Htake) as [Hr2 Ht2]. split; [intros r; by rewrite Hr2|].
      destruct taken as [[other|]|]; intros t; rewrite Ht2, Ht1; done.
    + destruct error; intros [= <- <-]; try done;
        (eapply (same_leases_trans l l1); [done|]; first [apply abandon_activity_leases|done]).
Qed.
End Takes.

(** ** The invariant *)

Definition start_kept (tasks : Tasks) (t : list byte) : Prop :=
  ∃ ts task, tasks !! t = Some ts ∧ task ∈ ts ∧ is_start task = true.

(** Every lease has its document; if [exact], every activation has its lease. *)
Record documents_ok (exact : bool) (l : TaskLedger) (a : gmap string Activation) (tasks : Tasks) : Prop := {
  do_runs : ∀ r, leased_run l r → is_Some (a !! r);
  do_tokens : ∀ t, leased_token l t → start_kept tasks t;
  do_exact : exact = true → ∀ r, is_Some (a !! r) → leased_run l r
}.

Definition current (g : Workers) : option TaskLedger :=
  match wk_live g with Some l => Some l | None => wk_replay g end.

Record handoffs_ok (exact : bool) (g : Workers) : Prop := {
  ho_core : is_Some (current g) → wk_core g = true;
  ho_one : wk_live g = None ∨ wk_replay g = None;
  ho_documents : ∀ l, current g = Some l → documents_ok exact l (wk_activations g) (wk_tasks g);
  ho_idle : current g = None → wk_activations g = ∅;
  ho_tasks : wk_live g = None → wk_tasks g = ∅
}.

Lemma documents_same exact l l' a tasks :
  same_leases l l' → documents_ok exact l a tasks → documents_ok exact l' a tasks.
Proof.
  intros [Hr Ht] [H1 H2 H3]. split.
  - intros r. rewrite Hr. apply H1.
  - intros t. rewrite Ht. apply H2.
  - intros He r Ha. rewrite Hr. auto.
Qed.

Lemma documents_fewer l l' a tasks :
  fewer_leases l l' → documents_ok false l a tasks → documents_ok false l' a tasks.
Proof. intros [Hr Ht] [H1 H2 H3]. split; auto. done. Qed.

Lemma live_ok exact g l :
  handoffs_ok exact g → wk_live g = Some l →
  wk_core g = true ∧ wk_replay g = None ∧ documents_ok exact l (wk_activations g) (wk_tasks g).
Proof.
  intros [Hc Ho Hd _ _] Hl. unfold current in *. rewrite Hl in *. split_and!; eauto.
  by destruct Ho.
Qed.

Lemma replay_ok exact g l :
  handoffs_ok exact g → wk_replay g = Some l →
  wk_core g = true ∧ wk_live g = None ∧ wk_tasks g = ∅
  ∧ documents_ok exact l (wk_activations g) (wk_tasks g).
Proof.
  intros [Hc Ho Hd _ Ht] Hl. destruct Ho as [Ho|]; [|congruence]. unfold current in *. rewrite Ho, Hl in *.
  split_and!; eauto.
Qed.

Lemma live_intro exact g l :
  wk_live g = Some l → wk_core g = true → wk_replay g = None →
  documents_ok exact l (wk_activations g) (wk_tasks g) → handoffs_ok exact g.
Proof.
  intros Hl Hc Hr Hd. split; unfold current; rewrite ?Hl; auto; [|done..]. by intros ? [= <-].
Qed.

Lemma replay_intro exact g l :
  wk_replay g = Some l → wk_core g = true → wk_live g = None → wk_tasks g = ∅ →
  documents_ok exact l (wk_activations g) (wk_tasks g) → handoffs_ok exact g.
Proof.
  intros Hr Hc Hl Ht Hd. split; unfold current; rewrite ?Hl, ?Hr; auto; [|done]. by intros ? [= <-].
Qed.

Lemma emit_ok exact e g : handoffs_ok exact g → handoffs_ok exact (emit e g).
Proof. intros [? ? ? ? ?]. by split. Qed.

Lemma emit_if_ok exact sent e g : handoffs_ok exact g → handoffs_ok exact (emit_if sent e g).
Proof. destruct sent; [apply emit_ok|done]. Qed.

Lemma weaken_ok g : handoffs_ok true g → handoffs_ok false g.
Proof.
  intros [Hc Ho Hd Hi Ht]. split; try done. intros l Hl. destruct (Hd l Hl). by split.
Qed.

(** *** Changes of the documents *)

(** A run that was taken and rejected at once. *)
Lemma documents_rejected exact l l1 l2 a tasks r :
  (∀ t, leased_token l1 t ↔ leased_token l t) → (∀ x, leased_run l1 x ↔ leased_run l x ∨ x = r) →
  ¬ leased_run l r →
  ¬ leased_run l2 r → (∀ x, x ≠ r → leased_run l2 x ↔ leased_run l1 x) →
  (∀ t, leased_token l2 t ↔ leased_token l1 t) →
  documents_ok exact l a tasks → documents_ok exact l2 a tasks.
Proof.
  intros Ht1 Hr1 Hn Hn2 Hr2 Ht2. apply documents_same. split; [|intros t; by rewrite Ht2].
  intros x. destruct (decide (x = r)) as [->|Hne]; [done|]. rewrite Hr2, Hr1 by done. naive_solver.
Qed.

Lemma documents_retained exact l l1 a tasks r activation :
  (∀ t, leased_token l1 t ↔ leased_token l t) → (∀ x, leased_run l1 x ↔ leased_run l x ∨ x = r) →
  documents_ok exact l a tasks → documents_ok exact l1 (<[r := activation]> a) tasks.
Proof.
  intros Ht Hr [H1 H2 H3]. split.
  - intros x [Hx| ->]%Hr; [|by rewrite lookup_insert_eq]. rewrite lookup_insert_is_Some. destruct (decide (r = x)); auto.
  - intros t. rewrite Ht. apply H2.
  - intros He x Hx. rewrite Hr. apply lookup_insert_is_Some in Hx as [->|[_ Hx]]; auto.
Qed.

(** The document of a run goes, and its lease is gone. *)
Lemma documents_deleted exact l l1 a tasks r :
  (∀ x, x ≠ r → leased_run l1 x ↔ leased_run l x) → ¬ leased_run l1 r →
  (∀ t, leased_token l1 t ↔ leased_token l t) →
  documents_ok exact l a tasks → documents_ok exact l1 (delete r a) tasks.
Proof.
  intros Hr Hn Ht [H1 H2 H3]. split.
  - intros x Hx. destruct (decide (x = r)) as [->|Hne]; [done|].
    rewrite lookup_delete_ne by done. apply H1. by rewrite <- Hr.
  - intros t. rewrite Ht. apply H2.
  - intros He x Hx. destruct (decide (x = r)) as [->|Hne].
    + rewrite lookup_delete_eq in Hx. by destruct Hx.
    + rewrite lookup_delete_ne in Hx by done. rewrite Hr by done. auto.
Qed.

(** The documents of tokens change where the lease is gone, or keep the start. *)
Lemma documents_tasks exact l l1 a tasks tasks' :
  (∀ r, leased_run l1 r ↔ leased_run l r) →
  (∀ t, leased_token l1 t → start_kept tasks' t) →
  documents_ok exact l a tasks → documents_ok exact l1 a tasks'.
Proof.
  intros Hr Ht [H1 H2 H3]. split; [|done|].
  - intros r. rewrite Hr. apply H1.
  - intros He r Ha. rewrite Hr. auto.
Qed.

(** ** Steps *)

Section Steps.
Context `{SerdeJson} `{Base64} `{CoreEnums, !CompletionFail, !CompletionFailLaws}.
Context `{Serde Activation, Serde WorkflowTypes.Completion}.
Context `{Serde ActivityProtocol.ActivityTask, Serde ActivityCompletion}.
Context `{Serde ActivityHeartbeat, Serde AsyncActivityHeartbeat}.
Context (is_only_eviction : Core.WorkflowActivation → bool).
Context (is_empty : Core.WorkflowActivationCompletion → bool).
Context (core_rejects : CoreWorkerConfig → option string).

Lemma reject_workflow_spec run reason ops reply g l :
  wk_live g = Some l → wk_core g = true →
  ∃ res sent l',
    reject_workflow_delivery_with_reason run reason ops reply g
      = Some (res, emit_if sent (Sent_WorkflowRejection run reason) (set_live (Some l') g))
    ∧ ¬ leased_run l' run ∧ (∀ x, x ≠ run → leased_run l' x ↔ leased_run l x)
    ∧ (∀ t, leased_token l' t ↔ leased_token l t).
Proof.
  intros Hl Hc. unfold reject_workflow_delivery_with_reason. rewrite Hl, Hc. cbn.
  destruct (reject_workflow_call run ops (Reply_Live reply) l) as [[res sent] l'] eqn:Hr.
  exists (map_err worker_bridge_failure res), sent, l'. split; [done|]. by eapply reject_call_leases.
Qed.

Lemma reject_activity_spec token reason ops reply g l :
  wk_live g = Some l → wk_core g = true →
  ∃ res sent l',
    Handoffs.reject_activity_delivery token reason ops reply g
      = Some (res, emit_if sent (Sent_ActivityRejection token reason) (set_live (Some l') g))
    ∧ ¬ leased_token l' token ∧ (∀ x, x ≠ token → leased_token l' x ↔ leased_token l x)
    ∧ (∀ r, leased_run l' r ↔ leased_run l r).
Proof.
  intros Hl Hc. unfold Handoffs.reject_activity_delivery. rewrite Hl, Hc. cbn.
  destruct (reject_activity_call token ops reply l) as [[res sent] l'] eqn:Hr.
  exists (map_err worker_bridge_failure res), sent, l'. split; [done|]. by eapply reject_activity_call_leases.
Qed.

Lemma after_rejection_ok exact rejection reason answer g :
  handoffs_ok exact g → is_Some (wk_live g) →
  ∃ r g', after_rejection rejection reason answer g = Some (r, g') ∧ handoffs_ok exact g'.
Proof.
  intros Hg [l Hl]. destruct rejection as [u|failure]; cbn; [|eauto]. rewrite Hl.
  eexists _, _. split; [done|]. by apply emit_ok.
Qed.

Lemma emit_if_live sent e g : wk_live (emit_if sent e g) = wk_live g.
Proof. by destruct sent. Qed.
Lemma emit_if_activations sent e g : wk_activations (emit_if sent e g) = wk_activations g.
Proof. by destruct sent. Qed.
Lemma emit_if_tasks sent e g : wk_tasks (emit_if sent e g) = wk_tasks g.
Proof. by destruct sent. Qed.

Lemma retained_insert a semantic a' :
  retain_workflow_activation a semantic = Ok a' → a' = <[ac_run_id semantic := semantic]> a.
Proof. unfold retain_workflow_activation. destruct (a !! _); congruence. Qed.

Lemma converted_run activation semantic :
  activation_from_core activation = Ok semantic → ac_run_id semantic = Core.wa_run_id activation.
Proof.
  unfold activation_from_core. intros (jobs & _ & Hs)%bind_Ok.
  apply bind_Ok in Hs as (u & _ & [= <-]). done.
Qed.

Lemma poll_workflow_ok exact queued ops reply g :
  handoffs_ok exact g →
  ∃ r g', try_poll_workflow is_only_eviction queued ops reply g = Some (r, g') ∧ handoffs_ok exact g'.
Proof.
  intros Hg. unfold try_poll_workflow. destruct (wk_core g) eqn:Hcore; cbn [negb]; [|eauto].
  destruct (wk_live g) as [l|] eqn:Hl; [|eauto].
  destruct (live_ok _ _ _ Hg Hl) as (_ & Hr & Hd).
  destruct (take_workflow is_only_eviction queued l) as [taken l1] eqn:Ht.
  destruct (take_workflow_leases _ _ _ _ _ Ht) as [Htok Htake].
  assert ((∀ r, leased_run l1 r ↔ leased_run l r) → handoffs_ok exact (set_live (Some l1) g)) as Hsame.
  { intros Hruns. apply (live_intro _ _ l1); try done. by apply (documents_same _ l). }
  destruct taken as [[activation|error]|]; [|eauto..]. destruct Htake as [Hn Hruns].
  set (run := Core.wa_run_id activation) in *. set (g1 := set_live (Some l1) g).
  assert (∀ reason, ∃ res sent l2,
    reject_workflow_delivery_with_reason run reason ops reply g1
      = Some (res, emit_if sent (Sent_WorkflowRejection run reason) (set_live (Some l2) g1))
    ∧ handoffs_ok exact (set_live (Some l2) g1)) as Hrej.
  { intros reason. destruct (reject_workflow_spec run reason ops reply g1 l1) as (res & sent & l2 & -> & Hn2 & Hr2 & Ht2); try done.
    exists res, sent, l2. split; [done|]. apply (live_intro _ _ l2); try done.
    by apply (documents_rejected exact l l1 l2 _ _ run). }
  assert (∀ reason, ∃ r g', reject_unrepresentable_workflow_delivery run reason ops reply g1 = Some (r, g')
    ∧ handoffs_ok exact g') as Hun.
  { intros reason. unfold reject_unrepresentable_workflow_delivery.
    destruct (Hrej reason) as (res & sent & l2 & -> & Hok). cbn.
    apply after_rejection_ok; [by apply emit_if_ok|]. by rewrite emit_if_live. }
  destruct (activation_from_core activation) as [semantic|error] eqn:Hcv; [|apply Hun].
  destruct (encode_activation semantic) as [encoded|error]; [|apply Hun].
  destruct (retain_workflow_activation (wk_activations g1) semantic) as [retained|failure] eqn:Hret.
  - eexists _, _. split; [done|]. apply (live_intro _ _ l1); try done. cbn.
    rewrite (retained_insert _ _ _ Hret). apply (documents_retained exact l); try done.
    by rewrite (converted_run _ _ Hcv).
  - destruct (Hrej "workflow activation lease was duplicated"%string) as (res & sent & l2 & -> & Hok). cbn.
    eexists _, _. split; [done|]. by apply emit_if_ok.
Qed.

Lemma completion_run activation semantic namespace completion :
  completion_to_core_for_activation_with_namespace activation semantic namespace = Ok completion →
  Core.wac_run_id completion = cp_run_id semantic.
Proof.
  unfold completion_to_core_for_activation_with_namespace, completion_to_core_for_activation_with_optional_namespace.
  intros (u & _ & Hc)%bind_Ok. destruct (negb _); [done|]. destruct (_ && _); [done|].
  apply bind_Ok in Hc as (v & _ & Hc). unfold completion_to_core_with_child_namespace in Hc.
  apply bind_Ok in Hc as (w & _ & Hc). destruct (cp_task_failure semantic) as [failure|].
  - apply bind_Ok in Hc as (f & _ & [= <-]). by rewrite completion_fail_status.
  - by apply bind_Ok in Hc as (commands & _ & [= <-]).
Qed.

Lemma leased_completion_run what who input g semantic completion :
  leased_completion what who input g = Ok (semantic, completion) →
  Core.wac_run_id completion = cp_run_id semantic.
Proof.
  unfold leased_completion. do 4 (intros Hc; apply bind_Ok in Hc as (? & _ & Hc); revert Hc).
  intros (c & Hc%map_err_Ok & [= <- <-])%bind_Ok. by eapply completion_run.
Qed.

Lemma reject_replay_spec run reason ops reply g l :
  wk_replay g = Some l → wk_core g = true →
  ∃ res sent l',
    reject_replay_workflow_delivery run reason ops reply g
      = (res, emit_if sent (Sent_WorkflowRejection run reason) (set_replay (Some l') g))
    ∧ ¬ leased_run l' run ∧ (∀ x, x ≠ run → leased_run l' x ↔ leased_run l x)
    ∧ (∀ t, leased_token l' t ↔ leased_token l t).
Proof.
  intros Hl Hc. unfold reject_replay_workflow_delivery. rewrite Hl, Hc. cbn.
  destruct (reject_workflow_call run ops (Reply_Replay reply) l) as [[res sent] l'] eqn:Hr.
  eexists _, sent, l'. split; [done|]. by eapply reject_call_leases.
Qed.

Lemma poll_replay_ok exact queued ops reply g :
  handoffs_ok exact g →
  handoffs_ok exact (try_poll_replay_workflow is_only_eviction queued ops reply g).2.
Proof.
  intros Hg. unfold try_poll_replay_workflow. destruct (wk_core g) eqn:Hcore; cbn [negb]; [|done].
  destruct (wk_replay g) as [l|] eqn:Hl; [|done].
  destruct (replay_ok _ _ _ Hg Hl) as (_ & Hr & Hts & Hd).
  destruct (take_workflow is_only_eviction queued l) as [taken l1] eqn:Ht.
  destruct (take_workflow_leases _ _ _ _ _ Ht) as [Htok Htake].
  assert ((∀ r, leased_run l1 r ↔ leased_run l r) → handoffs_ok exact (set_replay (Some l1) g)) as Hsame.
  { intros Hruns. apply (replay_intro _ _ l1); try done. by apply (documents_same _ l). }
  destruct taken as [[activation|error]|]; [|auto..]. destruct Htake as [Hn Hruns].
  set (run := Core.wa_run_id activation) in *. set (g1 := set_replay (Some l1) g).
  assert (∀ reason (failure : ClientCalls.Failure), handoffs_ok exact
    (let '(rejection, g) := reject_replay_workflow_delivery run reason ops reply g1 in
     (match rejection with Err other => @Err (list byte) _ other | Ok _ => Err failure end, g)).2) as Hrej.
  { intros reason failure.
    destruct (reject_replay_spec run reason ops reply g1 l1) as (res & sent & l2 & -> & Hn2 & Hr2 & Ht2); try done.
    cbn. apply emit_if_ok, (replay_intro _ _ l2); try done.
    by apply (documents_rejected exact l l1 l2 _ _ run). }
  cbn zeta. destruct (activation_from_core activation) as [semantic|error] eqn:Hcv; [|apply Hrej].
  destruct (encode_activation semantic) as [encoded|error]; [|apply Hrej].
  destruct (retain_workflow_activation (wk_activations g1) semantic) as [retained|failure] eqn:Hret; [|apply Hrej].
  apply (replay_intro _ _ l1); try done. cbn.
  rewrite (retained_insert _ _ _ Hret). apply (documents_retained exact l); try done.
  by rewrite (converted_run _ _ Hcv).
Qed.

Lemma completed_documents exact r e ops reply l res sent l' g :
  complete_workflow_call r e ops reply l = (res, sent, l') →
  (exact = true → clean_reply reply ops) →
  documents_ok exact l (wk_activations g) (wk_tasks g) →
  documents_ok exact l' (match res with Ok _ => delete r (wk_activations g) | Err _ => wk_activations g end)
    (wk_tasks g).
Proof.
  intros (Hx & Hle & Hok & _ & Ht & Hkeep)%complete_call_leases Hclean Hd.
  destruct res as [[]|error]; [by apply (documents_deleted exact l); auto|].
  destruct Hd as [Hd1 Hd2 Hd3]. split.
  - intros x Hl. apply Hd1. destruct (decide (x = r)) as [->|Hne]; [auto|by rewrite <- Hx].
  - intros t. rewrite Ht. apply Hd2.
  - intros -> x Ha. destruct (decide (x = r)) as [->|Hne]; [|rewrite Hx by done; auto].
    apply Hkeep; auto.
Qed.

Lemma complete_workflow_ok exact input ops reply g :
  handoffs_ok exact g → (exact = true → clean_reply (Reply_Live reply) ops) →
  ∃ r g', Handoffs.complete_workflow is_empty input ops reply g = Some (r, g') ∧ handoffs_ok exact g'.
Proof.
  intros Hg Hclean. unfold Handoffs.complete_workflow.
  destruct (leased_completion "workflow" "workflow" input g) as [[semantic completion]|failure] eqn:Hlc; [|eauto].
  destruct (wk_live g) as [l|] eqn:Hl; cbn [ok_or]; [|eauto].
  destruct (live_ok _ _ _ Hg Hl) as (Hcore & Hr & Hd). rewrite Hcore. cbn [negb].
  rewrite <- (leased_completion_run _ _ _ _ _ _ Hlc).
  destruct (complete_workflow_call _ _ ops (Reply_Live reply) l) as [[res sent] l'] eqn:Hc.
  pose proof (completed_documents exact _ _ _ _ _ _ _ _ g Hc Hclean Hd) as Hd'.
  destruct res as [[]|error]; eexists _, _; (split; [done|]).
  - destruct sent; by apply (live_intro _ _ l').
  - apply emit_if_ok. by apply (live_intro _ _ l').
Qed.

Lemma complete_replay_ok exact input ops reply g :
  handoffs_ok exact g → (exact = true → clean_reply (Reply_Replay reply) ops) →
  handoffs_ok exact (complete_replay_workflow is_empty input ops reply g).2.
Proof.
  intros Hg Hclean. unfold complete_replay_workflow.
  destruct (leased_completion "replay workflow" "replay" input g) as [[semantic completion]|failure] eqn:Hlc; [|done].
  destruct (wk_core g) eqn:Hcore; [|done]. destruct (wk_replay g) as [l|] eqn:Hl; cbn [ok_or]; [|done].
  destruct (replay_ok _ _ _ Hg Hl) as (_ & Hr & Hts & Hd).
  rewrite <- (leased_completion_run _ _ _ _ _ _ Hlc).
  destruct (complete_workflow_call _ _ ops (Reply_Replay reply) l) as [[res sent] l'] eqn:Hc.
  pose proof (completed_documents exact _ _ _ _ _ _ _ _ g Hc Hclean Hd) as Hd'.
  destruct res as [[]|error]; cbn [snd].
  - destruct sent; by apply (replay_intro _ _ l').
  - apply emit_if_ok. by apply (replay_intro _ _ l').
Qed.

Lemma rejection_known a input run : workflow_rejection_run_id a input = Ok run → is_Some (a !! run).
Proof.
  unfold workflow_rejection_run_id. do 2 (intros Hr; apply bind_Ok in Hr as (? & _ & Hr); revert Hr).
  destruct (a !! ac_run_id _) eqn:Ha; [|done]. case_bool_decide; [|done]. intros [= <-]. eauto.
Qed.

Lemma reject_polled_workflow_ok exact input ops reply g :
  handoffs_ok exact g → wk_replay g = None →
  ∃ r g', reject_polled_workflow input ops reply g = Some (r, g') ∧ handoffs_ok exact g'.
Proof.
  intros Hg Hnr. unfold reject_polled_workflow.
  destruct (workflow_rejection_run_id (wk_activations g) input) as [run|failure] eqn:Hrun; [|eauto].
  destruct (wk_live g) as [l|] eqn:Hl.
  - destruct (live_ok _ _ _ Hg Hl) as (Hcore & Hr & Hd).
    destruct (reject_workflow_spec run "OCaml semantic workflow activation decoding failed" ops reply g l)
      as (res & sent & l' & -> & Hn & Hx & Ht); [done..|]. cbn [mbind option_bind].
    apply after_rejection_ok; [|cbn; by rewrite emit_if_live].
    apply (live_intro _ _ l'); [by rewrite ?emit_if_live; destruct sent..|]. cbn.
    rewrite emit_if_activations, emit_if_tasks. by apply (documents_deleted exact l).
  - apply rejection_known in Hrun as [a Ha]. pose proof (ho_idle _ _ Hg) as He.
    rewrite He, lookup_empty in Ha; [done|]. unfold current. by rewrite Hl.
Qed.

Lemma reject_replay_workflow_ok exact input ops reply g :
  handoffs_ok exact g → wk_live g = None →
  handoffs_ok exact (reject_replay_workflow input ops reply g).2.
Proof.
  intros Hg Hnl. unfold reject_replay_workflow.
  destruct (workflow_rejection_run_id (wk_activations g) input) as [run|failure] eqn:Hrun; [|done].
  destruct (wk_replay g) as [l|] eqn:Hl.
  - destruct (replay_ok _ _ _ Hg Hl) as (Hcore & Hr & Hts & Hd).
    destruct (reject_replay_spec run "semantic replay activation conversion failed" ops reply g l)
      as (res & sent & l' & -> & Hn & Hx & Ht); [done..|]. cbn.
    apply (replay_intro _ _ l'); [by destruct sent..|]. cbn.
    rewrite emit_if_activations, emit_if_tasks. by apply (documents_deleted exact l).
  - apply rejection_known in Hrun as [a Ha]. pose proof (ho_idle _ _ Hg) as He.
    rewrite He, lookup_empty in Ha; [done|]. unfold current. by rewrite Hnl.
Qed.

(** *** Activities *)

Lemma start_kept_retain tasks token task t :
  start_kept tasks t → start_kept (retain_activity_task tasks token task) t.
Proof.
  intros (ts & x & Hts & Hx & Hs). unfold retain_activity_task. destruct (decide (t = token)) as [->|Hne].
  - exists (ts ++ [task]), x. rewrite lookup_insert_eq, Hts. cbn. rewrite elem_of_app. auto.
  - exists ts, x. by rewrite lookup_insert_ne.
Qed.

Lemma start_kept_new tasks token task :
  is_start task = true → start_kept (retain_activity_task tasks token task) token.
Proof.
  intros Hs. exists (default [] (tasks !! token) ++ [task]), task. unfold retain_activity_task.
  rewrite lookup_insert_eq, elem_of_app, list_elem_of_singleton. auto.
Qed.

Lemma elem_of_remove_first task x ts : x ∈ ts → x ≠ task → x ∈ remove_first task ts.
Proof.
  intros Hx Hne. induction ts as [|y ts IH]; cbn; [done|]. apply elem_of_cons in Hx.
  case_bool_decide; [destruct Hx; [congruence|done]|]. apply elem_of_cons. naive_solver.
Qed.

(** Rejecting a document keeps the start of every other token, and of its own unless it
    is the start. *)
Lemma start_kept_retire tasks token task t :
  start_kept tasks t → t ≠ token ∨ is_start task = false →
  start_kept (retire_activity_semantic tasks token task) t.
Proof.
  intros (ts & x & Hts & Hx & Hs) Hor. unfold retire_activity_semantic.
  destruct (tasks !! token) as [ts'|] eqn:Htk; [|by exists ts, x].
  destruct (decide (t = token)) as [->|Hne].
  - destruct Hor as [|Hst]; [done|]. simplify_eq.
    assert (x ∈ remove_first task ts) as Hin by (apply elem_of_remove_first; congruence).
    destruct (remove_first task ts) as [|y rest] eqn:Hrf; [by apply not_elem_of_nil in Hin|].
    exists (y :: rest), x. by rewrite lookup_insert_eq.
  - exists ts, x. destruct (remove_first task ts'); by rewrite ?lookup_delete_ne, ?lookup_insert_ne.
Qed.

Lemma converted_start task semantic :
  task_from_core task = Ok semantic → is_start semantic = negb (is_cancel task).
Proof.
  unfold task_from_core, is_cancel. intros (variant & Hv%ok_or_Ok & Hs)%bind_Ok. rewrite Hv.
  apply bind_Ok in Hs as (v & Hv' & Hs). apply bind_Ok in Hs as (u & _ & [= <-]). unfold is_start. cbn.
  destruct variant as [start|reason details].
  - unfold start_from_core in Hv'. repeat (apply bind_Ok in Hv' as (? & _ & Hv')). by injection Hv' as <-.
  - unfold cancel_from_core in Hv'. apply bind_Ok in Hv' as (? & _ & Hv'). by injection Hv' as <-.
Qed.

Lemma completion_token semantic completion token :
  ActivityProtocol.completion_to_core semantic = Ok completion →
  decode_token (cm_task_token semantic) = Ok token → Core.atc_task_token completion = token.
Proof.
  unfold ActivityProtocol.completion_to_core. do 2 (intros Hc; apply bind_Ok in Hc as (? & _ & Hc); revert Hc).
  intros (t & Ht%map_err_Ok & [= <-])%bind_Ok Htk. cbn. congruence.
Qed.

Lemma poll_activity_ok exact queued ops reply g :
  handoffs_ok exact g →
  ∃ r g', try_poll_activity queued ops reply g = Some (r, g') ∧ handoffs_ok exact g'.
Proof.
  intros Hg. unfold try_poll_activity. destruct (wk_core g) eqn:Hcore; cbn [negb]; [|eauto].
  destruct (wk_live g) as [l|] eqn:Hl; [|eauto].
  destruct (live_ok _ _ _ Hg Hl) as (_ & Hr & Hd).
  destruct (take_activity queued l) as [taken l1] eqn:Ht.
  destruct (take_activity_leases _ _ _ _ Ht) as [Hruns Htake].
  destruct taken as [[task|error]|].
  2,3: eexists _, _; (split; [done|]); apply (live_intro _ _ l1); try done; by apply (documents_same _ l).
  set (g1 := set_live (Some l1) g). set (token := Core.at_task_token task) in *.
  assert (∀ reason, ∃ r g', reject_unrepresentable_activity task reason ops reply g1 = Some (r, g')
    ∧ handoffs_ok exact g') as Hun.
  { intros reason. unfold reject_unrepresentable_activity, activity_task_owns_completion_debt.
    destruct (is_cancel task) eqn:Hcancel; cbn [negb].
    - eexists _, _. split; [done|]. apply emit_ok, (live_intro _ _ l1); try done.
      apply (documents_tasks exact l _ _ (wk_tasks g)); [done| |done]. intros t [Hlt|[? _]]%Htake; [|done].
      by apply (do_tokens _ _ _ _ Hd).
    - destruct (reject_activity_spec token reason ops reply g1 l1) as (res & sent & l2 & Heq & Hn & Hx & Hr2); [done..|].
      fold token. rewrite Heq. cbn [mbind option_bind].
      assert (handoffs_ok exact (emit_if sent (Sent_ActivityRejection token reason) (set_live (Some l2) g1))) as Hok.
      { apply emit_if_ok, (live_intro _ _ l2); try done. apply (documents_tasks exact l _ _ (wk_tasks g)); [|clear Heq|done].
        - intros r. by rewrite Hr2.
        - intros t Hlt. destruct (decide (t = token)) as [->|Hne]; [done|].
          rewrite Hx in Hlt by done. apply Htake in Hlt as [Hlt|[_ ?]]; [|done].
          by apply (do_tokens _ _ _ _ Hd). }
      destruct res; eexists _, _; (split; [done|]); [by apply emit_ok|done]. }
  destruct (task_from_core task) as [semantic|error] eqn:Hcv; [|apply Hun].
  destruct (encode_task semantic) as [encoded|error]; [|apply Hun].
  eexists _, _. split; [done|]. apply (live_intro _ _ l1); try done. cbn.
  apply (documents_tasks exact l _ _ (wk_tasks g)); [done| |done]. fold token.
  intros t [Hlt|[Hnc ->]]%Htake.
  - apply start_kept_retain. by apply (do_tokens _ _ _ _ Hd).
  - apply start_kept_new. by rewrite (converted_start _ _ Hcv), Hnc.
Qed.

Lemma complete_activity_handoff_ok exact input ops reply g :
  handoffs_ok exact g →
  ∃ r g', Handoffs.complete_activity input ops reply g = Some (r, g') ∧ handoffs_ok exact g'.
Proof.
  intros Hg. unfold Handoffs.complete_activity. cbn zeta.
  match goal with |- ∃ r g', match ?c with _ => _ end = _ ∧ _ =>
    destruct c as [[[token completion] l]|failure] eqn:Hc end; [|eauto].
  do 2 (apply bind_Ok in Hc as (? & _ & Hc)). apply bind_Ok in Hc as (tk & Htk%map_err_Ok & Hc).
  apply bind_Ok in Hc as (co & Hco%map_err_Ok & Hc). apply bind_Ok in Hc as (l0 & Hl%ok_or_Ok & [= -> -> ->]).
  destruct (live_ok _ _ _ Hg Hl) as (Hcore & Hr & Hd). rewrite Hcore. cbn [negb].
  rewrite (completion_token _ _ _ Hco Htk). destruct (complete_activity_call token ops reply l) as [[res sent] l'] eqn:Hcall.
  destruct (complete_activity_call_leases _ _ _ _ _ _ _ Hcall) as (Hok & Hle & Hx & Hruns).
  destruct res as [[]|error]; eexists _, _; (split; [done|]).
  - apply (live_intro _ _ l'); [by destruct sent..|]. cbn. rewrite emit_if_activations, emit_if_tasks.
    apply (documents_tasks exact l _ _ (wk_tasks g)); [done| |done].
    intros t Hlt. destruct (decide (t = token)) as [->|Hne]; [by destruct Hok|].
    destruct (do_tokens _ _ _ _ Hd t (Hle t Hlt)) as (ts & task & Hts & Hin & Hs).
    exists ts, task. unfold retire_activity_semantics. by rewrite lookup_delete_ne.
  - apply emit_if_ok, (live_intro _ _ l'); try done.
    apply (documents_tasks exact l _ _ (wk_tasks g)); [done| |done].
    intros t Hlt. apply (do_tokens _ _ _ _ Hd), Hle, Hlt.
Qed.

Lemma activity_rejection_known tasks input token task :
  activity_rejection_task tasks input = Ok (token, task) → is_Some (tasks !! token).
Proof.
  unfold activity_rejection_task. do 3 (intros Hr; apply bind_Ok in Hr as (? & _ & Hr); revert Hr).
  destruct (tasks !! _) eqn:Ha; [|done]. case_bool_decide; [|done]. intros [= <- _]. eauto.
Qed.

Lemma reject_polled_activity_ok exact input ops reply g :
  handoffs_ok exact g →
  ∃ r g', reject_polled_activity input ops reply g = Some (r, g') ∧ handoffs_ok exact g'.
Proof.
  intros Hg. unfold reject_polled_activity.
  destruct (activity_rejection_task (wk_tasks g) input) as [[token task]|failure] eqn:Hrej; [|eauto].
  destruct (wk_live g) as [l|] eqn:Hl.
  2: { apply activity_rejection_known in Hrej as [ts Hts]. by rewrite (ho_tasks _ _ Hg Hl), lookup_empty in Hts. }
  destruct (live_ok _ _ _ Hg Hl) as (Hcore & Hr & Hd). destruct (is_start task) eqn:Hs.
  - destruct (reject_activity_spec token "OCaml semantic activity task decoding failed" ops reply g l)
      as (res & sent & l' & -> & Hn & Hx & Hruns); [done..|]. cbn [mbind option_bind].
    set (g1 := set_tasks _ _). assert (handoffs_ok exact g1) as Hok.
    { unfold g1. rewrite emit_if_tasks. apply (live_intro _ _ l'); [by destruct sent..|]. cbn.
      rewrite emit_if_activations. apply (documents_tasks exact l _ _ (wk_tasks g)); [done| |done].
      intros t Hlt. assert (t ≠ token) as Hne by (intros ->; done). apply start_kept_retire; [|by left].
      apply (do_tokens _ _ _ _ Hd). by rewrite <- Hx. }
    destruct res; eexists _, _; (split; [done|]); [by apply emit_ok|done].
  - cbn [mbind option_bind]. eexists _, _. split; [done|]. apply emit_ok, (live_intro _ _ l); try done. cbn.
    apply (documents_tasks exact l _ _ (wk_tasks g)); [done| |done]. intros t Hlt. apply start_kept_retire; [|by right].
    by apply (do_tokens _ _ _ _ Hd).
Qed.

(** *** Starting and releasing *)

Lemma no_worker_idle g u : no_worker g = Ok u → wk_live g = None ∧ wk_replay g = None.
Proof. unfold no_worker. by destruct (wk_live g), (wk_replay g). Qed.

Lemma new_ledger_documents exact : documents_ok exact TaskLedger_new ∅ ∅.
Proof.
  split.
  - intros r Hr. unfold leased_run in Hr. cbn in Hr. by rewrite lookup_empty in Hr.
  - intros t (x & Hx & _). cbn in Hx. by rewrite lookup_empty in Hx.
  - intros _ r [x Hx]. by rewrite lookup_empty in Hx.
Qed.

Lemma idle_documents exact g :
  handoffs_ok exact g → wk_live g = None → wk_replay g = None → wk_activations g = ∅ ∧ wk_tasks g = ∅.
Proof.
  intros Hg Hl Hr. split; [|by apply (ho_tasks _ _ Hg)]. apply (ho_idle _ _ Hg). unfold current. by rewrite Hl.
Qed.

Lemma start_worker_ok exact config constructed validated_ok g :
  handoffs_ok exact g → handoffs_ok exact (start_worker core_rejects config constructed validated_ok g).2.
Proof.
  intros Hg. unfold start_worker. cbn zeta.
  match goal with |- handoffs_ok _ (match ?c with _ => _ end).2 => destruct c as [intervals|failure] eqn:Hc end; [|done].
  apply bind_Ok in Hc as (u & [Hl Hr]%no_worker_idle & Hc).
  do 3 (apply bind_Ok in Hc as (? & _ & Hc)). apply bind_Ok in Hc as (? & Hcore & _).
  destruct (idle_documents _ _ Hg Hl Hr) as [Ha Ht].
  apply (live_intro _ _ TaskLedger_new); try done; cbn; [by destruct (wk_core g)|].
  rewrite Ha, Ht. apply new_ledger_documents.
Qed.

Lemma start_replay_ok exact config started g :
  handoffs_ok exact g → handoffs_ok exact (start_replay_worker core_rejects config started g).2.
Proof.
  intros Hg. unfold start_replay_worker. cbn zeta.
  match goal with |- handoffs_ok _ (match ?c with _ => _ end).2 => destruct c as [u|failure] eqn:Hc end; [|done].
  apply bind_Ok in Hc as (v & [Hl Hr]%no_worker_idle & Hc).
  apply bind_Ok in Hc as (? & _ & Hc). apply bind_Ok in Hc as (? & Hcore & _).
  destruct (idle_documents _ _ Hg Hl Hr) as [Ha Ht].
  apply (replay_intro _ _ TaskLedger_new); try done; cbn; [by destruct (wk_core g)|].
  rewrite Ha, Ht. apply new_ledger_documents.
Qed.

Lemma initiate_ok exact g :
  handoffs_ok exact g → ∃ r g', initiate_worker_shutdown g = Some (r, g') ∧ handoffs_ok exact g'.
Proof.
  intros Hg. unfold initiate_worker_shutdown. destruct (wk_live g) as [l|] eqn:Hl; [|eauto].
  destruct (live_ok _ _ _ Hg Hl) as (Hcore & Hr & Hd). rewrite Hcore. eexists _, _. split; [done|].
  apply (live_intro _ _ (begin_draining l)); try done. by apply (documents_same _ l).
Qed.

(** Without its worker a graph keeps nothing. *)
Lemma forgotten_ok exact g : wk_live g = None → wk_replay g = None → handoffs_ok exact (forget_handoffs g).
Proof.
  intros Hl Hr. split; unfold current; cbn; rewrite ?Hl, ?Hr; auto; try done; by intros [? ?].
Qed.

Lemma shutdown_ok exact retired drained finalized g :
  handoffs_ok exact g →
  (exact = true → is_Some (wk_live g) → (∃ r, drained = Ok r) ∧ ∀ error, finalized ≠ Refused error) →
  ∃ r g', shutdown_worker retired drained finalized g = Some (r, g') ∧ handoffs_ok exact g'.
Proof.
  intros Hg Hclean. unfold shutdown_worker. destruct (wk_live g) as [l|] eqn:Hl; [|eauto].
  destruct (live_ok _ _ _ Hg Hl) as (Hcore & Hr & Hd). rewrite Hcore. cbn [negb].
  set (l' := only release_op retired (begin_draining l)).
  assert (exact = false → handoffs_ok exact (set_live (Some l') g)) as Hkept.
  { intros ->. apply (live_intro _ _ l'); try done. apply (documents_fewer l); [|done].
    exact (released_fewer retired (begin_draining l)). }
  assert (handoffs_ok exact (forget_handoffs (set_live None g))) as Hgone by by apply forgotten_ok.
  destruct exact.
  - destruct Hclean as [[retirement ->] Hfin]; [done|done|].
    destruct finalized as [|error| |]; [..|eauto]; eauto. by destruct (Hfin error).
  - destruct drained as [retirement|error]; [|eauto]. destruct finalized; eauto.
Qed.

Lemma kept_replay_ok retired g l :
  handoffs_ok false g → wk_replay g = Some l → handoffs_ok false (set_replay (Some (only release_op retired l)) g).
Proof.
  intros Hg Hl. destruct (replay_ok _ _ _ Hg Hl) as (Hcore & Hr & Hts & Hd).
  apply (replay_intro _ _ (only release_op retired l)); try done.
  apply (documents_fewer l); [apply released_fewer|done].
Qed.

Lemma released_replay_ok exact g l :
  handoffs_ok exact g → wk_replay g = Some l → handoffs_ok exact (forget_handoffs (set_replay None g)).
Proof. intros Hg Hl. destruct (replay_ok _ _ _ Hg Hl) as (Hcore & Hr & _). by apply forgotten_ok. Qed.

Lemma finalize_replay_ok exact retired finalized g :
  handoffs_ok exact g → (exact = true → ∃ u, finalized = Ok u) →
  handoffs_ok exact (finalize_replay retired finalized g).2.
Proof.
  intros Hg Hclean. unfold finalize_replay. destruct (wk_core g); [|done].
  destruct (wk_replay g) as [l|] eqn:Hl; cbn [ok_or]; [|done].
  destruct finalized as [u|error]; [by apply (released_replay_ok _ _ l)|].
  destruct exact; [by destruct Hclean|by apply kept_replay_ok].
Qed.

Lemma dispose_replay_ok exact retired disposed g :
  handoffs_ok exact g → (exact = true → ∃ u, disposed = Ok u) →
  handoffs_ok exact (dispose_replay retired disposed g).2.
Proof.
  intros Hg Hclean. unfold dispose_replay. destruct (wk_replay g) as [l|] eqn:Hl; [|done].
  destruct (wk_core g) eqn:Hcore; cbn [negb]; [|done].
  destruct disposed as [u|error]; [by apply (released_replay_ok _ _ l)|].
  destruct exact; [by destruct Hclean|by apply kept_replay_ok].
Qed.

Lemma heartbeat_ok exact input g :
  handoffs_ok exact g → handoffs_ok exact (Handoffs.record_activity_heartbeat input g).2.
Proof.
  intros Hg. unfold Handoffs.record_activity_heartbeat. cbn zeta.
  match goal with |- handoffs_ok _ (match ?c with _ => _ end).2 => destruct c as [[token details]|failure] end;
    [|done]. by apply emit_ok.
Qed.

(** ** Runs *)

(** What the owner is asked to do, with the answers it gets. *)
Inductive WorkerInput :=
| W_Start (config : WorkerConfigInput) (constructed validated_ok : bool)
| W_StartReplay (config : WorkerConfigInput) (started : result () ReplayWorkerError)
| W_Poll (queued : option (ReadyTask Core.WorkflowActivation)) (meanwhile : list LedgerOp)
    (reply : result unit string)
| W_PollReplay (queued : option (ReadyTask Core.WorkflowActivation)) (meanwhile : list LedgerOp)
    (reply : GuardedCompletion)
| W_PollActivity (queued : list (ReadyTask Core.ActivityTask)) (meanwhile : list LedgerOp)
    (reply : result unit string)
| W_Complete (input : list byte) (meanwhile : list LedgerOp) (reply : result unit string)
| W_CompleteReplay (input : list byte) (meanwhile : list LedgerOp) (reply : GuardedCompletion)
| W_CompleteActivity (input : list byte) (meanwhile : list LedgerOp) (reply : result unit string)
| W_Reject (input : list byte) (meanwhile : list LedgerOp) (reply : result unit string)
| W_RejectReplay (input : list byte) (meanwhile : list LedgerOp) (reply : GuardedCompletion)
| W_RejectActivity (input : list byte) (meanwhile : list LedgerOp) (reply : result unit string)
| W_Heartbeat (input : list byte)
| W_Initiate
| W_Shutdown (retired : list LedgerOp) (drained : result ShutdownRetirement ShutdownDrainError)
    (finalized : BoundedFinalize)
| W_FinalizeReplay (retired : list LedgerOp) (finalized : result () ReplayWorkerError)
| W_DisposeReplay (retired : list LedgerOp) (disposed : result () ReplayWorkerError)
| W_Lanes (ops : list LedgerOp)
| W_Client (connected : bool).

(** The poll lanes between two operations. *)
Definition lanes_step (ops : list LedgerOp) (g : Workers) : Workers :=
  set_replay (only lane_op ops <$> wk_replay g) (set_live (only lane_op ops <$> wk_live g) g).

Definition set_connected (c : bool) (g : Workers) : Workers :=
  mkWorkers (wk_core g) c (wk_live g) (wk_replay g) (wk_namespace g) (wk_intervals g)
    (wk_activations g) (wk_tasks g) (wk_effects g).

(** [None] is a panic. *)
Definition worker_step (g : Workers) (i : WorkerInput) : option (Operation * Workers) :=
  match i with
  | W_Start config constructed validated_ok =>
      Some (start_worker core_rejects config constructed validated_ok g)
  | W_StartReplay config started => Some (start_replay_worker core_rejects config started g)
  | W_Poll queued meanwhile reply => try_poll_workflow is_only_eviction queued meanwhile reply g
  | W_PollReplay queued meanwhile reply =>
      Some (try_poll_replay_workflow is_only_eviction queued meanwhile reply g)
  | W_PollActivity queued meanwhile reply => try_poll_activity queued meanwhile reply g
  | W_Complete input meanwhile reply => Handoffs.complete_workflow is_empty input meanwhile reply g
  | W_CompleteReplay input meanwhile reply =>
      Some (complete_replay_workflow is_empty input meanwhile reply g)
  | W_CompleteActivity input meanwhile reply => Handoffs.complete_activity input meanwhile reply g
  | W_Reject input meanwhile reply => reject_polled_workflow input meanwhile reply g
  | W_RejectReplay input meanwhile reply => Some (reject_replay_workflow input meanwhile reply g)
  | W_RejectActivity input meanwhile reply => reject_polled_activity input meanwhile reply g
  | W_Heartbeat input => Some (Handoffs.record_activity_heartbeat input g)
  | W_Initiate => initiate_worker_shutdown g
  | W_Shutdown retired drained finalized => shutdown_worker retired drained finalized g
  | W_FinalizeReplay retired finalized => Some (finalize_replay retired finalized g)
  | W_DisposeReplay retired disposed => Some (dispose_replay retired disposed g)
  | W_Lanes ops => Some (Ok [], lanes_step ops g)
  | W_Client connected => Some (Ok [], set_connected connected g)
  end.

(** A rejection goes to the worker that handed the activation out. *)
Definition fits_worker (g : Workers) (i : WorkerInput) : bool :=
  match i with
  | W_Reject _ _ _ => negb (bool_decide (is_Some (wk_replay g)))
  | W_RejectReplay _ _ _ => negb (bool_decide (is_Some (wk_live g)))
  | _ => true
  end.

(** Inputs that do not fit are not given. *)
Fixpoint worker_run (g : Workers) (inputs : list WorkerInput) : option Workers :=
  match inputs with
  | [] => Some g
  | i :: inputs =>
      if fits_worker g i then '(_, g') ← worker_step g i; worker_run g' inputs
      else worker_run g inputs
  end.

Lemma lanes_step_ok exact ops g : handoffs_ok exact g → handoffs_ok exact (lanes_step ops g).
Proof.
  intros Hg. pose proof Hg as [Hc Ho Hd Hi Ht]. split; unfold current, lanes_step in *; cbn in *.
  - intros Hs. apply Hc. destruct (wk_live g), (wk_replay g); auto; by destruct Hs.
  - destruct Ho as [->| ->]; auto.
  - intros l. destruct (wk_live g) as [l1|], (wk_replay g) as [l2|]; cbn; try done; intros [= <-];
      (eapply documents_same; [apply lanes_leases|by apply Hd]).
  - destruct (wk_live g), (wk_replay g); by auto.
  - intros Hn%fmap_None. auto.
Qed.

(** Answers after which every kept activation still has its lease. *)
Definition clean_input (i : WorkerInput) : Prop :=
  match i with
  | W_Complete _ meanwhile reply => clean_reply (Reply_Live reply) meanwhile
  | W_CompleteReplay _ meanwhile reply => clean_reply (Reply_Replay reply) meanwhile
  | W_Shutdown _ drained finalized => (∃ r, drained = Ok r) ∧ ∀ error, finalized ≠ Refused error
  | W_FinalizeReplay _ r | W_DisposeReplay _ r => ∃ u, r = Ok u
  | _ => True
  end.

Lemma some_ok exact (o : Operation * Workers) :
  handoffs_ok exact o.2 → ∃ r g', Some o = Some (r, g') ∧ handoffs_ok exact g'.
Proof. destruct o. eauto. Qed.

Lemma worker_step_ok exact g i :
  handoffs_ok exact g → fits_worker g i = true → (exact = true → clean_input i) →
  ∃ r g', worker_step g i = Some (r, g') ∧ handoffs_ok exact g'.
Proof.
  intros Hg Hfit Hclean. destruct i; cbn [worker_step fits_worker clean_input] in *;
    try apply some_ok;
    auto using start_worker_ok, start_replay_ok, poll_workflow_ok, poll_replay_ok, poll_activity_ok,
      complete_workflow_ok, complete_replay_ok, complete_activity_handoff_ok, reject_polled_activity_ok,
      heartbeat_ok, initiate_ok, finalize_replay_ok, dispose_replay_ok.
  - apply reject_polled_workflow_ok; [done|]. apply negb_true_iff, bool_decide_eq_false in Hfit.
    by apply eq_None_not_Some.
  - apply reject_replay_workflow_ok; [done|]. apply negb_true_iff, bool_decide_eq_false in Hfit.
    by apply eq_None_not_Some.
  - apply shutdown_ok; auto.
  - by apply lanes_step_ok.
  - by destruct Hg; split.
Qed.

Lemma worker_run_ok exact inputs g :
  handoffs_ok exact g → (exact = true → Forall clean_input inputs) →
  ∃ g', worker_run g inputs = Some g' ∧ handoffs_ok exact g'.
Proof.
  revert g. induction inputs as [|i inputs IH]; intros g Hg Hclean; cbn; [eauto|].
  assert (exact = true → clean_input i) as Hi by (intros He; by destruct (Forall_cons_1 _ _ _ (Hclean He))).
  assert (exact = true → Forall clean_input inputs) as His
    by (intros He; by destruct (Forall_cons_1 _ _ _ (Hclean He))).
  destruct (fits_worker g i) eqn:Hfit; [|by apply IH].
  destruct (worker_step_ok exact g i Hg Hfit Hi) as (r & g1 & -> & Hg1). cbn. by apply IH.
Qed.

(** A runtime without a worker. *)
Definition Workers_new : Workers := mkWorkers true false None None None
    (CORE_DEFAULT_MAX_HEARTBEAT_THROTTLE_MS, CORE_DEFAULT_HEARTBEAT_THROTTLE_MS) ∅ ∅ [].

Lemma Workers_new_ok exact : handoffs_ok exact Workers_new.
Proof. split; try done. by left. Qed.


End Steps.
