(* ===== verification/Abi.v ===== *)
(** * The C interface: results, handles and Core's references

    The boundary of src/rust/core-bridge/src/abi.rs.  The native side of the process is
    [Native]: the byte allocations that results own, the storage of results and of handle
    slots that callers pass, the boxed runtimes, shared runtimes and metric meters, and
    the reference counts of Core.  A pointer is a number and null is zero; the address of
    an allocation is whatever the allocator picks ([place]).  [None] is undefined
    behaviour: freeing what is not allocated, or using a handle that was released; for an
    operation on a graph it is also that the operation has not returned.

    A graph behind a handle is of any type [R]; Exports.v instantiates it. *)

From S2P Require Import Prelude.
From S2P Require Import Text.
From S2P Require Import Protocol.
From S2P Require Import ClientDocuments.
From S2P Require Import ClientCalls.
From S2P Require Import Diagnostics.
From S2P Require Import BindAddress.
From S2P Require Import Telemetry.
From S2P Require Import MetricMeter.
From S2P Require Import WorkerConfig.
From S2P Require Import Failures.
From Stdlib Require Import String.
From stdpp Require Import pretty strings.
Local Open Scope N_scope.
Local Open Scope bridge_scope.

(** ** Constants *)

Definition ABI_VERSION : N := 4.
Definition MAX_RUNTIME_WORKER_THREADS : N := 256.
Definition DEFAULT_RUNTIME_WORKER_THREADS_CAP : N := 4.
Definition MAX_LIFECYCLE_STRING_FIELDS : N := 5.
Definition MAX_JSON_ESCAPED_BYTE : N := 6.
Definition MAX_LIFECYCLE_CONFIG_BYTES : N :=
  MAX_LIFECYCLE_STRING_FIELDS * MAX_TRANSPORT_STRING_BYTES * MAX_JSON_ESCAPED_BYTE + 64 * 1024.
Definition MAX_PACING_SLEEP_NS : N := 1000000000.
Definition MAX_TELEMETRY_CONFIG_BYTES : N := 16 * 1024.
Definition MAX_CALL_AWAIT_MS : N := 60000.
Definition U32_MAX : N := 2 ^ 32 - 1.

Definition failed (status : N) (message : string) : Failure := ClientCalls.mkFailure status message.

(** ** State *)

Record Buffer := mkBuffer { b_ptr : N; b_len : N }.
Definition Buffer_default : Buffer := mkBuffer 0 0.

Record Result := mkResult { r_status : N; r_value : Buffer; r_error : Buffer }.
Definition Result_default : Result := mkResult 0 Buffer_default Buffer_default.

(** The allocations of [Buffer::from_vec] and the results that were written. *)
Record Memory := mkMemory {
  boxes : gmap N (list byte);
  results : gmap N Result
}.

(** Handles of one type: the slots that callers own and the boxes they point to. *)
Record Table (A : Type) := mkTable {
  slots : gmap N N;
  live : gmap N A
}.
Arguments mkTable {_} _ _.
Arguments slots {_} _.
Arguments live {_} _.

Record MetricsExporter := mkMetricsExporter {
  bound_address : string;
  global_tag_names : list string
}.

Record SharedCore := mkSharedCore { sc_strong : N; sc_metrics : option MetricsExporter }.

(** A runtime is the name of its Core and its graph, a shared runtime the name of its
    Core.  [cleanups] are the messages in the channels to cleanup threads; [destroyed]
    is history. *)
Record Native (R : Type) := mkNative {
  memory : Memory;
  runtimes : Table (N * R);
  shareds : Table N;
  meters : Table (list string * InstrumentRegistry);
  id_slots : gmap N N;
  cores : gmap N SharedCore;
  cleanups : gmap N (N * option R);
  destroyed : list N;
  next_core : N;
  next_cleanup : N
}.
Arguments mkNative {_} _ _ _ _ _ _ _ _ _ _.
Arguments memory {_} _.
Arguments runtimes {_} _.
Arguments shareds {_} _.
Arguments meters {_} _.
Arguments id_slots {_} _.
Arguments cores {_} _.
Arguments cleanups {_} _.
Arguments destroyed {_} _.
Arguments next_core {_} _.
Arguments next_cleanup {_} _.

(** What a closure does: it returns, or it panics and the panic is contained. *)
Inductive Ran (A : Type) := Returned (value : A) | Unwound.
Arguments Returned {_} _.
Arguments Unwound {_}.

(** The address of an allocation: the allocator's choice, if it is free. *)
Definition place {A} (choice : N) (m : gmap N A) : N :=
  if (choice =? 0) || bool_decide (is_Some (m !! choice))
  then 1 + map_fold (λ at_ _ top, N.max at_ top) 0 m
  else choice.

(** ** Results *)

Definition from_vec (choice : N) (bytes : list byte) (m : Memory) : Buffer * Memory :=
  match bytes with
  | [] => (Buffer_default, m)
  | _ =>
      let at_ := place choice (boxes m) in
      (mkBuffer at_ (N.of_nat (length bytes)), mkMemory (<[at_ := bytes]> (boxes m)) (results m))
  end.

Definition success (choice : N) (value : list byte) (m : Memory) : Result * Memory :=
  let '(buffer, m) := from_vec choice value m in (mkResult STATUS_OK buffer Buffer_default, m).

Definition failure (choice : N) (status : N) (message : string) (m : Memory) : Result * Memory :=
  let '(buffer, m) := from_vec choice (into_bytes message) m in (mkResult status Buffer_default buffer, m).

Definition write_result (output : N) (r : Result) (m : Memory) : Memory :=
  mkMemory (boxes m) (<[output := r]> (results m)).

(** [Box::from_raw] of exactly the allocation that [from_vec] made. *)
Definition free_buffer (b : Buffer) (m : Memory) : option (Buffer * Memory) :=
  if b_ptr b =? 0 then Some (mkBuffer 0 0, m)
  else
    bytes ← boxes m !! b_ptr b;
    if N.of_nat (length bytes) =? b_len b
    then Some (Buffer_default, mkMemory (delete (b_ptr b) (boxes m)) (results m))
    else None.

Definition result_free (result : N) (m : Memory) : option (N * Memory) :=
  if result =? 0 then Some (STATUS_INVALID_ARGUMENT, m)
  else
    r ← results m !! result;
    '(value, m) ← free_buffer (r_value r) m;
    '(error, m) ← free_buffer (r_error r) m;
    Some (STATUS_OK, write_result result (mkResult STATUS_OK value error) m).

(** ** Input *)

(** A pointer with the bytes that can be read there; [None] is null. *)
Definition Span : Type := option (list byte).

Definition from_raw_parts (bytes : list byte) (input_len : N) : option (list byte) :=
  if N.of_nat (length bytes) <? input_len then None else Some (take (N.to_nat input_len) bytes).

(** The checks that the span, the configuration and the telemetry document share. *)
Definition read_span (input : Span) (input_len maximum : N) (too_long null : Failure) :
    option (result (list byte) Failure) :=
  if maximum <? input_len then Some (Err too_long)
  else if input_len =? 0 then Some (Ok [])
  else match input with
       | None => Some (Err null)
       | Some bytes => Ok <$> from_raw_parts bytes input_len
       end.

(** [serde_json::from_slice] reads UTF-8 only. *)
Definition utf8_text_of (bytes : list byte) : option string :=
  let text := string_of_list_byte bytes in if utf8_valid text then Some text else None.

Definition null_input : Failure := failed STATUS_INVALID_ARGUMENT "input is null but input_len is nonzero".

Definition input_span (input : Span) (input_len maximum : N) : option (result (list byte) Failure) :=
  read_span input input_len maximum
    (failed STATUS_PROTOCOL ("native input exceeds " +:+ pretty maximum +:+ " bytes")) null_input.

Definition decode_config {T} `{JsonText T} (input : Span) (input_len : N) : option (result T Failure) :=
  bytes ← read_span input input_len MAX_LIFECYCLE_CONFIG_BYTES
    (failed STATUS_CONFIGURATION
       ("lifecycle configuration exceeds " +:+ pretty MAX_LIFECYCLE_CONFIG_BYTES +:+ " bytes"))
    (failed STATUS_INVALID_ARGUMENT "configuration input is null but input_len is nonzero");
  Some (let? bytes := bytes in
        ok_or (text ← utf8_text_of bytes; from_str text)
          (failed STATUS_CONFIGURATION "invalid lifecycle configuration JSON")).

(** ** Construction of Core *)

(** What the host and Core answer while a Core is built: the environment variable of the
    log level, the available parallelism, the writer thread, the options, Core itself, the
    exporter (its address, or the kind of the error) and the cleanup thread. *)
Record Host := mkHost {
  h_log_level : EnvVar;
  h_parallelism : option N;
  h_log_writer : result () string;
  h_options : bool;
  h_core : bool;
  h_exporter : result string string;
  h_cleanup_thread : result () string
}.

Definition runtime_worker_threads (requested : N) (parallelism : option N) : result N Failure :=
  if requested =? 0
  then Ok (N.min (default 1 parallelism) DEFAULT_RUNTIME_WORKER_THREADS_CAP)
  else if requested <=? MAX_RUNTIME_WORKER_THREADS then Ok requested
  else Err (failed STATUS_INVALID_ARGUMENT
         ("runtime worker thread count must be between 1 and " +:+ pretty MAX_RUNTIME_WORKER_THREADS +:+
          ", or 0 for the default")).

Section Construction.
(** The text of a socket address. *)
Variable display : SocketAddr → string.

Definition start_metrics (config : TelemetryConfig) (exporter : result string string) :
    result (option MetricsExporter) Failure :=
  match tc_prometheus config with
  | None => Ok None
  | Some prometheus =>
      let? address := ok_or (parse_bind_address (bytes_of (bind_address prometheus)))
        (telemetry_failure "metrics bind_address must be an IP socket address") in
      let? bound := map_err (λ kind, telemetry_failure
        ("could not bind the Prometheus metrics endpoint " +:+ display address +:+ ": " +:+ kind)) exporter in
      Ok (Some (mkMetricsExporter bound (tag_name <$> global_tags prometheus)))
  end.

Definition create_shared_core (log_level : option CoreLogLevel) (config : TelemetryConfig) (h : Host) :
    result (option MetricsExporter) Failure :=
  let? _ := match log_level with
            | Some _ => map_err (λ error, failed STATUS_INTERNAL
                ("could not start Temporal Core log writer thread: " +:+ error)) (h_log_writer h)
            | None => Ok ()
            end in
  let? _ := if h_options h then Ok ()
            else Err (failed STATUS_INTERNAL "could not configure Temporal Core runtime") in
  let? _ := if h_core h then Ok ()
            else Err (failed STATUS_INTERNAL "could not create Temporal Core runtime") in
  start_metrics config (h_exporter h).

(** The number of threads, the log level and Core, in this order. *)
Definition build_core (worker_threads : N) (config : TelemetryConfig) (h : Host) :
    result (option MetricsExporter) Failure :=
  let? _ := runtime_worker_threads worker_threads (h_parallelism h) in
  let? level := map_err (failed STATUS_CONFIGURATION) (core_log_level_from_env (h_log_level h)) in
  create_shared_core level config h.
End Construction.

Definition cleanup_thread_failure (error : string) : Failure :=
  failed STATUS_INTERNAL ("could not start Temporal runtime cleanup thread: " +:+ error).

(** ** Handles *)

(** [ptr::write] to a slot; a null slot is not written. *)
Definition write_slot {A} (slot handle : N) (t : Table A) : Table A :=
  if slot =? 0 then t else mkTable (<[slot := handle]> (slots t)) (live t).

(** [Box::into_raw] and the write to the slot. *)
Definition publish {A} (choice slot : N) (a : A) (t : Table A) : Table A :=
  let handle := place choice (live t) in
  mkTable (<[slot := handle]> (slots t)) (<[handle := a]> (live t)).

(** [ptr::replace] by null and, unless the slot was null, [Box::from_raw]. *)
Definition take_slot {A} (slot : N) (t : Table A) : option (option A * Table A) :=
  handle ← slots t !! slot;
  let t := mkTable (<[slot := 0]> (slots t)) (live t) in
  if handle =? 0 then Some (None, t)
  else a ← live t !! handle; Some (Some a, mkTable (slots t) (delete handle (live t))).

Section Boundary.
Context {R : Type}.
Implicit Types n : Native R.

Definition set_memory m n : Native R :=
  mkNative m (runtimes n) (shareds n) (meters n) (id_slots n) (cores n) (cleanups n) (destroyed n)
    (next_core n) (next_cleanup n).
Definition set_runtimes t n : Native R :=
  mkNative (memory n) t (shareds n) (meters n) (id_slots n) (cores n) (cleanups n) (destroyed n)
    (next_core n) (next_cleanup n).
Definition set_shareds t n : Native R :=
  mkNative (memory n) (runtimes n) t (meters n) (id_slots n) (cores n) (cleanups n) (destroyed n)
    (next_core n) (next_cleanup n).
Definition set_meters t n : Native R :=
  mkNative (memory n) (runtimes n) (shareds n) t (id_slots n) (cores n) (cleanups n) (destroyed n)
    (next_core n) (next_cleanup n).
Definition set_id slot id n : Native R :=
  if slot =? 0 then n
  else mkNative (memory n) (runtimes n) (shareds n) (meters n) (<[slot := id]> (id_slots n)) (cores n)
         (cleanups n) (destroyed n) (next_core n) (next_cleanup n).
Definition set_cores c d n : Native R :=
  mkNative (memory n) (runtimes n) (shareds n) (meters n) (id_slots n) c (cleanups n) d
    (next_core n) (next_cleanup n).
Definition set_cleanups c k n : Native R :=
  mkNative (memory n) (runtimes n) (shareds n) (meters n) (id_slots n) (cores n) c (destroyed n)
    (next_core n) k.

(** ** The panic and result boundary *)

(** What the closure did, as a result. *)
Definition result_of_closure (choice : N) (ran : Ran Operation) (m : Memory) : Result * Memory :=
  match ran with
  | Returned (Ok value) => success choice value m
  | Returned (Err error) => failure choice (ClientCalls.f_status error) (ClientCalls.f_message error) m
  | Unwound => failure choice STATUS_PANIC "Rust panic contained at the native ABI boundary" m
  end.

Definition invoke (output choice : N) (operation : Native R → option (Ran Operation * Native R)) n :
    option (N * Native R) :=
  if output =? 0 then Some (STATUS_INVALID_ARGUMENT, n)
  else
    let n := set_memory (write_result output Result_default (memory n)) n in
    '(ran, n) ← operation n;
    let '(r, m) := result_of_closure choice ran (memory n) in
    Some (r_status r, set_memory (write_result output r m) n).

Definition answer (o : Operation) n : option (Ran Operation * Native R) := Some (Returned o, n).

Definition null_runtime : Failure := failed STATUS_INVALID_ARGUMENT "runtime pointer is null".

(** [runtime_mut] and the operation on the graph behind the handle; [None] as the outcome
    of the operation is that it has not returned. *)
Definition with_runtime (runtime : N) (operation : R → option (Ran Operation * R)) n :
    option (Ran Operation * Native R) :=
  if runtime =? 0 then answer (Err null_runtime) n
  else
    '(core, graph) ← live (runtimes n) !! runtime;
    '(ran, graph) ← operation graph;
    Some (ran, set_runtimes (mkTable (slots (runtimes n)) (<[runtime := (core, graph)]> (live (runtimes n)))) n).

Definition invoke_runtime_document (output choice runtime : N) (input : Span) (input_len : N)
    (operation : R → list byte → option (Ran Operation * R)) n : option (N * Native R) :=
  invoke output choice (λ n,
    span ← input_span input input_len MAX_DOCUMENT_BYTES;
    match span with
    | Err error => answer (Err error) n
    | Ok input => with_runtime runtime (λ graph, operation graph input) n
    end) n.

(** The common form of the connect and the worker start documents: here the handle is
    checked before the input. *)
Definition invoke_runtime_config {T} `{JsonText T} (output choice runtime : N) (input : Span) (input_len : N)
    (operation : R → T → option (Ran Operation * R)) n : option (N * Native R) :=
  invoke output choice (λ n,
    if runtime =? 0 then answer (Err null_runtime) n
    else
      _ ← live (runtimes n) !! runtime;
      config ← decode_config input input_len;
      match config with
      | Err error => answer (Err error) n
      | Ok config => with_runtime runtime (λ graph, operation graph config) n
      end) n.

(** ** Symbols without a handle *)

Definition check_abi_version (requested_version output choice : N) n : option (N * Native R) :=
  invoke output choice (answer
    (if requested_version =? ABI_VERSION then Ok []
     else Err (failed STATUS_ABI_MISMATCH
            ("unsupported ABI version " +:+ pretty requested_version +:+ "; expected " +:+ pretty ABI_VERSION)))) n.

Definition echo (input : Span) (input_len output choice : N) n : option (N * Native R) :=
  invoke output choice (λ n,
    if input_len =? 0 then answer (Ok []) n
    else match input with
         | None => answer (Err null_input) n
         | Some bytes => bytes ← from_raw_parts bytes input_len; answer (Ok bytes) n
         end) n.

(** With the time that the thread sleeps. *)
Definition conformance_wait (milliseconds : N) : Operation * N :=
  if 1000 <? milliseconds
  then (Err (failed STATUS_INVALID_ARGUMENT "conformance wait cannot exceed 1000 ms"), 0)
  else (Ok [], milliseconds).

Definition conformance_wait_ms (milliseconds output choice : N) n : option (N * Native R) :=
  invoke output choice (answer (conformance_wait milliseconds).1) n.

(** The status and the nanoseconds slept, where [slept] is whether the sleep returned. *)
Definition pacing_sleep_ns (nanoseconds : N) (slept : Ran ()) : N * N :=
  if nanoseconds =? 0 then (STATUS_OK, 0)
  else (match slept with Returned _ => STATUS_OK | Unwound => STATUS_PANIC end,
        N.min nanoseconds MAX_PACING_SLEEP_NS).

(** ** References to Core *)

(** [Arc::new]. *)
Definition new_core (metrics : option MetricsExporter) n : N * Native R :=
  let core := next_core n in
  (core, mkNative (memory n) (runtimes n) (shareds n) (meters n) (id_slots n)
           (<[core := mkSharedCore 1 metrics]> (cores n)) (cleanups n) (destroyed n)
           (core + 1) (next_cleanup n)).

Definition clone_core (core : N) n : option (Native R) :=
  c ← cores n !! core;
  Some (set_cores (<[core := mkSharedCore (sc_strong c + 1) (sc_metrics c)]> (cores n)) (destroyed n) n).

(** The last reference destroys Core. *)
Definition drop_core (core : N) n : option (Native R) :=
  c ← cores n !! core;
  Some (if sc_strong c =? 1
        then set_cores (delete core (cores n)) (destroyed n ++ [core]) n
        else set_cores (<[core := mkSharedCore (sc_strong c - 1) (sc_metrics c)]> (cores n)) (destroyed n) n).

(** ** Creation of handles *)

(** [Runtime::new] and the publication of its box. *)
Definition publish_runtime (core : N) (thread : result () string) (choice slot : N) (graph : R) n :
    option (Ran Operation * Native R) :=
  match thread with
  | Err error => n ← drop_core core n; answer (Err (cleanup_thread_failure error)) n
  | Ok _ => answer (Ok []) (set_runtimes (publish choice slot (core, graph) (runtimes n)) n)
  end.

Definition null_runtime_slot : Failure := failed STATUS_INVALID_ARGUMENT "runtime output pointer is null".
Definition null_shared : Failure := failed STATUS_INVALID_ARGUMENT "shared runtime handle is null".
Definition no_telemetry : TelemetryConfig := mkTelemetryConfig None.

Section Creation.
Variable display : SocketAddr → string.
Context `{JsonText TelemetryConfig}.

(** [graph] is the empty graph that the runtime starts with; the first choice is the
    address of the box, the second that of the result's bytes. *)
Definition runtime_new_with_worker_threads (worker_threads slot output : N) (h : Host) (graph : R)
    (choices : N * N) n : option (N * Native R) :=
  let n := set_runtimes (write_slot slot 0 (runtimes n)) n in
  if output =? 0 then Some (STATUS_INVALID_ARGUMENT, n)
  else if slot =? 0 then invoke output choices.2 (answer (Err null_runtime_slot)) n
  else
    invoke output choices.2 (λ n,
      match build_core display worker_threads no_telemetry h with
      | Err error => answer (Err error) n
      | Ok metrics =>
          let '(core, n) := new_core metrics n in
          publish_runtime core (h_cleanup_thread h) choices.1 slot graph n
      end) n.

Definition runtime_new (slot output : N) := runtime_new_with_worker_threads 0 slot output.

Definition telemetry_document (input : Span) (input_len : N) : option (result TelemetryConfig Failure) :=
  bytes ← read_span input input_len MAX_TELEMETRY_CONFIG_BYTES
    (failed STATUS_CONFIGURATION
       ("runtime telemetry configuration exceeds " +:+ pretty MAX_TELEMETRY_CONFIG_BYTES +:+ " bytes"))
    (failed STATUS_INVALID_ARGUMENT "telemetry input is null but input_len is nonzero");
  Some (let? bytes := bytes in
        match utf8_text_of bytes with
        | Some text => parse_telemetry_config text
        | None => Err (telemetry_failure "invalid runtime telemetry configuration JSON")
        end).

Definition shared_runtime_new_with_telemetry_json (worker_threads : N) (input : Span) (input_len : N)
    (slot output : N) (h : Host) (choices : N * N) n : option (N * Native R) :=
  let n := set_shareds (write_slot slot 0 (shareds n)) n in
  if output =? 0 then Some (STATUS_INVALID_ARGUMENT, n)
  else
    invoke output choices.2 (λ n,
      if slot =? 0
      then answer (Err (failed STATUS_INVALID_ARGUMENT "shared runtime output pointer is null")) n
      else
        config ← telemetry_document input input_len;
        match (let? config := config in build_core display worker_threads config h) with
        | Err error => answer (Err error) n
        | Ok metrics =>
            let '(core, n) := new_core metrics n in
            match h_cleanup_thread h with
            | Err error => n ← drop_core core n; answer (Err (cleanup_thread_failure error)) n
            | Ok _ =>
                answer (Ok (into_bytes (from_option bound_address "" metrics)))
                  (set_shareds (publish choices.1 slot core (shareds n)) n)
            end
        end) n.

Definition shared_runtime_new (worker_threads slot output : N) :=
  shared_runtime_new_with_telemetry_json worker_threads (Some (into_bytes "{}")) 2 slot output.
End Creation.

Definition runtime_new_attached (shared slot output : N) (thread : result () string) (graph : R)
    (choices : N * N) n : option (N * Native R) :=
  let n := set_runtimes (write_slot slot 0 (runtimes n)) n in
  if output =? 0 then Some (STATUS_INVALID_ARGUMENT, n)
  else
    invoke output choices.2 (λ n,
      if slot =? 0 then answer (Err null_runtime_slot) n
      else if shared =? 0 then answer (Err null_shared) n
      else
        core ← live (shareds n) !! shared;
        n ← clone_core core n;
        publish_runtime core thread choices.1 slot graph n) n.

(** ** Release of handles *)

(** How a release goes: whether its cleanup thread took the message, and whether the
    close or the destructors panic.  A panic unwinds through the owner of the reference
    and drops it. *)
Record Release := mkRelease {
  rl_close : Ran ();
  rl_taken : bool;
  rl_drop : Ran ()
}.

Definition dropped_status (drop : Ran ()) (returned : N) : N :=
  match drop with Returned _ => returned | Unwound => STATUS_PANIC end.

(** The reference goes to the cleanup thread, or is dropped here when that is gone. *)
Definition hand_over (wait : bool) (rl : Release) (core : N) (graph : option R) n : option (N * Native R) :=
  if negb (rl_taken rl) then
    n ← drop_core core n; Some (dropped_status (rl_drop rl) STATUS_INTERNAL, n)
  else if wait then
    n ← drop_core core n; Some (dropped_status (rl_drop rl) STATUS_OK, n)
  else
    Some (STATUS_OK,
      set_cleanups (<[next_cleanup n := (core, graph)]> (cleanups n)) (next_cleanup n + 1) n).

(** [Runtime::close] behind [runtime_free] and [runtime_dispose]. *)
Definition release_runtime_slot (slot : N) (wait : bool) (rl : Release) n : option (N * Native R) :=
  if slot =? 0 then Some (STATUS_INVALID_ARGUMENT, n)
  else
    '(owned, t) ← take_slot slot (runtimes n);
    let n := set_runtimes t n in
    match owned with
    | None => Some (STATUS_OK, n)
    | Some (core, graph) =>
        match rl_close rl with
        | Unwound => n ← drop_core core n; Some (STATUS_PANIC, n)
        | Returned _ => hand_over wait rl core (Some graph) n
        end
    end.

Definition runtime_free (slot : N) := release_runtime_slot slot true.
Definition runtime_dispose (slot : N) := release_runtime_slot slot false.

Definition release_shared_runtime_slot (slot : N) (wait : bool) (rl : Release) n : option (N * Native R) :=
  if slot =? 0 then Some (STATUS_INVALID_ARGUMENT, n)
  else
    '(owned, t) ← take_slot slot (shareds n);
    let n := set_shareds t n in
    match owned with
    | None => Some (STATUS_OK, n)
    | Some core => hand_over wait rl core None n
    end.

Definition shared_runtime_free (slot : N) := release_shared_runtime_slot slot true.
Definition shared_runtime_dispose (slot : N) := release_shared_runtime_slot slot false.

(** [run_runtime_cleanup] and [run_shared_runtime_cleanup]: the thread takes its message
    and drops the reference, whether or not a destructor panics. *)
Definition run_cleanup (message : N) n : option (Native R) :=
  match cleanups n !! message with
  | None => Some n
  | Some (core, _) => drop_core core (set_cleanups (delete message (cleanups n)) (next_cleanup n) n)
  end.

(** ** Metric meters *)

(** Core has a meter exactly when an exporter was attached to it. *)
Definition shared_runtime_metric_meter (shared slot output : N) (choices : N * N) n : option (N * Native R) :=
  let n := set_meters (write_slot slot 0 (meters n)) n in
  if output =? 0 then Some (STATUS_INVALID_ARGUMENT, n)
  else
    invoke output choices.2 (λ n,
      if slot =? 0
      then answer (Err (failed STATUS_INVALID_ARGUMENT "metric meter output pointer is null")) n
      else if shared =? 0 then answer (Err null_shared) n
      else
        core ← live (shareds n) !! shared;
        c ← cores n !! core;
        answer (Ok [])
          (match sc_metrics c with
           | Some exporter =>
               set_meters (publish choices.1 slot (global_tag_names exporter, InstrumentRegistry_default)
                             (meters n)) n
           | None => n
           end)) n.

Definition MAX_SDK_INSTRUMENT_DOCUMENT_BYTES : N := 8 * 1024.

(** An oversized registration is a rejected one. *)
Definition configuration_span (span : result (list byte) Failure) : result (list byte) Failure :=
  map_err (λ error, if ClientCalls.f_status error =? STATUS_PROTOCOL
                    then failed STATUS_CONFIGURATION (ClientCalls.f_message error) else error) span.

Definition register_bytes `{JsonText InstrumentSpec} (names : list string) (bytes : list byte)
    (r : InstrumentRegistry) : result N Failure * InstrumentRegistry :=
  match utf8_text_of bytes with
  | Some text => MetricMeter.register names text r
  | None => (Err (telemetry_failure "invalid SDK metric registration JSON"), r)
  end.

Definition metric_meter_register_json `{JsonText InstrumentSpec} (meter : N) (input : Span) (input_len id : N)
    (output choice : N) n : option (N * Native R) :=
  let n := set_id id U32_MAX n in
  if output =? 0 then Some (STATUS_INVALID_ARGUMENT, n)
  else
    invoke output choice (λ n,
      if id =? 0
      then answer (Err (failed STATUS_INVALID_ARGUMENT "metric identifier output pointer is null")) n
      else if meter =? 0
      then answer (Err (failed STATUS_INVALID_ARGUMENT "metric meter handle is null")) n
      else
        '(names, r) ← live (meters n) !! meter;
        span ← input_span input input_len MAX_SDK_INSTRUMENT_DOCUMENT_BYTES;
        match configuration_span span with
        | Err error => answer (Err error) n
        | Ok bytes =>
            let '(registered, r) := register_bytes names bytes r in
            let n := set_meters (mkTable (slots (meters n)) (<[meter := (names, r)]> (live (meters n)))) n in
            match registered with
            | Err error => answer (Err error) n
            | Ok registered => answer (Ok []) (set_id id registered n)
            end
        end) n.

(** With what reaches Core's instrument. *)
Definition metric_meter_record (meter id : N) (value : Z) n :
    option (N * option (InstrumentSpec * Recorded)) :=
  if meter =? 0 then Some (STATUS_INVALID_ARGUMENT, None)
  else '(_, r) ← live (meters n) !! meter; Some (MetricMeter.record id value r).

Definition metric_meter_free (slot : N) n : option (N * Native R) :=
  if slot =? 0 then Some (STATUS_INVALID_ARGUMENT, n)
  else '(_, t) ← take_slot slot (meters n); Some (STATUS_OK, set_meters t n).
End Boundary.
