(* ===== verification/AbiSafety.v ===== *)
(** * Ownership across the C interface

    The calls of the C interface under the obligations that abi.rs puts on callers (the
    "Safety" sections of its symbols): a result that still owns bytes is not passed as
    output, a slot that holds a live handle is not overwritten, a slot that is released
    was initialized, a handle is null or live, and an input can be read to its length.
    Under every sequence of such calls and of cleanup threads, no call is undefined, each
    allocation is owned by one field of one result, each handle by one slot, and Core is
    destroyed once, by the last of its holders. *)

From S2P Require Import Prelude.
From S2P Require Import Protocol.
From S2P Require Import ClientDocuments.
From S2P Require Import ClientCalls.
From S2P Require Import Diagnostics.
From S2P Require Import BindAddress.
From S2P Require Import Telemetry.
From S2P Require Import MetricMeter.
From S2P Require Import Failures.
From S2P Require Import Abi.
Local Open Scope N_scope.

(** ** Allocation *)

Lemma top_above {A} (m : gmap N A) k a : m !! k = Some a → k ≤ map_fold (λ at_ _ top, N.max at_ top) 0 m.
Proof.
  revert k a. induction m as [|i x m Hi IH] using map_ind; intros k a; [by rewrite lookup_empty|].
  rewrite map_fold_insert_L; [|intros; lia|done].
  intros [[<- _]|[_ Hk]]%lookup_insert_Some; [lia|]. apply IH in Hk. lia.
Qed.

Lemma place_free {A} choice (m : gmap N A) : m !! place choice m = None.
Proof.
  unfold place. destruct (choice =? 0) eqn:Hz; cbn [orb].
  2: case_bool_decide as Hb; [|by apply eq_None_not_Some].
  all: apply eq_None_not_Some; intros [a Hm%top_above]; lia.
Qed.

Lemma place_nonzero {A} choice (m : gmap N A) : place choice m ≠ 0.
Proof.
  unfold place. destruct (N.eqb_spec choice 0); cbn [orb]; [lia|]. case_bool_decide; lia.
Qed.

(** ** Memory *)

Inductive Field := F_Value | F_Error.

Definition result_field (f : Field) (r : Result) : Buffer :=
  match f with F_Value => r_value r | F_Error => r_error r end.

Definition owns (m : Memory) (output : N) (f : Field) (p : N) : Prop :=
  p ≠ 0 ∧ ∃ r, results m !! output = Some r ∧ b_ptr (result_field f r) = p.

Definition buffer_ok (m : Memory) (b : Buffer) : Prop :=
  b = Buffer_default
  ∨ b_ptr b ≠ 0 ∧ ∃ bytes, boxes m !! b_ptr b = Some bytes ∧ N.of_nat (length bytes) = b_len b.

Record memory_ok (m : Memory) : Prop := {
  mo_null : boxes m !! 0 = None;
  mo_buffer : ∀ output r f, results m !! output = Some r → buffer_ok m (result_field f r);
  mo_shape : ∀ output r, results m !! output = Some r → r_value r = Buffer_default ∨ r_error r = Buffer_default;
  mo_owned : ∀ p bytes, boxes m !! p = Some bytes → ∃ output f, owns m output f p;
  mo_unique : ∀ output output' f f' p, owns m output f p → owns m output' f' p → output = output' ∧ f = f'
}.

(** A result that may be passed as output: not written yet, or without bytes. *)
Definition vacant (output : N) (m : Memory) : bool :=
  match results m !! output with
  | None => true
  | Some r => (b_ptr (r_value r) =? 0) && (b_ptr (r_error r) =? 0)
  end.

Lemma vacant_owns output m f p : vacant output m = true → ¬ owns m output f p.
Proof.
  unfold vacant. intros Hv (Hp & r & Hr & Hf). rewrite Hr in Hv.
  apply andb_true_iff in Hv as [?%N.eqb_eq ?%N.eqb_eq]. by destruct f; cbn in Hf; congruence.
Qed.

Lemma results_write m output r output' r' :
  results (write_result output r m) !! output' = Some r' →
  output = output' ∧ r = r' ∨ output ≠ output' ∧ results m !! output' = Some r'.
Proof. cbn. apply lookup_insert_Some. Qed.

Lemma owns_write_other m output r output' f p :
  output ≠ output' → owns (write_result output r m) output' f p ↔ owns m output' f p.
Proof. intros Hne. unfold owns. cbn. by rewrite lookup_insert_ne by done. Qed.

Lemma owns_write m output r f p :
  owns (write_result output r m) output f p ↔ p ≠ 0 ∧ b_ptr (result_field f r) = p.
Proof.
  unfold owns. cbn. split.
  - intros (Hp & r' & Hr & Hf). rewrite lookup_insert_eq in Hr. by injection Hr as <-.
  - intros (Hp & Hf). split; [done|]. exists r. by rewrite lookup_insert_eq.
Qed.

(** The result a call commits: one field with the new bytes, the other empty. *)
Definition result_of (status : N) (f : Field) (b : Buffer) : Result :=
  match f with
  | F_Value => mkResult status b Buffer_default
  | F_Error => mkResult status Buffer_default b
  end.

Lemma result_field_of status f b f' :
  result_field f' (result_of status f b) = b ∧ f = f' ∨ result_field f' (result_of status f b) = Buffer_default ∧ f ≠ f'.
Proof. destruct f, f'; cbn; auto; right; done. Qed.

Lemma buffer_ok_write m output r b : buffer_ok (write_result output r m) b ↔ buffer_ok m b.
Proof. done. Qed.

Lemma memory_ok_write_empty status m output :
  memory_ok m → vacant output m = true →
  memory_ok (write_result output (mkResult status Buffer_default Buffer_default) m).
Proof.
  intros [Hz Hb Hs Ho Hu] Hv. split; [done|..].
  - intros output' r f [[<- <-]|[_ Hr]]%results_write; [by left; destruct f|by apply (Hb _ _ f Hr)].
  - intros output' r [[<- <-]|[_ Hr]]%results_write; [by left|by apply Hs in Hr].
  - intros p bytes Hp. destruct (Ho p bytes Hp) as (output' & f & Hown). exists output', f.
    apply owns_write_other; [|done]. intros <-. by apply vacant_owns in Hown.
  - intros o o' f f' p Hown Hown'.
    assert (∀ o1 f1, owns (write_result output (mkResult status Buffer_default Buffer_default) m) o1 f1 p →
      owns m o1 f1 p) as Hold.
    { intros o1 f1 Ho1. destruct (decide (output = o1)) as [<-|Hne]; [|by apply owns_write_other in Ho1].
      apply owns_write in Ho1 as [? ?]. by destruct f1. }
    by apply (Hu o o' f f' p); apply Hold.
Qed.

Lemma vacant_write_empty status m output :
  vacant output (write_result output (mkResult status Buffer_default Buffer_default) m) = true.
Proof. unfold vacant. cbn. by rewrite lookup_insert_eq. Qed.

Lemma from_vec_inv choice bytes m b m' :
  from_vec choice bytes m = (b, m') →
  b = Buffer_default ∧ m' = m
  ∨ b_ptr b ≠ 0 ∧ boxes m !! b_ptr b = None ∧ N.of_nat (length bytes) = b_len b
    ∧ m' = mkMemory (<[b_ptr b := bytes]> (boxes m)) (results m).
Proof.
  unfold from_vec. destruct bytes as [|x bytes]; intros [= <- <-]; [by left|right].
  split_and!; [apply place_nonzero|apply place_free|done..].
Qed.

(** Committing a result keeps the memory in order. *)
Lemma memory_ok_commit choice bytes m b m' status f output :
  memory_ok m → vacant output m = true → from_vec choice bytes m = (b, m') →
  memory_ok (write_result output (result_of status f b) m').
Proof.
  intros Hm Hv [[-> ->]|(Hp & Hfree & Hlen & ->)]%from_vec_inv.
  { destruct f; by apply memory_ok_write_empty. }
  pose proof Hm as [Hz Hb Hs Ho Hu].
  set (m1 := mkMemory _ _).
  assert (∀ p, owns m1 output f p ↔ owns m output f p) as Hsame by done.
  assert (∀ o f' p, owns (write_result output (result_of status f b) m1) o f' p →
    o = output ∧ f' = f ∧ p = b_ptr b ∨ owns m o f' p ∧ p ≠ b_ptr b) as Hsplit.
  { intros o f' p Hown. destruct (decide (output = o)) as [<-|Hne].
    - apply owns_write in Hown as [Hn Hf].
      destruct (result_field_of status f b f') as [[Hfd <-]|[Hfd _]]; rewrite Hfd in Hf; [by left|by destruct Hn].
    - right. apply owns_write_other in Hown; [|done]. split; [done|]. intros ->.
      destruct Hown as (_ & r & Hr & Hf). destruct (Hb _ _ f' Hr) as [He|(_ & y & Hy & _)].
      + by rewrite He in Hf.
      + rewrite Hf in Hy. congruence. }
  split.
  - cbn. rewrite lookup_insert_ne by done. done.
  - intros o r f' [[<- <-]|[_ Hr]]%results_write.
    + destruct (result_field_of status f b f') as [[-> _]|[-> _]]; [right|by left].
      split; [done|]. exists bytes. cbn. by rewrite lookup_insert_eq.
    + destruct (Hb _ _ f' Hr) as [?|(Hn & y & Hy & Hl)]; [by left|right]. split; [done|].
      exists y. split; [|done]. cbn. rewrite lookup_insert_ne; [done|]. intros Heq. congruence.
  - intros o r [[<- <-]|[_ Hr]]%results_write; [destruct f; cbn; auto|by apply Hs in Hr].
  - cbn. intros p y [[<- _]|[Hne Hy]]%lookup_insert_Some.
    + exists output, f. apply owns_write. split; [done|]. by destruct f.
    + destruct (Ho p y Hy) as (o & f' & Hown). exists o, f'. apply owns_write_other; [|done].
      intros <-. by apply vacant_owns in Hown.
  - intros o o' f1 f2 p H1 H2.
    destruct (Hsplit _ _ _ H1) as [(-> & -> & ->)|[H1' Hn1]], (Hsplit _ _ _ H2) as [(-> & -> & Hp2)|[H2' Hn2]];
      try done. by apply (Hu o o' f1 f2 p).
Qed.

#[export] Instance Field_eq_dec : EqDecision Field.
Proof. solve_decision. Defined.

(** Releasing the one field that owns bytes. *)
Lemma memory_ok_release m output r f status :
  memory_ok m → results m !! output = Some r → b_ptr (result_field f r) ≠ 0 →
  memory_ok (write_result output (mkResult status Buffer_default Buffer_default)
    (mkMemory (delete (b_ptr (result_field f r)) (boxes m)) (results m))).
Proof.
  intros [Hz Hb Hs Ho Hu] Hr Hp. set (p := b_ptr (result_field f r)) in *.
  assert (owns m output f p) as Hmine by (split; [done|by exists r]).
  set (m' := write_result _ _ _).
  assert (∀ o f' q, owns m' o f' q → o ≠ output ∧ owns m o f' q) as Hold.
  { intros o f' q Hown. destruct (decide (output = o)) as [<-|Hne].
    - apply owns_write in Hown as [? ?]. by destruct f'.
    - split; [done|]. by apply owns_write_other in Hown. }
  split.
  - cbn. apply lookup_delete_None. by right.
  - intros o r' f' [[<- <-]|[Hne Hr']]%results_write; [left; by destruct f'|].
    destruct (Hb _ _ f' Hr') as [?|(Hn & y & Hy & Hl)]; [by left|right]. split; [done|].
    exists y. split; [|done]. cbn. rewrite lookup_delete_ne; [done|]. intros Heq.
    destruct (Hu output o f f' p) as [? _]; [done| |done]. split; [done|]. by exists r'.
  - intros o r' [[<- <-]|[_ Hr']]%results_write; [by left|by apply Hs in Hr'].
  - cbn. intros q y [Hne Hy]%lookup_delete_Some. destruct (Ho q y Hy) as (o & f' & Hown). exists o, f'.
    apply owns_write_other; [|done]. intros <-. destruct Hown as (Hq & r' & Hr' & Hf).
    rewrite Hr in Hr'. injection Hr' as <-.
    destruct (Hs _ _ Hr) as [He|He], f, f'; cbn in *; unfold p in *; cbn in *; rewrite ?He in *; done.
  - intros o o' f1 f2 q [_ H1]%Hold [_ H2]%Hold. by apply (Hu o o' f1 f2 q).
Qed.

Lemma free_buffer_ok m b :
  buffer_ok m b →
  free_buffer b m = Some (Buffer_default,
    if b_ptr b =? 0 then m else mkMemory (delete (b_ptr b) (boxes m)) (results m)).
Proof.
  unfold free_buffer. intros [->|(Hn & bytes & Hb & Hl)]; [done|].
  apply N.eqb_neq in Hn as ->. rewrite Hb. cbn. by rewrite (proj2 (N.eqb_eq _ _) Hl).
Qed.

Lemma result_free_ok result m :
  memory_ok m → result = 0 ∨ is_Some (results m !! result) →
  ∃ status m', result_free result m = Some (status, m') ∧ memory_ok m'.
Proof.
  intros Hm Hr. unfold result_free. destruct (N.eqb_spec result 0) as [|Hn]; [eauto|].
  destruct Hr as [|[r Hr]]; [done|]. rewrite Hr. cbn.
  pose proof (mo_buffer _ Hm _ _ F_Value Hr) as Hv. pose proof (mo_buffer _ Hm _ _ F_Error Hr) as He.
  cbn in Hv, He. rewrite (free_buffer_ok _ _ Hv). cbn.
  destruct (mo_shape _ Hm _ _ Hr) as [Hd|Hd]; rewrite Hd in *.
  - cbn. rewrite (free_buffer_ok _ _ He). cbn. eexists _, _; split; [done|].
    destruct (N.eqb_spec (b_ptr (r_error r)) 0) as [Hz|Hnz].
    + apply memory_ok_write_empty; [done|]. unfold vacant. rewrite Hr, Hd, Hz. done.
    + by apply (memory_ok_release m result r F_Error).
  - cbn. eexists _, _; split; [done|].
    destruct (N.eqb_spec (b_ptr (r_value r)) 0) as [Hz|Hnz].
    + apply memory_ok_write_empty; [done|]. unfold vacant. rewrite Hr, Hd, Hz. done.
    + by apply (memory_ok_release m result r F_Value).
Qed.

(** ** Handles *)

Record table_ok {A} (t : Table A) : Prop := {
  to_null : live t !! 0 = None;
  to_slot : ∀ slot handle, slots t !! slot = Some handle → handle ≠ 0 → is_Some (live t !! handle);
  to_owned : ∀ handle, is_Some (live t !! handle) → ∃ slot, slots t !! slot = Some handle;
  to_unique : ∀ slot slot' handle, slots t !! slot = Some handle → slots t !! slot' = Some handle →
    handle ≠ 0 → slot = slot'
}.

(** A slot without a live handle. *)
Definition empty_slot {A} (slot : N) (t : Table A) : bool :=
  match slots t !! slot with None => true | Some handle => handle =? 0 end.

Section Tables.
Context {A : Type}.
Implicit Types t : Table A.

Lemma table_ok_clear slot t : table_ok t → empty_slot slot t = true → table_ok (write_slot slot 0 t).
Proof.
  intros [Hz Hs Ho Hu] He. unfold write_slot. destruct (slot =? 0); [done|].
  unfold empty_slot in He. split; cbn; [done|..].
  - intros s h [[_ <-]|[_ Hh]]%lookup_insert_Some ?; [done|by eapply Hs].
  - intros h Hh. destruct (Ho h Hh) as [s Hsl]. exists s. apply lookup_insert_Some. right. split; [|done].
    intros ->. rewrite Hsl in He. apply N.eqb_eq in He as ->. destruct Hh as [? Hh]. congruence.
  - intros s s' h [[_ <-]|[_ H1]]%lookup_insert_Some [[_ H2]|[_ H2]]%lookup_insert_Some ?;
      [done|done|done|by eapply Hu].
Qed.

Lemma empty_slot_clear slot t : empty_slot slot t = true → empty_slot slot (write_slot slot 0 t) = true.
Proof.
  unfold write_slot. destruct (slot =? 0); [done|]. intros _. unfold empty_slot. cbn.
  by rewrite lookup_insert_eq.
Qed.

Lemma table_ok_publish choice slot a t :
  table_ok t → empty_slot slot t = true → table_ok (publish choice slot a t).
Proof.
  intros [Hz Hs Ho Hu] He. unfold publish. set (h := place choice (live t)).
  assert (live t !! h = None) as Hfree by apply place_free.
  assert (h ≠ 0) as Hh by apply place_nonzero.
  assert (∀ s, slots t !! s = Some h → False) as Hnew.
  { intros s Hsl. destruct (Hs _ _ Hsl Hh) as [? ?]. congruence. }
  unfold empty_slot in He. split; cbn; [by rewrite lookup_insert_ne|..].
  - intros s h' [[_ <-]|[_ Hsl]]%lookup_insert_Some Hn; [by rewrite lookup_insert_eq|].
    apply lookup_insert_is_Some. destruct (decide (h = h')); [by left|right]. split; [done|by eapply Hs].
  - intros h' [<-|[Hne Hl]]%lookup_insert_is_Some; [exists slot; by rewrite lookup_insert_eq|].
    destruct (Ho _ Hl) as [s Hsl]. exists s. apply lookup_insert_Some. right. split; [|done].
    intros ->. rewrite Hsl in He. apply N.eqb_eq in He as ->. destruct Hl as [? Hl]. congruence.
  - intros s s' h' [[<- <-]|[_ H1]]%lookup_insert_Some [[<- H2]|[_ H2]]%lookup_insert_Some Hn; try done.
    + by destruct (Hnew _ H2).
    + subst. by destruct (Hnew _ H1).
    + by eapply Hu.
Qed.

Lemma take_slot_ok slot t :
  table_ok t → is_Some (slots t !! slot) →
  ∃ owned t', take_slot slot t = Some (owned, t') ∧ table_ok t'
    ∧ match owned with
      | None => live t' = live t
      | Some a => ∃ handle, live t !! handle = Some a ∧ live t' = delete handle (live t)
      end.
Proof.
  intros [Hz Hs Ho Hu] [h Hsl]. unfold take_slot. rewrite Hsl. cbn.
  destruct (N.eqb_spec h 0) as [->|Hn].
  - eexists _, _; split_and!; [done| |done]. split; cbn; [done|..].
    + intros s h [[_ <-]|[_ Hh]]%lookup_insert_Some ?; [done|by eapply Hs].
    + intros h Hh. destruct (Ho h Hh) as [s Hs']. exists s. apply lookup_insert_Some.
      destruct (decide (slot = s)) as [<-|]; [left|by right]. split; [done|]. congruence.
    + intros s s' h [[_ <-]|[_ H1]]%lookup_insert_Some [[_ H2]|[_ H2]]%lookup_insert_Some ?;
        [done|done|done|by eapply Hu].
  - destruct (Hs _ _ Hsl Hn) as [a Ha]. rewrite Ha. cbn. eexists _, _; split_and!; [done| |by exists h].
    split; cbn.
    + apply lookup_delete_None. by right.
    + intros s h' [[_ <-]|[Hne Hh]]%lookup_insert_Some Hn'; [done|].
      rewrite lookup_delete_ne; [by eapply Hs|]. intros <-. by destruct Hne; eapply Hu.
    + intros h' [Hne Hl]%lookup_delete_is_Some. destruct (Ho _ Hl) as [s Hs']. exists s.
      apply lookup_insert_Some. right. split; [|done]. intros ->. congruence.
    + intros s s' h' [[_ <-]|[_ H1]]%lookup_insert_Some [[_ H2]|[_ H2]]%lookup_insert_Some ?;
        [done|done|done|by eapply Hu].
Qed.

Lemma table_ok_update handle a b t :
  table_ok t → live t !! handle = Some a → table_ok (mkTable (slots t) (<[handle := b]> (live t))).
Proof.
  intros [Hz Hs Ho Hu] Ha. assert (handle ≠ 0) as Hn by congruence. split; cbn.
  - by rewrite lookup_insert_ne.
  - intros s h Hsl Hh. apply lookup_insert_is_Some. destruct (decide (handle = h)); [by left|right].
    split; [done|by eapply Hs].
  - intros h [<-|[_ Hh]]%lookup_insert_is_Some; apply Ho; [by rewrite Ha|done].
  - done.
Qed.
End Tables.

(** ** Holders of Core *)

Definition count {A} (core_of : A → N) (core : N) (m : gmap N A) : N :=
  N.of_nat (size (filter (λ e : N * A, core_of e.2 = core) m)).

Definition one (b : bool) : N := if b then 1 else 0.

Lemma count_empty {A} (f : A → N) core : count f core ∅ = 0.
Proof. done. Qed.

Lemma count_insert {A} (f : A → N) core k a m :
  m !! k = None → count f core (<[k := a]> m) = one (f a =? core) + count f core m.
Proof.
  intros Hk. unfold count. rewrite map_filter_insert. cbn. destruct (N.eqb_spec (f a) core) as [He|Hne].
  - rewrite decide_True by done. rewrite map_size_insert_None; [cbn; lia|].
    apply map_lookup_filter_None. by left.
  - rewrite decide_False by done. rewrite map_filter_delete, delete_id; [done|].
    apply map_lookup_filter_None. by left.
Qed.

Lemma count_delete {A} (f : A → N) core k a m :
  m !! k = Some a → count f core m = one (f a =? core) + count f core (delete k m).
Proof.
  intros Hk. rewrite <- (insert_delete_id m k a) at 1 by done.
  by rewrite count_insert by apply lookup_delete_eq.
Qed.

Lemma count_update {A} (f : A → N) core k a b m :
  m !! k = Some a → f a = f b → count f core (<[k := b]> m) = count f core m.
Proof.
  intros Hk Hf. rewrite <- insert_delete_eq, count_insert by apply lookup_delete_eq.
  rewrite (count_delete f core k a m Hk), Hf. done.
Qed.

Lemma count_positive {A} (f : A → N) core k a m : m !! k = Some a → f a = core → 0 < count f core m.
Proof. intros Hk <-. rewrite (count_delete f _ k a m Hk), N.eqb_refl. cbn. lia. Qed.

Section Cores.
Context {R : Type}.
Implicit Types n : Native R.

(** The references to a Core: those of runtimes, of shared runtimes and of messages to
    cleanup threads. *)
Definition holders (core : N) n : N :=
  count fst core (live (runtimes n)) + count id core (live (shareds n)) + count fst core (cleanups n).

(** The reference that the call in progress holds. *)
Definition in_hand (hand : option N) (core : N) : N :=
  match hand with Some held => one (held =? core) | None => 0 end.

Record cores_ok (hand : option N) n : Prop := {
  co_strong : ∀ core c, cores n !! core = Some c → sc_strong c = holders core n + in_hand hand core;
  co_held : ∀ core c, cores n !! core = Some c → 0 < sc_strong c;
  co_gone : ∀ core, cores n !! core = None → holders core n + in_hand hand core = 0;
  co_destroyed : ∀ core, core ∈ destroyed n ↔ core < next_core n ∧ cores n !! core = None;
  co_once : NoDup (destroyed n);
  co_next : ∀ core, next_core n ≤ core → cores n !! core = None;
  co_messages : ∀ message, next_cleanup n ≤ message → cleanups n !! message = None
}.

Lemma cores_ok_alive hand core n :
  cores_ok hand n → 0 < holders core n + in_hand hand core → is_Some (cores n !! core).
Proof.
  intros Hn Hp. destruct (cores n !! core) eqn:Hc; [done|]. apply (co_gone _ _ Hn) in Hc. lia.
Qed.

(** Only the counts of the holders matter. *)
Lemma cores_ok_same hand hand' n n' :
  cores_ok hand n → cores n' = cores n → destroyed n' = destroyed n → next_core n' = next_core n →
  (∀ message, next_cleanup n' ≤ message → cleanups n' !! message = None) →
  (∀ core, holders core n' + in_hand hand' core = holders core n + in_hand hand core) →
  cores_ok hand' n'.
Proof.
  intros [Hs Hh Hg Hd Ho Hx Hm] Hc Hdd Hnn Hm' Hcount.
  split; rewrite ?Hc, ?Hdd, ?Hnn; try done; intros core.
  - intros c Hcc. rewrite Hcount. by apply Hs.
  - intros Hcc. rewrite Hcount. by apply Hg.
Qed.

Lemma holders_next hand n : cores_ok hand n → holders (next_core n) n = 0.
Proof. intros Hn. pose proof (co_gone _ _ Hn _ (co_next _ _ Hn _ (N.le_refl _))). lia. Qed.

Lemma new_core_ok metrics n :
  cores_ok None n → cores_ok (Some (new_core metrics n).1) (new_core metrics n).2.
Proof.
  intros Hn. pose proof (holders_next _ _ Hn) as Hz. destruct Hn as [Hs Hh Hg Hd Ho Hx Hm].
  split; cbn.
  - intros core c [[<- <-]|[Hne Hc]]%lookup_insert_Some.
    + cbn. rewrite N.eqb_refl. cbn. change (1 = holders (next_core n) n + 1). lia.
    + rewrite (proj2 (N.eqb_neq _ _) Hne). cbn. rewrite (Hs _ _ Hc). done.
  - intros core c [[<- <-]|[Hne Hc]]%lookup_insert_Some; [cbn; lia|by eapply Hh].
  - intros core [Hc Hne]%lookup_insert_None. rewrite (proj2 (N.eqb_neq _ _) Hne). cbn.
    pose proof (Hg _ Hc) as He. cbn in He. exact He.
  - intros core. rewrite Hd. split.
    + intros [Hlt Hc]. split; [lia|]. rewrite lookup_insert_ne; [done|lia].
    + intros [Hlt [Hc Hne]%lookup_insert_None]. split; [lia|done].
  - done.
  - intros core Hle. rewrite lookup_insert_ne by lia. apply Hx. lia.
  - done.
Qed.

Lemma clone_core_ok core n :
  cores_ok None n → 0 < holders core n →
  ∃ n', clone_core core n = Some n' ∧ cores_ok (Some core) n'
    ∧ n' = set_cores (cores n') (destroyed n) n.
Proof.
  intros Hn Hp. destruct (cores_ok_alive None core n Hn) as [c Hc]; [lia|].
  unfold clone_core. rewrite Hc. cbn. eexists; split_and!; [done| |done].
  destruct Hn as [Hs Hh Hg Hd Ho Hx Hm]. split; cbn.
  - intros k d [[<- <-]|[Hne Hk]]%lookup_insert_Some; cbn.
    + rewrite N.eqb_refl, (Hs _ _ Hc). cbn. unfold holders. cbn. lia.
    + rewrite (proj2 (N.eqb_neq _ _) Hne), (Hs _ _ Hk). done.
  - intros k d [[<- <-]|[Hne Hk]]%lookup_insert_Some; [cbn; lia|by eapply Hh].
  - intros k [Hk Hne]%lookup_insert_None. rewrite (proj2 (N.eqb_neq _ _) Hne). by apply Hg in Hk.
  - intros k. rewrite Hd, lookup_insert_None. split; [|tauto]. intros [? Hk]. split_and!; [done..|].
    intros <-. congruence.
  - done.
  - intros k Hle. apply lookup_insert_None. split; [by apply Hx|]. intros <-. rewrite Hx in Hc; [done|lia].
  - done.
Qed.

(** Dropping the reference in hand: the last one destroys Core. *)
Lemma drop_core_ok core n :
  cores_ok (Some core) n →
  ∃ n', drop_core core n = Some n' ∧ cores_ok None n'
    ∧ n' = set_cores (cores n') (destroyed n') n.
Proof.
  intros Hn. destruct (cores_ok_alive (Some core) core n Hn) as [c Hc]; [cbn; rewrite N.eqb_refl; cbn; lia|].
  unfold drop_core. rewrite Hc. cbn. eexists; split_and!; [done| |by destruct (_ =? _)].
  destruct Hn as [Hs Hh Hg Hd Ho Hx Hm].
  assert (sc_strong c = holders core n + 1) as Hstrong.
  { rewrite (Hs _ _ Hc). cbn. by rewrite N.eqb_refl. }
  assert (core < next_core n) as Hlt.
  { destruct (N.lt_ge_cases core (next_core n)) as [?|Hge]; [done|]. apply Hx in Hge. congruence. }
  assert (∀ k, k ≠ core → in_hand (Some core) k = 0) as Hother.
  { intros k Hne. cbn. by rewrite (proj2 (N.eqb_neq core k)). }
  destruct (N.eqb_spec (sc_strong c) 1) as [Hlast|Hmore]; split; cbn.
  - intros k d [Hne Hk]%lookup_delete_Some. rewrite (Hs _ _ Hk), Hother by done. done.
  - intros k d [Hne Hk]%lookup_delete_Some. by eapply Hh.
  - intros k [<-|Hk]%lookup_delete_None; [unfold holders in *; cbn in *; lia|].
    pose proof (Hg _ Hk). unfold holders in *; cbn in *; lia.
  - intros k. rewrite elem_of_app, Hd, list_elem_of_singleton, lookup_delete_None. split.
    + intros [[? ?]| ->]; auto.
    + intros [? [?|?]]; auto.
  - apply NoDup_app. split_and!; [done| |apply NoDup_singleton].
    intros k Hk ->%list_elem_of_singleton. apply Hd in Hk as [_ Hk]. congruence.
  - intros k Hle. apply lookup_delete_None. right. by apply Hx.
  - done.
  - intros k d [[<- <-]|[Hne Hk]]%lookup_insert_Some; cbn; [unfold holders in *; cbn in *; lia|].
    rewrite (Hs _ _ Hk), Hother by done. done.
  - intros k d [[<- <-]|[Hne Hk]]%lookup_insert_Some; cbn; [lia|by eapply Hh].
  - intros k [Hk Hne]%lookup_insert_None. pose proof (Hg _ Hk). unfold holders in *; cbn in *; lia.
  - intros k. rewrite Hd, lookup_insert_None. split; [|tauto]. intros [? Hk]. split_and!; [done..|].
    intros <-. congruence.
  - done.
  - intros k Hle. apply lookup_insert_None. split; [by apply Hx|]. intros <-. lia.
  - done.
Qed.

(** ** The native side *)

Record native_ok (hand : option N) n : Prop := {
  no_memory : memory_ok (memory n);
  no_runtimes : table_ok (runtimes n);
  no_shareds : table_ok (shareds n);
  no_meters : table_ok (meters n);
  no_cores : cores_ok hand n
}.

(** The handles are as before. *)
Definition same_handles n n' : Prop :=
  runtimes n' = runtimes n ∧ shareds n' = shareds n ∧ meters n' = meters n.

(** A closure that is run by [invoke]: it is defined, keeps the state in order and leaves
    the results alone. *)
Definition runs (operation : Native R → option (Ran Operation * Native R)) n : Prop :=
  ∃ ran n', operation n = Some (ran, n') ∧ native_ok None n' ∧ memory n' = memory n.

Lemma native_ok_memory m n : native_ok None n → memory_ok m → native_ok None (set_memory m n).
Proof. intros [_ Hr Hs Hm Hc] Hok. split; [done..|]. by apply (cores_ok_same None None n); try apply Hc. Qed.

Lemma result_of_closure_inv choice ran m :
  ∃ status f b m' bytes, result_of_closure choice ran m = (result_of status f b, m')
    ∧ from_vec choice bytes m = (b, m').
Proof.
  unfold result_of_closure, success, failure. destruct ran as [[value|error]|].
  all: destruct (from_vec _ _ _) as [b m'] eqn:Hb.
  - by exists STATUS_OK, F_Value, b, m'; eauto.
  - by eexists _, F_Error, b, m'; eauto.
  - by eexists _, F_Error, b, m'; eauto.
Qed.

Lemma invoke_ok output choice operation n :
  native_ok None n → vacant output (memory n) = true →
  (∀ n', native_ok None n' → same_handles n n' → cores n' = cores n → runs operation n') →
  ∃ status n', invoke output choice operation n = Some (status, n') ∧ native_ok None n'.
Proof.
  intros Hn Hv Hop. unfold invoke. destruct (output =? 0); [eauto|].
  set (m := write_result output Result_default (memory n)).
  assert (memory_ok m) as Hm by (apply memory_ok_write_empty; [apply Hn|done]).
  destruct (Hop (set_memory m n)) as (ran & n' & -> & Hn' & Hsame); [by apply native_ok_memory|done..|].
  assert (vacant output (memory n') = true) as Hv' by (rewrite Hsame; apply vacant_write_empty).
  cbn. destruct (result_of_closure_inv choice ran (memory n')) as (status & f & b & m' & bytes & -> & Hb).
  eexists _, _; split; [done|]. apply native_ok_memory; [done|].
  by eapply memory_ok_commit; [apply Hn'|..].
Qed.

Lemma runs_answer o n : native_ok None n → runs (answer o) n.
Proof. intros Hn. by eexists _, _. Qed.

Lemma with_runtime_ok runtime operation n :
  native_ok None n → runtime = 0 ∨ is_Some (live (runtimes n) !! runtime) → runs (with_runtime runtime (λ graph, Some (operation graph))) n.
Proof.
  intros Hn Hr. unfold runs, with_runtime. destruct (N.eqb_spec runtime 0) as [|Hnz]; [by apply runs_answer|].
  destruct Hr as [|[[core graph] Hr]]; [done|]. rewrite Hr. cbn. destruct (operation graph) as [ran graph'].
  eexists _, _; split_and!; [done| |done]. destruct Hn as [? Ht ? ? Hc]. split; try done; cbn.
  - by eapply table_ok_update.
  - apply (cores_ok_same None None n); try done; [apply Hc|]. intros core'. unfold holders. cbn.
    by rewrite (count_update fst core' runtime (core, graph) (core, graph')).
Qed.

Lemma publish_runtime_ok core thread choice slot graph n :
  native_ok (Some core) n → empty_slot slot (runtimes n) = true →
  runs (publish_runtime core thread choice slot graph) n.
Proof.
  intros [Hm Ht Hs Hme Hc] He. unfold runs, publish_runtime. destruct thread.
  - eexists _, _; split_and!; [done| |done]. split; try done; cbn; [by apply table_ok_publish|].
    apply (cores_ok_same (Some core) None n); try done; [apply Hc|]. intros core'. unfold holders. cbn.
    rewrite count_insert by apply place_free. cbn. lia.
  - destruct (drop_core_ok _ _ Hc) as (n' & -> & Hn' & Heq). eexists _, _; split_and!; [done| |by rewrite Heq].
    rewrite Heq in *. by split.
Qed.

Lemma publish_shared_ok core choice slot n :
  native_ok (Some core) n → empty_slot slot (shareds n) = true →
  native_ok None (set_shareds (publish choice slot core (shareds n)) n).
Proof.
  intros [Hm Ht Hs Hme Hc] He. split; try done; cbn; [by apply table_ok_publish|].
  apply (cores_ok_same (Some core) None n); try done; [apply Hc|]. intros core'. unfold holders. cbn.
  rewrite count_insert by apply place_free. cbn. lia.
Qed.

Lemma new_core_native metrics n :
  native_ok None n →
  native_ok (Some (new_core metrics n).1) (new_core metrics n).2 ∧ same_handles n (new_core metrics n).2
  ∧ memory (new_core metrics n).2 = memory n.
Proof. intros [? ? ? ? Hc]. split; [|done]. split; try done. by apply new_core_ok. Qed.

Lemma drop_core_native core n :
  native_ok (Some core) n →
  ∃ n', drop_core core n = Some n' ∧ native_ok None n' ∧ memory n' = memory n.
Proof.
  intros [? ? ? ? Hc]. destruct (drop_core_ok _ _ Hc) as (n' & -> & Hn' & Heq).
  exists n'. split_and!; [done| |by rewrite Heq]. rewrite Heq in *. by split.
Qed.

Lemma hand_over_ok wait rl core graph n :
  native_ok (Some core) n → ∃ status n', hand_over wait rl core graph n = Some (status, n') ∧ native_ok None n'.
Proof.
  intros Hn. unfold hand_over. destruct (drop_core_native _ _ Hn) as (n' & Hdrop & Hn' & _).
  destruct (rl_taken rl), wait; cbn [negb]; rewrite ?Hdrop; cbn; eauto.
  eexists _, _; split; [done|]. destruct Hn as [? ? ? ? Hc]. split; try done.
  apply (cores_ok_same (Some core) None n); try done; cbn.
  - intros message Hle. rewrite lookup_insert_ne by lia. apply Hc. lia.
  - intros core'. unfold holders. cbn. rewrite count_insert by (apply Hc; done). cbn. lia.
Qed.

Lemma run_cleanup_ok message n :
  native_ok None n → ∃ n', run_cleanup message n = Some n' ∧ native_ok None n'.
Proof.
  intros Hn. unfold run_cleanup. destruct (cleanups n !! message) as [[core graph]|] eqn:Hm; [|eauto].
  destruct (drop_core_native core (set_cleanups (delete message (cleanups n)) (next_cleanup n) n))
    as (n' & -> & Hn' & _); [|eauto].
  destruct Hn as [? ? ? ? Hc]. split; try done. apply (cores_ok_same None (Some core) n); try done; cbn.
  - intros k Hle. apply lookup_delete_None. right. by apply Hc.
  - intros core'. unfold holders. cbn.
    rewrite (count_delete fst core' message (core, graph) (cleanups n) Hm). cbn. lia.
Qed.

(** ** Calls *)

(** Symbols that only differ in the operation they run on the graph are one constructor
    each: [Call_Graph] without input, [Call_Document] and [Call_Config] with a document.
    [Call_Other] is a symbol that takes no handle, such as the await of a submitted call. *)
Inductive Call :=
| Call_Version (requested output choice : N)
| Call_Echo (input : Span) (input_len output choice : N)
| Call_Wait (milliseconds output choice : N)
| Call_Other (outcome : Ran Operation) (output choice : N)
| Call_Graph (runtime output choice : N) (operation : R → Ran Operation * R)
| Call_Document (runtime : N) (input : Span) (input_len output choice : N)
    (operation : R → list byte → Ran Operation * R)
| Call_Config (T : Set) (json : JsonText T) (runtime : N) (input : Span) (input_len output choice : N)
    (operation : R → T → Ran Operation * R)
| Call_RuntimeNew (worker_threads slot output : N) (h : Host) (graph : R) (choices : N * N)
| Call_SharedNew (worker_threads : N) (input : Span) (input_len slot output : N) (h : Host) (choices : N * N)
| Call_Attach (shared slot output : N) (thread : result () string) (graph : R) (choices : N * N)
| Call_RuntimeRelease (slot : N) (wait : bool) (rl : Release)
| Call_SharedRelease (slot : N) (wait : bool) (rl : Release)
| Call_Meter (shared slot output : N) (choices : N * N)
| Call_Register (meter : N) (input : Span) (input_len id output choice : N)
| Call_MeterFree (slot : N)
| Call_ResultFree (result : N)
| Cleanup_Thread (message : N).

Section Process.
Variable display : SocketAddr → string.
Context `{JsonText TelemetryConfig, JsonText InstrumentSpec}.

Definition call (c : Call) n : option (N * Native R) :=
  match c with
  | Call_Version requested output choice => check_abi_version requested output choice n
  | Call_Echo input input_len output choice => echo input input_len output choice n
  | Call_Wait milliseconds output choice => conformance_wait_ms milliseconds output choice n
  | Call_Other outcome output choice => invoke output choice (λ n, Some (outcome, n)) n
  | Call_Graph runtime output choice operation => invoke output choice (with_runtime runtime (λ graph, Some (operation graph))) n
  | Call_Document runtime input input_len output choice operation =>
      invoke_runtime_document output choice runtime input input_len (λ graph input, Some (operation graph input)) n
  | Call_Config T json runtime input input_len output choice operation =>
      invoke_runtime_config output choice runtime input input_len (λ graph config, Some (operation graph config)) n
  | Call_RuntimeNew worker_threads slot output h graph choices =>
      runtime_new_with_worker_threads display worker_threads slot output h graph choices n
  | Call_SharedNew worker_threads input input_len slot output h choices =>
      shared_runtime_new_with_telemetry_json display worker_threads input input_len slot output h choices n
  | Call_Attach shared slot output thread graph choices =>
      runtime_new_attached shared slot output thread graph choices n
  | Call_RuntimeRelease slot wait rl => release_runtime_slot slot wait rl n
  | Call_SharedRelease slot wait rl => release_shared_runtime_slot slot wait rl n
  | Call_Meter shared slot output choices => shared_runtime_metric_meter shared slot output choices n
  | Call_Register meter input input_len id output choice =>
      metric_meter_register_json meter input input_len id output choice n
  | Call_MeterFree slot => metric_meter_free slot n
  | Call_ResultFree result =>
      '(status, m) ← result_free result (memory n); Some (status, set_memory m n)
  | Cleanup_Thread message => n ← run_cleanup message n; Some (STATUS_OK, n)
  end.

(** *** The obligations of callers *)

Definition readable (input : Span) (input_len : N) : bool :=
  match input with None => true | Some bytes => input_len <=? N.of_nat (length bytes) end.

Definition null_or_live {A} (handle : N) (t : Table A) : bool :=
  (handle =? 0) || bool_decide (is_Some (live t !! handle)).

Definition null_or_initialized {A} (slot : N) (t : Table A) : bool :=
  (slot =? 0) || bool_decide (is_Some (slots t !! slot)).

Definition allowed (c : Call) n : bool :=
  match c with
  | Call_Version _ output _ | Call_Wait _ output _ | Call_Other _ output _ => vacant output (memory n)
  | Call_Echo input input_len output _ => vacant output (memory n) && readable input input_len
  | Call_Graph runtime output _ _ => vacant output (memory n) && null_or_live runtime (runtimes n)
  | Call_Document runtime input input_len output _ _ | Call_Config _ _ runtime input input_len output _ _ =>
      vacant output (memory n) && (readable input input_len && null_or_live runtime (runtimes n))
  | Call_RuntimeNew _ slot output _ _ _ => vacant output (memory n) && empty_slot slot (runtimes n)
  | Call_SharedNew _ input input_len slot output _ _ =>
      vacant output (memory n) && (readable input input_len && empty_slot slot (shareds n))
  | Call_Attach shared slot output _ _ _ =>
      vacant output (memory n) && (null_or_live shared (shareds n) && empty_slot slot (runtimes n))
  | Call_RuntimeRelease slot _ _ => null_or_initialized slot (runtimes n)
  | Call_SharedRelease slot _ _ => null_or_initialized slot (shareds n)
  | Call_Meter shared slot output _ =>
      vacant output (memory n) && (null_or_live shared (shareds n) && empty_slot slot (meters n))
  | Call_Register meter input input_len _ output _ =>
      vacant output (memory n) && (readable input input_len && null_or_live meter (meters n))
  | Call_MeterFree slot => null_or_initialized slot (meters n)
  | Call_ResultFree result => (result =? 0) || bool_decide (is_Some (results (memory n) !! result))
  | Cleanup_Thread _ => true
  end.

(** Calls that break an obligation are not made. *)
Fixpoint process n (calls : list Call) : option (Native R) :=
  match calls with
  | [] => Some n
  | c :: calls => if allowed c n then '(_, n) ← call c n; process n calls else process n calls
  end.

(** *** Every call keeps the native side in order *)

Definition fine (outcome : option (N * Native R)) : Prop :=
  ∃ status n', outcome = Some (status, n') ∧ native_ok None n'.

Lemma null_or_live_inv {A} handle (t : Table A) :
  null_or_live handle t = true → handle = 0 ∨ is_Some (live t !! handle).
Proof. intros [?%N.eqb_eq|?%bool_decide_eq_true]%orb_true_iff; auto. Qed.

Lemma read_span_ok input input_len maximum too_long null :
  readable input input_len = true → is_Some (read_span input input_len maximum too_long null).
Proof.
  intros Hr. unfold read_span. destruct (_ <? _); [done|]. destruct (input_len =? 0); [done|].
  destruct input as [bytes|]; [|done]. cbn in Hr. unfold from_raw_parts.
  apply N.leb_le in Hr. rewrite (proj2 (N.ltb_ge _ _) Hr). done.
Qed.

#[local] Ltac read_input Hi :=
  match goal with |- context [read_span ?i ?l ?m ?e ?z] =>
    destruct (read_span_ok i l m e z Hi) as [? ->] end.

Lemma native_ok_clear_runtimes slot n :
  native_ok None n → empty_slot slot (runtimes n) = true →
  native_ok None (set_runtimes (write_slot slot 0 (runtimes n)) n).
Proof.
  intros [? ? ? ? Hc] He. split; try done; cbn; [by apply table_ok_clear|].
  apply (cores_ok_same None None n); try done; [apply Hc|].
  intros core. unfold holders, write_slot. cbn. by destruct (slot =? 0).
Qed.

Lemma native_ok_clear_shareds slot n :
  native_ok None n → empty_slot slot (shareds n) = true →
  native_ok None (set_shareds (write_slot slot 0 (shareds n)) n).
Proof.
  intros [? ? ? ? Hc] He. split; try done; cbn; [by apply table_ok_clear|].
  apply (cores_ok_same None None n); try done; [apply Hc|].
  intros core. unfold holders, write_slot. cbn. by destruct (slot =? 0).
Qed.

Lemma native_ok_meters t n : native_ok None n → table_ok t → native_ok None (set_meters t n).
Proof.
  intros [? ? ? ? Hc] He. split; try done. by apply (cores_ok_same None None n); try apply Hc.
Qed.

Lemma native_ok_id slot id n : native_ok None n → native_ok None (set_id slot id n).
Proof.
  intros Hn. unfold set_id. destruct (slot =? 0); [done|]. destruct Hn as [? ? ? ? Hc]. split; try done.
  by apply (cores_ok_same None None n); try apply Hc.
Qed.

Lemma runtime_new_ok worker_threads slot output h graph choices n :
  native_ok None n → vacant output (memory n) = true → empty_slot slot (runtimes n) = true →
  fine (runtime_new_with_worker_threads display worker_threads slot output h graph choices n).
Proof.
  intros Hn Hv He. unfold runtime_new_with_worker_threads.
  pose proof (native_ok_clear_runtimes slot n Hn He) as Hn1. set (n1 := set_runtimes _ n) in *.
  destruct (output =? 0); [by eexists _, _|].
  destruct (slot =? 0) eqn:Hz; apply invoke_ok; try done; intros n2 Hn2 (Hr & _) _; [by apply runs_answer|].
  unfold runs. destruct (build_core _ _ _ _) as [metrics|]; [|by apply runs_answer].
  destruct (new_core_native metrics n2 Hn2) as (Hn3 & (Hr3 & _) & Hm3).
  destruct (new_core metrics n2) as [core n3]. cbn in Hn3, Hr3, Hm3.
  destruct (publish_runtime_ok core (h_cleanup_thread h) choices.1 slot graph n3) as (ran & n4 & -> & Hn4 & Hm4).
  - done.
  - rewrite Hr3, Hr. by apply empty_slot_clear.
  - exists ran, n4. split_and!; congruence.
Qed.

Lemma shared_new_ok worker_threads input input_len slot output h choices n :
  native_ok None n → vacant output (memory n) = true → readable input input_len = true →
  empty_slot slot (shareds n) = true →
  fine (shared_runtime_new_with_telemetry_json display worker_threads input input_len slot output h choices n).
Proof.
  intros Hn Hv Hi He. unfold shared_runtime_new_with_telemetry_json.
  pose proof (native_ok_clear_shareds slot n Hn He) as Hn1. set (n1 := set_shareds _ n) in *.
  destruct (output =? 0); [by eexists _, _|].
  apply invoke_ok; try done; intros n2 Hn2 (_ & Hs & _) _.
  unfold runs. destruct (slot =? 0); [by apply runs_answer|]. unfold telemetry_document.
  read_input Hi.
  cbn -[new_core].
  match goal with |- context [match ?built with Ok _ => _ | Err error => answer (Err error) n2 end] =>
    destruct built as [metrics|]; [|by apply runs_answer] end.
  destruct (new_core_native metrics n2 Hn2) as (Hn3 & (_ & Hs3 & _) & Hm3).
  destruct (new_core metrics n2) as [core n3]. cbn in Hn3, Hs3, Hm3.
  destruct (h_cleanup_thread h).
  - eexists _, _; split_and!; [done| |done]. apply publish_shared_ok; [done|].
    rewrite Hs3, Hs. by apply empty_slot_clear.
  - destruct (drop_core_native _ _ Hn3) as (n4 & -> & Hn4 & Hm4). eexists _, _; split_and!; [done..|].
    congruence.
Qed.

Lemma attach_ok shared slot output thread graph choices n :
  native_ok None n → vacant output (memory n) = true → null_or_live shared (shareds n) = true →
  empty_slot slot (runtimes n) = true →
  fine (runtime_new_attached shared slot output thread graph choices n).
Proof.
  intros Hn Hv Hl He. unfold runtime_new_attached.
  pose proof (native_ok_clear_runtimes slot n Hn He) as Hn1. set (n1 := set_runtimes _ n) in *.
  destruct (output =? 0); [by eexists _, _|].
  apply invoke_ok; try done; intros n2 Hn2 (Hr & Hs & _) _. unfold runs.
  destruct (slot =? 0) eqn:Hz; [by apply runs_answer|].
  destruct (N.eqb_spec shared 0) as [|Hnz]; [by apply runs_answer|].
  apply null_or_live_inv in Hl as [|[core Hcore]]; [done|].
  rewrite Hs. cbn. rewrite Hcore. cbn.
  destruct (clone_core_ok core n2) as (n3 & -> & Hc3 & Heq); [apply Hn2| |].
  { unfold holders. pose proof (count_positive id core shared core (live (shareds n2))) as Hpos.
    rewrite Hs in Hpos. cbn in Hpos. specialize (Hpos Hcore eq_refl). rewrite Hs. cbn. lia. }
  cbn. destruct (publish_runtime_ok core thread choices.1 slot graph n3) as (ran & n4 & -> & Hn4 & Hm4).
  - rewrite Heq in *. by destruct Hn2; split.
  - rewrite Heq. cbn. rewrite Hr. by apply empty_slot_clear.
  - exists ran, n4. split_and!; [done..|]. by rewrite Hm4, Heq.
Qed.

Lemma taken_runtime_ok slot n :
  native_ok None n → null_or_initialized slot (runtimes n) = true → slot ≠ 0 →
  ∃ owned t, take_slot slot (runtimes n) = Some (owned, t)
    ∧ native_ok (fst <$> owned) (set_runtimes t n).
Proof.
  intros [? Ht ? ? Hc] [?%N.eqb_eq|Hs%bool_decide_eq_true]%orb_true_iff Hnz; [done|].
  destruct (take_slot_ok slot (runtimes n) Ht Hs) as (owned & t & -> & Ht' & Hl).
  exists owned, t. split; [done|]. split; try done.
  apply (cores_ok_same None (fst <$> owned) n); try done; [apply Hc|]. intros core. unfold holders. cbn.
  destruct owned as [a|]; [|by rewrite Hl]. destruct Hl as (h & Ha & ->).
  rewrite (count_delete fst core h a (live (runtimes n)) Ha). cbn. lia.
Qed.

Lemma taken_shared_ok slot n :
  native_ok None n → null_or_initialized slot (shareds n) = true → slot ≠ 0 →
  ∃ owned t, take_slot slot (shareds n) = Some (owned, t) ∧ native_ok owned (set_shareds t n).
Proof.
  intros [? ? Ht ? Hc] [?%N.eqb_eq|Hs%bool_decide_eq_true]%orb_true_iff Hnz; [done|].
  destruct (take_slot_ok slot (shareds n) Ht Hs) as (owned & t & -> & Ht' & Hl).
  exists owned, t. split; [done|]. split; try done.
  apply (cores_ok_same None owned n); try done; [apply Hc|]. intros core. unfold holders. cbn.
  destruct owned as [a|]; [|by rewrite Hl]. destruct Hl as (h & Ha & ->).
  rewrite (count_delete id core h a (live (shareds n)) Ha). cbn. lia.
Qed.

Lemma release_runtime_ok slot wait rl n :
  native_ok None n → null_or_initialized slot (runtimes n) = true → fine (release_runtime_slot slot wait rl n).
Proof.
  intros Hn Hi. unfold release_runtime_slot. destruct (N.eqb_spec slot 0) as [|Hnz]; [by eexists _, _|].
  destruct (taken_runtime_ok slot n Hn Hi Hnz) as (owned & t & -> & Hn'). cbn.
  destruct owned as [[core graph]|]; [|by eexists _, _]. cbn in Hn'.
  destruct (rl_close rl); [by apply hand_over_ok|].
  destruct (drop_core_native _ _ Hn') as (n' & -> & ? & _). by eexists _, _.
Qed.

Lemma release_shared_ok slot wait rl n :
  native_ok None n → null_or_initialized slot (shareds n) = true →
  fine (release_shared_runtime_slot slot wait rl n).
Proof.
  intros Hn Hi. unfold release_shared_runtime_slot. destruct (N.eqb_spec slot 0) as [|Hnz]; [by eexists _, _|].
  destruct (taken_shared_ok slot n Hn Hi Hnz) as (owned & t & -> & Hn'). cbn.
  destruct owned as [core|]; [by apply hand_over_ok|by eexists _, _].
Qed.

Lemma meter_ok shared slot output choices n :
  native_ok None n → vacant output (memory n) = true → null_or_live shared (shareds n) = true →
  empty_slot slot (meters n) = true → fine (shared_runtime_metric_meter shared slot output choices n).
Proof.
  intros Hn Hv Hl He. unfold shared_runtime_metric_meter.
  assert (native_ok None (set_meters (write_slot slot 0 (meters n)) n)) as Hn1.
  { apply native_ok_meters; [done|]. apply table_ok_clear; [apply Hn|done]. }
  set (n1 := set_meters _ n) in *. destruct (output =? 0); [by eexists _, _|].
  apply invoke_ok; try done; intros n2 Hn2 (_ & Hs & Hm) _. unfold runs.
  destruct (slot =? 0); [by apply runs_answer|].
  destruct (N.eqb_spec shared 0) as [|Hnz]; [by apply runs_answer|].
  apply null_or_live_inv in Hl as [|[core Hcore]]; [done|].
  change (shareds n1) with (shareds n) in Hs. rewrite Hs, Hcore. cbn.
  destruct (cores_ok_alive None core n2) as [c ->]; [apply Hn2| |].
  { unfold holders. pose proof (count_positive id core shared core (live (shareds n)) Hcore eq_refl).
    rewrite Hs. lia. }
  cbn. eexists _, _; split_and!; [done| |by destruct (sc_metrics c)].
  destruct (sc_metrics c); [|done]. apply native_ok_meters; [done|].
  rewrite Hm. apply table_ok_publish; [apply Hn1|]. by apply empty_slot_clear.
Qed.

Lemma register_call_fine meter input input_len id output choice n :
  native_ok None n → vacant output (memory n) = true → readable input input_len = true →
  null_or_live meter (meters n) = true →
  fine (metric_meter_register_json meter input input_len id output choice n).
Proof.
  intros Hn Hv Hi Hl. unfold metric_meter_register_json. pose proof (native_ok_id id U32_MAX n Hn) as Hn1.
  assert (memory (set_id id U32_MAX n) = memory n ∧ meters (set_id id U32_MAX n) = meters n) as [Hm1 Hme1].
  { unfold set_id. by destruct (id =? 0). }
  destruct (output =? 0); [by eexists _, _|]. apply invoke_ok; [done|by rewrite Hm1|].
  intros n2 Hn2 (_ & _ & Hm) _. unfold runs.
  destruct (id =? 0); [by apply runs_answer|].
  destruct (N.eqb_spec meter 0) as [|Hnz]; [by apply runs_answer|].
  apply null_or_live_inv in Hl as [|[[names r] Hr]]; [done|].
  rewrite Hm, Hme1, Hr. cbn. unfold input_span. read_input Hi. cbn.
  destruct (configuration_span _) as [bytes|]; [|by apply runs_answer].
  destruct (register_bytes names bytes r) as [registered r'].
  assert (native_ok None (set_meters (mkTable (slots (meters n))
    (<[meter := (names, r')]> (live (meters n)))) n2)) as Hn3.
  { apply native_ok_meters; [done|]. eapply table_ok_update; [apply Hn|done]. }
  destruct registered as [registered|]; [|by eexists _, _].
  eexists _, _; split_and!; [done|by apply native_ok_id|]. unfold set_id. by destruct (id =? 0).
Qed.

Lemma document_ok runtime input input_len output choice operation n :
  native_ok None n → vacant output (memory n) = true → readable input input_len = true →
  null_or_live runtime (runtimes n) = true →
  fine (invoke_runtime_document output choice runtime input input_len (λ graph input, Some (operation graph input)) n).
Proof.
  intros Hn Hv Hi Hl%null_or_live_inv. apply invoke_ok; try done. intros n' Hn' (Hr & _) _.
  unfold runs, input_span. read_input Hi. cbn. destruct x as [bytes|]; [|by apply runs_answer].
  apply with_runtime_ok; [done|]. by rewrite Hr.
Qed.

Lemma config_ok {T} `{JsonText T} runtime input input_len output choice (operation : R → T → Ran Operation * R) n :
  native_ok None n → vacant output (memory n) = true → readable input input_len = true →
  null_or_live runtime (runtimes n) = true →
  fine (invoke_runtime_config output choice runtime input input_len (λ graph config, Some (operation graph config)) n).
Proof.
  intros Hn Hv Hi Hl%null_or_live_inv. apply invoke_ok; try done. intros n' Hn' (Hr & _) _. unfold runs.
  destruct (N.eqb_spec runtime 0) as [|Hnz]; [by apply runs_answer|]. destruct Hl as [|Hl]; [done|].
  rewrite Hr. destruct Hl as [a Hl]. rewrite Hl. cbn. unfold decode_config. read_input Hi. cbn.
  match goal with |- context [match ?c with Ok _ => _ | Err error => answer (Err error) n' end] =>
    destruct c as [config|]; [|by apply runs_answer] end.
  apply with_runtime_ok; [done|]. right. rewrite Hr, Hl. done.
Qed.

Lemma echo_ok input input_len output choice n :
  native_ok None n → vacant output (memory n) = true → readable input input_len = true →
  fine (echo input input_len output choice n).
Proof.
  intros Hn Hv Hi. apply invoke_ok; try done. intros n' Hn' _ _. unfold runs.
  destruct (input_len =? 0); [by apply runs_answer|]. destruct input as [bytes|]; [|by apply runs_answer].
  unfold from_raw_parts. cbn in Hi. apply N.leb_le in Hi. rewrite (proj2 (N.ltb_ge _ _) Hi). cbn.
  by apply runs_answer.
Qed.

Lemma call_ok c n : native_ok None n → allowed c n = true → fine (call c n).
Proof.
  intros Hn Ha. destruct c; cbn in Ha |- *;
    repeat match goal with H : _ && _ = true |- _ => apply andb_true_iff in H as [? ?] end.
  1,3: by apply invoke_ok; [done..|]; intros; apply runs_answer.
  - by apply echo_ok.
  - apply invoke_ok; [done..|]. intros n' Hn' _ _. by eexists _, _.
  - apply invoke_ok; [done..|]. intros n' Hn' (Hr & _) _. apply with_runtime_ok; [done|].
    rewrite Hr. by apply null_or_live_inv.
  - by apply document_ok.
  - by apply config_ok.
  - by apply runtime_new_ok.
  - by apply shared_new_ok.
  - by apply attach_ok.
  - by apply release_runtime_ok.
  - by apply release_shared_ok.
  - by apply meter_ok.
  - by apply register_call_fine.
  - unfold metric_meter_free. destruct (N.eqb_spec slot 0) as [|Hnz]; [by eexists _, _|].
    apply orb_true_iff in Ha as [?%N.eqb_eq|Hs%bool_decide_eq_true]; [done|].
    destruct (take_slot_ok slot (meters n)) as (owned & t & -> & Ht & _); [apply Hn|done|]. cbn.
    eexists _, _; split; [done|]. by apply native_ok_meters.
  - destruct (result_free_ok result (memory n)) as (status & m & -> & Hm); [apply Hn| |].
    { apply orb_true_iff in Ha as [?%N.eqb_eq|?%bool_decide_eq_true]; auto. }
    cbn. eexists _, _; split; [done|]. by apply native_ok_memory.
  - destruct (run_cleanup_ok message n Hn) as (n' & -> & Hn'). by eexists _, _.
Qed.

(** A process in which nothing was called yet. *)
Definition Native_new : Native R :=
  mkNative (mkMemory ∅ ∅) (mkTable ∅ ∅) (mkTable ∅ ∅) (mkTable ∅ ∅) ∅ ∅ ∅ [] 0 0.

Lemma Native_new_ok : native_ok None Native_new.
Proof.
  split; cbn.
  - split; cbn; try done. intros output output' f f' p (_ & r & Hr & _). done.
  - split; cbn; try done. by intros handle [? ?].
  - split; cbn; try done. by intros handle [? ?].
  - split; cbn; try done. by intros handle [? ?].
  - split; cbn; try done.
    + intros core. split; [by intros ?%not_elem_of_nil|]. intros [? _]. lia.
    + apply NoDup_nil_2.
Qed.

Lemma process_native_ok calls n :
  native_ok None n → ∃ n', process n calls = Some n' ∧ native_ok None n'.
Proof.
  revert n. induction calls as [|c calls IH]; intros n Hn; cbn; [eauto|].
  destruct (allowed c n) eqn:Ha; [|by apply IH].
  destruct (call_ok c n Hn Ha) as (status & n' & -> & Hn'). cbn. by apply IH.
Qed.

(** C37: Whatever callers and cleanup threads do, no call of the C interface is undefined,
    and results own their bytes: an allocation exists exactly as long as a field of a
    result points to it, no two fields point to the same one, a field is empty or has the
    exact length of its allocation, which is what the release gives back, and only one of
    the value and the error of a result has bytes. *)
Theorem results_owned_once calls :
  ∃ n, process Native_new calls = Some n
  ∧ (∀ p, is_Some (boxes (memory n) !! p) ↔ ∃ output f, owns (memory n) output f p)
  ∧ (∀ output output' f f' p,
      owns (memory n) output f p → owns (memory n) output' f' p → output = output' ∧ f = f')
  ∧ (∀ output r, results (memory n) !! output = Some r →
      (∀ f, buffer_ok (memory n) (result_field f r)) ∧ (r_value r = Buffer_default ∨ r_error r = Buffer_default)).
Proof.
  destruct (process_native_ok calls Native_new Native_new_ok) as (n & Hrun & [Hm _ _ _ _]).
  exists n. split_and!; [done|..].
  - intros p. split; [intros [bytes Hb]; by eapply mo_owned|].
    intros (output & f & Hp & r & Hr & <-). destruct (mo_buffer _ Hm _ _ f Hr) as [He|(_ & y & -> & _)]; [|done].
    by rewrite He in Hp.
  - apply Hm.
  - intros output r Hr. split; [intros f; by eapply mo_buffer|by eapply mo_shape].
Qed.

(** C36: Core is destroyed exactly once and by its last holder: a Core that was created is
    destroyed if and only if no runtime, no shared runtime and no message to a cleanup
    thread refers to it, it is never destroyed twice, its reference count is the number
    of its holders, and every live runtime is held by exactly one slot, so that releasing
    the slots is enough to destroy it. *)
Theorem core_destroyed_once calls :
  ∃ n, process Native_new calls = Some n
  ∧ NoDup (destroyed n)
  ∧ (∀ core, core ∈ destroyed n ↔ core < next_core n ∧ holders core n = 0)
  ∧ (∀ core c, cores n !! core = Some c → sc_strong c = holders core n ∧ core ∉ destroyed n)
  ∧ (∀ handle, is_Some (live (runtimes n) !! handle) ↔
      handle ≠ 0 ∧ ∃ slot, slots (runtimes n) !! slot = Some handle
        ∧ ∀ slot', slots (runtimes n) !! slot' = Some handle → slot' = slot).
Proof.
  destruct (process_native_ok calls Native_new Native_new_ok) as (n & Hrun & [_ Ht _ _ Hc]).
  exists n. split_and!; [done|apply Hc|..].
  - intros core. rewrite (co_destroyed _ _ Hc). split; intros [Hlt Hx]; (split; [done|]).
    + pose proof (co_gone _ _ Hc _ Hx). cbn in *. lia.
    + destruct (cores n !! core) as [c|] eqn:Hcc; [|done].
      pose proof (co_strong _ _ Hc _ _ Hcc). pose proof (co_held _ _ Hc _ _ Hcc). cbn in *. lia.
  - intros core c Hcc. pose proof (co_strong _ _ Hc _ _ Hcc). cbn in *. split; [lia|].
    rewrite (co_destroyed _ _ Hc). intros [_ ?]. congruence.
  - intros handle. split.
    + intros Hl. assert (handle ≠ 0) as Hnz.
      { intros ->. rewrite (to_null _ Ht) in Hl. by destruct Hl. }
      split; [done|]. destruct (to_owned _ Ht _ Hl) as [slot Hs]. exists slot. split; [done|].
      intros slot' Hs'. by eapply to_unique.
    + intros (Hnz & slot & Hs & _). by eapply to_slot.
Qed.
End Process.
End Cores.

(** ** What a caller receives *)

Definition read_buffer (b : Buffer) (m : Memory) : list byte :=
  if b_ptr b =? 0 then [] else default [] (boxes m !! b_ptr b).

(** The status, the value and the error that an outcome is delivered as. *)
Definition delivered (ran : Ran Operation) : N * list byte * list byte :=
  match ran with
  | Returned (Ok value) => (STATUS_OK, value, [])
  | Returned (Err error) => (ClientCalls.f_status error, [], into_bytes (ClientCalls.f_message error))
  | Unwound => (STATUS_PANIC, [], into_bytes "Rust panic contained at the native ABI boundary")
  end.

Lemma from_vec_read choice bytes m b m' output r :
  from_vec choice bytes m = (b, m') →
  read_buffer b (write_result output r m') = bytes ∧ results m' = results m
  ∧ ∀ p data, boxes m !! p = Some data → boxes m' !! p = Some data.
Proof.
  unfold from_vec. destruct bytes as [|x bytes]; intros [= <- <-]; [by split_and!|].
  set (bytes' := x :: bytes). unfold read_buffer. cbn.
  rewrite (proj2 (N.eqb_neq _ _) (place_nonzero choice (boxes m))), lookup_insert_eq.
  split_and!; [done..|]. intros p data Hp. apply lookup_insert_Some. right. split; [|done].
  intros <-. by rewrite place_free in Hp.
Qed.

Lemma result_of_closure_read choice ran m r m' output :
  result_of_closure choice ran m = (r, m') →
  (r_status r, read_buffer (r_value r) (write_result output r m'),
   read_buffer (r_error r) (write_result output r m')) = delivered ran
  ∧ results m' = results m
  ∧ ∀ p data, boxes m !! p = Some data → boxes m' !! p = Some data.
Proof.
  unfold result_of_closure, success, failure.
  destruct ran as [[value|error]|]; destruct (from_vec _ _ _) as [b m1] eqn:Hb; intros [= <- <-];
    (eapply from_vec_read in Hb as (Hread & Hres & Hkeep); split_and!; [|done..]; cbn; by rewrite Hread).
Qed.

(** C38: A document symbol delivers exactly what the operation did.  With a readable
    document, a live runtime and an operation that returns or panics, the result that the
    caller passed holds the status and the bytes of the outcome, the value on success and
    the message otherwise, and the graph behind the handle is what the operation left; no
    other result, allocation, handle, runtime, message or Core changes. *)
Theorem document_call_delivers {R} output choice runtime input input_len
    (operation : R → list byte → option (Ran Operation * R)) (n : Native R) bytes core graph ran graph' :
  output ≠ 0 → runtime ≠ 0 → input_span input input_len MAX_DOCUMENT_BYTES = Some (Ok bytes) →
  live (runtimes n) !! runtime = Some (core, graph) → operation graph bytes = Some (ran, graph') →
  ∃ n' r, invoke_runtime_document output choice runtime input input_len operation n = Some (r_status r, n')
  ∧ (r_status r, read_buffer (r_value r) (memory n'), read_buffer (r_error r) (memory n')) = delivered ran
  ∧ results (memory n') = <[output := r]> (results (memory n))
  ∧ (∀ p data, boxes (memory n) !! p = Some data → boxes (memory n') !! p = Some data)
  ∧ runtimes n' = mkTable (slots (runtimes n)) (<[runtime := (core, graph')]> (live (runtimes n)))
  ∧ shareds n' = shareds n ∧ meters n' = meters n ∧ cores n' = cores n
  ∧ cleanups n' = cleanups n ∧ destroyed n' = destroyed n.
Proof.
  intros Ho Hr Hspan Hlive Hop. unfold invoke_runtime_document, invoke.
  rewrite (proj2 (N.eqb_neq _ _) Ho), Hspan. cbn. unfold with_runtime.
  rewrite (proj2 (N.eqb_neq _ _) Hr). cbn. rewrite Hlive. cbn. rewrite Hop. cbn.
  destruct (result_of_closure _ _ _) as [r m'] eqn:Hc.
  apply (result_of_closure_read _ _ _ _ _ output) in Hc as (Hread & Hres & Hkeep).
  eexists _, r. split_and!; [done|done|..]; try done.
  cbn in *. rewrite Hres. apply insert_insert_eq.
Qed.

Lemma document_call_delivers_witness :
  let n := mkNative (mkMemory ∅ ∅) (mkTable {[1 := 8]} {[8 := (0, 5)]}) (mkTable ∅ ∅) (mkTable ∅ ∅) ∅
             {[0 := mkSharedCore 1 None]} ∅ [] 1 0 in
  ∃ n' r, invoke_runtime_document 1 7 8 (Some [x01; x02]) 2 (λ g bytes, Some (Returned (Ok bytes), g + 1)) n
            = Some (r_status r, n')
    ∧ (r_status r, read_buffer (r_value r) (memory n'), read_buffer (r_error r) (memory n'))
      = (STATUS_OK, [x01; x02], [])
    ∧ live (runtimes n') = {[8 := (0, 6)]}.
Proof.
  intros n.
  destruct (document_call_delivers 1 7 8 (Some [x01; x02]) 2 (λ g bytes, Some (Returned (Ok bytes), g + 1)) n
    [x01; x02] 0 5 (Returned (Ok [x01; x02])) 6) as (n' & r & Hn & Hd & _ & _ & Ht & _);
    [done|done|by vm_compute|done|done|].
  exists n', r. split; [exact Hn|]. split; [exact Hd|]. rewrite Ht. by vm_compute.
Defined.

(** A shared runtime with an attached graph, both released: Core goes with the later of
    the two, when the cleanup thread of the shared runtime has taken its message. *)
Example shared_core_lifecycle :
  let h := mkHost Env_NotPresent None (Ok ()) true true (Ok "") (Ok ()) in
  let done_ := mkRelease (Returned ()) true (Returned ()) in
  let json := {| from_str := λ _, Some no_telemetry; to_string := λ _, None |} : JsonText TelemetryConfig in
  let meter := {| from_str := λ _, None; to_string := λ _, None |} : JsonText InstrumentSpec in
  (λ n, (destroyed n, holders 0 n)) <$>
    process (λ _, "") Native_new
      [Call_SharedNew 0 None 0 1 1 h (7, 7); Call_Attach 7 1 2 (Ok ()) () (9, 9);
       Call_SharedRelease 1 false done_; Call_RuntimeRelease 1 true done_]
  = Some ([], 1)
  ∧ (λ n, (destroyed n, holders 0 n)) <$>
    process (λ _, "") Native_new
      [Call_SharedNew 0 None 0 1 1 h (7, 7); Call_Attach 7 1 2 (Ok ()) () (9, 9);
       Call_SharedRelease 1 false done_; Call_RuntimeRelease 1 true done_; Cleanup_Thread 0]
  = Some ([0], 0).
Proof. vm_compute. done. Qed.
