(* ===== verification/RuntimeGraph.v ===== *)
(** * A runtime graph as a whole

    [Runtime] of src/rust/core-bridge/src/abi.rs is one structure; RuntimeCalls.v models the
    fields of its client and Handoffs.v those of its workers.  Here the two are put
    together: the fields that both read (the client, Core, the live worker, the namespace
    and the heartbeat intervals) are kept equal, and the operations that block the owner
    until the server answers are added.  Every execution of the whole is an execution of
    each side, so what was proved of the sides holds of the whole. *)

From S2P Require Import Prelude.
From S2P Require Import Text.
From S2P Require Import TaskLedger.
From S2P Require Import Readiness.
From S2P Require Import PollLanes.
From S2P Require Import Replay.
From S2P Require Import ReplayWorker.
From S2P Require Import Protocol.
From S2P Require Import ProtocolCodec.
From S2P Require Import WorkflowTypes.
From S2P Require Import CoreMessages.
From S2P Require Import WorkflowChecks.
From S2P Require Import Documents.
From S2P Require Import CoreConversion.
From S2P Require Import ActivationConversion.
From S2P Require Import CompletionConversion.
From S2P Require Import ActivityProtocol.
From S2P Require Import ActivityDocuments.
From S2P Require Import ClientTypes.
From S2P Require Import ClientChecks.
From S2P Require Import ClientStatus.
From S2P Require Import ClientMessages.
From S2P Require Import ClientOperations.
From S2P Require Import ClientLoops.
From S2P Require Import ClientDocuments.
From S2P Require Import HeartbeatThrottle.
From S2P Require Import ClientCalls.
From S2P Require Import WorkerConfig.
From S2P Require Import Failures.
From S2P Require Import AsyncActivity.
From S2P Require Import ClientRpc.
From S2P Require Import RuntimeCalls.
From S2P Require Import RuntimeSafety.
From S2P Require Import Handoffs.
From S2P Require Import HandoffSafety.
From S2P Require Import Abi.
Local Open Scope N_scope.
Local Open Scope bridge_scope.

(** ** State *)

Record Runtime := mkRuntime { rt_graph : Graph; rt_workers : Workers }.

(** The intervals of a worker are configured in milliseconds. *)
Definition throttle_intervals (i : N * N) : HeartbeatIntervals :=
  mkHeartbeatIntervals (Z.of_N i.1 * 1000000) (Z.of_N i.2 * 1000000).

(** The client's side sees the worker, the workers' side the client. *)
Definition see_worker (w : Workers) (g : Graph) : Graph :=
  set_worker (bool_decide (is_Some (wk_live w))) (wk_namespace w) (throttle_intervals (wk_intervals w)) g.

Definition with_graph (g : Graph) (r : Runtime) : Runtime :=
  mkRuntime g (set_connected (connected g) (rt_workers r)).

Definition with_workers (w : Workers) (r : Runtime) : Runtime :=
  mkRuntime (see_worker w (rt_graph r)) w.

Definition Runtime_start (owner : N) (w : World) : Runtime :=
  mkRuntime (Runtime_new owner (throttle_intervals (wk_intervals Workers_new)) w) Workers_new.

(** Operations of either side on the whole.  A panic of the workers' side leaves the
    runtime to its owner; [None] is an operation that has not returned. *)
Definition on_client (operation : Graph → option (Ran Operation * Graph)) (r : Runtime) :
    option (Ran Operation * Runtime) :=
  '(ran, g) ← operation (rt_graph r); Some (ran, with_graph g r).

Definition on_workers (operation : Workers → option (Operation * Workers)) (r : Runtime) :
    option (Ran Operation * Runtime) :=
  Some (match operation (rt_workers r) with
        | Some (o, w) => (Returned o, with_workers w r)
        | None => (Unwound, r)
        end).

(** An operation that changes nothing. *)
Definition on_view (operation : Workers → Operation) (r : Runtime) : option (Ran Operation * Runtime) :=
  Some (Returned (operation (rt_workers r)), r).

(** ** Teardown *)

(** What the cleanup thread does with a graph that was handed to it. *)
Inductive Teardown :=
| T_Join (task : TaskName)
| T_InitiateShutdown
| T_ForceComplete
| T_Drain
| T_Finalize
| T_DropWorker
| T_DisposeReplay
| T_DropReplay
| T_DropClient
| T_DropCore.

(** The attempts to dispose of a replay worker; a worker left over is dropped. *)
Fixpoint dispose_attempts (attempts : nat) (disposals : list (result () ReplayWorkerError)) : list Teardown :=
  match attempts with
  | O => [T_DropReplay]
  | S attempts =>
      T_DisposeReplay ::
      match disposals with
      | Err _ :: disposals => dispose_attempts attempts disposals
      | _ => []
      end
  end.

(** [drop_runtime_graph]; [finalized] and [disposals] are what the worker and the replay
    worker answer.  The single steps are those of PollLanes.v and ReplayWorker.v. *)
Definition drop_runtime_graph (tasks : list TaskName) (client worker replay : bool)
    (finalized : BoundedFinalize) (disposals : list (result () ReplayWorkerError)) : list Teardown :=
  (T_Join <$> tasks)
  ++ (if worker
      then [T_InitiateShutdown; T_ForceComplete; T_Drain; T_ForceComplete; T_Finalize]
           ++ match finalized with Refused _ => [T_DropWorker] | _ => [] end
      else [])
  ++ (if replay then dispose_attempts 2 disposals else [])
  ++ (if client then [T_DropClient] else [])
  ++ [T_DropCore].

Definition is_join (t : Teardown) : bool := match t with T_Join _ => true | _ => false end.
Definition is_drop_core (t : Teardown) : bool := match t with T_DropCore => true | _ => false end.
Definition is_dispose (t : Teardown) : bool := match t with T_DisposeReplay => true | _ => false end.

Lemma dispose_attempts_actions attempts disposals :
  (length (List.filter is_dispose (dispose_attempts attempts disposals)) ≤ attempts)%nat
  ∧ Forall (λ t, is_join t = false ∧ is_drop_core t = false) (dispose_attempts attempts disposals).
Proof.
  revert disposals. induction attempts as [|k IH]; intros disposals; cbn.
  { split; [lia|]. by repeat constructor. }
  destruct disposals as [|[|] disposals]; cbn; try (split; [lia|by repeat constructor]).
  destruct (IH disposals) as [Hl Hf]. split; [lia|]. by constructor.
Qed.

(** Every task is joined before anything else, the reference to Core is dropped last and
    once, and a replay worker is disposed of at most twice. *)
Lemma teardown_order tasks client worker replay finalized disposals :
  ∃ rest, drop_runtime_graph tasks client worker replay finalized disposals
    = (T_Join <$> tasks) ++ rest ++ [T_DropCore]
  ∧ Forall (λ t, is_join t = false ∧ is_drop_core t = false) rest
  ∧ (length (List.filter is_dispose rest) ≤ 2)%nat.
Proof.
  unfold drop_runtime_graph. destruct (dispose_attempts_actions 2 disposals) as [Hl Hf].
  set (w := if worker then _ else []). set (d := if replay then dispose_attempts 2 disposals else []).
  set (c := if client then [T_DropClient] else []).
  exists (w ++ d ++ c). split_and!.
  - by rewrite <- !app_assoc.
  - rewrite !Forall_app. split_and!.
    + unfold w. destruct worker; [destruct finalized|]; by repeat constructor.
    + unfold d. by destruct replay.
    + unfold c. destruct client; by repeat constructor.
  - rewrite !List.filter_app, !length_app.
    assert (List.filter is_dispose w = []) as -> by (unfold w; by destruct worker, finalized).
    assert (List.filter is_dispose c = []) as -> by (unfold c; by destruct client).
    unfold d. destruct replay; cbn in *; lia.
Qed.

(** ** Blocking operations *)

Section Blocking.
Context `{SerdeJson} `{Base64} `{CoreEnums, ClientEnums, StatusDetails}.
Context `{JsonText StartWorkflowRequest, JsonText WaitWorkflowRequest}.
Context `{JsonText CancelWorkflowRequest, JsonText TerminateWorkflowRequest}.
Context `{JsonText ResetWorkflowRequest, JsonText SignalWorkflowRequest}.
Context `{JsonText QueryWorkflowRequest, JsonText UpdateWorkflowRequest}.
Context `{JsonText PollWorkflowUpdateRequest, JsonText VisibilityRequest, JsonText HistoryRequest}.
Context `{JsonText StartWorkflowResponse, JsonText CancelWorkflowResponse}.
Context `{JsonText TerminateWorkflowResponse, JsonText ResetWorkflowResponse}.
Context `{JsonText SignalWorkflowResponse, JsonText QueryWorkflowResponse}.
Context `{JsonText UpdateWorkflowResponse, JsonText PollWorkflowUpdateResponse}.
Context `{JsonText VisibilityPage, JsonText WaitWorkflowResponse}.
Context `{JsonText StartWorkflowOutcomeDocument, JsonText ClientErrorDocument}.
Context `{Serde ActivityCompletion, Serde ActivityHeartbeat, Serde AsyncActivityHeartbeat}.
Context {Event : Type} (encode_to_vec : list Event → list byte) (identity : string).

(** [handle.block_on] of the future of the request. *)
Definition client_rpc_blocking (kind : ClientCallKind) (service : Services Event) (input : list byte) (g : Graph) :
    option (Ran Operation * Graph) :=
  let checked :=
    let? text := decode_semantic_input input in
    let? rpc := ClientRpc_decode kind text in
    let? rpc := bind_async_activity rpc (async_activity_binding g) in
    let? _ := client_and_handle g in
    Ok rpc in
  match checked with
  | Err failure => Some (Returned (Err failure), g)
  | Ok rpc =>
      let '(future, t) := into_future encode_to_vec identity service rpc (throttle g) in
      let g := set_throttle t (generation g) (world g) g in
      match future with
      | Waiting => None
      | Panicked => Some (Unwound, g)
      | Finished outcome => Some (Returned outcome, g)
      end
  end.

(** The client bound to the namespace of the worker. *)
Definition async_activity_client (service : Services Event) (g : Graph) : result string Failure :=
  let? _ := if connected g then Ok () else Err client_not_connected in
  let? namespace := ok_or (worker_namespace g) missing_worker_namespace in
  if sv_client_created service then Ok namespace else Err client_not_created.

(** The driver that the eviction of a terminal request stops. *)
Definition stopped_driver (request : AsyncActivityRequest) (t : @ThrottleState Payloads) : list N :=
  match request with
  | Async_Heartbeat _ _ => []
  | _ => match (evict (task_token request) t).1 with
         | Some (_, Some driver) => [driver]
         | _ => []
         end
  end.

Definition async_activity_blocking (service : Services Event) (request : AsyncActivityRequest) (g : Graph) :
    Operation * Graph :=
  match (let? namespace := async_activity_client service g in
         let? _ := if core_open g then Ok () else Err runtime_closed in Ok namespace) with
  | Err failure => (Err failure, g)
  | Ok namespace =>
      let '((outcome, _), t) := send_evicting (sv_activity service) identity namespace request (throttle g) in
      (match outcome with Ok () => Ok [] | Err failure => Err failure end,
       set_tokens (tokens t) (stopped_driver request (throttle g)) g)
  end.

Definition complete_async_activity (service : Services Event) (input : list byte) (g : Graph) : Operation * Graph :=
  match (let? text := decode_semantic_input input in decode_async_completion text) with
  | Err failure => (Err failure, g)
  | Ok request => async_activity_blocking service request g
  end.

Definition record_async_activity_heartbeat (service : Services Event) (input : list byte) (g : Graph) :
    Operation * Graph :=
  match (let? text := decode_semantic_input input in decode_async_heartbeat_request text) with
  | Err failure => (Err failure, g)
  | Ok request => async_activity_blocking service request g
  end.
End Blocking.

(** ** Executions *)

(** The inputs of either side; those that only tell one side about the other, and those
    of the close, which takes the runtime away, do not occur. *)
Definition client_input (i : Input) : bool :=
  match i with I_Worker _ _ _ | I_Close _ | I_Cleanup => false | _ => true end.

Definition worker_input (i : WorkerInput) : bool :=
  match i with W_Client _ => false | _ => true end.

(** The kinds of calls that have a blocking symbol. *)
Definition blocking_kind (kind : ClientCallKind) : bool :=
  match kind with
  | Kind_Cancel | Kind_Terminate | Kind_Reset | Kind_Signal | Kind_Query | Kind_Update | Kind_PollUpdate
  | Kind_Visibility => true
  | _ => false
  end.

Inductive RuntimeStep (Event : Type) :=
| S_Client (i : Input)
| S_Blocking (kind : ClientCallKind) (service : Services Event) (input : list byte)
| S_CompleteAsync (service : Services Event) (input : list byte)
| S_HeartbeatAsync (service : Services Event) (input : list byte)
| S_Worker (i : WorkerInput).
Arguments S_Client {_} _.
Arguments S_Blocking {_} _ _ _.
Arguments S_CompleteAsync {_} _ _.
Arguments S_HeartbeatAsync {_} _ _.
Arguments S_Worker {_} _.

Section Whole.
Context `{SerdeJson} `{Base64} `{CoreEnums, ClientEnums, StatusDetails, !CompletionFail, !CompletionFailLaws}.
Context `{JsonText StartWorkflowRequest, JsonText WaitWorkflowRequest}.
Context `{JsonText CancelWorkflowRequest, JsonText TerminateWorkflowRequest}.
Context `{JsonText ResetWorkflowRequest, JsonText SignalWorkflowRequest}.
Context `{JsonText QueryWorkflowRequest, JsonText UpdateWorkflowRequest}.
Context `{JsonText PollWorkflowUpdateRequest, JsonText VisibilityRequest, JsonText HistoryRequest}.
Context `{JsonText StartWorkflowResponse, JsonText CancelWorkflowResponse}.
Context `{JsonText TerminateWorkflowResponse, JsonText ResetWorkflowResponse}.
Context `{JsonText SignalWorkflowResponse, JsonText QueryWorkflowResponse}.
Context `{JsonText UpdateWorkflowResponse, JsonText PollWorkflowUpdateResponse}.
Context `{JsonText VisibilityPage, JsonText WaitWorkflowResponse}.
Context `{JsonText StartTicketDocument, JsonText StartWorkflowOutcomeDocument, JsonText ClientErrorDocument}.
Context `{Serde Activation, Serde WorkflowTypes.Completion, Serde ActivityProtocol.ActivityTask}.
Context `{Serde ActivityCompletion, Serde ActivityHeartbeat, Serde AsyncActivityHeartbeat}.
Context {Event : Type} (encode_to_vec : list Event → list byte) (identity : string).
Context (parse_url : string → result (string * bool) string).
Context (is_only_eviction : Core.WorkflowActivation → bool).
Context (is_empty : Core.WorkflowActivationCompletion → bool).
Context (core_rejects : CoreWorkerConfig → option string).

Notation gstep := (graph_step parse_url).
Notation grun := (graph_run parse_url).
Notation wstep := (worker_step is_only_eviction is_empty core_rejects).
Notation wrun := (worker_run is_only_eviction is_empty core_rejects).

(** [None] is an operation that has not returned or, for a worker, a panic. *)
Definition runtime_step (r : Runtime) (s : RuntimeStep Event) : option Runtime :=
  match s with
  | S_Client i =>
      if client_input i then g ← gstep (rt_graph r) i; Some (with_graph g r) else Some r
  | S_Blocking kind service input =>
      if blocking_kind kind
      then snd <$> on_client (client_rpc_blocking encode_to_vec identity kind service input) r
      else Some r
  | S_CompleteAsync service input =>
      Some (with_graph (complete_async_activity identity service input (rt_graph r)).2 r)
  | S_HeartbeatAsync service input =>
      Some (with_graph (record_async_activity_heartbeat identity service input (rt_graph r)).2 r)
  | S_Worker i =>
      if worker_input i && fits_worker (rt_workers r) i
      then '(_, w) ← wstep (rt_workers r) i; Some (with_workers w r)
      else Some r
  end.

Fixpoint runtime_run (r : Runtime) (steps : list (RuntimeStep Event)) : option Runtime :=
  match steps with
  | [] => Some r
  | s :: steps => r ← runtime_step r s; runtime_run r steps
  end.

(** ** What the steps of one side leave alone *)

(** The client's side only reads the worker's fields, and keeps the client of a worker. *)
Definition graph_frame (g g' : Graph) : Prop :=
  core_open g' = core_open g ∧ worker_running g' = worker_running g
  ∧ worker_namespace g' = worker_namespace g ∧ intervals g' = intervals g
  ∧ (worker_running g = true → connected g = true → connected g' = true).

Lemma graph_frame_refl g : graph_frame g g.
Proof. by split_and!. Qed.

Lemma graph_frame_trans g1 g2 g3 : graph_frame g1 g2 → graph_frame g2 g3 → graph_frame g1 g3.
Proof.
  intros (A1 & B1 & C1 & D1 & E1) (A2 & B2 & C2 & D2 & E2). split_and!; [congruence..|].
  intros Hw Hc. apply E2; [congruence|auto].
Qed.

Lemma release_unregistered_frame g : graph_frame g (release_unregistered g).
Proof.
  unfold release_unregistered. generalize (unregistered_calls (call_owner g) (live_ids g) (registry (world g))).
  intros ids. revert g. induction ids as [|id ids IH]; intros g; cbn; [apply graph_frame_refl|].
  eapply graph_frame_trans; [|apply IH]. unfold mark_released. by destruct (pending g !! id).
Qed.

Lemma register_call_frame scope reserved g : graph_frame g (register_call scope reserved g).2.
Proof.
  unfold register_call. cbn zeta. destruct (MAX_CALL_ID <=? next_call (world g)); [done|].
  destruct (negb reserved); [done|]. destruct (spawn_task _) as [task w]. by destruct (Registry_attach _ _ _ _).
Qed.

Lemma admit_call_frame rpc between reserved g : graph_frame g (admit_call rpc between reserved g).2.
Proof.
  unfold admit_call. cbn zeta.
  assert (graph_frame g (release_unregistered (prune_finished g))) as Hf.
  { eapply graph_frame_trans; [|apply release_unregistered_frame]. by split_and!. }
  set (g1 := release_unregistered _) in *. destruct (call_scope rpc g1); [|done].
  eapply graph_frame_trans; [exact Hf|].
  set (g2 := if _ <=? _ then reap_released_calls g1 else g1).
  assert (graph_frame g1 g2) as Hreap by (unfold g2; by destruct (_ <=? _)).
  eapply graph_frame_trans; [exact Hreap|]. assert (graph_frame g2 (others between g2)) as Ho by done.
  set (g3 := others between g2) in *. clearbody g3.
  destruct ((_ <=? in_flight g3) || _); [done|]. destruct (negb reserved.1); [done|].
  eapply graph_frame_trans; [exact Ho|]. apply register_call_frame.
Qed.

Lemma disconnect_frame g : graph_frame g (disconnect_client g).2.
Proof.
  unfold disconnect_client. destruct (worker_running g) eqn:Hw; [by split_and!|].
  unfold abort_pending_starts, abort_pending_calls, abort_heartbeat_drivers. cbn zeta.
  repeat (match goal with |- context [let '(_, _) := ?p in _] => destruct p as [? ?] end; cbn [snd]).
  split_and!; cbn; try done. by rewrite Hw.
Qed.

Lemma graph_step_frame i g g' : client_input i = true → gstep g i = Some g' → graph_frame g g'.
Proof.
  intros Hi. destruct i; cbn in Hi |- *; try discriminate Hi; intros Hs.
  - injection Hs as <-. unfold connect_client. cbn zeta.
    by match goal with |- context [match ?c with Ok _ => _ | Err _ => _ end] => destruct c end.
  - injection Hs as <-. unfold submit_client_call. cbn zeta.
    match goal with |- context [match ?c with Ok _ => _ | Err _ => _ end] => destruct c end; [|done].
    apply admit_call_frame.
  - apply fmap_Some in Hs as ([o g1] & Hs & ->). cbn. revert Hs. unfold begin_start_workflow_json. cbn zeta.
    match goal with |- context [match ?c with Ok _ => _ | Err _ => _ end] => destruct c as [request|] end;
      [|by intros [= _ <-]].
    destruct (find_start _ _) as [[ticket other]|]; [by destruct (negb _); intros [= _ <-]|].
    destruct (_ <=? _); [by intros [= _ <-]|]. destruct reserved; [by intros [= _ <-]|].
    unfold issue_ticket. intros (ticket & _ & Hs)%bind_Some.
    destruct (encode_start_ticket ticket); [destruct (spawn_task _)|]; by injection Hs as _ <-.
  - injection Hs as <-. unfold read_start_workflow_json. cbn zeta.
    match goal with |- context [match ?c with Ok _ => _ | Err _ => _ end] => destruct c as [[ticket start]|] end;
      [|done].
    destruct (receive _ _); unfold finish_start; try by destruct (starts _ !! ticket). done.
  - injection Hs as <-. unfold wait_workflow_json. cbn zeta. repeat case_match; done.
  - injection Hs as <-. destruct (connected g) eqn:Hc; [|done]. unfold record_heartbeat. cbn zeta.
    by destruct (HeartbeatThrottle.record _ _ _ _ _).
  - by injection Hs as <-.
  - injection Hs as <-. apply disconnect_frame.
  - by injection Hs as <-.
Qed.

Lemma client_rpc_blocking_same kind service input g ran g' :
  blocking_kind kind = true → client_rpc_blocking encode_to_vec identity kind service input g = Some (ran, g') →
  g' = g.
Proof.
  intros Hk. unfold client_rpc_blocking. cbn zeta.
  destruct (decode_semantic_input input) as [text|]; [|by intros [= _ <-]].
  assert (∀ rpc, ClientRpc_decode kind text = Ok rpc →
    bind_async_activity rpc (async_activity_binding g) = Ok rpc
    ∧ (into_future encode_to_vec identity service rpc (throttle g)).2 = throttle g) as Hrpc.
  { intros rpc. destruct kind; try discriminate Hk; cbn; unfold decoded;
      (match goal with |- context [match ?d with Ok _ => _ | Err _ => _ end] => destruct d end);
      intros [= <-]; done. }
  destruct (ClientRpc_decode kind text) as [rpc|]; [|by intros [= _ <-]].
  destruct (Hrpc rpc eq_refl) as [-> Ht]. destruct (client_and_handle g); [|by intros [= _ <-]].
  destruct (into_future _ _ _ _ _) as [future t]. cbn in Ht. subst t.
  by destruct future; intros Heq; simplify_eq; destruct g.
Qed.

Lemma async_activity_blocking_tokens (service : Services Event) request g :
  let g' := (async_activity_blocking identity service request g).2 in
  g' = g ∨ ∃ states stopped, g' = set_tokens states stopped g.
Proof.
  unfold async_activity_blocking. cbn zeta.
  match goal with |- context [match ?c with Ok namespace => _ | Err failure => (Err failure, g) end] =>
    destruct c; [|by left] end.
  destruct (send_evicting _ _ _ _ _) as [[outcome sends] t]. right. cbn. eauto.
Qed.

(** The workers' side only reads Core and the client, and a worker starts with a client. *)
Definition workers_frame (w w' : Workers) : Prop :=
  wk_core w' = wk_core w ∧ wk_client w' = wk_client w
  ∧ (is_Some (wk_live w') → is_Some (wk_live w) ∨ wk_client w = true).

#[local] Ltac framed Hs :=
  unfold mbind, option_bind in Hs;
  repeat (case_match; simplify_eq/=); repeat (unfold emit_if in *; case_match);
  repeat match goal with H : ok_or ?o _ = Ok _ |- _ => destruct o eqn:?; [clear H|discriminate H] end;
  split_and!; cbn; eauto.

Lemma worker_step_frame i w o w' : worker_input i = true → wstep w i = Some (o, w') → workers_frame w w'.
Proof.
  intros Hi. destruct i; cbn in Hi |- *; try discriminate Hi; intros Hs.
  - unfold start_worker in Hs. cbn zeta in Hs. destruct (no_worker w) as [[]|]; [|by simplify_eq; split_and!; auto].
    cbn in Hs. destruct (wk_client w) eqn:Hc; [|simplify_eq; split_and!; auto].
    match type of Hs with Some (match ?c with _ => _ end) = _ => destruct c end;
      simplify_eq; split_and!; cbn; auto.
  - unfold start_replay_worker in Hs. cbn zeta in Hs.
    match type of Hs with Some (match ?c with _ => _ end) = _ => destruct c end;
      simplify_eq; split_and!; cbn; auto.
  - unfold try_poll_workflow, reject_unrepresentable_workflow_delivery, after_rejection,
      reject_workflow_delivery_with_reason in Hs. framed Hs.
  - unfold try_poll_replay_workflow, reject_replay_workflow_delivery in Hs. framed Hs.
  - unfold try_poll_activity, reject_unrepresentable_activity, Handoffs.reject_activity_delivery in Hs. framed Hs.
  - unfold Handoffs.complete_workflow in Hs. framed Hs.
  - unfold complete_replay_workflow in Hs. framed Hs.
  - unfold Handoffs.complete_activity in Hs. framed Hs.
  - unfold reject_polled_workflow, after_rejection, reject_workflow_delivery_with_reason in Hs. framed Hs.
  - unfold reject_replay_workflow, reject_replay_workflow_delivery in Hs. framed Hs.
  - unfold reject_polled_activity, Handoffs.reject_activity_delivery in Hs. framed Hs.
  - unfold Handoffs.record_activity_heartbeat in Hs. framed Hs.
  - unfold initiate_worker_shutdown in Hs. framed Hs.
  - unfold shutdown_worker in Hs. framed Hs.
  - unfold finalize_replay in Hs. framed Hs.
  - unfold dispose_replay in Hs. framed Hs.
  - injection Hs as _ <-. split_and!; cbn; auto. intros [l Hl]. destruct (wk_live w); cbn in *; eauto.
Qed.

(** ** The whole as an execution of each side *)

(** The fields that both sides have. *)
Record linked (r : Runtime) : Prop := {
  ln_core : core_open (rt_graph r) = wk_core (rt_workers r);
  ln_client : connected (rt_graph r) = wk_client (rt_workers r);
  ln_worker : worker_running (rt_graph r) = bool_decide (is_Some (wk_live (rt_workers r)));
  ln_namespace : worker_namespace (rt_graph r) = wk_namespace (rt_workers r);
  ln_intervals : intervals (rt_graph r) = throttle_intervals (wk_intervals (rt_workers r));
  ln_live : is_Some (wk_live (rt_workers r)) → connected (rt_graph r) = true
}.

Lemma linked_graph g' r : linked r → graph_frame (rt_graph r) g' → linked (with_graph g' r).
Proof.
  intros [Hc Hcl Hw Hn Hi Hl] (Fc & Fw & Fn & Fi & Fl). split; cbn; [congruence|done|congruence..|].
  intros Hlive. apply Fl; [|by apply Hl]. rewrite Hw. by apply bool_decide_eq_true.
Qed.

Lemma linked_workers w' r : linked r → workers_frame (rt_workers r) w' → linked (with_workers w' r).
Proof.
  intros [Hc Hcl Hw Hn Hi Hl] (Fc & Fcl & Fl). split; cbn; try done; [congruence..|].
  intros [?|?]%Fl; [by apply Hl|congruence].
Qed.

Lemma graph_run_snoc g inputs i g' g'' :
  grun g inputs = Some g' → gstep g' i = Some g'' → grun g (inputs ++ [i]) = Some g''.
Proof.
  revert g. induction inputs as [|j inputs IH]; intros g Hr Hs; cbn in *.
  - injection Hr as ->. by rewrite Hs.
  - apply bind_Some in Hr as (g1 & Hj & Hr). rewrite Hj. by apply IH.
Qed.

Lemma worker_run_snoc w inputs i w' o w'' :
  wrun w inputs = Some w' → fits_worker w' i = true → wstep w' i = Some (o, w'') →
  wrun w (inputs ++ [i]) = Some w''.
Proof.
  revert w. induction inputs as [|j inputs IH]; intros w Hr Hf Hs; cbn in *.
  - injection Hr as ->. by rewrite Hf, Hs.
  - destruct (fits_worker w j); [|by apply IH].
    apply bind_Some in Hr as ([o' w1] & Hj & Hr). rewrite Hj. by apply IH.
Qed.

(** From the start to [r] each side has run, in as many steps. *)
Definition projects (start : Runtime) (steps : nat) (r : Runtime) : Prop :=
  (∃ inputs, (length inputs ≤ steps)%nat ∧ grun (rt_graph start) inputs = Some (rt_graph r))
  ∧ (∃ inputs, (length inputs ≤ steps)%nat ∧ wrun (rt_workers start) inputs = Some (rt_workers r))
  ∧ linked r.

Lemma projects_weaken start k r : projects start k r → projects start (S k) r.
Proof. intros ((gs & ? & ?) & (ws & ? & ?) & ?). split_and!; [exists gs|exists ws|done]; (split; [lia|done]). Qed.

Lemma projects_client start k r i g' :
  projects start k r → gstep (rt_graph r) i = Some g' → graph_frame (rt_graph r) g' →
  projects start (S k) (with_graph g' r).
Proof.
  intros ((gs & Hi & Hg) & (ws & Hj & Hw) & Hl) Hs Hf. split_and!; [| |by apply linked_graph].
  - exists (gs ++ [i]). rewrite length_app. cbn. split; [lia|]. by eapply graph_run_snoc.
  - exists (ws ++ [W_Client (connected g')]). rewrite length_app. cbn. split; [lia|].
    by eapply worker_run_snoc.
Qed.

Lemma projects_worker start k r i o w' :
  projects start k r → worker_input i = true → fits_worker (rt_workers r) i = true →
  wstep (rt_workers r) i = Some (o, w') → projects start (S k) (with_workers w' r).
Proof.
  intros ((gs & Hi & Hg) & (ws & Hj & Hw) & Hl) Hwi Hf Hs. split_and!.
  - exists (gs ++ [I_Worker (bool_decide (is_Some (wk_live w'))) (wk_namespace w')
      (throttle_intervals (wk_intervals w'))]). rewrite length_app. cbn. split; [lia|].
    by eapply graph_run_snoc.
  - exists (ws ++ [i]). rewrite length_app. cbn. split; [lia|]. by eapply worker_run_snoc.
  - by eapply linked_workers, worker_step_frame.
Qed.

Lemma with_graph_same r : linked r → with_graph (rt_graph r) r = r.
Proof.
  intros Hl. destruct r as [g w]. unfold with_graph. cbn. f_equal.
  pose proof (ln_client _ Hl) as Hc. cbn in Hc. rewrite Hc. by destruct w.
Qed.

Lemma projects_tokens start k r g' :
  projects start k r → g' = rt_graph r ∨ (∃ states stopped, g' = set_tokens states stopped (rt_graph r)) →
  projects start (S k) (with_graph g' r).
Proof.
  intros Hp [->|(states & stopped & ->)].
  - rewrite with_graph_same by apply Hp. by apply projects_weaken.
  - by apply (projects_client start k r (I_Tokens states stopped)).
Qed.

Lemma runtime_step_projects start k r s r' :
  projects start k r → runtime_step r s = Some r' → projects start (S k) r'.
Proof.
  intros Hp. destruct s as [i|kind service input|service input|service input|i]; cbn.
  - destruct (client_input i) eqn:Hi; [|intros [= <-]; by apply projects_weaken].
    intros (g' & Hs & [= <-])%bind_Some. eapply projects_client; [done..|by eapply graph_step_frame].
  - destruct (blocking_kind kind) eqn:Hk; [|intros [= <-]; by apply projects_weaken].
    unfold on_client. intros ([ran r1] & ([ran' g'] & Hs & [= <- <-])%bind_Some & ->)%fmap_Some.
    apply client_rpc_blocking_same in Hs as ->; [|done]. apply projects_tokens; auto.
  - intros [= <-]. apply projects_tokens; [done|]. unfold complete_async_activity.
    destruct (decode_semantic_input input) as [text|]; [|by left].
    destruct (decode_async_completion text); [apply async_activity_blocking_tokens|by left].
  - intros [= <-]. apply projects_tokens; [done|]. unfold record_async_activity_heartbeat.
    destruct (decode_semantic_input input) as [text|]; [|by left].
    destruct (decode_async_heartbeat_request text); [apply async_activity_blocking_tokens|by left].
  - destruct (worker_input i && fits_worker (rt_workers r) i) eqn:Hi; [|intros [= <-]; by apply projects_weaken].
    apply andb_true_iff in Hi as [Hi Hf]. intros ([o w'] & Hs & [= <-])%bind_Some.
    by eapply projects_worker.
Qed.

Lemma runtime_run_projects start k r steps r' :
  projects start k r → runtime_run r steps = Some r' → projects start (k + length steps) r'.
Proof.
  revert k r. induction steps as [|s steps IH]; intros k r Hp; cbn.
  - intros [= <-]. by rewrite Nat.add_0_r.
  - intros (r1 & Hs & Hr)%bind_Some. rewrite Nat.add_succ_r, <- Nat.add_succ_l.
    eapply IH; [|done]. by eapply runtime_step_projects.
Qed.

Lemma Runtime_start_projects owner w : projects (Runtime_start owner w) 0 (Runtime_start owner w).
Proof.
  split_and!; [by exists []|by exists []|]. split; try done. by intros [? ?].
Qed.

End Whole.
