(* ===== verification/Exports.v ===== *)
(** * The exported symbols of a runtime

    Every symbol of src/rust/core-bridge/src/abi.rs that takes a runtime handle, over the
    boundary of Abi.v with the runtime of RuntimeGraph.v behind the handle.  A symbol takes
    the handle, the input where it has one, the result it writes and the address the
    allocator picks for the bytes of the result; what Core, the server and other threads do
    meanwhile are arguments of the operation it runs.  The prefix of the symbols,
    ocaml_temporal_core_v4_, is left out. *)

From S2P Require Import Prelude.
From S2P Require Import Text.
From S2P Require Import TaskLedger.
From S2P Require Import Readiness.
From S2P Require Import PollLanes.
From S2P Require Import Replay.
From S2P Require Import ReplayWorker.
From S2P Require Import Protocol.
From S2P Require Import ProtocolCodec.
From S2P Require Import WorkflowTypes.
From S2P Require Import CoreMessages.
From S2P Require Import WorkflowChecks.
From S2P Require Import Documents.
From S2P Require Import CoreConversion.
From S2P Require Import ActivationConversion.
From S2P Require Import CompletionConversion.
From S2P Require Import ActivityProtocol.
From S2P Require Import ActivityDocuments.
From S2P Require Import ClientTypes.
From S2P Require Import ClientChecks.
From S2P Require Import ClientStatus.
From S2P Require Import ClientMessages.
From S2P Require Import ClientOperations.
From S2P Require Import ClientLoops.
From S2P Require Import ClientDocuments.
From S2P Require Import HeartbeatThrottle.
From S2P Require Import ClientCalls.
From S2P Require Import WorkerConfig.
From S2P Require Import Failures.
From S2P Require Import AsyncActivity.
From S2P Require Import ClientRpc.
From S2P Require Import RuntimeCalls.
From S2P Require Import RuntimeSafety.
From S2P Require Import Handoffs.
From S2P Require Import HandoffSafety.
From S2P Require Import Abi.
From S2P Require Import RuntimeGraph.
Local Open Scope N_scope.

(** The forms of the symbols: a handle and a result, with a document or without. *)
Notation Symbol := (N → N → N → Native Runtime → option (N * Native Runtime)).
Notation DocumentSymbol := (N → Span → N → N → N → Native Runtime → option (N * Native Runtime)).

Definition plain (operation : Runtime → option (Ran Operation * Runtime)) : Symbol :=
  λ runtime output choice, invoke output choice (with_runtime runtime operation).

Definition document (operation : list byte → Runtime → option (Ran Operation * Runtime)) : DocumentSymbol :=
  λ runtime input input_len output choice,
    invoke_runtime_document output choice runtime input input_len (λ r input, operation input r).

Definition configured {T} `{JsonText T} (operation : T → Runtime → option (Ran Operation * Runtime)) :
    DocumentSymbol :=
  λ runtime input input_len output choice,
    invoke_runtime_config output choice runtime input input_len (λ r config, operation config r).

(** Operations of the client's side that return. *)
Definition returned (operation : Graph → Operation * Graph) (g : Graph) : option (Ran Operation * Graph) :=
  let '(o, g) := operation g in Some (Returned o, g).

Section Symbols.
Context `{SerdeJson} `{Base64} `{CoreEnums, ClientEnums, StatusDetails, !CompletionFail}.
Context `{JsonText StartWorkflowRequest, JsonText WaitWorkflowRequest}.
Context `{JsonText CancelWorkflowRequest, JsonText TerminateWorkflowRequest}.
Context `{JsonText ResetWorkflowRequest, JsonText SignalWorkflowRequest}.
Context `{JsonText QueryWorkflowRequest, JsonText UpdateWorkflowRequest}.
Context `{JsonText PollWorkflowUpdateRequest, JsonText VisibilityRequest, JsonText HistoryRequest}.
Context `{JsonText StartWorkflowResponse, JsonText CancelWorkflowResponse}.
Context `{JsonText TerminateWorkflowResponse, JsonText ResetWorkflowResponse}.
Context `{JsonText SignalWorkflowResponse, JsonText QueryWorkflowResponse}.
Context `{JsonText UpdateWorkflowResponse, JsonText PollWorkflowUpdateResponse}.
Context `{JsonText VisibilityPage, JsonText WaitWorkflowResponse}.
Context `{JsonText StartTicketDocument, JsonText StartWorkflowOutcomeDocument, JsonText ClientErrorDocument}.
Context `{Serde Activation, Serde WorkflowTypes.Completion, Serde ActivityProtocol.ActivityTask}.
Context `{Serde ActivityCompletion, Serde ActivityHeartbeat, Serde AsyncActivityHeartbeat}.
Context {Event : Type} (encode_to_vec : list Event → list byte) (identity : string).
Context (parse_url : string → result (string * bool) string).
Context (is_only_eviction : Core.WorkflowActivation → bool).
Context (is_empty : Core.WorkflowActivationCompletion → bool).
Context (core_rejects : CoreWorkerConfig → option string).

Context `{JsonText ClientConfig, JsonText WorkerConfigInput}.
Context (service : Services Event).

(** ** The client *)

Definition client_connect_json (handshake : Handshake) : DocumentSymbol :=
  configured (λ config, on_client (returned (connect_client parse_url config handshake))).
Definition client_start_workflow_json : DocumentSymbol :=
  document (λ input, on_client (returned (λ g,
    (start_workflow_json input (start_workflow identity (sv_start service)) g, g)))).
Definition client_cancel_workflow_json : DocumentSymbol :=
  document (λ input, on_client (client_rpc_blocking encode_to_vec identity Kind_Cancel service input)).
Definition client_terminate_workflow_json : DocumentSymbol :=
  document (λ input, on_client (client_rpc_blocking encode_to_vec identity Kind_Terminate service input)).
Definition client_reset_workflow_json : DocumentSymbol :=
  document (λ input, on_client (client_rpc_blocking encode_to_vec identity Kind_Reset service input)).
Definition client_signal_workflow_json : DocumentSymbol :=
  document (λ input, on_client (client_rpc_blocking encode_to_vec identity Kind_Signal service input)).
Definition client_query_workflow_json : DocumentSymbol :=
  document (λ input, on_client (client_rpc_blocking encode_to_vec identity Kind_Query service input)).
Definition client_update_workflow_json : DocumentSymbol :=
  document (λ input, on_client (client_rpc_blocking encode_to_vec identity Kind_Update service input)).
Definition client_poll_update_workflow_json : DocumentSymbol :=
  document (λ input, on_client (client_rpc_blocking encode_to_vec identity Kind_PollUpdate service input)).
Definition client_list_visibility_json : DocumentSymbol :=
  document (λ input, on_client (client_rpc_blocking encode_to_vec identity Kind_Visibility service input)).

(** [reserved] and [draws] are those of the reservation and of the random identifiers. *)
Definition client_begin_start_workflow_json (reserved : option string) (draws : list string) : DocumentSymbol :=
  document (λ input, on_client (λ g,
    '(o, g) ← begin_start_workflow_json input reserved draws g; Some (Returned o, g))).
Definition client_poll_start_workflow_json : DocumentSymbol :=
  document (λ input, on_client (returned (read_start_workflow_json input []))).
Definition client_wait_start_workflow_json (meanwhile : list Other) : DocumentSymbol :=
  document (λ input, on_client (returned (read_start_workflow_json input meanwhile))).
Definition client_wait_workflow_json (reserved : bool)
    (polled : option (result WaitWorkflowResponse ClientOperationError)) : DocumentSymbol :=
  document (λ input, on_client (returned (wait_workflow_json input reserved polled))).
Definition client_submit_json (kind : N) (between : list Other) (reserved : bool * bool) : DocumentSymbol :=
  document (λ input, on_client (returned (submit_client_call kind input between reserved))).
Definition client_complete_async_activity_json : DocumentSymbol :=
  document (λ input, on_client (returned (complete_async_activity identity service input))).
Definition client_record_async_activity_heartbeat_json : DocumentSymbol :=
  document (λ input, on_client (returned (record_async_activity_heartbeat identity service input))).
Definition client_disconnect : Symbol :=
  plain (on_client (returned disconnect_client)).

(** The await takes no handle: [outcome] is what the call's cell gave within the time. *)
Definition await_outcome (timeout_ms : N) (outcome : Operation) : Operation :=
  if MAX_CALL_AWAIT_MS <? timeout_ms
  then Err (failed STATUS_INVALID_ARGUMENT "client call await cannot exceed 60000 ms")
  else outcome.

Definition client_await_call (timeout_ms : N) (outcome : Operation) (output choice : N) :
    Native Runtime → option (N * Native Runtime) :=
  invoke output choice (answer (await_outcome timeout_ms outcome)).

(** Nor does the release, whose effect on the cell and its task ClientCalls.v models. *)
Definition client_release_call (output choice : N) : Native Runtime → option (N * Native Runtime) :=
  invoke output choice (answer (Ok [])).

(** ** The worker *)

Definition worker_start_json (constructed validated_ok : bool) : DocumentSymbol :=
  configured (λ config, on_workers (λ w, Some (start_worker core_rejects config constructed validated_ok w))).
Definition worker_try_poll_workflow (queued : option (ReadyTask Core.WorkflowActivation))
    (meanwhile : list LedgerOp) (reply : result unit string) : Symbol :=
  plain (on_workers (Handoffs.try_poll_workflow is_only_eviction queued meanwhile reply)).
Definition worker_wait_workflow (outcome : ReadinessWait) : Symbol :=
  plain (on_view (Handoffs.wait_workflow outcome)).
Definition worker_complete_workflow_json (meanwhile : list LedgerOp) (reply : result unit string) : DocumentSymbol :=
  document (λ input, on_workers (Handoffs.complete_workflow is_empty input meanwhile reply)).
Definition worker_reject_workflow_json (meanwhile : list LedgerOp) (reply : result unit string) : DocumentSymbol :=
  document (λ input, on_workers (reject_polled_workflow input meanwhile reply)).
Definition worker_try_poll_activity (queued : list (ReadyTask Core.ActivityTask))
    (meanwhile : list LedgerOp) (reply : result unit string) : Symbol :=
  plain (on_workers (Handoffs.try_poll_activity queued meanwhile reply)).
Definition worker_wait_activity (outcome : ReadinessWait) : Symbol :=
  plain (on_view (Handoffs.wait_activity outcome)).
Definition worker_wait_any (outcome : ReadinessWait) : Symbol :=
  plain (on_view (Handoffs.wait_any outcome)).
Definition worker_wait_activity_completion_retry_backoff : Symbol :=
  plain (on_view wait_activity_completion_retry_backoff).
Definition worker_complete_activity_json (meanwhile : list LedgerOp) (reply : result unit string) : DocumentSymbol :=
  document (λ input, on_workers (Handoffs.complete_activity input meanwhile reply)).
Definition worker_record_activity_heartbeat_json : DocumentSymbol :=
  document (λ input, on_workers (λ w, Some (Handoffs.record_activity_heartbeat input w))).
Definition worker_reject_activity_json (meanwhile : list LedgerOp) (reply : result unit string) : DocumentSymbol :=
  document (λ input, on_workers (reject_polled_activity input meanwhile reply)).
Definition worker_initiate_shutdown : Symbol :=
  plain (on_workers initiate_worker_shutdown).
Definition worker_shutdown (retired : list LedgerOp) (drained : result ShutdownRetirement ShutdownDrainError)
    (finalized : BoundedFinalize) : Symbol :=
  plain (on_workers (shutdown_worker retired drained finalized)).

(** ** The replay worker *)

Definition replay_worker_start_json (started : result () ReplayWorkerError) : DocumentSymbol :=
  configured (λ config, on_workers (λ w, Some (start_replay_worker core_rejects config started w))).
Definition replay_worker_feed_history_json (fed : string → result () ReplayWorkerError) : DocumentSymbol :=
  document (λ input, on_view (feed_replay_history_json input fed)).

(** Closing the input changes the feeder only, which ReplayWorker.v models. *)
Definition replay_worker_finish_input : Symbol :=
  plain (on_view (λ _, Ok [])).
Definition replay_worker_try_poll_workflow (queued : option (ReadyTask Core.WorkflowActivation))
    (meanwhile : list LedgerOp) (reply : GuardedCompletion) : Symbol :=
  plain (on_workers (λ w, Some (try_poll_replay_workflow is_only_eviction queued meanwhile reply w))).
Definition replay_worker_wait_workflow (outcome : ReadinessWait) : Symbol :=
  plain (on_view (wait_replay_workflow outcome)).
Definition replay_worker_complete_workflow_json (meanwhile : list LedgerOp) (reply : GuardedCompletion) : DocumentSymbol :=
  document (λ input, on_workers (λ w, Some (complete_replay_workflow is_empty input meanwhile reply w))).
Definition replay_worker_reject_workflow_json (meanwhile : list LedgerOp) (reply : GuardedCompletion) : DocumentSymbol :=
  document (λ input, on_workers (λ w, Some (reject_replay_workflow input meanwhile reply w))).
Definition replay_worker_finalize (retired : list LedgerOp) (finalized : result () ReplayWorkerError) : Symbol :=
  plain (on_workers (λ w, Some (finalize_replay retired finalized w))).
Definition replay_worker_dispose (retired : list LedgerOp) (disposed : result () ReplayWorkerError) : Symbol :=
  plain (on_workers (λ w, Some (dispose_replay retired disposed w))).

(** ** The symbols and the steps of a runtime *)

Notation rstep := (runtime_step encode_to_vec identity parse_url is_only_eviction is_empty core_rejects).

(** What an operation does to a runtime is one step of it, or nothing. *)
Definition steps (operation : Runtime → option (Ran Operation * Runtime)) : Prop :=
  ∀ r ran r', operation r = Some (ran, r') → r' = r ∨ ∃ s, rstep r s = Some r'.

(** A call that changes the runtimes changes the one it names, by one step. *)
Definition one_step (runtime : N) (n n' : Native Runtime) : Prop :=
  runtimes n' = runtimes n
  ∨ ∃ core r r', live (runtimes n) !! runtime = Some (core, r) ∧ (r' = r ∨ ∃ s, rstep r s = Some r')
    ∧ runtimes n' = mkTable (slots (runtimes n)) (<[runtime := (core, r')]> (live (runtimes n))).

Definition symbol_steps (symbol : Symbol) : Prop :=
  ∀ runtime output choice n status n', symbol runtime output choice n = Some (status, n') → one_step runtime n n'.

Definition document_steps (symbol : DocumentSymbol) : Prop :=
  ∀ runtime input input_len output choice n status n',
    symbol runtime input input_len output choice n = Some (status, n') → one_step runtime n n'.

Lemma invoke_steps runtime output choice operation (n : Native Runtime) status n' :
  (∀ n1 ran n2, operation n1 = Some (ran, n2) → one_step runtime n1 n2) →
  invoke output choice operation n = Some (status, n') → one_step runtime n n'.
Proof.
  intros Hop. unfold invoke. destruct (output =? 0); [intros [= _ <-]; by left|].
  intros ([ran n1] & Hrun%Hop & Hs)%bind_Some. destruct (result_of_closure _ _ _). by injection Hs as _ <-.
Qed.

Lemma with_runtime_steps runtime operation (n : Native Runtime) ran n' :
  steps operation → with_runtime runtime operation n = Some (ran, n') → one_step runtime n n'.
Proof.
  intros Hop. unfold with_runtime. destruct (runtime =? 0); [intros [= _ <-]; by left|].
  intros ([core r] & Hl & ([ran' r'] & Hr%Hop & [= _ <-])%bind_Some)%bind_Some. right. by exists core, r, r'.
Qed.

Lemma plain_steps operation : steps operation → symbol_steps (plain operation).
Proof.
  intros Hop runtime output choice n status n'. apply invoke_steps. intros n1 ran n2. by apply with_runtime_steps.
Qed.

Lemma document_symbol_steps operation : (∀ input, steps (operation input)) → document_steps (document operation).
Proof.
  intros Hop runtime input input_len output choice n status n'. apply invoke_steps. intros n1 ran n2.
  intros ([bytes|] & _ & Hs)%bind_Some; [by eapply with_runtime_steps|injection Hs as _ <-; by left].
Qed.

Lemma configured_steps {T} (json : JsonText T) (operation : T → Runtime → option (Ran Operation * Runtime)) :
  (∀ config, steps (operation config)) → document_steps (configured operation).
Proof.
  intros Hop runtime input input_len output choice n status n'. apply invoke_steps. intros n1 ran n2.
  destruct (runtime =? 0) eqn:Hz; [intros [= _ <-]; by left|].
  intros (? & _ & ([config|] & _ & Hs)%bind_Some)%bind_Some; [by eapply with_runtime_steps|].
  injection Hs as _ <-. by left.
Qed.

(** *** Operations *)

Lemma client_steps operation :
  (∀ g ran g', operation g = Some (ran, g') →
     ∃ i, client_input i = true ∧ graph_step parse_url g i = Some g') → steps (on_client operation).
Proof.
  intros Hop r ran r' ([ran' g'] & (i & Hi & Hg)%Hop & [= _ <-])%bind_Some. right. exists (S_Client i).
  cbn. by rewrite Hi, Hg.
Qed.

Lemma returned_steps operation i :
  client_input i = true → (∀ g, graph_step parse_url g i = Some (operation g).2) →
  steps (on_client (returned operation)).
Proof.
  intros Hi Hop. apply client_steps. intros g ran g' Hs. exists i. split; [done|]. rewrite Hop.
  unfold returned in Hs. destruct (operation g). by injection Hs as _ <-.
Qed.

Lemma blocking_steps kind input :
  blocking_kind kind = true → steps (on_client (client_rpc_blocking encode_to_vec identity kind service input)).
Proof.
  intros Hk r ran r' Hs. right. exists (S_Blocking kind service input). cbn. by rewrite Hk, Hs.
Qed.

(** An operation of the workers' side is its input, where that fits the worker. *)
Lemma rejection_steps operation i r ran r' :
  worker_input i = true → fits_worker (rt_workers r) i = true →
  (∀ w, worker_step is_only_eviction is_empty core_rejects w i = operation w) →
  on_workers operation r = Some (ran, r') → r' = r ∨ ∃ s, rstep r s = Some r'.
Proof.
  intros Hi Hf Hop. unfold on_workers. intros [= Hs]. rewrite <- Hop in Hs.
  destruct (worker_step _ _ _ _ _) as [[o w']|] eqn:Hw; injection Hs as _ <-; [|by left].
  right. exists (S_Worker i). cbn. by rewrite Hi, Hf, Hw.
Qed.

Lemma worker_steps operation i :
  worker_input i = true → (∀ w, fits_worker w i = true) →
  (∀ w, worker_step is_only_eviction is_empty core_rejects w i = operation w) → steps (on_workers operation).
Proof. intros Hi Hf Hop r ran r'. by apply (rejection_steps operation i). Qed.

Lemma view_steps operation : steps (on_view operation).
Proof. intros r ran r' [= _ <-]. by left. Qed.

Lemma async_steps operation (i : list byte → RuntimeStep Event) :
  (∀ input r, rstep r (i input) = Some (with_graph (operation input (rt_graph r)).2 r)) →
  ∀ input, steps (on_client (returned (operation input))).
Proof.
  intros Hop input r ran r'. unfold on_client, returned.
  intros ([ran' g'] & Hs & [= _ <-])%bind_Some. right. exists (i input). rewrite Hop.
  destruct (operation input (rt_graph r)). by injection Hs as _ <-.
Qed.

Lemma start_steps input :
  steps (on_client (returned (λ g, (start_workflow_json input (start_workflow identity (sv_start service)) g, g)))).
Proof. apply (returned_steps _ (I_Others [])); [done|]. intros g. by destruct g. Qed.

Lemma begin_steps reserved draws input :
  steps (on_client (λ g, '(o, g) ← begin_start_workflow_json input reserved draws g; Some (Returned o, g))).
Proof.
  apply client_steps. intros g ran g' ([o g1] & Hs & [= _ <-])%bind_Some.
  exists (I_BeginStart input reserved draws). cbn. by rewrite Hs.
Qed.

End Symbols.
