(* ===== verification/ReferenceCore.v ===== *)
(** * A reference for Core's messages

    A numbering of Core's enums and a constructor of failed completions that
    satisfy the laws of [CoreMessages], and the theorems about workflow documents
    applied to concrete documents. *)

From stdpp Require Import pretty.
From Stdlib Require Import Ascii.
From S2P Require Import Prelude.
From S2P Require Import Text.
From S2P Require Import Protocol.
From S2P Require Import WorkflowTypes.
From S2P Require Import CoreMessages.
From S2P Require Import WorkflowChecks.
From S2P Require Import ActivationChecks.
From S2P Require Import CompletionChecks.
From S2P Require Import CoreConversion.
From S2P Require Import FailureConversion.
From S2P Require Import ActivationConversion.
From S2P Require Import CompletionConversion.
Local Open Scope N_scope.

(** ** Enums *)

Definition from_table {A} (table : list (Z * A)) (z : Z) : option A :=
  snd <$> List.find (λ entry, Z.eqb entry.1 z) table.

Lemma from_table_number {A} (number : A → Z) (table : list (Z * A)) z a :
  Forall (λ entry, number entry.2 = entry.1) table → from_table table z = Some a → number a = z.
Proof.
  unfold from_table. intros Ht Hf. destruct (List.find _ table) as [[z' a']|] eqn:Hfind; [|done].
  injection Hf as <-. apply List.find_some in Hfind as [Hin Hz]. simpl in *.
  apply Z.eqb_eq in Hz as <-. rewrite Forall_forall in Ht.
  by apply (Ht (z', a')), list_elem_of_In.
Qed.

(** The values in their order, numbered from zero. *)
Definition numbered {A} (values : list A) : list (Z * A) :=
  imap (λ i value, (Z.of_nat i, value)) values.

Definition retry_states : list Core.RetryState :=
  [Core.RetryState_Unspecified; Core.RetryState_InProgress; Core.RetryState_NonRetryableFailure;
   Core.RetryState_Timeout; Core.RetryState_MaximumAttemptsReached;
   Core.RetryState_RetryPolicyNotSet; Core.RetryState_InternalServerError;
   Core.RetryState_CancelRequested].

Definition timeout_types : list Core.TimeoutType :=
  [Core.Timeout_Unspecified; Core.Timeout_StartToClose; Core.Timeout_ScheduleToStart;
   Core.Timeout_ScheduleToClose; Core.Timeout_Heartbeat].

Definition categories : list Core.ApplicationErrorCategory :=
  [Core.Category_Unspecified; Core.Category_Benign].

Definition nexus_behaviors : list Core.NexusHandlerErrorRetryBehavior :=
  [Core.Nexus_Unspecified; Core.Nexus_Retryable; Core.Nexus_NonRetryable].

Definition initiators : list Core.ContinueAsNewInitiator :=
  [Core.Initiator_Unspecified; Core.Initiator_Workflow; Core.Initiator_Retry;
   Core.Initiator_CronSchedule].

Definition suggestions : list Core.SuggestContinueAsNewReason :=
  [Core.Suggest_Unspecified; Core.Suggest_HistorySizeTooLarge; Core.Suggest_TooManyHistoryEvents;
   Core.Suggest_TooManyUpdates].

Definition child_start_causes : list Core.StartChildWorkflowExecutionFailedCause :=
  [Core.Cause_Unspecified; Core.Cause_WorkflowAlreadyExists; Core.Cause_NamespaceNotFound;
   Core.Cause_InvalidVersioningOverride].

Definition eviction_reasons : list Core.EvictionReason :=
  [Core.Eviction_Unspecified; Core.Eviction_CacheFull; Core.Eviction_CacheMiss;
   Core.Eviction_Nondeterminism; Core.Eviction_LangFail; Core.Eviction_LangRequested;
   Core.Eviction_TaskNotFound; Core.Eviction_UnhandledCommand; Core.Eviction_Fatal;
   Core.Eviction_PaginationOrHistoryFetch; Core.Eviction_WorkflowExecutionEnding].

Definition cancellations : list Core.ActivityCancellationType :=
  [Core.Cancellation_TryCancel; Core.Cancellation_WaitCancellationCompleted;
   Core.Cancellation_Abandon].

Definition child_cancellations : list Core.ChildWorkflowCancellationType :=
  [Core.ChildCancellation_Abandon; Core.ChildCancellation_TryCancel;
   Core.ChildCancellation_WaitCancellationCompleted;
   Core.ChildCancellation_WaitCancellationRequested].

Definition parent_closes : list Core.ParentClosePolicy :=
  [Core.ParentClose_Unspecified; Core.ParentClose_Terminate; Core.ParentClose_Abandon;
   Core.ParentClose_RequestCancel].

Definition id_reuses : list Core.WorkflowIdReusePolicy :=
  [Core.IdReuse_Unspecified; Core.IdReuse_AllowDuplicate; Core.IdReuse_AllowDuplicateFailedOnly;
   Core.IdReuse_RejectDuplicate; Core.IdReuse_TerminateIfRunning].

Definition behaviors : list Core.VersioningBehavior :=
  [Core.Behavior_Unspecified; Core.Behavior_Pinned; Core.Behavior_AutoUpgrade].

Definition failed_causes : list Core.WorkflowTaskFailedCause := [Core.WorkflowWorkerUnhandledFailure].

Definition cancel_reasons : list Core.ActivityCancelReason :=
  [Core.Reason_NotFound; Core.Reason_Cancelled; Core.Reason_TimedOut; Core.Reason_WorkerShutdown;
   Core.Reason_Paused; Core.Reason_Reset].

Definition activity_causes : list Core.ActivityTaskFailedCause := [Core.ActivityCause_Unspecified].

(** The position of a value in its list. *)
Definition position {A} `{EqDecision A} (values : list A) (a : A) : Z :=
  match list_find (a =.) values with Some (i, _) => Z.of_nat i | None => -1 end.

Definition enum_of {A} `{EqDecision A} (values : list A) : ProstEnum A :=
  {| as_i32 := position values; try_from_i32 := from_table (numbered values) |}.

#[global] Instance RetryState_eq_dec : EqDecision Core.RetryState.
Proof. solve_decision. Defined.
#[global] Instance TimeoutType_eq_dec : EqDecision Core.TimeoutType.
Proof. solve_decision. Defined.
#[global] Instance ApplicationErrorCategory_eq_dec : EqDecision Core.ApplicationErrorCategory.
Proof. solve_decision. Defined.
#[global] Instance Nexus_eq_dec : EqDecision Core.NexusHandlerErrorRetryBehavior.
Proof. solve_decision. Defined.
#[global] Instance Initiator_eq_dec : EqDecision Core.ContinueAsNewInitiator.
Proof. solve_decision. Defined.
#[global] Instance Suggest_eq_dec : EqDecision Core.SuggestContinueAsNewReason.
Proof. solve_decision. Defined.
#[global] Instance ChildStartCause_eq_dec :
  EqDecision Core.StartChildWorkflowExecutionFailedCause.
Proof. solve_decision. Defined.
#[global] Instance EvictionReason_eq_dec : EqDecision Core.EvictionReason.
Proof. solve_decision. Defined.
#[global] Instance Cancellation_eq_dec : EqDecision Core.ActivityCancellationType.
Proof. solve_decision. Defined.
#[global] Instance ChildCancellation_eq_dec : EqDecision Core.ChildWorkflowCancellationType.
Proof. solve_decision. Defined.
#[global] Instance ParentClose_eq_dec : EqDecision Core.ParentClosePolicy.
Proof. solve_decision. Defined.
#[global] Instance IdReuse_eq_dec : EqDecision Core.WorkflowIdReusePolicy.
Proof. solve_decision. Defined.
#[global] Instance Behavior_eq_dec : EqDecision Core.VersioningBehavior.
Proof. solve_decision. Defined.
#[global] Instance FailedCause_eq_dec : EqDecision Core.WorkflowTaskFailedCause.
Proof. solve_decision. Defined.

#[global] Instance CancelReason_eq_dec : EqDecision Core.ActivityCancelReason.
Proof. solve_decision. Defined.
#[global] Instance ActivityCause_eq_dec : EqDecision Core.ActivityTaskFailedCause.
Proof. solve_decision. Defined.

#[global] Instance ReferenceEnums : CoreEnums := {|
  retry_state_enum := enum_of retry_states;
  timeout_type_enum := enum_of timeout_types;
  application_category_enum := enum_of categories;
  nexus_retry_enum := enum_of nexus_behaviors;
  initiator_enum := enum_of initiators;
  suggest_enum := enum_of suggestions;
  child_start_cause_enum := enum_of child_start_causes;
  eviction_enum := enum_of eviction_reasons;
  cancellation_enum := enum_of cancellations;
  child_cancellation_enum := enum_of child_cancellations;
  parent_close_enum := enum_of parent_closes;
  id_reuse_enum := enum_of id_reuses;
  versioning_enum := enum_of behaviors;
  task_failed_cause_enum := enum_of failed_causes;
  cancel_reason_enum := enum_of cancel_reasons;
  activity_cause_enum := enum_of activity_causes
|}.

(** A list without repetition that holds every value is a lawful numbering. *)
Lemma enum_of_laws {A} `{EqDecision A} (values : list A) :
  (∀ a, from_table (numbered values) (position values a) = Some a) →
  Forall (λ entry, position values entry.2 = entry.1) (numbered values) →
  @ProstEnumLaws A (enum_of values).
Proof. intros Hround Hnumber. split; [exact Hround|]. intros z a. by apply from_table_number. Qed.

#[global] Instance ReferenceEnums_laws : CoreEnumsLaws.
Proof.
  split; try (apply enum_of_laws; [by intros []|by repeat constructor]); done.
Qed.

#[global] Instance ReferenceFail : CompletionFail := {|
  completion_fail run_id failure cause :=
    Core.mkWorkflowActivationCompletion run_id
      (Some (Core.Status_TaskFailed (Some failure) (from_option as_i32 0%Z cause))) None None
|}.

#[global] Instance ReferenceFail_laws : CompletionFailLaws.
Proof. by split. Qed.

(** ** Documents *)

(** [n] copies of a two-byte character. *)
Fixpoint accents (n : nat) : string :=
  match n with O => "" | S n => String "195" (String "169" (accents n)) end.

Definition long_text : string := accents 40000.

Lemma long_text_valid : utf8_valid long_text = true.
Proof. vm_compute. reflexivity. Qed.

Lemma long_text_over : ¬ text_fits long_text.
Proof. intros Hfits. vm_compute in Hfits. by apply Hfits. Qed.

Lemma inbound_text_bounded_witness :
  text_fits (inbound_text long_text) ∧ utf8_valid (inbound_text long_text) = true ∧
  ∃ n, inbound_text long_text = str_take n long_text +:+ truncation_marker long_text.
Proof.
  destruct (inbound_text_bounded long_text long_text_valid) as (Hfits & Hvalid & _ & Hcut).
  split; [exact Hfits|]. split; [exact Hvalid|].
  destruct (Hcut long_text_over) as (n & Hn & _). exists n. exact Hn.
Defined.

(** A chain of activity wrappers around a failure that must not be retried. *)
Fixpoint deep_failure (n : nat) : Core.Failure :=
  match n with
  | O =>
      Core.mkFailure "declined" "" "" None None
        (Some (Core.ApplicationFailureInfo "Declined" true None (Some (Core.mkDuration (-5) 0)) 7))
  | S n =>
      Core.mkFailure "activity failed" "" "" None (Some (deep_failure n))
        (Some (Core.ActivityFailureInfo 1 2 "" None "" 0))
  end.

Lemma deep_failure_ok n : core_failure_ok (deep_failure n).
Proof.
  induction n as [|n IH]; cbn; split_and!; try done; intros i [= <-]; cbn; [|lia].
  split; [constructor|]. intros d [= <-]. left. cbn. lia.
Qed.

Lemma received_failure_fits_witness :
  ∃ f, failure_from_core (deep_failure 150) = Ok f ∧ validate_failure f "$" = Ok tt ∧
    layers f ≤ MAX_INBOUND_FAILURE_LAYERS.
Proof. apply (received_failure_fits (deep_failure 150)), deep_failure_ok. Defined.

Lemma conversion_keeps_retryability_witness :
  ∃ f, failure_from_core (deep_failure 150) = Ok f ∧ failure_non_retryable f = true.
Proof.
  destruct (failure_from_core (deep_failure 150)) as [f|e] eqn:Hf; [|by vm_compute in Hf].
  exists f. split; [reflexivity|].
  transitivity (omitted_tail_non_retryable (deep_failure 150)); [|by vm_compute].
  apply (conversion_keeps_retryability (deep_failure 150) f Hf).
Defined.

Definition greeting : Payload :=
  mkPayload {["encoding" := [x6a; x73; x6f; x6e]]} [x22; x68; x69; x22].

Definition core_greeting : Core.Payload :=
  Core.mkPayload {["encoding" := [x6a; x73; x6f; x6e]]} [x22; x68; x69; x22] [].

Definition rough_identity : string := String "000" long_text.

Lemma rough_identity_valid : utf8_valid rough_identity = true.
Proof. vm_compute. reflexivity. Qed.

(** A signal whose sender and header no OCaml workflow could name, a long reason
    and a deep failure. *)
Definition rough_activation : Core.WorkflowActivation := {|
  Core.wa_run_id := "run";
  Core.wa_timestamp := Some (Core.mkTimestamp 1700000000 5);
  Core.wa_is_replaying := false;
  Core.wa_history_length := 3;
  Core.wa_jobs :=
    [Some (Core.Job_SignalWorkflow "go" [] rough_identity {["" := core_greeting]});
     Some (Core.Job_CancelWorkflow long_text);
     Some (Core.Job_ResolveActivity 1 (Some (Some (Core.Status_Failed (Some (deep_failure 150))))) false)];
  Core.wa_available_internal_flags := [];
  Core.wa_history_size_bytes := 4096;
  Core.wa_continue_as_new_suggested := false;
  Core.wa_deployment_version_for_current_task := None;
  Core.wa_last_sdk_version := "";
  Core.wa_suggest_continue_as_new_reasons := [4%Z];
  Core.wa_target_worker_deployment_version_changed := false
|}.

Lemma rough_activation_ok : core_activation_ok rough_activation.
Proof.
  unfold core_activation_ok. cbn [rough_activation Core.wa_run_id Core.wa_jobs Core.wa_timestamp
    Core.wa_history_size_bytes Core.wa_deployment_version_for_current_task].
  split; [by vm_compute|]. split; [|split; [|split; [|split; [|split; [|split; [|split; [|split]]]]]]].
  - repeat constructor; eexists; (split; [reflexivity|]).
    + split; [by vm_compute|]. split; [constructor|]. split; [exact rough_identity_valid|].
      unfold core_fields_ok. apply map_Forall_singleton. by split.
    + exact I.
    + eexists. split; [reflexivity|]. apply deep_failure_ok.
  - intros job Hj Hev. exfalso. by repeat (apply elem_of_cons in Hj as [->|Hj]; [done|]); apply elem_of_nil in Hj.
  - unfold time_ok. cbn. lia.
  - intros [|[|[|i]]] job Hj Hini; try done; by injection Hj as <-.
  - intros x y Hx Hy.
    assert (∀ j, j ∈ Core.wa_jobs rough_activation → core_query_id j = None) as Hno.
    { intros j Hj. by repeat (apply elem_of_cons in Hj as [->|Hj]; [done|]); apply elem_of_nil in Hj. }
    by rewrite (Hno x Hx), (Hno y Hy).
  - constructor.
  - constructor.
  - constructor.
  - by split.
Qed.

Lemma activation_from_core_total_witness :
  ∃ a, activation_from_core rough_activation = Ok a ∧ validate_activation a = Ok tt.
Proof.
  destruct (activation_from_core_total rough_activation rough_activation_ok) as (a & Ha & Hv & _).
  exists a. split; [exact Ha|exact Hv].
Defined.

(** An activity with a policy and a priority, a child, a signal, an update
    answered in both phases and a final failure. *)
Definition busy_completion : Completion := {|
  cp_run_id := "run";
  cp_commands :=
    [ScheduleActivity 1 "a-1" "charge" "queue" [greeting] (Some (mkDuration 30 0)) None
       (Some (mkDuration 10 500)) None
       (Some (mkRetryPolicy (mkDuration 1 0) "4611686018427387904" (mkDuration 60 0) 5 ["Fatal"]))
       (Some (mkWorkflowPriority 2 "tenant" 0x3F800000)) Cancellation_TryCancel true;
     StartChildWorkflow 2 (Some "queue") (Some ParentClose_Abandon) "child" "Child" [greeting] None
       ChildCancellation_Abandon (Some (mkDuration 600 0)) (Some (mkDuration 300 0))
       (Some (mkDuration 10 0)) (Some IdReuse_RejectDuplicate);
     SignalExternalWorkflow 3 "other" "other-run" "poke" [greeting] false {["trace" := greeting]};
     UpdateResponse "u-1" Update_Accepted;
     UpdateResponse "u-1" (Update_Completed greeting);
     FailWorkflow (mkFailure "gone" "" "" (Some greeting)
       (Some (mkFailure "declined" "" "" None None
         (Info_Application "Declined" true [greeting] Category_Benign (Some (mkDuration 5 0)))))
       (Info_Timeout Timeout_Heartbeat []))];
  cp_task_failure := None;
  cp_versioning_behavior := Some Behavior_Pinned
|}.

Lemma busy_completion_weights : weights_u32 busy_completion.
Proof. by repeat constructor; intros p [= <-]. Qed.

Lemma validate_completion_accepts_witness : completion_ok busy_completion.
Proof.
  apply (proj1 (validate_completion_accepts busy_completion busy_completion_weights)).
  vm_compute. reflexivity.
Defined.


Definition query_activation : Activation := {|
  ac_run_id := "run";
  ac_timestamp := Some (mkTimestamp 1700000000 0);
  ac_is_replaying := true;
  ac_history_length := 9;
  ac_jobs := [QueryWorkflow "q-1" "state" [] ∅; QueryWorkflow "q-2" "state" [] ∅];
  ac_metadata := None
|}.

Definition query_completion : Completion := {|
  cp_run_id := "run";
  cp_commands :=
    [QueryResultCommand "q-2" (Query_Succeeded greeting);
     QueryResultCommand "q-1" (Query_Failed (mkFailure "no" "" "" None None Info_Absent))];
  cp_task_failure := None;
  cp_versioning_behavior := None
|}.

Lemma completion_answers_activation_witness :
  ["q-2"; "q-1"] ≡ₚ ["q-1"; "q-2"] ∧ cp_run_id query_completion = "run".
Proof.
  destruct (completion_to_core_for_activation_with_namespace query_activation query_completion
    "default") as [m|e] eqn:Hm; [|by vm_compute in Hm].
  destruct (completion_answers_activation query_activation query_completion "default" m)
    as (Hrun & _ & Hids & _); [by vm_compute|exact Hm|].
  split; [exact Hids|exact Hrun].
Defined.

Definition timer_activation : Activation := {|
  ac_run_id := "run";
  ac_timestamp := Some (mkTimestamp 1700000000 0);
  ac_is_replaying := false;
  ac_history_length := 9;
  ac_jobs := [FireTimer 1];
  ac_metadata := None
|}.

Lemma commands_in_worker_namespace_witness :
  ∃ m success,
    completion_to_core_for_activation_with_namespace timer_activation busy_completion "payments"
      = Ok m ∧
    Core.wac_status m = Some (Core.Status_Successful success) ∧
    Forall (in_namespace "payments") (Core.su_commands success).
Proof.
  destruct (completion_to_core_for_activation_with_namespace timer_activation busy_completion
    "payments") as [m|e] eqn:Hm; [|by vm_compute in Hm].
  destruct (Core.wac_status m) as [[success|f c]|] eqn:Hs.
  - exists m, success. split; [reflexivity|]. split; [exact Hs|].
    destruct (commands_in_worker_namespace timer_activation busy_completion "payments" m success
      Hm Hs eq_refl) as [_ Hall].
    induction Hall as [|x y l k [_ Hy] _ IH]; constructor; [exact Hy|exact IH].
  - exfalso. vm_compute in Hm. injection Hm as <-. discriminate Hs.
  - exfalso. vm_compute in Hm. injection Hm as <-. discriminate Hs.
Defined.
