(* ===== verification/ReferenceActivity.v ===== *)
(** * Activity documents at concrete inputs

    The theorems about payloads and activity documents applied under the codecs
    of [ReferenceCodec] and the enums of [ReferenceCore]. *)

From S2P Require Import Prelude.
From S2P Require Import Protocol.
From S2P Require Import ReferenceCodec.
From S2P Require Import WorkflowTypes.
From S2P Require Import CoreMessages.
From S2P Require Import WorkflowChecks.
From S2P Require Import ActivationChecks.
From S2P Require Import CoreConversion.
From S2P Require Import FailureConversion.
From S2P Require Import ActivationConversion.
From S2P Require Import PayloadWire.
From S2P Require Import ActivityProtocol.
From S2P Require Import ReferenceCore.
Local Open Scope N_scope.

Lemma payload_wire_inverse_witness :
  ∃ w, payload_serialize greeting = Ok w ∧ payload_deserialize w = Ok greeting.
Proof.
  destruct (payload_serialize greeting) as [w|e] eqn:Hw; [|by vm_compute in Hw].
  exists w. split; [reflexivity|]. apply (payload_wire_inverse greeting w). exact Hw.
Defined.

(** A first attempt whose recorded retry policy has a negative interval. *)
Definition charge_task : Core.ActivityTask := {|
  Core.at_task_token := [x00; xff; x10];
  Core.at_variant := Some (Core.Variant_Start {|
    Core.as_workflow_namespace := "payments";
    Core.as_workflow_type := "Order";
    Core.as_workflow_execution := Some (Core.mkWorkflowExecution "order-7" "run");
    Core.as_activity_id := "a-1";
    Core.as_activity_type := "charge";
    Core.as_is_local := false;
    Core.as_header_fields := {["trace" := core_greeting]};
    Core.as_input := [core_greeting];
    Core.as_heartbeat_details := [];
    Core.as_scheduled_time := Some (Core.mkTimestamp 1700000000 5);
    Core.as_current_attempt_scheduled_time := None;
    Core.as_started_time := Some (Core.mkTimestamp 1700000001 0);
    Core.as_attempt := 1;
    Core.as_schedule_to_close_timeout := None;
    Core.as_start_to_close_timeout := Some (Core.mkDuration 30 0);
    Core.as_heartbeat_timeout := None;
    Core.as_retry_policy :=
      Some (Core.mkRetryPolicy (Some (Core.mkDuration (-1) 0)) 4611686018427387904 None 1 ["Fatal"]);
    Core.as_priority := None;
    Core.as_run_id := ""
  |})
|}.

Lemma greeting_fits : payload_fits greeting.
Proof.
  apply validate_payload_limits_Ok. vm_compute. reflexivity.
Qed.

Definition charge_done : ActivityCompletion :=
  mkActivityCompletion "AP8Q" (Result_Completed greeting).

Lemma charge_task_received : ∃ t, task_from_core charge_task = Ok t ∧ tk_task_token t = "AP8Q".
Proof. eexists. vm_compute. split; reflexivity. Qed.

Lemma task_from_core_accepts_witness : core_task_ok charge_task.
Proof.
  apply (proj1 (task_from_core_accepts charge_task)).
  destruct charge_task_received as (t & Ht & _). exists t. exact Ht.
Defined.

Lemma completion_reaches_task_witness :
  ∃ k, completion_to_core charge_done = Ok k ∧ Core.atc_task_token k = [x00; xff; x10].
Proof.
  destruct charge_task_received as (t & Ht & Htoken).
  destruct (completion_reaches_task charge_task t charge_done Ht) as [Hex Hall].
  - rewrite Htoken. reflexivity.
  - destruct (proj2 Hex) as (k & Hk).
    + exact greeting_fits.
    + exists k. split; [exact Hk|]. exact (proj1 (Hall k Hk)).
Defined.
