(* ===== verification/ReferenceDocuments.v ===== *)
(** * Documents at concrete inputs

    Serializers and deserializers for the simplest documents of each kind, which
    satisfy [SerdeLaws], and the theorems about documents as text applied to
    concrete documents under them.  Each serializer is partial: it writes the
    documents named in its comment only. *)

From S2P Require Import Prelude.
From S2P Require Import Text.
From S2P Require Import Protocol.
From S2P Require Import ProtocolCodec.
From S2P Require Import ReferenceCodec.
From S2P Require Import ReferenceReader.
From S2P Require Import WorkflowTypes.
From S2P Require Import WorkflowChecks.
From S2P Require Import ActivationChecks.
From S2P Require Import CompletionChecks.
From S2P Require Import Documents.
From S2P Require Import ActivityProtocol.
From S2P Require Import ActivityDocuments.
Local Open Scope N_scope.

(** ** Fields *)

Definition get (name : string) (v : Value) : option Value :=
  match v with
  | VObject es => snd <$> List.find (λ e, bool_decide (e.1 = name)) es
  | _ => None
  end.

Definition get_string (name : string) (v : Value) : option string :=
  match get name v with Some (VString s) => Some s | _ => None end.

Definition get_bool (name : string) (v : Value) : option bool :=
  match get name v with Some (VBool b) => Some b | _ => None end.

Definition get_u64 (name : string) (v : Value) : option N :=
  match get name v with Some (VNumber n) => as_u64 n | _ => None end.

Definition get_i64 (name : string) (v : Value) : option Z :=
  match get name v with Some (VNumber n) => as_i64 n | _ => None end.

Definition i64_range (z : Z) : bool := (- 2 ^ 63 <=? z)%Z && (z <? 2 ^ 63)%Z.

Lemma number_of_i64_ok z :
  i64_range z = true → number_ok (number_of_i64 z) ∧ as_i64 (number_of_i64 z) = Some z.
Proof.
  unfold i64_range. rewrite andb_true_iff, Z.leb_le, Z.ltb_lt. intros Hz. unfold number_of_i64.
  destruct (Z.ltb_spec z 0); simpl; [split; [lia|done]|].
  unfold u64_modulus, I64_MAX. rewrite (proj2 (N.leb_le _ _)) by lia.
  rewrite Z2N.id by lia. split; [lia|done].
Qed.

(** ** Workflow documents *)

(** An activation that fires one timer. *)
#[export] Instance TimerActivation : Serde Activation := {|
  to_value a :=
    match a with
    | mkActivation run_id (Some (mkTimestamp seconds nanos)) replaying history [FireTimer seq] None =>
        if i64_range seconds && i64_range nanos && (history <? u64_modulus) && (seq <? u64_modulus)
        then Some (VObject
          [("history_length", VNumber (PosInt history)); ("is_replaying", VBool replaying);
           ("jobs", VArray [VObject [("kind", VString "fire_timer"); ("seq", VNumber (PosInt seq))]]);
           ("metadata", VNull); ("run_id", VString run_id);
           ("timestamp", VObject [("nanoseconds", VNumber (number_of_i64 nanos));
                                  ("seconds", VNumber (number_of_i64 seconds))])])
        else None
    | _ => None
    end;
  from_value v :=
    run_id ← get_string "run_id" v; replaying ← get_bool "is_replaying" v;
    history ← get_u64 "history_length" v; time ← get "timestamp" v;
    seconds ← get_i64 "seconds" time; nanos ← get_i64 "nanoseconds" time;
    match get "jobs" v with
    | Some (VArray [job]) =>
        seq ← get_u64 "seq" job;
        Some (mkActivation run_id (Some (mkTimestamp seconds nanos)) replaying history [FireTimer seq] None)
    | _ => None
    end
|}.

(** Closes the shape of a written object. *)
Ltac object_ok :=
  cbn -[number_of_i64 u64_modulus];
  repeat match goal with
  | |- _ ∧ _ => split
  | |- NoDup _ => by apply (bool_decide_unpack _)
  | |- Forall _ _ => constructor
  | |- id _ => unfold id; cbn -[number_of_i64 u64_modulus]
  end; try done.

Lemma serde_laws {A} `{Serde A} :
  (∀ (a : A) v, to_value a = Some v → value_ok v ∧ from_value v = Some a) → SerdeLaws A.
Proof. intros Hlaws. split; intros a v Hv; by destruct (Hlaws a v Hv). Qed.

#[export] Instance TimerActivation_laws : SerdeLaws Activation.
Proof.
  apply serde_laws.
  intros [run_id [[seconds nanos]|] replaying history [|[] [|]] [|]] v Hv; simpl in Hv; try done.
  destruct (i64_range seconds) eqn:Hs; [|done]. destruct (i64_range nanos) eqn:Hn; [|done].
  destruct (N.ltb_spec history u64_modulus); [|done]. destruct (N.ltb_spec seq u64_modulus); [|done].
  injection Hv as <-. destruct (number_of_i64_ok seconds Hs) as [? Hsec].
  destruct (number_of_i64_ok nanos Hn) as [? Hnan]. split; [object_ok|].
  cbv -[number_of_i64 as_i64]. by rewrite Hsec, Hnan.
Qed.

(** A completion without commands. *)
#[export] Instance EmptyCompletion : Serde Completion := {|
  to_value c :=
    match c with
    | mkCompletion run_id [] None None =>
        Some (VObject [("commands", VArray []); ("run_id", VString run_id)])
    | _ => None
    end;
  from_value v := run_id ← get_string "run_id" v; Some (mkCompletion run_id [] None None)
|}.

#[export] Instance EmptyCompletion_laws : SerdeLaws Completion.
Proof.
  apply serde_laws. intros [run_id [|] [|] [|]] v Hv; simpl in Hv; try done. injection Hv as <-.
  split; [object_ok|done].
Qed.

(** ** Activity documents *)

(** A cancellation by request without details. *)
#[export] Instance CancelTask : Serde ActivityTask := {|
  to_value t :=
    match t with
    | mkActivityTask token (Variant_Cancel (mkActivityCancel Reason_Cancelled None)) =>
        Some (VObject [("task_token", VString token);
          ("variant", VObject [("details", VNull); ("kind", VString "cancel"); ("reason", VString "cancelled")])])
    | _ => None
    end;
  from_value v :=
    token ← get_string "task_token" v;
    Some (mkActivityTask token (Variant_Cancel (mkActivityCancel Reason_Cancelled None)))
|}.

#[export] Instance CancelTask_laws : SerdeLaws ActivityTask.
Proof.
  apply serde_laws. intros [token [|[[] [|]]]] v Hv; simpl in Hv; try done. injection Hv as <-.
  split; [object_ok|done].
Qed.

(** A completion that hands the token off. *)
#[export] Instance AsyncCompletion : Serde ActivityCompletion := {|
  to_value c :=
    match c with
    | mkActivityCompletion token Result_WillCompleteAsync =>
        Some (VObject [("result", VObject [("kind", VString "will_complete_async")]);
          ("task_token", VString token)])
    | _ => None
    end;
  from_value v :=
    token ← get_string "task_token" v; Some (mkActivityCompletion token Result_WillCompleteAsync)
|}.

#[export] Instance AsyncCompletion_laws : SerdeLaws ActivityCompletion.
Proof.
  apply serde_laws. intros [token []] v Hv; simpl in Hv; try done. injection Hv as <-.
  split; [object_ok|done].
Qed.

(** A heartbeat without details. *)
#[export] Instance BareHeartbeat : Serde ActivityHeartbeat := {|
  to_value h :=
    match h with
    | mkActivityHeartbeat token [] =>
        Some (VObject [("details", VArray []); ("task_token", VString token)])
    | _ => None
    end;
  from_value v := token ← get_string "task_token" v; Some (mkActivityHeartbeat token [])
|}.

#[export] Instance BareHeartbeat_laws : SerdeLaws ActivityHeartbeat.
Proof.
  apply serde_laws. intros [token [|]] v Hv; simpl in Hv; try done. injection Hv as <-.
  split; [object_ok|done].
Qed.

(** One without details and timeout. *)
#[export] Instance BareAsyncHeartbeat : Serde AsyncActivityHeartbeat := {|
  to_value h :=
    match h with
    | mkAsyncActivityHeartbeat token [] None =>
        Some (VObject [("details", VArray []); ("heartbeat_timeout", VNull); ("task_token", VString token)])
    | _ => None
    end;
  from_value v := token ← get_string "task_token" v; Some (mkAsyncActivityHeartbeat token [] None)
|}.

#[export] Instance BareAsyncHeartbeat_laws : SerdeLaws AsyncActivityHeartbeat.
Proof.
  apply serde_laws. intros [token [|] [|]] v Hv; simpl in Hv; try done. injection Hv as <-.
  split; [object_ok|done].
Qed.

(** ** Concrete documents *)

Definition fired : Activation :=
  mkActivation "run" (Some (mkTimestamp 1700000000 5)) false 9 [FireTimer 1] None.

Lemma workflow_documents_round_trip_witness :
  ∃ text, encode_activation fired = Ok text ∧ decode_activation text = Ok fired.
Proof.
  destruct (encode_activation fired) as [text|e] eqn:Htext; [|by vm_compute in Htext].
  exists text. split; [reflexivity|].
  exact (proj1 (workflow_documents_round_trip fired (mkCompletion "run" [] None None) text) Htext).
Defined.

Definition handed_off : ActivityCompletion := mkActivityCompletion "AP8Q" Result_WillCompleteAsync.

Lemma activity_documents_round_trip_witness :
  ∃ text, ActivityDocuments.encode_completion handed_off = Ok text ∧
    ActivityDocuments.decode_completion text = Ok handed_off.
Proof.
  destruct (ActivityDocuments.encode_completion handed_off) as [text|e] eqn:Htext;
    [|by vm_compute in Htext].
  exists text. split; [reflexivity|].
  destruct (activity_documents_round_trip
    (mkActivityTask "AP8Q" (Variant_Cancel (mkActivityCancel Reason_Cancelled None)))
    handed_off (mkActivityHeartbeat "AP8Q" []) (mkAsyncActivityHeartbeat "AP8Q" [] None) text)
    as (_ & Hcompletion & _).
  exact (Hcompletion Htext).
Defined.
