(* ===== verification/ReferenceClient.v ===== *)
(** * Client operations at concrete inputs

    A numbering of the enums of the workflow service and decoders of status
    details, and the theorems about client calls applied under them. *)

From S2P Require Import Prelude.
From S2P Require Import Text.
From S2P Require Import Protocol.
From S2P Require Import ProtocolCodec.
From S2P Require Import ReferenceCodec.
From S2P Require Import WorkflowTypes.
From S2P Require Import CoreMessages.
From S2P Require Import WorkflowChecks.
From S2P Require Import CoreConversion.
From S2P Require Import ReferenceCore.
From S2P Require Import ClientTypes.
From S2P Require Import ClientChecks.
From S2P Require Import ClientStatus.
From S2P Require Import ClientMessages.
From S2P Require Import ClientOperations.
From S2P Require Import ClientLoops.
From S2P Require Import ClientDocuments.
Local Open Scope N_scope.

(** ** The service's crates *)

#[global] Instance ConflictPolicy_eq_dec : EqDecision Service.WorkflowIdConflictPolicy.
Proof. solve_decision. Defined.
#[global] Instance Stage_eq_dec : EqDecision Service.UpdateLifecycleStage.
Proof. solve_decision. Defined.
#[global] Instance Filter_eq_dec : EqDecision Service.HistoryEventFilterType.
Proof. solve_decision. Defined.

Definition conflict_policies : list Service.WorkflowIdConflictPolicy :=
  [Service.ConflictPolicy_Unspecified; Service.ConflictPolicy_Fail;
   Service.ConflictPolicy_UseExisting; Service.ConflictPolicy_TerminateExisting].

Definition stages : list Service.UpdateLifecycleStage :=
  [Service.Stage_Unspecified; Service.Stage_Admitted; Service.Stage_Accepted;
   Service.Stage_Completed].

Definition filters : list Service.HistoryEventFilterType :=
  [Service.Filter_Unspecified; Service.Filter_AllEvent; Service.Filter_CloseEvent].

#[export] Instance ReferenceClientEnums : ClientEnums := {|
  conflict_policy_enum := enum_of conflict_policies;
  stage_enum := enum_of stages;
  filter_enum := enum_of filters
|}.

(** Details that carry nothing. *)
#[export] Instance ReferenceDetails : StatusDetails := {|
  already_started_detail _ := None;
  rpc_status_decode _ := None;
  query_failed_decode _ := None
|}.

(** ** Start *)

Definition order : StartWorkflowRequest := {|
  sr_request_id := "start-1";
  sr_namespace := "payments";
  sr_workflow_id := "order-7";
  sr_workflow_type := "Order";
  sr_task_queue := "orders";
  sr_input := [greeting];
  sr_memo := [mkMetadataField "origin" greeting];
  sr_search_attributes := [];
  sr_id_conflict_policy := Conflict_UseExisting;
  sr_id_reuse_policy := Reuse_AllowDuplicate;
  sr_execution_timeout_ms := Some 60000;
  sr_run_timeout_ms := Some 30500;
  sr_task_timeout_ms := Some 10000;
  sr_retry_policy := None;
  sr_rpc_timeout_ms := Some 2000
|}.

Lemma accepted_start_is_sent_witness :
  ∃ m, start_message "worker" order = Ok m ∧
    Service.s_workflow_run_timeout m = Some (Core.mkDuration 30 500000000).
Proof.
  destruct (accepted_start_is_sent "worker" order) as (m & Hm & _); [by vm_compute|].
  exists m. split; [exact Hm|]. vm_compute in Hm. by injection Hm as <-.
Defined.

(** A service whose namespace is unknown. *)
Definition unknown_namespace (_ : CallRequest Service.StartRequest) : Reply Service.StartResponse :=
  Replied 5 (Err (mkStatus Code_NotFound "namespace not found" [])).


(** ** Visibility *)

Definition open_orders : VisibilityRequest := mkVisibilityRequest "payments" "" 10 None None.

Definition one_row (_ : CallRequest Service.ListRequest) : Reply Service.ListResponse :=
  Replied 1 (Ok (Service.mkListResponse
    [Service.mkExecutionInfo (Some (Core.mkWorkflowExecution "order-7" "run")) (Some "Order") "orders" 9]
    [x01; x02])).

Lemma visibility_pages_chain_witness :
  ∃ page, list_visibility one_row open_orders = Ok page ∧
    vp_executions page = [mkVisibilityExecution "order-7" "run" "Order" "orders" "unknown_9"] ∧
    vp_next_page_token page ≠ None.
Proof.
  destruct (list_visibility one_row open_orders) as [page|] eqn:Hpage; [|by vm_compute in Hpage].
  exists page. split; [reflexivity|].
  destruct (visibility_pages_chain one_row open_orders page Hpage)
    as (m & elapsed & response & Hm & Hreply & _ & _ & Hnone & _).
  vm_compute in Hpage. injection Hpage as <-. split; [reflexivity|].
  injection Hreply as _ Hresponse. intros Hcontra. apply Hnone in Hcontra. by rewrite <-Hresponse in Hcontra.
Defined.

(** ** Update *)

Definition approve : UpdateWorkflowRequest :=
  mkUpdateWorkflowRequest "payments" "order-7" "" "approve-1" "approve" [greeting] None.

Definition update_answer (stage : Service.UpdateLifecycleStage) : Attempt :=
  mkAttempt
    (Replied 1000 (Ok (Service.mkUpdateResponse
      (Some (Service.mkUpdateRef (Some (Core.mkWorkflowExecution "order-7" "run")) "approve-1"))
      None (as_i32 stage))))
    7.

(** Admitted first, then accepted. *)
Definition two_attempts : list Attempt :=
  [update_answer Service.Stage_Admitted; update_answer Service.Stage_Accepted].

Lemma update_handle_accepted_witness :
  ∃ r, (update_workflow_within "worker" approve 1000000000 two_attempts).1 = Some (Ok r) ∧
    ex_run_id (uw_execution r) ≠ "" ∧ uw_update_id r = "approve-1".
Proof.
  set (r := mkUpdateWorkflowResponse "approve-1" (mkExecutionRef "payments" "order-7" "run") None).
  assert ((update_workflow_within "worker" approve 1000000000 two_attempts).1 = Some (Ok r)) as Hr
    by (by vm_compute).
  exists r. split; [exact Hr|].
  destruct (update_handle_accepted "worker" approve 1000000000 two_attempts r Hr)
    as (_ & Hid & _ & _ & Hrun & _).
  split; [exact Hrun|exact Hid].
Defined.

(** ** History *)

Definition recorded : HistoryRequest := mkHistoryRequest "payments" "order-7" "" (Some 100) None.

(** Events of one byte. *)
Definition event_pages : list (N * Service.HistoryResponse byte) :=
  [(3, Service.mkHistoryResponse (Some [x01; x02]) [xaa]); (4, Service.mkHistoryResponse None [xbb])].

Definition last_page : N * Service.HistoryResponse byte :=
  (5, Service.mkHistoryResponse (Some [x03]) []).

Lemma fetch_history_complete_witness :
  (fetch_history id recorded (map answering (event_pages ++ [last_page]))).1 =
    Some (Ok [x01; x02; x03]).
Proof.
  destruct (fetch_history_complete id Some recorded event_pages last_page)
    as (_ & Hresult & _); [by split|by repeat constructor|done|].
  rewrite Hresult. by vm_compute.
Defined.

(** ** Wait *)

Definition current_run : WaitWorkflowRequest := mkWaitWorkflowRequest "payments" "order-7" "".

(** A long poll that expires, then the close of the run. *)
Definition close_answers :
    list (result (Service.HistoryResponse Service.HistoryEvent) Status) :=
  [Ok (Service.mkHistoryResponse None [xaa]);
   Ok (Service.mkHistoryResponse
     (Some [Service.mkHistoryEvent (Some (Service.Attributes_ContinuedAsNew "next"))]) [])].

Lemma wait_observes_one_run_witness :
  ∃ r, (wait_workflow current_run close_answers).1 = Some (Ok r) ∧
    ww_execution r = mkExecutionRef "payments" "order-7" "" ∧
    ww_outcome r = Outcome_ContinuedAsNew (mkSuccessorRef "payments" "order-7" "next").
Proof.
  set (r := mkWaitWorkflowResponse (mkExecutionRef "payments" "order-7" "")
    (Outcome_ContinuedAsNew (mkSuccessorRef "payments" "order-7" "next"))).
  assert ((wait_workflow current_run close_answers).1 = Some (Ok r)) as Hr by (by vm_compute).
  exists r. split; [exact Hr|]. split; [|reflexivity].
  destruct (wait_observes_one_run current_run close_answers r Hr) as [Hexecution _].
  exact Hexecution.
Defined.
