(* ===== verification/ReferenceCalls.v ===== *)
(** * A runtime graph at concrete inputs

    One document of each kind with one text, a process without calls, and the theorems
    about submitted calls and the runtime graph applied there. *)

From S2P Require Import Prelude.
From S2P Require Import Text.
From S2P Require Import Protocol.
From S2P Require Import ProtocolCodec.
From S2P Require Import ReferenceCodec.
From S2P Require Import WorkflowTypes.
From S2P Require Import CoreMessages.
From S2P Require Import Documents.
From S2P Require Import CoreConversion.
From S2P Require Import ReferenceCore.
From S2P Require Import ActivityProtocol.
From S2P Require Import ActivityDocuments.
From S2P Require Import ReferenceDocuments.
From S2P Require Import ClientTypes.
From S2P Require Import ClientStatus.
From S2P Require Import ClientMessages.
From S2P Require Import ClientOperations.
From S2P Require Import ClientLoops.
From S2P Require Import ClientDocuments.
From S2P Require Import ReferenceClient.
From S2P Require Import HeartbeatThrottle.
From S2P Require Import ClientCalls.
From S2P Require Import Failures.
From S2P Require Import AsyncActivity.
From S2P Require Import ClientRpc.
From S2P Require Import RuntimeCalls.
From S2P Require Import RuntimeSafety.
Local Open Scope N_scope.

(** ** Documents *)

(** A serializer of one value. *)
Definition single {A} `{EqDecision A} (text : string) (value : A) : JsonText A := {|
  from_str input := if decide (input = text) then Some value else None;
  to_string a := if decide (a = value) then Some text else None
|}.

(** A serializer of none. *)
Definition nothing (A : Type) : JsonText A := {| from_str _ := None; to_string _ := None |}.

#[local] Instance OrderText : JsonText StartWorkflowRequest := single "{}" order.
#[local] Instance TicketText : JsonText StartTicketDocument :=
  single "{}" (mkStartTicketDocument "ticket-1").
#[local] Instance OutcomeText : JsonText StartWorkflowOutcomeDocument :=
  single "{}" (Document_Unknown "start-1" "order-7").
#[local] Existing Instance nothing | 100.

(** ** Outcomes *)

(** A service that knows no token and answers nothing else. *)
Definition silent_services : Services () := {|
  sv_start _ := Replied 1 (Err (mkStatus Code_NotFound "" []));
  sv_cancel _ := Replied 1 (Err (mkStatus Code_NotFound "" []));
  sv_terminate _ := Replied 1 (Err (mkStatus Code_NotFound "" []));
  sv_reset _ := Replied 1 (Err (mkStatus Code_NotFound "" []));
  sv_signal _ := Replied 1 (Err (mkStatus Code_NotFound "" []));
  sv_query _ := Replied 1 (Err (mkStatus Code_NotFound "" []));
  sv_poll_update _ := Replied 1 (Err (mkStatus Code_NotFound "" []));
  sv_list _ := Replied 1 (Err (mkStatus Code_NotFound "" []));
  sv_update := [];
  sv_wait := [];
  sv_history := [];
  sv_activity _ := Err (mkStatus Code_NotFound "" []);
  sv_client_created := true;
  sv_finished _ := false;
  sv_first_reply := None
|}.

Definition settings : HeartbeatIntervals := mkHeartbeatIntervals 60 30.

Definition cancelled_call : ClientRpc :=
  Rpc_AsyncActivity (Async_Cancelled [x01] None)
    (Some (mkAsyncActivityBinding "payments" settings 16)).

Lemma outcome_never_closed_witness :
  (into_future (λ _, []) "worker" silent_services cancelled_call empty_throttle).1
    = Finished (Ok ASYNC_ACTIVITY_NOT_FOUND_OUTCOME)
  ∧ not_closed (Ok ASYNC_ACTIVITY_NOT_FOUND_OUTCOME).
Proof.
  split; [by vm_compute|].
  apply (outcome_never_closed (λ _, []) "worker" silent_services cancelled_call empty_throttle).
  by vm_compute.
Defined.

(** ** One graph *)

Definition idle_process : World := mkWorld Registry_default 1 0 ∅ ∅ ∅ [].

Lemma idle_process_ok owner : process_ok owner idle_process.
Proof. by split. Qed.

Definition local_url (_ : string) : result (string * bool) string := Ok ("http"%string, true).
Definition local_server : ClientConfig :=
  mkClientConfig "http://localhost:7233" "worker" None (Some 2) None.

(** A connection, a start, its ticket read too early, and a heartbeat; then a close that
    leaves both tasks to the cleanup thread. *)
Definition started_order : list Input :=
  [I_Connect local_server Handshake_Done;
   I_BeginStart (into_bytes "{}") None ["ticket-1"];
   I_ReadStart (into_bytes "{}") [];
   I_Heartbeat [x01] None].

Definition closed_order : list Input := started_order ++ [I_Close false].

Definition new_graph : Graph := Runtime_new 7 settings idle_process.

Lemma client_calls_bounded_witness :
  ∃ g, graph_run local_url new_graph started_order = Some g
    ∧ (size (starts g), pending_starts (limits g)) = (1%nat, 2)
    ∧ N.of_nat (size (starts g)) ≤ pending_starts (limits g).
Proof.
  assert (option_map (λ g, (size (starts g), pending_starts (limits g)))
    (graph_run local_url new_graph started_order) = Some (1%nat, 2)) as Hv by (vm_compute; reflexivity).
  destruct (graph_run local_url new_graph started_order) as [g|] eqn:Hrun; [|discriminate Hv].
  pose proof (client_calls_bounded local_url 7 settings idle_process started_order g
    (idle_process_ok 7) ltac:(vm_compute; discriminate) Hrun) as (_ & _ & _ & Hs & _).
  exists g. split; [reflexivity|]. split; [|exact Hs].
  exact (f_equal (from_option id (1%nat, 2)) Hv).
Defined.

Lemma no_task_detached_witness :
  ∃ g, graph_run local_url new_graph closed_order = Some g
    ∧ (core_open g, elements (running (world g))) = (false, [(0, 0); (1, 0)])
    ∧ ∀ t, t ∈ running (world g) → t ∈ cleanup g ∧ t ∈ aborted (world g).
Proof.
  assert (option_map (λ g, (core_open g, elements (running (world g))))
    (graph_run local_url new_graph closed_order)
    = Some (false, [(0, 0); (1, 0)])) as Hv by (vm_compute; reflexivity).
  destruct (graph_run local_url new_graph closed_order) as [g|] eqn:Hrun;
    [|discriminate Hv].
  pose proof (no_task_detached local_url 7 settings idle_process closed_order g
    (idle_process_ok 7) ltac:(vm_compute; discriminate) Hrun) as (_ & _ & Hclosed & _).
  pose proof (f_equal (from_option id (true, [])) Hv) as He.
  exists g. split; [reflexivity|]. split; [exact He|]. apply Hclosed. exact (f_equal fst He).
Defined.

(** ** Tickets *)

Definition connected_graph : Graph := set_client true ClientLimits_default new_graph.

Definition ticketed_graph : Graph :=
  set_starts {["ticket-1" := mkPendingStart order (0, 0)]} (spawn_task (world connected_graph)).2
    connected_graph.

Lemma begin_start_idempotent_witness :
  begin_start_workflow_json (into_bytes "{}") None ["ticket-1"] connected_graph
    = Some (Ok (into_bytes "{}"), ticketed_graph)
  ∧ begin_start_workflow_json (into_bytes "{}") None [] ticketed_graph
    = Some (Ok (into_bytes "{}"), ticketed_graph).
Proof.
  split; [by vm_compute|].
  apply (begin_start_idempotent (into_bytes "{}") None ["ticket-1"] connected_graph). by vm_compute.
Defined.

Lemma start_ticket_read_once_witness :
  let g' := (read_start_workflow_json (into_bytes "{}") [O_Ends (0, 0)] ticketed_graph).2 in
  (read_start_workflow_json (into_bytes "{}") [O_Ends (0, 0)] ticketed_graph).1
    = Ok (into_bytes "{}")
  ∧ read_start_workflow_json (into_bytes "{}") [] g' = (Err unknown_ticket, g').
Proof.
  split; [by vm_compute|].
  apply (start_ticket_read_once (into_bytes "{}") [O_Ends (0, 0)] [] ticketed_graph (into_bytes "{}")).
  by vm_compute.
Defined.
