(* ===== verification/ReferenceHandoffs.v ===== *)
(** * A worker at concrete inputs

    One activation with one written form, and the theorems about the worker side of a
    runtime graph applied to a worker that is handed it. *)

From S2P Require Import Prelude.
From S2P Require Import Text.
From S2P Require Import TaskLedger.
From S2P Require Import Readiness.
From S2P Require Import PollLanes.
From S2P Require Import Protocol.
From S2P Require Import ProtocolCodec.
From S2P Require Import ReferenceCodec.
From S2P Require Import WorkflowTypes.
From S2P Require Import CoreMessages.
From S2P Require Import WorkflowChecks.
From S2P Require Import CoreConversion.
From S2P Require Import ActivationConversion.
From S2P Require Import ReferenceCore.
From S2P Require Import ActivityProtocol.
From S2P Require Import Documents.
From S2P Require Import ActivityDocuments.
From S2P Require Import ReferenceDocuments.
From S2P Require Import ClientCalls.
From S2P Require Import WorkerConfig.
From S2P Require Import Failures.
From S2P Require Import Handoffs.
From S2P Require Import HandoffSafety.
Local Open Scope N_scope.

Definition timer_activation : Core.WorkflowActivation := {|
  Core.wa_run_id := "run";
  Core.wa_timestamp := Some (Core.mkTimestamp 1 0);
  Core.wa_is_replaying := false;
  Core.wa_history_length := 7;
  Core.wa_jobs := [Some (Core.Job_FireTimer 3)];
  Core.wa_available_internal_flags := [];
  Core.wa_history_size_bytes := 100;
  Core.wa_continue_as_new_suggested := false;
  Core.wa_deployment_version_for_current_task := None;
  Core.wa_last_sdk_version := "";
  Core.wa_suggest_continue_as_new_reasons := [];
  Core.wa_target_worker_deployment_version_changed := false
|}.

Definition timer_document : Activation :=
  match activation_from_core timer_activation with
  | Ok semantic => semantic
  | Err _ => mkActivation "" None false 0 [] None
  end.

(** It is written as the empty object. *)
#[local] Instance OneActivation : Serde Activation := {|
  to_value a := if decide (a = timer_document) then Some (VObject []) else None;
  from_value v := match v with VObject [] => Some timer_document | _ => None end
|}.

Definition never_evicts (_ : Core.WorkflowActivation) : bool := false.
Definition never_empty (_ : Core.WorkflowActivationCompletion) : bool := false.

(** A worker whose lane has admitted the run. *)
Definition admitted : list WorkerInput :=
  [W_Client true; W_Start autoscaled_worker true true; W_Lanes [OpAdmitPolledActivation "run" false]].

Definition handed_out : list WorkerInput :=
  admitted ++ [W_Poll (Some (Ok timer_activation)) [] (Ok tt)].

Notation run := (worker_run never_evicts never_empty (λ _, None) Workers_new).


