(* ===== verification/ReferenceRuntime.v ===== *)
(** * A runtime at concrete inputs

    A runtime that connects and starts a worker, whose lane admits an activation that is
    polled; disconnecting it is refused.  The theorem about the whole is applied there. *)

From S2P Require Import Prelude.
From S2P Require Import Text.
From S2P Require Import TaskLedger.
From S2P Require Import Readiness.
From S2P Require Import PollLanes.
From S2P Require Import Replay.
From S2P Require Import ReplayWorker.
From S2P Require Import Protocol.
From S2P Require Import ProtocolCodec.
From S2P Require Import WorkflowTypes.
From S2P Require Import CoreMessages.
From S2P Require Import WorkflowChecks.
From S2P Require Import Documents.
From S2P Require Import CoreConversion.
From S2P Require Import ActivationConversion.
From S2P Require Import CompletionConversion.
From S2P Require Import ActivityProtocol.
From S2P Require Import ActivityDocuments.
From S2P Require Import ClientTypes.
From S2P Require Import ClientChecks.
From S2P Require Import ClientStatus.
From S2P Require Import ClientMessages.
From S2P Require Import ClientOperations.
From S2P Require Import ClientLoops.
From S2P Require Import ClientDocuments.
From S2P Require Import HeartbeatThrottle.
From S2P Require Import ClientCalls.
From S2P Require Import WorkerConfig.
From S2P Require Import Failures.
From S2P Require Import AsyncActivity.
From S2P Require Import ClientRpc.
From S2P Require Import RuntimeCalls.
From S2P Require Import RuntimeSafety.
From S2P Require Import Handoffs.
From S2P Require Import HandoffSafety.
From S2P Require Import Abi.
From S2P Require Import RuntimeGraph.
From S2P Require Import ReferenceCodec.
From S2P Require Import ReferenceCore.
From S2P Require Import ReferenceDocuments.
From S2P Require Import ReferenceClient.
From S2P Require Import ReferenceCalls.
From S2P Require Import ReferenceHandoffs.
Local Open Scope N_scope.

#[local] Instance TimerText : Serde Activation := {|
  to_value a := if decide (a = timer_document) then Some (VObject []) else None;
  from_value v := match v with VObject [] => Some timer_document | _ => None end
|}.
#[local] Existing Instance nothing | 100.

Definition polled_run : list (RuntimeStep ()) :=
  [S_Client (I_Connect local_server Handshake_Done);
   S_Worker (W_Start autoscaled_worker true true);
   S_Worker (W_Lanes [OpAdmitPolledActivation "run" false]);
   S_Worker (W_Poll (Some (Ok timer_activation)) [] (Ok tt));
   S_Client I_Disconnect].

Notation whole := (runtime_run (λ _ : list (), []) "worker" local_url never_evicts never_empty (λ _, None)).

