(* ===== verification/ReferenceReplay.v ===== *)
(** * Replays at concrete inputs

    A codec of histories, a serializer of replay documents and a view of Core's
    history check, and the theorems about replays applied under them. *)

From stdpp Require Import countable.
From S2P Require Import Prelude.
From S2P Require Import Text.
From S2P Require Import TaskLedger.
From S2P Require Import Readiness.
From S2P Require Import PollLanes.
From S2P Require Import LaneDebts.
From S2P Require Import LaneSafety.
From S2P Require Import LaneTheorems.
From S2P Require Import Protocol.
From S2P Require Import ProtocolCodec.
From S2P Require Import ReferenceCodec.
From S2P Require Import CoreMessages.
From S2P Require Import ClientDocuments.
From S2P Require Import Replay.
From S2P Require Import ReplayWorker.
From S2P Require Import ReplaySafety.
From S2P Require Import ReplayNatural.

(** ** Histories as bytes *)

#[global] Instance CoreTimestamp_eq_dec : EqDecision Core.Timestamp.
Proof. solve_decision. Defined.
#[global] Instance StartedAttributes_eq_dec : EqDecision StartedAttributes.
Proof. solve_decision. Defined.
#[global] Instance EventAttributes_eq_dec : EqDecision EventAttributes.
Proof. solve_decision. Defined.
#[global] Instance ReplayEvent_eq_dec : EqDecision ReplayEvent.
Proof. solve_decision. Defined.

#[global] Instance CoreTimestamp_countable : Countable Core.Timestamp.
Proof.
  apply (inj_countable' (λ t, (Core.ts_seconds t, Core.ts_nanos t))
    (λ p, Core.mkTimestamp p.1 p.2)). by intros [].
Defined.

#[global] Instance StartedAttributes_countable : Countable StartedAttributes.
Proof.
  apply (inj_countable' (λ s, (sa_workflow_id s, sa_task_queue s))
    (λ p, mkStartedAttributes p.1 p.2)). by intros [].
Defined.

#[global] Instance EventAttributes_countable : Countable EventAttributes.
Proof.
  apply (inj_countable' (λ a, match a with
      | WorkflowExecutionStartedEventAttributes started => Some started
      | OtherEventAttributes => None
      end)
    (λ o, match o with
      | Some started => WorkflowExecutionStartedEventAttributes started
      | None => OtherEventAttributes
      end)). by intros [].
Defined.

#[global] Instance ReplayEvent_countable : Countable ReplayEvent.
Proof.
  apply (inj_countable'
    (λ e, (re_event_id e, re_event_type e, re_event_time e, re_attributes e, re_rest e))
    (λ p, mkReplayEvent p.1.1.1.1 p.1.1.1.2 p.1.1.2 p.1.2 p.2)). by intros [].
Defined.

Fixpoint pos_bytes (p : positive) : list byte :=
  match p with
  | xH => []
  | xO p => x00 :: pos_bytes p
  | xI p => x01 :: pos_bytes p
  end.

Fixpoint bytes_pos (bytes : list byte) : option positive :=
  match bytes with
  | [] => Some xH
  | x00 :: bytes => xO <$> bytes_pos bytes
  | x01 :: bytes => xI <$> bytes_pos bytes
  | _ => None
  end.

Lemma bytes_pos_bytes p : bytes_pos (pos_bytes p) = Some p.
Proof. induction p as [p IH|p IH|]; cbn; by rewrite ?IH. Qed.

(** Core accepts a history that begins with a start event; the run is fixed. *)
#[export] Instance ReferenceReplayCore : ReplayCore := {|
  HistoryInfo := History;
  history_decode bytes := bytes_pos bytes ≫= countable.decode;
  history_encode h := pos_bytes (countable.encode h);
  new_from_history h :=
    Some (match head h ≫= re_attributes with
          | Some (WorkflowExecutionStartedEventAttributes _) => Some h
          | _ => None
          end);
  orig_run_id _ := "run-1";
  info_history h := h;
  workflow_task_started := 6%Z
|}.

#[export] Instance ReferenceReplayCore_laws : ReplayCoreLaws.
Proof.
  split. intros h. unfold history_decode, history_encode; cbn.
  rewrite bytes_pos_bytes. apply decode_encode.
Qed.

(** ** Replay documents as text *)

Definition document_tree (d : ReplayHistoryDocument) : JsonValue :=
  JObject [("history", JObject [("data", JString (rp_data (rd_history d)));
                                ("encoding", JString (rp_encoding (rd_history d)))]);
           ("workflow_id", JString (rd_workflow_id d))].

Definition document_of_text (text : string) : option ReplayHistoryDocument :=
  match serde_parse text with
  | Some (RMap [("history", RMap [("data", RStr data); ("encoding", RStr encoding)]);
                ("workflow_id", RStr workflow_id)], true) =>
      Some (mkReplayHistoryDocument workflow_id (mkReplayPayload encoding data))
  | _ => None
  end.

#[global] Instance ReplayPayload_eq_dec : EqDecision ReplayPayload.
Proof. solve_decision. Defined.
#[global] Instance ReplayHistoryDocument_eq_dec : EqDecision ReplayHistoryDocument.
Proof. solve_decision. Defined.

(** A document is written if its text reads back. *)
#[export] Instance ReferenceReplayText : JsonText ReplayHistoryDocument := {|
  from_str := document_of_text;
  to_string d :=
    match render_json (document_tree d) with
    | Ok text => if decide (document_of_text text = Some d) then Some text else None
    | Err _ => None
    end
|}.

#[export] Instance ReferenceReplayText_laws : JsonTextLaws ReplayHistoryDocument.
Proof.
  split. intros d text. unfold to_string, from_str; cbn [ReferenceReplayText].
  destruct (render_json _); [|done]. destruct (decide _); [|done]. by intros [= <-].
Qed.

(** ** One history *)

Definition recorded : History :=
  [mkReplayEvent 1 1 None
     (Some (WorkflowExecutionStartedEventAttributes (mkStartedAttributes "order" (Some "q")))) [];
   mkReplayEvent 2 6 (Some (Core.mkTimestamp 1 0)) (Some OtherEventAttributes) []].

Definition recorded_text : string :=
  match encode_history_document "order" recorded with Ok text => text | Err _ => "" end.

Lemma recorded_encodes : encode_history_document "order" recorded = Ok recorded_text.
Proof. by vm_compute. Qed.

Lemma history_document_round_trip_witness :
  encode_history_document "order" recorded = Ok recorded_text ∧
  ∃ info canonical_info,
    new_from_history recorded = Some (Some info) ∧
    new_from_history (info_history info) = Some (Some canonical_info) ∧
    decode_history_document recorded_text = Ok (mkHistoryForReplay canonical_info "order") ∧
    replayable (info_history info) "order".
Proof.
  split; [exact recorded_encodes|].
  exact (history_document_round_trip "order" recorded recorded_text recorded_encodes).
Defined.

(** ** A replay that ends by itself *)

Definition sample_replay : list ReplayInput :=
  [RvCall (FeedJson recorded_text); RvFeed Fed; RvCall FinishInput;
   RvWorld (EvWorkflowLane (Polled (sample_activation false)));
   RvWorld (EvWorkflowLane PollShutDown); RvWorld (EvWorkflowLane PollShutDown);
   RvCall TryTakeWorkflow; RvWorld (EvOwner InNone); RvWorld (EvOwner InNone); RvResume;
   RvCall (CompleteWorkflow sample_completion); RvWorld (EvOwner InNone);
   RvWorld (EvOwner (InWorkflowReply (Finished (Ok tt)))); RvResume;
   RvWorld (EvWorkflowLane PollShutDown); RvWorld (EvWorkflowLane PollShutDown);
   RvCall (WaitWorkflow 0); RvWake false 0;
   RvCall Finalize; RvWorld (EvOwner InNone); RvResume;
   RvWorld (EvOwner InNone); RvWorld (EvOwner (InSelect (SelJoinWorkflow None)));
   RvWorld (EvOwner InNone); RvResume;
   RvWorld (EvOwner InNone); RvResume].

Local Notation replay inputs := (replay_run (C := ListChan) sample_is_local inputs started).

Definition initiates (c : CoreCall) : bool :=
  match c with InitiateShutdown => true | _ => false end.

Lemma initiates_none calls : existsb initiates calls = false → InitiateShutdown ∉ calls.
Proof.
  intros Hnone Hin. assert (existsb initiates calls = true); [|congruence].
  apply existsb_exists. exists InitiateShutdown. split; [by apply list_elem_of_In|done].
Qed.

Definition disposes (input : ReplayInput) : bool :=
  match input with RvCall Dispose => true | _ => false end.

Lemma disposes_none inputs : existsb disposes inputs = false → RvCall Dispose ∉ inputs.
Proof.
  intros Hnone Hin. assert (existsb disposes inputs = true); [|congruence].
  apply existsb_exists. exists (RvCall Dispose). split; [by apply list_elem_of_In|done].
Qed.

Lemma finalized_replay_is_evidence_witness :
  ∃ r, replay sample_replay = Some r ∧ rw_released r = Some ReleasedByFinalize ∧
    rw_feeder r = false ∧ rw_shutdown_observed r = true ∧
    occurrences (WorkflowDebt "run-1") (polled (rw_world r)) =
    occurrences (WorkflowDebt "run-1") (settled (lanes (rw_world r))) +
    occurrences (WorkflowDebt "run-1") (dropped (rw_world r)).*1.
Proof.
  assert (Hr : (λ r, (rw_released r, existsb initiates (core_calls (lanes (rw_world r)))))
    <$> replay sample_replay = Some (Some ReleasedByFinalize, false)) by (vm_compute; reflexivity).
  destruct (replay sample_replay) as [r|] eqn:E; [|discriminate].
  injection Hr as Hrel Hcalls. apply initiates_none in Hcalls.
  exists r. split; [reflexivity|]. split; [exact Hrel|].
  assert (RvCall Dispose ∉ sample_replay) as Hd by (apply disposes_none; reflexivity).
  destruct (finalized_replay_is_evidence sample_is_local sample_replay r E Hd Hrel Hcalls)
    as (Hfeed & Hobs & _ & _ & _ & Hbalance & _).
  split; [exact Hfeed|]. split; [exact Hobs|]. exact (Hbalance (WorkflowDebt "run-1")).
Defined.

(** ** A lane that does not stop *)

Definition sample_stuck : list ReplayInput :=
  [RvCall Dispose; RvWorld (EvOwner InNone); RvWorld (EvOwner InNone); RvWorld (EvOwner InNone);
   RvResume;
   RvWorld (EvOwner InNone); RvWorld (EvOwner InNone); RvWorld (EvOwner InNone);
   RvWorld (EvOwner InNone); RvResume;
   RvWorld (EvOwner InNone); RvWorld EvReplayElapsed; RvWorld (EvOwner InNone);
   RvWorld (EvOwner InNone); RvResume].

Lemma stuck_worker_not_finalized_witness :
  ∃ r, replay sample_stuck = Some r ∧ replay_join_timed_out (lanes (rw_world r)) = true ∧
    FinalizeShutdown ∉ core_calls (lanes (rw_world r)) ∧
    ∃ r', replay_step sample_is_local (RvCall Dispose) r = Some r' ∧ rw_released r' = Some Leaked.
Proof.
  assert (Hr : (λ r, (replay_join_timed_out (lanes (rw_world r)), rw_released r, rw_results r))
    <$> replay sample_stuck = Some (true, None, [DisposeResult (Err (ReplayPollLane
      (LaneCore "workflow poll lane did not stop within its bound")))]))
    by (vm_compute; reflexivity).
  assert (Hp : (λ r, match rw_point r with None => true | _ => false end) <$> replay sample_stuck =
    Some true) by (vm_compute; reflexivity).
  destruct (replay sample_stuck) as [r|] eqn:E; [|discriminate].
  injection Hr as Ht Hrel _. injection Hp as Hp.
  assert (rw_point r = None) as Hpoint by (destruct (rw_point r); done).
  exists r. split; [reflexivity|]. split; [exact Ht|].
  destruct (stuck_worker_not_finalized sample_is_local sample_stuck r E Ht) as (Hfin & _ & Hcalls).
  split; [exact Hfin|]. destruct (Hcalls Hpoint Hrel) as [_ (r' & Hstep & _ & Hleak & _)].
  exists r'. split; [exact Hstep|exact Hleak].
Defined.
